(* ===== verification/_CoqProject ===== *)
-Q . S2P
Prelude.v
CoreCoord.v
FreeList.v
FreeListRep.v
FreeListOps.v
FreeListDealloc.v
FreeListSpec.v
FreeListTheorems.v
FreeListQuery.v
FreeListProps.v
WorkSplit.v
WorkSplitProps.v
Allocator.v
AllocatorProps.v
Memory.v
ConfigBuffer.v
ConfigBufferRing.v
ConfigBufferProps.v
ConfigBufferLaunches.v
ConfigBufferEmpty.v
SystemMemory.v
IssueRing.v
SystemMemoryOps.v
Prefetcher.v
CommandQueueSystem.v
CommandQueueInv.v
CommandQueueHost.v
CommandQueueKernel.v
CommandQueueSteps.v
CommandQueueLive.v
CommandQueueConfig.v
CommandQueueProps.v
Buffers.v
BufferPages.v
BufferIO.v
BufferIOProps.v
BufferProps.v
WorkQueue.v
WorkQueueProps.v
AllocatorLive.v
BufferLife.v
BufferLifeProps.v
BufferLifeTheorems.v
BlockFloat.v
BlockFloatProps.v
Tiles.v
TileLanes.v
TilePack.v
TileRoundtrip.v
TileUnpack.v
TileProps.v
Tilize.v
TilizeProps.v
CompletionCopy.v
CompletionCopyProps.v
CompletionTurn.v
CompletionCut.v
CompletionQueue.v
CompletionRing.v
CompletionFlight.v
CompletionQueueProps.v
CircularBuffer.v
ProgramBuffers.v
ProgramBuffersProps.v
ProgramBuffersInv.v
ProgramBuffersOps.v
ProgramBuffersTheorems.v
ProgramBuffersLive.v
ProgramBuffersSafe.v
DeviceCB.v
DeviceCBInv.v
DeviceCBSteps.v
DeviceCBProps.v
RemoteCB.v
RemoteCBProps.v
