(* ===== verification/Prelude.v ===== *)
(** * Verification of the host runtime of tt-metal

    The host runtime hands out the memory of a chip, moves buffers to and from it,
    splits work over its cores and drives it through command queues.  This library
    translates the parts of it that carry its own logic from C++ into Gallina, function
    by function, and proves what makes them correct.  File names below are under src/,
    those of the library have the ending .v.

    ** The parts and how they meet

    - Cores.  CoreCoord.v ([tt_metal/common/core_coord.cpp]): ranges and sets of ranges
      of cores, their merge, containment and iteration.  WorkSplit.v
      ([tt_metal/common/work_split.cpp]): how many units of work each core gets.
      Buffers, circular buffers and allocators say with ranges where they lie.
    - Device memory.  FreeList.v ([tt_metal/impl/allocator/algorithms/free_list.cpp]):
      blocks in two doubly linked lists, with every pointer assignment an update of a
      heap.  Allocator.v ([allocator.cpp], [l1_banking_allocator.cpp]): a bank manager
      per kind of memory, each over a free list, and the tables between banks and cores.
    - Buffers.  Buffers.v ([tt_metal/impl/buffers/buffer.cpp]): sizes, shards, the page
      mapping.  BufferIO.v ([tt_metal/tt_metal.cpp]): WriteToBuffer and ReadFromBuffer.
      BufferLife.v: creation, allocation and deallocation through the worker thread of
      the device, whose queue is WorkQueue.v ([lock_free_queue.hpp],
      [work_executor.hpp]).
    - Circular buffers.  CircularBuffer.v ([circular_buffer_types.cpp],
      [circular_buffer.cpp]) and ProgramBuffers.v ([tt_metal/impl/program/program.cpp]):
      configurations, and the places a program gives them below the buffers of the
      allocator.  DeviceCB.v ([hw/inc/circular_buffer.h], [dataflow_api.h],
      [ckernels/.../llk_io_pack.h], [llk_io_unpack.h]): how kernels on a core pass pages
      through one.  RemoteCB.v ([hw/inc/remote_circular_buffer_api.h]): rings between a
      sender core and its receivers.
    - Command queues.  SystemMemory.v ([command_queue_interface.hpp]): the issue and
      completion regions in host memory and their pointers.  Prefetcher.v
      ([kernels/cq_prefetch.cpp]): the kernel that fetches commands from there.
      CommandQueueSystem.v: both, interleaved.  CompletionCopy.v and CompletionQueue.v
      ([command_queue.cpp], [kernels/cq_dispatch.cpp]): the way back, from the dispatcher
      through the completion region to the reader thread and user memory.
      ConfigBuffer.v ([worker_config_buffer.cpp]): the ring that holds the configuration
      of the programs in flight.  Memory.v: bytes at addresses, for all of them.
    - Numbers.  BlockFloat.v and Tiles.v ([tt_metal/common/blockfloat_common.hpp],
      [bfloat8.hpp], [bfloat4.hpp], [tt_metal/impl/tile/tile.hpp]): numbers that share
      an exponent, and tiles of them.  Tilize.v ([tilize_untilize.hpp]): the order of
      elements in tiles.

    ** How state and failures are modelled

    Integers are Z with the wrap-around of their width written out.  A member function
    is a computation of [M]: it takes the object and returns it with a value or an error,
    and what it changed before it threw stays changed.  [Throw], [Fatal] and [Assert] are
    the exceptions of TT_THROW, TT_FATAL and TT_ASSERT (of a debug build, unless a
    definition takes [debug]); [Undefined] is undefined behaviour, an access out of range
    or a division by zero, so a theorem that a call succeeds also says that it has none.
    Threads, kernels and the memory between them are step relations whose steps are the
    stretches of code between two accesses to shared state.  Atomics are sequentially
    consistent; transfers over the network on chip land later, in their order.

    ** What is proved

    - FreeListProps.v: the pointer code refines a map of ranges (FreeListSpec.v); an
      allocation is free, aligned and disjoint, fails only when nothing fits, and freeing
      it restores the map.  AllocatorProps.v, AllocatorLive.v: the same for buffers in
      banks; the tables of banks and cores agree.
    - BufferProps.v: the page mapping of a sharded buffer is a bijection; what is written
      is read back, in every layout.  BufferLifeTheorems.v: in any interleaving of
      clients and worker, buffers keep apart, all memory comes back, only allocation can
      fail.  WorkQueueProps.v: work runs once and in order, barriers wait, calls return.
    - ProgramBuffersSafe.v: circular buffers on a common core do not overlap as long as
      ranges that meet are equal, lie in their region, never share an index, and can be
      placed whenever there is room; with ranges that cross they can overlap.
      DeviceCBProps.v: for any kernels at the two ends, in any interleaving, the pages
      come out in order and as they went in, and the ends are never stuck.
      RemoteCBProps.v: a block lands where the receiver reads it.
    - CommandQueueProps.v: every interleaving of host and prefetcher relays the commands
      in order, and what is read is not overwritten; all can be relayed, unless a TERMINATE
      among them ends the prefetcher or, on an idle ethernet core, it is told to exit.
      CompletionQueueProps.v: every interleaving of dispatcher and reader ends with the
      pages of the buffer in user memory.  ConfigBufferProps.v: configurations of programs
      in flight keep apart, when each asks at least one byte of every core type.
      ConfigBufferLaunches.v: launches always succeed, also of programs that ask no bytes
      of some core types; ConfigBufferEmpty.v: what such a request can lead to.
    - CoreCoord.v, WorkSplitProps.v: merging keeps the cores; the split is exact.
      BlockFloatProps.v, TileProps.v, TilizeProps.v: the error of a block format, tiles
      packed and unpacked, tilize against its inverse.
    - Errors: the conditions under which the code does not do what it means to are
      theorems of their own (FreeListProps.reset_size_breaks_list,
      WorkSplitProps.subcoregrids_lose_single_core,
      AllocatorProps.failed_allocation_leaks, ConfigBufferEmpty.empty_request_overlaps,
      BufferProps.write_leaves_the_array, CompletionCut.cut_padding_shifts_page,
      ProgramBuffersSafe.crossing_ranges_overlap, DeviceCBProps.compute_producer_overruns,
      RemoteCBProps.remote_reserve_never_waits, RemoteCBProps.resize_misplaces_pages).

    ** Bounds and fuel

    Loops whose end is not structural take fuel; running out of it is the error
    [OutOfFuel], which no theorem on success allows.  A walk along the blocks of a free
    list has as much as there were cells, the loops of the configuration ring its eight
    entries, the scans of a grid its width, those of copy_into_user_space the bytes to
    read.  Where the host polls the device, a definition is
    given the list of values it reads, and the step relations say which lists those can
    be.  Loop counters of type int are taken to stay below 2^31.

    ** What is left to parameters, and why

    The order in which an unordered container is walked, the shuffle of the standard
    library, the order of coordinates (a submodule), the addresses of the hardware layer
    and the cluster, and the hooks of the graph tracker are parameters.  Sub-device
    managers are fixed while buffers live.  Vector instructions have their documented
    meaning on lanes.  The tile theorems are for an L1 alignment of 16.  The lock-free
    queue is used by one pushing thread at a time, as its contract says; a push by the
    worker itself runs in place.  The theorems on
    the completion queue are for one read at a time, with layouts whose padding is not
    cut; CompletionCut.v shows why.  Those on the circular buffers of a core take the
    packer and the unpacker as queues done in order, leave delays and caches out, and
    behind a compute kernel on Wormhole and Blackhole are for the first 2^16 pages;
    DeviceCBProps.compute_producer_overruns shows why.

    ** What is not modelled

    The prefetcher on the device side (kernel_main_d, kernel_main_hd), its last wait for
    its pages after the main loop, and the dispatcher's
    other commands, the multiplexers and tunnelers between chips: they rest on address
    generators and streams of the hardware headers.  Of those headers only circular
    buffers are modelled.  Compilation of programs, the
    just-in-time build, start-up of devices, the cluster driver, profiler and debugging
    servers: input and output.  Semaphores, traces, events and meshes of devices: records
    and tables with little logic of their own.  The operations of the tensor library, of
    which there are hundreds, the training library, models, tests and bindings.

    ** This file

    The vocabulary shared by all others: machine-width integers, the outcome of a C++
    call, the monad of member functions, counted loops, and lemmas on lists and
    arithmetic. *)

From Stdlib Require Import ZArith Lia.
From stdpp Require Export base tactics list list_numbers gmap strings sorting.

Declare Scope tt_scope.
Delimit Scope tt_scope with tt.
Open Scope Z_scope.
#[export] Set Warnings "-clear-no-such-hyp".

(** ** Machine integers *)

Definition u32 (z : Z) : Z := z mod 2 ^ 32.
Definition u64 (z : Z) : Z := z mod 2 ^ 64.
(** Two's complement reading of a 32-bit pattern: [static_cast<int32_t>]. *)
Definition i32 (z : Z) : Z := (z + 2 ^ 31) mod 2 ^ 32 - 2 ^ 31.

Definition is_u32 (z : Z) : Prop := 0 <= z < 2 ^ 32.
Definition is_u64 (z : Z) : Prop := 0 <= z < 2 ^ 64.

#[export] Instance is_u32_dec z : Decision (is_u32 z).
Proof. unfold is_u32. apply _. Defined.
#[export] Instance is_u64_dec z : Decision (is_u64 z).
Proof. unfold is_u64. apply _. Defined.

Lemma u32_small z : 0 <= z < 2 ^ 32 -> u32 z = z.
Proof. apply Z.mod_small. Qed.

Lemma u64_small z : 0 <= z < 2 ^ 64 -> u64 z = z.
Proof. apply Z.mod_small. Qed.

Lemma u32_range z : 0 <= u32 z < 2 ^ 32.
Proof. apply Z.mod_pos_bound. reflexivity. Qed.

Lemma u64_range z : 0 <= u64 z < 2 ^ 64.
Proof. apply Z.mod_pos_bound. reflexivity. Qed.

Lemma i32_small z : - 2 ^ 31 <= z < 2 ^ 31 -> i32 z = z.
Proof. intros H. unfold i32. rewrite Z.mod_small; lia. Qed.

Lemma pow2_32 : 2 ^ 32 = 4294967296. Proof. reflexivity. Qed.
Lemma pow2_64 : 2 ^ 64 = 18446744073709551616. Proof. reflexivity. Qed.
Lemma pow2_31 : 2 ^ 31 = 2147483648. Proof. reflexivity. Qed.

(** Removes the wrap-arounds whose argument [lia] can bound. *)
Ltac pow2 := rewrite ?pow2_32, ?pow2_64, ?pow2_31 in *.
Ltac unwrap1 :=
  match goal with
  | |- context [u32 ?z] => rewrite (u32_small z) by (pow2; lia)
  | |- context [u64 ?z] => rewrite (u64_small z) by (pow2; lia)
  | |- context [i32 ?z] => rewrite (i32_small z) by (pow2; lia)
  end.
Ltac unwrap := repeat unwrap1.
Ltac unwrap_in H :=
  repeat match type of H with
  | context [u32 ?z] => rewrite (u32_small z) in H by (pow2; lia)
  | context [u64 ?z] => rewrite (u64_small z) in H by (pow2; lia)
  | context [i32 ?z] => rewrite (i32_small z) in H by (pow2; lia)
  end.

(** ** Outcomes *)

(** How a call can end other than by returning: an exception raised by
    [TT_THROW] or [TT_FATAL], a [TT_ASSERT] of a debug build, a standard-library
    exception ([.at] out of range, a bad variant access), undefined behaviour
    (a null dereference, an out-of-bounds access), and, in the model only, a
    loop whose fuel ran out. *)
Inductive failure : Type :=
  | Throw
  | Fatal
  | Assert
  | StdException
  | Undefined
  | OutOfFuel.

#[export] Instance failure_eq_dec : EqDecision failure.
Proof. solve_decision. Defined.

Inductive res (A : Type) : Type :=
  | Ok (a : A)
  | Err (f : failure).
Arguments Ok {A} a.
Arguments Err {A} f.

#[export] Instance res_eq_dec `{EqDecision A} : EqDecision (res A).
Proof. solve_decision. Defined.

#[export] Instance res_ret : MRet res := fun A a => Ok a.
#[export] Instance res_bind : MBind res :=
  fun A B f r => match r with Ok a => f a | Err e => Err e end.

#[export] Instance res_fmap : FMap res :=
  fun A B f r => match r with Ok a => Ok (f a) | Err e => Err e end.

(** [TT_FATAL(c)], [TT_ASSERT(c)] in code without state. *)
Definition check (f : failure) (c : bool) : res unit :=
  if c then Ok tt else Err f.

Definition opt_res {A} (f : failure) (o : option A) : res A :=
  match o with Some a => Ok a | None => Err f end.

(** [v[i]] and [v[i] = x] of a [std::vector]: an index past the end is undefined
    behaviour.  [update] is the write whose index is known to be in range. *)
Definition at_ {A} (l : list A) (i : Z) : res A := opt_res Undefined (l !! Z.to_nat i).
Definition update {A} (l : list A) (i : Z) (x : A) : list A := <[Z.to_nat i := x]> l.
Definition set_at {A} (i : Z) (x : A) (l : list A) : res (list A) :=
  check Undefined ((0 <=? i) && (i <? Z.of_nat (length l))) ≫= fun _ => Ok (update l i x).

(** A loop over a list that threads a value and stops at the first failure. *)
Fixpoint fold_res {A B} (f : A -> B -> res B) (l : list A) (b : B) : res B :=
  match l with [] => mret b | x :: l => b ← f x b; fold_res f l b end.

Lemma bind_ok {A B} (r : res A) (f : A -> res B) b :
  r ≫= f = Ok b <-> exists a, r = Ok a /\ f a = Ok b.
Proof. destruct r; cbn; [naive_solver|]. split; [done|]. by intros (? & ? & _). Qed.

Lemma res_bind_fmap {A B C} (g : A -> B) (r : res A) (f : B -> res C) :
  ((g <$> r) ≫= f) = (r ≫= fun a => f (g a)).
Proof. by destruct r. Qed.

Lemma res_fmap_bind {A B C} (g : B -> C) (r : res A) (f : A -> res B) :
  g <$> (r ≫= f) = (r ≫= fun a => g <$> f a).
Proof. by destruct r. Qed.

Lemma res_bind_ret {A B} (a : A) (f : A -> res B) : (Ok a ≫= f) = f a.
Proof. done. Qed.

Lemma res_bind_ext {A B} (r : res A) (f g : A -> res B) : (forall a, f a = g a) -> (r ≫= f) = (r ≫= g).
Proof. intros H. destruct r; cbn; auto. Qed.

Lemma check_ok f c u : check f c = Ok u <-> c = true.
Proof. destruct c, u; cbn; split; congruence. Qed.

Lemma check_bind_ok {A} f c (g : unit -> res A) r : (check f c ≫= g) = Ok r -> c = true /\ g tt = Ok r.
Proof. destruct c; cbn; [done|congruence]. Qed.

(** Undoes the binds and checks of a [res] computation that returned. *)
Ltac res_inv :=
  repeat match goal with
  | H : (check ?f ?c ≫= _) = Ok _ |- _ => let Hc := fresh "Hc" in apply check_bind_ok in H as [Hc H]
  | H : mbind _ ?m = Ok _ |- _ => let Hm := fresh "Hm" in let x := fresh "x" in apply bind_ok in H as (x & Hm & H)
  | H : mret _ = Ok _ |- _ => injection H as H
  | H : (_ && _)%bool = true |- _ => apply andb_true_iff in H as [? ?]
  end.

Lemma fold_res_app {A B} (f : A -> B -> res B) l1 l2 b :
  fold_res f (l1 ++ l2) b = (fold_res f l1 b ≫= fold_res f l2).
Proof. revert b. induction l1 as [|a l1 IH]; intros b; cbn; [done|]. destruct (f a b); cbn; [apply IH|done]. Qed.

(** A loop whose steps succeed computes a fold. *)
Lemma fold_res_ok {A B} (f : A -> B -> res B) (g : B -> A -> B) (P : list A -> B -> Prop) l b :
  P [] b -> (forall done x b, P done b -> x ∈ l -> f x b = Ok (g b x) /\ P (done ++ [x]) (g b x)) ->
  fold_res f l b = Ok (foldl g b l) /\ P l (foldl g b l).
Proof.
  intros H0 Hs.
  enough (forall pre, P pre b -> fold_res f l b = Ok (foldl g b l) /\ P (pre ++ l) (foldl g b l)) as He by apply (He [] H0).
  clear H0. revert b. induction l as [|x l IH]; intros b pre H0; cbn; [by rewrite app_nil_r|].
  destruct (Hs pre x b H0 ltac:(left)) as [-> Hx]. cbn.
  destruct (IH ltac:(intros; apply Hs; [done|by right]) (g b x) (pre ++ [x]) Hx) as [-> HP].
  by rewrite <- app_assoc in HP.
Qed.

Lemma update_same {A} (l : list A) i x y : update (update l i x) i y = update l i y.
Proof. apply list_insert_insert_eq. Qed.

Lemma update_id {A} (l : list A) i x : l !! Z.to_nat i = Some x -> update l i x = l.
Proof. apply list_insert_id. Qed.

Lemma update_eq {A} (l : list A) i x y : l !! Z.to_nat i = Some x -> update l i y !! Z.to_nat i = Some y.
Proof. intros H. apply list_lookup_insert_eq. by apply lookup_lt_Some in H. Qed.

Lemma set_at_ok {A} (l : list A) i x : 0 <= i < Z.of_nat (length l) -> set_at i x l = Ok (update l i x).
Proof. intros [H1 H2]. unfold set_at. by rewrite (proj2 (Z.leb_le _ _) H1), (proj2 (Z.ltb_lt _ _) H2). Qed.

Lemma length_update {A} (l : list A) i x : length (update l i x) = length l.
Proof. apply length_insert. Qed.

(** ** State threading *)

Definition M (S A : Type) : Type := S -> S * res A.

#[export] Instance M_ret {S} : MRet (M S) := fun A a s => (s, Ok a).
#[export] Instance M_bind {S} : MBind (M S) :=
  fun A B f m s =>
    match m s with
    | (s', Ok a) => f a s'
    | (s', Err e) => (s', Err e)
    end.

Definition get {S} : M S S := fun s => (s, Ok s).
Definition gets {S A} (f : S -> A) : M S A := fun s => (s, Ok (f s)).
Definition put {S} (s : S) : M S unit := fun _ => (s, Ok tt).
Definition modify {S} (f : S -> S) : M S unit := fun s => (f s, Ok tt).
Definition fail {S A} (f : failure) : M S A := fun s => (s, Err f).
Definition require {S} (f : failure) (c : bool) : M S unit :=
  fun s => (s, check f c).
Definition lift {S A} (r : res A) : M S A := fun s => (s, r).
Definition when {S} (c : bool) (m : M S unit) : M S unit :=
  if c then m else mret tt.

(** Runs an operation of a sub-object through a getter and a setter. *)
Definition zoom {S T A} (g : S -> T) (set : T -> S -> S) (m : M T A) : M S A :=
  fun s => let '(t, r) := m (g s) in (set t s, r).

(** Runs the action on each element in order, stopping at the first failure. *)
Fixpoint mapM_ {S A} (f : A -> M S unit) (l : list A) : M S unit :=
  match l with
  | [] => mret tt
  | x :: l => f x ≫= fun _ => mapM_ f l
  end.

Notation "'require:' f 'unless' c" := (require f c)
  (at level 60, f at level 0, c at level 59, only parsing) : tt_scope.

Lemma M_bind_ok {S A B} (m : M S A) (f : A -> M S B) s s' a :
  m s = (s', Ok a) -> (m ≫= f) s = f a s'.
Proof. intros H. unfold mbind, M_bind. by rewrite H. Qed.

Lemma M_bind_err {S A B} (m : M S A) (f : A -> M S B) s s' e :
  m s = (s', Err e) -> (m ≫= f) s = (s', Err e).
Proof. intros H. unfold mbind, M_bind. by rewrite H. Qed.

Lemma M_bind_inv {S A B} (m : M S A) (f : A -> M S B) s s' b :
  (m ≫= f) s = (s', Ok b) ->
  exists s1 a, m s = (s1, Ok a) /\ f a s1 = (s', Ok b).
Proof.
  unfold mbind, M_bind. destruct (m s) as [s1 [a|e]]; intros H;
    [eauto | congruence].
Qed.

Lemma M_bind_assoc {S A B C} (m : M S A) (f : A -> M S B) (g : B -> M S C) s :
  ((m ≫= f) ≫= g) s = (m ≫= fun a => f a ≫= g) s.
Proof. unfold mbind, M_bind. by destruct (m s) as [s' [a|e]]. Qed.

Lemma require_true {S} f c (s : S) : c = true -> require f c s = (s, Ok tt).
Proof. intros H. unfold require. by rewrite H. Qed.

Lemma when_false {S} (m : M S unit) c s : c = false -> when c m s = (s, Ok tt).
Proof. by intros ->. Qed.

Lemma when_require {S} c f d (s s' : S) u : when c (require f d) s = (s', Ok u) -> s' = s /\ (c = true -> d = true).
Proof. unfold when, require. destruct c; [|by intros [= <-]]. destruct d; cbn; [by intros [= <-]|congruence]. Qed.

(** One step of symbolic execution of a monadic goal. *)
Ltac mstep :=
  first
    [ erewrite M_bind_ok; [| first [reflexivity | eassumption]]
    | erewrite M_bind_err; [| first [reflexivity | eassumption]] ].

(** ** Counted loops *)

(** [for (i = lo; i < hi; i++)] as the list of its indices. *)
Definition zrange (lo hi : Z) : list Z := seqZ lo (hi - lo).

Lemma elem_of_zrange lo hi i : i ∈ zrange lo hi <-> lo <= i < hi.
Proof. unfold zrange. rewrite elem_of_seqZ. lia. Qed.

Lemma length_zrange lo hi : length (zrange lo hi) = Z.to_nat (hi - lo).
Proof. unfold zrange. by rewrite length_seqZ. Qed.

Lemma lookup_zrange lo hi (i : nat) :
  (i < Z.to_nat (hi - lo))%nat -> zrange lo hi !! i = Some (lo + Z.of_nat i).
Proof. intros H. unfold zrange. apply lookup_seqZ_lt. lia. Qed.

Lemma zrange_nil lo hi : hi <= lo -> zrange lo hi = [].
Proof. intros. unfold zrange. apply seqZ_nil. lia. Qed.

Lemma zrange_cons lo hi : lo < hi -> zrange lo hi = lo :: zrange (lo + 1) hi.
Proof.
  intros. unfold zrange. rewrite seqZ_cons by lia.
  f_equal; f_equal; lia.
Qed.

Lemma zrange_app lo mid hi :
  lo <= mid <= hi -> zrange lo hi = zrange lo mid ++ zrange mid hi.
Proof.
  intros. unfold zrange. replace (hi - lo) with ((mid - lo) + (hi - mid)) by lia.
  rewrite seqZ_app by lia. by replace (lo + (mid - lo)) with mid by lia.
Qed.

Lemma zrange_snoc lo hi : lo <= hi -> zrange lo (hi + 1) = zrange lo hi ++ [hi].
Proof.
  intros. rewrite (zrange_app lo hi) by lia.
  by rewrite (zrange_cons hi (hi + 1)), (zrange_nil (hi + 1)) by lia.
Qed.

Lemma NoDup_zrange lo hi : NoDup (zrange lo hi).
Proof. apply NoDup_seqZ. Qed.

(** A counted loop whose every step keeps an invariant. *)
Lemma fold_res_zrange {B} (I : Z -> B -> Prop) (f : Z -> B -> res B) lo hi b :
  lo <= hi -> I lo b -> (forall i b, lo <= i < hi -> I i b -> exists b', f i b = Ok b' /\ I (i + 1) b') ->
  exists b', fold_res f (zrange lo hi) b = Ok b' /\ I hi b'.
Proof.
  intros Hle H0 Hs. remember (Z.to_nat (hi - lo)) as n eqn:Hn. revert lo b Hle H0 Hs Hn.
  induction n as [|n IH]; intros lo b Hle H0 Hs Hn.
  - assert (lo = hi) as -> by lia. rewrite zrange_nil by lia. by exists b.
  - rewrite zrange_cons by lia. cbn. destruct (Hs lo b ltac:(lia) H0) as (b' & -> & Hb). cbn.
    apply IH; [lia|done| |lia]. intros. apply Hs; [lia|done].
Qed.

Lemma mapM_zrange {S} (I : Z -> S -> Prop) (f : Z -> M S unit) lo hi s :
  lo <= hi -> I lo s -> (forall i s, lo <= i < hi -> I i s -> exists s', f i s = (s', Ok tt) /\ I (i + 1) s') ->
  exists s', mapM_ f (zrange lo hi) s = (s', Ok tt) /\ I hi s'.
Proof.
  intros Hle H0 Hs. remember (Z.to_nat (hi - lo)) as n eqn:Hn. revert lo s Hle H0 Hs Hn.
  induction n as [|n IH]; intros lo s Hle H0 Hs Hn.
  - assert (lo = hi) as -> by lia. rewrite zrange_nil by lia. by exists s.
  - rewrite zrange_cons by lia. cbn [mapM_]. destruct (Hs lo s ltac:(lia) H0) as (s1 & E & H1).
    erewrite M_bind_ok by exact E. apply IH; [lia|done| |lia]. intros. apply Hs; [lia|done].
Qed.

(** The same for a loop over the elements of a vector and their indices. *)
Lemma fold_res_indexed {A B} (I : Z -> B -> Prop) (f : Z * A -> B -> res B) l b :
  I 0 b ->
  (forall (i : nat) x b, l !! i = Some x -> I (Z.of_nat i) b -> exists b', f (Z.of_nat i, x) b = Ok b' /\ I (Z.of_nat i + 1) b') ->
  exists b', fold_res f (zip (zrange 0 (Z.of_nat (length l))) l) b = Ok b' /\ I (Z.of_nat (length l)) b'.
Proof.
  intros H0 Hs.
  enough (forall pre suf b, l = pre ++ suf -> I (Z.of_nat (length pre)) b ->
    exists b', fold_res f (zip (zrange (Z.of_nat (length pre)) (Z.of_nat (length l))) suf) b = Ok b' /\ I (Z.of_nat (length l)) b')
    as He by by apply (He [] l).
  intros pre suf. revert pre. induction suf as [|x suf IH]; intros pre b' -> Hb.
  - rewrite app_nil_r in *. rewrite zrange_nil by lia. by exists b'.
  - rewrite length_app in *. cbn [length] in *. rewrite zrange_cons by lia. cbn.
    destruct (Hs (length pre) x b' (list_lookup_middle _ _ _ _ eq_refl) Hb) as (b1 & -> & Hb1). cbn.
    specialize (IH (pre ++ [x]) b1). rewrite <- app_assoc, !length_app in IH. cbn in IH.
    replace (Z.of_nat (length pre + 1)) with (Z.of_nat (length pre) + 1) in IH by lia.
    replace (length pre + S (length suf))%nat with (length pre + (1 + length suf))%nat by lia.
    by apply IH.
Qed.

Lemma fold_res_lookup {A B} (I : nat -> B -> Prop) (f : A -> B -> res B) l b :
  I 0%nat b -> (forall i x b, l !! i = Some x -> I i b -> exists b', f x b = Ok b' /\ I (S i) b') ->
  exists b', fold_res f l b = Ok b' /\ I (length l) b'.
Proof.
  revert I b. induction l as [|x l IH]; intros I b H0 Hs; cbn [fold_res length]; [by exists b|].
  destruct (Hs 0%nat x b eq_refl H0) as (b1 & -> & H1). cbn [mbind res_bind]. apply (IH (fun i => I (S i))); [done|].
  intros i y b2 Hi H2. by apply (Hs (S i)).
Qed.

Lemma fold_res_ext {A B} (f g : A -> B -> res B) l b : (forall x b, f x b = g x b) -> fold_res f l b = fold_res g l b.
Proof. intros H. revert b. induction l as [|x l IH]; intros b; cbn; [done|]. rewrite H. destruct (g x b); cbn; [apply IH|done]. Qed.

(** Nested loops are one. *)
Lemma fold_res_flat_map {A B C} (f : B -> C -> res C) (h : A -> list B) l c :
  fold_res f (flat_map h l) c = fold_res (fun x => fold_res f (h x)) l c.
Proof. revert c. induction l as [|x l IH]; intros c; cbn; [done|]. rewrite fold_res_app. destruct (fold_res f (h x) c); cbn; [apply IH|done]. Qed.

Lemma fold_res_map {A B C} (f : B -> C -> res C) (h : A -> B) l c : fold_res f (map h l) c = fold_res (fun x => f (h x)) l c.
Proof. revert c. induction l as [|x l IH]; intros c; cbn; [done|]. destruct (f (h x) c); cbn; [apply IH|done]. Qed.

#[global] Opaque zrange.

(** ** Sums *)

Fixpoint zsum (l : list Z) : Z :=
  match l with [] => 0 | x :: l => x + zsum l end.

Lemma zsum_app l1 l2 : zsum (l1 ++ l2) = zsum l1 + zsum l2.
Proof. induction l1; cbn; lia. Qed.

Lemma zsum_nonneg l : Forall (fun x => 0 <= x) l -> 0 <= zsum l.
Proof. induction 1; cbn; lia. Qed.

Lemma zsum_map_ext {A} (f g : A -> Z) l :
  (forall x, x ∈ l -> f x = g x) -> zsum (map f l) = zsum (map g l).
Proof.
  induction l as [|x l IH]; intros H; cbn; [done|].
  rewrite (H x), IH; [done| |]; [|set_solver..].
  intros y Hy. apply H. set_solver.
Qed.

Lemma zsum_map_add {A} (f g : A -> Z) l :
  zsum (map (fun x => f x + g x) l) = zsum (map f l) + zsum (map g l).
Proof. induction l; cbn; lia. Qed.

Lemma zsum_map_const {A} (c : Z) (l : list A) :
  zsum (map (fun _ => c) l) = c * Z.of_nat (length l).
Proof. induction l; cbn -[Z.of_nat Z.mul]; [lia|]. rewrite IHl. lia. Qed.

(** ** Lists *)

Lemma elem_of_flat_map {A B} (f : A -> list B) l b :
  b ∈ flat_map f l <-> exists a, a ∈ l /\ b ∈ f a.
Proof.
  rewrite list_elem_of_In, in_flat_map. by setoid_rewrite list_elem_of_In.
Qed.

Lemma elem_of_map {A B} (f : A -> B) l b :
  b ∈ map f l <-> exists a, b = f a /\ a ∈ l.
Proof.
  rewrite list_elem_of_In, in_map_iff. setoid_rewrite list_elem_of_In. naive_solver.
Qed.

Lemma mapM_res_lookup {A B} (g : A -> res B) l w :
  length l = length w -> (forall i a b, l !! i = Some a -> w !! i = Some b -> g a = Ok b) -> mapM g l = Ok w.
Proof.
  revert w. induction l as [|a l IH]; intros [|b w] Hlen H; try done. cbn [mapM]. rewrite (H 0%nat a b eq_refl eq_refl).
  cbn [mbind res_bind]. rewrite (IH w); [done|by injection Hlen|]. intros i x y. apply (H (S i)).
Qed.

Lemma length_flat_map_const {A B} (f : A -> list B) (n : nat) l :
  (forall a, a ∈ l -> length (f a) = n) -> length (flat_map f l) = (length l * n)%nat.
Proof.
  induction l as [|a l IH]; intros H; cbn; [done|].
  rewrite length_app, (H a), IH; [lia| |left]. intros. apply H. by right.
Qed.

Lemma lookup_flat_map_const {A B} (f : A -> list B) l n i a y :
  (forall a, a ∈ l -> length (f a) = n) -> l !! i = Some a -> (y < n)%nat ->
  flat_map f l !! (i * n + y)%nat = f a !! y.
Proof.
  intros Hn. revert i. induction l as [|b l IH]; intros [|i]; cbn [lookup list_lookup flat_map]; try done.
  - intros [= ->] Hy. rewrite lookup_app_l; [done|]. rewrite Hn by left. lia.
  - intros Hi Hy. rewrite lookup_app_r by (rewrite Hn by left; lia). rewrite Hn by left.
    replace (S i * n + y - n)%nat with (i * n + y)%nat by lia. apply IH; [|done|done]. intros. apply Hn. by right.
Qed.

Lemma NoDup_flat_map {A B} (f : A -> list B) l :
  NoDup l -> (forall a, a ∈ l -> NoDup (f a)) ->
  (forall a a' b, a ∈ l -> a' ∈ l -> b ∈ f a -> b ∈ f a' -> a = a') ->
  NoDup (flat_map f l).
Proof.
  induction 1 as [|a l Ha Hl IH]; intros Hf Hd; cbn; [constructor|].
  apply NoDup_app; split; [apply Hf; left|]. split.
  - intros b Hb Hb'. apply elem_of_flat_map in Hb' as (a' & Ha' & Hb').
    apply Ha. rewrite (Hd a a' b); [done|left|by right|done..].
  - apply IH; intros; [apply Hf|eapply Hd]; eauto; by right.
Qed.

Lemma NoDup_map_inj {A B} (f : A -> B) l :
  (forall a a', f a = f a' -> a = a') -> NoDup l -> NoDup (map f l).
Proof.
  intros Hf. induction 1; cbn; constructor; [|done].
  rewrite elem_of_map. intros (a & He & Ha).
  by apply Hf in He as ->.
Qed.

(** The number of elements of [l] that satisfy [P]. *)
Definition count_in {A} (P : A -> Prop) `{forall a, Decision (P a)} (l : list A) : Z :=
  Z.of_nat (length (filter P l)).

Lemma count_in_or {A} (P Q R : A -> Prop) `{forall a, Decision (P a), forall a, Decision (Q a),
    forall a, Decision (R a)} l :
  (forall a, a ∈ l -> (R a <-> P a \/ Q a)) -> (forall a, a ∈ l -> P a -> Q a -> False) ->
  count_in R l = count_in P l + count_in Q l.
Proof.
  unfold count_in. induction l as [|a l IH]; intros HR HD; [done|].
  specialize (IH ltac:(set_solver) ltac:(set_solver)).
  pose proof (HR a ltac:(set_solver)) as HRa. pose proof (HD a ltac:(set_solver)) as HDa.
  rewrite !filter_cons. repeat case_decide; cbn [length]; try tauto; lia.
Qed.

Lemma count_in_le {A} (P : A -> Prop) `{forall a, Decision (P a)} l :
  0 <= count_in P l <= Z.of_nat (length l).
Proof. unfold count_in. pose proof (length_filter P l). lia. Qed.

Lemma count_in_all {A} (P : A -> Prop) `{forall a, Decision (P a)} l :
  count_in P l = Z.of_nat (length l) <-> forall a, a ∈ l -> P a.
Proof.
  unfold count_in. induction l as [|a l IH]; [split; [set_solver|done]|].
  rewrite filter_cons. pose proof (length_filter P l). case_decide; cbn [length].
  - rewrite Nat2Z.inj_succ, Nat2Z.inj_succ, Z.succ_inj_wd, IH. set_solver.
  - split; [lia|]. intros Ha. exfalso. set_solver.
Qed.

(** ** Rounding *)

(** The least multiple of [b] that is at least [a], for [b > 0]. *)
Definition zceil (a b : Z) : Z := (a + b - 1) / b * b.

Lemma zceil_spec a b :
  0 < b -> a <= zceil a b < a + b /\ zceil a b mod b = 0.
Proof.
  intros Hb. unfold zceil. split; [|apply Z.mod_mul; lia].
  pose proof (Z.div_mod (a + b - 1) b ltac:(lia)).
  pose proof (Z.mod_pos_bound (a + b - 1) b Hb). nia.
Qed.

Lemma zceil_id a b : 0 < b -> a mod b = 0 -> zceil a b = a.
Proof.
  intros Hb Ha. unfold zceil. apply Z.mod_divide in Ha as [p ->]; [|lia].
  replace (p * b + b - 1) with (p * b + (b - 1)) by lia.
  rewrite Z.div_add_l, Z.div_small by lia. lia.
Qed.

Lemma ceil_div_pos a b : 0 < b -> 0 < a -> 0 < (a + b - 1) / b.
Proof. intros. apply Z.div_str_pos. lia. Qed.

(** ** Fields of a word, and places of a ring *)

Lemma lor_add a b n : 0 <= n -> 0 <= a < 2 ^ n -> Z.lor (b * 2 ^ n) a = b * 2 ^ n + a.
Proof.
  intros Hn Ha. rewrite <- Z.add_lor_land. enough (Z.land (b * 2 ^ n) a = 0) by lia. apply Z.bits_inj'. intros i Hi.
  rewrite Z.land_spec, Z.bits_0. destruct (Z.lt_ge_cases i n).
  - by rewrite Z.mul_pow2_bits_low.
  - replace a with (a mod 2 ^ n) by (by apply Z.mod_small). by rewrite (Z.mod_pow2_bits_high a n i) by lia; rewrite andb_false_r.
Qed.

Lemma lor_add' a b n : 0 <= n -> 0 <= a < 2 ^ n -> Z.lor a (b * 2 ^ n) = b * 2 ^ n + a.
Proof. intros. rewrite Z.lor_comm. by apply lor_add. Qed.

(** [k] places on in a ring of [n]. *)
Lemma ring_mod x k n : 0 < n -> 0 <= k <= n -> (x + k) mod n = if x mod n + k <? n then x mod n + k else x mod n + k - n.
Proof.
  intros Hn Hk. pose proof (Z.div_mod x n ltac:(lia)). pose proof (Z.mod_pos_bound x n Hn). symmetry.
  destruct (Z.ltb_spec (x mod n + k) n); [apply (Z.mod_unique _ _ (x / n))|apply (Z.mod_unique _ _ (x / n + 1))]; lia.
Qed.
Lemma ring_div x k n : 0 < n -> 0 <= k <= n -> (x + k) / n = if x mod n + k <? n then x / n else x / n + 1.
Proof.
  intros Hn Hk. pose proof (Z.div_mod x n ltac:(lia)). pose proof (Z.mod_pos_bound x n Hn). symmetry.
  destruct (Z.ltb_spec (x mod n + k) n); [apply (Z.div_unique _ _ _ (x mod n + k))|apply (Z.div_unique _ _ _ (x mod n + k - n))]; lia.
Qed.

Create HintDb tt_arith.
#[export] Hint Resolve u32_range u64_range : tt_arith.
