(* ===== verification/CoreCoord.v ===== *)
(** * Logical core coordinates (tt_metal/common/core_coord.{hpp,cpp})

    Rectangles of cores ([CoreRange]), sets of disjoint rectangles
    ([CoreRangeSet]) and the enumerations of the cores they hold.  Coordinates
    are [size_t] and core counts [uint32_t]: the wrap-around of both is written
    out.  The order in which a [std::set<CoreRange>] is iterated comes from the
    coordinate order of a submodule, so it is a parameter of [merge]. *)

From S2P Require Import Prelude.

Record CoreCoord := mkCoord { cx : Z; cy : Z }.

#[export] Instance CoreCoord_eq_dec : EqDecision CoreCoord.
Proof. solve_decision. Defined.
#[export] Instance CoreCoord_countable : Countable CoreCoord.
Proof.
  apply (inj_countable' (fun c => (cx c, cy c)) (fun p => mkCoord p.1 p.2)).
  by intros [].
Defined.

(** [RelativeCoreCoord] has signed [long] fields. *)
Record RelativeCoreCoord := mkRel { rel_x : Z; rel_y : Z }.

Definition get_core_coord_from_relative (i : RelativeCoreCoord) (grid_size : CoreCoord) : CoreCoord :=
  mkCoord (u64 (rel_x i + (if rel_x i <? 0 then cx grid_size else 0)))
          (u64 (rel_y i + (if rel_y i <? 0 then cy grid_size else 0))).

(** ** CoreRange *)

Record CoreRange := mkRange { start_coord : CoreCoord; end_coord : CoreCoord }.

#[export] Instance CoreRange_eq_dec : EqDecision CoreRange.
Proof. solve_decision. Defined.
#[export] Instance CoreRange_countable : Countable CoreRange.
Proof.
  apply (inj_countable' (fun c => (start_coord c, end_coord c)) (fun p => mkRange p.1 p.2)).
  by intros [].
Defined.

Definition CoreRange_of_point (point : CoreCoord) : CoreRange := mkRange point point.

(** The checked two-corner constructor. *)
Definition CoreRange_ctor (s e : CoreCoord) : res CoreRange :=
  check Fatal ((cx s <=? cx e) && (cy s <=? cy e));; mret (mkRange s e).

Definition CoreRange_intersects (a b : CoreRange) : bool :=
  let first_core_left_of_second := cx (end_coord a) <? cx (start_coord b) in
  let first_core_right_of_second := cx (end_coord b) <? cx (start_coord a) in
  let first_core_above_second := cy (end_coord a) <? cy (start_coord b) in
  let first_core_below_second := cy (end_coord b) <? cy (start_coord a) in
  negb (first_core_left_of_second || first_core_right_of_second
        || first_core_above_second || first_core_below_second).

(** The guard is the check of the constructor the code calls, see
    [intersection_ctor]. *)
Definition CoreRange_intersection (a b : CoreRange) : option CoreRange :=
  let x1 := Z.max (cx (start_coord a)) (cx (start_coord b)) in
  let y1 := Z.max (cy (start_coord a)) (cy (start_coord b)) in
  let x2 := Z.min (cx (end_coord a)) (cx (end_coord b)) in
  let y2 := Z.min (cy (end_coord a)) (cy (end_coord b)) in
  if (x1 <=? x2) && (y1 <=? y2) then Some (mkRange (mkCoord x1 y1) (mkCoord x2 y2)) else None.

Definition CoreRange_adjacent (a b : CoreRange) : bool :=
  let x1 := Z.max (cx (start_coord a)) (cx (start_coord b)) in
  let y1 := Z.max (cy (start_coord a)) (cy (start_coord b)) in
  let x2 := Z.min (cx (end_coord a)) (cx (end_coord b)) in
  let y2 := Z.min (cy (end_coord a)) (cy (end_coord b)) in
  ((u64 (x2 + 1) =? x1) && (y1 <=? y2)) || ((u64 (y2 + 1) =? y1) && (x1 <=? x2)).

Definition CoreRange_contains (r : CoreRange) (c : CoreCoord) : bool :=
  (cx (start_coord r) <=? cx c) && (cx c <=? cx (end_coord r))
  && (cy (start_coord r) <=? cy c) && (cy c <=? cy (end_coord r)).

Definition CoreRange_contains_range (r o : CoreRange) : bool :=
  (cx (start_coord r) <=? cx (start_coord o)) && (cx (end_coord o) <=? cx (end_coord r))
  && (cy (start_coord r) <=? cy (start_coord o)) && (cy (end_coord o) <=? cy (end_coord r)).

Definition CoreRange_contains_set (r : CoreRange) (o : list CoreRange) : bool :=
  forallb (CoreRange_contains_range r) o.

Definition CoreRange_merge (a cr : CoreRange) : option CoreRange :=
  if CoreRange_intersects a cr || CoreRange_adjacent a cr then
    if (cx (start_coord a) =? cx (start_coord cr)) && (cx (end_coord a) =? cx (end_coord cr)) then
      Some (mkRange
        (mkCoord (cx (start_coord a)) (Z.min (cy (start_coord a)) (cy (start_coord cr))))
        (mkCoord (cx (end_coord a)) (Z.max (cy (end_coord a)) (cy (end_coord cr)))))
    else if (cy (start_coord a) =? cy (start_coord cr)) && (cy (end_coord a) =? cy (end_coord cr)) then
      Some (mkRange
        (mkCoord (Z.min (cx (start_coord a)) (cx (start_coord cr))) (cy (start_coord a)))
        (mkCoord (Z.max (cx (end_coord a)) (cx (end_coord cr))) (cy (end_coord a))))
    else None
  else None.

Definition CoreRange_size (r : CoreRange) : Z :=
  u64 (u64 (cx (end_coord r) - cx (start_coord r) + 1) * u64 (cy (end_coord r) - cy (start_coord r) + 1)).

Definition CoreRange_grid_size (r : CoreRange) : CoreCoord :=
  mkCoord (u64 (cx (end_coord r) - cx (start_coord r) + 1))
          (u64 (cy (end_coord r) - cy (start_coord r) + 1)).

(** The iterator: [begin], [end] and [operator++]. *)
Definition CoreIterator_begin (r : CoreRange) : CoreCoord := start_coord r.

Definition CoreIterator_end (r : CoreRange) : CoreCoord :=
  mkCoord (cx (start_coord r)) (u64 (cy (end_coord r) + 1)).

Definition CoreIterator_next (r : CoreRange) (current : CoreCoord) : CoreCoord :=
  if cx current =? cx (end_coord r)
  then mkCoord (cx (start_coord r)) (u64 (cy current + 1))
  else mkCoord (u64 (cx current + 1)) (cy current).

(** [for (auto c : range)]: the elements visited until the iterator equals
    [end()]; [None] when the fuel runs out first. *)
Fixpoint CoreRange_iterate (fuel : nat) (r : CoreRange) (current : CoreCoord) : option (list CoreCoord) :=
  if decide (current = CoreIterator_end r) then Some []
  else match fuel with
       | O => None
       | S fuel => (fun l => current :: l) <$> CoreRange_iterate fuel r (CoreIterator_next r current)
       end.

(** ** CoreRangeSet *)

(** [validate_no_overlap]: throws when two of the ranges overlap. *)
Fixpoint validate_no_overlap (ranges : list CoreRange) : res unit :=
  match ranges with
  | [] => mret tt
  | first :: rest =>
      if existsb (CoreRange_intersects first) rest then Err Throw else validate_no_overlap rest
  end.

Definition CoreRangeSet := list CoreRange.

Definition CoreRangeSet_ctor (ranges : list CoreRange) : res CoreRangeSet :=
  validate_no_overlap ranges;; mret ranges.

Definition CoreRangeSet_num_cores (s : CoreRangeSet) : Z :=
  fold_left (fun n r => u32 (n + CoreRange_size r)) s 0.

Definition CoreRangeSet_intersects (s : CoreRangeSet) (other : CoreRange) : bool :=
  existsb (fun local_cr => CoreRange_intersects local_cr other) s.

Definition CoreRangeSet_intersects_set (s other : CoreRangeSet) : bool :=
  existsb (CoreRangeSet_intersects s) other.

Definition CoreRangeSet_intersection (s other : CoreRangeSet) : res CoreRangeSet :=
  CoreRangeSet_ctor (flat_map (fun local_cr =>
    flat_map (fun other_cr => option_list (CoreRange_intersection local_cr other_cr)) other) s).

Definition CoreRangeSet_contains (s : CoreRangeSet) (c : CoreCoord) : bool :=
  existsb (fun cr => CoreRange_contains cr c) s.

(** The counting loop of both [contains] overloads: subtract the size of each
    intersection from the number of cores still to be found. *)
Fixpoint count_intersections (pairs : list (CoreRange * CoreRange)) (num_remaining : Z) : bool :=
  match pairs with
  | [] => false
  | (a, b) :: pairs =>
      match CoreRange_intersection a b with
      | Some i =>
          let num_remaining := u32 (num_remaining - CoreRange_size i) in
          if num_remaining =? 0 then true else count_intersections pairs num_remaining
      | None => count_intersections pairs num_remaining
      end
  end.

Definition CoreRangeSet_contains_range (s : CoreRangeSet) (other : CoreRange) : bool :=
  let num_remaining_cores := u32 (CoreRange_size other) in
  if num_remaining_cores =? 0 then true
  else if CoreRangeSet_num_cores s <? num_remaining_cores then false
  else count_intersections (map (fun cr => (cr, other)) s) num_remaining_cores.

Definition CoreRangeSet_contains_set (s other : CoreRangeSet) : bool :=
  let num_remaining_cores := CoreRangeSet_num_cores other in
  if num_remaining_cores =? 0 then true
  else if CoreRangeSet_num_cores s <? num_remaining_cores then false
  else count_intersections (list_prod s other) num_remaining_cores.

Definition CoreRangeSet_bounding_box (s : CoreRangeSet) : res CoreRange :=
  check Fatal (negb (bool_decide (s = [])));;
  let '(min_x, max_x, min_y, max_y) :=
    fold_left (fun '(mnx, mxx, mny, mxy) cr =>
      (Z.min mnx (cx (start_coord cr)), Z.max mxx (cx (end_coord cr)),
       Z.min mny (cy (start_coord cr)), Z.max mxy (cy (end_coord cr))))
      s (2 ^ 32 - 1, 0, 2 ^ 32 - 1, 0) in
  CoreRange_ctor (mkCoord min_x min_y) (mkCoord max_x max_y).

Fixpoint CoreRangeSet_eqb (a b : CoreRangeSet) : bool :=
  match a, b with
  | [], [] => true
  | r :: a, r' :: b => bool_decide (r = r') && CoreRangeSet_eqb a b
  | _, _ => false
  end.

(** *** merge *)

Section Merge.
(** Iteration order of a [std::set<CoreRange>]: each element once. *)
Variable set_order : gset CoreRange -> list CoreRange.

(** The cells of a range, as the fill loops visit them. *)
Definition range_cells (r : CoreRange) : list CoreCoord :=
  flat_map (fun yy => map (fun xx => mkCoord xx yy)
    (zrange (cx (start_coord r)) (cx (end_coord r) + 1)))
    (zrange (cy (start_coord r)) (cy (end_coord r) + 1)).

Definition merge_grid (crs : gset CoreRange) : gset CoreCoord :=
  list_to_set (flat_map range_cells (elements crs)).

(** [while (grid[y][x]) x++] *)
Fixpoint scan_run (fuel : nat) (grid : gset CoreCoord) (yy xx : Z) : Z :=
  match fuel with
  | O => xx
  | S fuel => if bool_decide (mkCoord xx yy ∈ grid) then scan_run fuel grid yy (xx + 1) else xx
  end.

(** The runs of set cells of a row: the [for x] loop with the inner [while]. *)
Fixpoint scan_row (fuel : nat) (grid : gset CoreCoord) (max_x yy xx : Z) : list CoreRange :=
  match fuel with
  | O => []
  | S fuel =>
      if xx <=? max_x + 1 then
        if bool_decide (mkCoord xx yy ∈ grid) then
          let x_end := scan_run (Z.to_nat (max_x + 2 - xx)) grid yy xx in
          mkRange (mkCoord xx yy) (mkCoord (x_end - 1) yy) :: scan_row fuel grid max_x yy (x_end + 1)
        else scan_row fuel grid max_x yy (xx + 1)
      else []
  end.

(** The [for prev_cr : crs] loop for one range of the row. *)
Definition merge_with_prevs (cr : CoreRange) (crs : gset CoreRange)
    (acc : gset CoreRange * gset CoreRange) : gset CoreRange * gset CoreRange :=
  fold_left (fun '(new_crs, filter_set) prev_cr =>
    match CoreRange_merge cr prev_cr with
    | Some merged => ({[merged]} ∪ new_crs, {[cr]} ∪ ({[prev_cr]} ∪ filter_set))
    | None => (new_crs, filter_set)
    end) (set_order crs) acc.

Definition merge_ranges (ranges : list CoreRange) (crs : gset CoreRange)
    : gset CoreRange * gset CoreRange * gset CoreRange :=
  fold_left (fun '(crs, new_crs, filter_set) cr =>
    let '(new_crs, filter_set) := merge_with_prevs cr crs (new_crs, filter_set) in
    ({[cr]} ∪ crs, new_crs, filter_set)) ranges (crs, ∅, ∅).

Definition merge_row (grid : gset CoreCoord) (min_x max_x : Z) (crs : gset CoreRange) (yy : Z)
    : gset CoreRange :=
  let ranges := scan_row (Z.to_nat (max_x + 2 - min_x)) grid max_x yy min_x in
  let '(crs, new_crs, filter_set) := merge_ranges ranges crs in
  (crs ∖ filter_set) ∪ new_crs.

Definition merge_bounds (crs : gset CoreRange) : Z * Z * Z * Z :=
  fold_left (fun '(mnx, mxx, mny, mxy) cr =>
    (Z.min mnx (cx (start_coord cr)), Z.max mxx (cx (end_coord cr)),
     Z.min mny (cy (start_coord cr)), Z.max mxy (cy (end_coord cr))))
    (elements crs) (2 ^ 64 - 1, 0, 2 ^ 64 - 1, 0).

Definition CoreRangeSet_merge (s other : list CoreRange) : res CoreRangeSet :=
  let crs : gset CoreRange := list_to_set s ∪ list_to_set other in
  let '(min_x, max_x, min_y, max_y) := merge_bounds crs in
  let grid := merge_grid crs in
  let rows := zrange (u32 min_y) (max_y + 1) in
  let merged := fold_left (merge_row grid (u32 min_x) max_x) rows ∅ in
  CoreRangeSet_ctor (set_order merged).
End Merge.

(** ** Enumerations *)

(** [grid_to_cores(num_cores, grid_size_x, grid_size_y, row_wise)] *)
Definition grid_to_cores (num_cores grid_size_x grid_size_y : Z) (row_wise : bool) : res (list CoreCoord) :=
  check Assert (num_cores <=? u32 (grid_size_x * grid_size_y));;
  mret (if row_wise
        then map (fun i => mkCoord (i mod grid_size_x) (i / grid_size_x)) (zrange 0 num_cores)
        else map (fun i => mkCoord (i / grid_size_y) (i mod grid_size_y)) (zrange 0 num_cores)).

(** [grid_to_cores(start, end, row_wise)] *)
Definition grid_to_cores_range (s e : CoreCoord) (row_wise : bool) : list CoreCoord :=
  if row_wise
  then flat_map (fun j => map (fun i => mkCoord i j) (zrange (cx s) (cx e + 1))) (zrange (cy s) (cy e + 1))
  else flat_map (fun i => map (fun j => mkCoord i j) (zrange (cy s) (cy e + 1))) (zrange (cx s) (cx e + 1)).

Definition grid_to_cores_with_noop (bbox_x bbox_y grid_size_x grid_size_y : Z) (row_wise : bool)
    : res (list CoreCoord) :=
  check Assert (bbox_x <? grid_size_x);;
  check Assert (bbox_y <? grid_size_y);;
  let box_size_x := u32 (bbox_x + 1) in
  let box_size_y := u32 (bbox_y + 1) in
  let n := u32 (box_size_x * box_size_y) in
  let box := if row_wise
             then map (fun i => mkCoord (i mod box_size_x) (i / box_size_x)) (zrange 0 n)
             else map (fun i => mkCoord (i / box_size_y) (i mod box_size_y)) (zrange 0 n) in
  let right := flat_map (fun xx => map (fun yy => mkCoord xx yy) (zrange 0 grid_size_y))
                 (zrange box_size_x grid_size_x) in
  let bottom := flat_map (fun yy => map (fun xx => mkCoord xx yy) (zrange 0 box_size_x))
                  (zrange box_size_y grid_size_y) in
  mret (box ++ right ++ bottom).

Fixpoint corerange_to_cores_go (ranges : list CoreRange) (max_cores : option Z) (row_wise : bool)
    (all_cores : list CoreCoord) : list CoreCoord :=
  match ranges with
  | [] => all_cores
  | r :: ranges =>
      let cores := grid_to_cores_range (start_coord r) (end_coord r) row_wise in
      match max_cores with
      | Some m =>
          if m <? Z.of_nat (length all_cores) + Z.of_nat (length cores) then
            all_cores ++ take (Z.to_nat (m - Z.of_nat (length all_cores))) cores
          else corerange_to_cores_go ranges max_cores row_wise (all_cores ++ cores)
      | None => corerange_to_cores_go ranges max_cores row_wise (all_cores ++ cores)
      end
  end.

Definition corerange_to_cores (crs : CoreRangeSet) (max_cores : option Z) (row_wise : bool) : list CoreCoord :=
  corerange_to_cores_go crs max_cores row_wise [].

(** ** Well-formed ranges *)

(** What the constructor guarantees, with coordinates that stay clear of the
    [uint32_t] loop counters. *)
Definition range_wf (r : CoreRange) : Prop :=
  0 <= cx (start_coord r) <= cx (end_coord r) /\ cx (end_coord r) < 2 ^ 31 /\
  0 <= cy (start_coord r) <= cy (end_coord r) /\ cy (end_coord r) < 2 ^ 31.

#[export] Instance range_wf_dec r : Decision (range_wf r).
Proof. unfold range_wf. apply _. Defined.

(** Cell membership, the specification of [contains]. *)
Definition cell_in (c : CoreCoord) (r : CoreRange) : Prop :=
  cx (start_coord r) <= cx c <= cx (end_coord r) /\
  cy (start_coord r) <= cy c <= cy (end_coord r).

#[export] Instance cell_in_dec c r : Decision (cell_in c r).
Proof. unfold cell_in. apply _. Defined.

Definition cell_in_set (c : CoreCoord) (s : list CoreRange) : Prop :=
  exists r, r ∈ s /\ cell_in c r.

(** Splits the boolean comparisons of a hypothesis or a goal. *)
Ltac bool_lia :=
  repeat match goal with
  | H : context [_ && _ = true] |- _ => rewrite andb_true_iff in H
  | H : context [_ || _ = true] |- _ => rewrite orb_true_iff in H
  | |- context [_ && _ = true] => rewrite andb_true_iff
  | |- context [_ || _ = true] => rewrite orb_true_iff
  end; rewrite ?Z.leb_le, ?Z.ltb_lt, ?Z.eqb_eq in *; pow2; try lia.

Lemma contains_cell r c : CoreRange_contains r c = true <-> cell_in c r.
Proof. unfold CoreRange_contains, cell_in. bool_lia. Qed.

Lemma set_contains_cell s c : CoreRangeSet_contains s c = true <-> cell_in_set c s.
Proof.
  unfold CoreRangeSet_contains, cell_in_set. rewrite existsb_exists.
  split; intros (r & Hr & Hc); exists r; rewrite ?list_elem_of_In, contains_cell in *; auto.
Qed.

Lemma intersection_ctor a b r :
  CoreRange_intersection a b = Some r -> CoreRange_ctor (start_coord r) (end_coord r) = Ok r.
Proof.
  unfold CoreRange_intersection, CoreRange_ctor. case_match eqn:E; [|done].
  intros [= <-]. cbn. by rewrite E.
Qed.

Lemma intersection_cell a b c :
  (cell_in c a /\ cell_in c b) <->
  exists r, CoreRange_intersection a b = Some r /\ cell_in c r.
Proof.
  unfold CoreRange_intersection, cell_in. split.
  - intros [Ha Hb]. rewrite (proj2 (andb_true_iff _ _)) by (split; apply Z.leb_le; lia).
    eexists; split; [done|]. cbn. lia.
  - intros (r & H & Hc). case_match; [|done]. injection H as <-. cbn in Hc. lia.
Qed.

Lemma intersects_cell a b :
  range_wf a -> range_wf b ->
  CoreRange_intersects a b = true <-> exists c, cell_in c a /\ cell_in c b.
Proof.
  intros Ha Hb. unfold CoreRange_intersects, cell_in, range_wf in *.
  rewrite negb_true_iff, !orb_false_iff, !Z.ltb_ge. split.
  - intros H. exists (mkCoord (Z.max (cx (start_coord a)) (cx (start_coord b)))
                          (Z.max (cy (start_coord a)) (cy (start_coord b)))). cbn. lia.
  - intros (c & H). lia.
Qed.

Lemma intersects_false a b c :
  range_wf a -> range_wf b -> CoreRange_intersects a b = false ->
  cell_in c a -> cell_in c b -> False.
Proof.
  intros Ha Hb H ??. assert (CoreRange_intersects a b = true) by (apply intersects_cell; eauto).
  congruence.
Qed.

(** [merge] succeeds on ranges that line up and touch, and covers exactly both. *)
Lemma CoreRange_merge_some a b m :
  range_wf a -> range_wf b -> CoreRange_merge a b = Some m ->
  range_wf m /\ forall c, cell_in c m <-> cell_in c a \/ cell_in c b.
Proof.
  unfold CoreRange_merge, CoreRange_intersects, CoreRange_adjacent, range_wf.
  intros Ha Hb. unwrap.
  destruct (_ || _)%bool eqn:E; [|done].
  assert (Z.max (cx (start_coord a)) (cx (start_coord b)) <= Z.min (cx (end_coord a)) (cx (end_coord b)) + 1 /\
          Z.max (cy (start_coord a)) (cy (start_coord b)) <= Z.min (cy (end_coord a)) (cy (end_coord b)) + 1).
  { rewrite orb_true_iff, negb_true_iff, !orb_false_iff, !Z.ltb_ge in E. bool_lia. }
  clear E. case_match eqn:E1; [|case_match eqn:E2; [|done]];
    intros [= <-]; cbn; unfold cell_in; cbn; (split; [bool_lia|]);
    intros c; bool_lia.
Qed.

(** ** Counting cells *)

Definition area (r : CoreRange) : Z :=
  (cx (end_coord r) - cx (start_coord r) + 1) * (cy (end_coord r) - cy (start_coord r) + 1).

Lemma area_pos r : range_wf r -> 0 < area r.
Proof. unfold area, range_wf. nia. Qed.

Lemma size_area r : range_wf r -> CoreRange_size r = area r.
Proof.
  intros H. unfold CoreRange_size, area, range_wf in *. pow2.
  rewrite !(u64_small (_ - _ + 1)) by (pow2; lia). rewrite u64_small; [done|pow2; nia].
Qed.

Lemma elem_of_range_cells r c : c ∈ range_cells r <-> cell_in c r.
Proof.
  unfold range_cells, cell_in. rewrite elem_of_flat_map. split.
  - intros (yy & Hy & Hc). apply elem_of_map in Hc as (xx & -> & Hx).
    rewrite elem_of_zrange in *. cbn. lia.
  - intros H. exists (cy c). rewrite elem_of_map, elem_of_zrange.
    split; [lia|]. exists (cx c). rewrite elem_of_zrange.
    destruct c; cbn in *. split; [done|lia].
Qed.

Lemma NoDup_range_cells r : NoDup (range_cells r).
Proof.
  apply NoDup_flat_map; [apply NoDup_zrange|..].
  - intros. apply NoDup_map_inj; [congruence|apply NoDup_zrange].
  - intros a a' b _ _ H H'. apply elem_of_map in H as (? & -> & _), H' as (? & [=] & _). done.
Qed.

Lemma length_range_cells r : range_wf r -> Z.of_nat (length (range_cells r)) = area r.
Proof.
  intros H. unfold range_cells.
  erewrite length_flat_map_const by (intros; by rewrite length_map, length_zrange).
  rewrite length_zrange. unfold range_wf, area in *. lia.
Qed.

(** *** Sums over disjoint ranges *)

Definition inter_size (a b : CoreRange) : Z :=
  match CoreRange_intersection a b with Some i => area i | None => 0 end.

Lemma intersection_wf a b i :
  range_wf a -> range_wf b -> CoreRange_intersection a b = Some i -> range_wf i.
Proof.
  unfold CoreRange_intersection, range_wf. intros Ha Hb. case_match eqn:E; [|done].
  intros [= <-]. cbn. bool_lia.
Qed.

Lemma inter_size_count a b :
  range_wf a -> range_wf b -> inter_size a b = count_in (fun c => cell_in c a) (range_cells b).
Proof.
  intros Ha Hb. unfold inter_size, count_in.
  assert (Hiff : forall c, c ∈ filter (fun c => cell_in c a) (range_cells b) <->
    exists i, CoreRange_intersection a b = Some i /\ cell_in c i).
  { intros c. rewrite list_elem_of_filter, elem_of_range_cells. apply intersection_cell. }
  destruct (CoreRange_intersection a b) as [i|] eqn:E.
  - rewrite <- length_range_cells by exact (intersection_wf a b i Ha Hb E). f_equal.
    apply Permutation_length, NoDup_Permutation.
    + apply NoDup_range_cells.
    + apply NoDup_filter, NoDup_range_cells.
    + intros c. rewrite Hiff, elem_of_range_cells. naive_solver.
  - destruct (filter _ _) as [|c l] eqn:F; [done|].
    destruct (proj1 (Hiff c)) as (? & ? & ?); [left|done].
Qed.

(** Ranges of a valid set do not share a cell. *)
Fixpoint disjoint_ranges (s : list CoreRange) : Prop :=
  match s with
  | [] => True
  | r :: s => (forall r', r' ∈ s -> CoreRange_intersects r r' = false) /\ disjoint_ranges s
  end.

Lemma validate_no_overlap_ok s u : validate_no_overlap s = Ok u <-> disjoint_ranges s.
Proof.
  induction s as [|r s IH]; cbn; [destruct u; done|].
  destruct (existsb _ _) eqn:E.
  - split; [done|]. intros [H _]. apply existsb_exists in E as (r' & Hr & Hi).
    rewrite <- list_elem_of_In in Hr. rewrite (H r' Hr) in Hi. done.
  - rewrite IH. split; [|tauto]. intros H. split; [|done]. intros r' Hr'.
    destruct (CoreRange_intersects r r') eqn:E'; [|done].
    rewrite <- E. symmetry. apply existsb_exists. exists r'. by rewrite <- list_elem_of_In.
Qed.

(** A valid set: what [CoreRangeSet]'s constructors establish. *)
Definition set_wf (s : list CoreRange) : Prop := Forall range_wf s /\ disjoint_ranges s.

Lemma set_wf_elem s r : set_wf s -> r ∈ s -> range_wf r.
Proof. intros [Hs _] Hr. by eapply Forall_forall in Hs. Qed.

Definition total_area (s : list CoreRange) : Z := zsum (map area s).

Lemma total_area_nonneg s : Forall range_wf s -> 0 <= total_area s.
Proof.
  intros H. apply zsum_nonneg, Forall_map. eapply Forall_impl; [done|].
  intros r Hr. pose proof (area_pos r Hr). cbn. lia.
Qed.

Lemma num_cores_area s :
  Forall range_wf s -> total_area s < 2 ^ 32 -> CoreRangeSet_num_cores s = total_area s.
Proof.
  unfold CoreRangeSet_num_cores. intros Hwf Hb.
  enough (forall n, 0 <= n -> n + total_area s < 2 ^ 32 ->
    fold_left (fun n r => u32 (n + CoreRange_size r)) s n = n + total_area s) as ->; [lia..|].
  clear Hb. induction Hwf as [|r s Hr Hs IH]; intros n Hn Hb; unfold total_area in *; cbn in *; [lia|].
  pose proof (area_pos r Hr). pose proof (total_area_nonneg s Hs). unfold total_area in *.
  rewrite size_area by done. rewrite u32_small by lia. rewrite IH by lia. lia.
Qed.

#[export] Instance cell_in_set_dec c s : Decision (cell_in_set c s).
Proof.
  destruct (CoreRangeSet_contains s c) eqn:E.
  - left. by apply set_contains_cell.
  - right. rewrite <- set_contains_cell. congruence.
Defined.

Lemma cell_in_set_cons c r s : cell_in_set c (r :: s) <-> cell_in c r \/ cell_in_set c s.
Proof. unfold cell_in_set. set_solver. Qed.

Lemma inter_sum_count s o l :
  set_wf s -> (forall c, c ∈ l -> cell_in c o) ->
  zsum (map (fun r => count_in (fun c => cell_in c r) l) s) = count_in (fun c => cell_in_set c s) l.
Proof.
  intros [Hwf Hd] Hl. induction Hwf as [|r s Hr Hs IH]; cbn [map zsum].
  - unfold count_in. destruct (filter _ _) as [|c k] eqn:F; [done|].
    assert (c ∈ filter (fun c => cell_in_set c []) l) as H by (rewrite F; set_solver).
    apply list_elem_of_filter in H as [(? & ? & ?) _]. set_solver.
  - destruct Hd as [Hd1 Hd2]. rewrite IH by done. symmetry. apply count_in_or.
    + intros c _. apply cell_in_set_cons.
    + intros c _ H1 (r' & Hr' & H2). eapply (intersects_false r r'); eauto.
      by eapply Forall_forall in Hs.
Qed.

Lemma inter_size_nonneg a b : range_wf a -> range_wf b -> 0 <= inter_size a b.
Proof.
  intros Ha Hb. rewrite inter_size_count by done.
  apply count_in_le.
Qed.

Definition pairs_size (pairs : list (CoreRange * CoreRange)) : Z :=
  zsum (map (fun p => inter_size p.1 p.2) pairs).

(** The counting loop finds [n] cells iff the intersections hold [n] cells. *)
Lemma count_intersections_spec pairs n :
  Forall (fun p => range_wf p.1 /\ range_wf p.2) pairs ->
  0 < n < 2 ^ 32 -> pairs_size pairs <= n ->
  count_intersections pairs n = bool_decide (pairs_size pairs = n).
Proof.
  unfold pairs_size. intros Hwf. revert n.
  induction Hwf as [|[a b] pairs [Ha Hb] Hwf IH]; intros n Hn Hle; cbn in *.
  - rewrite bool_decide_false by lia. done.
  - assert (0 <= zsum (map (fun p => inter_size p.1 p.2) pairs)).
    { apply zsum_nonneg, Forall_map. eapply Forall_impl; [done|]. intros p [??].
      by apply inter_size_nonneg. }
    assert (Hi : inter_size a b = match CoreRange_intersection a b with Some i => area i | None => 0 end)
      by done.
    destruct (CoreRange_intersection a b) as [i|] eqn:E; rewrite Hi in *; clear Hi.
    + pose proof (intersection_wf a b i Ha Hb E) as Hi. pose proof (area_pos i Hi).
      rewrite size_area by done. rewrite u32_small by lia.
      destruct (Z.eqb_spec (n - area i) 0) as [Hz|Hz].
      * rewrite bool_decide_true by lia. done.
      * rewrite IH by lia. apply bool_decide_ext. lia.
    + rewrite IH by lia. apply bool_decide_ext. lia.
Qed.

Lemma pairs_size_app p q : pairs_size (p ++ q) = pairs_size p + pairs_size q.
Proof. unfold pairs_size. by rewrite map_app, zsum_app. Qed.

(** Intersections of a valid set with one range count the shared cells. *)
Lemma pairs_size_range s o :
  set_wf s -> range_wf o ->
  pairs_size (map (fun r => (r, o)) s) = count_in (fun c => cell_in_set c s) (range_cells o).
Proof.
  intros Hs Ho. rewrite <- (inter_sum_count s o) by (done || (intros c; apply elem_of_range_cells)).
  unfold pairs_size. rewrite map_map. cbn. apply zsum_map_ext. intros r Hr.
  apply inter_size_count; [|done]. destruct Hs as [Hs _]. by eapply Forall_forall in Hs.
Qed.

Lemma count_le_area s o :
  set_wf s -> range_wf o -> count_in (fun c => cell_in_set c s) (range_cells o) <= total_area s.
Proof.
  intros Hs Ho. rewrite <- (inter_sum_count s o) by (done || (intros c; apply elem_of_range_cells)).
  destruct Hs as [Hs _]. unfold total_area. induction Hs as [|r s Hr Hs IH]; cbn; [done|].
  enough (count_in (fun c => cell_in c r) (range_cells o) <= area r) by lia.
  rewrite <- length_range_cells by done. unfold count_in. apply Nat2Z.inj_le.
  apply submseteq_length, NoDup_submseteq; [apply NoDup_filter, NoDup_range_cells|].
  intros c Hc. apply list_elem_of_filter in Hc as [Hc _]. by apply elem_of_range_cells.
Qed.

(** C: containment by counting is containment of the cells. *)
Lemma contains_range_cells s o :
  set_wf s -> range_wf o -> total_area s < 2 ^ 32 -> area o < 2 ^ 32 ->
  CoreRangeSet_contains_range s o = true <-> forall c, cell_in c o -> cell_in_set c s.
Proof.
  intros Hs Ho Hts Hto. pose proof (area_pos o Ho). pose proof (count_le_area s o Hs Ho) as Hle.
  pose proof (count_in_le (fun c => cell_in_set c s) (range_cells o)) as Hc.
  pose proof (count_in_all (fun c => cell_in_set c s) (range_cells o)) as Hall.
  rewrite length_range_cells in Hc, Hall by done.
  setoid_rewrite elem_of_range_cells in Hall. rewrite <- Hall. clear Hall.
  unfold CoreRangeSet_contains_range. rewrite size_area, u32_small by (done || lia).
  destruct (Z.eqb_spec (area o) 0); [lia|].
  rewrite num_cores_area by (apply Hs || done).
  destruct (Z.ltb_spec (total_area s) (area o)); [split; [done|lia]|].
  rewrite count_intersections_spec, pairs_size_range by
    (done || lia || (rewrite ?pairs_size_range by done; lia) ||
     (apply Forall_map; destruct Hs as [Hs _]; eapply Forall_impl; [exact Hs|]; cbn; tauto)).
  apply bool_decide_eq_true.
Qed.

(** *** Sets against sets *)

Definition set_cells (s : list CoreRange) : list CoreCoord := flat_map range_cells s.

Lemma elem_of_set_cells s c : c ∈ set_cells s <-> cell_in_set c s.
Proof.
  unfold set_cells, cell_in_set. rewrite elem_of_flat_map. by setoid_rewrite elem_of_range_cells.
Qed.

Lemma NoDup_set_cells s : set_wf s -> NoDup (set_cells s).
Proof.
  intros [Hwf Hd]. unfold set_cells. induction Hwf as [|r s Hr Hs IH]; cbn; [constructor|].
  destruct Hd as [Hd1 Hd2]. apply NoDup_app. split; [apply NoDup_range_cells|]. split; [|by apply IH].
  intros c Hc Hc'. apply elem_of_range_cells in Hc. apply elem_of_flat_map in Hc' as (r' & Hr' & Hc').
  apply elem_of_range_cells in Hc'. eapply (intersects_false r r'); eauto. by eapply Forall_forall in Hs.
Qed.

Lemma length_set_cells s : Forall range_wf s -> Z.of_nat (length (set_cells s)) = total_area s.
Proof.
  unfold set_cells, total_area. induction 1 as [|r s Hr Hs IH]; cbn; [done|].
  rewrite length_app, Nat2Z.inj_add, length_range_cells, IH; done.
Qed.

Lemma count_in_app {A} (P : A -> Prop) `{forall a, Decision (P a)} l k :
  count_in P (l ++ k) = count_in P l + count_in P k.
Proof. unfold count_in. rewrite filter_app, length_app. lia. Qed.

Lemma pairs_size_prod s o :
  set_wf s -> Forall range_wf o ->
  pairs_size (list_prod s o) = count_in (fun c => cell_in_set c s) (set_cells o).
Proof.
  intros Hs Ho. transitivity (zsum (map (fun b => pairs_size (map (fun a => (a, b)) s)) o)).
  - unfold pairs_size. clear Hs. induction s as [|a s IH]; cbn [list_prod].
    + induction Ho; cbn; auto.
    + rewrite map_app, zsum_app, IH. rewrite !map_map. cbn [map zsum fst snd].
      rewrite (zsum_map_add (fun b => inter_size a b)). done.
  - induction Ho as [|r o Hr Ho IH]; cbn; [done|].
    rewrite IH, pairs_size_range by done. unfold set_cells. cbn. by rewrite count_in_app.
Qed.

Lemma contains_set_cells s o :
  set_wf s -> set_wf o -> total_area s < 2 ^ 32 -> total_area o < 2 ^ 32 ->
  CoreRangeSet_contains_set s o = true <-> forall c, cell_in_set c o -> cell_in_set c s.
Proof.
  intros Hs Ho Hts Hto. pose proof (total_area_nonneg o (proj1 Ho)).
  assert (Hle : count_in (fun c => cell_in_set c s) (set_cells o) <= total_area s).
  { rewrite <- length_set_cells by apply Hs. apply Nat2Z.inj_le, submseteq_length, NoDup_submseteq.
    - by apply NoDup_filter, NoDup_set_cells.
    - intros c Hc. apply list_elem_of_filter in Hc as [Hc _]. by apply elem_of_set_cells. }
  pose proof (count_in_le (fun c => cell_in_set c s) (set_cells o)) as Hc.
  pose proof (count_in_all (fun c => cell_in_set c s) (set_cells o)) as Hall.
  rewrite length_set_cells in Hc, Hall by apply Ho.
  setoid_rewrite elem_of_set_cells in Hall. rewrite <- Hall. clear Hall.
  unfold CoreRangeSet_contains_set. rewrite !num_cores_area by (apply Hs || apply Ho || done).
  destruct (Z.eqb_spec (total_area o) 0); [split; [lia|done]|].
  destruct (Z.ltb_spec (total_area s) (total_area o)); [split; [done|lia]|].
  assert (Hp : Forall (fun p => range_wf p.1 /\ range_wf p.2) (list_prod s o)).
  { apply Forall_forall. intros [a b] Hab. apply list_elem_of_In, in_prod_iff in Hab as [Ha Hb].
    apply list_elem_of_In in Ha, Hb. cbn. eauto using set_wf_elem. }
  pose proof (pairs_size_prod s o Hs (proj1 Ho)) as Hps.
  rewrite count_intersections_spec, Hps by (done || lia).
  apply bool_decide_eq_true.
Qed.

(** ** Enumerating the cores *)

Definition rest_of_range (r : CoreRange) (c : CoreCoord) : list CoreCoord :=
  map (fun i => mkCoord i (cy c)) (zrange (cx c) (cx (end_coord r) + 1)) ++
  flat_map (fun j => map (fun i => mkCoord i j) (zrange (cx (start_coord r)) (cx (end_coord r) + 1)))
    (zrange (cy c + 1) (cy (end_coord r) + 1)).

Lemma iterate_rest r fuel c :
  range_wf r -> cell_in c r -> (length (rest_of_range r c) <= fuel)%nat ->
  CoreRange_iterate fuel r c = Some (rest_of_range r c).
Proof.
  unfold range_wf, cell_in. intros Hr. revert c. induction fuel as [|fuel IH]; intros [xx yy] Hc Hf; cbn in Hc.
  - unfold rest_of_range in Hf. rewrite length_app, length_map, length_zrange in Hf. cbn in Hf. lia.
  - unfold CoreIterator_next. cbn [CoreRange_iterate cx cy]. rewrite decide_False
      by (unfold CoreIterator_end; rewrite u64_small by (pow2; lia); intros [=]; lia).
    unfold CoreIterator_next. cbn [cx cy]. unfold rest_of_range in *. cbn [cx cy] in *.
    rewrite (zrange_cons xx) in * by lia. cbn [map app length] in *.
    destruct (Z.eqb_spec xx (cx (end_coord r))) as [->|Hx].
    + rewrite (zrange_nil (_ + 1)) in * by lia. cbn [map app] in *.
      rewrite u64_small by (pow2; lia).
      destruct (decide (yy = cy (end_coord r))) as [->|Hy].
      * rewrite (zrange_nil (_ + 1)) by lia. cbn [flat_map].
        destruct fuel; cbn; rewrite decide_True by
          (unfold CoreIterator_end; by rewrite u64_small by (pow2; lia)); done.
      * rewrite IH; cbn [cx cy]; [|lia|].
        -- by rewrite (zrange_cons (yy + 1)) by lia.
        -- rewrite (zrange_cons (yy + 1)) in Hf by lia. cbn [flat_map] in Hf. lia.
    + rewrite u64_small by (pow2; lia). rewrite IH; cbn [cx cy]; [done|lia|lia].
Qed.

Lemma iterate_range r fuel :
  range_wf r -> area r <= Z.of_nat fuel ->
  CoreRange_iterate fuel r (CoreIterator_begin r) = Some (range_cells r).
Proof.
  intros Hr Hf. assert (rest_of_range r (start_coord r) = range_cells r) as Heq.
  { unfold rest_of_range, range_cells. unfold range_wf in Hr.
    rewrite (zrange_cons (cy (start_coord r))) by lia. done. }
  unfold CoreIterator_begin. rewrite iterate_rest, Heq; [done|done| |].
  - unfold cell_in, range_wf in *. lia.
  - rewrite Heq. pose proof (length_range_cells r Hr). lia.
Qed.

Definition enumerate_set (s : list CoreRange) (row_wise : bool) : list CoreCoord :=
  flat_map (fun r => grid_to_cores_range (start_coord r) (end_coord r) row_wise) s.

Lemma grid_to_cores_range_perm r row_wise :
  range_wf r -> grid_to_cores_range (start_coord r) (end_coord r) row_wise ≡ₚ range_cells r.
Proof.
  intros Hr. destruct row_wise; [done|]. apply NoDup_Permutation.
  - apply NoDup_flat_map; [apply NoDup_zrange|..].
    + intros. apply NoDup_map_inj; [congruence|apply NoDup_zrange].
    + intros a a' b _ _ H H'. apply elem_of_map in H as (? & -> & _), H' as (? & [=] & _). done.
  - apply NoDup_range_cells.
  - intros c. rewrite elem_of_range_cells. unfold grid_to_cores_range, cell_in.
    rewrite elem_of_flat_map. setoid_rewrite elem_of_map. setoid_rewrite elem_of_zrange.
    destruct c as [xx yy]; cbn. split.
    + intros (? & ? & ? & [= -> ->] & ?). lia.
    + intros. exists xx. split; [lia|]. exists yy. split; [done|lia].
Qed.

Lemma enumerate_set_perm s row_wise :
  Forall range_wf s -> enumerate_set s row_wise ≡ₚ set_cells s.
Proof.
  unfold enumerate_set, set_cells. induction 1; cbn; [done|].
  by rewrite IHForall, grid_to_cores_range_perm.
Qed.

Lemma corerange_to_cores_spec s max_cores row_wise :
  (forall m, max_cores = Some m -> 0 <= m) ->
  corerange_to_cores s max_cores row_wise =
    match max_cores with
    | Some m => take (Z.to_nat m) (enumerate_set s row_wise)
    | None => enumerate_set s row_wise
    end.
Proof.
  intros Hm. unfold corerange_to_cores, enumerate_set.
  enough (forall acc, (forall m, max_cores = Some m -> Z.of_nat (length acc) <= m) ->
    corerange_to_cores_go s max_cores row_wise acc =
    match max_cores with
    | Some m => take (Z.to_nat m) (acc ++ enumerate_set s row_wise)
    | None => acc ++ enumerate_set s row_wise
    end) as -> by done.
  unfold enumerate_set. induction s as [|r s IH]; intros acc Hacc; cbn.
  - rewrite app_nil_r. destruct max_cores as [m|]; [|done].
    specialize (Hacc m eq_refl). by rewrite take_ge by lia.
  - destruct max_cores as [m|]; [specialize (Hacc m eq_refl)|by rewrite IH, app_assoc].
    destruct (Z.ltb_spec m (Z.of_nat (length acc) +
      Z.of_nat (length (grid_to_cores_range (start_coord r) (end_coord r) row_wise)))) as [Hlt|Hge].
    + rewrite take_app. f_equal; [by rewrite take_ge by lia|].
      rewrite take_app_le by lia. f_equal. lia.
    + rewrite IH by (intros ? [= <-]; rewrite length_app; lia). by rewrite app_assoc.
Qed.

(** ** Merging sets *)

Abbreviation sx r := (cx (start_coord r)).
Abbreviation ex r := (cx (end_coord r)).
Abbreviation sy r := (cy (start_coord r)).
Abbreviation ey r := (cy (end_coord r)).

Section Grid_proofs.
Variable grid : gset CoreCoord.

(** [x extent] of [r] is a maximal run of set cells of row [yy]. *)
Definition run_at (yy : Z) (r : CoreRange) : Prop :=
  (forall i, sx r <= i <= ex r -> mkCoord i yy ∈ grid) /\
  (mkCoord (sx r - 1) yy ∉ grid) /\ (mkCoord (ex r + 1) yy ∉ grid).

Definition good_range (r : CoreRange) : Prop :=
  range_wf r /\ forall yy, sy r <= yy <= ey r -> run_at yy r.

Lemma run_unique yy r r' :
  run_at yy r -> run_at yy r' -> sx r <= ex r -> sx r' <= ex r' ->
  sx r <= ex r' + 1 -> sx r' <= ex r + 1 -> sx r = sx r' /\ ex r = ex r'.
Proof.
  intros (H1 & H2 & H3) (H1' & H2' & H3') Hr Hr' Ht Ht'.
  assert (~ sx r < sx r') by (intros ?; apply H2', H1; lia).
  assert (~ sx r' < sx r) by (intros ?; apply H2, H1'; lia).
  assert (~ ex r < ex r') by (intros ?; apply H3, H1'; lia).
  assert (~ ex r' < ex r) by (intros ?; apply H3', H1; lia).
  lia.
Qed.

Lemma scan_run_spec fuel max_x yy xx :
  (forall c, c ∈ grid -> cx c <= max_x) -> mkCoord xx yy ∈ grid ->
  max_x + 2 - xx <= Z.of_nat fuel ->
  let e := scan_run fuel grid yy xx in
  xx < e <= max_x + 1 /\ (forall i, xx <= i < e -> mkCoord i yy ∈ grid) /\ (mkCoord e yy ∉ grid).
Proof.
  intros Hmax. revert xx. induction fuel as [|fuel IH]; intros xx Hin Hf; cbn.
  - specialize (Hmax _ Hin). cbn in Hmax. lia.
  - rewrite bool_decide_true by done. pose proof (Hmax _ Hin) as Hx. cbn in Hx.
    destruct (decide (mkCoord (xx + 1) yy ∈ grid)) as [H|H].
    + specialize (IH (xx + 1) H ltac:(lia)). cbn in IH. destruct IH as (He & Hi & Hn).
      split; [lia|]. split; [|done]. intros i Hi'.
      destruct (decide (i = xx)) as [->|]; [done|]. apply Hi. lia.
    + assert (scan_run fuel grid yy (xx + 1) = xx + 1) as ->.
      { destruct fuel; cbn; [done|]. by rewrite bool_decide_false. }
      split; [lia|]. split; [|done]. intros i Hi'. by replace i with xx by lia.
Qed.

Definition row_run (yy : Z) (r : CoreRange) : Prop :=
  sy r = yy /\ ey r = yy /\ sx r <= ex r /\ run_at yy r.

Lemma scan_row_spec fuel max_x yy xx :
  (forall c, c ∈ grid -> cx c <= max_x) -> mkCoord (xx - 1) yy ∉ grid ->
  max_x + 2 - xx <= Z.of_nat fuel ->
  let rs := scan_row fuel grid max_x yy xx in
  (forall r, r ∈ rs -> row_run yy r /\ xx <= sx r) /\ NoDup rs /\
  (forall i, xx <= i -> mkCoord i yy ∈ grid -> exists r, r ∈ rs /\ cell_in (mkCoord i yy) r).
Proof.
  intros Hmax. revert xx. induction fuel as [|fuel IH]; intros xx Hprev Hf; cbn.
  - split_and!; [set_solver|constructor|]. intros i Hi Hin. specialize (Hmax _ Hin). cbn in Hmax. lia.
  - destruct (Z.leb_spec xx (max_x + 1)) as [Hle|Hle].
    2:{ split_and!; [set_solver|constructor|]. intros i Hi Hin.
        specialize (Hmax _ Hin). cbn in Hmax. lia. }
    case_bool_decide as Hin.
    + pose proof (scan_run_spec (Z.to_nat (max_x + 2 - xx)) max_x yy xx Hmax Hin ltac:(lia)) as He.
      cbn in He. set (e := scan_run _ _ _ _) in *. destruct He as (He & Hi & Hn).
      specialize (IH (e + 1)). replace (e + 1 - 1) with e in IH by lia.
      destruct (IH Hn ltac:(lia)) as (IH1 & IH2 & IH3).
      split_and!.
      * intros r [->|Hr]%elem_of_cons; [|specialize (IH1 r Hr); split; [tauto|lia]].
        cbn. split; [|lia]. unfold row_run, run_at; cbn. split_and!; [lia..| |done|].
        -- intros i Hi'. apply Hi. lia.
        -- by replace (e - 1 + 1) with e by lia.
      * constructor; [|done]. intros H. apply IH1 in H as [_ H]. cbn in H. lia.
      * intros i Hi' Hini. destruct (decide (i < e)).
        -- eexists; split; [left|]. unfold cell_in; cbn. lia.
        -- destruct (decide (i = e)) as [->|]; [done|].
           destruct (IH3 i) as (r & ? & ?); [lia|done|]. exists r. split; [by right|done].
    + specialize (IH (xx + 1)). replace (xx + 1 - 1) with xx in IH by lia.
      destruct (IH Hin ltac:(lia)) as (IH1 & IH2 & IH3). split_and!; [|done|].
      * intros r Hr. specialize (IH1 r Hr). split; [tauto|lia].
      * intros i Hi Hini. destruct (decide (i = xx)) as [->|]; [done|]. apply IH3; [lia|done].
Qed.

(** The ranges a row merges with, and the result. *)
Lemma merge_row_range yy cr p :
  good_range cr -> row_run yy cr -> good_range p -> ey p < yy ->
  CoreRange_merge cr p =
    if decide (ey p = yy - 1 /\ sx p = sx cr /\ ex p = ex cr)
    then Some (mkRange (start_coord p) (end_coord cr)) else None.
Proof.
  intros [Hw _] (Hs & He & Hx & _) [Hp _] Hlt. unfold range_wf in *.
  unfold CoreRange_merge, CoreRange_intersects, CoreRange_adjacent. unwrap.
  rewrite (proj2 (Z.ltb_lt (ey p) (sy cr))) by lia. rewrite ?orb_true_r. cbn [negb orb].
  rewrite (proj2 (Z.leb_gt (Z.max (sy cr) (sy p)) (Z.min (ey cr) (ey p)))) by lia.
  rewrite andb_false_r. cbn [orb].
  case_decide as Hd.
  - destruct Hd as (Hd1 & Hd2 & Hd3). rewrite Hd2, Hd3.
    rewrite (proj2 (Z.eqb_eq (Z.min (ey cr) (ey p) + 1) _)) by lia.
    rewrite (proj2 (Z.leb_le _ _)) by lia. rewrite !Z.eqb_refl. cbn.
    destruct p as [[??] [??]], cr as [[??] [??]]; cbn in *. do 3 f_equal; lia.
  - destruct (_ && _)%bool eqn:E; [|done]. apply andb_true_iff in E as [E1 E2].
    apply Z.eqb_eq in E1. apply Z.leb_le in E2.
    rewrite (proj2 (Z.eqb_neq (sy cr) (sy p))) by lia. cbn.
    destruct (Z.eqb_spec (sx cr) (sx p)); [|done]. destruct (Z.eqb_spec (ex cr) (ex p)); [|done].
    exfalso. lia.
Qed.

Lemma merge_same_row yy cr cr' :
  range_wf cr -> range_wf cr' -> row_run yy cr -> row_run yy cr' -> cr <> cr' ->
  CoreRange_merge cr cr' = None.
Proof.
  intros Hw Hw' (Hs & He & Hx & Hr) (Hs' & He' & Hx' & Hr') Hne. unfold range_wf in *.
  assert (~ (sx cr <= ex cr' + 1 /\ sx cr' <= ex cr + 1)) as Hfar.
  { intros [??]. destruct (run_unique yy cr cr') as [??]; auto. apply Hne.
    destruct cr as [[??] [??]], cr' as [[??] [??]]; cbn in *. congruence. }
  unfold CoreRange_merge, CoreRange_intersects, CoreRange_adjacent. unwrap.
  destruct (_ || _)%bool eqn:E; [|done]. exfalso. apply Hfar.
  rewrite orb_true_iff, negb_true_iff, !orb_false_iff, !Z.ltb_ge in E. bool_lia.
Qed.
End Grid_proofs.

Section Merge_proofs.
Variable set_order : gset CoreRange -> list CoreRange.
(** A [std::set] iterates over each of its elements exactly once. *)
Hypothesis set_order_perm : forall s, set_order s ≡ₚ elements s.

Lemma elem_of_set_order s r : r ∈ set_order s <-> r ∈ s.
Proof. by rewrite (set_order_perm s), elem_of_elements. Qed.

Lemma merge_with_prevs_spec cr crs new filt new' filt' :
  merge_with_prevs set_order cr crs (new, filt) = (new', filt') ->
  (forall m, m ∈ new' <-> m ∈ new \/ exists p, p ∈ crs /\ CoreRange_merge cr p = Some m) /\
  (forall f, f ∈ filt' <-> f ∈ filt \/ exists p, p ∈ crs /\ CoreRange_merge cr p <> None /\ (f = cr \/ f = p)).
Proof.
  unfold merge_with_prevs. setoid_rewrite <- (elem_of_set_order crs).
  generalize (set_order crs). intros l. revert new filt.
  induction l as [|p l IH]; intros new filt; cbn.
  - intros [= <- <-]. set_solver.
  - destruct (CoreRange_merge cr p) as [m0|] eqn:E; intros H; destruct (IH _ _ H) as [H1 H2]; split.
    + intros m. rewrite H1. split; [|set_solver].
      intros [[->%elem_of_singleton|?]%elem_of_union|(q & ? & ?)]; [right; exists p; set_solver|set_solver|].
      right. exists q. set_solver.
    + intros f. rewrite H2. split; [|set_solver].
      intros [Hf|(q & ? & ?)]; [|right; exists q; set_solver].
      rewrite !elem_of_union, !elem_of_singleton in Hf.
      destruct Hf as [->|[->|?]]; [right; exists p..|by left]; (split; [left|]); rewrite E; auto.
    + intros m. rewrite H1. setoid_rewrite elem_of_cons. naive_solver.
    + intros f. rewrite H2. setoid_rewrite elem_of_cons. naive_solver.
Qed.

Lemma merge_ranges_spec rs crs crs' new' filt' :
  NoDup rs -> (forall r r', r ∈ rs -> r' ∈ rs -> r <> r' -> CoreRange_merge r r' = None) ->
  merge_ranges set_order rs crs = (crs', new', filt') ->
  (forall r, r ∈ crs' <-> r ∈ crs \/ r ∈ rs) /\
  (forall m, m ∈ new' <-> exists cr p, cr ∈ rs /\ p ∈ crs /\ CoreRange_merge cr p = Some m) /\
  (forall f, f ∈ filt' <-> exists cr p, cr ∈ rs /\ p ∈ crs /\ CoreRange_merge cr p <> None /\ (f = cr \/ f = p)).
Proof.
  unfold merge_ranges. intros Hnd Hnone Hf.
  enough (Hgen : forall new filt, fold_left (fun '(crs, new_crs, filter_set) cr =>
      let '(new_crs, filter_set) := merge_with_prevs set_order cr crs (new_crs, filter_set) in
      ({[cr]} ∪ crs, new_crs, filter_set)) rs (crs, new, filt) = (crs', new', filt') ->
    (forall r, r ∈ crs' <-> r ∈ crs \/ r ∈ rs) /\
    (forall m, m ∈ new' <-> m ∈ new \/ exists cr p, cr ∈ rs /\ p ∈ crs /\ CoreRange_merge cr p = Some m) /\
    (forall f, f ∈ filt' <-> f ∈ filt \/
       exists cr p, cr ∈ rs /\ p ∈ crs /\ CoreRange_merge cr p <> None /\ (f = cr \/ f = p))).
  { apply Hgen in Hf as (H1 & H2 & H3). split; [done|]. split; intros z; [rewrite H2|rewrite H3]; set_solver. }
  clear Hf. revert crs. induction Hnd as [|cr rs Hcr Hnd IH]; intros crs new filt; cbn.
  - intros [= <- <- <-]. split_and!; set_solver.
  - destruct (merge_with_prevs _ cr crs (new, filt)) as [new1 filt1] eqn:E.
    destruct (merge_with_prevs_spec _ _ _ _ _ _ E) as [E1 E2]. intros Hf.
    destruct (IH ltac:(intros; apply Hnone; set_solver) _ _ _ Hf) as (H1 & H2 & H3).
    assert (Hc : forall r p, r ∈ rs -> p ∈ {[cr]} ∪ crs -> CoreRange_merge r p <> None -> p ∈ crs).
    { intros r p Hr Hp Hm. apply elem_of_union in Hp as [->%elem_of_singleton|?]; [|done].
      exfalso. apply Hm, Hnone; [set_solver..|]. intros ->. done. }
    split_and!.
    + intros r. rewrite H1. set_solver.
    + intros m. rewrite H2, E1. split.
      * intros [[?|(p & ? & ?)]|(r & p & Hr & Hp & ?)]; [by left|right..].
        -- exists cr, p. set_solver.
        -- exists r, p. split; [set_solver|]. split; [|done]. eapply Hc; eauto. congruence.
      * intros [?|(r & p & [->|Hr]%elem_of_cons & Hp & ?)]; [by left; left|left; right; eauto|].
        right. exists r, p. set_solver.
    + intros f. rewrite H3, E2. split.
      * intros [[?|(p & ? & ?)]|(r & p & Hr & Hp & ? & ?)]; [by left|right..].
        -- exists cr, p. set_solver.
        -- exists r, p. split; [set_solver|]. split; [eapply Hc; eauto|done].
      * intros [?|(r & p & [->|Hr]%elem_of_cons & Hp & ? & ?)]; [by left; left|left; right; eauto|].
        right. exists r, p. set_solver.
Qed.

(** The rows below [yy] of the grid are tiled by disjoint maximal ranges. *)
Definition tiled (grid : gset CoreCoord) (yy : Z) (crs : gset CoreRange) : Prop :=
  (forall r, r ∈ crs -> good_range grid r /\ ey r < yy) /\
  (forall c, c ∈ grid -> cy c < yy -> exists r, r ∈ crs /\ cell_in c r) /\
  (forall r r' c, r ∈ crs -> r' ∈ crs -> cell_in c r -> cell_in c r' -> r = r').

Definition grid_wf (grid : gset CoreCoord) (min_x max_x : Z) : Prop :=
  0 <= min_x /\ max_x < 2 ^ 31 /\
  forall c, c ∈ grid -> min_x <= cx c <= max_x /\ 0 <= cy c < 2 ^ 31.

Lemma row_run_good grid min_x max_x yy r :
  grid_wf grid min_x max_x -> row_run grid yy r -> good_range grid r.
Proof.
  intros (Hx & Hm & Hg) (Hs & He & Hle & Hr).
  assert (H1 := Hg (mkCoord (sx r) yy) (proj1 Hr (sx r) ltac:(lia))).
  assert (H2 := Hg (mkCoord (ex r) yy) (proj1 Hr (ex r) ltac:(lia))). cbn in *.
  split; [unfold range_wf; lia|]. intros y' Hy. by replace y' with yy by lia.
Qed.

(** [cr] of the row lines up with [p], which ends in the row above. *)
Definition lines_up (yy : Z) (cr p : CoreRange) : Prop :=
  ey p = yy - 1 /\ sx p = sx cr /\ ex p = ex cr.

(** [r] is replaced by a merged range in row [yy]. *)
Definition consumed (yy : Z) (rs : list CoreRange) (crs : gset CoreRange) (r : CoreRange) : Prop :=
  exists cr p, cr ∈ rs /\ p ∈ crs /\ lines_up yy cr p /\ (r = cr \/ r = p).

(** What one row of the loop computes, when the earlier rows are tiled. *)
Definition row_result (grid : gset CoreCoord) (yy : Z) (rs : list CoreRange) (crs res : gset CoreRange) : Prop :=
  (forall r, r ∈ rs -> row_run grid yy r /\ good_range grid r) /\
  (forall i, mkCoord i yy ∈ grid -> exists r, r ∈ rs /\ cell_in (mkCoord i yy) r) /\
  (forall r, consumed yy rs crs r \/ ~ consumed yy rs crs r) /\
  forall r, r ∈ res <->
    (exists cr p, cr ∈ rs /\ p ∈ crs /\ lines_up yy cr p /\ r = mkRange (start_coord p) (end_coord cr)) \/
    ((r ∈ crs \/ r ∈ rs) /\ ~ consumed yy rs crs r).

Lemma merge_row_elem grid min_x max_x crs yy :
  grid_wf grid min_x max_x -> tiled grid yy crs ->
  exists rs, row_result grid yy rs crs (merge_row set_order grid min_x max_x crs yy).
Proof.
  intros Hg (Ht1 & Ht2 & Ht3). pose proof Hg as (Hx0 & Hxm & Hgc).
  set (rs := scan_row (Z.to_nat (max_x + 2 - min_x)) grid max_x yy min_x).
  destruct (scan_row_spec grid (Z.to_nat (max_x + 2 - min_x)) max_x yy min_x) as (R1 & R2 & R3);
    [intros c Hc; apply Hgc in Hc; lia|intros Hc; apply Hgc in Hc; cbn in Hc; lia|lia|].
  fold rs in R1, R2, R3. exists rs.
  assert (Hgood : forall r, r ∈ rs -> row_run grid yy r /\ good_range grid r).
  { intros r Hr. destruct (R1 r Hr) as [H _]. split; [done|by eapply row_run_good]. }
  assert (Hm : forall cr p, cr ∈ rs -> p ∈ crs -> CoreRange_merge cr p =
    if decide (ey p = yy - 1 /\ sx p = sx cr /\ ex p = ex cr)
    then Some (mkRange (start_coord p) (end_coord cr)) else None).
  { intros cr p Hcr Hp. destruct (Hgood cr Hcr), (Ht1 p Hp). eapply merge_row_range; eauto. }
  unfold merge_row. fold rs.
  destruct (merge_ranges set_order rs crs) as [[crs' new] filt] eqn:E.
  destruct (merge_ranges_spec rs crs crs' new filt R2) as (H1 & H2 & H3); [|done|].
  { intros a b Ha Hb. destruct (Hgood a Ha) as [Ha2 [Ha1 _]], (Hgood b Hb) as [Hb2 [Hb1 _]].
    eapply merge_same_row; eauto. }
  assert (H3' : forall r, r ∈ filt <-> consumed yy rs crs r).
  { intros r. rewrite H3. unfold consumed, lines_up. split; intros (cr & p & Hcr & Hp & Hd & Heq); exists cr, p.
    - rewrite Hm in Hd by done. by case_decide.
    - rewrite Hm, decide_True by done. done. }
  split_and!; [done| |intros r; rewrite <- H3'; destruct (decide (r ∈ filt)); auto|].
  { intros i Hi. apply R3; [|done]. apply Hgc in Hi. cbn in Hi. lia. }
  intros r. rewrite elem_of_union, elem_of_difference, H1, H2, H3'.
  enough ((exists cr p, cr ∈ rs /\ p ∈ crs /\ CoreRange_merge cr p = Some r) <->
    exists cr p, cr ∈ rs /\ p ∈ crs /\ lines_up yy cr p /\ r = mkRange (start_coord p) (end_coord cr)) by tauto.
  unfold lines_up. split; intros (cr & p & Hcr & Hp & Hs); exists cr, p.
  - rewrite Hm in Hs by done. case_decide; [|done]. naive_solver.
  - rewrite Hm, decide_True by tauto. destruct Hs as [_ ->]. done.
Qed.

Section Step.
Context (grid : gset CoreCoord) (yy : Z) (crs res : gset CoreRange) (rs : list CoreRange).
Hypothesis Hres : row_result grid yy rs crs res.
Hypothesis Ht : tiled grid yy crs.

(** A cell of a merged range comes from the old range or from the new row. *)
Lemma merged_cell cr p c :
  cr ∈ rs -> p ∈ crs -> lines_up yy cr p ->
  cell_in c (mkRange (start_coord p) (end_coord cr)) <-> cell_in c p \/ cell_in c cr.
Proof.
  intros Hcr Hp (E1 & E2 & E3). destruct (proj1 Hres cr Hcr) as [(? & ? & _) _].
  destruct (proj1 Ht p Hp) as [[Hw _] _]. unfold cell_in, range_wf in *. cbn. lia.
Qed.

Lemma row_unique a b c : a ∈ rs -> b ∈ rs -> cell_in c a -> cell_in c b -> a = b.
Proof.
  intros Ha Hb Hca Hcb. destruct (proj1 Hres a Ha) as [(? & ? & ? & ?) _].
  destruct (proj1 Hres b Hb) as [(? & ? & ? & ?) _]. unfold cell_in in *.
  destruct (run_unique grid yy a b) as [??]; auto; [lia..|].
  destruct a as [[??] [??]], b as [[??] [??]]; cbn in *. congruence.
Qed.

Lemma old_new_disjoint p a c : p ∈ crs -> a ∈ rs -> cell_in c p -> cell_in c a -> False.
Proof.
  intros Hp Ha Hc Hc'. destruct (proj1 Hres a Ha) as [(? & ? & _) _], (proj1 Ht p Hp) as [_ ?].
  unfold cell_in in *. lia.
Qed.

Lemma lines_up_inj_l a b p : a ∈ rs -> b ∈ rs -> lines_up yy a p -> lines_up yy b p -> a = b.
Proof.
  unfold lines_up. intros Ha Hb Hpa Hpb.
  destruct (proj1 Hres a Ha) as [(? & ? & ? & _) _], (proj1 Hres b Hb) as [(? & ? & ? & _) _].
  apply (row_unique a b (mkCoord (sx a) yy)); [done|done|..]; unfold cell_in; cbn; lia.
Qed.

Lemma lines_up_inj_r cr p q : p ∈ crs -> q ∈ crs -> lines_up yy cr p -> lines_up yy cr q -> p = q.
Proof.
  unfold lines_up. intros Hp Hq Hcp Hcq.
  destruct (proj1 Ht p Hp) as [[Wp _] _], (proj1 Ht q Hq) as [[Wq _] _].
  apply (proj2 (proj2 Ht) p q (mkCoord (sx p) (yy - 1))); [done|done|..];
    unfold cell_in, range_wf in *; cbn; lia.
Qed.

Lemma step_good r : r ∈ res -> good_range grid r /\ ey r < yy + 1.
Proof.
  destruct Hres as (R1 & R3 & _ & Hel). intros Hr.
  apply Hel in Hr as [(cr & p & Hcr & Hp & (E1 & E2 & E3) & ->)|[[Hr|Hr] _]].
  - destruct (R1 cr Hcr) as [(Es & Ee & Ex & Er) [Hwc _]], (proj1 Ht p Hp) as [[Hw Hrun] Hlt].
    cbn. split; [|lia]. split; [unfold range_wf in *; cbn; lia|]. cbn. intros y' Hy'.
    destruct (decide (y' = yy)) as [->|].
    + unfold run_at in *. cbn. rewrite E2. done.
    + specialize (Hrun y' ltac:(lia)). unfold run_at in *. cbn. rewrite <- E3. done.
  - destruct (proj1 Ht r Hr). split; [done|lia].
  - destruct (R1 r Hr) as [(? & ? & _) ?]. split; [done|lia].
Qed.

Lemma step_cover c : c ∈ grid -> cy c < yy + 1 -> exists r, r ∈ res /\ cell_in c r.
Proof.
  destruct Hres as (R1 & R3 & Hdec & Hel). intros Hc Hlt.
  assert (exists r, (r ∈ crs \/ r ∈ rs) /\ cell_in c r) as (r & Hr & Hcr).
  { destruct (decide (cy c = yy)) as [<-|].
    - destruct (R3 (cx c)) as (r & ? & ?); [by destruct c|]. exists r. destruct c; auto.
    - destruct (proj1 (proj2 Ht) c Hc ltac:(lia)) as (r & ? & ?). eauto. }
  destruct (Hdec r) as [(cr & p & Hcr' & Hp & Hl & Heq)|?].
  - exists (mkRange (start_coord p) (end_coord cr)). split.
    + apply Hel. left. exists cr, p. done.
    + apply merged_cell; [done..|]. destruct Heq as [->| ->]; auto.
  - exists r. split; [|done]. apply Hel. right. done.
Qed.

(** A surviving range shares no cell with a merged one. *)
Lemma merged_survivor_disjoint cr p r c :
  cr ∈ rs -> p ∈ crs -> lines_up yy cr p -> r ∈ crs \/ r ∈ rs -> ~ consumed yy rs crs r ->
  cell_in c (mkRange (start_coord p) (end_coord cr)) -> cell_in c r -> False.
Proof.
  intros Hcr Hp Hl Hr Hn Hc Hc'. apply merged_cell in Hc; [|done..]. apply Hn. exists cr, p.
  destruct Hc as [Hc|Hc], Hr as [Hr|Hr].
  - pose proof (proj2 (proj2 Ht) p r c). naive_solver.
  - exfalso. by eapply (old_new_disjoint p r).
  - exfalso. by eapply (old_new_disjoint r cr).
  - pose proof (row_unique cr r c). naive_solver.
Qed.

Lemma step_disjoint r r' c : r ∈ res -> r' ∈ res -> cell_in c r -> cell_in c r' -> r = r'.
Proof.
  destruct Hres as (R1 & R3 & Hdec & Hel). intros Hr Hr' Hc Hc'. apply Hel in Hr, Hr'.
  destruct Hr as [(cr & p & Hcr & Hp & Hl & ->)|[Hr Hn]],
    Hr' as [(cr' & p' & Hcr' & Hp' & Hl' & ->)|[Hr' Hn']].
  - apply merged_cell in Hc; [|done..]. apply merged_cell in Hc'; [|done..].
    assert (p = p' /\ cr = cr') as [-> ->]; [|done].
    destruct Hc as [Hc|Hc], Hc' as [Hc'|Hc'].
    + assert (p = p') as -> by (by eapply (proj2 (proj2 Ht))). split; [done|]. by eapply lines_up_inj_l.
    + exfalso. by eapply (old_new_disjoint p cr').
    + exfalso. by eapply (old_new_disjoint p' cr).
    + assert (cr = cr') as -> by (by eapply row_unique). split; [|done]. by eapply lines_up_inj_r.
  - exfalso. by eapply merged_survivor_disjoint.
  - exfalso. by eapply merged_survivor_disjoint.
  - destruct Hr as [Hr|Hr], Hr' as [Hr'|Hr'].
    + by eapply (proj2 (proj2 Ht)).
    + exfalso. by eapply (old_new_disjoint r r').
    + exfalso. by eapply (old_new_disjoint r' r).
    + by eapply row_unique.
Qed.
End Step.

Lemma tiled_step grid min_x max_x crs yy :
  grid_wf grid min_x max_x -> tiled grid yy crs ->
  tiled grid (yy + 1) (merge_row set_order grid min_x max_x crs yy).
Proof.
  intros Hg Ht. destruct (merge_row_elem grid min_x max_x crs yy Hg Ht) as (rs & Hres).
  split_and!; eauto using step_good, step_cover, step_disjoint.
Qed.

Lemma tiled_rows grid min_x max_x lo n :
  grid_wf grid min_x max_x -> (forall c, c ∈ grid -> lo <= cy c) ->
  tiled grid (lo + Z.of_nat n)
    (fold_left (merge_row set_order grid min_x max_x) (zrange lo (lo + Z.of_nat n)) ∅).
Proof.
  intros Hg Hlo. induction n as [|n IH].
  - rewrite zrange_nil by lia. cbn. split_and!; [set_solver| |set_solver].
    intros c Hc ?. specialize (Hlo c Hc). lia.
  - replace (lo + Z.of_nat (S n)) with (lo + Z.of_nat n + 1) by lia.
    rewrite zrange_snoc, fold_left_app by lia. cbn. by apply tiled_step.
Qed.

Lemma merge_bounds_spec crs mnx mxx mny mxy :
  (forall r, r ∈ crs -> range_wf r) -> merge_bounds crs = (mnx, mxx, mny, mxy) ->
  0 <= mnx <= 2 ^ 64 - 1 /\ 0 <= mny <= 2 ^ 64 - 1 /\ 0 <= mxx < 2 ^ 31 /\ 0 <= mxy < 2 ^ 31 /\
  forall r, r ∈ crs -> mnx <= sx r /\ ex r <= mxx /\ mny <= sy r /\ ey r <= mxy.
Proof.
  unfold merge_bounds. setoid_rewrite <- elem_of_elements. generalize (elements crs). intros l Hwf.
  enough (Hgen : forall l a b c d a' b' c' d', (forall r, r ∈ l -> range_wf r) ->
    0 <= a <= 2 ^ 64 - 1 -> 0 <= b < 2 ^ 31 -> 0 <= c <= 2 ^ 64 - 1 -> 0 <= d < 2 ^ 31 ->
    fold_left (fun '(mnx, mxx, mny, mxy) cr =>
      (Z.min mnx (sx cr), Z.max mxx (ex cr), Z.min mny (sy cr), Z.max mxy (ey cr))) l (a, b, c, d)
      = (a', b', c', d') ->
    0 <= a' <= a /\ b <= b' < 2 ^ 31 /\ 0 <= c' <= c /\ d <= d' < 2 ^ 31 /\
    forall r, r ∈ l -> a' <= sx r /\ ex r <= b' /\ c' <= sy r /\ ey r <= d').
  { intros H. apply Hgen in H; [|done|lia..]. split_and!; try lia. intros r Hr. by apply H. }
  clear l Hwf. intros l. induction l as [|r l IH]; intros a b c d a' b' c' d' Hwf Ha Hb Hc Hd H; cbn in H.
  - injection H as <- <- <- <-. split_and!; try lia. set_solver.
  - pose proof (Hwf r ltac:(left)) as Hr. unfold range_wf in Hr.
    apply IH in H; [|intros; apply Hwf; by right|lia..].
    split_and!; try lia. intros r' [->|Hr']%elem_of_cons; [lia|]. destruct H as (_ & _ & _ & _ & H).
    by apply H.
Qed.

Lemma elem_of_merge_grid crs c : c ∈ merge_grid crs <-> exists r, r ∈ crs /\ cell_in c r.
Proof.
  unfold merge_grid. rewrite elem_of_list_to_set, elem_of_flat_map.
  setoid_rewrite elem_of_elements. by setoid_rewrite elem_of_range_cells.
Qed.

Lemma disjoint_ranges_of l :
  NoDup l -> (forall r, r ∈ l -> range_wf r) ->
  (forall r r' c, r ∈ l -> r' ∈ l -> cell_in c r -> cell_in c r' -> r = r') -> disjoint_ranges l.
Proof.
  induction 1 as [|r l Hr Hl IH]; intros Hwf Hd; cbn; [done|]. split.
  - intros r' Hr'. apply not_true_is_false. intros Hi.
    apply intersects_cell in Hi as (c & Hc & Hc'); [|apply Hwf; by constructor..].
    apply Hr. rewrite (Hd r r' c); [done|by constructor..| |]; done.
  - apply IH; [intros; apply Hwf; by right|]. intros a b c Ha Hb. apply Hd; by right.
Qed.

(** [merge] of two vectors of ranges, overlapping or not, never throws: it
    returns a valid set whose cells are exactly those of the arguments. *)
Lemma CoreRangeSet_merge_spec s other :
  Forall range_wf s -> Forall range_wf other ->
  exists m, CoreRangeSet_merge set_order s other = Ok m /\ set_wf m /\
    forall c, cell_in_set c m <-> cell_in_set c s \/ cell_in_set c other.
Proof.
  intros Hs Ho. unfold CoreRangeSet_merge.
  set (crs := (list_to_set s ∪ list_to_set other : gset CoreRange)).
  assert (Hel : forall r, r ∈ crs <-> r ∈ s \/ r ∈ other) by (unfold crs; set_solver).
  assert (Hwf : forall r, r ∈ crs -> range_wf r).
  { intros r [H|H]%Hel; eapply Forall_forall in H; eauto. }
  destruct (merge_bounds crs) as [[[mnx mxx] mny] mxy] eqn:E.
  apply merge_bounds_spec in E as (B1 & B2 & B3 & B4 & B5); [|done].
  set (grid := merge_grid crs).
  assert (Hgrid : forall c, c ∈ grid -> u32 mnx <= cx c <= mxx /\ u32 mny <= cy c <= mxy /\ 0 <= cy c).
  { intros c (r & Hr & Hc)%elem_of_merge_grid. specialize (B5 r Hr). specialize (Hwf r Hr).
    unfold range_wf, cell_in in *. rewrite !u32_small by lia. lia. }
  assert (Hg : grid_wf grid (u32 mnx) mxx).
  { split; [apply u32_range|]. split; [lia|]. intros c Hc. specialize (Hgrid c Hc). lia. }
  pose proof (tiled_rows grid (u32 mnx) mxx (u32 mny) (Z.to_nat (mxy + 1 - u32 mny)) Hg
    ltac:(intros c Hc; specialize (Hgrid c Hc); lia)) as Ht.
  assert (Hrows : zrange (u32 mny) (u32 mny + Z.of_nat (Z.to_nat (mxy + 1 - u32 mny)))
                  = zrange (u32 mny) (mxy + 1)).
  { destruct (decide (u32 mny <= mxy + 1)); [f_equal; lia|]. by rewrite !zrange_nil by lia. }
  rewrite Hrows in Ht. set (merged := fold_left _ _ _) in *.
  destruct Ht as (T1 & T2 & T3). exists (set_order merged).
  assert (Hv : set_wf (set_order merged)).
  { split; [apply Forall_forall; intros r Hr; apply elem_of_set_order in Hr; by apply T1 in Hr as [[??] _]|].
    apply disjoint_ranges_of.
    - rewrite set_order_perm. apply NoDup_elements.
    - intros r Hr. apply elem_of_set_order in Hr. by apply T1 in Hr as [[??] _].
    - intros r r' c Hr Hr'. apply elem_of_set_order in Hr, Hr'. by apply T3. }
  split; [|split; [done|]].
  - unfold CoreRangeSet_ctor. by rewrite (proj2 (validate_no_overlap_ok _ tt) (proj2 Hv)).
  - intros c. transitivity (c ∈ grid).
    + unfold cell_in_set. setoid_rewrite elem_of_set_order. split.
      * intros (r & Hr & Hc). destruct (T1 r Hr) as [[_ Hrun] _]. unfold cell_in in Hc.
        destruct (Hrun (cy c) ltac:(lia)) as [Hin _]. specialize (Hin (cx c) ltac:(lia)). by destruct c.
      * intros Hc. apply T2; [done|]. specialize (Hgrid c Hc). lia.
    + unfold grid. rewrite elem_of_merge_grid. setoid_rewrite Hel. unfold cell_in_set. naive_solver.
Qed.
End Merge_proofs.

(** ** Properties *)

(** C26: [CoreRangeSet::merge] of any two lists of well-formed ranges
    (overlapping or not) returns: the result is a valid set, its ranges pairwise
    disjoint, so the constructor never throws, and its cells are exactly the
    cells of the two arguments. *)
Theorem merge_union (set_order : gset CoreRange -> list CoreRange)
    (Horder : forall s, set_order s ≡ₚ elements s) (s other : list CoreRange)
    (Hs : Forall range_wf s) (Ho : Forall range_wf other) :
  exists m, CoreRangeSet_merge set_order s other = Ok m /\
    Forall range_wf m /\ validate_no_overlap m = Ok tt /\
    forall c, CoreRangeSet_contains m c = CoreRangeSet_contains s c || CoreRangeSet_contains other c.
Proof.
  destruct (CoreRangeSet_merge_spec set_order Horder s other Hs Ho) as (m & Hm & [Hw Hd] & Hc).
  exists m. split_and!; [done..|by apply validate_no_overlap_ok|].
  intros c. apply eq_true_iff_eq. rewrite orb_true_iff, !set_contains_cell. apply Hc.
Qed.

Definition w_left : CoreRange := mkRange (mkCoord 0 0) (mkCoord 1 1).
Definition w_right : CoreRange := mkRange (mkCoord 1 0) (mkCoord 2 3).

Lemma merge_union_witness :
  exists m, CoreRangeSet_merge elements [w_left] [w_right] = Ok m /\
    Forall range_wf m /\ validate_no_overlap m = Ok tt /\
    forall c, CoreRangeSet_contains m c = CoreRangeSet_contains [w_left] c || CoreRangeSet_contains [w_right] c.
Proof.
  apply (merge_union elements (fun s => Permutation_refl _) [w_left] [w_right]);
    repeat constructor; cbn; lia.
Defined.

(** both counting overloads of [CoreRangeSet::contains] decide containment
    of cells: on a valid set, with core counts that fit [uint32_t], the loop that
    subtracts intersection sizes answers true exactly when every core of the
    argument is a core of the set. *)
Theorem contains_counts_cells (s other : list CoreRange) (r : CoreRange)
    (Hs : set_wf s) (Ho : set_wf other) (Hr : range_wf r)
    (Hts : total_area s < 2 ^ 32) (Hto : total_area other < 2 ^ 32) (Htr : area r < 2 ^ 32) :
  (CoreRangeSet_contains_range s r = true <->
     forall c, CoreRange_contains r c = true -> CoreRangeSet_contains s c = true) /\
  (CoreRangeSet_contains_set s other = true <->
     forall c, CoreRangeSet_contains other c = true -> CoreRangeSet_contains s c = true).
Proof.
  setoid_rewrite set_contains_cell. setoid_rewrite contains_cell.
  split; [by apply contains_range_cells|by apply contains_set_cells].
Qed.

Lemma contains_counts_cells_witness :
  (CoreRangeSet_contains_range [w_left] w_left = true <->
     forall c, CoreRange_contains w_left c = true -> CoreRangeSet_contains [w_left] c = true) /\
  (CoreRangeSet_contains_set [w_left] [w_right] = true <->
     forall c, CoreRangeSet_contains [w_right] c = true -> CoreRangeSet_contains [w_left] c = true).
Proof.
  apply (contains_counts_cells [w_left] [w_right] w_left);
    repeat first [reflexivity | constructor | set_solver | (cbn; lia)].
Defined.

(** iterating a range from [begin()] visits every core of it exactly once, in
    row-major order, and reaches [end()] after [size()] steps; and
    [corerange_to_cores] lists the cores of a valid set exactly once each, cut to
    the first [max_cores]. *)
Theorem enumerations_complete (r : CoreRange) (s : list CoreRange) (max_cores : option Z) (row_wise : bool)
    (Hr : range_wf r) (Hs : set_wf s) (Hm : forall m, max_cores = Some m -> 0 <= m) :
  CoreRange_iterate (Z.to_nat (CoreRange_size r)) r (CoreIterator_begin r)
    = Some (grid_to_cores_range (start_coord r) (end_coord r) true) /\
  exists all, all ≡ₚ corerange_to_cores s None row_wise /\ NoDup all /\
    (forall c, c ∈ all <-> CoreRangeSet_contains s c = true) /\
    Z.of_nat (length all) = total_area s /\
    corerange_to_cores s max_cores row_wise =
      match max_cores with
      | Some m => take (Z.to_nat m) (corerange_to_cores s None row_wise)
      | None => corerange_to_cores s None row_wise
      end.
Proof.
  split.
  - rewrite size_area by done. apply iterate_range; [done|]. pose proof (area_pos r Hr). lia.
  - exists (set_cells s). rewrite !corerange_to_cores_spec by done. split_and!.
    + symmetry. by apply enumerate_set_perm, Hs.
    + by apply NoDup_set_cells.
    + intros c. by rewrite set_contains_cell, elem_of_set_cells.
    + apply length_set_cells, Hs.
    + done.
Qed.

Lemma enumerations_complete_witness :
  CoreRange_iterate (Z.to_nat (CoreRange_size w_right)) w_right (CoreIterator_begin w_right)
    = Some (grid_to_cores_range (start_coord w_right) (end_coord w_right) true) /\
  exists all, all ≡ₚ corerange_to_cores [w_left] None false /\ NoDup all /\
    (forall c, c ∈ all <-> CoreRangeSet_contains [w_left] c = true) /\
    Z.of_nat (length all) = total_area [w_left] /\
    corerange_to_cores [w_left] (Some 3) false = take (Z.to_nat 3) (corerange_to_cores [w_left] None false).
Proof.
  apply (enumerations_complete w_right [w_left] (Some 3) false).
  - repeat split; cbn; lia.
  - repeat first [constructor | set_solver | (cbn; lia)].
  - intros m [= <-]. lia.
Defined.
