(* ===== verification/FreeList.v ===== *)
(** * The free-list allocation algorithm
    (tt_metal/impl/allocator/algorithms/{allocator_algorithm.hpp,free_list.hpp,free_list.cpp})

    The blocks live in a heap of numbered cells; a [local_shared_ptr] is an
    optional cell number, [nullptr] is [None].  Every pointer assignment of the
    code is an update of the heap, so the two doubly linked lists (all blocks by
    address, free blocks by address) are modelled with their aliasing, and a
    dereference of [nullptr] is the outcome [Undefined].  Addresses and sizes are
    [DeviceAddr], 64 bits.  [TT_ASSERT]s are modelled as in a debug build. *)

From S2P Require Import Prelude.

Abbreviation ptr := (option nat).

(** [FreeList::Block] *)
Record Block := mkBlock {
  address : Z;
  size : Z;
  prev_block : ptr;
  next_block : ptr;
  prev_free : ptr;
  next_free : ptr;
}.

Inductive SearchPolicy := BEST | FIRST.

(** [Algorithm] and [FreeList] state, and the heap of its blocks.  [next_id] is
    the number of blocks made so far. *)
Record FreeList := mkFreeList {
  heap : gmap nat Block;
  next_id : nat;
  search_policy : SearchPolicy;
  block_head : ptr;
  block_tail : ptr;
  free_block_head : ptr;
  free_block_tail : ptr;
  max_size_bytes : Z;
  offset_bytes : Z;
  min_allocation_size : Z;
  alignment : Z;
  shrink_size_ : Z;
  lowest_occupied_address_ : option Z;
}.

(** ** Field updates *)

Definition set_address a b := mkBlock a (size b) (prev_block b) (next_block b) (prev_free b) (next_free b).
Definition set_size s b := mkBlock (address b) s (prev_block b) (next_block b) (prev_free b) (next_free b).
Definition set_prev_block p b := mkBlock (address b) (size b) p (next_block b) (prev_free b) (next_free b).
Definition set_next_block p b := mkBlock (address b) (size b) (prev_block b) p (prev_free b) (next_free b).
Definition set_prev_free p b := mkBlock (address b) (size b) (prev_block b) (next_block b) p (next_free b).
Definition set_next_free p b := mkBlock (address b) (size b) (prev_block b) (next_block b) (prev_free b) p.

Definition set_heap h f := mkFreeList h (next_id f) (search_policy f) (block_head f) (block_tail f)
  (free_block_head f) (free_block_tail f) (max_size_bytes f) (offset_bytes f) (min_allocation_size f)
  (alignment f) (shrink_size_ f) (lowest_occupied_address_ f).
Definition set_heads bh bt fh ft f := mkFreeList (heap f) (next_id f) (search_policy f) bh bt fh ft
  (max_size_bytes f) (offset_bytes f) (min_allocation_size f) (alignment f) (shrink_size_ f)
  (lowest_occupied_address_ f).
Definition set_block_head p f := set_heads p (block_tail f) (free_block_head f) (free_block_tail f) f.
Definition set_block_tail p f := set_heads (block_head f) p (free_block_head f) (free_block_tail f) f.
Definition set_free_head p f := set_heads (block_head f) (block_tail f) p (free_block_tail f) f.
Definition set_free_tail p f := set_heads (block_head f) (block_tail f) (free_block_head f) p f.
Definition set_limits max shrink f := mkFreeList (heap f) (next_id f) (search_policy f) (block_head f)
  (block_tail f) (free_block_head f) (free_block_tail f) max (offset_bytes f) (min_allocation_size f)
  (alignment f) shrink (lowest_occupied_address_ f).
Definition set_lowest l f := mkFreeList (heap f) (next_id f) (search_policy f) (block_head f)
  (block_tail f) (free_block_head f) (free_block_tail f) (max_size_bytes f) (offset_bytes f)
  (min_allocation_size f) (alignment f) (shrink_size_ f) l.

(** ** Heap access *)

Abbreviation F := (M FreeList).

Definition deref (p : ptr) : F Block := fun s =>
  match p with
  | Some i => match heap s !! i with Some b => (s, Ok b) | None => (s, Err Undefined) end
  | None => (s, Err Undefined)
  end.

(** [p->field = v] *)
Definition assign (p : ptr) (f : Block -> Block) : F unit := fun s =>
  match p with
  | Some i => match heap s !! i with
              | Some b => (set_heap (<[i := f b]> (heap s)) s, Ok tt)
              | None => (s, Err Undefined)
              end
  | None => (s, Err Undefined)
  end.

(** [if (p != nullptr) p->field = v] *)
Definition assign_if (p : ptr) (f : Block -> Block) : F unit :=
  match p with Some _ => assign p f | None => mret tt end.

(** [make_local_shared<Block>] *)
Definition make_block (b : Block) : F ptr := fun s =>
  (mkFreeList (<[next_id s := b]> (heap s)) (S (next_id s)) (search_policy s) (block_head s)
     (block_tail s) (free_block_head s) (free_block_tail s) (max_size_bytes s) (offset_bytes s)
     (min_allocation_size s) (alignment s) (shrink_size_ s) (lowest_occupied_address_ s),
   Ok (Some (next_id s))).

(** Enough fuel for a walk over blocks that are all different. *)
Definition walk_fuel : F nat := gets next_id.

(** ** Algorithm *)

Definition align (al address : Z) : Z := u64 (u64 (address + al - 1) / al * al).

Definition lowest_occupied_address (f : FreeList) : option Z :=
  match lowest_occupied_address_ f with
  | None => None
  | Some a => Some (u64 (a + offset_bytes f))
  end.

Definition alloc_size_of (f : FreeList) (size_bytes : Z) : Z :=
  align (alignment f) (if size_bytes <? min_allocation_size f then min_allocation_size f else size_bytes).

(** ** FreeList *)

(** The loop of [init] that unlinks the blocks of the previous life. *)
Fixpoint unlink_blocks (fuel : nat) (curr : ptr) : F unit :=
  match curr with
  | None => mret tt
  | Some _ =>
      match fuel with
      | O => fail OutOfFuel
      | S fuel =>
          b ← deref curr;
          let next := next_block b in
          assign curr (fun b => mkBlock (address b) (size b) None None None None);;
          unlink_blocks fuel next
      end
  end.

Definition init : F unit :=
  head ← gets block_head;
  fuel ← walk_fuel;
  unlink_blocks fuel head;;
  modify (fun s => set_limits (max_size_bytes s) 0 s);;
  max ← gets max_size_bytes;
  block ← make_block (mkBlock 0 max None None None None);
  modify (set_heads block block block block).

(** The constructor: [None] when the debug build rejects the offset. *)
Definition FreeList_new (max_size offset min_alloc al : Z) (policy : SearchPolicy) : FreeList * res unit :=
  let s := mkFreeList ∅ 0 policy None None None None max_size offset min_alloc al 0 None in
  (require Assert (offset mod al =? 0);; init) s.

Definition is_allocated (p : ptr) : F bool :=
  b ← deref p;
  s ← get;
  mret (bool_decide (prev_free b = None) && bool_decide (next_free b = None)
        && bool_decide (p <> free_block_head s) && bool_decide (p <> free_block_tail s)).

Fixpoint available_addresses_go (fuel : nat) (alloc_size : Z) (curr : ptr) : F (list (Z * Z)) :=
  match curr with
  | None => mret []
  | Some _ =>
      match fuel with
      | O => fail OutOfFuel
      | S fuel =>
          b ← deref curr;
          rest ← available_addresses_go fuel alloc_size (next_free b);
          mret (if alloc_size <=? size b
                then (address b, u64 (u64 (address b + size b) - alloc_size)) :: rest
                else rest)
      end
  end.

Definition available_addresses (size_bytes : Z) : F (list (Z * Z)) :=
  s ← get;
  fuel ← walk_fuel;
  available_addresses_go fuel (alloc_size_of s size_bytes) (free_block_head s).

Fixpoint search_best_go (fuel : nat) (size_bytes : Z) (bottom_up : bool) (best curr : ptr) : F ptr :=
  match curr with
  | None => mret best
  | Some _ =>
      match fuel with
      | O => fail OutOfFuel
      | S fuel =>
          b ← deref curr;
          if size b =? size_bytes then mret curr
          else
            best ← (if size_bytes <=? size b then
                      match best with
                      | None => mret curr
                      | Some _ => bb ← deref best; mret (if size b <? size bb then curr else best)
                      end
                    else mret best);
            search_best_go fuel size_bytes bottom_up best (if bottom_up then next_free b else prev_free b)
      end
  end.

Definition search_best (size_bytes : Z) (bottom_up : bool) : F ptr :=
  s ← get;
  fuel ← walk_fuel;
  search_best_go fuel size_bytes bottom_up None
    (if bottom_up then free_block_head s else free_block_tail s).

Fixpoint search_first_go (fuel : nat) (size_bytes : Z) (bottom_up : bool) (curr : ptr) : F ptr :=
  match curr with
  | None => mret None
  | Some _ =>
      match fuel with
      | O => fail OutOfFuel
      | S fuel =>
          b ← deref curr;
          if size_bytes <=? size b then mret curr
          else search_first_go fuel size_bytes bottom_up (if bottom_up then next_free b else prev_free b)
      end
  end.

Definition search_first (size_bytes : Z) (bottom_up : bool) : F ptr :=
  s ← get;
  fuel ← walk_fuel;
  search_first_go fuel size_bytes bottom_up (if bottom_up then free_block_head s else free_block_tail s).

Definition search (size_bytes : Z) (bottom_up : bool) : F ptr :=
  policy ← gets search_policy;
  match policy with
  | BEST => search_best size_bytes bottom_up
  | FIRST => search_first size_bytes bottom_up
  end.

Definition allocate_entire_free_block (p : ptr) : F unit :=
  allocated ← is_allocated p;
  require Assert (negb allocated);;
  b ← deref p;
  assign_if (prev_free b) (set_next_free (next_free b));;
  b ← deref p;
  assign_if (next_free b) (set_prev_free (prev_free b));;
  b ← deref p;
  s ← get;
  when (bool_decide (p = free_block_head s)) (modify (set_free_head (next_free b)));;
  when (bool_decide (p = free_block_tail s)) (modify (set_free_tail (prev_free b)));;
  assign p (set_prev_free None);;
  assign p (set_next_free None).

Definition update_left_aligned_allocated_block_connections (free_block allocated_block : ptr) : F unit :=
  fb ← deref free_block;
  assign allocated_block (set_prev_block (prev_block fb));;
  assign allocated_block (set_next_block free_block);;
  assign_if (prev_block fb) (set_next_block allocated_block);;
  s ← get;
  when (bool_decide (free_block = block_head s)) (modify (set_block_head allocated_block));;
  assign free_block (set_prev_block allocated_block);;
  ab ← deref allocated_block;
  assign free_block (set_address (u64 (address ab + size ab)));;
  assign free_block (fun b => set_size (u64 (size b - size ab)) b).

Definition update_right_aligned_allocated_block_connections (free_block allocated_block : ptr) : F unit :=
  fb ← deref free_block;
  assign allocated_block (set_prev_block free_block);;
  assign allocated_block (set_next_block (next_block fb));;
  assign_if (next_block fb) (set_prev_block allocated_block);;
  s ← get;
  when (bool_decide (free_block = block_tail s)) (modify (set_block_tail allocated_block));;
  assign free_block (set_next_block allocated_block);;
  ab ← deref allocated_block;
  assign free_block (fun b => set_size (u64 (size b - size ab)) b).

Definition allocate_slice_of_free_block (free_block : ptr) (offset size_bytes : Z) : F ptr :=
  fb ← deref free_block;
  let block_end := u64 (address fb + size fb) in
  let slice_end := u64 (u64 (address fb + offset) + size_bytes) in
  require Assert (slice_end <=? block_end);;
  if (offset =? 0) && (size_bytes =? size fb) then
    allocate_entire_free_block free_block;;
    mret free_block
  else
    allocated_block ← make_block (mkBlock (u64 (address fb + offset)) size_bytes None None None None);
    let case_one := (offset =? 0) && (size_bytes <? size fb) in
    let case_two := (0 <? offset) && (slice_end =? block_end) in
    let case_three := (0 <? offset) && (slice_end <? block_end) in
    require Assert (Z.b2z case_one + Z.b2z case_two + Z.b2z case_three =? 1);;
    (if case_one then update_left_aligned_allocated_block_connections free_block allocated_block
     else if case_two then update_right_aligned_allocated_block_connections free_block allocated_block
     else
       require Assert case_three;;
       let next_free_block_addr := slice_end in
       let next_free_block_size := u64 (block_end - next_free_block_addr) in
       next_free_block ← make_block (mkBlock next_free_block_addr next_free_block_size
         allocated_block (next_block fb) free_block (next_free fb));
       assign_if (next_block fb) (set_prev_block next_free_block);;
       assign_if (next_free fb) (set_prev_free next_free_block);;
       s ← get;
       when (bool_decide (free_block_tail s = free_block)) (modify (set_free_tail next_free_block));;
       when (bool_decide (block_tail s = free_block)) (modify (set_block_tail next_free_block));;
       assign free_block (set_next_free next_free_block);;
       assign free_block (set_next_block allocated_block);;
       assign allocated_block (set_prev_block free_block);;
       assign allocated_block (set_next_block next_free_block);;
       ab ← deref allocated_block;
       nfb ← deref next_free_block;
       assign free_block (fun b => set_size (u64 (size b - u64 (size ab + size nfb))) b));;
    mret allocated_block.

(** [update_lowest_occupied_address(address)] *)
Definition update_lowest_occupied_address_with (a : Z) : F unit :=
  modify (fun s => set_lowest
    (Some (match lowest_occupied_address_ s with None => a | Some l => Z.min l a end)) s).

Definition allocate (size_bytes : Z) (bottom_up : bool) (address_limit : Z) : F (option Z) :=
  s ← get;
  let alloc_size := alloc_size_of s size_bytes in
  free_block ← search alloc_size bottom_up;
  match free_block with
  | None => mret None
  | Some _ =>
      fb ← deref free_block;
      let offset := if bottom_up then 0
                    else u64 (u64 (u64 (address fb + size fb) - alloc_size) - address fb) in
      allocated_block ← allocate_slice_of_free_block free_block offset alloc_size;
      ab ← deref allocated_block;
      update_lowest_occupied_address_with (address ab);;
      require Throw (negb (u64 (address ab + offset_bytes s) <? address_limit));;
      mret (Some (u64 (address ab + offset_bytes s)))
  end.

(** The search of [allocate_at_address]: the block that encompasses the range and
    the offset of the range in it. *)
Fixpoint find_encompassing (fuel : nat) (start_address alloc_size : Z) (curr : ptr) : F (option (ptr * Z)) :=
  match curr with
  | None => mret None
  | Some _ =>
      match fuel with
      | O => fail OutOfFuel
      | S fuel =>
          b ← deref curr;
          if alloc_size <=? size b then
            if address b =? start_address then mret (Some (curr, 0))
            else if (address b <? start_address)
                    && (u64 (start_address + alloc_size) <=? u64 (address b + size b))
            then mret (Some (curr, u64 (start_address - address b)))
            else find_encompassing fuel start_address alloc_size (next_free b)
          else find_encompassing fuel start_address alloc_size (next_free b)
      end
  end.

Definition allocate_at_address (absolute_start_address size_bytes : Z) : F (option Z) :=
  s ← get;
  require Assert (absolute_start_address mod alignment s =? 0);;
  let start_address := u64 (absolute_start_address - offset_bytes s) in
  let alloc_size := alloc_size_of s size_bytes in
  fuel ← walk_fuel;
  found ← find_encompassing fuel start_address alloc_size (free_block_head s);
  match found with
  | None => mret None
  | Some (curr_block, offset) =>
      allocate_slice_of_free_block curr_block offset alloc_size;;
      update_lowest_occupied_address_with start_address;;
      mret (Some absolute_start_address)
  end.

Fixpoint find_block_go (fuel : nat) (a : Z) (curr : ptr) : F ptr :=
  match curr with
  | None => mret None
  | Some _ =>
      match fuel with
      | O => fail OutOfFuel
      | S fuel => b ← deref curr; if address b =? a then mret curr else find_block_go fuel a (next_block b)
      end
  end.

Definition find_block (a : Z) : F ptr :=
  fuel ← walk_fuel;
  head ← gets block_head;
  find_block_go fuel a head.

(** The [while (p != nullptr and is_allocated(p)) p = p->prev_block] loops. *)
Fixpoint skip_allocated (fuel : nat) (step : Block -> ptr) (p : ptr) : F ptr :=
  match p with
  | None => mret None
  | Some _ =>
      allocated ← is_allocated p;
      if (allocated : bool) then
        match fuel with
        | O => fail OutOfFuel
        | S fuel => b ← deref p; skip_allocated fuel step (step b)
        end
      else mret p
  end.

(** The walk of [update_lowest_occupied_address()] to the first allocated block. *)
Fixpoint first_allocated (fuel : nat) (p : ptr) : F ptr :=
  match p with
  | None => mret None
  | Some _ =>
      allocated ← is_allocated p;
      if (allocated : bool) then mret p
      else
        match fuel with
        | O => fail OutOfFuel
        | S fuel => b ← deref p; first_allocated fuel (next_block b)
        end
  end.

Definition update_lowest_occupied_address : F unit :=
  fuel ← walk_fuel;
  head ← gets block_head;
  block ← first_allocated fuel head;
  match block with
  | None => modify (set_lowest None)
  | Some _ => b ← deref block; modify (set_lowest (Some (address b)))
  end.

(** The merge of the freed block into a free predecessor: the block that now
    holds the range, and whether the merge happened. *)
Definition merge_prev (block_to_free prev : ptr) : F (ptr * bool) :=
  prev_is_free ← (match prev with None => mret false | Some _ => a ← is_allocated prev; mret (negb a) end);
  if (prev_is_free : bool) then
    b ← deref block_to_free;
    assign prev (set_next_block (next_block b));;
    assign_if (next_block b) (set_prev_block prev);;
    assign prev (fun p => set_size (u64 (size p + size b)) p);;
    mret (prev, true)
  else mret (block_to_free, false).

(** The merge of a free successor into the block. *)
Definition merge_next (block_to_free next : ptr) (merged_prev : bool) : F bool :=
  next_is_free ← (match next with None => mret false | Some _ => a ← is_allocated next; mret (negb a) end);
  if (next_is_free : bool) then
    nb ← deref next;
    assign block_to_free (set_next_block (next_block nb));;
    assign_if (next_block nb) (set_prev_block block_to_free);;
    s ← get;
    when (bool_decide (next = free_block_head s)) (modify (set_free_head block_to_free));;
    when (bool_decide (next = free_block_tail s)) (modify (set_free_tail block_to_free));;
    nb ← deref next;
    assign block_to_free (set_next_free (next_free nb));;
    assign_if (next_free nb) (set_prev_free block_to_free);;
    when (negb merged_prev)
      (nb ← deref next;
       assign block_to_free (set_prev_free (prev_free nb));;
       assign_if (prev_free nb) (set_next_free block_to_free));;
    nb ← deref next;
    assign block_to_free (fun b => set_size (u64 (size b + size nb)) b);;
    mret true
  else mret false.

(** The insertion of an unmerged block in the free list. *)
Definition insert_free (block_to_free : ptr) : F unit :=
  fuel ← walk_fuel;
  b ← deref block_to_free;
  prev_free_block ← skip_allocated fuel prev_block (prev_block b);
  next_free_block ← skip_allocated fuel next_block (next_block b);
  assign block_to_free (set_prev_free prev_free_block);;
  match prev_free_block with
  | Some _ => assign prev_free_block (set_next_free block_to_free)
  | None => modify (set_free_head block_to_free)
  end;;
  assign block_to_free (set_next_free next_free_block);;
  match next_free_block with
  | Some _ => assign next_free_block (set_prev_free block_to_free)
  | None => modify (set_free_tail block_to_free)
  end.

Definition deallocate (absolute_address : Z) : F unit :=
  s ← get;
  let a := u64 (absolute_address - offset_bytes s) in
  block_to_free ← find_block a;
  match block_to_free with
  | None => mret tt
  | Some _ =>
      allocated ← is_allocated block_to_free;
      if negb allocated then mret tt
      else
        b ← deref block_to_free;
        let prev := prev_block b in
        let next := next_block b in
        '(block_to_free, merged_prev) ← merge_prev block_to_free prev;
        merged_next ← merge_next block_to_free next merged_prev;
        when (negb merged_prev && negb merged_next) (insert_free block_to_free);;
        s ← get;
        when (bool_decide (lowest_occupied_address_ s = Some a)) update_lowest_occupied_address
  end.

Definition clear : F unit := init.

Record Statistics := mkStatistics {
  total_allocatable_size_bytes : Z;
  total_allocated_bytes : Z;
  total_free_bytes : Z;
  largest_free_block_bytes : Z;
  largest_free_block_addrs : list Z;
}.

Fixpoint get_statistics_go (fuel : nat) (offset : Z) (curr : ptr) (st : Statistics) : F Statistics :=
  match curr with
  | None => mret st
  | Some _ =>
      match fuel with
      | O => fail OutOfFuel
      | S fuel =>
          b ← deref curr;
          allocated ← is_allocated curr;
          let st :=
            if (allocated : bool) then
              mkStatistics (total_allocatable_size_bytes st) (u64 (total_allocated_bytes st + size b))
                (total_free_bytes st) (largest_free_block_bytes st) (largest_free_block_addrs st)
            else
              let free := u64 (total_free_bytes st + size b) in
              if largest_free_block_bytes st <=? size b then
                mkStatistics (total_allocatable_size_bytes st) (total_allocated_bytes st) free (size b)
                  (largest_free_block_addrs st ++ [u32 (u64 (address b + offset))])
              else
                mkStatistics (total_allocatable_size_bytes st) (total_allocated_bytes st) free
                  (largest_free_block_bytes st) (largest_free_block_addrs st) in
          get_statistics_go fuel offset (next_block b) st
      end
  end.

Definition get_statistics : F Statistics :=
  s ← get;
  fuel ← walk_fuel;
  st ← get_statistics_go fuel (offset_bytes s) (block_head s)
         (mkStatistics (max_size_bytes s) 0 0 0 []);
  mret (if total_allocated_bytes st =? 0
        then mkStatistics (total_allocatable_size_bytes st) (total_allocated_bytes st)
               (max_size_bytes s) (max_size_bytes s) (largest_free_block_addrs st)
        else st).

(** The part of [shrink_size] that follows its checks. *)
Definition shrink_front (shrink : Z) : F unit :=
  s ← get;
  fh ← deref (free_block_head s);
  (if shrink <? size fh then
     require Assert (address fh =? 0);;
     assign (free_block_head s) (set_address shrink);;
     assign (free_block_head s) (fun b => set_size (u64 (size b - shrink)) b)
   else
     bh ← deref (block_head s);
     modify (set_block_head (next_block bh));;
     assign (next_block bh) (set_prev_block None);;
     fh ← deref (free_block_head s);
     match next_free fh with
     | None => modify (set_free_tail None);; modify (set_free_head None)
     | Some _ => assign (next_free fh) (set_prev_free None);; modify (set_free_head (next_free fh))
     end);;
  modify (fun s => set_limits (u64 (max_size_bytes s - shrink)) shrink s).

Definition shrink_size (shrink : Z) (bottom_up : bool) : F unit :=
  if shrink =? 0 then mret tt
  else
    require Fatal bottom_up;;
    s ← get;
    require Fatal (shrink <=? max_size_bytes s);;
    match lowest_occupied_address_ s with
    | Some l => require Fatal (shrink <=? l)
    | None => mret tt
    end;;
    require Fatal (shrink_size_ s =? 0);;
    require Assert (bool_decide (free_block_head s <> None));;
    shrink_front shrink.

Definition reset_size : F unit :=
  s ← get;
  if shrink_size_ s =? 0 then mret tt
  else
    match free_block_head s with
    | None =>
        p ← make_block (mkBlock 0 (shrink_size_ s) None None None None);
        modify (set_free_head p);;
        assign p (set_next_block (block_head s));;
        modify (set_free_tail p);;
        modify (set_block_head p)
    | Some _ =>
        fh ← deref (free_block_head s);
        if negb (address fh =? shrink_size_ s) then
          p ← make_block (mkBlock 0 (shrink_size_ s) None None None None);
          assign p (set_next_block (block_head s));;
          assign p (set_next_free (free_block_head s));;
          assign (free_block_head s) (set_prev_free p);;
          modify (set_free_head p);;
          modify (set_block_head p)
        else
          assign (free_block_head s) (set_address 0);;
          assign (free_block_head s) (fun b => set_size (u64 (size b + shrink_size_ s)) b)
    end;;
    modify (fun s => set_limits (u64 (max_size_bytes s + shrink_size_ s)) 0 s).
