(* ===== verification/FreeListRep.v ===== *)
(** * Representation of the free list

    The abstract state of a [FreeList] is the list of its blocks in address
    order, each with its cell number, range and status.  [seg] relates a stretch
    of that list to the heap: every link of both doubly linked lists is the one
    the list determines.  The lemmas say how the pointer assignments of the code
    change a stretch, and run the heap accesses of the code on a represented
    state. *)

From S2P Require Import Prelude FreeList.

(** A block of the abstract state. *)
Record node := mkNode { nid : nat; naddr : Z; nsize : Z; nalloc : bool }.

#[export] Instance node_eq_dec : EqDecision node.
Proof. solve_decision. Defined.

Definition ids (l : list node) : list nat := map nid l.

Definition hd_id (l : list node) (d : ptr) : ptr :=
  match l with [] => d | n :: _ => Some (nid n) end.
Fixpoint last_id (l : list node) (d : ptr) : ptr :=
  match l with [] => d | n :: l => last_id l (Some (nid n)) end.
Fixpoint hd_free (l : list node) (d : ptr) : ptr :=
  match l with [] => d | n :: l => if nalloc n then hd_free l d else Some (nid n) end.
Fixpoint last_free (l : list node) (d : ptr) : ptr :=
  match l with [] => d | n :: l => last_free l (if nalloc n then d else Some (nid n)) end.

(** [seg h pb pf l nb nf]: the cells of [l] are laid out in [h], with [pb] and
    [pf] the block and the free block before the stretch, [nb] and [nf] after. *)
Fixpoint seg (h : gmap nat Block) (pb pf : ptr) (l : list node) (nb nf : ptr) : Prop :=
  match l with
  | [] => True
  | n :: l =>
      h !! nid n = Some (mkBlock (naddr n) (nsize n) pb (hd_id l nb)
        (if nalloc n then None else pf) (if nalloc n then None else hd_free l nf)) /\
      seg h (Some (nid n)) (if nalloc n then pf else Some (nid n)) l nb nf
  end.

Definition upd_opt (p : ptr) (f : Block -> Block) (h : gmap nat Block) : gmap nat Block :=
  match p with Some i => alter f i h | None => h end.

(** ** End points *)

Lemma hd_id_app l k d : hd_id (l ++ k) d = hd_id l (hd_id k d).
Proof. by destruct l. Qed.

Lemma last_id_app l k d : last_id (l ++ k) d = last_id k (last_id l d).
Proof. revert d. induction l; cbn; auto. Qed.

Lemma hd_free_app l k d : hd_free (l ++ k) d = hd_free l (hd_free k d).
Proof. induction l as [|n l IH]; cbn; [done|]. by destruct (nalloc n). Qed.

Lemma last_free_app l k d : last_free (l ++ k) d = last_free k (last_free l d).
Proof. revert d. induction l; cbn; auto. Qed.

Lemma hd_id_elem l i : hd_id l None = Some i -> i ∈ ids l.
Proof. destruct l; cbn; [done|]. intros [= <-]. left. Qed.

Lemma last_id_cases l d : last_id l d = d /\ l = [] \/ exists n, n ∈ l /\ forall d', last_id l d' = Some (nid n).
Proof.
  revert d. induction l as [|n l IH]; intros d; [by left|right]. cbn.
  destruct (IH (Some (nid n))) as [[E ->]|(m & Hm & E)].
  - exists n. split; [left|done].
  - exists m. split; [by right|done].
Qed.

Lemma elem_of_ids n l : n ∈ l -> nid n ∈ ids l.
Proof. intros H. apply elem_of_map. eauto. Qed.

Lemma last_id_elem l i : last_id l None = Some i -> i ∈ ids l.
Proof.
  destruct (last_id_cases l None) as [[-> _]|(n & Hn & ->)]; [done|]. intros [= <-].
  by apply elem_of_ids.
Qed.

Definition has_free (l : list node) : bool := existsb (fun n => negb (nalloc n)) l.

Lemma hd_free_has l d : hd_free l d = if has_free l then hd_free l None else d.
Proof. induction l as [|n l IH]; cbn; [done|]. by destruct (nalloc n). Qed.

Lemma last_free_has l d : last_free l d = if has_free l then last_free l None else d.
Proof.
  revert d. induction l as [|n l IH]; intros d; cbn; [done|].
  destruct (nalloc n); cbn; [apply IH|]. by rewrite IH; destruct (has_free l) eqn:E; rewrite ?(IH (Some _)), ?E.
Qed.

Lemma hd_free_elem l i : hd_free l None = Some i -> exists n, n ∈ l /\ nid n = i /\ nalloc n = false.
Proof.
  induction l as [|n l IH]; cbn; [done|]. destruct (nalloc n) eqn:E.
  - intros (m & ? & ?)%IH. exists m. split; [by right|done].
  - intros [= <-]. exists n. split; [left|done].
Qed.

Lemma last_free_elem l i : last_free l None = Some i -> exists n, n ∈ l /\ nid n = i /\ nalloc n = false.
Proof.
  induction l as [|n l IH]; cbn; [done|]. destruct (nalloc n) eqn:E.
  - intros (m & ? & ?)%IH. exists m. split; [by right|done].
  - rewrite last_free_has. destruct (has_free l).
    + intros (m & ? & ?)%IH. exists m. split; [by right|done].
    + intros [= <-]. exists n. split; [left|done].
Qed.

Lemma hd_free_ids l i : hd_free l None = Some i -> i ∈ ids l.
Proof. intros (n & Hn & <- & _)%hd_free_elem. by apply elem_of_ids. Qed.
Lemma last_free_ids l i : last_free l None = Some i -> i ∈ ids l.
Proof. intros (n & Hn & <- & _)%last_free_elem. by apply elem_of_ids. Qed.

Lemma has_free_false l : has_free l = false <-> forall n, n ∈ l -> nalloc n = true.
Proof.
  unfold has_free. induction l as [|n l IH]; cbn; [set_solver|].
  rewrite orb_false_iff, negb_false_iff, IH. set_solver.
Qed.

Lemma last_free_none l : last_free l None = None -> has_free l = false.
Proof.
  induction l as [|n l IH]; cbn; [done|]. destruct (nalloc n); cbn; [done|].
  rewrite last_free_has. destruct (has_free l); [|done]. intros H. by apply IH in H.
Qed.

Lemma hd_free_none l : hd_free l None = None -> has_free l = false.
Proof. induction l as [|n l IH]; cbn; [done|]. by destruct (nalloc n). Qed.

(** ** Stretches *)

Lemma seg_app h pb pf l k nb nf :
  seg h pb pf (l ++ k) nb nf <->
  seg h pb pf l (hd_id k nb) (hd_free k nf) /\ seg h (last_id l pb) (last_free l pf) k nb nf.
Proof.
  revert pb pf. induction l as [|n l IH]; intros pb pf; cbn; [tauto|].
  rewrite IH, hd_id_app, hd_free_app. tauto.
Qed.

Lemma seg_frame h h' pb pf l nb nf :
  (forall i, i ∈ ids l -> h' !! i = h !! i) -> seg h pb pf l nb nf -> seg h' pb pf l nb nf.
Proof.
  revert pb pf. induction l as [|n l IH]; intros pb pf Hh; cbn; [done|].
  intros [Hn Hl]. split; [rewrite Hh; [done|left]|]. apply IH; [|done]. intros i Hi. apply Hh. by right.
Qed.

Lemma seg_alter_notin h pb pf l nb nf i f :
  i ∉ ids l -> seg h pb pf l nb nf -> seg (alter f i h) pb pf l nb nf.
Proof. intros Hi. apply seg_frame. intros j Hj. apply lookup_alter_ne. by intros ->. Qed.

Lemma seg_insert_notin h pb pf l nb nf i b :
  i ∉ ids l -> seg h pb pf l nb nf -> seg (<[i := b]> h) pb pf l nb nf.
Proof. intros Hi. apply seg_frame. intros j Hj. apply lookup_insert_ne. by intros ->. Qed.

Lemma seg_upd_notin h pb pf l nb nf p f :
  (forall i, p = Some i -> i ∉ ids l) -> seg h pb pf l nb nf -> seg (upd_opt p f h) pb pf l nb nf.
Proof. destruct p; [|done]. intros Hi. apply seg_alter_notin, Hi. done. Qed.

Lemma seg_no_free h pb pf pf' l nb nf nf' :
  has_free l = false -> seg h pb pf l nb nf -> seg h pb pf' l nb nf'.
Proof.
  revert pb. induction l as [|n l IH]; intros pb; cbn; [done|].
  rewrite orb_false_iff, negb_false_iff. intros [-> Hl] [Hn Hs]. split; [done|]. by apply IH.
Qed.

Lemma seg_lookup h pb pf l nb nf n : seg h pb pf l nb nf -> n ∈ l -> is_Some (h !! nid n).
Proof.
  revert pb pf. induction l as [|m l IH]; intros pb pf; cbn; [set_solver|].
  intros [Hm Hl] [->|H]%elem_of_cons; [by rewrite Hm|by eapply IH].
Qed.

Lemma seg_lookup_id h pb pf l nb nf i : seg h pb pf l nb nf -> i ∈ ids l -> is_Some (h !! i).
Proof. intros Hs (n & -> & Hn)%elem_of_map. by eapply seg_lookup. Qed.

Lemma seg_last_next h pb pf l nb nf nb' :
  NoDup (ids l) -> seg h pb pf l nb nf ->
  seg (upd_opt (last_id l None) (set_next_block nb') h) pb pf l nb' nf.
Proof.
  revert pb pf. induction l as [|n l IH]; intros pb pf; cbn; [done|].
  intros [Hn Hd]%NoDup_cons [Hl Hs]. destruct l as [|m l].
  - cbn. rewrite lookup_alter_eq, Hl. done.
  - assert (last_id (m :: l) (Some (nid n)) = last_id (m :: l) None) as -> by done. split; [|by apply IH].
    destruct (last_id (m :: l) None) as [i|] eqn:E; cbn [upd_opt]; [|done].
    rewrite lookup_alter_ne; [done|]. intros ->. by apply Hn, last_id_elem.
Qed.

Lemma seg_hd_prev h pb pf l nb nf pb' :
  NoDup (ids l) -> seg h pb pf l nb nf ->
  seg (upd_opt (hd_id l None) (set_prev_block pb') h) pb' pf l nb nf.
Proof.
  destruct l as [|n l]; cbn; [done|]. intros [Hn Hd]%NoDup_cons [Hl Hs]. split.
  - by rewrite lookup_alter_eq, Hl.
  - by apply seg_alter_notin.
Qed.

Lemma seg_last_free_next h pb pf l nb nf nf' :
  NoDup (ids l) -> seg h pb pf l nb nf ->
  seg (upd_opt (last_free l None) (set_next_free nf') h) pb pf l nb nf'.
Proof.
  revert pb pf. induction l as [|n l IH]; intros pb pf; cbn; [done|].
  intros [Hn Hd]%NoDup_cons [Hl Hs].
  assert (Hne : forall i, last_free l None = Some i -> i <> nid n).
  { intros i Hi ->. by apply Hn, last_free_ids. }
  destruct (nalloc n) eqn:Ea.
  - split; [|by apply IH]. destruct (last_free l None) as [i|] eqn:E; cbn; [|done].
    rewrite lookup_alter_ne; [done|]. by apply Hne.
  - rewrite last_free_has, (hd_free_has l nf') . rewrite (hd_free_has l nf) in Hl.
    destruct (has_free l) eqn:Ef.
    + split; [|by apply IH]. destruct (last_free l None) as [i|] eqn:E; cbn; [|done].
      rewrite lookup_alter_ne; [done|]. by apply Hne.
    + cbn. split; [by rewrite lookup_alter_eq, Hl|]. apply seg_alter_notin; [done|].
      by eapply seg_no_free.
Qed.

Lemma seg_hd_free_prev h pb pf l nb nf pf' :
  NoDup (ids l) -> seg h pb pf l nb nf ->
  seg (upd_opt (hd_free l None) (set_prev_free pf') h) pb pf' l nb nf.
Proof.
  revert pb. induction l as [|n l IH]; intros pb; cbn; [done|].
  intros [Hn Hd]%NoDup_cons [Hl Hs]. destruct (nalloc n) eqn:Ea; cbn.
  - split; [|by apply IH]. destruct (hd_free l None) as [i|] eqn:E; cbn; [|done].
    rewrite lookup_alter_ne; [done|]. intros ->. by apply Hn, hd_free_ids.
  - split; [by rewrite lookup_alter_eq, Hl|]. by apply seg_alter_notin.
Qed.

(** ** Represented states *)

(** [block_tail_] is not constrained: [deallocate] leaves it on a block that has
    been merged away, and no operation walks from it. *)

Record wf (s : FreeList) (bl : list node) : Prop := {
  wf_seg : seg (heap s) None None bl None None;
  wf_nodup : NoDup (ids bl);
  wf_fresh : forall i, i ∈ ids bl -> (i < next_id s)%nat;
  wf_head : block_head s = hd_id bl None;
  wf_free_head : free_block_head s = hd_free bl None;
  wf_free_tail : free_block_tail s = last_free bl None;
}.

Lemma wf_split s l1 n l2 :
  wf s (l1 ++ n :: l2) ->
  seg (heap s) None None l1 (Some (nid n)) (if nalloc n then hd_free l2 None else Some (nid n)) /\
  heap s !! nid n = Some (mkBlock (naddr n) (nsize n) (last_id l1 None) (hd_id l2 None)
    (if nalloc n then None else last_free l1 None) (if nalloc n then None else hd_free l2 None)) /\
  seg (heap s) (Some (nid n)) (if nalloc n then last_free l1 None else Some (nid n)) l2 None None.
Proof. intros Hw. pose proof (wf_seg _ _ Hw) as Hs. by apply seg_app in Hs. Qed.

Lemma nodup_split l1 n l2 :
  NoDup (ids (l1 ++ n :: l2)) ->
  NoDup (ids l1) /\ NoDup (ids l2) /\ (nid n ∉ ids l1) /\ (nid n ∉ ids l2) /\
  forall i, i ∈ ids l1 -> i ∈ ids l2 -> False.
Proof.
  unfold ids. rewrite map_app. cbn. rewrite NoDup_app, NoDup_cons. intros (H1 & H2 & H3 & H4).
  split_and!; [done|done| |done|].
  - intros H. eapply H2; [exact H|left].
  - intros i Hi Hi'. eapply H2; [exact Hi|by right].
Qed.

Lemma wf_elem_split s bl n : wf s bl -> n ∈ bl -> exists l1 l2, bl = l1 ++ n :: l2.
Proof. intros _. apply list_elem_of_split. Qed.

(** ** Running heap accesses *)

Lemma deref_eq s i b : heap s !! i = Some b -> deref (Some i) s = (s, Ok b).
Proof. intros H. unfold deref. by rewrite H. Qed.

Lemma assign_eq s i f : is_Some (heap s !! i) -> assign (Some i) f s = (set_heap (alter f i (heap s)) s, Ok tt).
Proof.
  intros [b H]. unfold assign. rewrite H. do 2 f_equal. apply map_eq. intros j.
  rewrite lookup_insert, lookup_alter. case_decide as E; [subst; by rewrite H|done].
Qed.

Lemma assign_if_eq s p f :
  (forall i, p = Some i -> is_Some (heap s !! i)) ->
  assign_if p f s = (set_heap (upd_opt p f (heap s)) s, Ok tt).
Proof.
  destruct p as [i|]; intros H; [by apply assign_eq, H|]. cbn. by destruct s.
Qed.

Lemma when_modify {A} (c : bool) (f : A -> A) (s : A) : when c (modify f) s = ((if c then f s else s), Ok tt).
Proof. by destruct c. Qed.

(** The status test of the code is the status of the block. *)
Lemma is_allocated_eq s bl n : wf s bl -> n ∈ bl -> is_allocated (Some (nid n)) s = (s, Ok (nalloc n)).
Proof.
  intros Hw Hn. destruct (wf_elem_split s bl n Hw Hn) as (l1 & l2 & ->).
  pose proof (wf_split s l1 n l2 Hw) as (_ & Hl & _).
  destruct (nodup_split l1 n l2 (wf_nodup _ _ Hw)) as (_ & _ & Hn1 & Hn2 & _).
  unfold is_allocated. erewrite M_bind_ok by (by apply deref_eq). cbn.
  erewrite M_bind_ok by reflexivity. unfold mret, M_ret. do 2 f_equal.
  rewrite (wf_free_head _ _ Hw), (wf_free_tail _ _ Hw), hd_free_app, last_free_app. cbn.
  destruct (nalloc n) eqn:E.
  - assert (Hh : Some (nid n) <> hd_free l1 (hd_free l2 None)).
    { rewrite hd_free_has. destruct (has_free l1); intros H; symmetry in H; by apply hd_free_ids in H. }
    assert (Ht : Some (nid n) <> last_free l2 (last_free l1 None)).
    { rewrite last_free_has. destruct (has_free l2); intros H; symmetry in H; by apply last_free_ids in H. }
    by rewrite !bool_decide_true by done.
  - apply not_true_is_false. rewrite !andb_true_iff, !bool_decide_eq_true.
    intros [[[Hp Hq] Hh] Ht]. apply Hh. rewrite hd_free_has, last_free_none by done. done.
Qed.
