(* ===== verification/FreeListOps.v ===== *)
(** * The pointer operations of the free list

    Each operation of FreeList.v that relinks blocks, run on a represented
    state: it never dereferences [nullptr], its assertions hold, and the state it
    leaves represents the expected list of blocks. *)

From S2P Require Import Prelude FreeList FreeListRep.

(** The fields the relinking operations leave alone. *)
Definition params (s : FreeList) :=
  (search_policy s, max_size_bytes s, offset_bytes s, min_allocation_size s, alignment s, shrink_size_ s,
   lowest_occupied_address_ s).

Definition with_alloc (b : bool) (n : node) : node := mkNode (nid n) (naddr n) (nsize n) b.

Lemma lookup_upd_opt_ne p f h (i : nat) :
  (forall j, p = Some j -> j <> i) -> upd_opt p f h !! i = h !! i.
Proof. destruct p; cbn; [|done]. intros H. rewrite lookup_alter_ne; [done|]. by apply H. Qed.

Lemma is_Some_alter {A} (f : A -> A) (h : gmap nat A) i j : is_Some (h !! i) -> is_Some (alter f j h !! i).
Proof. rewrite lookup_alter. case_decide; [|done]. rewrite fmap_is_Some. by subst. Qed.
Lemma is_Some_upd_opt f h p (i : nat) : is_Some (h !! i) -> is_Some (upd_opt p f h !! i).
Proof. destruct p; [apply is_Some_alter|done]. Qed.
Lemma is_Some_insert {A} (h : gmap nat A) i j b : is_Some (h !! i) -> is_Some (<[j := b]> h !! i).
Proof. intros H. rewrite lookup_insert. case_decide; eauto. Qed.
Lemma is_Some_insert_eq {A} (h : gmap nat A) i b : is_Some (<[i := b]> h !! i).
Proof. rewrite lookup_insert_eq. eauto. Qed.

Lemma hd_free_retarget l i d :
  i ∉ ids l -> (if bool_decide (Some i = hd_free l (Some i)) then d else hd_free l (Some i)) = hd_free l d.
Proof.
  intros Hi. rewrite (hd_free_has l (Some i)), (hd_free_has l d). destruct (has_free l).
  - rewrite bool_decide_false; [done|]. intros H. symmetry in H. by apply hd_free_ids in H.
  - by rewrite bool_decide_true.
Qed.

Lemma last_free_retarget l i d :
  i ∉ ids l -> (if bool_decide (Some i = last_free l (Some i)) then d else last_free l (Some i)) = last_free l d.
Proof.
  intros Hi. rewrite (last_free_has l (Some i)), (last_free_has l d). destruct (has_free l).
  - rewrite bool_decide_false; [done|]. intros H. symmetry in H. by apply last_free_ids in H.
  - by rewrite bool_decide_true.
Qed.

Lemma hd_id_retarget l i d :
  i ∉ ids l -> (if bool_decide (Some i = hd_id l (Some i)) then d else hd_id l (Some i)) = hd_id l d.
Proof.
  destruct l as [|n l]; cbn; intros Hi; [by rewrite bool_decide_true|].
  rewrite bool_decide_false; [done|]. intros [=->]. apply Hi. left.
Qed.

Lemma last_id_retarget l i d :
  i ∉ ids l -> (if bool_decide (Some i = last_id l (Some i)) then d else last_id l (Some i)) = last_id l d.
Proof.
  intros Hi. destruct (last_id_cases l d) as [[_ ->]|(n & Hn & E)]; [by rewrite bool_decide_true|].
  rewrite !E, bool_decide_false; [done|]. intros [=->]. by apply Hi, elem_of_ids.
Qed.

(** Turns an end-point equation into membership, then closes by the membership
    facts of the context. *)
Ltac ends :=
  repeat match goal with
  | H : last_id _ None = Some _ |- _ => apply last_id_elem in H
  | H : hd_id _ None = Some _ |- _ => apply hd_id_elem in H
  | H : last_free _ None = Some _ |- _ => apply last_free_ids in H
  | H : hd_free _ None = Some _ |- _ => apply hd_free_ids in H
  | H : None = Some _ |- _ => discriminate H
  | H : Some _ = Some _ |- _ => injection H as H
  end.

Ltac notin := intros; ends; subst; first [congruence | lia | eauto 3; fail | (intros ->; eauto 3; fail) |
   (intros ?; subst; eauto 3; fail) | (intros; exfalso; eauto 3; fail) | naive_solver].

(** Lookups through the assignments made so far. *)
Ltac hl :=
  cbn [heap];
  repeat first
    [ rewrite lookup_alter_eq | rewrite lookup_alter_ne by notin
    | rewrite lookup_insert_eq | rewrite lookup_insert_ne by notin
    | rewrite lookup_upd_opt_ne by notin ];
  repeat match goal with H : heap _ !! _ = Some _ |- _ => rewrite H end;
  cbn [fmap option_fmap option_map];
  unfold set_prev_block, set_next_block, set_prev_free, set_next_free, set_address, set_size;
  cbn [prev_block next_block prev_free next_free address size]; try reflexivity.

Ltac is_some :=
  cbn [heap];
  repeat first [ apply is_Some_insert_eq | apply is_Some_alter | apply is_Some_upd_opt | apply is_Some_insert ];
  match goal with
  | H : forall i, i ∈ _ -> is_Some (heap ?s !! i) |- is_Some (heap ?s !! _) => apply H
  | _ => eauto
  end.

Lemma when_free_head c p s :
  when c (modify (set_free_head p)) s = (set_free_head (if c then p else free_block_head s) s, Ok tt).
Proof. by destruct c, s. Qed.
Lemma when_free_tail c p s :
  when c (modify (set_free_tail p)) s = (set_free_tail (if c then p else free_block_tail s) s, Ok tt).
Proof. by destruct c, s. Qed.
Lemma when_block_head c p s :
  when c (modify (set_block_head p)) s = (set_block_head (if c then p else block_head s) s, Ok tt).
Proof. by destruct c, s. Qed.
Lemma when_block_tail c p s :
  when c (modify (set_block_tail p)) s = (set_block_tail (if c then p else block_tail s) s, Ok tt).
Proof. by destruct c, s. Qed.

(** Makes the state a record with one heap expression. *)
Ltac proj_term t :=
  let t := eval unfold set_block_head, set_block_tail, set_free_head, set_free_tail, set_limits, set_lowest,
    set_heads, set_heap in t in
  let t := eval cbn [heap next_id search_policy block_head block_tail free_block_head free_block_tail
    max_size_bytes offset_bytes min_allocation_size alignment shrink_size_ lowest_occupied_address_] in t in t.
Ltac proj :=
  match goal with
  | |- ?m ?s = _ => is_var s
  | |- ?m ?s = ?r => let s' := proj_term s in change (m s' = r)
  end.

Ltac proj_goal :=
  unfold set_block_head, set_block_tail, set_free_head, set_free_tail, set_limits, set_lowest,
    set_heads, set_heap;
  cbn [heap next_id search_policy block_head block_tail free_block_head free_block_tail
    max_size_bytes offset_bytes min_allocation_size alignment shrink_size_ lowest_occupied_address_].

(** Peels the assignments of a stretch: those to its end points change its
    outside links, the others do not touch it. *)
Ltac sg :=
  repeat first
    [ eassumption
    | eapply seg_last_next; [assumption|]
    | eapply seg_hd_prev; [assumption|]
    | eapply seg_last_free_next; [assumption|]
    | eapply seg_hd_free_prev; [assumption|]
    | apply seg_alter_notin; [notin|]
    | apply seg_insert_notin; [notin|]
    | apply seg_upd_notin; [notin|] ].

(** One monadic step on a represented state. *)
Ltac mr :=
  first
    [ erewrite M_bind_ok; [|
        first [ apply deref_eq; hl; fail
              | apply assign_eq; is_some; fail
              | apply assign_if_eq; intros; is_some; fail
              | apply when_free_head | apply when_free_tail | apply when_block_head | apply when_block_tail
              | reflexivity
              | eassumption ]]
    | first [ apply deref_eq; hl; fail | apply assign_eq; is_some; fail
            | apply assign_if_eq; intros; is_some; fail
            | apply when_free_head | apply when_free_tail | reflexivity ] ].
Ltac st := rewrite ?M_bind_assoc; cbn beta iota; cbn [prev_block next_block prev_free next_free address size]; proj.

Lemma wf_is_some s bl i : wf s bl -> i ∈ ids bl -> is_Some (heap s !! i).
Proof. intros Hw. apply seg_lookup_id with (1 := wf_seg _ _ Hw). Qed.

Lemma ids_app l k : ids (l ++ k) = ids l ++ ids k.
Proof. apply map_app. Qed.

Lemma ids_cons n l : ids (n :: l) = nid n :: ids l.
Proof. done. Qed.

Lemma NoDup_mid (l1 l2 : list nat) a b :
  NoDup (l1 ++ a :: l2) -> b ∉ l1 ++ a :: l2 -> NoDup (l1 ++ b :: a :: l2) /\ NoDup (l1 ++ a :: b :: l2).
Proof.
  intros Hd Hb. assert (H : NoDup (b :: l1 ++ a :: l2)) by (by constructor).
  split; (eapply NoDup_Permutation_proper; [|exact H]).
  - by rewrite Permutation_middle.
  - by rewrite (Permutation_swap b a l2), <- !Permutation_middle.
Qed.

Lemma NoDup_mid2 (l1 l2 : list nat) a b c :
  NoDup (l1 ++ a :: l2) -> b ∉ l1 ++ a :: l2 -> c ∉ l1 ++ a :: l2 -> b <> c ->
  NoDup (l1 ++ a :: b :: c :: l2).
Proof.
  intros Hd Hb Hc Hbc. assert (H : NoDup (b :: c :: l1 ++ a :: l2)).
  { constructor; [|by constructor]. rewrite elem_of_cons. naive_solver. }
  eapply NoDup_Permutation_proper; [|exact H]. rewrite <- !Permutation_middle. solve_Permutation.
Qed.

Lemma NoDup_without (l1 l2 : list nat) a b :
  NoDup (l1 ++ a :: b :: l2) -> NoDup (l1 ++ a :: l2) /\ NoDup (l1 ++ b :: l2).
Proof.
  intros H. split.
  - eapply sublist_NoDup; [exact H|]. apply sublist_app; [done|]. apply sublist_skip. by apply sublist_cons.
  - eapply sublist_NoDup; [exact H|]. apply sublist_app; [done|]. by apply sublist_cons.
Qed.

(** [i < next_id] for the cells of a changed list. *)
Ltac fresh_tac Hlt :=
  let i := fresh "i" in let H := fresh "H" in
  intros i; rewrite ids_app, ?ids_cons, elem_of_app, ?elem_of_cons; cbn [nid]; intros H;
  destruct_or! H; subst; first [lia | (match goal with |- (?j < _)%nat =>
    assert (j < next_id _)%nat by (apply Hlt; tauto) end; lia)].

(** What a representation says around one block. *)
Ltac split_facts s l1 n l2 Hw :=
  destruct (wf_split s l1 n l2 Hw) as (S1 & Hl & S2);
  destruct (nodup_split l1 n l2 (wf_nodup _ _ Hw)) as (D1 & D2 & N1 & N2 & D12);
  assert (Hin : forall i, i ∈ ids l1 \/ i ∈ ids l2 \/ i = nid n -> is_Some (heap s !! i))
    by (intros i Hi; apply (wf_is_some s _ i Hw); rewrite ids_app, ids_cons; set_solver);
  assert (Hlt : forall i, i ∈ ids l1 \/ i ∈ ids l2 \/ i = nid n -> (i < next_id s)%nat)
    by (intros i Hi; apply (wf_fresh _ _ Hw); rewrite ids_app, ids_cons; set_solver);
  assert (I1 : forall i, last_free l1 None = Some i -> is_Some (heap s !! i))
    by (intros i Hi; apply Hin; left; by apply last_free_ids);
  assert (I2 : forall i, hd_free l2 None = Some i -> is_Some (heap s !! i))
    by (intros i Hi; apply Hin; right; left; by apply hd_free_ids);
  assert (J1 : forall i, last_id l1 None = Some i -> is_Some (heap s !! i))
    by (intros i Hi; apply Hin; left; by apply last_id_elem);
  assert (J2 : forall i, hd_id l2 None = Some i -> is_Some (heap s !! i))
    by (intros i Hi; apply Hin; right; left; by apply hd_id_elem);
  assert (I0 : is_Some (heap s !! nid n)) by (apply Hin; auto);
  assert (M1 : next_id s ∉ ids l1) by (intros H; specialize (Hlt _ (or_introl H)); lia);
  assert (M2 : next_id s ∉ ids l2) by (intros H; specialize (Hlt _ (or_intror (or_introl H))); lia);
  assert (M0 : nid n <> next_id s) by (specialize (Hlt (nid n)); lia);
  assert (M1' : S (next_id s) ∉ ids l1) by (intros H; specialize (Hlt _ (or_introl H)); lia);
  assert (M2' : S (next_id s) ∉ ids l2) by (intros H; specialize (Hlt _ (or_intror (or_introl H))); lia);
  assert (M0' : nid n <> S (next_id s)) by (specialize (Hlt (nid n)); lia).

(** The list ends of a represented state around a block. *)
Lemma ends_free s l1 n l2 :
  wf s (l1 ++ n :: l2) -> nalloc n = false ->
  block_head s = hd_id l1 (Some (nid n)) /\
  free_block_head s = hd_free l1 (Some (nid n)) /\ free_block_tail s = last_free l2 (Some (nid n)).
Proof.
  intros Hw Hf. rewrite (wf_head _ _ Hw), (wf_free_head _ _ Hw), (wf_free_tail _ _ Hw).
  rewrite hd_id_app, hd_free_app, last_free_app. cbn. by rewrite Hf.
Qed.

Section Entire.
Context (s : FreeList) (l1 l2 : list node) (n : node).
Hypothesis Hw : wf s (l1 ++ n :: l2).
Hypothesis Hfree : nalloc n = false.

Lemma allocate_entire_free_block_ok :
  exists s', allocate_entire_free_block (Some (nid n)) s = (s', Ok tt) /\
    wf s' (l1 ++ with_alloc true n :: l2) /\ params s' = params s /\ next_id s' = next_id s.
Proof.
  split_facts s l1 n l2 Hw. rewrite Hfree in S1, Hl, S2.
  unfold allocate_entire_free_block. eexists. split.
  { erewrite M_bind_ok by (apply (is_allocated_eq s _ n Hw); set_solver).
    rewrite Hfree. st. repeat (mr; st). }
  split; [|done].
  destruct (ends_free s l1 n l2 Hw Hfree) as (_ & Hh & Ht).
  constructor; proj_goal.
  - apply seg_app. cbn. split; [sg|]. split; [hl|sg].
  - rewrite ids_app. cbn. pose proof (wf_nodup _ _ Hw) as H. by rewrite ids_app in H.
  - intros i Hi. apply (wf_fresh _ _ Hw). by rewrite ids_app in *.
  - rewrite (wf_head _ _ Hw), !hd_id_app. done.
  - rewrite Hh, hd_free_app. by apply hd_free_retarget.
  - rewrite Ht, last_free_app. cbn. by apply last_free_retarget.
Qed.
End Entire.

Section Slice.
Context (s : FreeList) (l1 l2 : list node) (n : node) (sz : Z).
Hypothesis Hw : wf s (l1 ++ n :: l2).
Hypothesis Hfree : nalloc n = false.
Hypothesis Haddr : 0 <= naddr n.
Hypothesis Hbound : naddr n + nsize n < 2 ^ 64.

Lemma slice_entire :
  sz = nsize n -> 0 < sz ->
  exists s', allocate_slice_of_free_block (Some (nid n)) 0 sz s = (s', Ok (Some (nid n))) /\
    wf s' (l1 ++ with_alloc true n :: l2) /\ params s' = params s.
Proof.
  intros -> Hsz. destruct (allocate_entire_free_block_ok s l1 l2 n Hw Hfree) as (s' & He & Hw' & Hp & _).
  exists s'. split; [|done]. split_facts s l1 n l2 Hw.
  unfold allocate_slice_of_free_block. mr; st.
  rewrite Z.add_0_r, (u64_small (naddr n)), (u64_small (_ + _)), Z.leb_refl, !Z.eqb_refl by lia. cbn [Z.eqb andb].
  mr; st. mr; st. reflexivity.
Qed.

(** The allocated block is left aligned: the free block keeps the right part. *)
Lemma slice_left :
  0 < sz < nsize n ->
  exists s', allocate_slice_of_free_block (Some (nid n)) 0 sz s = (s', Ok (Some (next_id s))) /\
    wf s' (l1 ++ mkNode (next_id s) (naddr n) sz true
              :: mkNode (nid n) (naddr n + sz) (nsize n - sz) false :: l2) /\ params s' = params s.
Proof.
  intros Hsz. split_facts s l1 n l2 Hw. rewrite Hfree in S1, Hl, S2.
  destruct (ends_free s l1 n l2 Hw Hfree) as (Hh & Hfh & Hft).
  unfold allocate_slice_of_free_block. eexists. split.
  { mr; st. rewrite Z.add_0_r, (u64_small (naddr n)), !(u64_small (naddr n + _)) by lia.
    rewrite (proj2 (Z.leb_le _ _)), (proj2 (Z.eqb_neq sz _)), (proj2 (Z.ltb_lt sz _)) by lia.
    cbn [Z.eqb Z.ltb Z.compare andb Z.b2z Z.add].
    mr; st. mr; st. mr; st. unfold update_left_aligned_allocated_block_connections.
    st. repeat (mr; st). }
  split; [|done]. constructor; proj_goal.
  - apply seg_app. cbn. split; [sg|]. split; [hl; unwrap; done|].
    split; [hl; unwrap; do 2 f_equal; lia|sg].
  - pose proof (wf_nodup _ _ Hw) as H. rewrite ids_app, ids_cons in H. rewrite ids_app, !ids_cons. cbn [nid].
    apply (NoDup_mid _ _ (nid n)); [done|]. rewrite elem_of_app, elem_of_cons. naive_solver.
  - fresh_tac Hlt.
  - rewrite Hh, hd_id_app. cbn. by apply hd_id_retarget.
  - rewrite Hfh, hd_free_app. done.
  - rewrite Hft, last_free_app. done.
Qed.

(** The allocated block is right aligned: the free block keeps the left part. *)
Lemma slice_right off :
  0 < off -> 0 < sz -> off + sz = nsize n ->
  exists s', allocate_slice_of_free_block (Some (nid n)) off sz s = (s', Ok (Some (next_id s))) /\
    wf s' (l1 ++ mkNode (nid n) (naddr n) off false
              :: mkNode (next_id s) (naddr n + off) sz true :: l2) /\ params s' = params s.
Proof.
  intros Hoff Hsz Hsum. split_facts s l1 n l2 Hw. rewrite Hfree in S1, Hl, S2.
  destruct (ends_free s l1 n l2 Hw Hfree) as (Hh & Hfh & Hft).
  unfold allocate_slice_of_free_block. eexists. split.
  { mr; st. rewrite (u64_small (naddr n + off)), !(u64_small (naddr n + _)), (u64_small (_ + sz)) by lia.
    rewrite <- Hsum, Z.add_assoc, Z.leb_refl, Z.eqb_refl, Z.ltb_irrefl.
    rewrite (proj2 (Z.eqb_neq off 0)), (proj2 (Z.ltb_lt 0 off)) by lia.
    cbn [andb Z.b2z Z.add Z.eqb Pos.eqb].
    mr; st. mr; st. mr; st. unfold update_right_aligned_allocated_block_connections.
    st. repeat (mr; st). }
  split; [|done]. constructor; proj_goal.
  - apply seg_app. cbn. split; [sg|]. split; [hl; unwrap; do 2 f_equal; lia|].
    split; [hl; unwrap; done|sg].
  - pose proof (wf_nodup _ _ Hw) as H. rewrite ids_app, ids_cons in H. rewrite ids_app, !ids_cons. cbn [nid].
    apply (NoDup_mid _ _ (nid n)); [done|]. rewrite elem_of_app, elem_of_cons. naive_solver.
  - fresh_tac Hlt.
  - rewrite Hh, hd_id_app. done.
  - rewrite Hfh, hd_free_app. done.
  - rewrite Hft, last_free_app. done.
Qed.

(** The allocated block is in the middle: a new free block takes the right part. *)
Lemma slice_middle off :
  0 < off -> 0 < sz -> off + sz < nsize n ->
  exists s', allocate_slice_of_free_block (Some (nid n)) off sz s = (s', Ok (Some (next_id s))) /\
    wf s' (l1 ++ mkNode (nid n) (naddr n) off false
              :: mkNode (next_id s) (naddr n + off) sz true
              :: mkNode (S (next_id s)) (naddr n + off + sz) (nsize n - off - sz) false :: l2) /\
    params s' = params s.
Proof.
  intros Hoff Hsz Hsum. split_facts s l1 n l2 Hw. rewrite Hfree in S1, Hl, S2.
  destruct (ends_free s l1 n l2 Hw Hfree) as (Hh & Hfh & Hft).
  unfold allocate_slice_of_free_block. eexists. split.
  { mr; st. rewrite (u64_small (naddr n + off)), !(u64_small (naddr n + _)), (u64_small (_ + sz)) by lia.
    rewrite (proj2 (Z.leb_le _ _)), (proj2 (Z.eqb_neq off 0)), (proj2 (Z.ltb_lt 0 off)),
      (proj2 (Z.eqb_neq (_ + sz) _)), (proj2 (Z.ltb_lt (_ + sz) _)) by lia.
    cbn [andb Z.b2z Z.add Z.eqb Pos.eqb].
    mr; st. mr; st. mr; st. mr; st. mr; st. st. repeat (mr; st). }
  split; [|done]. constructor; proj_goal.
  - apply seg_app. cbn. split; [sg|]. split; [hl; unwrap; do 2 f_equal; lia|].
    split; [hl; unwrap; done|]. split; [hl; unwrap; do 2 f_equal; lia|sg].
  - pose proof (wf_nodup _ _ Hw) as H. rewrite ids_app, ids_cons in H. rewrite ids_app, !ids_cons. cbn [nid].
    apply NoDup_mid2; [done|..|lia]; rewrite elem_of_app, elem_of_cons; naive_solver.
  - fresh_tac Hlt.
  - rewrite Hh, hd_id_app. done.
  - rewrite Hfh, hd_free_app. done.
  - rewrite Hft, last_free_app. cbn.
    rewrite (bool_decide_ext _ (Some (nid n) = last_free l2 (Some (nid n)))) by done.
    by apply last_free_retarget.
Qed.
End Slice.

(** ** Walks *)

Lemma wf_length s bl : wf s bl -> (length bl <= next_id s)%nat.
Proof.
  intros Hw. rewrite <- (length_map nid bl). change (map nid bl) with (ids bl).
  rewrite <- (length_seq (next_id s) 0).
  apply submseteq_length, NoDup_submseteq; [apply (wf_nodup _ _ Hw)|].
  intros i Hi. rewrite elem_of_seq. pose proof (wf_fresh _ _ Hw i Hi). lia.
Qed.

Lemma deref_node s l1 n l2 :
  wf s (l1 ++ n :: l2) ->
  deref (Some (nid n)) s = (s, Ok (mkBlock (naddr n) (nsize n) (last_id l1 None) (hd_id l2 None)
    (if nalloc n then None else last_free l1 None) (if nalloc n then None else hd_free l2 None))).
Proof. intros Hw. apply deref_eq. by apply (wf_split s l1 n l2 Hw). Qed.

Lemma is_allocated_node s l1 n l2 :
  wf s (l1 ++ n :: l2) -> is_allocated (Some (nid n)) s = (s, Ok (nalloc n)).
Proof. intros Hw. apply (is_allocated_eq _ _ _ Hw). set_solver. Qed.

Lemma skip_allocated_prev s l1 l2 fuel :
  wf s (l1 ++ l2) -> (length l1 <= fuel)%nat ->
  skip_allocated fuel prev_block (last_id l1 None) s = (s, Ok (last_free l1 None)).
Proof.
  revert l2 fuel. induction l1 as [|n l1 IH] using rev_ind; intros l2 fuel Hw Hf; [by destruct fuel|].
  rewrite last_id_app, last_free_app. cbn. rewrite <- app_assoc in Hw. cbn in Hw.
  rewrite length_app in Hf. cbn in Hf. destruct fuel as [|fuel]; [lia|]. cbn.
  erewrite M_bind_ok by (by eapply is_allocated_node).
  destruct (nalloc n) eqn:E; [|done].
  erewrite M_bind_ok by (by eapply deref_node). cbn. apply (IH (n :: l2)); [done|lia].
Qed.

Lemma skip_allocated_next s l1 l2 fuel :
  wf s (l1 ++ l2) -> (length l2 <= fuel)%nat ->
  skip_allocated fuel next_block (hd_id l2 None) s = (s, Ok (hd_free l2 None)).
Proof.
  revert l1 fuel. induction l2 as [|n l2 IH]; intros l1 fuel Hw Hf; [by destruct fuel|].
  cbn in *. destruct fuel as [|fuel]; [lia|]. cbn.
  erewrite M_bind_ok by (by eapply is_allocated_node).
  destruct (nalloc n) eqn:E; [|done].
  erewrite M_bind_ok by (by eapply deref_node). cbn. apply (IH (l1 ++ [n])); [by rewrite <- app_assoc|lia].
Qed.

(** Finds the first block that satisfies a predicate. *)
Definition first_such (P : node -> bool) (l : list node) : option node := head (filter (fun n => P n = true) l).

Lemma first_such_cons P n l : first_such P (n :: l) = if P n then Some n else first_such P l.
Proof. unfold first_such. rewrite filter_cons. by destruct (P n) eqn:E; case_decide. Qed.

Lemma find_block_go_eq s l1 l2 fuel a :
  wf s (l1 ++ l2) -> (length l2 <= fuel)%nat ->
  find_block_go fuel a (hd_id l2 None) s = (s, Ok (nid <$> first_such (fun n => naddr n =? a) l2)).
Proof.
  revert l1 fuel. induction l2 as [|n l2 IH]; intros l1 fuel Hw Hf; [by destruct fuel|].
  cbn in *. destruct fuel as [|fuel]; [lia|]. cbn.
  erewrite M_bind_ok by (by eapply deref_node). cbn. rewrite first_such_cons.
  destruct (naddr n =? a); [done|]. apply (IH (l1 ++ [n])); [by rewrite <- app_assoc|lia].
Qed.

Lemma find_block_eq s bl a :
  wf s bl -> find_block a s = (s, Ok (nid <$> first_such (fun n => naddr n =? a) bl)).
Proof.
  intros Hw. unfold find_block. mr. st. mr. st. rewrite (wf_head _ _ Hw).
  apply (find_block_go_eq s []); [done|]. by apply wf_length.
Qed.

Lemma first_allocated_eq s l1 l2 fuel :
  wf s (l1 ++ l2) -> (length l2 <= fuel)%nat ->
  first_allocated fuel (hd_id l2 None) s = (s, Ok (nid <$> first_such nalloc l2)).
Proof.
  revert l1 fuel. induction l2 as [|n l2 IH]; intros l1 fuel Hw Hf; [by destruct fuel|].
  cbn in *. destruct fuel as [|fuel]; [lia|]. cbn.
  erewrite M_bind_ok by (by eapply is_allocated_node). rewrite first_such_cons.
  destruct (nalloc n) eqn:E; [done|].
  erewrite M_bind_ok by (by eapply deref_node). cbn. apply (IH (l1 ++ [n])); [by rewrite <- app_assoc|lia].
Qed.

Lemma first_such_split P l n :
  first_such P l = Some n -> exists l1 l2, l = l1 ++ n :: l2 /\ P n = true /\ forall m, m ∈ l1 -> P m = false.
Proof.
  induction l as [|m l IH]; [done|]. rewrite first_such_cons. destruct (P m) eqn:E.
  - intros [= ->]. exists [], l. set_solver.
  - intros (l1 & l2 & -> & Hn & Hl)%IH. exists (m :: l1), l2. split; [done|]. split; [done|].
    intros k [->|?]%elem_of_cons; auto.
Qed.

Lemma first_such_none P l : first_such P l = None <-> forall m, m ∈ l -> P m = false.
Proof.
  induction l as [|m l IH]; [set_solver|]. rewrite first_such_cons. destruct (P m) eqn:E.
  - split; [done|]. intros H. specialize (H m ltac:(left)). congruence.
  - rewrite IH. set_solver.
Qed.

Lemma update_lowest_eq s bl :
  wf s bl -> update_lowest_occupied_address s = (set_lowest (naddr <$> first_such nalloc bl) s, Ok tt).
Proof.
  intros Hw. unfold update_lowest_occupied_address. mr. st. mr. st. rewrite (wf_head _ _ Hw).
  erewrite M_bind_ok by (apply (first_allocated_eq s []); [done|by apply wf_length]).
  destruct (first_such nalloc bl) as [n|] eqn:E; [|done]. cbn.
  apply first_such_split in E as (l1 & l2 & -> & _).
  erewrite M_bind_ok by (by eapply deref_node). done.
Qed.

