(* ===== verification/FreeListDealloc.v ===== *)
(** * Deallocation: joining the freed block with its neighbours

    The three ways [deallocate] relinks a block, each from a represented state to
    a represented state. *)

From S2P Require Import Prelude FreeList FreeListRep FreeListOps.
#[local] Arguments ids : simpl never.

(** The two [if (p != nullptr) p->link = b; else this->end = b;] of the insertion. *)
Lemma match_ptr p b s :
  (forall i, p = Some i -> is_Some (heap s !! i)) ->
  match p with Some _ => assign p (set_next_free b) | None => modify (set_free_head b) end s
  = (set_free_head (if bool_decide (p = None) then b else free_block_head s)
       (set_heap (upd_opt p (set_next_free b) (heap s)) s), Ok tt).
Proof.
  destruct p as [i|]; intros H; [rewrite assign_eq by (by apply H)|]; by destruct s.
Qed.

Lemma match_ptr_tail p b s :
  (forall i, p = Some i -> is_Some (heap s !! i)) ->
  match p with Some _ => assign p (set_prev_free b) | None => modify (set_free_tail b) end s
  = (set_free_tail (if bool_decide (p = None) then b else free_block_tail s)
       (set_heap (upd_opt p (set_prev_free b) (heap s)) s), Ok tt).
Proof.
  destruct p as [i|]; intros H; [rewrite assign_eq by (by apply H)|]; by destruct s.
Qed.

Section Merge.
Context (s : FreeList) (k l2 : list node) (p n : node).
Hypothesis Hw : wf s (k ++ p :: n :: l2).
Hypothesis Hp : nalloc p = false.
Hypothesis Hn : nalloc n = true.
Hypothesis Hsz : 0 <= nsize p + nsize n < 2 ^ 64.

(** The freed block joins its free predecessor. *)
Lemma merge_prev_free :
  exists s', merge_prev (Some (nid n)) (Some (nid p)) s = (s', Ok (Some (nid p), true)) /\
    wf s' (k ++ mkNode (nid p) (naddr p) (nsize p + nsize n) false :: l2) /\
    params s' = params s /\ next_id s' = next_id s.
Proof.
  assert (Hw' : wf s ((k ++ [p]) ++ n :: l2)) by (by rewrite <- app_assoc).
  split_facts s (k ++ [p]) n l2 Hw'. rewrite Hn in S1, Hl, S2.
  destruct (wf_split s k p (n :: l2) Hw) as (K1 & Kl & K2). rewrite Hp in K1, Kl, K2.
  destruct (nodup_split k p (n :: l2) (wf_nodup _ _ Hw)) as (E1 & E2 & O1 & O2 & E12).
  cbn in O2, E12. rewrite ?ids_app, ?ids_cons in *. cbn in *.
  assert (Hp0 : is_Some (heap s !! nid p)) by eauto.
  assert (Q1 : nid p ∉ ids l2) by set_solver. assert (Q2 : nid p <> nid n) by set_solver.
  assert (Q3 : nid n ∉ ids k) by set_solver. assert (Q4 : forall i, i ∈ ids k -> i ∈ ids l2 -> False) by set_solver.
  rewrite last_free_app in *. cbn in *. rewrite Hp, Hn in *.
  unfold merge_prev. eexists. split.
  { erewrite M_bind_ok by
      (erewrite M_bind_ok by (by eapply is_allocated_node); rewrite Hp; reflexivity).
    cbn. repeat (mr; st). }
  split; [|done]. constructor; proj_goal.
  - apply seg_app. cbn. split; [sg|]. split; [hl; unwrap; done|]. destruct K2 as [_ K2]. sg.
  - pose proof (wf_nodup _ _ Hw) as H. rewrite !ids_app, !ids_cons in *.
    rewrite !NoDup_app, !NoDup_cons in *. set_solver.
  - intros i. rewrite ids_app, ids_cons. cbn. intros Hi. apply (wf_fresh _ _ Hw).
    rewrite ids_app, !ids_cons. set_solver.
  - rewrite (wf_head _ _ Hw), !hd_id_app. done.
  - rewrite (wf_free_head _ _ Hw), !hd_free_app. cbn. by rewrite Hp.
  - rewrite (wf_free_tail _ _ Hw), !last_free_app. cbn. by rewrite Hp, Hn.
Qed.
End Merge.

Section Merge_next.
Context (s : FreeList) (l1 k : list node) (n q : node).
Hypothesis Hw : wf s (l1 ++ n :: q :: k).
Hypothesis Hq : nalloc q = false.
Hypothesis Hsz : 0 <= nsize n + nsize q < 2 ^ 64.

Lemma merged_nodup m : nid m = nid n -> NoDup (ids (l1 ++ m :: k)).
Proof.
  intros E. pose proof (wf_nodup _ _ Hw) as H. rewrite ids_app, ids_cons, E.
  rewrite ids_app, !ids_cons in H. by apply NoDup_without in H as [H _].
Qed.

Lemma merged_fresh m i : nid m = nid n -> i ∈ ids (l1 ++ m :: k) -> (i < next_id s)%nat.
Proof.
  intros E. rewrite ids_app, ids_cons, E, elem_of_app, elem_of_cons. intros H. apply (wf_fresh _ _ Hw).
  rewrite ids_app, !ids_cons, elem_of_app, !elem_of_cons. tauto.
Qed.

(** The block absorbs its free successor; it was allocated, or it already
    absorbed the freed block. *)
Lemma merge_next_free :
  exists s', merge_next (Some (nid n)) (Some (nid q)) (negb (nalloc n)) s = (s', Ok true) /\
    wf s' (l1 ++ mkNode (nid n) (naddr n) (nsize n + nsize q) false :: k) /\
    params s' = params s /\ next_id s' = next_id s.
Proof.
  split_facts s l1 n (q :: k) Hw.
  assert (Hw' : wf s ((l1 ++ [n]) ++ q :: k)) by (by rewrite <- app_assoc).
  destruct (wf_split s (l1 ++ [n]) q k Hw') as (K1 & Kl & K2). rewrite Hq in K1, Kl, K2.
  cbn in M2, M2', N2, D2, D12. rewrite ?ids_cons in *. apply NoDup_cons in D2 as [Q0 D2].
  assert (Q1 : nid n ∉ ids k) by set_solver. assert (Q2 : nid q <> nid n) by set_solver.
  assert (Q3 : nid q ∉ ids l1) by set_solver. assert (Q4 : forall i, i ∈ ids l1 -> i ∈ ids k -> False) by set_solver.
  assert (Hq0 : is_Some (heap s !! nid q)) by (apply Hin; right; left; left).
  assert (Jk : forall i, hd_id k None = Some i -> is_Some (heap s !! i))
    by (intros i Hi; apply Hin; right; left; right; by apply hd_id_elem).
  assert (Ik : forall i, hd_free k None = Some i -> is_Some (heap s !! i))
    by (intros i Hi; apply Hin; right; left; right; by apply hd_free_ids).
  rewrite last_id_app, last_free_app in *. cbn in *. rewrite Hq in *.
  unfold merge_next. destruct (nalloc n) eqn:En; cbn [negb].
  - eexists. split.
    { erewrite M_bind_ok by
        (erewrite M_bind_ok by (by eapply (is_allocated_node s (l1 ++ [n]) q k)); rewrite Hq; reflexivity).
      cbn [negb when]. repeat (mr; st). }
    split; [|done]. constructor; proj_goal.
    + apply seg_app. cbn. split; [sg|]. split; [hl; unwrap; done|sg].
    + by apply merged_nodup.
    + intros i. by apply merged_fresh.
    + rewrite (wf_head _ _ Hw), !hd_id_app. done.
    + rewrite (wf_free_head _ _ Hw), !hd_free_app. cbn. rewrite En, Hq. by apply hd_free_retarget.
    + rewrite (wf_free_tail _ _ Hw), !last_free_app. cbn. rewrite En, Hq. by apply last_free_retarget.
  - eexists. split.
    { erewrite M_bind_ok by
        (erewrite M_bind_ok by (by eapply (is_allocated_node s (l1 ++ [n]) q k)); rewrite Hq; reflexivity).
      cbn [negb when]. repeat (mr; st). }
    split; [|done]. constructor; proj_goal.
    + apply seg_app. cbn. split; [sg|]. split; [hl; unwrap; done|sg].
    + by apply merged_nodup.
    + intros i. by apply merged_fresh.
    + rewrite (wf_head _ _ Hw), !hd_id_app. done.
    + rewrite (wf_free_head _ _ Hw), !hd_free_app. cbn. rewrite En.
      rewrite bool_decide_false; [done|]. rewrite hd_free_has.
      destruct (has_free l1); [|congruence]. intros H. symmetry in H. by apply hd_free_ids in H.
    + rewrite (wf_free_tail _ _ Hw), !last_free_app. cbn. rewrite En, Hq. by apply last_free_retarget.
Qed.
End Merge_next.

Section Insert_free.
Context (s : FreeList) (l1 l2 : list node) (n : node).
Hypothesis Hw : wf s (l1 ++ n :: l2).
Hypothesis Hn : nalloc n = true.

(** A block between allocated neighbours is linked in the free list. *)
Lemma insert_free_ok :
  exists s', insert_free (Some (nid n)) s = (s', Ok tt) /\
    wf s' (l1 ++ with_alloc false n :: l2) /\ params s' = params s /\ next_id s' = next_id s.
Proof.
  split_facts s l1 n l2 Hw. rewrite Hn in S1, Hl, S2. pose proof (wf_length _ _ Hw) as Hlen.
  rewrite length_app in Hlen. cbn in Hlen.
  assert (Hw' : wf s ((l1 ++ [n]) ++ l2)) by (by rewrite <- app_assoc).
  assert (Hfh : free_block_head s = hd_free l1 (hd_free l2 None)).
  { rewrite (wf_free_head _ _ Hw), hd_free_app. cbn. by rewrite Hn. }
  assert (Hft : free_block_tail s = last_free l2 (last_free l1 None)).
  { rewrite (wf_free_tail _ _ Hw), last_free_app. cbn. by rewrite Hn. }
  unfold insert_free. eexists. split.
  { mr. st. mr. st. 
    erewrite M_bind_ok by (apply (skip_allocated_prev s l1 (n :: l2)); [done|lia]).
    erewrite M_bind_ok by (apply (skip_allocated_next s (l1 ++ [n]) l2); [done|lia]).
    mr; st. erewrite M_bind_ok; [|apply (match_ptr (last_free l1 None)); intros; is_some]. st.
    mr; st. apply (match_ptr_tail (hd_free l2 None)); intros; is_some. }
  split; [|done]. constructor; proj_goal.
  - apply seg_app. cbn. split; [sg|]. split; [hl; done|sg].
  - pose proof (wf_nodup _ _ Hw) as H. by rewrite ids_app, ids_cons in *.
  - intros i Hi. apply (wf_fresh _ _ Hw). by rewrite ids_app, ids_cons in *.
  - rewrite (wf_head _ _ Hw), !hd_id_app. done.
  - rewrite Hfh, !hd_free_app. cbn. case_bool_decide as E.
    + by rewrite (hd_free_has l1 (Some _)), (last_free_none l1 E).
    + rewrite (hd_free_has l1 (hd_free l2 None)), (hd_free_has l1 (Some _)).
      destruct (has_free l1) eqn:E'; [reflexivity|]. exfalso. apply E. rewrite last_free_has, E'. reflexivity.
  - rewrite Hft, !last_free_app. cbn. case_bool_decide as E.
    + by rewrite (last_free_has l2 (Some _)), (hd_free_none l2 E).
    + rewrite (last_free_has l2 (last_free l1 None)), (last_free_has l2 (Some _)).
      destruct (has_free l2) eqn:E'; [reflexivity|]. exfalso. apply E. rewrite hd_free_has, E'. reflexivity.
Qed.
End Insert_free.
