(* ===== verification/FreeListSpec.v ===== *)
(** * The free list against its specification

    The specification of the allocator is a memory map: the list of ranges of the
    managed region, in address order, each allocated or free.  Allocation carves
    a range out of a free one; freeing marks a range free and coalesces.  The
    theorems relate every member function of FreeList.v to this map. *)

From S2P Require Import Prelude FreeList FreeListRep FreeListOps FreeListDealloc.
#[local] Arguments ids : simpl never.

(** ** Memory maps *)

(** start, size, allocated *)
Definition range := (Z * Z * bool)%type.

Definition forget (n : node) : range := (naddr n, nsize n, nalloc n).
Definition map_of (bl : list node) : list range := map forget bl.

(** The ranges tile [base, top). *)
Fixpoint tiles (base : Z) (m : list range) (top : Z) : Prop :=
  match m with
  | [] => base = top
  | (a, sz, _) :: m => a = base /\ 0 < sz /\ tiles (base + sz) m top
  end.

(** No two neighbours are both free. *)
Fixpoint coalesced (m : list range) : Prop :=
  match m with
  | (_, _, false) :: (((_, _, b) :: _) as m) => b = true /\ coalesced m
  | _ :: m => coalesced m
  | [] => True
  end.

(** Joins adjacent free ranges. *)
Fixpoint coalesce (m : list range) : list range :=
  match m with
  | [] => []
  | (a, sz, true) :: m => (a, sz, true) :: coalesce m
  | (a, sz, false) :: m =>
      match coalesce m with
      | (_, sz', false) :: r => (a, sz + sz', false) :: r
      | r => (a, sz, false) :: r
      end
  end.

(** Carves [start, start + sz) out of a free range. *)
Definition carve (r : range) (start sz : Z) : list range :=
  let '(a, asz, _) := r in
  (if a <? start then [(a, start - a, false)] else []) ++ [(start, sz, true)] ++
  (if start + sz <? a + asz then [(start + sz, a + asz - (start + sz), false)] else []).

(** Marks the range that starts at [a] free. *)
Definition mark_free (a : Z) (m : list range) : list range :=
  map (fun '(b, sz, al) => if b =? a then (b, sz, false) else (b, sz, al)) m.

Lemma map_of_app l k : map_of (l ++ k) = map_of l ++ map_of k.
Proof. apply map_app. Qed.
Lemma map_of_cons n l : map_of (n :: l) = forget n :: map_of l.
Proof. done. Qed.

Lemma tiles_app base l k top :
  tiles base (l ++ k) top <-> exists mid, tiles base l mid /\ tiles mid k top.
Proof.
  revert base. induction l as [|[[a sz] b] l IH]; intros base; cbn.
  - split; [eauto|]. by intros (? & -> & ?).
  - rewrite IH. naive_solver.
Qed.

Lemma tiles_le base l top : tiles base l top -> base <= top.
Proof.
  revert base. induction l as [|[[a sz] b] l IH]; intros base; cbn; [lia|].
  intros (-> & Hs & Ht). apply IH in Ht. lia.
Qed.

Lemma tiles_bounds base l top a sz b :
  tiles base l top -> (a, sz, b) ∈ l -> base <= a /\ 0 < sz /\ a + sz <= top.
Proof.
  revert base. induction l as [|[[a' sz'] b'] l IH]; intros base; cbn; [set_solver|].
  intros (-> & Hs & Ht) [[= -> -> ->]|H]%elem_of_cons.
  - apply tiles_le in Ht. lia.
  - apply IH in Ht; [lia|done].
Qed.

(** Two ranges of a map with a common address are the same occurrence. *)
Lemma tiles_before base l r k top a sz b :
  tiles base (l ++ r :: k) top -> (a, sz, b) ∈ l -> a + sz <= r.1.1.
Proof.
  rewrite tiles_app. intros (mid & Hl & Hr) H. eapply tiles_bounds in Hl as (? & ? & ?); [|done].
  destruct r as [[? ?] ?]. cbn in Hr |- *. destruct Hr as (-> & _). lia.
Qed.

Lemma tiles_after base l r k top a sz b :
  tiles base (l ++ r :: k) top -> (a, sz, b) ∈ k -> r.1.1 + r.1.2 <= a.
Proof.
  rewrite tiles_app. intros (mid & Hl & Hr) H. destruct r as [[x y] z]. cbn in *.
  destruct Hr as (-> & ? & Hr). eapply tiles_bounds in Hr as (? & ? & ?); [|done]. lia.
Qed.

(** *** Coalescing *)

Definition last_is_free (m : list range) : bool :=
  match last m with Some (_, _, false) => true | _ => false end.
Definition head_is_free (m : list range) : bool :=
  match m with (_, _, false) :: _ => true | _ => false end.

Lemma coalesced_cons r m :
  coalesced (r :: m) <-> (r.2 = false -> head_is_free m = false) /\ coalesced m.
Proof.
  destruct r as [[a sz] []]; cbn; [intuition congruence|].
  destruct m as [|[[a' sz'] []] m]; cbn; intuition congruence.
Qed.

Lemma last_is_free_cons r m : m <> [] -> last_is_free (r :: m) = last_is_free m.
Proof. by destruct m. Qed.

Lemma coalesced_app l k :
  coalesced (l ++ k) <-> coalesced l /\ coalesced k /\ (last_is_free l = true -> head_is_free k = false).
Proof.
  induction l as [|r l IH]; [cbn; intuition congruence|]. rewrite <- app_comm_cons, !coalesced_cons, IH.
  destruct l as [|r' l].
  - cbn. destruct r as [[a sz] []]; cbn; intuition congruence.
  - rewrite (last_is_free_cons r (r' :: l)) by done. cbn [app head_is_free]. tauto.
Qed.

Lemma coalesce_id m : coalesced m -> coalesce m = m.
Proof.
  induction m as [|[[a sz] b] m IH]; [done|]. rewrite coalesced_cons. cbn. intros [Hf Hm].
  rewrite IH by done. destruct b; [done|]. destruct m as [|[[a' sz'] []] m]; [done|done|].
  by specialize (Hf eq_refl).
Qed.

Lemma coalesce_cons a sz b m :
  coalesce ((a, sz, b) :: m) =
    if b then (a, sz, true) :: coalesce m
    else match coalesce m with
         | (_, sz', false) :: r => (a, sz + sz', false) :: r
         | r => (a, sz, false) :: r
         end.
Proof. by destruct b. Qed.

Lemma coalesce_app l k :
  coalesced l -> last_is_free l = false -> coalesce (l ++ k) = l ++ coalesce k.
Proof.
  induction l as [|[[a sz] b] l IH]; intros Hc Hl; [done|]. rewrite coalesced_cons in Hc. cbn in Hc.
  destruct Hc as [Hf Hc]. destruct l as [|r l].
  - cbn in Hl. by destruct b.
  - rewrite last_is_free_cons in Hl by done. specialize (IH Hc Hl).
    rewrite <- app_comm_cons, coalesce_cons, IH. destruct b; [done|]. specialize (Hf eq_refl).
    by destruct r as [[? ?] []].
Qed.

Lemma last_is_free_snoc l r : last_is_free (l ++ [r]) = negb r.2.
Proof. unfold last_is_free. rewrite last_snoc. by destruct r as [[? ?] []]. Qed.

(** ** The representation invariant *)

(** Configurations whose addresses and rounded sizes fit 64 bits. *)
Record config_ok (s : FreeList) : Prop := {
  cfg_alignment : 0 < alignment s;
  cfg_min : 0 < min_allocation_size s <= 2 ^ 64 - alignment s;
  cfg_offset : 0 <= offset_bytes s;
  cfg_shrink : 0 <= shrink_size_ s;
  cfg_max : 0 <= max_size_bytes s;
  cfg_top : offset_bytes s + shrink_size_ s + max_size_bytes s < 2 ^ 64;
}.

(** [s] represents the memory map [m]: its blocks, in the heap as [wf] says, tile
    the managed region and no two free ones are adjacent. *)
Record represents (s : FreeList) (bl : list node) : Prop := {
  rep_wf : wf s bl;
  rep_config : config_ok s;
  rep_tiles : tiles (shrink_size_ s) (map_of bl) (shrink_size_ s + max_size_bytes s);
  rep_coalesced : coalesced (map_of bl);
}.

Lemma config_ok_params s s' : params s' = params s -> config_ok s -> config_ok s'.
Proof. unfold params. intros [=] []. constructor; congruence. Qed.

(** The [lowest_occupied_address_] the code should hold. *)
Definition lowest_ok (s : FreeList) (bl : list node) : Prop :=
  lowest_occupied_address_ s = naddr <$> first_such nalloc bl.

Lemma rep_bounds s l1 n l2 :
  represents s (l1 ++ n :: l2) ->
  shrink_size_ s <= naddr n /\ 0 < nsize n /\ naddr n + nsize n <= shrink_size_ s + max_size_bytes s /\
  0 <= naddr n /\ naddr n + nsize n + offset_bytes s < 2 ^ 64.
Proof.
  intros Hr. destruct (rep_config _ _ Hr). pose proof (rep_tiles _ _ Hr) as Ht.
  eapply (tiles_bounds _ _ _ (naddr n) (nsize n) (nalloc n)) in Ht; [lia|].
  rewrite map_of_app, map_of_cons. set_solver.
Qed.

(** ** Walks over the free list *)

Definition frees (l : list node) : list node := filter (fun n => nalloc n = false) l.

Inductive walk (s : FreeList) (step : Block -> ptr) : ptr -> list node -> Prop :=
  | walk_nil : walk s step None []
  | walk_cons n b ws :
      heap s !! nid n = Some b -> address b = naddr n -> size b = nsize n ->
      walk s step (step b) ws -> walk s step (Some (nid n)) (n :: ws).

Lemma frees_cons n l : frees (n :: l) = if nalloc n then frees l else n :: frees l.
Proof. unfold frees. rewrite filter_cons. by destruct (nalloc n). Qed.

Lemma frees_app l k : frees (l ++ k) = frees l ++ frees k.
Proof. apply filter_app. Qed.

Lemma walk_next s l1 l2 : wf s (l1 ++ l2) -> walk s next_free (hd_free l2 None) (frees l2).
Proof.
  revert l1. induction l2 as [|n l2 IH]; intros l1 Hw; [constructor|].
  specialize (IH (l1 ++ [n])). rewrite <- app_assoc in IH. specialize (IH Hw).
  rewrite frees_cons. destruct (wf_split s l1 n l2 Hw) as (_ & Hl & _). cbn [hd_free].
  destruct (nalloc n) eqn:E; [done|].
  by econstructor; [exact Hl|..].
Qed.

Lemma walk_prev s l1 l2 : wf s (l1 ++ l2) -> walk s prev_free (last_free l1 None) (rev (frees l1)).
Proof.
  revert l2. induction l1 as [|n l1 IH] using rev_ind; intros l2 Hw; [constructor|].
  rewrite <- app_assoc in Hw. specialize (IH _ Hw).
  rewrite frees_app, frees_cons, last_free_app. destruct (wf_split s l1 n l2 Hw) as (_ & Hl & _).
  cbn [last_free]. destruct (nalloc n) eqn:E.
  - by rewrite app_nil_r.
  - rewrite rev_app_distr. by econstructor; [exact Hl|..].
Qed.

Lemma elem_of_frees n l : n ∈ frees l <-> n ∈ l /\ nalloc n = false.
Proof. unfold frees. rewrite list_elem_of_filter. tauto. Qed.

Lemma length_frees l : (length (frees l) <= length l)%nat.
Proof. apply length_filter. Qed.

Definition fits (sz : Z) (n : node) : bool := sz <=? nsize n.

Lemma search_first_go_eq s bu fuel sz p ws :
  walk s (if (bu : bool) then next_free else prev_free) p ws -> (length ws <= fuel)%nat ->
  search_first_go fuel sz bu p s = (s, Ok (nid <$> first_such (fits sz) ws)).
Proof.
  intros Hw. revert fuel. induction Hw as [|n b ws Hn Ha Hs Hw IH]; intros fuel Hf; [by destruct fuel|].
  cbn in Hf. destruct fuel as [|fuel]; [lia|]. cbn. erewrite M_bind_ok by (by apply deref_eq).
  rewrite first_such_cons. unfold fits at 1. rewrite Hs. destruct (sz <=? nsize n); [done|].
  specialize (IH fuel ltac:(lia)). by destruct bu.
Qed.

(** The choice of [search_best] among the free blocks in walk order. *)
Definition better (sz : Z) (best : option node) (n : node) : option node :=
  if sz <=? nsize n then
    match best with
    | None => Some n
    | Some b => if nsize n <? nsize b then Some n else best
    end
  else best.

Fixpoint pick_best (sz : Z) (best : option node) (ws : list node) : option node :=
  match ws with
  | [] => best
  | n :: ws => if nsize n =? sz then Some n else pick_best sz (better sz best n) ws
  end.

(** A candidate of the search is a block of the heap. *)
Definition known (s : FreeList) (best : option node) : Prop :=
  forall n, best = Some n -> exists b, heap s !! nid n = Some b /\ size b = nsize n.

Lemma better_known s sz best n b :
  known s best -> heap s !! nid n = Some b -> size b = nsize n -> known s (better sz best n).
Proof.
  intros Hb Hn Hs m. unfold better. destruct (sz <=? nsize n); [|by apply Hb].
  destruct best as [c|]; [destruct (nsize n <? nsize c)|]; intros [= <-]; eauto.
Qed.

Lemma better_eq s sz best n b :
  known s best -> heap s !! nid n = Some b -> size b = nsize n ->
  (if sz <=? size b then
     match nid <$> best with
     | None => mret (Some (nid n))
     | Some _ => bb ← deref (nid <$> best); mret (if size b <? size bb then Some (nid n) else nid <$> best)
     end
   else mret (nid <$> best)) s = (s, Ok (nid <$> better sz best n)).
Proof.
  intros Hb Hn Hs. unfold better. rewrite Hs. destruct (sz <=? nsize n); [|done].
  destruct best as [m|]; [|done]. destruct (Hb m eq_refl) as (bm & Hm & Hsm). cbn [fmap option_fmap option_map].
  erewrite M_bind_ok by (by apply deref_eq). rewrite Hsm. by destruct (nsize n <? nsize m).
Qed.

Lemma search_best_go_eq s bu fuel sz p ws best :
  walk s (if (bu : bool) then next_free else prev_free) p ws -> (length ws <= fuel)%nat -> known s best ->
  search_best_go fuel sz bu (nid <$> best) p s = (s, Ok (nid <$> pick_best sz best ws)).
Proof.
  intros Hw. revert fuel best. induction Hw as [|n b ws Hn Ha Hs Hw IH]; intros fuel best Hf Hb; [by destruct fuel|].
  cbn [length] in Hf. destruct fuel as [|fuel]; [lia|]. cbn [search_best_go pick_best].
  erewrite M_bind_ok by (by apply deref_eq). rewrite <- Hs. destruct (size b =? sz); [done|].
  erewrite M_bind_ok by (by eapply better_eq).
  assert ((if bu then next_free b else prev_free b) = (if bu then next_free else prev_free) b) as -> by (by destruct bu).
  apply IH; [lia|by eapply better_known].
Qed.

(** The block a policy picks from the free blocks in walk order. *)
Definition pick (policy : SearchPolicy) (sz : Z) (ws : list node) : option node :=
  match policy with BEST => pick_best sz None ws | FIRST => first_such (fits sz) ws end.

Definition walk_order (bottom_up : bool) (bl : list node) : list node :=
  if bottom_up then frees bl else rev (frees bl).

Lemma search_eq s bl sz bu :
  wf s bl -> search sz bu s = (s, Ok (nid <$> pick (search_policy s) sz (walk_order bu bl))).
Proof.
  intros Hw.
  assert (Hwalk : walk s (if bu then next_free else prev_free)
    (if bu then free_block_head s else free_block_tail s) (walk_order bu bl)).
  { rewrite (wf_free_head _ _ Hw), (wf_free_tail _ _ Hw). destruct bu.
    - by apply (walk_next s []).
    - apply (walk_prev s bl []). by rewrite app_nil_r. }
  assert (Hf : (length (walk_order bu bl) <= next_id s)%nat).
  { pose proof (wf_length _ _ Hw). pose proof (length_frees bl).
    destruct bu; cbn; rewrite ?length_rev; lia. }
  unfold search. erewrite M_bind_ok by reflexivity. unfold pick. destruct (search_policy s).
  - unfold search_best. erewrite M_bind_ok by reflexivity. erewrite M_bind_ok by reflexivity.
    by apply (search_best_go_eq s bu _ _ _ _ None).
  - unfold search_first. erewrite M_bind_ok by reflexivity. erewrite M_bind_ok by reflexivity.
    by apply search_first_go_eq.
Qed.

(** [picked policy sz w1 n w2]: the search over [w1 ++ n :: w2] stops with [n]. *)
Definition picked (policy : SearchPolicy) (sz : Z) (w1 : list node) (n : node) (w2 : list node) : Prop :=
  sz <= nsize n /\
  match policy with
  | FIRST => forall m, m ∈ w1 -> nsize m < sz
  | BEST => (forall m, m ∈ w1 -> sz <= nsize m -> nsize n < nsize m) /\
            (forall m, m ∈ w2 -> sz <= nsize m -> nsize n <= nsize m)
  end.

Definition best_of (sz : Z) (ws : list node) (r : option node) : Prop :=
  match r with
  | None => forall m, m ∈ ws -> nsize m < sz
  | Some n => exists w1 w2, ws = w1 ++ n :: w2 /\ picked BEST sz w1 n w2
  end.

Lemma best_of_least sz ws n m : best_of sz ws (Some n) -> m ∈ ws -> sz <= nsize m -> nsize n <= nsize m.
Proof.
  intros (w1 & w2 & -> & _ & H1 & H2) [Hm|[->|Hm]%elem_of_cons]%elem_of_app Hs; [|lia|by apply H2].
  specialize (H1 m Hm Hs). lia.
Qed.

Lemma better_best_of sz pre best w : best_of sz pre best -> best_of sz (pre ++ [w]) (better sz best w).
Proof.
  intros H. unfold better. destruct (Z.leb_spec sz (nsize w)) as [Hw|Hw].
  - destruct best as [b|].
    + pose proof (best_of_least sz pre b) as Hl. destruct (Z.ltb_spec (nsize w) (nsize b)).
      * exists pre, []. split; [done|]. split; [done|]. split; [|by intros m []%elem_of_nil].
        intros m Hm Hs. specialize (Hl m H Hm Hs). lia.
      * destruct H as (w1 & w2 & -> & Q0 & Q1 & Q2). exists w1, (w2 ++ [w]). rewrite <- app_assoc.
        split; [done|]. split; [done|]. split; [done|].
        intros m [Hm| ->%list_elem_of_singleton]%elem_of_app; [by apply Q2|done].
    + exists pre, []. split; [done|]. split; [done|]. split; [|by intros m []%elem_of_nil].
      intros m Hm Hs. specialize (H m Hm). lia.
  - destruct best as [b|].
    + destruct H as (w1 & w2 & -> & Q0 & Q1 & Q2). exists w1, (w2 ++ [w]). rewrite <- app_assoc.
      split; [done|]. split; [done|]. split; [done|].
      intros m [Hm| ->%list_elem_of_singleton]%elem_of_app; [by apply Q2|lia].
    + intros m [Hm| ->%list_elem_of_singleton]%elem_of_app; [by apply H|done].
Qed.

Lemma pick_best_of sz ws pre best :
  best_of sz pre best -> (forall b, best = Some b -> sz < nsize b) ->
  best_of sz (pre ++ ws) (pick_best sz best ws).
Proof.
  revert pre best. induction ws as [|w ws IH]; intros pre best H Hb; cbn [pick_best].
  - by rewrite app_nil_r.
  - destruct (Z.eqb_spec (nsize w) sz) as [He|He].
    + exists pre, ws. split; [done|]. split; [lia|]. split; [|lia]. intros m Hm Hs.
      destruct best as [b|]; [|specialize (H m Hm); lia].
      pose proof (best_of_least sz pre b m H Hm Hs). specialize (Hb b eq_refl). lia.
    + specialize (IH (pre ++ [w]) (better sz best w)). rewrite <- app_assoc in IH.
      apply IH; [by apply better_best_of|]. unfold better. intros b.
      destruct (Z.leb_spec sz (nsize w)); [|apply Hb]. destruct best as [c|].
      * destruct (nsize w <? nsize c); [intros [= <-]; lia|apply Hb].
      * intros [= <-]. lia.
Qed.

Lemma pick_spec policy sz ws :
  match pick policy sz ws with
  | None => forall m, m ∈ ws -> nsize m < sz
  | Some n => exists w1 w2, ws = w1 ++ n :: w2 /\ picked policy sz w1 n w2
  end.
Proof.
  destruct policy; cbn [pick].
  - apply (pick_best_of sz ws [] None); [by intros m []%elem_of_nil|done].
  - destruct (first_such (fits sz) ws) as [n|] eqn:E.
    + apply first_such_split in E as (w1 & w2 & -> & Hn & H). unfold fits in Hn. exists w1, w2.
      split; [done|]. split; [lia|]. intros m Hm. specialize (H m Hm). unfold fits in H. lia.
    + intros m Hm. rewrite first_such_none in E. specialize (E m Hm). unfold fits in E. lia.
Qed.

Lemma frees_split bl w1 n w2 :
  frees bl = w1 ++ n :: w2 ->
  exists l1 l2, bl = l1 ++ n :: l2 /\ frees l1 = w1 /\ frees l2 = w2 /\ nalloc n = false.
Proof.
  revert w1. induction bl as [|m bl IH]; intros w1; [by destruct w1|].
  rewrite frees_cons. destruct (nalloc m) eqn:E.
  - intros (l1 & l2 & -> & <- & <- & Hn)%IH. exists (m :: l1), l2. by rewrite frees_cons, E.
  - destruct w1 as [|m' w1]; cbn; intros [= <- H].
    + exists [], bl. done.
    + apply IH in H as (l1 & l2 & -> & <- & <- & Hn). exists (m :: l1), l2. by rewrite frees_cons, E.
Qed.
