(* ===== verification/FreeListTheorems.v ===== *)
(** * What the free list promises

    Every member function of FreeList.v, on a represented state, against the
    memory map of FreeListSpec.v. *)

From S2P Require Import Prelude FreeList FreeListRep FreeListOps FreeListDealloc FreeListSpec.
#[local] Arguments ids : simpl never.

(** ** Abstract operations *)

Definition fits_range (sz : Z) (r : range) : bool := negb r.2 && (sz <=? r.1.2).

(** The range the search policy takes: [l ++ r :: k] is the memory map, [r] is
    free and large enough, and among those it is the first in search order, or
    the first of the smallest ones. *)
Definition chosen (policy : SearchPolicy) (bottom_up : bool) (sz : Z) (l : list range) (r : range) (k : list range) : Prop :=
  fits_range sz r = true /\
  (forall x, x ∈ (if bottom_up then l else k) -> fits_range sz x = true ->
     match policy with FIRST => False | BEST => r.1.2 < x.1.2 end) /\
  (forall x, x ∈ l ++ k -> fits_range sz x = true ->
     match policy with FIRST => True | BEST => r.1.2 <= x.1.2 end).

(** Start of the first allocated range. *)
Fixpoint lowest (m : list range) : option Z :=
  match m with
  | [] => None
  | (a, _, true) :: _ => Some a
  | _ :: m => lowest m
  end.

Lemma lowest_map_of bl : lowest (map_of bl) = naddr <$> first_such nalloc bl.
Proof.
  induction bl as [|n bl IH]; [done|]. rewrite first_such_cons, map_of_cons. unfold forget. cbn [lowest].
  by destruct (nalloc n).
Qed.

Lemma lowest_app l k : lowest (l ++ k) = match lowest l with Some a => Some a | None => lowest k end.
Proof. induction l as [|[[a sz] []] l IH]; cbn; auto. Qed.

Lemma lowest_elem m a : lowest m = Some a -> exists sz, (a, sz, true) ∈ m.
Proof.
  induction m as [|[[x sz] []] m IH]; cbn; [done| |].
  - intros [= <-]. exists sz. left.
  - intros (sz' & ?)%IH. exists sz'. by right.
Qed.

Lemma lowest_carve r a sz : lowest (carve r a sz) = Some a.
Proof. destruct r as [[x y] b]. unfold carve. by destruct (x <? a). Qed.

(** ** Carving *)

Lemma carve_tiles x y b a sz : x <= a -> 0 < sz -> a + sz <= x + y -> tiles x (carve (x, y, b) a sz) (x + y).
Proof.
  intros Hx Hs Ht. unfold carve.
  destruct (Z.ltb_spec x a); destruct (Z.ltb_spec (a + sz) (x + y)); cbn; lia.
Qed.

Lemma carve_coalesced l r k a sz :
  coalesced (l ++ r :: k) -> r.2 = false -> coalesced (l ++ carve r a sz ++ k).
Proof.
  destruct r as [[x y] b]. cbn. intros Hc ->. unfold carve.
  rewrite !coalesced_app. rewrite coalesced_app, coalesced_cons in Hc. destruct Hc as (Hl & (Hk & Hck) & Hlk). cbn in *.
  specialize (Hk eq_refl).
  destruct (x <? a), (a + sz <? x + y); cbn; rewrite ?Hk; split_and!; auto; try done;
    destruct k as [|[[? ?] []] ?]; cbn in *; try split_and!; auto; try done.
Qed.

Lemma lowest_after_carve base l r k top a sz :
  tiles base (l ++ r :: k) top -> r.2 = false -> r.1.1 <= a -> a + sz <= r.1.1 + r.1.2 -> 0 < sz ->
  lowest (l ++ carve r a sz ++ k) =
    Some (match lowest (l ++ r :: k) with None => a | Some x => Z.min x a end).
Proof.
  intros Ht Hr H1 H2 H3. rewrite !lowest_app, lowest_carve. destruct r as [[x y] b]. cbn in *. subst.
  destruct (lowest l) as [z|] eqn:El.
  - apply lowest_elem in El as [sz' Hz]. pose proof (tiles_before _ _ _ _ _ _ _ _ Ht Hz) as Hb. cbn in Hb.
    apply tiles_app in Ht as (mid & Ht & _). destruct (tiles_bounds _ _ _ _ _ _ Ht Hz) as (_ & ? & _).
    f_equal. lia.
  - destruct (lowest k) as [z|] eqn:Ek; [|done].
    apply lowest_elem in Ek as [sz' Hz]. eapply tiles_after in Hz; [|done]. cbn in Hz. f_equal. lia.
Qed.

(** ** Sizes *)

Definition config (s : FreeList) :=
  (search_policy s, max_size_bytes s, offset_bytes s, min_allocation_size s, alignment s, shrink_size_ s).

Lemma params_config s s' : params s' = params s -> config s' = config s /\ lowest_occupied_address_ s' = lowest_occupied_address_ s.
Proof. unfold params, config. intros [=]. split; congruence. Qed.

Lemma config_ok_config s s' : config s' = config s -> config_ok s -> config_ok s'.
Proof. unfold config. intros [=] []. constructor; congruence. Qed.

Lemma align_round al a : 0 < al -> 0 <= a -> a + al <= 2 ^ 64 -> align al a = zceil a al.
Proof.
  intros Hal Ha Hb. unfold align. rewrite (u64_small (_ - 1)) by lia.
  change ((a + al - 1) / al * al) with (zceil a al). destruct (zceil_spec a al Hal).
  apply u64_small. lia.
Qed.

(** The request rounded up, when nothing wraps. *)
Lemma alloc_size_ok s size :
  config_ok s -> 0 <= size -> size + alignment s <= 2 ^ 64 ->
  alloc_size_of s size = zceil (Z.max size (min_allocation_size s)) (alignment s) /\
  0 < alloc_size_of s size < 2 ^ 64 /\ size <= alloc_size_of s size.
Proof.
  intros [Hal Hmin _ _ _ _] H0 H1. unfold alloc_size_of.
  replace (if size <? min_allocation_size s then min_allocation_size s else size)
    with (Z.max size (min_allocation_size s)) by (destruct (Z.ltb_spec size (min_allocation_size s)); lia).
  rewrite align_round by lia. destruct (zceil_spec (Z.max size (min_allocation_size s)) _ Hal). lia.
Qed.

(** ** Search *)

Lemma elem_of_frees_map l x sz :
  x ∈ map_of l -> fits_range sz x = true -> exists m, x = forget m /\ m ∈ frees l /\ sz <= nsize m.
Proof.
  intros (m & -> & Hm)%elem_of_map. unfold fits_range, forget. cbn. rewrite andb_true_iff, negb_true_iff, Z.leb_le.
  intros [? ?]. exists m. by rewrite elem_of_frees.
Qed.

Lemma picked_chosen policy bu sz l1 n l2 :
  nalloc n = false ->
  picked policy sz (frees (if (bu : bool) then l1 else l2)) n (frees (if bu then l2 else l1)) \/
  picked policy sz (rev (frees (if bu then l1 else l2))) n (rev (frees (if bu then l2 else l1))) ->
  chosen policy bu sz (map_of l1) (forget n) (map_of l2).
Proof.
  intros Hn Hp.
  assert (Hp' : sz <= nsize n /\
    (forall m, m ∈ frees (if bu then l1 else l2) -> sz <= nsize m ->
       match policy with FIRST => False | BEST => nsize n < nsize m end) /\
    (forall m, m ∈ frees (if bu then l2 else l1) -> sz <= nsize m ->
       match policy with FIRST => True | BEST => nsize n <= nsize m end)).
  { destruct Hp as [[Hs Hp]|[Hs Hp]]; (split; [done|]); destruct policy; split; try done;
      intros m Hm Hsm; rewrite ?elem_of_rev in Hp.
    all: try (destruct Hp as [Hp1 Hp2]; first [apply Hp1|apply Hp2]; rewrite ?list_elem_of_In, <- ?in_rev, <- ?list_elem_of_In; done).
    all: assert (nsize m < sz) by (apply Hp; rewrite ?list_elem_of_In, <- ?in_rev, <- ?list_elem_of_In; done); lia. }
  clear Hp. destruct Hp' as (Hs & H1 & H2). split_and!.
  - unfold fits_range, forget. cbn. rewrite Hn. cbn. lia.
  - intros x Hx Hf. assert (Hx' : x ∈ map_of (if bu then l1 else l2)) by (by destruct bu).
    destruct (elem_of_frees_map _ _ _ Hx' Hf) as (m & -> & Hm & ?). by apply H1.
  - intros x Hx Hf. apply elem_of_app in Hx.
    assert (Hx' : x ∈ map_of (if bu then l1 else l2) \/ x ∈ map_of (if bu then l2 else l1)) by (destruct bu; tauto).
    destruct Hx' as [Hx'|Hx']; destruct (elem_of_frees_map _ _ _ Hx' Hf) as (m & -> & Hm & ?).
    + specialize (H1 m Hm ltac:(done)). destruct policy; [|done]. unfold forget. cbn. lia.
    + specialize (H2 m Hm ltac:(done)). destruct policy; [|done]. unfold forget. cbn. lia.
Qed.

Lemma search_chosen s bl sz bu :
  wf s bl ->
  exists r, search sz bu s = (s, Ok (nid <$> r)) /\
    match r with
    | None => forall x, x ∈ map_of bl -> fits_range sz x = false
    | Some n => exists l1 l2, bl = l1 ++ n :: l2 /\ nalloc n = false /\
        chosen (search_policy s) bu sz (map_of l1) (forget n) (map_of l2)
    end.
Proof.
  intros Hw. eexists. split; [by apply search_eq|].
  pose proof (pick_spec (search_policy s) sz (walk_order bu bl)) as Hp.
  destruct (pick _ _ _) as [n|].
  - destruct Hp as (w1 & w2 & He & Hp). unfold walk_order in He. destruct bu.
    + apply frees_split in He as (l1 & l2 & -> & <- & <- & Hn). exists l1, l2.
      split; [done|]. split; [done|]. apply picked_chosen; auto.
    + apply (f_equal (@rev node)) in He. rewrite rev_involutive, rev_app_distr in He. cbn in He.
      rewrite <- app_assoc in He. apply frees_split in He as (l1 & l2 & -> & H1 & H2 & Hn). exists l1, l2.
      split; [done|]. split; [done|]. apply picked_chosen; [done|right].
      by rewrite H1, H2, !rev_involutive.
  - intros x Hx. destruct (fits_range sz x) eqn:Hf; [|done].
    destruct (elem_of_frees_map _ _ _ Hx Hf) as (m & -> & Hm & Hs).
    specialize (Hp m). destruct bu; cbn in Hp; [specialize (Hp Hm); lia|].
    rewrite list_elem_of_In, <- in_rev, <- list_elem_of_In in Hp. specialize (Hp Hm). lia.
Qed.

(** ** Carving an allocation *)

Lemma slice_ok s l1 n l2 off sz :
  wf s (l1 ++ n :: l2) -> nalloc n = false ->
  0 <= naddr n -> naddr n + nsize n < 2 ^ 64 -> 0 <= off -> 0 < sz -> off + sz <= nsize n ->
  exists s' i k1 k2, let k := k1 ++ mkNode i (naddr n + off) sz true :: k2 in
    allocate_slice_of_free_block (Some (nid n)) off sz s = (s', Ok (Some i)) /\
    wf s' (l1 ++ k ++ l2) /\ params s' = params s /\ map_of k = carve (forget n) (naddr n + off) sz.
Proof.
  intros Hw Hn H0 H1 H2 H3 H4. unfold forget, carve. destruct (Z.eq_dec off 0) as [->|Ho].
  - rewrite Z.add_0_r, Z.ltb_irrefl. destruct (Z.eq_dec sz (nsize n)) as [->|Hs].
    + destruct (slice_entire s l1 l2 n (nsize n) Hw Hn H0 H1 eq_refl H3) as (s' & He & Hw' & Hp).
      exists s', (nid n), [], []. rewrite Z.ltb_irrefl. done.
    + destruct (slice_left s l1 l2 n sz Hw Hn H0 H1 ltac:(lia)) as (s' & He & Hw' & Hp).
      exists s', (next_id s), [], [mkNode (nid n) (naddr n + sz) (nsize n - sz) false].
      rewrite (proj2 (Z.ltb_lt _ _)) by lia. split_and!; [done|done|done|].
      unfold map_of, forget. cbn. do 3 f_equal. f_equal. lia.
  - rewrite (proj2 (Z.ltb_lt (naddr n) _)) by lia. destruct (Z.eq_dec (off + sz) (nsize n)) as [Hs|Hs].
    + destruct (slice_right s l1 l2 n sz Hw Hn H0 H1 off ltac:(lia) ltac:(lia) Hs) as (s' & He & Hw' & Hp).
      exists s', (next_id s), [mkNode (nid n) (naddr n) off false], [].
      rewrite (proj2 (Z.ltb_ge _ _)) by lia. split_and!; [done|done|done|].
      unfold map_of, forget. cbn. do 2 f_equal. f_equal. lia.
    + destruct (slice_middle s l1 l2 n sz Hw Hn H0 H1 off ltac:(lia) ltac:(lia) ltac:(lia)) as (s' & He & Hw' & Hp).
      exists s', (next_id s), [mkNode (nid n) (naddr n) off false],
        [mkNode (S (next_id s)) (naddr n + off + sz) (nsize n - off - sz) false].
      rewrite (proj2 (Z.ltb_lt _ _)) by lia. split_and!; [done|done|done|].
      replace (naddr n + off - naddr n) with off by lia.
      replace (naddr n + nsize n - (naddr n + off + sz)) with (nsize n - off - sz) by lia. done.
Qed.

(** A state that carved a range out of a free one is represented. *)
Lemma represents_carve s s' l1 n l2 k a sz :
  represents s (l1 ++ n :: l2) -> nalloc n = false -> wf s' (l1 ++ k ++ l2) -> config s' = config s ->
  map_of k = carve (forget n) a sz -> naddr n <= a -> 0 < sz -> a + sz <= naddr n + nsize n ->
  represents s' (l1 ++ k ++ l2).
Proof.
  intros [Hw Hc Ht Hco] Hn Hw' Hcf Hk H1 H2 H3. constructor; [done|by eapply config_ok_config| |].
  - unfold config in Hcf. injection Hcf as _ -> _ _ _ ->. rewrite !map_of_app, Hk in *.
    rewrite map_of_cons in Ht. apply tiles_app in Ht as (mid & Ht1 & Ht2). apply tiles_app. exists mid. split; [done|].
    unfold forget in Ht2. cbn [tiles] in Ht2. destruct Ht2 as (<- & Hs & Ht2). apply tiles_app. exists (naddr n + nsize n).
    split; [by apply carve_tiles|done].
  - rewrite !map_of_app, Hk. apply carve_coalesced; [|done]. by rewrite map_of_app in Hco.
Qed.

Lemma params_set_lowest x s : params (set_lowest x s) =
  (search_policy s, max_size_bytes s, offset_bytes s, min_allocation_size s, alignment s, shrink_size_ s, x).
Proof. done. Qed.

Lemma wf_set_lowest x s bl : wf s bl -> wf (set_lowest x s) bl.
Proof. intros []. by constructor. Qed.

Lemma represents_set_lowest x s bl : represents s bl -> represents (set_lowest x s) bl.
Proof. intros [? [] ? ?]. constructor; [by apply wf_set_lowest|by constructor|done..]. Qed.

(** The two ends of a carving allocation: the slice, and the low-water mark. *)
Lemma carve_allocation s l1 n l2 off sz :
  represents s (l1 ++ n :: l2) -> lowest_ok s (l1 ++ n :: l2) -> nalloc n = false ->
  0 <= off -> 0 < sz -> off + sz <= nsize n ->
  exists s1 s2 i b bl', allocate_slice_of_free_block (Some (nid n)) off sz s = (s1, Ok (Some i)) /\
    deref (Some i) s1 = (s1, Ok b) /\ address b = naddr n + off /\
    update_lowest_occupied_address_with (naddr n + off) s1 = (s2, Ok tt) /\
    represents s2 bl' /\ lowest_ok s2 bl' /\ config s2 = config s /\
    map_of bl' = map_of l1 ++ carve (forget n) (naddr n + off) sz ++ map_of l2.
Proof.
  intros Hr Hl Hn H1 H2 H3. destruct (rep_bounds _ _ _ _ Hr) as (B1 & B2 & B3 & B4 & B5).
  pose proof (cfg_offset _ (rep_config _ _ Hr)) as Ho.
  destruct (slice_ok s l1 n l2 off sz (rep_wf _ _ Hr) Hn ltac:(lia) ltac:(lia) H1 H2 H3)
    as (s1 & i & k1 & k2 & He & Hw' & Hp & Hk). set (k := k1 ++ _) in *.
  destruct (params_config _ _ Hp) as [Hcf Hlo].
  assert (Hw'' : wf s1 ((l1 ++ k1) ++ mkNode i (naddr n + off) sz true :: k2 ++ l2)).
  { unfold k in Hw'. by rewrite <- !app_assoc in Hw' |- *. }
  eexists s1, _, i, _, (l1 ++ k ++ l2). split; [exact He|]. split; [by eapply (deref_node _ _ _ _ Hw'')|].
  split; [done|]. split; [reflexivity|].
  assert (Hr1 : represents s1 (l1 ++ k ++ l2)) by (eapply represents_carve; eauto; lia).
  split; [by apply represents_set_lowest|]. split; [|split; [done|by rewrite !map_of_app, Hk]].
  unfold lowest_ok in *. rewrite <- lowest_map_of in *. cbn [lowest_occupied_address_ set_lowest].
  rewrite Hlo, Hl, !map_of_app, Hk. symmetry. pose proof (rep_tiles _ _ Hr) as Ht.
  rewrite map_of_app, map_of_cons in Ht. rewrite map_of_cons. eapply lowest_after_carve; eauto; cbn; lia.
Qed.

(** ** Coalescing *)

Lemma coalesce_tiles b m t : tiles b m t -> tiles b (coalesce m) t.
Proof.
  revert b. induction m as [|[[a sz] f] m IH]; intros b; [done|].
  rewrite coalesce_cons. cbn [tiles]. intros (-> & Hs & Ht). apply IH in Ht.
  destruct f; [done|]. destruct (coalesce m) as [|[[a' sz'] []] r]; cbn in *; [done|done|].
  destruct Ht as (-> & ? & ?). split_and!; [done|lia|]. by rewrite Z.add_assoc.
Qed.

Lemma coalesce_coalesced m : coalesced (coalesce m).
Proof.
  induction m as [|[[a sz] f] m IH]; [done|]. rewrite coalesce_cons. destruct f; [by apply coalesced_cons|].
  destruct (coalesce m) as [|[[a' sz'] []] r]; [done|by apply coalesced_cons|].
  rewrite coalesced_cons in IH |- *. done.
Qed.

Lemma lowest_coalesce m : lowest (coalesce m) = lowest m.
Proof.
  induction m as [|[[a sz] f] m IH]; [done|]. rewrite coalesce_cons. cbn [lowest]. destruct f; [done|].
  rewrite <- IH. by destruct (coalesce m) as [|[[a' sz'] []] r].
Qed.

Lemma mark_free_cons a x y f m :
  mark_free a ((x, y, f) :: m) = (if x =? a then (x, y, false) else (x, y, f)) :: mark_free a m.
Proof. done. Qed.

Lemma mark_free_id a m : (forall x y f, (x, y, f) ∈ m -> x <> a) -> mark_free a m = m.
Proof.
  induction m as [|[[x y] f] m IH]; intros Hm; [done|]. rewrite mark_free_cons, IH.
  - destruct (Z.eqb_spec x a); [|done]. exfalso. eapply Hm; [left|done].
  - intros. eapply Hm. by right.
Qed.

Lemma mark_free_split base l a sz b k top :
  tiles base (l ++ (a, sz, b) :: k) top -> mark_free a (l ++ (a, sz, b) :: k) = l ++ (a, sz, false) :: k.
Proof.
  intros Ht. assert (E : mark_free a (l ++ (a, sz, b) :: k) = mark_free a l ++ (a, sz, false) :: mark_free a k).
  { unfold mark_free. rewrite map_app. cbn. by rewrite Z.eqb_refl. }
  rewrite E, !mark_free_id; [done| |].
  - intros x y f Hx ->. pose proof (tiles_after _ _ _ _ _ _ _ _ Ht Hx) as H. cbn in H.
    destruct (tiles_bounds _ _ _ a sz b Ht ltac:(set_solver)) as (_ & ? & _). lia.
  - intros x y f Hx ->. pose proof (tiles_before _ _ _ _ _ _ _ _ Ht Hx) as H. cbn in H.
    destruct (tiles_bounds _ _ _ a y f Ht ltac:(set_solver)) as (_ & ? & _). lia.
Qed.

Lemma coalesce_after l a sz k :
  coalesced (l ++ (a, sz, true) :: k) -> last_is_free l = false ->
  coalesce (l ++ (a, sz, false) :: k) = l ++ coalesce ((a, sz, false) :: k).
Proof. rewrite coalesced_app. intros (Hl & _) Hf. by apply coalesce_app. Qed.

Lemma coalesce_free_cons a sz k :
  coalesced k ->
  coalesce ((a, sz, false) :: k) =
    match k with (_, sz', false) :: r => (a, sz + sz', false) :: r | _ => (a, sz, false) :: k end.
Proof. intros Hk. rewrite coalesce_cons, coalesce_id by done. by destruct k as [|[[? ?] []] ?]. Qed.

Lemma coalesce_before l b sz0 a sz k :
  coalesced (l ++ [(b, sz0, false)]) -> coalesced k ->
  coalesce (l ++ (b, sz0, false) :: (a, sz, false) :: k) = l ++ coalesce ((b, sz0 + sz, false) :: k).
Proof.
  rewrite coalesced_app. intros (Hl & _ & Hlast) Hk. rewrite coalesce_app; [|done|].
  - f_equal. rewrite coalesce_cons, !coalesce_free_cons by done.
    destruct k as [|[[? ?] []] ?]; try done. by rewrite Z.add_assoc.
  - destruct (last_is_free l) eqn:E; [|done]. by specialize (Hlast eq_refl).
Qed.

(** ** Releasing a block *)

(** The second half of the merge: [n] is the freed block, or the free block that
    absorbed it; the memory map becomes [m]. *)
Definition releases_next (s : FreeList) (n : node) (l2 : list node) (m : list range) : Prop :=
  exists s1 s2 mn bl', merge_next (Some (nid n)) (hd_id l2 None) (negb (nalloc n)) s = (s1, Ok mn) /\
    when (nalloc n && negb mn) (insert_free (Some (nid n))) s1 = (s2, Ok tt) /\
    wf s2 bl' /\ params s2 = params s /\ map_of bl' = m.

Lemma releases_unmerged s l1 n l2 :
  wf s (l1 ++ n :: l2) -> merge_next (Some (nid n)) (hd_id l2 None) (negb (nalloc n)) s = (s, Ok false) ->
  releases_next s n l2 (map_of l1 ++ (naddr n, nsize n, false) :: map_of l2).
Proof.
  intros Hw He. unfold releases_next. destruct (nalloc n) eqn:Hn.
  - destruct (insert_free_ok s l1 l2 n Hw Hn) as (s2 & Hi & Hw2 & Hp & _).
    exists s, s2, false, (l1 ++ with_alloc false n :: l2). by rewrite map_of_app, map_of_cons.
  - exists s, s, false, (l1 ++ n :: l2). rewrite map_of_app, map_of_cons. unfold forget. by rewrite Hn.
Qed.

Lemma release_next s l1 n l2 :
  wf s (l1 ++ n :: l2) -> coalesced (map_of l2) ->
  (forall q, q ∈ l2 -> 0 <= nsize n + nsize q < 2 ^ 64) ->
  releases_next s n l2 (map_of l1 ++ coalesce ((naddr n, nsize n, false) :: map_of l2)).
Proof.
  intros Hw Hc Hsz. rewrite coalesce_free_cons by done.
  destruct l2 as [|q k]; [by apply releases_unmerged|]. rewrite map_of_cons. unfold forget at 1.
  destruct (nalloc q) eqn:Hq.
  - pose proof (releases_unmerged s l1 n (q :: k) Hw) as Hs. rewrite map_of_cons in Hs. unfold forget in Hs at 1.
    rewrite Hq in Hs. unfold forget at 1. rewrite Hq. apply Hs. unfold merge_next. cbn [hd_id].
    assert (Hw' : wf s ((l1 ++ [n]) ++ q :: k)) by (by rewrite <- app_assoc).
    erewrite M_bind_ok; [|erewrite M_bind_ok by (by eapply is_allocated_node); by rewrite Hq]. done.
  - destruct (merge_next_free s l1 k n q Hw Hq) as (s1 & He & Hw1 & Hp & _); [apply Hsz; left|].
    exists s1, s1, true, (l1 ++ mkNode (nid n) (naddr n) (nsize n + nsize q) false :: k).
    split; [done|]. split; [by rewrite andb_false_r|]. by rewrite map_of_app, map_of_cons.
Qed.

Lemma forget_elem x l : x ∈ l -> forget x ∈ map_of l.
Proof. intros Hx. apply elem_of_map. by exists x. Qed.

Lemma represents_before s l1 n l2 p :
  represents s (l1 ++ n :: l2) -> p ∈ l1 ->
  shrink_size_ s <= naddr p /\ 0 < nsize p /\ naddr p + nsize p <= naddr n.
Proof.
  intros Hr Hp. pose proof (rep_tiles _ _ Hr) as Ht. rewrite map_of_app, map_of_cons in Ht.
  pose proof (tiles_before _ _ _ _ _ _ _ _ Ht (forget_elem _ _ Hp)) as H.
  apply tiles_app in Ht as (? & Ht & _). pose proof (tiles_bounds _ _ _ _ _ _ Ht (forget_elem _ _ Hp)). cbn in H. tauto.
Qed.

Lemma represents_after s l1 n l2 q :
  represents s (l1 ++ n :: l2) -> q ∈ l2 ->
  0 < nsize q /\ naddr n + nsize n <= naddr q /\ naddr q + nsize q + offset_bytes s < 2 ^ 64.
Proof.
  intros Hr Hq. pose proof (rep_tiles _ _ Hr) as Ht. rewrite map_of_app, map_of_cons in Ht.
  pose proof (tiles_after _ _ _ _ _ _ _ _ Ht (forget_elem _ _ Hq)) as H.
  apply list_elem_of_split in Hq as (k1 & k2 & ->).
  change (l1 ++ n :: k1 ++ q :: k2) with (l1 ++ (n :: k1) ++ q :: k2) in Hr. rewrite app_assoc in Hr.
  destruct (rep_bounds _ _ _ _ Hr) as (_ & ? & _ & _ & ?). done.
Qed.

Lemma map_of_mid l1 n l2 : map_of (l1 ++ n :: l2) = map_of l1 ++ (naddr n, nsize n, nalloc n) :: map_of l2.
Proof. by rewrite map_of_app. Qed.

Lemma map_of_snoc l n : map_of (l ++ [n]) = map_of l ++ [(naddr n, nsize n, nalloc n)].
Proof. by rewrite map_of_app. Qed.

(** The whole release: merge or insert; the memory map becomes [m]. *)
Definition releases (s : FreeList) (l1 : list node) (n : node) (l2 : list node) (m : list range) : Prop :=
  exists s0 s1 s2 i mp mn bl',
    merge_prev (Some (nid n)) (last_id l1 None) s = (s0, Ok (Some i, mp)) /\
    merge_next (Some i) (hd_id l2 None) mp s0 = (s1, Ok mn) /\
    when (negb mp && negb mn) (insert_free (Some i)) s1 = (s2, Ok tt) /\
    wf s2 bl' /\ params s2 = params s /\ map_of bl' = m.

Lemma release_unmerged s l1 n l2 :
  wf s (l1 ++ n :: l2) -> nalloc n = true -> coalesced (map_of l2) ->
  (forall q, q ∈ l2 -> 0 <= nsize n + nsize q < 2 ^ 64) ->
  last_is_free (map_of l1) = false ->
  releases s l1 n l2 (map_of l1 ++ coalesce ((naddr n, nsize n, false) :: map_of l2)).
Proof.
  intros Hw Hn Hc Hq Hf. destruct (release_next s l1 n l2 Hw Hc Hq) as (s1 & s2 & mn & bl' & He & Hi & Hr).
  rewrite Hn in He, Hi. exists s, s1, s2, (nid n), false, mn, bl'. split; [|done].
  destruct l1 as [|p k _] using rev_ind; [done|]. rewrite map_of_snoc, last_is_free_snoc in Hf.
  apply negb_false_iff in Hf. cbn in Hf. rewrite last_id_app. unfold merge_prev. cbn [last_id].
  rewrite <- app_assoc in Hw. cbn [app] in Hw.
  erewrite M_bind_ok; [|erewrite M_bind_ok by (by eapply is_allocated_node); by rewrite Hf]. done.
Qed.

Lemma release_merged s k p n l2 :
  wf s (k ++ p :: n :: l2) -> nalloc p = false -> nalloc n = true -> coalesced (map_of l2) ->
  0 <= nsize p + nsize n < 2 ^ 64 -> (forall q, q ∈ l2 -> 0 <= nsize p + nsize n + nsize q < 2 ^ 64) ->
  releases s (k ++ [p]) n l2 (map_of k ++ coalesce ((naddr p, nsize p + nsize n, false) :: map_of l2)).
Proof.
  intros Hw Hp Hn Hc Hpn Hq.
  destruct (merge_prev_free s k l2 p n Hw Hp Hn Hpn) as (s0 & Hm & Hw0 & Hp0 & _).
  destruct (release_next s0 k _ l2 Hw0 Hc Hq) as (s1 & s2 & mn & bl' & He & Hi & Hw' & Hpar & Hmap).
  exists s0, s1, s2, (nid p), true, mn, bl'. rewrite last_id_app. split_and!; [done..|congruence|done].
Qed.

(** Marking a block free coalesces it with its neighbours. *)
Lemma release_ok s l1 n l2 :
  represents s (l1 ++ n :: l2) -> nalloc n = true ->
  releases s l1 n l2 (coalesce (mark_free (naddr n) (map_of (l1 ++ n :: l2)))).
Proof.
  intros Hr Hn. destruct (rep_bounds _ _ _ _ Hr) as (_ & B1 & _ & B2 & B3).
  pose proof (rep_coalesced _ _ Hr) as Hc. pose proof (rep_tiles _ _ Hr) as Ht. pose proof (rep_wf _ _ Hr) as Hw.
  pose proof (cfg_offset _ (rep_config _ _ Hr)) as Ho. pose proof (cfg_shrink _ (rep_config _ _ Hr)) as Hs.
  rewrite map_of_mid, Hn in *. erewrite mark_free_split by exact Ht.
  assert (Hc2 : coalesced (map_of l2)) by (rewrite coalesced_app, coalesced_cons in Hc; tauto).
  assert (Hq : forall q, q ∈ l2 -> nsize q > 0 /\ naddr n + nsize n <= naddr q /\ naddr q + nsize q < 2 ^ 64).
  { intros q Hq. pose proof (represents_after _ _ _ _ _ Hr Hq). lia. }
  destruct (last_is_free (map_of l1)) eqn:Hf.
  - destruct l1 as [|p k _] using rev_ind; [done|]. rewrite map_of_snoc, last_is_free_snoc in Hf.
    apply negb_true_iff in Hf. cbn in Hf. rewrite <- app_assoc in Hw.
    destruct (represents_before _ _ _ _ p Hr) as (P1 & P2 & P3); [set_solver|].
    rewrite map_of_snoc, Hf in *. rewrite <- app_assoc. cbn [app]. rewrite coalesce_before; [|rewrite coalesced_app in Hc; tauto|done].
    apply release_merged; try done; [lia|]. intros q Hq'. specialize (Hq q Hq'). lia.
  - rewrite coalesce_after by done. apply release_unmerged; try done.
    intros q Hq'. specialize (Hq q Hq'). lia.
Qed.

(** ** deallocate *)

Definition allocated_at (a : Z) (r : range) : bool := let '(b, _, al) := r in (b =? a) && al.

(** The effect of [deallocate] on the memory map. *)
Definition release (a : Z) (m : list range) : list range :=
  if existsb (allocated_at a) m then coalesce (mark_free a m) else m.

Lemma represents_release s s' l1 n l2 bl' :
  represents s (l1 ++ n :: l2) -> wf s' bl' -> config s' = config s ->
  map_of bl' = coalesce (mark_free (naddr n) (map_of (l1 ++ n :: l2))) -> represents s' bl'.
Proof.
  intros [Hw Hc Ht Hco] Hw' Hcf Hm. constructor; [done|by eapply config_ok_config| |].
  - unfold config in Hcf. injection Hcf as _ -> _ _ _ ->. rewrite Hm. apply coalesce_tiles.
    rewrite map_of_mid in *. erewrite mark_free_split by exact Ht. apply tiles_app in Ht. by apply tiles_app.
  - rewrite Hm. apply coalesce_coalesced.
Qed.

Lemma release_split base l a sz b k top :
  tiles base (l ++ (a, sz, b) :: k) top ->
  release a (l ++ (a, sz, b) :: k) =
    if b then coalesce (mark_free a (l ++ (a, sz, b) :: k)) else l ++ (a, sz, b) :: k.
Proof.
  intros Ht. unfold release. rewrite existsb_app. cbn [existsb allocated_at]. rewrite Z.eqb_refl. cbn [andb].
  destruct b; [by rewrite orb_true_r|].
  assert (Hno : forall m, (forall y f, (a, y, f) ∈ m -> False) -> existsb (allocated_at a) m = false).
  { intros m Hm. apply not_true_is_false. rewrite existsb_exists. intros ([[x y] f] & Hx & Hf). unfold allocated_at in Hf.
    rewrite andb_true_iff, Z.eqb_eq in Hf. destruct Hf as [-> _]. eapply Hm, list_elem_of_In, Hx. }
  rewrite !Hno; [done| |].
  - intros y f Hx. pose proof (tiles_after _ _ _ _ _ _ _ _ Ht Hx) as H. cbn in H.
    destruct (tiles_bounds _ _ _ a sz false Ht ltac:(set_solver)) as (_ & ? & _). lia.
  - intros y f Hx. pose proof (tiles_before _ _ _ _ _ _ _ _ Ht Hx) as H. cbn in H.
    destruct (tiles_bounds _ _ _ a y f Ht ltac:(set_solver)) as (_ & ? & _). lia.
Qed.

Lemma release_absent a bl : (forall n, n ∈ bl -> naddr n <> a) -> release a (map_of bl) = map_of bl.
Proof.
  intros Hn. unfold release. destruct (existsb _ (map_of bl)) eqn:E; [|done]. exfalso.
  apply existsb_exists in E as ([[x y] f] & Hx & Hf). rewrite <- list_elem_of_In in Hx.
  apply elem_of_map in Hx as (n & [= -> -> ->] & Hn'). unfold allocated_at in Hf. rewrite andb_true_iff, Z.eqb_eq in Hf.
  apply (Hn n Hn'), Hf.
Qed.

Lemma lowest_release a m :
  lowest m <> Some a -> lowest (coalesce (mark_free a m)) = lowest m.
Proof.
  rewrite lowest_coalesce. induction m as [|[[x y] f] m IH]; [done|]. rewrite mark_free_cons.
  cbn [lowest]. destruct f.
  - intros Hx. destruct (Z.eqb_spec x a); [by subst|done].
  - intros Hx. by destruct (x =? a); apply IH.
Qed.

Lemma deallocate_ok s bl addr :
  represents s bl -> lowest_ok s bl ->
  exists s' bl', deallocate addr s = (s', Ok tt) /\ represents s' bl' /\ lowest_ok s' bl' /\
    config s' = config s /\ map_of bl' = release (u64 (addr - offset_bytes s)) (map_of bl).
Proof.
  intros Hr Hl. set (a := u64 _). unfold deallocate. erewrite M_bind_ok by reflexivity. cbv beta zeta. fold a.
  erewrite M_bind_ok by (apply find_block_eq, Hr). pose proof (rep_tiles _ _ Hr) as Ht.
  destruct (first_such _ bl) as [n|] eqn:E; cycle 1.
  { exists s, bl. split_and!; try done. rewrite release_absent; [done|]. intros n Hn He.
    rewrite first_such_none in E. specialize (E n Hn). cbn in E. lia. }
  apply first_such_split in E as (l1 & l2 & -> & Ha & _). apply Z.eqb_eq in Ha. cbn [fmap option_fmap option_map].
  erewrite M_bind_ok by exact (is_allocated_node _ _ _ _ (rep_wf _ _ Hr)). destruct (nalloc n) eqn:Hn; cbn [negb]; cycle 1.
  { exists s, (l1 ++ n :: l2). split_and!; try done. rewrite map_of_mid, Hn, Ha in *.
    by erewrite release_split by exact Ht. }
  destruct (release_ok s l1 n l2 Hr Hn) as (s0 & s1 & s2 & i & mp & mn & bl' & H1 & H2 & H3 & Hw & Hp & Hm).
  erewrite M_bind_ok by exact (deref_node _ _ _ _ (rep_wf _ _ Hr)). cbn [prev_block next_block].
  erewrite M_bind_ok by exact H1. cbn. erewrite M_bind_ok by exact H2. erewrite M_bind_ok by exact H3. erewrite M_bind_ok by reflexivity. cbv beta.
  destruct (params_config _ _ Hp) as [Hcf Hlo].
  assert (Hrel : map_of bl' = release a (map_of (l1 ++ n :: l2))).
  { rewrite Hm, Ha. rewrite map_of_mid, Hn, Ha in Ht |- *. by erewrite release_split by exact Ht. }
  assert (Hr' : represents s2 bl') by (by eapply represents_release).
  rewrite Hlo. case_bool_decide as Hc; cbn [when].
  - rewrite (update_lowest_eq s2 bl') by done. eexists _, bl'. split; [done|].
    split; [by apply represents_set_lowest|done].
  - exists s2, bl'. split_and!; try done. unfold lowest_ok in *. rewrite <- lowest_map_of, Hm, Hlo, Hl in *.
    symmetry. apply lowest_release. by rewrite Ha.
Qed.

(** ** The abstract memory *)

(** The state holds the memory map [m]. *)
Definition holds (s : FreeList) (m : list range) : Prop :=
  exists bl, represents s bl /\ lowest_ok s bl /\ map_of bl = m.

Lemma holds_split s l r k :
  holds s (l ++ r :: k) ->
  shrink_size_ s <= r.1.1 /\ 0 < r.1.2 /\ r.1.1 + r.1.2 <= shrink_size_ s + max_size_bytes s.
Proof.
  intros (bl & Hr & _ & Hm). pose proof (rep_tiles _ _ Hr) as Ht. rewrite Hm in Ht.
  destruct r as [[a sz] b]. apply (tiles_bounds _ _ _ a sz b Ht). set_solver.
Qed.

Lemma holds_config s m : holds s m -> config_ok s.
Proof. by intros (bl & [] & _). Qed.

Lemma holds_tiles s m : holds s m -> tiles (shrink_size_ s) m (shrink_size_ s + max_size_bytes s).
Proof. by intros (bl & [] & _ & <-). Qed.

Lemma holds_coalesced s m : holds s m -> coalesced m.
Proof. by intros (bl & [] & _ & <-). Qed.

Lemma holds_lowest s m : holds s m -> lowest_occupied_address_ s = lowest m.
Proof. intros (bl & _ & Hl & <-). by rewrite lowest_map_of. Qed.

(** Where a chosen range is carved. *)
Definition place (bottom_up : bool) (sz : Z) (r : range) : Z :=
  if bottom_up then r.1.1 else r.1.1 + r.1.2 - sz.

Definition within_limit (a limit : Z) : res (option Z) := if a <? limit then Err Throw else Ok (Some a).

Lemma allocate_ok s m size bu limit :
  holds s m -> 0 <= size -> size + alignment s <= 2 ^ 64 ->
  let sz := alloc_size_of s size in
  (allocate size bu limit s = (s, Ok None) /\ forall r, r ∈ m -> fits_range sz r = false) \/
  (exists l r k s', m = l ++ r :: k /\ chosen (search_policy s) bu sz l r k /\
     allocate size bu limit s = (s', within_limit (place bu sz r + offset_bytes s) limit) /\
     holds s' (l ++ carve r (place bu sz r) sz ++ k) /\ config s' = config s).
Proof.
  intros (bl & Hr & Hl & <-) H0 H1 sz. destruct (alloc_size_ok s size (rep_config _ _ Hr) H0 H1) as (_ & Hsz & _).
  fold sz in Hsz. destruct (search_chosen s bl sz bu (rep_wf _ _ Hr)) as (r & Hs & Hr').
  destruct r as [n|]; [right|left]; cycle 1.
  { split; [|done]. unfold allocate. erewrite M_bind_ok by reflexivity. cbv beta zeta. fold sz.
    by erewrite M_bind_ok by exact Hs. }
  destruct Hr' as (l1 & l2 & -> & Hn & Hch). destruct (rep_bounds _ _ _ _ Hr) as (B1 & B2 & B3 & B4 & B5).
  pose proof (cfg_offset _ (rep_config _ _ Hr)) as Ho.
  assert (Hfit : sz <= nsize n).
  { destruct Hch as (Hf & _). unfold fits_range, forget in Hf. cbn in Hf. rewrite Hn in Hf. cbn in Hf. lia. }
  set (off := if bu then 0 else nsize n - sz).
  destruct (carve_allocation s l1 n l2 off sz Hr Hl Hn) as
    (s1 & s2 & i & b & bl' & E1 & E2 & E3 & E4 & Hr2 & Hl2 & Hcf & Hm); [unfold off; destruct bu; lia..|].
  assert (Hpl : place bu sz (forget n) = naddr n + off) by (unfold place, off, forget; destruct bu; cbn; lia).
  exists (map_of l1), (forget n), (map_of l2), s2. rewrite map_of_app, map_of_cons, Hpl.
  split; [done|]. split; [done|]. split; [|split; [by exists bl'|done]].
  unfold allocate. erewrite M_bind_ok by reflexivity. cbv beta zeta. fold sz.
  erewrite M_bind_ok by exact Hs. cbn [fmap option_fmap option_map].
  erewrite M_bind_ok by exact (deref_node _ _ _ _ (rep_wf _ _ Hr)). cbn [address FreeList.size].
  replace (if bu then 0 else _) with off.
  2: { unfold off. destruct bu; [done|]. rewrite (u64_small (naddr n + nsize n)), (u64_small (_ - sz)) by lia.
     rewrite u64_small; lia. }
  erewrite M_bind_ok by exact E1. erewrite M_bind_ok by exact E2. rewrite E3. erewrite M_bind_ok by exact E4.
  assert (off + sz <= nsize n) by (unfold off; destruct bu; lia).
  assert (0 <= off) by (unfold off; destruct bu; lia). rewrite u64_small by lia.
  unfold within_limit. by destruct (naddr n + off + offset_bytes s <? limit).
Qed.

(** What carving a chosen range keeps: the new allocation lies in the range, apart
    from the allocations there were, and those stay. *)
Lemma carve_safe s l r k bu sz :
  holds s (l ++ r :: k) -> fits_range sz r = true ->
  let start := place bu sz r in
  r.1.1 <= start /\ start + sz <= r.1.1 + r.1.2 /\
  (forall b z, (b, z, true) ∈ l ++ r :: k -> b + z <= start \/ start + sz <= b) /\
  forall b z, (b, z, true) ∈ l ++ carve r start sz ++ k <-> (b, z, true) ∈ l ++ r :: k \/ (b, z) = (start, sz).
Proof.
  intros Hh Hf start. unfold fits_range in Hf. rewrite andb_true_iff, negb_true_iff, Z.leb_le in Hf.
  destruct Hf as [Hr2 Hfit]. assert (Hin : r.1.1 <= start /\ start + sz <= r.1.1 + r.1.2) by (unfold start, place; destruct bu; lia).
  destruct Hin. split_and!; try done.
  - intros b z Hb. pose proof (holds_tiles _ _ Hh) as Ht. apply elem_of_app in Hb as [Hb|Hb].
    + pose proof (tiles_before _ _ _ _ _ _ _ _ Ht Hb). lia.
    + apply elem_of_cons in Hb as [<-|Hb]; [done|]. pose proof (tiles_after _ _ _ _ _ _ _ _ Ht Hb). lia.
  - intros b z. destruct r as [[x y] c]. cbn in Hr2. subst c. unfold carve. rewrite !elem_of_app, !elem_of_cons.
    repeat case_match; rewrite ?list_elem_of_singleton, ?elem_of_nil; intuition (try congruence); naive_solver.
Qed.

(** ** allocate_at_address *)

Definition encompasses (start sz : Z) (r : range) : bool :=
  negb r.2 && (r.1.1 <=? start) && (start + sz <=? r.1.1 + r.1.2).

Lemma find_encompassing_eq s fuel start sz p ws :
  walk s next_free p ws -> (length ws <= fuel)%nat -> 0 <= start -> 0 < sz -> start + sz < 2 ^ 64 ->
  (forall n, n ∈ ws -> nalloc n = false /\ 0 <= naddr n /\ 0 < nsize n /\ naddr n + nsize n < 2 ^ 64) ->
  find_encompassing fuel start sz p s =
    (s, Ok ((fun n => (Some (nid n), start - naddr n)) <$> first_such (fun n => encompasses start sz (forget n)) ws)).
Proof.
  intros Hw Hf H0 H1 H2. revert fuel Hf. induction Hw as [|n b ws Hn Ha Hs Hw IH]; intros fuel Hf Hb; [by destruct fuel|].
  cbn [length] in Hf. destruct fuel as [|fuel]; [lia|]. cbn [find_encompassing].
  erewrite M_bind_ok by (by apply deref_eq). rewrite first_such_cons. unfold encompasses at 1, forget. cbn [fst snd].
  destruct (Hb n) as (Hnf & B1 & B3 & B2); [left|]. rewrite Hnf, Ha, Hs, (u64_small (start + sz)), (u64_small (_ + nsize n)) by lia.
  cbn [negb andb]. specialize (IH fuel ltac:(lia) ltac:(intros; apply Hb; by right)).
  destruct (Z.leb_spec sz (nsize n)), (Z.eqb_spec (naddr n) start), (Z.leb_spec (naddr n) start),
    (Z.ltb_spec (naddr n) start), (Z.leb_spec (start + sz) (naddr n + nsize n)); try lia; cbn [andb]; try exact IH.
  - cbn [fmap option_fmap option_map]. by replace (start - naddr n) with 0 by lia.
  - rewrite u64_small by lia. done.
Qed.

Lemma alloc_at_ok s m addr size :
  holds s m -> 0 <= size -> size + alignment s <= 2 ^ 64 -> offset_bytes s <= addr ->
  let sz := alloc_size_of s size in let start := addr - offset_bytes s in
  addr + sz < 2 ^ 64 -> addr mod alignment s = 0 ->
  (allocate_at_address addr size s = (s, Ok None) /\ forall r, r ∈ m -> encompasses start sz r = false) \/
  (exists l r k s', m = l ++ r :: k /\ encompasses start sz r = true /\
     allocate_at_address addr size s = (s', Ok (Some addr)) /\
     holds s' (l ++ carve r start sz ++ k) /\ config s' = config s).
Proof.
  intros (bl & Hr & Hl & <-) H0 H1 H2 sz start H3 Hal. pose proof (rep_wf _ _ Hr) as Hw.
  destruct (alloc_size_ok s size (rep_config _ _ Hr) H0 H1) as (_ & Hsz & _). fold sz in Hsz.
  pose proof (cfg_offset _ (rep_config _ _ Hr)) as Ho.
  pose proof (find_encompassing_eq s (next_id s) start sz _ _ (walk_next s [] bl Hw)) as Hfind.
  assert (Hlen : (length (frees bl) <= next_id s)%nat).
  { pose proof (wf_length _ _ Hw). pose proof (length_frees bl). lia. }
  specialize (Hfind Hlen ltac:(lia) ltac:(lia) ltac:(lia)). rewrite <- (wf_free_head _ _ Hw) in Hfind.
  assert (Hrun : forall res, (match first_such (fun n => encompasses start sz (forget n)) (frees bl) with None => mret None | Some n => allocate_slice_of_free_block (Some (nid n)) (start - naddr n) sz;;
      update_lowest_occupied_address_with start;; mret (Some addr) end) s = res -> allocate_at_address addr size s = res).
  { intros res <-. unfold allocate_at_address. erewrite M_bind_ok by reflexivity. cbv beta.
    rewrite Hal, Z.eqb_refl. erewrite M_bind_ok by reflexivity. cbv beta zeta. fold sz.
    rewrite u64_small by lia. fold start. erewrite M_bind_ok by reflexivity. erewrite M_bind_ok; [|apply Hfind].
    - by destruct (first_such _ _).
    - intros n (Hn & Hf)%elem_of_frees. split; [done|]. apply list_elem_of_split in Hn as (l1 & l2 & ->).
      destruct (rep_bounds _ _ _ _ Hr). lia. }
  clear Hfind. revert Hrun. destruct (first_such _ (frees bl)) as [n|] eqn:E; intros Hrun; [right|left].
  - apply first_such_split in E as (w1 & w2 & E & He & _). apply frees_split in E as (l1 & l2 & -> & _ & _ & Hn).
    unfold encompasses, forget in He. cbn in He. rewrite Hn, !andb_true_iff, !Z.leb_le in He.
    destruct (carve_allocation s l1 n l2 (start - naddr n) sz Hr Hl Hn) as
      (s1 & s2 & i & b & bl' & E1 & _ & _ & E4 & Hr2 & Hl2 & Hcf & Hm); [lia..|].
    replace (naddr n + (start - naddr n)) with start in * by lia.
    exists (map_of l1), (forget n), (map_of l2), s2. rewrite map_of_app, map_of_cons.
    split; [done|]. split; [|split; [|split; [by exists bl'|done]]].
    + unfold encompasses, forget. cbn. rewrite Hn, !andb_true_iff, !Z.leb_le. tauto.
    + apply Hrun. erewrite M_bind_ok by exact E1. by erewrite M_bind_ok by exact E4.
  - split; [by apply Hrun|]. intros r (n & -> & Hn)%elem_of_map. rewrite first_such_none in E.
    destruct (nalloc n) eqn:Hna; [unfold encompasses, forget; cbn; by rewrite Hna|].
    apply E. by apply elem_of_frees.
Qed.

(** ** init and clear *)

Lemma unlink_blocks_ok s l pb pf fuel :
  seg (heap s) pb pf l None None -> NoDup (ids l) -> (length l <= fuel)%nat ->
  exists h, unlink_blocks fuel (hd_id l None) s = (set_heap h s, Ok tt).
Proof.
  revert s pb pf fuel. induction l as [|n l IH]; intros s pb pf fuel Hs Hd Hf.
  - exists (heap s). destruct fuel; by destruct s.
  - cbn in Hf. destruct fuel as [|fuel]; [lia|]. cbn [hd_id unlink_blocks]. destruct Hs as [Hn Hs].
    rewrite ids_cons in Hd. apply NoDup_cons in Hd as [Hni Hd].
    erewrite M_bind_ok by (by apply deref_eq). cbn zeta. erewrite M_bind_ok by (by apply assign_eq).
    cbn [next_block]. destruct (IH (set_heap (alter (fun b => mkBlock (address b) (size b) None None None None) (nid n) (heap s)) s)
      (Some (nid n)) (if nalloc n then pf else Some (nid n)) fuel) as [h Hh]; [|done|lia|].
    + cbn [heap set_heap]. by apply seg_alter_notin.
    + exists h. rewrite Hh. done.
Qed.

Definition fresh_region (max : Z) : list range := [(0, max, false)].

(** [init] makes one free block of the current maximum; the low-water mark stays. *)
Lemma init_ok s bl :
  wf s bl -> config_ok s -> 0 < max_size_bytes s ->
  exists s' bl', init s = (s', Ok tt) /\ represents s' bl' /\ map_of bl' = fresh_region (max_size_bytes s) /\
    lowest_occupied_address_ s' = lowest_occupied_address_ s /\ shrink_size_ s' = 0 /\
    max_size_bytes s' = max_size_bytes s /\ offset_bytes s' = offset_bytes s /\ alignment s' = alignment s /\
    min_allocation_size s' = min_allocation_size s /\ search_policy s' = search_policy s.
Proof.
  intros Hw Hc Hm. destruct (unlink_blocks_ok s bl None None (next_id s)) as [h Hh];
    [apply Hw|apply Hw|by apply wf_length|].
  eexists _, [mkNode (next_id s) 0 (max_size_bytes s) false]. split.
  { unfold init. erewrite M_bind_ok by reflexivity. erewrite M_bind_ok by reflexivity.
    rewrite (wf_head _ _ Hw). erewrite M_bind_ok by exact Hh. reflexivity. }
  split; [|done]. constructor.
  - constructor; cbn.
    + by rewrite lookup_insert_eq.
    + apply NoDup_singleton.
    + intros i ->%list_elem_of_singleton. cbn. lia.
    + done.
    + done.
    + done.
  - destruct Hc. constructor; cbn; try done; lia.
  - cbn. lia.
  - done.
Qed.

Lemma FreeList_new_ok max offset min_alloc al policy :
  0 < max -> 0 <= offset -> offset + max < 2 ^ 64 -> 0 < al -> 0 < min_alloc <= 2 ^ 64 - al -> offset mod al = 0 ->
  exists s, FreeList_new max offset min_alloc al policy = (s, Ok tt) /\ holds s (fresh_region max) /\
    config s = (policy, max, offset, min_alloc, al, 0).
Proof.
  intros H1 H2 H3 H4 H5 H6. unfold FreeList_new. rewrite H6, Z.eqb_refl. erewrite M_bind_ok by reflexivity.
  set (s0 := mkFreeList _ _ _ _ _ _ _ _ _ _ _ _ _).
  assert (Hw : wf s0 []) by (constructor; cbn; try done; [apply NoDup_nil_2|by intros i []%elem_of_nil]).
  assert (Hc : config_ok s0) by (constructor; cbn; lia).
  destruct (init_ok s0 [] Hw Hc H1) as (s & bl & He & Hr & Hm & Hl & Hs & E1 & E2 & E3 & E4 & E5).
  exists s. split; [done|]. split.
  - exists bl. split; [done|]. split; [|done]. unfold lowest_ok. rewrite <- lowest_map_of, Hm. done.
  - unfold config. by rewrite E1, E2, E3, E4, E5, Hs.
Qed.
