(* ===== verification/FreeListQuery.v ===== *)
(** * Queries and resizing of the free list

    [get_statistics] and [available_addresses] as functions of the memory map,
    and the two operations that move the lower end of the managed region. *)

From S2P Require Import Prelude FreeList FreeListRep FreeListOps FreeListDealloc FreeListSpec FreeListTheorems.
#[local] Arguments ids : simpl never.

(** ** Statistics of a memory map *)

Definition total (b : bool) (m : list range) : Z :=
  zsum (map (fun r : range => if eqb r.2 b then r.1.2 else 0) m).

Definition largest (m : list range) : Z := fold_right Z.max 0 (map (fun r : range => if r.2 then 0 else r.1.2) m).

(** The free ranges at least as large as [best] and every free range before. *)
Fixpoint leaders (best : Z) (m : list range) : list Z :=
  match m with
  | [] => []
  | (a, sz, false) :: m => if best <=? sz then a :: leaders sz m else leaders best m
  | _ :: m => leaders best m
  end.

Lemma total_cons b r m : total b (r :: m) = (if eqb r.2 b then r.1.2 else 0) + total b m.
Proof. done. Qed.

Lemma total_tiles base m top : tiles base m top -> total true m + total false m = top - base.
Proof.
  revert base. induction m as [|[[a sz] b] m IH]; intros base; cbn [tiles].
  - intros ->. cbn. lia.
  - intros (-> & Hs & Ht). apply IH in Ht. rewrite !total_cons. cbn [fst snd]. destruct b; cbn [eqb]; lia.
Qed.

Lemma total_nonneg base m top b : tiles base m top -> 0 <= total b m.
Proof.
  revert base. induction m as [|[[a sz] f] m IH]; intros base; cbn [tiles]; [done|].
  intros (-> & Hs & Ht). apply IH in Ht. rewrite total_cons. cbn [fst snd]. destruct (eqb f b); lia.
Qed.

Lemma largest_cons a sz b m : largest ((a, sz, b) :: m) = Z.max (if b then 0 else sz) (largest m).
Proof. done. Qed.

Lemma largest_bound m a sz : (a, sz, false) ∈ m -> sz <= largest m.
Proof.
  induction m as [|[[x y] b] m IH]; [by intros []%elem_of_nil|]. rewrite largest_cons.
  intros [[= <- <- <-]|H]%elem_of_cons; [lia|]. apply IH in H. lia.
Qed.

Lemma largest_attained m : largest m <> 0 -> exists a, (a, largest m, false) ∈ m.
Proof.
  induction m as [|[[x y] b] m IH]; [done|]. rewrite largest_cons. intros H.
  destruct (Z.max_spec (if b then 0 else y) (largest m)) as [[_ E]|[_ E]]; rewrite E in *.
  - destruct IH as [a Ha]; [done|]. exists a. by right.
  - destruct b; [done|]. exists x. left.
Qed.

Lemma largest_nonneg m : 0 <= largest m.
Proof. induction m as [|[[? ?] ?] ?]; [done|rewrite largest_cons; lia]. Qed.

Lemma leaders_none b m : leaders b m = [] -> largest m <= Z.max 0 b.
Proof.
  revert b. induction m as [|[[x y] []] m IH]; intros b; cbn [leaders]; [cbn; lia| |]; rewrite largest_cons.
  - intros H%IH. lia.
  - destruct (Z.leb_spec b y); [done|]. intros H'%IH. lia.
Qed.

(** The last leader is a largest free range. *)
Lemma leaders_last best m a :
  0 <= best -> last (leaders best m) = Some a -> (a, Z.max best (largest m), false) ∈ m.
Proof.
  revert best. induction m as [|[[x y] b] m IH]; intros best H0; [done|]. rewrite largest_cons. cbn [leaders].
  pose proof (largest_nonneg m). destruct b.
  - intros Hin%IH; [|done]. right. replace (Z.max best _) with (Z.max best (largest m)) by lia. done.
  - destruct (Z.leb_spec best y).
    + destruct (leaders y m) as [|z zs] eqn:E.
      * intros [= <-]. apply leaders_none in E. replace (Z.max best _) with y by lia. left.
      * intros Hl. change (last (x :: z :: zs)) with (last (z :: zs)) in Hl. rewrite <- E in Hl.
        apply IH in Hl; [|lia]. right. replace (Z.max best _) with (Z.max y (largest m)) by lia. done.
    + intros Hin%IH; [|done]. right. replace (Z.max best _) with (Z.max best (largest m)) by lia. done.
Qed.

(** ** get_statistics *)

Definition stat_step (offset : Z) (st : Statistics) (r : range) : Statistics :=
  let '(a, sz, allocated) := r in
  if allocated then
    mkStatistics (total_allocatable_size_bytes st) (total_allocated_bytes st + sz)
      (total_free_bytes st) (largest_free_block_bytes st) (largest_free_block_addrs st)
  else if largest_free_block_bytes st <=? sz then
    mkStatistics (total_allocatable_size_bytes st) (total_allocated_bytes st) (total_free_bytes st + sz) sz
      (largest_free_block_addrs st ++ [u32 (a + offset)])
  else
    mkStatistics (total_allocatable_size_bytes st) (total_allocated_bytes st) (total_free_bytes st + sz)
      (largest_free_block_bytes st) (largest_free_block_addrs st).

Lemma stat_fold offset m st :
  foldl (stat_step offset) st m =
    mkStatistics (total_allocatable_size_bytes st) (total_allocated_bytes st + total true m)
      (total_free_bytes st + total false m)
      (foldl (fun b (r : range) => if r.2 then b else Z.max b r.1.2) (largest_free_block_bytes st) m)
      (largest_free_block_addrs st ++ map (fun a => u32 (a + offset)) (leaders (largest_free_block_bytes st) m)).
Proof.
  revert st. induction m as [|[[a sz] b] m IH]; intros st.
  - cbn. rewrite !Z.add_0_r, app_nil_r. by destruct st.
  - cbn [foldl]. rewrite IH, !total_cons. cbn [fst snd stat_step leaders]. destruct b; cbn [eqb].
    + cbn. f_equal; lia.
    + destruct (Z.leb_spec (largest_free_block_bytes st) sz); cbn.
      * rewrite <- app_assoc. replace (Z.max _ sz) with sz by lia. f_equal; lia.
      * replace (Z.max _ sz) with (largest_free_block_bytes st) by lia. f_equal; lia.
Qed.

Lemma foldl_largest b m : 0 <= b ->
  foldl (fun b (r : range) => if r.2 then b else Z.max b r.1.2) b m = Z.max b (largest m).
Proof.
  revert b. induction m as [|[[a sz] f] m IH]; intros b Hb; [cbn; lia|]. cbn [foldl fst snd]. rewrite largest_cons.
  pose proof (largest_nonneg m). destruct f; rewrite IH by lia; lia.
Qed.

Lemma get_statistics_go_eq s l1 l2 fuel st :
  represents s (l1 ++ l2) -> (length l2 <= fuel)%nat ->
  0 <= total_allocated_bytes st -> 0 <= total_free_bytes st ->
  total_allocated_bytes st + total_free_bytes st + total true (map_of l2) + total false (map_of l2) < 2 ^ 64 ->
  get_statistics_go fuel (offset_bytes s) (hd_id l2 None) st s =
    (s, Ok (foldl (stat_step (offset_bytes s)) st (map_of l2))).
Proof.
  intros Hr. revert l1 fuel st Hr. induction l2 as [|n l2 IH]; intros l1 fuel st Hr Hf H1 H2 H3; [by destruct fuel|].
  cbn [length] in Hf. destruct fuel as [|fuel]; [lia|]. cbn [hd_id get_statistics_go].
  destruct (rep_bounds _ _ _ _ Hr) as (B1 & B2 & B3 & B4 & B5).
  pose proof (rep_tiles _ _ Hr) as Ht. rewrite map_of_app, map_of_cons in Ht.
  apply tiles_app in Ht as (mid & _ & Ht). cbn in Ht. destruct Ht as (_ & _ & Ht).
  pose proof (total_nonneg _ _ _ true Ht). pose proof (total_nonneg _ _ _ false Ht).
  rewrite map_of_cons, !total_cons in H3. unfold forget in H3. cbn [fst snd] in H3.
  erewrite M_bind_ok by exact (deref_node _ _ _ _ (rep_wf _ _ Hr)). cbn [next_block address size].
  erewrite M_bind_ok by exact (is_allocated_node _ _ _ _ (rep_wf _ _ Hr)).
  pose proof (cfg_offset _ (rep_config _ _ Hr)). rewrite map_of_cons. cbn [foldl]. unfold forget, stat_step at 2.
  rewrite (u64_small (naddr n + _)) by lia.
  change (l1 ++ n :: l2) with (l1 ++ [n] ++ l2) in Hr. rewrite app_assoc in Hr.
  destruct (nalloc n); cbn [eqb] in H3.
  - rewrite u64_small by lia. apply (IH _ _ _ Hr); cbn; lia.
  - rewrite u64_small by lia. destruct (_ <=? _); apply (IH _ _ _ Hr); cbn; lia.
Qed.

(** With nothing allocated the map is one free range. *)
Lemma nothing_allocated base m top :
  tiles base m top -> coalesced m -> total true m = 0 -> largest m = top - base.
Proof.
  destruct m as [|[[a sz] b] m]; cbn [tiles]; [intros -> _ _; cbn; lia|]. intros (-> & Hs & Ht) Hc.
  pose proof (total_nonneg _ _ _ true Ht). rewrite total_cons, largest_cons. cbn [fst snd].
  destruct b; cbn [eqb]; [lia|]. intros Hz. apply coalesced_cons in Hc as [Hf Hc]. specialize (Hf eq_refl).
  destruct m as [|[[x y] []] m]; cbn [tiles] in Ht; [subst; cbn; lia| |done].
  destruct Ht as (_ & Hy & Ht). pose proof (total_nonneg _ _ _ true Ht). rewrite total_cons in *. cbn in *. lia.
Qed.

Lemma get_statistics_eq s m :
  holds s m ->
  get_statistics s = (s, Ok (mkStatistics (max_size_bytes s) (total true m) (total false m) (largest m)
    (map (fun a => u32 (a + offset_bytes s)) (leaders 0 m)))).
Proof.
  intros (bl & Hr & _ & <-). pose proof (rep_tiles _ _ Hr) as Ht. pose proof (total_tiles _ _ _ Ht) as Hsum.
  pose proof (total_nonneg _ _ _ true Ht). pose proof (total_nonneg _ _ _ false Ht).
  destruct (rep_config _ _ Hr) as [_ _ Ho Hsh Hm Htop]. unfold get_statistics.
  erewrite M_bind_ok by reflexivity. erewrite M_bind_ok by reflexivity. rewrite (wf_head _ _ (rep_wf _ _ Hr)).
  erewrite M_bind_ok.
  2: { apply (get_statistics_go_eq s [] bl); [done|apply wf_length, Hr|cbn; lia..]. }
  rewrite stat_fold, foldl_largest by (cbn; lia). cbn [total_allocatable_size_bytes total_allocated_bytes
    total_free_bytes largest_free_block_bytes largest_free_block_addrs].
  rewrite !Z.add_0_l. pose proof (largest_nonneg (map_of bl)). replace (Z.max 0 _) with (largest (map_of bl)) by lia.
  destruct (Z.eqb_spec (total true (map_of bl)) 0) as [E|E]; [|done].
  pose proof (nothing_allocated _ _ _ Ht (rep_coalesced _ _ Hr) E) as El. unfold mret, M_ret.
  do 2 f_equal. f_equal; lia.
Qed.

(** ** available_addresses *)

(** The addresses at which a request fits: the first and the last start of each
    free range that is large enough. *)
Definition openings (sz : Z) (m : list range) : list (Z * Z) :=
  map (fun r : range => (r.1.1, r.1.1 + r.1.2 - sz)) (filter (fun r => fits_range sz r = true) m).

Lemma available_addresses_go_eq s fuel sz p ws :
  walk s next_free p ws -> (length ws <= fuel)%nat -> 0 <= sz ->
  (forall n, n ∈ ws -> nalloc n = false /\ 0 <= naddr n /\ 0 < nsize n /\ naddr n + nsize n < 2 ^ 64) ->
  available_addresses_go fuel sz p s = (s, Ok (openings sz (map_of ws))).
Proof.
  intros Hw Hf H0. revert fuel Hf. induction Hw as [|n b ws Hn Ha Hs Hw IH]; intros fuel Hf Hb; [by destruct fuel|].
  cbn [length] in Hf. destruct fuel as [|fuel]; [lia|]. cbn [available_addresses_go].
  erewrite M_bind_ok by (by apply deref_eq). erewrite M_bind_ok by (apply IH; [lia|intros; apply Hb; by right]).
  destruct (Hb n) as (Hnf & B1 & B2 & B3); [left|].
  rewrite Ha, Hs, map_of_cons. unfold openings. rewrite filter_cons.
  assert (fits_range sz (forget n) = (sz <=? nsize n)) as -> by (unfold fits_range, forget; cbn; by rewrite Hnf).
  destruct (Z.leb_spec sz (nsize n)); case_decide; try done.
  cbn. rewrite (u64_small (naddr n + nsize n)), u64_small by lia. done.
Qed.

Lemma openings_frees sz bl : openings sz (map_of (frees bl)) = openings sz (map_of bl).
Proof.
  unfold openings. f_equal. induction bl as [|n bl IH]; [done|]. rewrite frees_cons.
  destruct (nalloc n) eqn:E; rewrite ?map_of_cons, ?filter_cons, IH; [|done].
  assert (fits_range sz (forget n) = false) as -> by (unfold fits_range, forget; cbn; by rewrite E). done.
Qed.

Lemma available_addresses_eq s m size :
  holds s m -> 0 <= size -> size + alignment s <= 2 ^ 64 ->
  available_addresses size s = (s, Ok (openings (alloc_size_of s size) m)).
Proof.
  intros (bl & Hr & _ & <-) H0 H1. pose proof (rep_wf _ _ Hr) as Hw.
  destruct (alloc_size_ok s size (rep_config _ _ Hr) H0 H1) as (_ & Hsz & _).
  pose proof (cfg_offset _ (rep_config _ _ Hr)).
  unfold available_addresses. erewrite M_bind_ok by reflexivity. erewrite M_bind_ok by reflexivity.
  rewrite (wf_free_head _ _ Hw). erewrite available_addresses_go_eq.
  - by rewrite openings_frees.
  - by apply (walk_next s []).
  - pose proof (wf_length _ _ Hw). pose proof (length_frees bl). lia.
  - lia.
  - intros n (Hn & Hf)%elem_of_frees. split; [done|]. apply list_elem_of_split in Hn as (l1 & l2 & ->).
    destruct (rep_bounds _ _ _ _ Hr). lia.
Qed.

(** ** shrink_size *)

(** Cuts [shrink] bytes off the low end of a map that starts with a free range. *)
Definition cut (shrink : Z) (m : list range) : list range :=
  match m with
  | (_, sz, false) :: k => if shrink <? sz then (shrink, sz - shrink, false) :: k else k
  | _ => m
  end.

Section Shrink.
Context (s : FreeList) (n : node) (l2 : list node) (shrink : Z).
Hypothesis Hw : wf s (n :: l2).
Hypothesis Hn : nalloc n = false.
Hypothesis Ha : naddr n = 0.
Hypothesis Hs : 0 < shrink <= nsize n.
Hypothesis Hn64 : nsize n < 2 ^ 64.

Definition shrunk (s' : FreeList) : Prop :=
  config s' = (search_policy s, u64 (max_size_bytes s - shrink), offset_bytes s, min_allocation_size s,
               alignment s, shrink) /\ lowest_occupied_address_ s' = lowest_occupied_address_ s.

Lemma shrink_partial :
  shrink < nsize n ->
  exists s', shrink_front shrink s = (s', Ok tt) /\ shrunk s' /\
    wf s' (mkNode (nid n) shrink (nsize n - shrink) false :: l2).
Proof.
  intros Hlt. pose proof (wf_seg _ _ Hw) as Hseg. cbn [seg] in Hseg. rewrite Hn in Hseg.
  destruct Hseg as [Hl Hseg]. pose proof (wf_nodup _ _ Hw) as Hd. rewrite ids_cons in Hd.
  apply NoDup_cons in Hd as [Hni Hd]. unfold shrink_front. erewrite M_bind_ok by reflexivity. rewrite (wf_free_head _ _ Hw). cbn [hd_free]. rewrite Hn.
  eexists. split.
  { erewrite M_bind_ok by (by apply deref_eq). cbn [size address]. rewrite Ha, (proj2 (Z.ltb_lt _ _) Hlt). cbn [Z.eqb].
    rewrite M_bind_assoc. erewrite M_bind_ok by reflexivity. rewrite M_bind_assoc.
    erewrite M_bind_ok by (apply assign_eq; eauto).
    erewrite M_bind_ok by (apply assign_eq; cbn; apply is_Some_alter; eauto). reflexivity. }
  split; [done|]. constructor; proj_goal.
  - cbn [seg nalloc]. split.
    + rewrite !lookup_alter_eq, Hl. cbn. by rewrite u64_small by lia.
    + do 2 (apply seg_alter_notin; [done|]). done.
  - apply (wf_nodup _ _ Hw).
  - apply (wf_fresh _ _ Hw).
  - apply (wf_head _ _ Hw).
  - rewrite (wf_free_head _ _ Hw). cbn. by rewrite Hn.
  - rewrite (wf_free_tail _ _ Hw). cbn. by rewrite Hn.
Qed.

Lemma shrink_whole :
  shrink = nsize n -> l2 <> [] -> exists s', shrink_front shrink s = (s', Ok tt) /\ shrunk s' /\ wf s' l2.
Proof.
  intros Heq Hne. pose proof (wf_seg _ _ Hw) as Hseg. cbn [seg] in Hseg. rewrite Hn in Hseg.
  destruct Hseg as [Hl Hseg]. pose proof (wf_nodup _ _ Hw) as Hd. rewrite ids_cons in Hd.
  apply NoDup_cons in Hd as [Hni Hd]. destruct l2 as [|q k] eqn:El; [done|]. rewrite <- El in *.
  assert (Hq : hd_id l2 None = Some (nid q)) by (by rewrite El). rewrite Hq in *.
  assert (Hnq : nid n <> nid q) by (intros E; apply Hni; rewrite E, El; left).
  pose proof (seg_lookup _ _ _ _ _ _ q Hseg ltac:(rewrite El; left)) as Hqs.
  assert (Hwalk : forall P, (let h := alter (set_prev_block None) (nid q) (heap s) in
    let h := upd_opt (hd_free l2 None) (set_prev_free None) h in
    P (mkFreeList h (next_id s) (search_policy s) (Some (nid q)) (block_tail s) (hd_free l2 None)
         (if hd_free l2 None is None then None else free_block_tail s) (u64 (max_size_bytes s - shrink)) (offset_bytes s)
         (min_allocation_size s) (alignment s) shrink (lowest_occupied_address_ s), Ok tt)) -> P (shrink_front shrink s)).
  { intros P HP. unfold shrink_front. erewrite M_bind_ok by reflexivity. rewrite (wf_free_head _ _ Hw), (wf_head _ _ Hw). cbn [hd_free hd_id]. rewrite Hn.
    erewrite M_bind_ok by (by apply deref_eq). cbn [size]. rewrite Heq, Z.ltb_irrefl, <- Heq, M_bind_assoc.
    erewrite M_bind_ok by (by apply deref_eq). cbn [next_block]. rewrite M_bind_assoc.
    erewrite M_bind_ok by reflexivity. rewrite M_bind_assoc. erewrite M_bind_ok by (by apply assign_eq).
    rewrite M_bind_assoc. erewrite M_bind_ok by (apply deref_eq; cbn; by rewrite lookup_alter_ne).
    cbn [next_free]. destruct (hd_free l2 None) as [j|] eqn:Ej; cbn [upd_opt] in HP.
    - rewrite M_bind_assoc. erewrite M_bind_ok; [|apply assign_eq; cbn; apply is_Some_alter].
      + exact HP.
      + eapply seg_lookup_id; [exact Hseg|]. by apply hd_free_ids.
    - exact HP. }
  eexists. split; [apply (Hwalk (fun r => r = _)); reflexivity|]. clear Hwalk. split; [done|].
  constructor; cbn [heap next_id block_head free_block_head free_block_tail].
  - apply (seg_hd_free_prev _ _ (Some (nid n))); [done|]. 
    change (alter _ (nid q) (heap s)) with (upd_opt (Some (nid q)) (set_prev_block None) (heap s)).
    rewrite <- Hq. eapply seg_hd_prev; [done|exact Hseg].
  - done.
  - intros i Hi. apply (wf_fresh _ _ Hw). by right.
  - by rewrite Hq.
  - done.
  - rewrite (wf_free_tail _ _ Hw). cbn [last_free]. rewrite Hn, last_free_has.
    destruct (hd_free l2 None) eqn:Ej.
    + destruct (has_free l2) eqn:Ef; [done|]. rewrite hd_free_has, Ef in Ej. done.
    + rewrite last_free_has, (hd_free_none _ Ej). done.
Qed.
End Shrink.

(** A request to shrink is legal when the bytes cut are below the lowest
    allocation and some block remains. *)
Definition can_shrink (s : FreeList) (m : list range) (shrink : Z) : Prop :=
  shrink_size_ s = 0 /\ 0 < shrink <= max_size_bytes s /\
  (forall l, lowest m = Some l -> shrink <= l) /\ cut shrink m <> [].

Lemma can_shrink_front s m shrink :
  holds s m -> can_shrink s m shrink ->
  exists sz k, m = (0, sz, false) :: k /\ shrink <= sz /\ (shrink = sz -> k <> []).
Proof.
  intros Hh (H0 & H1 & H2 & H3). pose proof (holds_tiles _ _ Hh) as Ht. pose proof (holds_coalesced _ _ Hh) as Hc.
  rewrite H0 in Ht. destruct m as [|[[a sz] b] k]; cbn [tiles] in Ht; [lia|]. destruct Ht as (-> & Hs & Ht).
  destruct b; [specialize (H2 0 eq_refl); lia|]. exists sz, k. split; [done|].
  apply coalesced_cons in Hc as [Hf Hc]. specialize (Hf eq_refl).
  assert (Hle : shrink <= sz).
  { destruct k as [|[[x y] []] k]; cbn [tiles] in Ht; [lia| |done]. destruct Ht as (-> & _).
    specialize (H2 (0 + sz) eq_refl). lia. }
  split; [done|]. intros -> ->. cbn in H3. by rewrite Z.ltb_irrefl in H3.
Qed.

Lemma shrink_checks s m shrink :
  holds s m -> can_shrink s m shrink -> shrink_size shrink true s = shrink_front shrink s.
Proof.
  intros Hh Hc. destruct (can_shrink_front s m shrink Hh Hc) as (sz & k & -> & _).
  destruct Hc as (H0 & H1 & H2 & _). unfold shrink_size. rewrite (proj2 (Z.eqb_neq shrink 0)) by lia.
  erewrite M_bind_ok by reflexivity. erewrite M_bind_ok by reflexivity. cbv beta.
  rewrite (proj2 (Z.leb_le shrink _)) by lia. erewrite M_bind_ok by reflexivity.
  rewrite (holds_lowest _ _ Hh). erewrite M_bind_ok.
  2: { destruct (lowest _) as [l|]; [|done]. rewrite (proj2 (Z.leb_le shrink l)); [done|by apply H2]. }
  rewrite H0. erewrite M_bind_ok by reflexivity. rewrite bool_decide_true; [done|].
  destruct Hh as (bl & Hr & _ & Hm). rewrite (wf_free_head _ _ (rep_wf _ _ Hr)).
  destruct bl as [|n bl]; [done|]. rewrite map_of_cons in Hm. injection Hm as _ _ Hn _. cbn [hd_free]. by rewrite Hn.
Qed.

Lemma represents_shrunk s s' bl bl' shrink :
  represents s bl -> shrink_size_ s = 0 -> 0 < shrink <= max_size_bytes s -> shrunk s shrink s' -> wf s' bl' ->
  tiles shrink (map_of bl') (max_size_bytes s) -> coalesced (map_of bl') -> represents s' bl'.
Proof.
  intros [_ [H1 H2 H3 H4 H5 H6] _ _] H0 Hs [Hc _] Hw Ht Hco. unfold config in Hc.
  injection Hc as E1 E2 E3 E4 E5 E6. rewrite u64_small in E2 by lia.
  constructor; [done|constructor; lia|rewrite E2, E6; by replace (shrink + _) with (max_size_bytes s) by lia|done].
Qed.

Lemma shrink_size_ok s m shrink :
  holds s m -> can_shrink s m shrink ->
  exists s', shrink_size shrink true s = (s', Ok tt) /\ holds s' (cut shrink m) /\
    config s' = (search_policy s, max_size_bytes s - shrink, offset_bytes s, min_allocation_size s, alignment s, shrink).
Proof.
  intros Hh Hcan. rewrite (shrink_checks s m shrink Hh Hcan).
  destruct (can_shrink_front s m shrink Hh Hcan) as (sz & k & -> & Hle & Hne).
  destruct Hcan as (H0 & H1 & _ & _). pose proof (holds_lowest _ _ Hh) as Hlow.
  pose proof (holds_coalesced _ _ Hh) as Hco. pose proof (holds_tiles _ _ Hh) as Ht. rewrite H0 in Ht.
  destruct Hh as (bl & Hr & _ & Hm). destruct bl as [|n l2]; [done|]. rewrite map_of_cons in Hm.
  injection Hm as Ha Hsz Hn <-. destruct (rep_bounds s [] n l2 Hr) as (B1 & B2 & B3 & B4 & B5).
  pose proof (cfg_offset _ (rep_config _ _ Hr)). pose proof (cfg_top _ (rep_config _ _ Hr)).
  cbn [tiles] in Ht. destruct Ht as (_ & Hsp & Ht).
  assert (Hfin : forall s' bl', shrink_front shrink s = (s', Ok tt) -> shrunk s shrink s' -> wf s' bl' ->
    map_of bl' = cut shrink ((0, sz, false) :: map_of l2) -> tiles shrink (map_of bl') (max_size_bytes s) ->
    coalesced (map_of bl') -> lowest (map_of bl') = lowest (map_of l2) ->
    exists s', shrink_front shrink s = (s', Ok tt) /\ holds s' (cut shrink ((0, sz, false) :: map_of l2)) /\
    config s' = (search_policy s, max_size_bytes s - shrink, offset_bytes s, min_allocation_size s, alignment s, shrink)).
  { intros s' bl' He Hsh Hw' Hm' Ht' Hc' Hl'. exists s'. split; [done|]. destruct Hsh as [Hcf Hlo]. split.
    - exists bl'. split; [by eapply (represents_shrunk s s' (n :: l2))|]. split; [|done].
      unfold lowest_ok. by rewrite <- lowest_map_of, Hlo, Hlow, Hl'.
    - rewrite Hcf, u64_small by lia. done. }
  rewrite Z.add_0_l in Ht. cbn [cut] in *. destruct (Z.ltb_spec shrink sz) as [Hlt|Hge].
  - destruct (shrink_partial s n l2 shrink (rep_wf _ _ Hr) Hn Ha ltac:(lia) ltac:(lia) ltac:(lia)) as (s' & He & Hsh & Hw').
    eapply Hfin; [exact He|exact Hsh|exact Hw'|..]; rewrite map_of_cons; unfold forget at 1; cbn [naddr nsize nalloc].
    + by rewrite Hsz.
    + cbn [tiles]. split; [done|]. split; [lia|]. replace (shrink + (nsize n - shrink)) with sz by lia. done.
    + by rewrite coalesced_cons in Hco |- *.
    + done.
  - destruct (shrink_whole s n l2 shrink (rep_wf _ _ Hr) Hn ltac:(lia)) as (s' & He & Hsh & Hw').
    { intros ->. by apply Hne; [lia|]. }
    eapply Hfin; [exact He|exact Hsh|exact Hw'|done| |rewrite coalesced_cons in Hco; tauto|done].
    by replace shrink with sz by lia.
Qed.

(** ** reset_size *)

(** Gives the cut bytes back to a map that starts with a free range. *)
Definition restore (shrink : Z) (m : list range) : list range :=
  match m with (_, sz, false) :: k => (0, sz + shrink, false) :: k | _ => m end.

Lemma reset_size_ok s sz k :
  holds s ((shrink_size_ s, sz, false) :: k) -> shrink_size_ s <> 0 ->
  exists s', reset_size s = (s', Ok tt) /\ holds s' ((0, sz + shrink_size_ s, false) :: k) /\
    config s' = (search_policy s, max_size_bytes s + shrink_size_ s, offset_bytes s, min_allocation_size s, alignment s, 0).
Proof.
  intros Hh H0. pose proof (holds_lowest _ _ Hh) as Hlow. pose proof (holds_coalesced _ _ Hh) as Hco.
  pose proof (holds_tiles _ _ Hh) as Ht. destruct Hh as (bl & Hr & _ & Hm). destruct bl as [|n l2]; [done|].
  rewrite map_of_cons in Hm. injection Hm as Ha Hsz Hn <-.
  destruct (rep_bounds s [] n l2 Hr) as (B1 & B2 & B3 & B4 & B5). destruct (rep_config _ _ Hr) as [C1 C2 C3 C4 C5 C6].
  pose proof (rep_wf _ _ Hr) as Hw. pose proof (wf_seg _ _ Hw) as Hseg. cbn [seg] in Hseg. rewrite Hn in Hseg.
  destruct Hseg as [Hl Hseg]. pose proof (wf_nodup _ _ Hw) as Hd. rewrite ids_cons in Hd.
  apply NoDup_cons in Hd as [Hni Hd]. cbn [tiles] in Ht. destruct Ht as (_ & Hsp & Ht).
  eexists. split.
  { unfold reset_size. erewrite M_bind_ok by reflexivity. cbv beta. rewrite (proj2 (Z.eqb_neq _ 0) H0).
    rewrite (wf_free_head _ _ Hw). cbn [hd_free]. rewrite Hn. rewrite M_bind_assoc.
    erewrite M_bind_ok by (by apply deref_eq). cbn [address]. rewrite Ha, Z.eqb_refl. cbn [negb].
    rewrite M_bind_assoc. erewrite M_bind_ok by (apply assign_eq; eauto).
    erewrite M_bind_ok by (apply assign_eq; cbn; apply is_Some_alter; eauto). reflexivity. }
  split; [|unfold config; cbn; by rewrite u64_small by lia].
  exists (mkNode (nid n) 0 (sz + shrink_size_ s) false :: l2). split; [|split].
  - constructor.
    + constructor; proj_goal.
      * cbn [seg nalloc]. split.
        -- rewrite !lookup_alter_eq, Hl. cbn. rewrite Hsz, u64_small by lia. done.
        -- do 2 (apply seg_alter_notin; [done|]). done.
      * apply (wf_nodup _ _ Hw).
      * apply (wf_fresh _ _ Hw).
      * apply (wf_head _ _ Hw).
      * rewrite (wf_free_head _ _ Hw). cbn. by rewrite Hn.
      * rewrite (wf_free_tail _ _ Hw). cbn. by rewrite Hn.
    + constructor; cbn; try done; rewrite ?u64_small by lia; lia.
    + rewrite map_of_cons. cbn. rewrite u64_small by lia. split; [done|]. split; [lia|].
      rewrite Z.add_comm in Ht. by rewrite (Z.add_comm (max_size_bytes s)).
    + rewrite map_of_cons. by rewrite coalesced_cons in Hco |- *.
  - unfold lowest_ok. rewrite <- lowest_map_of, map_of_cons. cbn. by rewrite Hlow.
  - rewrite map_of_cons. done.
Qed.
