(* ===== verification/FreeListProps.v ===== *)
(** * The contract of the free list

    The abstract machine over memory maps, its refinement by the pointer code,
    and the properties a client of the allocator relies on. *)

From S2P Require Import Prelude FreeList FreeListRep FreeListOps FreeListSpec FreeListTheorems FreeListQuery.

(** ** The abstract machine *)

Inductive op :=
  | Allocate (size : Z) (bottom_up : bool) (address_limit : Z)
  | AllocateAt (address size : Z)
  | Deallocate (address : Z).

Definition run_op (o : op) : F (option Z) :=
  match o with
  | Allocate size bottom_up limit => allocate size bottom_up limit
  | AllocateAt address size => allocate_at_address address size
  | Deallocate address => deallocate address;; mret None
  end.

(** Runs a sequence of operations, each client call seeing the state the one
    before left, also after a failed one. *)
Fixpoint run_ops (ops : list op) (s : FreeList) : FreeList * list (res (option Z)) :=
  match ops with
  | [] => (s, [])
  | o :: ops =>
      let '(s, r) := run_op o s in
      let '(s, rs) := run_ops ops s in
      (s, r :: rs)
  end.

(** A step of the specification: from one memory map to the next, with the
    outcome.  The offset, alignment and policy are those of the free list [c]. *)
Inductive spec_step (c : FreeList) (m : list range) : op -> list range -> res (option Z) -> Prop :=
  | spec_no_room size bottom_up limit :
      (forall r, r ∈ m -> fits_range (alloc_size_of c size) r = false) ->
      spec_step c m (Allocate size bottom_up limit) m (Ok None)
  | spec_allocate size bottom_up limit l r k :
      let sz := alloc_size_of c size in
      m = l ++ r :: k -> chosen (search_policy c) bottom_up sz l r k ->
      spec_step c m (Allocate size bottom_up limit) (l ++ carve r (place bottom_up sz r) sz ++ k)
        (within_limit (place bottom_up sz r + offset_bytes c) limit)
  | spec_at_no_room a size :
      (forall r, r ∈ m -> encompasses (a - offset_bytes c) (alloc_size_of c size) r = false) ->
      spec_step c m (AllocateAt a size) m (Ok None)
  | spec_allocate_at a size l r k :
      let sz := alloc_size_of c size in
      m = l ++ r :: k -> encompasses (a - offset_bytes c) sz r = true ->
      spec_step c m (AllocateAt a size) (l ++ carve r (a - offset_bytes c) sz ++ k) (Ok (Some a))
  | spec_deallocate a :
      spec_step c m (Deallocate a) (release (a - offset_bytes c) m) (Ok None).

Inductive spec_run (c : FreeList) : list range -> list op -> list range -> list (res (option Z)) -> Prop :=
  | spec_done m : spec_run c m [] m []
  | spec_more m o ops m1 m2 r rs :
      spec_step c m o m1 r -> spec_run c m1 ops m2 rs -> spec_run c m (o :: ops) m2 (r :: rs).

(** Requests whose sizes and addresses stay in 64 bits. *)
Definition op_ok (c : FreeList) (o : op) : Prop :=
  match o with
  | Allocate size _ _ => 0 <= size /\ size + alignment c <= 2 ^ 64
  | AllocateAt a size =>
      0 <= size /\ size + alignment c <= 2 ^ 64 /\ offset_bytes c <= a /\ a + alloc_size_of c size < 2 ^ 64 /\
      a mod alignment c = 0
  | Deallocate a => offset_bytes c <= a < 2 ^ 64
  end.

Lemma spec_step_config c c' m o m' r : config c' = config c -> spec_step c m o m' r -> spec_step c' m o m' r.
Proof.
  unfold config. intros [= E1 E2 E3 E4 E5 E6] H.
  assert (Ea : forall size, alloc_size_of c size = alloc_size_of c' size) by (intros; unfold alloc_size_of; by rewrite E4, E5).
  destruct H; try subst sz; rewrite ?Ea, <- ?E3 in *; econstructor; eauto; by rewrite E1.
Qed.

Lemma op_ok_config c c' o : config c' = config c -> op_ok c o -> op_ok c' o.
Proof.
  unfold config. intros [= E1 E2 E3 E4 E5 E6].
  assert (Ea : forall size, alloc_size_of c' size = alloc_size_of c size) by (intros; unfold alloc_size_of; by rewrite E4, E5).
  destruct o; cbn; by rewrite ?Ea, ?E3, ?E5.
Qed.

Lemma run_op_ok s m o :
  holds s m -> op_ok s o ->
  exists s' m' r, run_op o s = (s', r) /\ spec_step s m o m' r /\ holds s' m' /\ config s' = config s.
Proof.
  intros Hh Hok. destruct o as [size bu limit|a size|a]; cbn [op_ok run_op] in *.
  - destruct (allocate_ok s m size bu limit Hh) as [[He Hn]|(l & r & k & s' & -> & Hc & He & Hh' & Hcf)]; try tauto.
    + exists s, m, (Ok None). split_and!; [done|by constructor|done|done].
    + eexists s', _, _. split_and!; [done|by constructor|done|done].
  - destruct (alloc_at_ok s m a size Hh) as [[He Hn]|(l & r & k & s' & -> & Hc & He & Hh' & Hcf)]; try tauto.
    + exists s, m, (Ok None). split_and!; [done|by constructor|done|done].
    + eexists s', _, _. split_and!; [done|by constructor|done|done].
  - destruct Hh as (bl & Hr & Hl & <-). destruct (deallocate_ok s bl a Hr Hl) as (s' & bl' & He & Hr' & Hl' & Hcf & Hm).
    rewrite u64_small in Hm by (pose proof (cfg_offset _ (rep_config _ _ Hr)); lia).
    exists s', (map_of bl'), (Ok None). split_and!; [by erewrite M_bind_ok by exact He| |by exists bl'|done].
    rewrite Hm. constructor.
Qed.

(** C19: Refinement.  From a represented state, any sequence of allocations,
    allocations at an address and deallocations runs on the linked blocks as the
    specification does on the memory map: the outcomes are those of the
    specification, no null pointer is dereferenced, no assertion fires and no
    walk runs out of fuel, and the final state holds the final map. *)
Theorem free_list_refines s m ops :
  holds s m -> Forall (op_ok s) ops ->
  exists s' m' rs, run_ops ops s = (s', rs) /\ spec_run s m ops m' rs /\ holds s' m' /\ config s' = config s.
Proof.
  intros Hh Hok. revert s m Hh Hok. induction ops as [|o ops IH]; intros s m Hh Hok.
  - exists s, m, []. split_and!; [done|constructor|done|done].
  - apply Forall_cons in Hok as [Ho Hok].
    destruct (run_op_ok s m o Hh Ho) as (s1 & m1 & r & He & Hs & Hh1 & Hc1).
    destruct (IH s1 m1 Hh1) as (s2 & m2 & rs & He2 & Hs2 & Hh2 & Hc2).
    { eapply Forall_impl; [exact Hok|]. intros o' Ho'. by eapply op_ok_config. }
    exists s2, m2, (r :: rs). split_and!; [cbn; by rewrite He, He2| |done|congruence].
    econstructor; [exact Hs|]. clear -Hs2 Hc1. induction Hs2; econstructor; eauto.
    eapply spec_step_config; [|done]. done.
Qed.

(** A small free list: 1 KiB at offset 64, requests in multiples of 32. *)
Definition demo (policy : SearchPolicy) : FreeList := (FreeList_new 1024 64 32 32 policy).1.

Lemma demo_holds policy : holds (demo policy) (fresh_region 1024).
Proof.
  destruct (FreeList_new_ok 1024 64 32 32 policy) as (s & He & Hh & _); try lia; [done|].
  unfold demo. by rewrite He.
Qed.

Definition demo_ops : list op :=
  [Allocate 100 true 0; Allocate 40 false 0; Allocate 32 true 300; AllocateAt 512 64; Deallocate 64; Allocate 2000 true 0].

Lemma free_list_refines_witness :
  exists m', spec_run (demo BEST) (fresh_region 1024) demo_ops m'
    [Ok (Some 64); Ok (Some 1024); Err Throw; Ok (Some 512); Ok None; Ok None].
Proof.
  destruct (free_list_refines (demo BEST) (fresh_region 1024) demo_ops (demo_holds BEST)) as (s' & m' & rs & He & Hs & _).
  - unfold demo_ops. rewrite !Forall_cons. split_and!; try by apply Forall_nil. all: vm_compute; intuition congruence.
  - exists m'. replace rs with (run_ops demo_ops (demo BEST)).2 in Hs by (by rewrite He). exact Hs.
Defined.

(** ** Allocation *)

(** C20: Safety of [allocate].  A returned address is at least the limit, its
    range lies in the managed region, holds the request, and overlaps no range
    that was allocated before; every allocation made before is still there. *)
Theorem allocate_safe s m size bu limit s' a :
  holds s m -> 0 <= size -> size + alignment s <= 2 ^ 64 ->
  allocate size bu limit s = (s', Ok (Some a)) ->
  let sz := alloc_size_of s size in let start := a - offset_bytes s in
  limit <= a /\ size <= sz /\ min_allocation_size s <= sz /\ sz mod alignment s = 0 /\
  shrink_size_ s <= start /\ start + sz <= shrink_size_ s + max_size_bytes s /\
  (forall b z, (b, z, true) ∈ m -> b + z <= start \/ start + sz <= b) /\
  (exists m', holds s' m' /\ (start, sz, true) ∈ m' /\ forall r, r ∈ m -> r.2 = true -> r ∈ m').
Proof.
  intros Hh H0 H1 Ha sz start. pose proof (holds_config _ _ Hh) as Hc.
  destruct (alloc_size_ok s size Hc H0 H1) as (Hz & Hsz & Hge). fold sz in Hz, Hsz, Hge.
  destruct (zceil_spec (Z.max size (min_allocation_size s)) (alignment s) (cfg_alignment _ Hc)) as [Hz1 Hz2].
  rewrite <- Hz in Hz1, Hz2.
  destruct (allocate_ok s m size bu limit Hh H0 H1) as [[He _]|(l & r & k & s1 & -> & (Hf & _) & He & Hh' & _)];
    rewrite He in Ha; [done|]. unfold within_limit in Ha. case_match eqn:El; [done|]. injection Ha as <- Ha.
  apply Z.ltb_ge in El. fold sz in Hf, Ha, El, Hh'. destruct (holds_split s l r k Hh) as (B1 & B2 & B3).
  destruct (carve_safe s l r k bu sz Hh Hf) as (C1 & C2 & C3 & C4).
  assert (Hstart : place bu sz r = start) by (unfold start; lia). rewrite Hstart in *.
  split_and!; try lia; try done. eexists. split; [exact Hh'|]. split; [apply C4; by right|].
  intros [[b z] al] Hr' [= ->]. apply C4. by left.
Qed.

Lemma allocate_safe_witness :
  let s := demo FIRST in exists s', allocate 100 false 0 s = (s', Ok (Some 960)) /\
    exists m', holds s' m' /\ (896, 128, true) ∈ m'.
Proof.
  set (r := allocate 100 false 0 (demo FIRST)).
  exists r.1. split; [vm_compute; reflexivity|].
  destruct (allocate_safe (demo FIRST) _ 100 false 0 r.1 960 (demo_holds FIRST)) as (_ & _ & _ & _ & _ & _ & _ & m' & Hm & Hin & _);
    [lia|vm_compute; congruence|vm_compute; reflexivity|].
  exists m'. split; [exact Hm|]. exact Hin.
Defined.

(** Completeness of [allocate].  It reports that there is no room exactly
    when no free range holds the rounded request, and then changes nothing. *)
Theorem allocate_none_iff s m size bu limit :
  holds s m -> 0 <= size -> size + alignment s <= 2 ^ 64 ->
  ((allocate size bu limit s).2 = Ok None <-> forall r, r ∈ m -> fits_range (alloc_size_of s size) r = false) /\
  ((allocate size bu limit s).2 = Ok None -> (allocate size bu limit s).1 = s).
Proof.
  intros Hh H0 H1.
  destruct (allocate_ok s m size bu limit Hh H0 H1) as [[He Hn]|(l & r & k & s' & -> & (Hf & _) & He & _)];
    rewrite He; cbn; [done|].
  assert (Hne : within_limit (place bu (alloc_size_of s size) r + offset_bytes s) limit <> Ok None)
    by (unfold within_limit; by case_match).
  split; [|done]. split; [done|]. intros Hn. specialize (Hn r). rewrite Hf in Hn. discriminate Hn. set_solver.
Qed.

Lemma allocate_none_iff_witness : (allocate 2000 true 0 (demo BEST)).1 = demo BEST.
Proof.
  apply (allocate_none_iff (demo BEST) _ 2000 true 0 (demo_holds BEST)); vm_compute; congruence.
Defined.

(** The address limit is checked after the block is taken: when [allocate]
    throws because the address it found is below the limit, the range stays
    allocated, and nobody has its address. *)
Theorem limit_failure_keeps_block s m size bu limit s' :
  holds s m -> 0 <= size -> size + alignment s <= 2 ^ 64 ->
  allocate size bu limit s = (s', Err Throw) ->
  exists m', holds s' m' /\ total true m' = total true m + alloc_size_of s size.
Proof.
  intros Hh H0 H1 Ha. destruct (alloc_size_ok s size (holds_config _ _ Hh) H0 H1) as (_ & Hsz & _).
  destruct (allocate_ok s m size bu limit Hh H0 H1) as [[He _]|(l & r & k & s1 & -> & (Hf & _) & He & Hh' & _)];
    rewrite He in Ha; [done|]. injection Ha as -> _. eexists. split; [exact Hh'|].
  unfold fits_range in Hf. rewrite andb_true_iff, negb_true_iff in Hf. destruct Hf as [Hr _].
  unfold total. rewrite !map_app, !zsum_app. cbn [map zsum]. rewrite Hr. cbn [eqb].
  destruct r as [[x y] b]. unfold carve. rewrite !map_app, !zsum_app.
  destruct (x <? _), (_ <? x + y); cbn; lia.
Qed.

Lemma limit_failure_keeps_block_witness :
  exists s' m', allocate 100 true 500 (demo FIRST) = (s', Err Throw) /\ holds s' m' /\ total true m' = 128.
Proof.
  set (r := allocate 100 true 500 (demo FIRST)). exists r.1.
  destruct (limit_failure_keeps_block (demo FIRST) _ 100 true 500 r.1 (demo_holds FIRST)) as (m' & Hm & Ht);
    [lia|vm_compute; congruence|vm_compute; reflexivity|].
  exists m'. split; [vm_compute; reflexivity|]. split; [exact Hm|exact Ht].
Defined.

(** ** Alignment *)

Definition aligned (al : Z) (m : list range) : Prop := Forall (fun r : range => (al | r.1.1) /\ (al | r.1.2)) m.

Lemma aligned_carve al r a sz :
  (al | r.1.1) -> (al | r.1.2) -> (al | a) -> (al | sz) -> aligned al (carve r a sz).
Proof.
  destruct r as [[x y] b]. cbn. intros H1 H2 H3 H4. unfold carve, aligned. rewrite !Forall_app.
  pose proof (Z.divide_sub_r _ _ _ H3 H1). pose proof (Z.divide_add_r _ _ _ H3 H4).
  assert ((al | x + y - (a + sz))) by (apply Z.divide_sub_r; [by apply Z.divide_add_r|done]).
  destruct (x <? a), (a + sz <? x + y); split_and!; repeat apply Forall_cons; cbn; auto.
Qed.

Lemma aligned_coalesce al m : aligned al m -> aligned al (coalesce m).
Proof.
  unfold aligned. induction m as [|[[a sz] b] m IH]; [done|]. rewrite coalesce_cons, Forall_cons.
  intros [[H1 H2] Hm]. specialize (IH Hm). destruct b; [by constructor|].
  destruct (coalesce m) as [|[[x y] []] r]; [by constructor|by constructor|].
  apply Forall_cons in IH as [[_ H3] H4]. constructor; [|done]. split; [done|]. cbn in *. by apply Z.divide_add_r.
Qed.

Lemma aligned_mark_free al a m : aligned al m -> aligned al (mark_free a m).
Proof.
  unfold aligned. induction m as [|[[x y] b] m IH]; [done|]. rewrite mark_free_cons, !Forall_cons.
  intros [H1 Hm]. split; [|by apply IH]. by destruct (x =? a).
Qed.

Lemma spec_step_aligned c m o m' r :
  config_ok c -> op_ok c o -> (alignment c | offset_bytes c) -> aligned (alignment c) m ->
  spec_step c m o m' r ->
  aligned (alignment c) m' /\ forall a, r = Ok (Some a) -> (alignment c | a).
Proof.
  intros Hc Hok Ho Hm Hs. pose proof (cfg_alignment _ Hc) as Hal.
  assert (Hsz : forall size, 0 <= size -> size + alignment c <= 2 ^ 64 -> (alignment c | alloc_size_of c size)).
  { intros size H0 H1. destruct (alloc_size_ok c size Hc H0 H1) as (-> & _).
    apply Z.mod_divide; [lia|]. by apply zceil_spec. }
  destruct Hs as [|size bu limit l x k sz -> Hch| |a size l x k sz -> Hf|a]; cbn [op_ok] in Hok; try done.
  - specialize (Hsz size ltac:(tauto) ltac:(tauto)). fold sz in Hsz. unfold aligned in Hm.
    rewrite Forall_app, Forall_cons in Hm. destruct Hm as (Hl & [Hx1 Hx2] & Hk).
    assert (Hp : (alignment c | place bu sz x)).
    { unfold place. destruct bu; [done|]. apply Z.divide_sub_r; [by apply Z.divide_add_r|done]. }
    split; [apply Forall_app; split; [done|]; apply Forall_app; split; [by apply aligned_carve|done]|].
    unfold within_limit. intros a. case_match; [done|]. intros [= <-]. by apply Z.divide_add_r.
  - specialize (Hsz size ltac:(tauto) ltac:(tauto)). fold sz in Hsz. unfold aligned in Hm.
    rewrite Forall_app, Forall_cons in Hm. destruct Hm as (Hl & [Hx1 Hx2] & Hk).
    assert (Ha : (alignment c | a)) by (apply Z.mod_divide; [lia|tauto]).
    split; [|by intros ? [= <-]]. apply Forall_app; split; [done|]; apply Forall_app; split; [|done].
    apply aligned_carve; try done. by apply Z.divide_sub_r.
  - split; [|done]. unfold release. destruct (existsb _ m); [|done]. by apply aligned_coalesce, aligned_mark_free.
Qed.

(** Every address handed out by any sequence of operations is aligned, when
    the region is: the free list cuts, gives back and merges whole units only. *)
Theorem addresses_aligned s m ops s' rs :
  holds s m -> Forall (op_ok s) ops -> (alignment s | offset_bytes s) -> aligned (alignment s) m ->
  run_ops ops s = (s', rs) ->
  Forall (fun r => forall a, r = Ok (Some a) -> (alignment s | a)) rs.
Proof.
  revert s m rs. induction ops as [|o ops IH]; intros s m rs Hh Hok Ho Hm Hrun.
  - cbn in Hrun. injection Hrun as _ <-. constructor.
  - apply Forall_cons in Hok as [Hop Hok]. cbn in Hrun.
    destruct (run_op_ok s m o Hh Hop) as (s1 & m1 & r & He & Hs & Hh1 & Hc1). rewrite He in Hrun.
    destruct (run_ops ops s1) as [s2 rs'] eqn:E. injection Hrun as -> <-.
    destruct (spec_step_aligned s m o m1 r (holds_config _ _ Hh) Hop Ho Hm Hs) as [Hm1 Hr].
    assert (Hal : alignment s1 = alignment s /\ offset_bytes s1 = offset_bytes s) by (unfold config in Hc1; by injection Hc1).
    destruct Hal as [Hal Hof]. constructor; [done|]. rewrite <- Hal.
    apply (IH s1 m1 rs' Hh1); [|by rewrite Hal, Hof|by rewrite Hal|done].
    eapply Forall_impl; [exact Hok|]. intros o' Ho'. by eapply op_ok_config.
Qed.

Lemma addresses_aligned_witness :
  Forall (fun r => forall a, r = Ok (Some a) -> (32 | a)) (run_ops demo_ops (demo FIRST)).2.
Proof.
  apply (addresses_aligned (demo FIRST) (fresh_region 1024) demo_ops (run_ops demo_ops (demo FIRST)).1).
  - apply demo_holds.
  - unfold demo_ops. rewrite !Forall_cons. split_and!; try by apply Forall_nil. all: vm_compute; intuition congruence.
  - exists 2. reflexivity.
  - repeat constructor; [exists 0|exists 32]; reflexivity.
  - vm_compute. reflexivity.
Defined.

(** ** Deallocation *)

Lemma mark_carve base l r k top a sz :
  tiles base (l ++ r :: k) top -> coalesced (l ++ r :: k) -> r.2 = false ->
  r.1.1 <= a -> 0 < sz -> a + sz <= r.1.1 + r.1.2 ->
  release a (l ++ carve r a sz ++ k) = l ++ r :: k.
Proof.
  intros Ht Hc Hr H1 H2 H3. destruct r as [[x y] b]. cbn in *. subst b.
  assert (Hl : coalesced l /\ last_is_free l = false /\ coalesced k /\ head_is_free k = false).
  { rewrite coalesced_app, coalesced_cons in Hc. destruct Hc as (Hl & [Hk Hck] & Hlast). specialize (Hk eq_refl).
    split_and!; try done. destruct (last_is_free l); [by specialize (Hlast eq_refl)|done]. }
  destruct Hl as (Hl & Hlf & Hk & Hkf).
  assert (Ht' : tiles base (l ++ carve (x, y, false) a sz ++ k) top).
  { apply tiles_app in Ht as (mid & Ht1 & Hx & Hy & Ht2). subst mid. apply tiles_app. exists x. split; [done|].
    apply tiles_app. exists (x + y). split; [by apply carve_tiles|done]. }
  unfold carve in *. set (post := if a + sz <? x + y then _ else _) in *.
  assert (Hpost : coalesce ((a, sz, false) :: post ++ k) = (a, x + y - a, false) :: k).
  { rewrite coalesce_cons. unfold post. destruct (Z.ltb_spec (a + sz) (x + y)); cbn [app].
    - rewrite coalesce_free_cons by done. destruct k as [|[[? ?] []] ?]; try done; do 3 f_equal; lia.
    - rewrite coalesce_id by done. destruct k as [|[[? ?] []] ?]; try done; do 3 f_equal; lia. }
  destruct (Z.ltb_spec x a) as [Hxa|Hxa].
  - assert (E : l ++ ([(x, a - x, false)] ++ [(a, sz, true)] ++ post) ++ k
      = (l ++ [(x, a - x, false)]) ++ (a, sz, true) :: post ++ k) by (by rewrite <- !app_assoc).
    etransitivity; [exact (f_equal (release a) E)|].
    pose proof (eq_ind _ (fun m => tiles base m top) Ht' _ E) as Ht2.
    erewrite release_split by exact Ht2. erewrite mark_free_split by exact Ht2.
    rewrite <- app_assoc, coalesce_app by done. f_equal. cbn [app]. rewrite coalesce_cons, Hpost.
    do 3 f_equal. lia.
  - assert (x = a) as -> by lia.
    assert (E : l ++ ([] ++ [(a, sz, true)] ++ post) ++ k = l ++ (a, sz, true) :: post ++ k) by done.
    etransitivity; [exact (f_equal (release a) E)|].
    pose proof (eq_ind _ (fun m => tiles base m top) Ht' _ E) as Ht2.
    erewrite release_split by exact Ht2. erewrite mark_free_split by exact Ht2.
    rewrite coalesce_app, Hpost by done. by replace (a + y - a) with y by lia.
Qed.

(** Round trip.  Deallocating an address [allocate] just returned brings the
    memory map back exactly: the range is free again and merged with the free
    space it was carved from. *)
Theorem allocate_deallocate s m size bu limit s' a :
  holds s m -> 0 <= size -> size + alignment s <= 2 ^ 64 ->
  allocate size bu limit s = (s', Ok (Some a)) ->
  exists s'', deallocate a s' = (s'', Ok tt) /\ holds s'' m /\ config s'' = config s.
Proof.
  intros Hh H0 H1 Ha. pose proof (holds_config _ _ Hh) as Hc. destruct (alloc_size_ok s size Hc H0 H1) as (_ & Hsz & _).
  destruct (allocate_ok s m size bu limit Hh H0 H1) as [[He _]|(l & r & k & s1 & -> & (Hf & _) & He & Hh' & Hcf)];
    rewrite He in Ha; [done|]. unfold within_limit in Ha. case_match; [done|]. injection Ha as <- <-.
  set (sz := alloc_size_of s size) in *. destruct (holds_split s l r k Hh) as (B1 & B2 & B3).
  unfold fits_range in Hf. rewrite andb_true_iff, negb_true_iff, Z.leb_le in Hf. destruct Hf as [Hr Hfit].
  destruct Hh' as (bl & Hrep & Hlow & Hm). destruct (deallocate_ok s1 bl (place bu sz r + offset_bytes s) Hrep Hlow)
    as (s2 & bl' & Hd & Hrep' & Hlow' & Hcf' & Hm').
  exists s2. split; [done|]. split; [|congruence]. exists bl'. split; [done|]. split; [done|].
  rewrite Hm', Hm. unfold config in Hcf. injection Hcf as _ _ -> _ _ _.
  assert (Hp : r.1.1 <= place bu sz r /\ place bu sz r + sz <= r.1.1 + r.1.2) by (unfold place; destruct bu; lia).
  destruct Hc as [_ _ Ho Hs0 _ Htop]. replace (place bu sz r + offset_bytes s - offset_bytes s) with (place bu sz r) by lia.
  rewrite u64_small by lia. apply (mark_carve _ _ _ _ _ _ _ (holds_tiles _ _ Hh) (holds_coalesced _ _ Hh) Hr); lia.
Qed.

Lemma allocate_deallocate_witness :
  exists s' s'', allocate 100 false 0 (demo BEST) = (s', Ok (Some 960)) /\ deallocate 960 s' = (s'', Ok tt) /\
    holds s'' (fresh_region 1024).
Proof.
  set (r := allocate 100 false 0 (demo BEST)). exists r.1.
  destruct (allocate_deallocate (demo BEST) _ 100 false 0 r.1 960 (demo_holds BEST)) as (s'' & He & Hh & _);
    [lia|vm_compute; congruence|vm_compute; reflexivity|].
  exists s''. split; [vm_compute; reflexivity|]. split; [exact He|exact Hh].
Defined.

(** ** Queries *)

(** C28: [available_addresses] describes exactly the addresses at which
    [allocate_at_address] succeeds: an aligned address is accepted if and only if
    its offset in the region lies between the two ends of some listed pair. *)
Theorem available_iff_allocatable s m size a :
  holds s m -> 0 <= size -> size + alignment s <= 2 ^ 64 ->
  offset_bytes s <= a -> a + alloc_size_of s size < 2 ^ 64 -> a mod alignment s = 0 ->
  exists l, available_addresses size s = (s, Ok l) /\
    ((allocate_at_address a size s).2 = Ok (Some a) <->
     exists lo hi, (lo, hi) ∈ l /\ lo <= a - offset_bytes s <= hi).
Proof.
  intros Hh H0 H1 H2 H3 H4. eexists. split; [by apply available_addresses_eq|].
  assert (Hop : forall lo hi, (lo, hi) ∈ openings (alloc_size_of s size) m <->
    exists r, r ∈ m /\ fits_range (alloc_size_of s size) r = true /\ lo = r.1.1 /\ hi = r.1.1 + r.1.2 - alloc_size_of s size).
  { intros lo hi. unfold openings. rewrite elem_of_map. setoid_rewrite list_elem_of_filter. split.
    - intros (r & [= -> ->] & Hf & Hr). by exists r.
    - intros (r & Hr & Hf & -> & ->). by exists r. }
  destruct (alloc_at_ok s m a size Hh H0 H1 H2 H3 H4) as [[He Hn]|(l & r & k & s' & -> & Hf & He & _)]; rewrite He; cbn.
  - split; [done|]. intros (lo & hi & (r & Hr & Hf & -> & ->)%Hop & Hb). specialize (Hn r Hr).
    unfold fits_range in Hf. unfold encompasses in Hn. rewrite andb_true_iff in Hf. destruct Hf as [Hr2 _].
    rewrite Hr2 in Hn. cbn in Hn. lia.
  - split; [intros _|done]. unfold encompasses in Hf. rewrite !andb_true_iff, !Z.leb_le in Hf.
    eexists _, _. split; [apply Hop; exists r; split; [set_solver|split; [|done]]|lia].
    unfold fits_range. rewrite andb_true_iff, Z.leb_le. split; [tauto|lia].
Qed.

Lemma available_iff_allocatable_witness :
  exists l, available_addresses 100 (demo BEST) = (demo BEST, Ok l) /\
    (allocate_at_address 512 100 (demo BEST)).2 = Ok (Some 512).
Proof.
  destruct (available_iff_allocatable (demo BEST) _ 100 512 (demo_holds BEST)) as (l & He & Hl);
    try (vm_compute; congruence).
  exists l. split; [exact He|]. apply Hl. exists 0, 896.
  assert (El : (available_addresses 100 (demo BEST)).2 = Ok l) by (by rewrite He).
  vm_compute in El. injection El as <-. split; [apply list_elem_of_singleton; reflexivity|vm_compute; intuition congruence].
Defined.

(** The statistics account for every byte: allocated plus free bytes are the
    managed size, they are the sums over the blocks, the largest free block is a
    free block no other exceeds, and the last address listed is that of one of
    the largest. *)
Theorem statistics_account s m :
  holds s m ->
  exists st, get_statistics s = (s, Ok st) /\
    total_allocatable_size_bytes st = max_size_bytes s /\
    total_allocated_bytes st = total true m /\ total_free_bytes st = total false m /\
    total_allocated_bytes st + total_free_bytes st = max_size_bytes s /\
    (forall a sz, (a, sz, false) ∈ m -> sz <= largest_free_block_bytes st) /\
    (largest_free_block_bytes st <> 0 -> exists a, (a, largest_free_block_bytes st, false) ∈ m) /\
    (forall x, last (largest_free_block_addrs st) = Some x ->
       exists a, x = u32 (a + offset_bytes s) /\ (a, largest_free_block_bytes st, false) ∈ m).
Proof.
  intros Hh. eexists. split; [by apply get_statistics_eq|]. cbn.
  pose proof (total_tiles _ _ _ (holds_tiles _ _ Hh)). split_and!; try done; try lia.
  - intros a sz. apply largest_bound.
  - apply largest_attained.
  - intros x. rewrite fmap_last. destruct (last (leaders 0 m)) as [a|] eqn:E; [|done].
    intros [= <-]. exists a. split; [done|]. apply leaders_last in E; [|lia].
    by replace (Z.max 0 (largest m)) with (largest m) in E by (pose proof (largest_nonneg m); lia).
Qed.

Lemma statistics_account_witness :
  exists st, get_statistics (demo FIRST) = (demo FIRST, Ok st) /\ total_allocated_bytes st + total_free_bytes st = 1024.
Proof.
  destruct (statistics_account (demo FIRST) _ (demo_holds FIRST)) as (st & He & _ & _ & _ & Hs & _).
  exists st. split; [exact He|exact Hs].
Defined.

(** [largest_free_block_addrs] is meant to list the blocks of the largest
    size, but keeps every block that was a maximum so far: here the address of a
    32-byte block is listed first, while the largest free block has 928 bytes. *)
Theorem statistics_list_smaller_blocks :
  let s := (run_ops [Allocate 32 true 0; Allocate 64 true 0; Deallocate 64] (demo FIRST)).1 in
  exists st, get_statistics s = (s, Ok st) /\ largest_free_block_bytes st = 928 /\
    largest_free_block_addrs st = [64; 160].
Proof. eexists. split; [vm_compute; reflexivity|]. split; reflexivity. Qed.

(** ** Resizing *)

(** Shrinking and resetting.  A legal shrink cuts exactly the low bytes and
    touches no allocation; when the cut leaves a free block at the new start, the
    reset that follows gives the bytes back and restores map and size. *)
Theorem shrink_reset_roundtrip s m shrink :
  holds s m -> can_shrink s m shrink -> fits_range (shrink + 1) (hd (0, 0, true) m) = true ->
  exists s' s'', shrink_size shrink true s = (s', Ok tt) /\ holds s' (cut shrink m) /\
    max_size_bytes s' = max_size_bytes s - shrink /\ (forall a sz, (a, sz, true) ∈ cut shrink m <-> (a, sz, true) ∈ m) /\
    reset_size s' = (s'', Ok tt) /\ holds s'' m /\ config s'' = config s.
Proof.
  intros Hh Hc Hf. destruct (shrink_size_ok s m shrink Hh Hc) as (s' & He & Hh' & Hcf).
  destruct (can_shrink_front s m shrink Hh Hc) as (sz & k & -> & _). cbn [hd] in Hf.
  unfold fits_range in Hf. cbn in Hf. apply Z.leb_le in Hf.
  pose proof Hh' as Hh1. cbn [cut] in Hh1 |- *. rewrite (proj2 (Z.ltb_lt shrink sz)) in Hh1 |- * by lia.
  unfold config in Hcf. injection Hcf as E1 E2 E3 E4 E5 E6. destruct Hc as (H0 & H1 & _).
  destruct (reset_size_ok s' (sz - shrink) k) as (s'' & He' & Hh'' & Hcf'); [by rewrite E6|lia|].
  exists s', s''. split; [done|]. split; [done|]. split; [done|]. split; [|split; [done|split]].
  - intros a z. rewrite !elem_of_cons. split; (intros [|]; [congruence|tauto]).
  - rewrite E6 in Hh''. by replace (sz - shrink + shrink) with sz in Hh'' by lia.
  - rewrite Hcf'. unfold config. rewrite E1, E2, E3, E4, E5, E6, H0. do 3 f_equal. f_equal. f_equal. lia.
Qed.

Lemma shrink_reset_roundtrip_witness :
  exists s' s'', shrink_size 128 true (demo FIRST) = (s', Ok tt) /\ reset_size s' = (s'', Ok tt) /\
    holds s'' (fresh_region 1024).
Proof.
  destruct (shrink_reset_roundtrip (demo FIRST) _ 128 (demo_holds FIRST)) as (s' & s'' & H1 & _ & _ & _ & H2 & H3 & _);
    [split; [reflexivity|split; [vm_compute; intuition congruence|split; [discriminate|vm_compute; congruence]]]|reflexivity|].
  exists s', s''. split; [exact H1|]. split; [exact H2|exact H3].
Defined.

(** [shrink_size] refuses, and leaves the state alone, when asked to cut from
    the top, more than the managed size, into the lowest allocation, or twice;
    a request of zero bytes does nothing. *)
Theorem shrink_size_refuses s m shrink bu :
  holds s m ->
  shrink_size 0 bu s = (s, Ok tt) /\
  (shrink <> 0 ->
   bu = false \/ max_size_bytes s < shrink \/ (exists l, lowest m = Some l /\ l < shrink) \/ shrink_size_ s <> 0 ->
   shrink_size shrink bu s = (s, Err Fatal)).
Proof.
  intros Hh. split; [done|]. intros Hne Hbad. unfold shrink_size. rewrite (proj2 (Z.eqb_neq shrink 0) Hne).
  destruct bu; [|done]. erewrite M_bind_ok by reflexivity. erewrite M_bind_ok by reflexivity. cbv beta.
  destruct (Z.leb_spec shrink (max_size_bytes s)); [|done]. erewrite M_bind_ok by reflexivity.
  rewrite (holds_lowest _ _ Hh). destruct (lowest m) as [l|].
  - destruct (Z.leb_spec shrink l); [|done]. erewrite M_bind_ok by reflexivity.
    destruct (Z.eqb_spec (shrink_size_ s) 0); [|done]. naive_solver lia.
  - erewrite M_bind_ok by reflexivity. destruct (Z.eqb_spec (shrink_size_ s) 0); [|done]. naive_solver lia.
Qed.

Lemma shrink_size_refuses_witness : shrink_size 2048 true (demo FIRST) = (demo FIRST, Err Fatal).
Proof. apply (shrink_size_refuses (demo FIRST) _ 2048 true (demo_holds FIRST)); [discriminate|right; left; reflexivity]. Defined.

(** Runs a unit operation for its state. *)
Definition after (p : F unit) (s : FreeList) : FreeList := (p s).1.

(** C29: [reset_size] does not link the old first block back to the block it adds.  From
    every state cut by [shrink_size] in which the first block left is allocated, the reset
    ends with a list whose first block, the one added, has a next block with no previous
    one; the lists then represent no memory map.  The witness goes on: once that block is
    freed, the added bytes are missing from the free list. *)
Theorem reset_size_breaks_list s sz k :
  holds s ((shrink_size_ s, sz, true) :: k) -> shrink_size_ s <> 0 ->
  exists s' p h added first, reset_size s = (s', Ok tt) /\
    block_head s' = Some p /\ heap s' !! p = Some added /\ address added = 0 /\ size added = shrink_size_ s /\ next_block added = Some h /\
    heap s' !! h = Some first /\ address first = shrink_size_ s /\ size first = sz /\ prev_block first = None /\
    forall m', ~ holds s' m'.
Proof.
  intros Hh H0. pose proof (holds_tiles _ _ Hh) as Ht. destruct Hh as (bl & Hr & _ & Hm). destruct bl as [|n l2]; [done|].
  rewrite map_of_cons in Hm. injection Hm as Ha Hsz Hn <-. pose proof (rep_wf _ _ Hr) as Hw. pose proof (wf_seg _ _ Hw) as Hseg.
  cbn [seg] in Hseg. rewrite Hn in Hseg. destruct Hseg as [Hl Hseg]. pose proof (wf_nodup _ _ Hw) as Hd. rewrite ids_cons in Hd.
  apply NoDup_cons in Hd as [Hni Hd]. cbn [tiles] in Ht. destruct Ht as (_ & Hsp & Ht).
  pose proof (wf_fresh _ _ Hw (nid n) ltac:(left)) as Hfresh.
  assert (forall s' added first, block_head s' = Some (next_id s) -> heap s' !! next_id s = Some added -> next_block added = Some (nid n) ->
    heap s' !! nid n = Some first -> prev_block first = None -> forall m', ~ holds s' m') as Hno.
  { intros s' added first Hhead Hp Hnext Hfirst Hprev m' (bl' & Hr' & _). pose proof (rep_wf _ _ Hr') as Hw'. pose proof (wf_seg _ _ Hw') as Hs'.
    rewrite (wf_head _ _ Hw') in Hhead. destruct bl' as [|x [|y l]]; [done| |]; injection Hhead as Hx; cbn [seg] in Hs'; destruct Hs' as [Hx' Hs'];
      rewrite Hx, Hp in Hx'; injection Hx' as ->; cbn in Hnext; [done|]. injection Hnext as Hy. destruct Hs' as [Hy' _].
    rewrite Hy, Hfirst in Hy'. injection Hy' as ->. done. }
  assert (block_head s = Some (nid n)) as Hbh by (by rewrite (wf_head _ _ Hw)).
  assert (free_block_head s = hd_free l2 None) as Hfh by (rewrite (wf_free_head _ _ Hw); cbn; by rewrite Hn).
  unfold reset_size. erewrite M_bind_ok by reflexivity. cbv beta. rewrite (proj2 (Z.eqb_neq _ 0) H0), Hfh.
  destruct (hd_free l2 None) as [i|] eqn:Efh.
  - apply hd_free_elem in Efh as (x & Hx & <- & Hxa). destruct (list_elem_of_split _ _ Hx) as (l3 & l4 & ->).
    pose proof (wf_split s (n :: l3) x l4 Hw) as (_ & Hlx & _). assert (nid x <> nid n) as Hne by (intros E; apply Hni; rewrite <- E; by apply elem_of_ids).
    assert (naddr x <> shrink_size_ s) as Hax.
    { rewrite map_of_app, map_of_cons in Ht. apply tiles_app in Ht as (mid & Ht1%tiles_le & Ht2). cbn in Ht2. lia. }
    assert (nid x < next_id s)%nat as Hfx by (apply (wf_fresh _ _ Hw); by apply elem_of_ids, elem_of_cons; right).
    rewrite M_bind_assoc. erewrite M_bind_ok by (by apply deref_eq). cbn [address]. rewrite (proj2 (Z.eqb_neq _ _) Hax). cbn [negb].
    match goal with |- context [?m s = (_, Ok tt)] => assert (exists s', m s = (s', Ok tt) /\ block_head s' = Some (next_id s) /\
      heap s' = alter (set_prev_free (Some (next_id s))) (nid x) (alter (set_next_free (Some (nid x))) (next_id s) (alter (set_next_block (block_head s)) (next_id s)
        (<[next_id s := mkBlock 0 (shrink_size_ s) None None None None]> (heap s))))) as (s' & Hrun & Hhd & Hheap) end.
    { eexists. split; [rewrite !M_bind_assoc; erewrite M_bind_ok by reflexivity; rewrite !M_bind_assoc; erewrite M_bind_ok by (apply assign_eq; cbn; is_some);
        rewrite !M_bind_assoc; erewrite M_bind_ok by (apply assign_eq; cbn; is_some); rewrite !M_bind_assoc;
        erewrite M_bind_ok by (apply assign_eq; cbn; is_some; rewrite lookup_insert_ne by lia; eauto); reflexivity|]. done. }
    assert (next_id s <> nid n) as Hp by lia.
    assert (exists added, heap s' !! next_id s = Some added /\ address added = 0 /\ size added = shrink_size_ s /\ next_block added = Some (nid n)) as (added & H1 & H2 & H3 & H4).
    { eexists. split; [rewrite Hheap; rewrite lookup_alter_ne by lia; rewrite !lookup_alter_eq, lookup_insert_eq; reflexivity|]. cbn. by rewrite Hbh. }
    assert (heap s' !! nid n = heap s !! nid n) as Hfirst by (rewrite Hheap; rewrite !lookup_alter_ne by lia; rewrite lookup_insert_ne by lia; done). rewrite Hl in Hfirst.
    exists s', (next_id s), (nid n), added. eexists. split; [exact Hrun|]. split_and!; try done. by eapply Hno.
  - match goal with |- context [?m s = (_, Ok tt)] => assert (exists s', m s = (s', Ok tt) /\ block_head s' = Some (next_id s) /\
      heap s' = alter (set_next_block (block_head s)) (next_id s) (<[next_id s := mkBlock 0 (shrink_size_ s) None None None None]> (heap s))) as (s' & Hrun & Hhd & Hheap) end.
    { eexists. split; [rewrite !M_bind_assoc; erewrite M_bind_ok by reflexivity; rewrite !M_bind_assoc; erewrite M_bind_ok by reflexivity;
        rewrite !M_bind_assoc; erewrite M_bind_ok by (apply assign_eq; cbn; is_some); reflexivity|]. done. }
    assert (next_id s <> nid n) as Hp by lia.
    assert (exists added, heap s' !! next_id s = Some added /\ address added = 0 /\ size added = shrink_size_ s /\ next_block added = Some (nid n)) as (added & H1 & H2 & H3 & H4).
    { eexists. split; [rewrite Hheap; rewrite !lookup_alter_eq, lookup_insert_eq; reflexivity|]. cbn. by rewrite Hbh. }
    assert (heap s' !! nid n = heap s !! nid n) as Hfirst by (rewrite Hheap; rewrite !lookup_alter_ne by lia; rewrite lookup_insert_ne by lia; done). rewrite Hl in Hfirst.
    exists s', (next_id s), (nid n), added. eexists. split; [exact Hrun|]. split_and!; try done. by eapply Hno.
Qed.

Definition demo_cut : FreeList := (allocate 896 true 0 (after (shrink_size 128 true) (demo FIRST))).1.

Lemma demo_cut_holds : holds demo_cut [(128, 896, true)].
Proof.
  exists [mkNode 0 128 896 true]. split; [|split; [|reflexivity]].
  - constructor.
    + constructor; [vm_compute; done|apply NoDup_singleton| |vm_compute; reflexivity..]. intros i Hi%list_elem_of_singleton. subst i. vm_compute. lia.
    + constructor; vm_compute; intuition congruence.
    + vm_compute. done.
    + done.
  - vm_compute. done.
Qed.

(** After a shrink by 128 bytes and an allocation of the rest the reset loses the 128 bytes:
    once the allocation is freed they are neither free nor part of it. *)
Lemma reset_size_breaks_list_witness : exists s' p h added first,
  reset_size demo_cut = (s', Ok tt) /\ block_head s' = Some p /\ heap s' !! p = Some added /\ next_block added = Some h /\
  heap s' !! h = Some first /\ prev_block first = None /\
  (available_addresses 32 (after (deallocate 192) s')).2 = Ok [(128, 992)].
Proof.
  destruct (reset_size_breaks_list demo_cut 896 [] demo_cut_holds ltac:(vm_compute; congruence)) as (s' & p & h & added & first & E & H1 & H2 & _ & _ & H3 & H4 & _ & _ & H5 & _).
  exists s', p, h, added, first. split; [exact E|]. split; [exact H1|]. split; [exact H2|]. split; [exact H3|]. split; [exact H4|]. split; [exact H5|].
  assert (E' : s' = (reset_size demo_cut).1) by (by rewrite E). rewrite E'. vm_compute. reflexivity.
Defined.

(** [clear] frees everything but keeps the low-water mark of the allocations
    it dropped, so a shrink that a fresh allocator accepts is refused; and after
    a shrink it does not give back the bytes cut, although it forgets the cut. *)
Theorem clear_keeps_stale_bounds :
  let s1 := after clear (allocate 100 true 0 (demo FIRST)).1 in
  let s2 := after clear (after (shrink_size 128 true) (demo FIRST)) in
  (available_addresses 32 s1).2 = Ok [(0, 992)] /\ lowest_occupied_address s1 = Some 64 /\
  (shrink_size 32 true s1).2 = Err Fatal /\ (shrink_size 32 true (demo FIRST)).2 = Ok tt /\
  (available_addresses 32 s2).2 = Ok [(0, 864)] /\ shrink_size_ s2 = 0.
Proof. vm_compute. done. Qed.

(** Shrinking an empty region by its whole size passes every check of
    [shrink_size] and then dereferences a null block. *)
Theorem shrink_whole_region_undefined policy : (shrink_size 1024 true (demo policy)).2 = Err Undefined.
Proof. by destruct policy. Qed.
