(* ===== verification/WorkSplit.v ===== *)
(** * Splitting work over cores (tt_metal/common/work_split.cpp, math.hpp)

    How many cores an operation gets, which ones, and how many units of work
    each.  Counts are [uint32_t], loop counters [int], coordinates [size_t]; a
    division by zero and a signed overflow are the outcome [Undefined]. *)

From S2P Require Import Prelude CoreCoord.

(** ** math.hpp *)

Definition div_up (a b : Z) : res Z :=
  check Fatal (0 <? b);;
  mret (u32 (u32 (a + b - 1) / b)).

Definition round_up (a b : Z) : res Z := q ← div_up a b; mret (u32 (b * q)).

(** ** Sizes *)

(** The loop over the multiples of the stick size. *)
Fixpoint merge_sticks_go (fuel : nat) (total_bytes stick_size_bytes max_read_size current_size found : Z) : res Z :=
  if max_read_size <? current_size then mret found
  else
    match fuel with
    | O => Err OutOfFuel
    | S fuel =>
        check Undefined (negb (current_size =? 0));;
        merge_sticks_go fuel total_bytes stick_size_bytes max_read_size (u32 (current_size + stick_size_bytes))
          (if total_bytes mod current_size =? 0 then total_bytes / current_size else found)
    end.

Definition merge_num_sticks_to_read (num_sticks_to_read stick_size_bytes max_read_size : Z) : res Z :=
  let total_bytes := u32 (num_sticks_to_read * stick_size_bytes) in
  merge_sticks_go (S (Z.to_nat max_read_size)) total_bytes stick_size_bytes max_read_size
    stick_size_bytes num_sticks_to_read.

Definition get_max_cores_divisible_by_tiles_per_core_tiles (num_tiles num_cores_max : Z) (request_even : bool)
    : res (Z * Z) :=
  (* the [int] counter is incremented past num_cores_max *)
  check Undefined (num_cores_max <? 2 ^ 31 - 1);;
  let num_cores := fold_left (fun n i => if num_tiles mod i =? 0 then i else n) (zrange 2 (num_cores_max + 1)) 1 in
  let num_cores := if request_even then num_cores - num_cores mod 2 else num_cores in
  check Undefined (negb (num_cores =? 0));;
  let per_core_tiles_dim := num_tiles / num_cores in
  mret (num_cores, if num_tiles mod num_cores =? 0 then per_core_tiles_dim else u32 (per_core_tiles_dim + 1)).

(** The descending loops, the counter as a natural number. *)
Fixpoint find_max_divisor_go (val : Z) (n : nat) : Z :=
  match n with
  | O => 1
  | S m =>
      let find_divisor := Z.of_nat n in
      if (find_divisor =? 7) || (find_divisor =? 5) then find_max_divisor_go val m
      else if val mod find_divisor =? 0 then find_divisor
      else find_max_divisor_go val m
  end.

Definition find_max_divisor (val start_max_div : Z) : Z := find_max_divisor_go val (Z.to_nat (i32 start_max_div)).

Fixpoint find_max_block_size_go (val : Z) (n : nat) : Z :=
  match n with
  | O => 1
  | S m => if val mod Z.of_nat n =? 0 then Z.of_nat n else find_max_block_size_go val m
  end.

Definition find_max_block_size (val max_block_size : Z) : Z :=
  find_max_block_size_go val (Z.to_nat (i32 max_block_size)).

(** ** Runs of cores *)

(** The state of the three stages: ranges so far, next core, cores left. *)
Record run_state := mkRun { all_cores : list CoreRange; s_core : CoreCoord; leftover_size : Z }.

Definition take_range (s e next : CoreCoord) (st : run_state) : res run_state :=
  r ← CoreRange_ctor s e;
  mret (mkRun (all_cores st ++ [r]) next (u32 (leftover_size st - CoreRange_size r))).

(** Partial row at start *)
Definition part_row (start_core : CoreCoord) (num_cores_x : Z) (st : run_state) : res run_state :=
  if negb (cx (s_core st) =? 0) && (u64 (num_cores_x - cx start_core) <? leftover_size st) then
    take_range (s_core st) (mkCoord (u32 (num_cores_x - 1)) (cy (s_core st)))
      (mkCoord 0 (u64 (cy (s_core st) + 1))) st
  else mret st.

(** Full rows *)
Definition full_rows (num_cores_x : Z) (st : run_state) : res run_state :=
  if num_cores_x <? leftover_size st then
    check Undefined (negb (num_cores_x =? 0));;
    let num_full_rows := leftover_size st / num_cores_x in
    take_range (s_core st) (mkCoord (u32 (num_cores_x - 1)) (u64 (cy (s_core st) + num_full_rows - 1)))
      (mkCoord 0 (u64 (cy (s_core st) + num_full_rows))) st
  else mret st.

(** Partial row at end *)
Definition last_row (st : run_state) : res run_state :=
  if 0 <? leftover_size st then
    r ← CoreRange_ctor (s_core st) (mkCoord (u64 (cx (s_core st) + leftover_size st - 1)) (cy (s_core st)));
    mret (mkRun (all_cores st ++ [r]) (s_core st) (leftover_size st))
  else mret st.

Definition rows_of_cores (start_core : CoreCoord) (num_cores_x : Z) (st : run_state) : res run_state :=
  st ← part_row start_core num_cores_x st;
  st ← full_rows num_cores_x st;
  last_row st.

(** Partial col at start *)
Definition part_col (start_core : CoreCoord) (num_cores_y : Z) (st : run_state) : res run_state :=
  if negb (cy (s_core st) =? 0) && (u64 (num_cores_y - cy start_core) <? leftover_size st) then
    take_range (s_core st) (mkCoord (cx (s_core st)) (u32 (num_cores_y - 1)))
      (mkCoord (u64 (cx (s_core st) + 1)) 0) st
  else mret st.

(** Full cols *)
Definition full_cols (num_cores_y : Z) (st : run_state) : res run_state :=
  if num_cores_y <? leftover_size st then
    check Undefined (negb (num_cores_y =? 0));;
    let num_full_cols := leftover_size st / num_cores_y in
    take_range (s_core st) (mkCoord (u64 (cx (s_core st) + num_full_cols - 1)) (u32 (num_cores_y - 1)))
      (mkCoord (u64 (cx (s_core st) + num_full_cols)) 0) st
  else mret st.

(** Partial col at end *)
Definition last_col (st : run_state) : res run_state :=
  if 0 <? leftover_size st then
    r ← CoreRange_ctor (s_core st) (mkCoord (cx (s_core st)) (u64 (cy (s_core st) + leftover_size st - 1)));
    mret (mkRun (all_cores st ++ [r]) (s_core st) (leftover_size st))
  else mret st.

Definition cols_of_cores (start_core : CoreCoord) (num_cores_y : Z) (st : run_state) : res run_state :=
  st ← part_col start_core num_cores_y st;
  st ← full_cols num_cores_y st;
  last_col st.

Definition num_cores_to_corerangeset_from (start_core : CoreCoord) (target_num_cores : Z) (grid_size : CoreCoord)
    (row_wise : bool) : res CoreRangeSet :=
  let num_cores_x := u32 (cx grid_size) in
  let num_cores_y := u32 (cy grid_size) in
  check Fatal ((cx start_core <? num_cores_x) && (cy start_core <? num_cores_y));;
  let total_available_cores :=
    if row_wise then u32 (u32 (u64 (u64 (num_cores_y - 1 - cy start_core) * num_cores_x)) + (num_cores_x - cx start_core))
    else u32 (u32 (u64 (u64 (num_cores_x - 1 - cx start_core) * num_cores_y)) + (num_cores_y - cy start_core)) in
  check Fatal (target_num_cores <=? total_available_cores);;
  let st := mkRun [] start_core target_num_cores in
  st ← (if row_wise then rows_of_cores start_core num_cores_x st else cols_of_cores start_core num_cores_y st);
  CoreRangeSet_ctor (all_cores st).

Definition num_cores_to_corerangeset (target_num_cores : Z) (grid_size : CoreCoord) (row_wise : bool) : res CoreRangeSet :=
  num_cores_to_corerangeset_from (mkCoord 0 0) target_num_cores grid_size row_wise.

(** ** Runs of cores inside given subgrids *)

Record subgrid_state := mkSub {
  result_coreranges : list CoreRange;
  current_start_core : CoreCoord;
  current_end_core : CoreCoord;
  remaining_cores : Z;
}.

(** The pending block is pushed when its two corners differ. *)
Definition push_pending (st : subgrid_state) : res subgrid_state :=
  if bool_decide (current_start_core st = current_end_core st) then mret st
  else
    r ← CoreRange_ctor (current_start_core st) (current_end_core st);
    mret (mkSub (result_coreranges st ++ [r]) (current_start_core st) (current_end_core st) (remaining_cores st)).

Definition row_step (subcoregrid : CoreRange) (yy : Z) (st : subgrid_state) : res subgrid_state :=
  let subcoregrid_width := u32 (cx (CoreRange_grid_size subcoregrid)) in
  let current_width :=
    Z.min (u32 (u64 (cx (end_coord subcoregrid) - cx (current_start_core st) + 1))) (remaining_cores st) in
  if current_width <? subcoregrid_width then
    st ← push_pending st;
    let current_end := mkCoord (u64 (cx (current_start_core st) + current_width - 1)) yy in
    r ← CoreRange_ctor (mkCoord (cx (current_start_core st)) yy) (mkCoord (cx current_end) yy);
    let next := mkCoord (cx (start_coord subcoregrid)) (u32 (yy + 1)) in
    mret (mkSub (result_coreranges st ++ [r]) next next (u32 (remaining_cores st - current_width)))
  else
    mret (mkSub (result_coreranges st) (current_start_core st) (mkCoord (cx (end_coord subcoregrid)) yy)
            (u32 (remaining_cores st - current_width))).

Definition col_step (subcoregrid : CoreRange) (xx : Z) (st : subgrid_state) : res subgrid_state :=
  let subcoregrid_height := u32 (cy (CoreRange_grid_size subcoregrid)) in
  let current_height :=
    Z.min (u32 (u64 (cy (end_coord subcoregrid) - cy (current_start_core st) + 1))) (remaining_cores st) in
  if current_height <? subcoregrid_height then
    st ← push_pending st;
    let current_end := mkCoord xx (u64 (cy (current_start_core st) + current_height - 1)) in
    r ← CoreRange_ctor (mkCoord xx (cy (current_start_core st))) (mkCoord xx (cy current_end));
    let next := mkCoord (u32 (xx + 1)) (cy (start_coord subcoregrid)) in
    mret (mkSub (result_coreranges st ++ [r]) next next (u32 (remaining_cores st - current_height)))
  else
    mret (mkSub (result_coreranges st) (current_start_core st) (mkCoord xx (cy (end_coord subcoregrid)))
            (u32 (remaining_cores st - current_height))).

(** The loop over the rows (or columns) of a subgrid, left when no cores remain. *)
Fixpoint process_lines (step : Z -> subgrid_state -> res subgrid_state) (lines : list Z) (st : subgrid_state)
    : res subgrid_state :=
  match lines with
  | [] => mret st
  | l :: lines => if remaining_cores st =? 0 then mret st else st ← step l st; process_lines step lines st
  end.

Definition process_row_wise (subcoregrid : CoreRange) (st : subgrid_state) : res subgrid_state :=
  st ← process_lines (row_step subcoregrid)
         (zrange (u32 (cy (current_start_core st))) (cy (end_coord subcoregrid) + 1)) st;
  push_pending st.

Definition process_col_wise (subcoregrid : CoreRange) (st : subgrid_state) : res subgrid_state :=
  st ← process_lines (col_step subcoregrid)
         (zrange (u32 (cx (current_start_core st))) (cx (end_coord subcoregrid) + 1)) st;
  push_pending st.

Fixpoint process_subgrids (start_core : CoreCoord) (row_wise found : bool) (grids : list CoreRange)
    (st : subgrid_state) : res subgrid_state :=
  match grids with
  | [] => mret st
  | g :: grids =>
      let process := if row_wise then process_row_wise g else process_col_wise g in
      if CoreRange_contains g start_core then
        st ← process st; process_subgrids start_core row_wise true grids st
      else if found then
        st ← process (mkSub (result_coreranges st) (start_coord g) (start_coord g) (remaining_cores st));
        process_subgrids start_core row_wise true grids st
      else process_subgrids start_core row_wise false grids st
  end.

Definition num_cores_to_corerangeset_in_subcoregrids (start_core : CoreCoord) (target_num_cores : Z)
    (sub_core_grids : CoreRangeSet) (row_wise : bool) : res CoreRangeSet :=
  check Fatal (0 <? target_num_cores);;
  check Fatal (target_num_cores <=? CoreRangeSet_num_cores sub_core_grids);;
  check Fatal (CoreRangeSet_contains sub_core_grids start_core);;
  st ← process_subgrids start_core row_wise false sub_core_grids (mkSub [] start_core start_core target_num_cores);
  check Fatal (remaining_cores st =? 0);;
  CoreRangeSet_ctor (result_coreranges st).

(** ** split_work_to_cores *)

(** [*ranges().rbegin()] *)
Definition last_range (s : CoreRangeSet) : res CoreRange := opt_res Undefined (last s).

(** The [emplace_back] of ranges given by their corners. *)
Fixpoint emplace_all (corners : list (CoreCoord * CoreCoord)) : res (list CoreRange) :=
  match corners with
  | [] => mret []
  | (s, e) :: corners => r ← CoreRange_ctor s e; rs ← emplace_all corners; mret (r :: rs)
  end.

(** The corners of the ranges after the last range [g1] of the first group, up to
    the last range [all] of the grid. *)
Definition corners_after (num_cores_x num_cores_y : Z) (row_wise : bool) (g1 all : CoreRange)
    : list (CoreCoord * CoreCoord) :=
  let e := end_coord g1 in
  if row_wise then
    (* Case where only the last row is divided between core group 1 and 2 *)
    if (cy e =? cy (end_coord all)) && negb (cx e =? cx (end_coord all)) then
      [(mkCoord (u64 (cx e + 1)) (cy e), end_coord all)]
    else
      (* Case where a middle row is divided between core group 1 and 2 *)
      (if negb (cx e =? u32 (num_cores_x - 1)) then
         [(mkCoord (u64 (cx e + 1)) (cy e), mkCoord (u32 (num_cores_x - 1)) (cy e))]
       else []) ++
      (* Remaining rows of cores that does less work *)
      [(mkCoord 0 (u64 (cy e + 1)), end_coord all)]
  else
    if (cx e =? cx (end_coord all)) && negb (cy e =? cy (end_coord all)) then
      [(mkCoord (cx e) (u64 (cy e + 1)), end_coord all)]
    else
      (if negb (cy e =? u32 (num_cores_y - 1)) then
         [(mkCoord (cx e) (u64 (cy e + 1)), mkCoord (cx e) (u32 (num_cores_y - 1)))]
       else []) ++
      [(mkCoord (u64 (cx e + 1)) 0, end_coord all)].

Definition second_group (num_cores_x num_cores_y : Z) (row_wise : bool) (g1 all : CoreRange) : res CoreRangeSet :=
  ranges ← emplace_all (corners_after num_cores_x num_cores_y row_wise g1 all);
  CoreRangeSet_ctor ranges.

Record work_split := mkSplit {
  target_cores : Z;
  split_all_cores : CoreRangeSet;
  core_group_1 : CoreRangeSet;
  core_group_2 : CoreRangeSet;
  units_per_core_group_1 : Z;
  units_per_core_group_2 : Z;
}.

Definition split_work_to_cores (grid_size : CoreCoord) (units_to_divide : Z) (row_wise : bool) : res work_split :=
  let num_cores_x := u32 (cx grid_size) in
  let num_cores_y := u32 (cy grid_size) in
  let target_num_cores := Z.min units_to_divide (u32 (num_cores_x * num_cores_y)) in
  all ← num_cores_to_corerangeset target_num_cores grid_size row_wise;
  let units_1 := if target_num_cores =? 0 then 0 else units_to_divide / target_num_cores in
  if (target_num_cores =? 0) || (units_to_divide mod target_num_cores =? 0) then
    mret (mkSplit target_num_cores all all [] units_1 0)
  else
    g1 ← num_cores_to_corerangeset (units_to_divide mod target_num_cores) grid_size row_wise;
    last_1 ← last_range g1;
    last_all ← last_range all;
    g2 ← second_group num_cores_x num_cores_y row_wise last_1 last_all;
    mret (mkSplit target_num_cores all g1 g2 (u32 (units_1 + 1)) units_1).

(** ** Roundings that do not wrap *)

Lemma div_up_ok a b : 0 <= a -> 0 < b -> a + b <= 2 ^ 32 -> div_up a b = Ok ((a + b - 1) / b).
Proof.
  intros Ha Hb H. unfold div_up. rewrite (proj2 (Z.ltb_lt 0 b) Hb). cbn [check]. rewrite res_bind_ret.
  rewrite (u32_small (a + b - 1)) by (pow2; lia). rewrite u32_small; [done|].
  split; [apply Z.div_pos; lia|]. apply Z.div_lt_upper_bound; [lia|]. pow2. nia.
Qed.

Lemma round_up_ok a b : 0 <= a -> 0 < b -> a + b <= 2 ^ 32 -> round_up a b = Ok (zceil a b).
Proof.
  intros Ha Hb H. unfold round_up. rewrite div_up_ok, res_bind_ret by lia.
  replace (b * ((a + b - 1) / b)) with (zceil a b) by (unfold zceil; lia).
  destruct (zceil_spec a b Hb). by rewrite u32_small by (pow2; lia).
Qed.

