(* ===== verification/WorkSplitProps.v ===== *)
(** * Runs of cores and the split of work

    A run of cores is contiguous in row-major (or column-major) order; the proofs
    are for rows, and columns follow by exchanging the two coordinates. *)

From S2P Require Import Prelude CoreCoord WorkSplit.

(** ** Row-major runs *)

Definition row_index (gx : Z) (c : CoreCoord) : Z := cy c * gx + cx c.

Lemma row_le gx y0 x y : 0 <= x < gx -> (y0 * gx <= y * gx + x <-> y0 <= y).
Proof. intros. split; nia. Qed.
Lemma row_lt gx y1 x y : 0 <= x < gx -> (y * gx + x < y1 * gx <-> y < y1).
Proof. intros. split; nia. Qed.
Lemma row_same gx y0 x0 l x y :
  0 <= x < gx -> 0 <= x0 -> x0 + l <= gx -> 0 < l ->
  (y0 * gx + x0 <= y * gx + x < y0 * gx + x0 + l <-> y = y0 /\ x0 <= x < x0 + l).
Proof.
  intros. split; [|intros [-> ?]; lia]. intros Hb.
  assert (y0 <= y) by (apply (row_le gx y0 x y); lia).
  assert (y < y0 + 1) by (apply (row_lt gx (y0 + 1) x y); lia). split; nia.
Qed.

(** [l] is a valid set that holds the cells with row-major index in [a, b). *)
Record run_of (gx a b : Z) (l : list CoreRange) : Prop := {
  run_wf : set_wf l;
  run_cells : forall c, cell_in_set c l <-> 0 <= cx c < gx /\ a <= row_index gx c < b;
  run_area : total_area l = b - a;
  run_last : a < b -> exists r, last l = Some r /\ range_wf r /\ row_index gx (end_coord r) = b - 1;
}.

Lemma disjoint_ranges_snoc s r :
  disjoint_ranges (s ++ [r]) <-> disjoint_ranges s /\ forall r', r' ∈ s -> CoreRange_intersects r' r = false.
Proof.
  induction s as [|r0 s IH]; cbn; [set_solver|]. rewrite IH.
  setoid_rewrite elem_of_app. setoid_rewrite list_elem_of_singleton. setoid_rewrite elem_of_cons. naive_solver.
Qed.

Lemma cell_in_set_app c s t : cell_in_set c (s ++ t) <-> cell_in_set c s \/ cell_in_set c t.
Proof. unfold cell_in_set. setoid_rewrite elem_of_app. naive_solver. Qed.

Lemma cell_in_set_singleton c r : cell_in_set c [r] <-> cell_in c r.
Proof. unfold cell_in_set. setoid_rewrite list_elem_of_singleton. naive_solver. Qed.

Lemma set_wf_snoc s r :
  set_wf s -> range_wf r -> (forall c, cell_in_set c s -> cell_in c r -> False) -> set_wf (s ++ [r]).
Proof.
  intros [Hw Hd] Hr Hno. split; [by apply Forall_app; split; [|constructor]|].
  apply disjoint_ranges_snoc. split; [done|]. intros r' Hr'.
  destruct (CoreRange_intersects r' r) eqn:E; [|done]. exfalso.
  apply intersects_cell in E as (c & Hc & Hc'); [|by eapply Forall_forall in Hw|done].
  eapply Hno; [|exact Hc']. by exists r'.
Qed.

Lemma run_snoc gx a b b' l r :
  run_of gx a b l -> range_wf r -> a <= b <= b' -> area r = b' - b ->
  row_index gx (end_coord r) = b' - 1 ->
  (forall c, cell_in c r <-> 0 <= cx c < gx /\ b <= row_index gx c < b') ->
  run_of gx a b' (l ++ [r]).
Proof.
  intros [Hw Hc Ha _] Hr Hb Har Hend Hcr. constructor.
  - apply set_wf_snoc; [done|done|]. intros c Hc1 Hc2. apply Hc in Hc1. apply Hcr in Hc2. lia.
  - intros c. rewrite cell_in_set_app, cell_in_set_singleton, Hc, Hcr. lia.
  - unfold total_area in *. rewrite map_app, zsum_app, Ha. cbn. lia.
  - intros _. exists r. by rewrite last_snoc.
Qed.

Lemma run_nil gx a : run_of gx a a [].
Proof.
  constructor; [done| |cbn; lia|lia]. intros c. split; [|lia]. intros (r & Hr & _). by apply elem_of_nil in Hr.
Qed.

(** The three shapes of a run: the end of a row, full rows, the start of a row. *)
Lemma part_row_cells gx x y l c :
  0 <= x -> x + l <= gx -> 0 < l ->
  cell_in c (mkRange (mkCoord x y) (mkCoord (x + l - 1) y)) <->
  0 <= cx c < gx /\ y * gx + x <= row_index gx c < y * gx + x + l.
Proof.
  intros H1 H2 H3. unfold cell_in, row_index. cbn. split.
  - intros [? ?]. assert (cy c = y) as -> by lia. lia.
  - intros [Hc Hi]. apply row_same in Hi; lia.
Qed.

Lemma full_rows_cells gx y k c :
  0 < gx -> 0 < k ->
  cell_in c (mkRange (mkCoord 0 y) (mkCoord (gx - 1) (y + k - 1))) <->
  0 <= cx c < gx /\ y * gx <= row_index gx c < (y + k) * gx.
Proof.
  intros H1 H2. unfold cell_in, row_index. cbn. split.
  - intros [? ?]. rewrite row_le, row_lt by lia. lia.
  - intros [Hc [Hi Hj]]. rewrite row_le in Hi by lia. rewrite row_lt in Hj by lia. lia.
Qed.

Lemma CoreRange_ctor_ok s e : cx s <= cx e -> cy s <= cy e -> CoreRange_ctor s e = Ok (mkRange s e).
Proof. intros H1 H2. unfold CoreRange_ctor. rewrite (proj2 (Z.leb_le _ _) H1), (proj2 (Z.leb_le _ _) H2). done. Qed.

(** The state between two stages: the cores so far are the run from [a] to the
    next core, and the cores left reach to [a + n]. *)
Record run_stage (gx gy a n : Z) (st : run_state) : Prop := {
  stage_run : run_of gx a (row_index gx (s_core st)) (all_cores st);
  stage_le : a <= row_index gx (s_core st);
  stage_left : leftover_size st = a + n - row_index gx (s_core st);
  stage_left_pos : 0 <= leftover_size st;
  stage_room : a + n <= gx * gy;
  stage_x : 0 <= cx (s_core st) < gx;
  stage_y : 0 <= cy (s_core st);
}.

Section Rows.
Context (gx gy a n : Z).
Hypothesis Hgx : 0 < gx < 2 ^ 31.
Hypothesis Hgy : 0 < gy < 2 ^ 31.
Hypothesis Hg : gx * gy < 2 ^ 32.
Hypothesis Ha : 0 <= a.

Lemma stage_y_bound st : run_stage gx gy a n st -> 0 < leftover_size st -> cy (s_core st) < gy.
Proof. intros [_ ? H ? ? ? ?] Hl. unfold row_index in H. nia. Qed.

Lemma take_range_stage st e next :
  run_stage gx gy a n st -> range_wf (mkRange (s_core st) e) ->
  0 <= cx next < gx -> 0 <= cy next -> row_index gx next <= a + n ->
  row_index gx (s_core st) <= row_index gx next ->
  area (mkRange (s_core st) e) = row_index gx next - row_index gx (s_core st) ->
  row_index gx e = row_index gx next - 1 ->
  (forall c, cell_in c (mkRange (s_core st) e) <->
     0 <= cx c < gx /\ row_index gx (s_core st) <= row_index gx c < row_index gx next) ->
  exists st', take_range (s_core st) e next st = Ok st' /\ run_stage gx gy a n st' /\ s_core st' = next.
Proof.
  intros [Hr Hle Hl Hlp Hroom Hx Hy] Hw Hnx Hny Hnn Hmono Har Hend Hc. unfold take_range.
  pose proof Hw as (W1 & W2 & W3 & W4). cbn in W1, W2, W3, W4.
  rewrite CoreRange_ctor_ok by lia. cbn. eexists. split; [reflexivity|]. split; [|done].
  rewrite size_area, Har by done.
  assert (El : u32 (leftover_size st - (row_index gx next - row_index gx (s_core st))) = a + n - row_index gx next).
  { rewrite u32_small; [lia|]. pow2. unfold row_index in *. nia. }
  constructor; cbn; try done; try lia.
  by apply (run_snoc _ _ (row_index gx (s_core st))).
Qed.

(** The three stages, as the code writes them. *)
Lemma stage_facts st x y :
  run_stage gx gy a n st -> s_core st = mkCoord x y -> 0 < leftover_size st ->
  0 <= x < gx /\ 0 <= y < gy /\ a <= y * gx + x /\ leftover_size st = a + n - (y * gx + x).
Proof.
  intros Hs E Hl. pose proof (stage_y_bound st Hs Hl). destruct Hs as [_ H1 H2 _ _ H3 H4].
  unfold row_index in *. rewrite E in *. cbn in *. lia.
Qed.

Lemma stage_part_row st x y :
  run_stage gx gy a n st -> s_core st = mkCoord x y -> gx - x < leftover_size st ->
  exists st', take_range (mkCoord x y) (mkCoord (gx - 1) y) (mkCoord 0 (u64 (y + 1))) st = Ok st' /\
    run_stage gx gy a n st' /\ cx (s_core st') = 0.
Proof.
  intros Hs E Hlt. assert (0 < leftover_size st) as Hp by (pose proof (stage_x _ _ _ _ _ Hs) as Hx; rewrite E in Hx; cbn in Hx; lia).
  destruct (stage_facts st x y Hs E Hp) as (Hx & Hy & Hay & Hl). rewrite (u64_small (_ + 1)) by (pow2; lia).
  edestruct (take_range_stage st (mkCoord (gx - 1) y) (mkCoord 0 (y + 1)) Hs) as (st' & He & Hs' & Hn');
    rewrite ?E in *; unfold row_index, area, range_wf in *; cbn [cx cy start_coord end_coord] in *; try lia.
  - intros c. replace (gx - 1) with (x + (gx - x) - 1) by lia.
    rewrite (part_row_cells gx x y (gx - x)) by lia. unfold row_index. lia.
  - exists st'. rewrite Hn'. done.
Qed.

Lemma stage_full_rows st y :
  run_stage gx gy a n st -> s_core st = mkCoord 0 y -> gx < leftover_size st ->
  let k := leftover_size st / gx in
  exists st', take_range (mkCoord 0 y) (mkCoord (gx - 1) (u64 (y + k - 1))) (mkCoord 0 (u64 (y + k))) st = Ok st' /\
    run_stage gx gy a n st' /\ cx (s_core st') = 0 /\ leftover_size st' < gx.
Proof.
  intros Hs E Hlt k. destruct (stage_facts st 0 y Hs E ltac:(lia)) as (Hx & Hy & Hay & Hl).
  pose proof (Z.div_mod (leftover_size st) gx ltac:(lia)) as Hdm. fold k in Hdm.
  pose proof (Z.mod_pos_bound (leftover_size st) gx ltac:(lia)) as Hm.
  assert (Hk : 0 < k) by (apply Z.div_str_pos; lia).
  pose proof (stage_room _ _ _ _ _ Hs) as Hroom.
  assert (Hyk : y + k <= gy) by nia. assert (Hkg : 0 < k * gx) by nia.
  rewrite !u64_small by (pow2; lia).
  edestruct (take_range_stage st (mkCoord (gx - 1) (y + k - 1)) (mkCoord 0 (y + k)) Hs) as (st' & He & Hs' & Hn');
    rewrite ?E in *; unfold row_index, area, range_wf in *; cbn [cx cy start_coord end_coord] in *; try lia.
  - intros c. rewrite (full_rows_cells gx) by lia. unfold row_index. lia.
  - exists st'. split; [done|]. split; [done|]. rewrite Hn'. split; [done|].
    destruct Hs' as [_ _ Hl' _ _ _ _]. unfold row_index in Hl'. rewrite Hn' in Hl'. cbn in Hl'. nia.
Qed.

Lemma stage_last_row st x y :
  run_stage gx gy a n st -> s_core st = mkCoord x y -> 0 < leftover_size st <= gx - x ->
  exists r, CoreRange_ctor (mkCoord x y) (mkCoord (u64 (x + leftover_size st - 1)) y) = Ok r /\
    run_of gx a (a + n) (all_cores st ++ [r]).
Proof.
  intros Hs E Hlt. destruct (stage_facts st x y Hs E ltac:(lia)) as (Hx & Hy & Hay & Hl).
  rewrite u64_small by (pow2; lia). rewrite CoreRange_ctor_ok by (cbn; lia). eexists. split; [done|].
  pose proof (stage_run _ _ _ _ _ Hs) as Hr. rewrite E in Hr. unfold row_index in Hr. cbn [cx cy] in Hr.
  apply (run_snoc _ _ _ _ _ _ Hr); [unfold range_wf; cbn; lia|lia|unfold area; cbn; lia|unfold row_index; cbn; lia|].
  intros c. rewrite (part_row_cells gx) by lia. lia.
Qed.

Lemma part_row_ok st :
  run_stage gx gy a n st ->
  exists st', part_row (s_core st) gx st = Ok st' /\ run_stage gx gy a n st' /\
    (cx (s_core st') = 0 \/ leftover_size st' <= gx - cx (s_core st')).
Proof.
  intros Hs. unfold part_row. rewrite (u32_small (gx - 1)) by (pow2; lia).
  pose proof (stage_x _ _ _ _ _ Hs). rewrite (u64_small (gx - _)) by (pow2; lia).
  destruct (s_core st) as [x y] eqn:E. cbn [cx cy] in *.
  destruct (Z.eqb_spec x 0); destruct (Z.ltb_spec (gx - x) (leftover_size st)); cbn [negb andb];
    try (exists st; rewrite E; cbn; split_and!; [done|done|lia]).
  destruct (stage_part_row st x y Hs E ltac:(done)) as (st' & He & Hs' & Hz). eauto.
Qed.

Lemma full_rows_ok st :
  run_stage gx gy a n st -> (cx (s_core st) = 0 \/ leftover_size st <= gx - cx (s_core st)) ->
  exists st', full_rows gx st = Ok st' /\ run_stage gx gy a n st' /\ leftover_size st' <= gx - cx (s_core st').
Proof.
  intros Hs Hc. unfold full_rows. rewrite (u32_small (gx - 1)) by (pow2; lia).
  pose proof (stage_x _ _ _ _ _ Hs) as Hx.
  destruct (Z.ltb_spec gx (leftover_size st)); [|exists st; split_and!; [done|done|lia]].
  rewrite (proj2 (Z.eqb_neq gx 0)) by lia. destruct (s_core st) as [x y] eqn:E. cbn [cx cy] in *.
  assert (x = 0) as -> by lia.
  destruct (stage_full_rows st y Hs E ltac:(done)) as (st' & He & Hs' & Hz & Hl).
  exists st'. split; [exact He|]. split; [done|]. rewrite Hz. lia.
Qed.

Lemma last_row_ok st :
  run_stage gx gy a n st -> leftover_size st <= gx - cx (s_core st) ->
  exists st', last_row st = Ok st' /\ run_of gx a (a + n) (all_cores st').
Proof.
  intros Hs Hc. unfold last_row. destruct (Z.ltb_spec 0 (leftover_size st)).
  - destruct (s_core st) as [x y] eqn:E. cbn [cx cy] in *.
    destruct (stage_last_row st x y Hs E ltac:(lia)) as (r & -> & Hr). by eexists.
  - exists st. split; [done|]. destruct Hs as [Hr _ Hl Hp _ _ _].
    by replace (a + n) with (row_index gx (s_core st)) by lia.
Qed.

Lemma rows_of_cores_ok start :
  0 <= cx start < gx -> 0 <= cy start -> a = row_index gx start -> 0 <= n -> a + n <= gx * gy ->
  exists st, rows_of_cores start gx (mkRun [] start n) = Ok st /\ run_of gx a (a + n) (all_cores st).
Proof.
  intros Hx Hy Ea Hn Hroom.
  assert (H0 : run_stage gx gy a n (mkRun [] start n)) by (constructor; cbn; try lia; subst a; apply run_nil).
  destruct (part_row_ok _ H0) as (st1 & E1 & H1 & C1).
  destruct (full_rows_ok _ H1 C1) as (st2 & E2 & H2 & C2).
  destruct (last_row_ok _ H2 C2) as (st3 & E3 & H3).
  exists st3. split; [|done]. unfold rows_of_cores. cbn [s_core] in E1. by rewrite E1, res_bind_ret, E2, res_bind_ret.
Qed.
End Rows.

(** ** Exchanging the coordinates *)

Definition tr (c : CoreCoord) : CoreCoord := mkCoord (cy c) (cx c).
Definition trr (r : CoreRange) : CoreRange := mkRange (tr (start_coord r)) (tr (end_coord r)).
Definition tr_run (st : run_state) : run_state := mkRun (map trr (all_cores st)) (tr (s_core st)) (leftover_size st).

Lemma trr_trr s : map trr (map trr s) = s.
Proof. rewrite map_map. rewrite (map_ext _ id); [apply map_id|]. by intros [[] []]. Qed.

Lemma ctor_tr s e : CoreRange_ctor (tr s) (tr e) = trr <$> CoreRange_ctor s e.
Proof. unfold CoreRange_ctor. cbn. rewrite andb_comm. by destruct ((cx s <=? cx e) && (cy s <=? cy e)). Qed.

Lemma size_tr r : CoreRange_size (trr r) = CoreRange_size r.
Proof. unfold CoreRange_size. cbn. by rewrite Z.mul_comm. Qed.

Lemma area_tr r : area (trr r) = area r.
Proof. unfold area. cbn. by rewrite Z.mul_comm. Qed.

Lemma intersects_tr a b : CoreRange_intersects (trr a) (trr b) = CoreRange_intersects a b.
Proof.
  unfold CoreRange_intersects. cbn. f_equal.
  by destruct (_ <? _), (_ <? _), (_ <? _), (_ <? _).
Qed.

Lemma set_ctor_tr s : CoreRangeSet_ctor (map trr s) = map trr <$> CoreRangeSet_ctor s.
Proof.
  unfold CoreRangeSet_ctor.
  enough (validate_no_overlap (map trr s) = validate_no_overlap s) as -> by (by destruct (validate_no_overlap s)).
  induction s as [|r s IH]; [done|]. cbn [map validate_no_overlap]. rewrite IH.
  enough (existsb (CoreRange_intersects (trr r)) (map trr s) = existsb (CoreRange_intersects r) s) as -> by done.
  clear IH. induction s as [|r' s IH]; [done|]. cbn. by rewrite IH, intersects_tr.
Qed.

Lemma range_wf_tr r : range_wf (trr r) <-> range_wf r.
Proof. unfold range_wf. cbn. tauto. Qed.

Lemma set_wf_tr s : set_wf (map trr s) <-> set_wf s.
Proof.
  unfold set_wf. rewrite Forall_map. f_equiv.
  - split; intros H; (eapply Forall_impl; [exact H|]); intros r Hr; by apply range_wf_tr.
  - induction s as [|r s IH]; [done|]. cbn. rewrite IH. f_equiv. setoid_rewrite elem_of_map. split.
    + intros H r' Hr'. rewrite <- intersects_tr. apply H. eauto.
    + intros H r' (r0 & -> & Hr'). rewrite intersects_tr. auto.
Qed.

Lemma cell_in_tr c r : cell_in (tr c) (trr r) <-> cell_in c r.
Proof. unfold cell_in. cbn. tauto. Qed.

Lemma cell_in_set_tr c s : cell_in_set (tr c) (map trr s) <-> cell_in_set c s.
Proof.
  unfold cell_in_set. setoid_rewrite elem_of_map. split.
  - intros (r & (r' & -> & Hr) & Hc). exists r'. by rewrite cell_in_tr in Hc.
  - intros (r & Hr & Hc). exists (trr r). rewrite cell_in_tr. eauto.
Qed.

Lemma total_area_tr s : total_area (map trr s) = total_area s.
Proof. unfold total_area. rewrite map_map. f_equal. apply map_ext, area_tr. Qed.

Lemma take_range_tr s e next st :
  take_range (tr s) (tr e) (tr next) (tr_run st) = tr_run <$> take_range s e next st.
Proof.
  unfold take_range. rewrite ctor_tr, res_bind_fmap, res_fmap_bind. apply res_bind_ext. intros r.
  unfold tr_run. cbn. by rewrite size_tr, map_app.
Qed.

Lemma part_col_tr start g st : part_col (tr start) g (tr_run st) = tr_run <$> part_row start g st.
Proof. unfold part_col, part_row. cbn. case_match; [|done]. by rewrite <- take_range_tr. Qed.

Lemma full_cols_tr g st : full_cols g (tr_run st) = tr_run <$> full_rows g st.
Proof.
  unfold full_cols, full_rows. cbn [leftover_size tr_run]. case_match; [|done].
  rewrite res_fmap_bind. apply res_bind_ext. intros []. by rewrite <- take_range_tr.
Qed.

Lemma last_col_tr st : last_col (tr_run st) = tr_run <$> last_row st.
Proof.
  unfold last_col, last_row. cbn [leftover_size tr_run]. case_match; [|done].
  change (CoreRange_ctor _ _) with (CoreRange_ctor (tr (s_core st))
    (tr (mkCoord (u64 (cx (s_core st) + leftover_size st - 1)) (cy (s_core st))))) at 1.
  rewrite ctor_tr, res_bind_fmap, res_fmap_bind. apply res_bind_ext. intros r. unfold tr_run. cbn. by rewrite map_app.
Qed.

Lemma cols_of_rows start g st : cols_of_cores (tr start) g (tr_run st) = tr_run <$> rows_of_cores start g st.
Proof.
  unfold cols_of_cores, rows_of_cores. rewrite part_col_tr, res_bind_fmap, res_fmap_bind. apply res_bind_ext.
  intros st1. rewrite full_cols_tr, res_bind_fmap, res_fmap_bind. apply res_bind_ext. intros st2. apply last_col_tr.
Qed.

Lemma from_tr start n grid :
  num_cores_to_corerangeset_from (tr start) n (tr grid) false =
  map trr <$> num_cores_to_corerangeset_from start n grid true.
Proof.
  unfold num_cores_to_corerangeset_from. cbn [cx cy tr]. rewrite andb_comm, res_fmap_bind. apply res_bind_ext. intros [].
  rewrite res_fmap_bind. apply res_bind_ext. intros [].
  change (mkRun [] (tr start) n) with (tr_run (mkRun [] start n)). rewrite cols_of_rows, res_bind_fmap, res_fmap_bind.
  apply res_bind_ext. intros st. apply set_ctor_tr.
Qed.

(** ** The run of cores of a grid *)

Definition grid_ok (g : CoreCoord) : Prop := 0 < cx g < 2 ^ 31 /\ 0 < cy g < 2 ^ 31 /\ cx g * cy g < 2 ^ 32.
Definition in_grid (g c : CoreCoord) : Prop := 0 <= cx c < cx g /\ 0 <= cy c < cy g.

(** Position of a core along the lines of the grid. *)
Definition line_index (row_wise : bool) (g c : CoreCoord) : Z :=
  if row_wise then cy c * cx g + cx c else cx c * cy g + cy c.

(** [s] is a valid set of the cores at positions [a, b). *)
Record covers (row_wise : bool) (g : CoreCoord) (a b : Z) (s : CoreRangeSet) : Prop := {
  covers_wf : set_wf s;
  covers_cells : forall c, cell_in_set c s <-> in_grid g c /\ a <= line_index row_wise g c < b;
  covers_area : total_area s = b - a;
  covers_last : a < b -> exists r, last s = Some r /\ line_index row_wise g (end_coord r) = b - 1;
}.

Lemma set_ctor_wf s : set_wf s -> CoreRangeSet_ctor s = Ok s.
Proof.
  intros [_ Hd]. unfold CoreRangeSet_ctor. destruct (validate_no_overlap s) eqn:E; [done|].
  apply (validate_no_overlap_ok s ()) in Hd. congruence.
Qed.

Lemma covers_tr g a b s : covers true g a b s -> covers false (tr g) a b (map trr s).
Proof.
  intros [Hw Hc Ha Hl]. constructor; [by apply set_wf_tr| |by rewrite total_area_tr|].
  2: { intros H. destruct (Hl H) as (r & Hr & Hi). exists (trr r). by rewrite fmap_last, Hr. }
  intros c. replace c with (tr (tr c)) by by destruct c. rewrite cell_in_set_tr, Hc.
  unfold in_grid, line_index. cbn. tauto.
Qed.

Lemma run_from_rows start n g :
  grid_ok g -> in_grid g start -> 0 <= n -> line_index true g start + n <= cx g * cy g ->
  exists s, num_cores_to_corerangeset_from start n g true = Ok s /\
    covers true g (line_index true g start) (line_index true g start + n) s.
Proof.
  intros (Hx & Hy & Hxy) (Sx & Sy) Hn Hroom. unfold line_index in Hroom.
  destruct (rows_of_cores_ok (cx g) (cy g) (line_index true g start) n Hx Hy Hxy) with (start := start)
    as (st & He & [Hr Hc Ha Hlast]); try done; try (unfold line_index; nia).
  exists (all_cores st). split.
  - unfold num_cores_to_corerangeset_from. rewrite (u32_small (cx g)), (u32_small (cy g)) by (pow2; lia).
    rewrite (proj2 (Z.ltb_lt _ _)), (proj2 (Z.ltb_lt _ _)) by lia. cbn [andb check]. rewrite res_bind_ret.
    rewrite (u64_small (cy g - 1 - cy start)) by (pow2; lia).
    assert (0 <= (cy g - 1 - cy start) * cx g <= cx g * cy g) by nia.
    rewrite (u64_small (_ * _)), (u32_small (_ * _)), u32_small by (pow2; nia).
    rewrite (proj2 (Z.leb_le n _)) by nia. cbn [check]. rewrite res_bind_ret, He, res_bind_ret.
    by apply set_ctor_wf.
  - constructor; [done| |unfold line_index in *; lia|].
    2: { intros H. destruct (Hlast H) as (r & Hl & _ & Hi). by exists r. }
    intros c. rewrite Hc. unfold in_grid, line_index, row_index in *.
    split; [|tauto]. intros [H1 H2]. split; [|lia]. split; [lia|]. nia.
Qed.

Lemma run_from start n g rw :
  grid_ok g -> in_grid g start -> 0 <= n -> line_index rw g start + n <= cx g * cy g ->
  exists s, num_cores_to_corerangeset_from start n g rw = Ok s /\
    covers rw g (line_index rw g start) (line_index rw g start + n) s.
Proof.
  destruct rw; [apply run_from_rows|]. intros (Hx & Hy & Hxy) (Sx & Sy) Hn Hroom.
  destruct (run_from_rows (tr start) n (tr g)) as (s & He & Hc); unfold grid_ok, in_grid, line_index in *; cbn in *; try lia.
  exists (map trr s). split.
  - pose proof (from_tr (tr start) n (tr g)) as Ht. rewrite He in Ht. destruct start, g. exact Ht.
  - apply covers_tr in Hc. destruct g. exact Hc.
Qed.

(** ** The second group *)

Lemma covers_end rw g a b s :
  covers rw g a b s -> a < b ->
  exists r, last s = Some r /\ in_grid g (end_coord r) /\ line_index rw g (end_coord r) = b - 1.
Proof.
  intros [Hw Hc _ Hl] Hab. destruct (Hl Hab) as (r & Hr & Hi). exists r. split; [done|]. split; [|done].
  apply last_Some_elem_of in Hr. apply Hc. exists r. split; [done|].
  pose proof (set_wf_elem _ _ Hw Hr). unfold range_wf, cell_in in *. lia.
Qed.

Lemma emplace_all_tr l :
  emplace_all (map (fun p => (tr p.1, tr p.2)) l) = map trr <$> emplace_all l.
Proof.
  induction l as [|[s e] l IH]; [done|]. cbn [map emplace_all fst snd]. rewrite ctor_tr, res_bind_fmap, res_fmap_bind.
  apply res_bind_ext. intros r. rewrite IH, res_bind_fmap, res_fmap_bind. by apply res_bind_ext.
Qed.

Lemma second_group_tr gx gy g1 all :
  second_group gx gy false (trr g1) (trr all) = map trr <$> second_group gy gx true g1 all.
Proof.
  unfold second_group. rewrite res_fmap_bind.
  assert (corners_after gx gy false (trr g1) (trr all) =
    map (fun p => (tr p.1, tr p.2)) (corners_after gy gx true g1 all)) as ->.
  { unfold corners_after. cbn. destruct (_ && _); [done|]. by destruct (negb _). }
  rewrite emplace_all_tr, res_bind_fmap. apply res_bind_ext. intros rs. apply set_ctor_tr.
Qed.

Lemma emplace_all_ok l :
  Forall (fun p => cx p.1 <= cx p.2 /\ cy p.1 <= cy p.2) l ->
  emplace_all l = Ok (map (fun p => mkRange p.1 p.2) l).
Proof.
  induction 1 as [|[s e] l [H1 H2] _ IH]; [done|]. cbn [emplace_all map fst snd] in *.
  by rewrite CoreRange_ctor_ok, IH.
Qed.

Lemma second_group_rows g r g1 all :
  grid_ok g -> in_grid g (end_coord g1) -> in_grid g (end_coord all) -> 0 < r < cx g * cy g ->
  line_index true g (end_coord g1) = r - 1 -> line_index true g (end_coord all) = cx g * cy g - 1 ->
  exists s, second_group (cx g) (cy g) true g1 all = Ok s /\ run_of (cx g) r (cx g * cy g) s.
Proof.
  intros (Hx & Hy & Hxy) (X1 & Y1) (X2 & Y2) Hr H1 H2. unfold line_index in *.
  assert (cy (end_coord all) = cy g - 1 /\ cx (end_coord all) = cx g - 1) as [Ey Ex] by nia.
  destruct (end_coord all) as [xa ya] eqn:E2. cbn [cx cy] in *. subst xa ya. clear X2 Y2 H2.
  destruct (end_coord g1) as [x y] eqn:E1. cbn [cx cy] in *. unfold second_group, corners_after.
  rewrite E1, E2. cbn [cx cy]. rewrite (u64_small (x + 1)), (u64_small (y + 1)), (u32_small (cx g - 1)) by (pow2; lia).
  pose proof (run_nil (cx g) r) as R0.
  assert (Rmid : x < cx g - 1 -> run_of (cx g) r ((y + 1) * cx g) [mkRange (mkCoord (x + 1) y) (mkCoord (cx g - 1) y)]).
  { intros Hlt. apply (run_snoc _ _ _ _ _ _ R0); unfold range_wf, area, row_index; cbn; try nia.
    intros c. replace (cx g - 1) with (x + 1 + (cx g - 1 - x) - 1) by lia. rewrite (part_row_cells (cx g)) by lia.
    unfold row_index. nia. }
  assert (Rest : y < cy g - 1 -> forall l, run_of (cx g) r ((y + 1) * cx g) l ->
    run_of (cx g) r (cx g * cy g) (l ++ [mkRange (mkCoord 0 (y + 1)) (mkCoord (cx g - 1) (cy g - 1))])).
  { intros Hlt l Hl. apply (run_snoc _ _ _ _ _ _ Hl); unfold range_wf, area, row_index; cbn; try nia.
    intros c. replace (cy g - 1) with (y + 1 + (cy g - 1 - y) - 1) by lia. rewrite (full_rows_cells (cx g)) by lia.
    unfold row_index. nia. }
  assert (Hfin : forall l s, emplace_all l = Ok s -> run_of (cx g) r (cx g * cy g) s ->
    exists s, (ranges ← emplace_all l; CoreRangeSet_ctor ranges) = Ok s /\ run_of (cx g) r (cx g * cy g) s).
  { intros l s He Hs. exists s. rewrite He, res_bind_ret. split; [|done]. apply set_ctor_wf, Hs. }
  destruct (Z.eqb_spec y (cy g - 1)); destruct (Z.eqb_spec x (cx g - 1)); cbn [negb andb]; [nia|..].
  - eapply Hfin; [apply emplace_all_ok; repeat constructor; cbn; lia|]. cbn.
    replace (cx g * cy g) with ((y + 1) * cx g) by nia. subst y. apply Rmid. lia.
  - eapply Hfin; [apply emplace_all_ok; repeat constructor; cbn; lia|]. cbn. apply (Rest ltac:(lia) []).
    by replace ((y + 1) * cx g) with r by nia.
  - eapply Hfin; [apply emplace_all_ok; repeat constructor; cbn; lia|]. cbn. apply (Rest ltac:(lia) [_]), Rmid. lia.
Qed.

Lemma second_group_ok rw g r g1 all :
  grid_ok g -> in_grid g (end_coord g1) -> in_grid g (end_coord all) -> 0 < r < cx g * cy g ->
  line_index rw g (end_coord g1) = r - 1 -> line_index rw g (end_coord all) = cx g * cy g - 1 ->
  exists s, second_group (cx g) (cy g) rw g1 all = Ok s /\ covers rw g r (cx g * cy g) s.
Proof.
  assert (Hrow : forall g g1 all, grid_ok g -> in_grid g (end_coord g1) -> in_grid g (end_coord all) ->
    0 < r < cx g * cy g -> line_index true g (end_coord g1) = r - 1 ->
    line_index true g (end_coord all) = cx g * cy g - 1 ->
    exists s, second_group (cx g) (cy g) true g1 all = Ok s /\ covers true g r (cx g * cy g) s).
  { clear. intros g g1 all Hg H1 H2 Hr H3 H4. destruct (second_group_rows g r g1 all Hg H1 H2 Hr H3 H4) as (s & He & [Hw Hc Ha Hl]).
    exists s. split; [done|]. constructor; [done| |done|].
    - intros c. rewrite Hc. unfold in_grid, line_index, row_index. destruct Hg as (? & ? & ?). split; [|tauto].
      intros [? ?]. split; [|lia]. split; [lia|]. nia.
    - intros H. destruct (Hl H) as (x & ? & _ & ?). by exists x. }
  destruct rw; [apply Hrow|]. intros Hg H1 H2 Hr H3 H4.
  destruct (Hrow (tr g) (trr g1) (trr all)) as (s & He & Hc);
    try (unfold grid_ok, in_grid, line_index in *; cbn; lia).
  exists (map trr s). split.
  - pose proof (second_group_tr (cx g) (cy g) (trr g1) (trr all)) as Ht.
    change (cx (tr g)) with (cy g) in He. change (cy (tr g)) with (cx g) in He. rewrite He in Ht.
    destruct g1 as [[] []], all as [[] []]. exact Ht.
  - apply covers_tr in Hc. cbn in Hc. rewrite Z.mul_comm in Hc. by destruct g.
Qed.

(** C27: The split of work.  Given a grid and a number of units, the cores used are
    the first min(units, cores) in line order; they fall into two disjoint groups,
    a first run and the rest, in which each core gets the same number of units, the
    first group one more than the second; the units given out are exactly the units
    asked for. *)
Theorem split_work_exact g units rw :
  grid_ok g -> 0 <= units < 2 ^ 32 ->
  exists w k, split_work_to_cores g units rw = Ok w /\
    let n := Z.min units (cx g * cy g) in
    target_cores w = n /\ covers rw g 0 n (split_all_cores w) /\
    covers rw g 0 k (core_group_1 w) /\ covers rw g k n (core_group_2 w) /\
    k * units_per_core_group_1 w + (n - k) * units_per_core_group_2 w = units /\
    (k < n -> units_per_core_group_1 w = units_per_core_group_2 w + 1).
Proof.
  intros Hg Hu. pose proof Hg as (Hx & Hy & Hxy). unfold split_work_to_cores.
  rewrite (u32_small (cx g)), (u32_small (cy g)) by (pow2; lia). rewrite (u32_small (_ * _)) by (pow2; nia).
  set (n := Z.min units (cx g * cy g)). assert (Hn : 0 <= n <= cx g * cy g) by nia.
  assert (H0 : in_grid g (mkCoord 0 0)) by (unfold in_grid; cbn; lia).
  assert (Hrun : forall m, 0 <= m <= cx g * cy g -> exists s, num_cores_to_corerangeset m g rw = Ok s /\ covers rw g 0 m s).
  { intros m Hm. destruct (run_from (mkCoord 0 0) m g rw Hg H0) as (s & He & Hc);
      [lia|unfold line_index; destruct rw; cbn; lia|].
    exists s. split; [done|]. unfold line_index in Hc. destruct rw; cbn in Hc; by rewrite Z.add_0_l in Hc. }
  destruct (Hrun n Hn) as (all & Hall & Call). rewrite Hall, res_bind_ret.
  destruct (Z.eqb_spec n 0) as [Hz|Hz]; cbn [orb].
  - eexists _, 0. split; [reflexivity|]. cbn. rewrite Hz in *. split_and!; try done; try nia.
    constructor; [done| |done|lia]. intros c. split; [|lia]. by intros (r & Hr%elem_of_nil & _).
  - pose proof (Z.div_mod units n Hz) as Hdm. pose proof (Z.mod_pos_bound units n ltac:(lia)) as Hm.
    destruct (Z.eqb_spec (units mod n) 0) as [He|He].
    + eexists _, n. split; [reflexivity|]. cbn. split_and!; try done; try nia.
      constructor; [done| |cbn; lia|lia]. intros c. split; [|lia]. by intros (r & Hr%elem_of_nil & _).
    + assert (En : n = cx g * cy g).
      { unfold n in *. destruct (Z.min_spec units (cx g * cy g)) as [[? E]|[? E]]; rewrite E in *; [|done].
        rewrite Z.mod_same in He by lia. done. }
      destruct (Hrun (units mod n)) as (s1 & Hs1 & C1); [lia|]. rewrite Hs1, res_bind_ret.
      destruct (covers_end _ _ _ _ _ C1) as (r1 & L1 & G1 & I1); [lia|].
      destruct (covers_end _ _ _ _ _ Call) as (ra & La & Ga & Ia); [lia|].
      unfold last_range. rewrite L1, La. cbn [opt_res]. rewrite !res_bind_ret.
      destruct (second_group_ok rw g (units mod n) r1 ra Hg G1 Ga) as (s2 & Hs2 & C2); [lia|done|lia|].
      rewrite Hs2, res_bind_ret. eexists _, (units mod n). split; [reflexivity|]. cbn. rewrite En in C2 |- *.
      rewrite <- En. assert (0 <= units / n < 2 ^ 31 * 2 - 1).
      { split; [apply Z.div_pos; lia|]. assert (1 < n) by nia. pow2. nia. }
      rewrite (u32_small (_ + 1)) by (pow2; lia). split_and!; try done; try nia. by rewrite En in *.
Qed.

Lemma split_work_exact_witness :
  exists w k, split_work_to_cores (mkCoord 8 8) 100 false = Ok w /\ covers false (mkCoord 8 8) 0 k (core_group_1 w) /\
    k * units_per_core_group_1 w + (64 - k) * units_per_core_group_2 w = 100.
Proof.
  destruct (split_work_exact (mkCoord 8 8) 100 false) as (w & k & He & _ & _ & H1 & _ & H2 & _);
    [unfold grid_ok; cbn; lia|lia|]. exists w, k. split; [exact He|]. split; [exact H1|exact H2].
Defined.

(** A run of cores.  From any start core of the grid, the code returns a valid
    set of exactly the next [n] cores in line order when that many are left, and
    reports an error when they are not. *)
Theorem run_of_cores start n g rw :
  grid_ok g -> in_grid g start -> 0 <= n ->
  (line_index rw g start + n <= cx g * cy g ->
   exists s, num_cores_to_corerangeset_from start n g rw = Ok s /\ CoreRangeSet_num_cores s = n /\
     forall c, CoreRangeSet_contains s c = true <->
       in_grid g c /\ line_index rw g start <= line_index rw g c < line_index rw g start + n) /\
  (cx g * cy g < line_index rw g start + n -> num_cores_to_corerangeset_from start n g rw = Err Fatal).
Proof.
  intros Hg Hs Hn. split.
  - intros Hroom. destruct (run_from start n g rw Hg Hs Hn Hroom) as (s & He & [Hw Hc Ha _]). exists s.
    split; [done|]. destruct Hg as (Hx & Hy & Hxy). destruct Hs as [? ?]. split.
    + rewrite num_cores_area; [lia|apply Hw|]. rewrite Ha. unfold line_index in *. destruct rw; nia.
    + intros c. by rewrite set_contains_cell.
  - intros Hroom. destruct Hg as (Hx & Hy & Hxy), Hs as [Sx Sy]. unfold num_cores_to_corerangeset_from.
    rewrite (u32_small (cx g)), (u32_small (cy g)) by (pow2; lia).
    rewrite (proj2 (Z.ltb_lt _ _)), (proj2 (Z.ltb_lt _ _)) by lia. cbn [andb check]. rewrite res_bind_ret.
    unfold line_index in Hroom. destruct rw.
    + rewrite (u64_small (cy g - 1 - cy start)) by (pow2; lia).
      assert (0 <= (cy g - 1 - cy start) * cx g <= cx g * cy g) by nia.
      rewrite (u64_small (_ * _)), (u32_small (_ * _)), u32_small by (pow2; nia).
      rewrite (proj2 (Z.leb_gt n _)) by nia. done.
    + rewrite (u64_small (cx g - 1 - cx start)) by (pow2; lia).
      assert (0 <= (cx g - 1 - cx start) * cy g <= cx g * cy g) by nia.
      rewrite (u64_small (_ * _)), (u32_small (_ * _)), u32_small by (pow2; nia).
      rewrite (proj2 (Z.leb_gt n _)) by nia. done.
Qed.

Lemma run_of_cores_witness :
  exists s, num_cores_to_corerangeset_from (mkCoord 3 1) 20 (mkCoord 8 8) true = Ok s /\ CoreRangeSet_num_cores s = 20.
Proof.
  destruct (run_of_cores (mkCoord 3 1) 20 (mkCoord 8 8) true) as [H _];
    [unfold grid_ok; cbn; lia|unfold in_grid; cbn; lia|lia|].
  destruct H as (s & He & Hn & _); [unfold line_index; cbn; lia|]. exists s. split; [exact He|exact Hn].
Defined.

(** ** Divisors *)

Lemma fold_largest_divisor t lo hi n0 :
  fold_left (fun n i => if t mod i =? 0 then i else n) (zrange lo hi) n0 = n0 /\
    (forall i, lo <= i < hi -> t mod i <> 0) \/
  exists d, fold_left (fun n i => if t mod i =? 0 then i else n) (zrange lo hi) n0 = d /\ lo <= d < hi /\ t mod d = 0 /\
    forall i, d < i < hi -> t mod i <> 0.
Proof.
  destruct (Z.le_gt_cases hi lo) as [Hle|Hlt].
  { left. rewrite zrange_nil by lia. split; [done|lia]. }
  remember (Z.to_nat (hi - lo)) as k eqn:Ek. revert hi Hlt Ek. induction k as [|k IH]; intros hi Hlt Ek; [lia|].
  assert (hi = (hi - 1) + 1) as -> by lia. set (h := hi - 1) in *. rewrite zrange_snoc by lia.
  rewrite fold_left_app. cbn [fold_left]. destruct (Z.eqb_spec (t mod h) 0).
  - right. exists h. split_and!; [done|lia|lia|done|intros; lia].
  - destruct (Z.eq_dec h lo) as [->|Hne].
    + left. rewrite zrange_nil by lia. split; [done|]. intros i Hi. by replace i with lo by lia.
    + destruct (IH h) as [[E H]|(d & E & Hd & Hm & H)]; [lia|lia| |].
      * left. split; [done|]. intros i Hi. destruct (Z.eq_dec i h) as [->|]; [done|]. apply H. lia.
      * right. exists d. split_and!; [done|lia|lia|done|]. intros i Hi. destruct (Z.eq_dec i h) as [->|]; [done|].
        apply H. lia.
Qed.

(** [get_max_cores_divisible_by_tiles_per_core_tiles] returns the largest
    number of cores, at most the maximum, that divides the number of tiles, with
    the tiles per core; asked for an even number it rounds down to even and the
    tiles per core up, and the work of all cores covers the tiles. *)
Theorem max_cores_divides tiles max even cores per_core :
  0 <= tiles < 2 ^ 32 -> 0 <= max < 2 ^ 31 - 1 ->
  get_max_cores_divisible_by_tiles_per_core_tiles tiles max even = Ok (cores, per_core) ->
  0 < cores /\ tiles <= cores * per_core < tiles + cores /\
  (even = true -> cores mod 2 = 0) /\
  (even = false -> tiles mod cores = 0 /\ per_core = tiles / cores /\ (cores = 1 \/ cores <= max) /\
     forall d, 1 <= d <= max -> tiles mod d = 0 -> d <= cores).
Proof.
  intros Ht Hm. unfold get_max_cores_divisible_by_tiles_per_core_tiles. rewrite (proj2 (Z.ltb_lt max _)) by lia.
  cbn [check]. rewrite res_bind_ret. set (n := fold_left _ _ 1).
  assert (Hn : 1 <= n /\ tiles mod n = 0 /\ (n = 1 \/ n <= max) /\ forall d, 1 <= d <= max -> tiles mod d = 0 -> d <= n).
  { destruct (fold_largest_divisor tiles 2 (max + 1) 1) as [[E H]|(d & E & Hd & Hmd & H)]; fold n in E; rewrite E.
    - split_and!; [lia|by rewrite Z.mod_1_r|by left|]. intros i Hi H0.
      destruct (Z.eq_dec i 1); [lia|]. by specialize (H i ltac:(lia)).
    - split_and!; [lia|done|lia|]. intros i Hi H0. destruct (Z.le_gt_cases i d); [done|]. by specialize (H i ltac:(lia)). }
  destruct Hn as (N1 & N2 & N3 & N4). set (m := if even then n - n mod 2 else n).
  destruct (Z.eqb_spec m 0) as [|Hm0]; [done|]. cbn [negb check]. rewrite res_bind_ret. intros [= <- <-].
  assert (Hmpos : 0 < m).
  { unfold m in *. destruct even; [|lia]. pose proof (Z.mod_pos_bound n 2 ltac:(lia)). lia. }
  pose proof (Z.div_mod tiles m ltac:(lia)). pose proof (Z.mod_pos_bound tiles m Hmpos).
  assert (0 <= tiles / m <= tiles) by (split; [apply Z.div_pos; lia|apply Z.div_le_upper_bound; nia]).
  split; [done|]. split; [|split].
  - destruct (Z.eqb_spec (tiles mod m) 0); [lia|].
    destruct (Z.eq_dec m 1) as [E1|]; [rewrite E1, Z.mod_1_r in *; lia|].
    rewrite u32_small; [lia|]. pow2. nia.
  - intros ->. unfold m. pose proof (Z.div_mod n 2 ltac:(lia)).
    replace (n - n mod 2) with (n / 2 * 2) by lia. by apply Z.mod_mul.
  - intros ->. unfold m in *. rewrite N2. cbn. done.
Qed.

Lemma max_cores_divides_witness : 30 <= 4 * 8 < 30 + 4.
Proof. apply (max_cores_divides 30 5 true 4 8); [lia|lia|reflexivity]. Defined.

(** Asked for an even number of cores when no divisor but 1 is available, the
    code rounds 1 down to 0 and divides by it. *)
Theorem even_cores_division_by_zero tiles max :
  0 <= max < 2 ^ 31 - 1 -> (forall d, 2 <= d <= max -> tiles mod d <> 0) ->
  get_max_cores_divisible_by_tiles_per_core_tiles tiles max true = Err Undefined.
Proof.
  intros Hm H. unfold get_max_cores_divisible_by_tiles_per_core_tiles. rewrite (proj2 (Z.ltb_lt max _)) by lia.
  cbn [check]. rewrite res_bind_ret.
  destruct (fold_largest_divisor tiles 2 (max + 1) 1) as [[-> _]|(d & _ & Hd & Hmd & _)]; [done|].
  exfalso. by apply (H d ltac:(lia)).
Qed.

Lemma even_cores_division_by_zero_witness :
  get_max_cores_divisible_by_tiles_per_core_tiles 7 5 true = Err Undefined.
Proof.
  apply (even_cores_division_by_zero 7 5); [lia|]. intros d Hd.
  assert (d = 2 \/ d = 3 \/ d = 4 \/ d = 5) as [->|[->|[->| ->]]] by lia; discriminate.
Defined.

Lemma find_max_divisor_go_spec val n :
  let d := find_max_divisor_go val n in
  1 <= d /\ d <= Z.max 1 (Z.of_nat n) /\ val mod d = 0 /\ d <> 5 /\ d <> 7 /\
  forall e, 1 <= e <= Z.of_nat n -> val mod e = 0 -> e <> 5 -> e <> 7 -> e <= d.
Proof.
  induction n as [|m IH]; cbn -[Z.of_nat].
  - split_and!; try lia. apply Z.mod_1_r.
  - destruct IH as (I1 & I2 & I3 & I4 & I5 & I6). cbn zeta in *.
    destruct (Z.eqb_spec (Z.of_nat (S m)) 7), (Z.eqb_spec (Z.of_nat (S m)) 5); cbn [orb]; try lia;
      [| |destruct (Z.eqb_spec (val mod Z.of_nat (S m)) 0)]; split_and!; try done; try lia;
      intros x Hx Hmx H5 H7; try lia;
      (destruct (Z.eq_dec x (Z.of_nat (S m))) as [->|]; [congruence|apply I6; try done; lia]).
Qed.

Lemma find_max_block_size_go_spec val n :
  let d := find_max_block_size_go val n in
  1 <= d /\ d <= Z.max 1 (Z.of_nat n) /\ val mod d = 0 /\
  forall e, 1 <= e <= Z.of_nat n -> val mod e = 0 -> e <= d.
Proof.
  induction n as [|m IH]; cbn -[Z.of_nat].
  - split_and!; try lia. apply Z.mod_1_r.
  - destruct IH as (I1 & I2 & I3 & I4). cbn zeta in *.
    destruct (Z.eqb_spec (val mod Z.of_nat (S m)) 0); split_and!; try done; try lia.
    intros x Hx Hmx. destruct (Z.eq_dec x (Z.of_nat (S m))) as [->|]; [congruence|apply I4; try done; lia].
Qed.

(** [find_max_block_size] is the largest divisor up to the bound, and
    [find_max_divisor] the largest one other than 5 and 7. *)
Theorem largest_divisors val bound :
  0 <= bound < 2 ^ 31 ->
  let b := find_max_block_size val bound in let d := find_max_divisor val bound in
  (1 <= b <= Z.max 1 bound /\ val mod b = 0 /\ forall e, 1 <= e <= bound -> val mod e = 0 -> e <= b) /\
  (1 <= d <= Z.max 1 bound /\ val mod d = 0 /\ d <> 5 /\ d <> 7 /\
   forall e, 1 <= e <= bound -> val mod e = 0 -> e <> 5 -> e <> 7 -> e <= d).
Proof.
  intros Hb. unfold find_max_block_size, find_max_divisor. rewrite i32_small by lia. cbn zeta.
  destruct (find_max_block_size_go_spec val (Z.to_nat bound)) as (B1 & B2 & B3 & B4).
  destruct (find_max_divisor_go_spec val (Z.to_nat bound)) as (D1 & D2 & D3 & D4 & D5 & D6).
  rewrite Z2Nat.id in * by lia. split_and!; auto.
Qed.

Lemma largest_divisors_witness : 1 <= find_max_divisor 70 20 <= 20 /\ find_max_divisor 70 20 = 14.
Proof.
  destruct (largest_divisors 70 20) as [_ (H & _)]; [lia|]. split; [exact H|reflexivity].
Defined.

(** ** Merging sticks *)

Lemma merge_sticks_go_spec fuel num stick max_read k found :
  0 < stick -> 0 < k -> max_read + stick < 2 ^ 32 -> (k - 1) * stick <= max_read ->
  max_read < (k - 1 + Z.of_nat fuel) * stick ->
  exists r, merge_sticks_go fuel (num * stick) stick max_read (k * stick) found = Ok r /\
    (r = found /\ (forall j, k <= j -> j * stick <= max_read -> num mod j <> 0) \/
     exists j, k <= j /\ j * stick <= max_read /\ num mod j = 0 /\ r = num / j /\
       forall j', j < j' -> j' * stick <= max_read -> num mod j' <> 0).
Proof.
  intros Hs. revert k found. induction fuel as [|fuel IH]; intros k found Hk Hb Hk1 Hf.
  - lia.
  - cbn [merge_sticks_go]. destruct (Z.ltb_spec max_read (k * stick)).
    + exists found. split; [done|]. left. split; [done|]. intros j Hj Hjm. nia.
    + rewrite (proj2 (Z.eqb_neq (k * stick) 0)) by nia. cbn [negb check]. rewrite res_bind_ret.
      rewrite u32_small by (pow2; nia). replace (k * stick + stick) with ((k + 1) * stick) by lia.
      rewrite Z.mul_mod_distr_r, Z.div_mul_cancel_r by lia.
      edestruct (IH (k + 1)) as (r & He & Hr); [lia|done|lia|lia|]. exists r. split; [exact He|].
      assert (Hz : (num mod k * stick =? 0) = (num mod k =? 0)).
      { destruct (Z.eqb_spec (num mod k) 0) as [->|]; [done|]. apply Z.eqb_neq. nia. }
      destruct Hr as [[-> Hno]|(j & Hj & Hjm & Hjd & -> & Hno)].
      * rewrite Hz. destruct (Z.eqb_spec (num mod k) 0).
        -- right. exists k. split_and!; [lia|done|done|done|]. intros j' Hj'. apply Hno. lia.
        -- left. split; [done|]. intros j Hj Hjm. destruct (Z.eq_dec j k) as [->|]; [done|]. apply Hno; [lia|done].
      * right. exists j. split_and!; [lia|done..].
Qed.

(** [merge_num_sticks_to_read] merges the largest number of sticks that divides
    their count and fits a read: the result counts the merged reads. *)
Theorem merge_sticks_maximal num stick max_read :
  0 <= num -> 0 < stick -> 0 <= max_read -> num * stick < 2 ^ 32 -> max_read + stick < 2 ^ 32 ->
  exists r, merge_num_sticks_to_read num stick max_read = Ok r /\
    (max_read < stick /\ r = num \/
     exists k, 1 <= k /\ k * stick <= max_read /\ r * k = num /\
       forall j, k < j -> j * stick <= max_read -> num mod j <> 0).
Proof.
  intros Hn Hs Hm Hb Hb2. unfold merge_num_sticks_to_read. rewrite u32_small by (pow2; nia).
  destruct (merge_sticks_go_spec (S (Z.to_nat max_read)) num stick max_read 1 num Hs) as (r & He & Hr); try lia.
  { rewrite Nat2Z.inj_succ, Z2Nat.id by lia. nia. }
  rewrite Z.mul_1_l in He. exists r. split; [done|]. destruct Hr as [[-> Hno]|(j & Hj & Hjm & Hjd & -> & Hno)].
  - left. split; [|done]. destruct (Z.lt_ge_cases max_read stick); [done|]. exfalso.
    by apply (Hno 1); [lia|lia|apply Z.mod_1_r].
  - right. exists j. split_and!; [done|done| |done]. pose proof (Z.div_mod num j ltac:(lia)). lia.
Qed.

Lemma merge_sticks_maximal_witness : exists r, merge_num_sticks_to_read 12 64 400 = Ok r /\ r = 2.
Proof.
  destruct (merge_sticks_maximal 12 64 400) as (r & He & _); try lia. exists r. split; [exact He|].
  vm_compute in He. injection He as <-. reflexivity.
Defined.

(** ** A core that is lost *)

(** A subgrid one core wide (row-wise) or high (column-wise). *)
Definition one_wide (row_wise : bool) (g : CoreRange) : Prop :=
  (if row_wise then cx (start_coord g) = cx (end_coord g) else cy (start_coord g) = cy (end_coord g)) /\
  0 <= cx (start_coord g) <= cx (end_coord g) /\ cx (end_coord g) < 2 ^ 32 - 1 /\ 0 <= cy (start_coord g) <= cy (end_coord g) /\ cy (end_coord g) < 2 ^ 32 - 1.

Definition process_subgrid (row_wise : bool) (g : CoreRange) : subgrid_state -> res subgrid_state :=
  if row_wise then process_row_wise g else process_col_wise g.

(** Nothing is pending and no cores remain: subgrids are passed over. *)
Lemma process_lines_done step lines st : remaining_cores st = 0 -> process_lines step lines st = Ok st.
Proof. intros H. destruct lines; cbn [process_lines]; [done|]. by rewrite H. Qed.

Lemma push_pending_same rs c n : push_pending (mkSub rs c c n) = Ok (mkSub rs c c n).
Proof. unfold push_pending. cbn [current_start_core current_end_core]. by rewrite bool_decide_true. Qed.

Lemma process_subgrid_done row_wise g rs c : process_subgrid row_wise g (mkSub rs c c 0) = Ok (mkSub rs c c 0).
Proof. destruct row_wise; unfold process_subgrid, process_row_wise, process_col_wise; rewrite process_lines_done by done; rewrite res_bind_ret; apply push_pending_same. Qed.

Lemma process_subgrids_done start row_wise found grids rs c : exists c', process_subgrids start row_wise found grids (mkSub rs c c 0) = Ok (mkSub rs c' c' 0).
Proof.
  revert found c. induction grids as [|g grids IH]; intros found c; cbn [process_subgrids]; [by exists c|]. fold (process_subgrid row_wise g). destruct (CoreRange_contains g start).
  - rewrite process_subgrid_done, res_bind_ret. apply IH.
  - destruct found; [|apply IH]. cbn [result_coreranges remaining_cores]. rewrite process_subgrid_done, res_bind_ret. apply IH.
Qed.

(** The one core that remains becomes a block with equal corners, which is not pushed. *)
Lemma row_step_one g rs x y : cx (start_coord g) = x -> cx (end_coord g) = x -> row_step g y (mkSub rs (mkCoord x y) (mkCoord x y) 1) = Ok (mkSub rs (mkCoord x y) (mkCoord x y) 0).
Proof.
  intros H1 H2. unfold row_step. cbn [current_start_core remaining_cores result_coreranges cx CoreRange_grid_size]. rewrite H1, H2. replace (x - x + 1) with 1 by lia.
  change (Z.min (u32 (u64 1)) 1 <? u32 (u64 1)) with false. done.
Qed.

Lemma col_step_one g rs x y : cy (start_coord g) = y -> cy (end_coord g) = y -> col_step g x (mkSub rs (mkCoord x y) (mkCoord x y) 1) = Ok (mkSub rs (mkCoord x y) (mkCoord x y) 0).
Proof.
  intros H1 H2. unfold col_step. cbn [current_start_core remaining_cores result_coreranges cy CoreRange_grid_size]. rewrite H1, H2. replace (y - y + 1) with 1 by lia.
  change (Z.min (u32 (u64 1)) 1 <? u32 (u64 1)) with false. done.
Qed.

Lemma process_subgrid_drops row_wise g rs c : one_wide row_wise g -> CoreRange_contains g c = true ->
  process_subgrid row_wise g (mkSub rs c c 1) = Ok (mkSub rs c c 0).
Proof.
  intros (Hw & Hx & Hx' & Hy & Hy') Hc. unfold CoreRange_contains in Hc. rewrite !andb_true_iff, !Z.leb_le in Hc. destruct c as [x y]. cbn [cx cy] in Hc.
  unfold process_subgrid. destruct row_wise; unfold process_row_wise, process_col_wise; cbn [current_start_core cx cy]; rewrite u32_small, zrange_cons by (pow2; lia); cbn [process_lines remaining_cores]; change (1 =? 0) with false; cbn iota;
    rewrite ?row_step_one, ?col_step_one by lia; rewrite res_bind_ret, process_lines_done by done; rewrite res_bind_ret; apply push_pending_same.
Qed.

Lemma process_subgrids_app start row_wise found pre grids st :
  process_subgrids start row_wise found (pre ++ grids) st =
    (st ← process_subgrids start row_wise found pre st; process_subgrids start row_wise (found || existsb (fun g => CoreRange_contains g start) pre) grids st).
Proof.
  revert found st. induction pre as [|g pre IH]; intros found st; cbn [app process_subgrids existsb]; [by rewrite orb_false_r, res_bind_ret|].
  destruct (CoreRange_contains g start).
  - rewrite orb_true_l, orb_true_r. destruct (if row_wise then _ else _) as [st'|e]; [|done]. rewrite !res_bind_ret, IH. by rewrite orb_true_l.
  - rewrite orb_false_l. destruct found; [|by rewrite IH]. destruct (if row_wise then _ else _) as [st'|e]; [|done]. rewrite !res_bind_ret. by rewrite IH.
Qed.

Lemma process_subgrids_unfound start row_wise pre st : existsb (fun g => CoreRange_contains g start) pre = false -> process_subgrids start row_wise false pre st = Ok st.
Proof. induction pre as [|g pre IH]; cbn [existsb process_subgrids]; [done|]. intros [-> H]%orb_false_iff. by apply IH. Qed.

(** C30: [num_cores_to_corerangeset_in_subcoregrids] drops a single core.  When one core
    remains to be taken at a subgrid that is one core wide (row-wise) or high
    (column-wise), be it the subgrid of the start core or a later one, the two corners of
    the pending block are equal, which the code reads as that nothing is pending: the
    result is the set of the ranges of the subgrids before, without the core, and counts
    as complete.  Where the start core is in this subgrid, the set is empty. *)
Theorem subcoregrids_lose_single_core start row_wise pre narrow post n st :
  one_wide row_wise narrow ->
  0 < n -> n <= CoreRangeSet_num_cores (pre ++ narrow :: post) -> CoreRangeSet_contains (pre ++ narrow :: post) start = true ->
  CoreRange_contains narrow start = negb (CoreRangeSet_contains pre start) ->
  process_subgrids start row_wise false pre (mkSub [] start start n) = Ok st -> remaining_cores st = 1 ->
  num_cores_to_corerangeset_in_subcoregrids start n (pre ++ narrow :: post) row_wise = CoreRangeSet_ctor (result_coreranges st) /\
  (CoreRange_contains narrow start = true -> n = 1 /\ result_coreranges st = []).
Proof.
  intros Hw Hn Hnum Hin Hc Hpre Hrem. assert (CoreRange_contains narrow start = true -> st = mkSub [] start start n) as Hfirst.
  { intros Hs. rewrite Hs in Hc. symmetry in Hc. apply negb_true_iff in Hc. rewrite process_subgrids_unfound in Hpre by done. by injection Hpre. }
  split; [|intros Hs; rewrite (Hfirst Hs) in *; done]. unfold num_cores_to_corerangeset_in_subcoregrids.
  rewrite (proj2 (Z.ltb_lt 0 n)), (proj2 (Z.leb_le n _)), Hin, process_subgrids_app, Hpre by done. cbn [check]. rewrite !res_bind_ret, orb_false_l. cbn [process_subgrids]. fold (process_subgrid row_wise narrow).
  assert (forall found c, exists c', (st' ← process_subgrid row_wise narrow (mkSub (result_coreranges st) c c 1); process_subgrids start row_wise found post st') = Ok (mkSub (result_coreranges st) c' c' 0) \/ CoreRange_contains narrow c = false) as H.
  { intros found c. destruct (CoreRange_contains narrow c) eqn:E; [|exists c; by right]. rewrite process_subgrid_drops, res_bind_ret by done. destruct (process_subgrids_done start row_wise found post (result_coreranges st) c) as [c' H]. exists c'. by left. }
  destruct (CoreRange_contains narrow start) eqn:Es.
  - specialize (Hfirst eq_refl). subst st. cbn in Hrem. subst n. destruct (H true start) as (c' & [E|E]); [|congruence]. cbn [result_coreranges] in E. rewrite E, res_bind_ret. done.
  - symmetry in Hc. apply negb_false_iff in Hc. unfold CoreRangeSet_contains in Hc. rewrite Hc. rewrite Hrem. destruct (H true (start_coord narrow)) as (c' & [E|E]).
    + rewrite E, res_bind_ret. done.
    + exfalso. destruct Hw as (_ & Hx & _ & Hy & _). unfold CoreRange_contains in E. rewrite !(proj2 (Z.leb_le _ _)) in E by lia. discriminate.
Qed.

(** One core of a column, and five of a block of four and a column: the set has four. *)
Lemma subcoregrids_lose_single_core_witness :
  let narrow := mkRange (mkCoord 6 0) (mkCoord 6 5) in let block := mkRange (mkCoord 2 1) (mkCoord 3 2) in
  num_cores_to_corerangeset_in_subcoregrids (mkCoord 6 0) 1 [narrow] true = Ok [] /\
  num_cores_to_corerangeset_in_subcoregrids (mkCoord 2 1) 5 [block; narrow] true = Ok [block] /\ CoreRangeSet_num_cores [block] = 4.
Proof.
  intros narrow block. assert (one_wide true narrow) as Hw by (vm_compute; intuition congruence). split_and!.
  - destruct (subcoregrids_lose_single_core (mkCoord 6 0) true [] narrow [] 1 (mkSub [] (mkCoord 6 0) (mkCoord 6 0) 1) Hw) as [E _]; [vm_compute; congruence..|]. exact E.
  - destruct (subcoregrids_lose_single_core (mkCoord 2 1) true [block] narrow [] 5 (mkSub [block] (mkCoord 2 1) (mkCoord 3 2) 1) Hw) as [E _]; [vm_compute; congruence..|]. exact E.
  - reflexivity.
Defined.
