(* ===== verification/Allocator.v ===== *)
(** * Bank managers and the device allocator
    (tt_metal/impl/allocator/{allocator.cpp,allocator.hpp,l1_banking_allocator.cpp,basic_allocator.cpp},
    tt_metal/detail/util.hpp)

    A [BankManager] owns a free list that stands for every bank of a memory kind;
    the [Allocator] owns one manager per kind and the tables between bank ids,
    cores and channels.  Unordered maps and sets are [gmap] and [gset]; the order
    in which the code iterates an unordered set, and the standard library's
    shuffle, are parameters.  The mailbox address comes from the hardware layer,
    also a parameter. *)

From S2P Require Import Prelude CoreCoord FreeList WorkSplit.

Inductive BufferType := DRAM | L1 | SYSTEM_MEMORY | L1_SMALL | TRACE.

#[export] Instance BufferType_eq_dec : EqDecision BufferType.
Proof. solve_decision. Defined.
#[export] Instance BufferType_countable : Countable BufferType.
Proof.
  apply (inj_countable' (fun t => match t with DRAM => 0 | L1 => 1 | SYSTEM_MEMORY => 2 | L1_SMALL => 3 | TRACE => 4 end)
    (fun z => match z with 0 => DRAM | 1 => L1 | 2 => SYSTEM_MEMORY | 3 => L1_SMALL | _ => TRACE end)).
  by intros [].
Defined.

(** [unordered_map::insert]: an existing key keeps its value. *)
Definition insert_new {K A} `{Countable K} (k : K) (a : A) (m : gmap K A) : gmap K A :=
  match m !! k with Some _ => m | None => <[k := a]> m end.

(** ** detail/util.hpp *)

Definition SizeBytesPerBank (size_bytes page_size_bytes num_banks alignment_bytes : Z) : res Z :=
  check Assert (if page_size_bytes =? 0 then size_bytes =? 0 else size_bytes mod page_size_bytes =? 0);;
  let num_pages := if page_size_bytes =? 0 then 0 else size_bytes / page_size_bytes in
  num_equally_distributed_pages ←
    (if num_pages =? 0 then mret 0
     else check Undefined (negb (num_banks =? 0));; mret (1 + (num_pages - 1) / num_banks));
  page ← round_up (u32 page_size_bytes) alignment_bytes;
  mret (u64 (num_equally_distributed_pages * page)).

(** ** BankManager *)

Record BankManager := mkBank {
  buffer_type_ : BufferType;
  allocated_buffers_ : gset Z;
  bank_id_to_bank_offset_ : gmap Z Z;
  allocator_ : option FreeList;
  interleaved_address_limit_ : Z;
  alignment_bytes_ : Z;
}.

Definition set_bank_allocator (a : option FreeList) (b : BankManager) : BankManager :=
  mkBank (buffer_type_ b) (allocated_buffers_ b) (bank_id_to_bank_offset_ b) a
    (interleaved_address_limit_ b) (alignment_bytes_ b).
Definition set_allocated_buffers (s : gset Z) (b : BankManager) : BankManager :=
  mkBank (buffer_type_ b) s (bank_id_to_bank_offset_ b) (allocator_ b)
    (interleaved_address_limit_ b) (alignment_bytes_ b).

Abbreviation BM := (M BankManager).

(** A call through [allocator_->]. *)
Definition on_allocator {A} (m : F A) : BM A := fun b =>
  match allocator_ b with
  | None => (b, Err Undefined)
  | Some f => let '(f, r) := m f in (set_bank_allocator (Some f) b, r)
  end.

Definition validate_num_banks (num_banks : Z) (buffer_type : BufferType) (disable_interleaved : bool) : res unit :=
  let doesnt_support_interleaved := bool_decide (buffer_type = L1_SMALL) || disable_interleaved in
  let is_pow2_num_banks := negb (num_banks =? 0) && (Z.land num_banks (u32 (num_banks - 1)) =? 0) in
  let custom_mod_bank_id_calculation_exists := bool_decide (num_banks ∈ [12; 56; 70; 80; 94; 124; 130; 140]) in
  check Throw (is_pow2_num_banks || custom_mod_bank_id_calculation_exists || doesnt_support_interleaved).

(** [BankManager()] *)
Definition BankManager_default : BankManager := mkBank DRAM ∅ ∅ None 0 0.

Definition init_allocator (size_bytes alignment_bytes offset : Z) : res FreeList :=
  let '(f, r) := FreeList_new size_bytes offset alignment_bytes alignment_bytes FIRST in
  r;; mret f.

Definition map_size {K A} `{Countable K} (m : gmap K A) : Z := Z.of_nat (base.size m).

Definition BankManager_of_map (buffer_type : BufferType) (bank_id_to_bank_offset : gmap Z Z)
    (size_bytes interleaved_address_limit alignment_bytes alloc_offset : Z) (disable_interleaved : bool)
    : res BankManager :=
  validate_num_banks (u32 (map_size bank_id_to_bank_offset)) buffer_type disable_interleaved;;
  f ← init_allocator size_bytes alignment_bytes alloc_offset;
  mret (mkBank buffer_type ∅ bank_id_to_bank_offset (Some f) interleaved_address_limit alignment_bytes).

Definition BankManager_of_offsets (buffer_type : BufferType) (bank_offsets : list Z)
    (size_bytes alignment_bytes alloc_offset : Z) (disable_interleaved : bool) : res BankManager :=
  let bank_id_to_bank_offset :=
    fold_left (fun m '(bank_id, bank_offset) => insert_new bank_id bank_offset m)
      (zip (zrange 0 (Z.of_nat (length bank_offsets))) bank_offsets) ∅ in
  BankManager_of_map buffer_type bank_id_to_bank_offset size_bytes 0 alignment_bytes alloc_offset disable_interleaved.

Definition BankManager_num_banks (b : BankManager) : Z := u32 (map_size (bank_id_to_bank_offset_ b)).

Definition BankManager_bank_size (b : BankManager) : res Z :=
  f ← opt_res Assert (allocator_ b);
  mret (max_size_bytes f).

Definition validate_bank_id (b : BankManager) (bank_id : Z) : res unit :=
  check Fatal (bool_decide (bank_id ∈ dom (bank_id_to_bank_offset_ b))).

Definition BankManager_bank_offset (b : BankManager) (bank_id : Z) : res Z :=
  validate_bank_id b bank_id;;
  opt_res StdException (bank_id_to_bank_offset_ b !! bank_id).

Definition BankManager_allocate_buffer (size page_size : Z) (bottom_up : bool) (compute_grid : CoreRangeSet)
    (num_shards : option Z) : BM Z :=
  b ← get;
  num_banks ← lift (match num_shards with
    | Some n => check Fatal (n <=? CoreRangeSet_num_cores compute_grid);; mret n
    | None => mret (BankManager_num_banks b)
    end);
  size_per_bank ← lift (SizeBytesPerBank size page_size num_banks (alignment_bytes_ b));
  address_limit ← lift (
    if bool_decide (num_shards = None) && bool_decide (buffer_type_ b = L1) then
      check Fatal (0 <? interleaved_address_limit_ b);; mret (interleaved_address_limit_ b)
    else mret 0);
  require Assert (bool_decide (allocator_ b <> None));;
  address ← on_allocator (allocate size_per_bank bottom_up address_limit);
  match address with
  | None => fail Throw
  | Some a => modify (fun b => set_allocated_buffers ({[a]} ∪ allocated_buffers_ b) b);; mret a
  end.

Definition BankManager_deallocate_buffer (address : Z) : BM unit := on_allocator (deallocate address).

(** [order]: the iteration order of the unordered set. *)
Definition BankManager_deallocate_all (order : gset Z -> list Z) : BM unit :=
  b ← get;
  mapM_ (fun addr => on_allocator (deallocate addr)) (order (allocated_buffers_ b)).

Definition BankManager_clear : BM unit :=
  b ← get;
  match allocator_ b with None => mret tt | Some _ => on_allocator clear end.

(** [operator=(BankManager&&)]: the fields are taken over, the free list that was
    there is dropped. *)
Definition BankManager_assign (that : BankManager) (this : BankManager) : BankManager :=
  mkBank (buffer_type_ that) (allocated_buffers_ that) (bank_id_to_bank_offset_ that) (allocator_ that)
    (interleaved_address_limit_ that) (alignment_bytes_ that).

Definition BankManager_lowest_occupied_address (b : BankManager) (bank_id : Z) : res (option Z) :=
  match allocator_ b with
  | None => mret None
  | Some f =>
      match lowest_occupied_address f with
      | None => mret None
      | Some a => o ← BankManager_bank_offset b bank_id; mret (Some (u64 (a + o)))
      end
  end.

Definition BankManager_get_statistics : BM Statistics :=
  b ← get;
  match allocator_ b with
  | None => mret (mkStatistics 0 0 0 0 [])
  | Some _ => on_allocator get_statistics
  end.

Definition BankManager_shrink_size (shrink : Z) (bottom_up : bool) : BM unit :=
  b ← get;
  match allocator_ b with None => mret tt | Some _ => on_allocator (shrink_size shrink bottom_up) end.

Definition BankManager_reset_size : BM unit :=
  b ← get;
  match allocator_ b with None => mret tt | Some _ => on_allocator reset_size end.

(** ** Allocator *)

Inductive AllocCoreType := Dispatch | StorageOnly | ComputeOnly | ComputeAndStore | Invalid.

#[export] Instance AllocCoreType_eq_dec : EqDecision AllocCoreType.
Proof. solve_decision. Defined.

Record AllocatorConfig := mkConfig {
  num_dram_channels : Z;
  dram_bank_size : Z;
  dram_bank_offsets : list Z;
  dram_unreserved_base : Z;
  l1_unreserved_base : Z;
  worker_grid : CoreRangeSet;
  worker_l1_size : Z;
  storage_core_bank_size : option Z;
  l1_small_size : Z;
  trace_region_size : Z;
  core_type_from_noc_coord_table : gmap CoreCoord AllocCoreType;
  worker_log_to_physical_routing_x : gmap Z Z;
  worker_log_to_physical_routing_y : gmap Z Z;
  l1_bank_remap : list Z;
  compute_grid : CoreRangeSet;
  config_alignment : Z;
  disable_interleaved : bool;
}.

(** [AllocatorConfig::reset] *)
Definition AllocatorConfig_reset (c : AllocatorConfig) : AllocatorConfig :=
  mkConfig (num_dram_channels c) (dram_bank_size c) [] (dram_unreserved_base c) (l1_unreserved_base c)
    (worker_grid c) (worker_l1_size c) (storage_core_bank_size c) (l1_small_size c) (trace_region_size c)
    ∅ ∅ ∅ [] (compute_grid c) (config_alignment c) (disable_interleaved c).

Record Allocator := mkAllocator {
  allocations_unsafe : bool;
  dram_manager : BankManager;
  l1_manager : BankManager;
  l1_small_manager : BankManager;
  trace_buffer_manager : BankManager;
  bank_id_to_dram_channel : gmap Z Z;
  dram_channel_to_bank_ids : gmap Z (list Z);
  bank_id_to_logical_core : gmap Z CoreCoord;
  logical_core_to_bank_ids : gmap BufferType (gmap CoreCoord (list Z));
  allocated_buffers : gset Z;
  config_ : AllocatorConfig;
}.

Abbreviation AM := (M Allocator).

Definition set_managers d l ls t (a : Allocator) : Allocator :=
  mkAllocator (allocations_unsafe a) d l ls t (bank_id_to_dram_channel a) (dram_channel_to_bank_ids a)
    (bank_id_to_logical_core a) (logical_core_to_bank_ids a) (allocated_buffers a) (config_ a).
Definition set_tables bd db bc cb (a : Allocator) : Allocator :=
  mkAllocator (allocations_unsafe a) (dram_manager a) (l1_manager a) (l1_small_manager a) (trace_buffer_manager a)
    bd db bc cb (allocated_buffers a) (config_ a).
Definition set_unsafe u (a : Allocator) : Allocator :=
  mkAllocator u (dram_manager a) (l1_manager a) (l1_small_manager a) (trace_buffer_manager a)
    (bank_id_to_dram_channel a) (dram_channel_to_bank_ids a) (bank_id_to_logical_core a)
    (logical_core_to_bank_ids a) (allocated_buffers a) (config_ a).
Definition set_live bs (a : Allocator) : Allocator :=
  mkAllocator (allocations_unsafe a) (dram_manager a) (l1_manager a) (l1_small_manager a) (trace_buffer_manager a)
    (bank_id_to_dram_channel a) (dram_channel_to_bank_ids a) (bank_id_to_logical_core a)
    (logical_core_to_bank_ids a) bs (config_ a).

(** The manager a buffer type selects; the [default] of the switches throws. *)
Definition manager_of (t : BufferType) (a : Allocator) : res BankManager :=
  match t with
  | DRAM => mret (dram_manager a)
  | L1 => mret (l1_manager a)
  | L1_SMALL => mret (l1_small_manager a)
  | TRACE => mret (trace_buffer_manager a)
  | SYSTEM_MEMORY => Err Throw
  end.

Definition set_manager (t : BufferType) (b : BankManager) (a : Allocator) : Allocator :=
  match t with
  | DRAM => set_managers b (l1_manager a) (l1_small_manager a) (trace_buffer_manager a) a
  | L1 => set_managers (dram_manager a) b (l1_small_manager a) (trace_buffer_manager a) a
  | L1_SMALL => set_managers (dram_manager a) (l1_manager a) b (trace_buffer_manager a) a
  | TRACE => set_managers (dram_manager a) (l1_manager a) (l1_small_manager a) b a
  | SYSTEM_MEMORY => a
  end.

Definition on_manager {A} (t : BufferType) (m : BM A) : AM A := fun a =>
  match manager_of t a with
  | Err e => (a, Err e)
  | Ok b => let '(b, r) := m b in (set_manager t b a, r)
  end.

(** llrt/hal.hpp *)
Inductive HalMemType := Hal_L1 | Hal_DRAM | Hal_HOST | Hal_COUNT.

Definition get_unreserved_base_address (a : Allocator) (mem_type : HalMemType) : res Z :=
  match mem_type with
  | Hal_DRAM => mret (dram_unreserved_base (config_ a))
  | Hal_L1 => mret (l1_unreserved_base (config_ a))
  | _ => Err Throw
  end.

Definition num_banks (a : Allocator) (t : BufferType) : res Z := b ← manager_of t a; mret (BankManager_num_banks b).
Definition bank_size (a : Allocator) (t : BufferType) : res Z := b ← manager_of t a; BankManager_bank_size b.
Definition bank_offset (a : Allocator) (t : BufferType) (bank_id : Z) : res Z :=
  b ← manager_of t a; o ← BankManager_bank_offset b bank_id; mret (i32 o).

Definition dram_channel_from_bank_id (a : Allocator) (bank_id : Z) : res Z :=
  opt_res Assert (bank_id_to_dram_channel a !! bank_id).
Definition logical_core_from_bank_id (a : Allocator) (bank_id : Z) : res CoreCoord :=
  opt_res Assert (bank_id_to_logical_core a !! bank_id).
Definition bank_ids_from_dram_channel (a : Allocator) (channel : Z) : res (list Z) :=
  opt_res Throw (dram_channel_to_bank_ids a !! channel).
Definition bank_ids_from_logical_core (a : Allocator) (t : BufferType) (core : CoreCoord) : res (list Z) :=
  m ← opt_res StdException (logical_core_to_bank_ids a !! t);
  opt_res Throw (m !! core).

Definition allocator_get_statistics (t : BufferType) : AM Statistics := on_manager t BankManager_get_statistics.
Definition lowest_occupied_l1_address (a : Allocator) (bank_id : Z) : res (option Z) :=
  BankManager_lowest_occupied_address (l1_manager a) bank_id.

Definition mark_allocations_unsafe : AM unit := modify (set_unsafe true).
Definition mark_allocations_safe : AM unit := modify (set_unsafe false).

Definition shrink_allocator_size (t : BufferType) (shrink : Z) (bottom_up : bool) : AM unit :=
  on_manager t (BankManager_shrink_size shrink bottom_up).
Definition reset_allocator_size (t : BufferType) : AM unit := on_manager t BankManager_reset_size.

(** What the allocator reads of a [Buffer]; [buffer_id] is its pointer. *)
Record BufferInfo := mkBuffer {
  buffer_id : Z;
  aligned_size : Z;
  aligned_page_size : Z;
  buffer_type : BufferType;
  buffer_bottom_up : bool;
  buffer_num_cores : option Z;
}.

(** [base_alloc], the [alloc] of both descriptors. *)
Definition base_alloc (c : AllocatorConfig) (size page_size : Z) (bottom_up : bool) (num_shards : option Z) : BM Z :=
  BankManager_allocate_buffer size page_size bottom_up (compute_grid c) num_shards.

Definition allocate_buffer (buffer : BufferInfo) : AM Z :=
  a ← get;
  let num_shards := buffer_num_cores buffer in
  when (disable_interleaved (config_ a)) (require Fatal (bool_decide (num_shards <> None)));;
  when (bool_decide (buffer_type buffer = L1_SMALL)) (require Fatal (bool_decide (num_shards <> None)));;
  address ← on_manager (buffer_type buffer)
    (base_alloc (config_ a) (aligned_size buffer) (aligned_page_size buffer) (buffer_bottom_up buffer) num_shards);
  modify (fun a => set_live ({[buffer_id buffer]} ∪ allocated_buffers a) a);;
  mret address.

Definition deallocate_buffer (buffer : BufferInfo) (address : Z) : AM unit :=
  on_manager (buffer_type buffer) (BankManager_deallocate_buffer address);;
  modify (fun a => set_live (allocated_buffers a ∖ {[buffer_id buffer]}) a).

Definition deallocate_buffers (order : gset Z -> list Z) : AM unit :=
  on_manager DRAM (BankManager_deallocate_all order);;
  on_manager L1 (BankManager_deallocate_all order);;
  on_manager L1_SMALL (BankManager_deallocate_all order);;
  on_manager TRACE (BankManager_deallocate_all order).

Definition allocator_clear : AM unit :=
  on_manager DRAM BankManager_clear;; on_manager L1 BankManager_clear;;
  on_manager L1_SMALL BankManager_clear;; on_manager TRACE BankManager_clear.

(** [Allocator::reset] *)
Definition Allocator_reset : AM unit :=
  modify (fun a => set_tables ∅ ∅ ∅ ((fun _ => ∅) <$> logical_core_to_bank_ids a) a);;
  allocator_clear;;
  modify (fun a => mkAllocator (allocations_unsafe a) (dram_manager a) (l1_manager a) (l1_small_manager a)
    (trace_buffer_manager a) (bank_id_to_dram_channel a) (dram_channel_to_bank_ids a) (bank_id_to_logical_core a)
    (logical_core_to_bank_ids a) ∅ (AllocatorConfig_reset (config_ a))).

(** ** Initialisation

    The init functions run in the constructor of the allocator: when one fails
    there is no allocator, so they are written as functions to an outcome. *)

Definition add_ids (t : BufferType) (core : CoreCoord) (ids : list Z)
    (m : gmap BufferType (gmap CoreCoord (list Z))) : gmap BufferType (gmap CoreCoord (list Z)) :=
  <[t := insert_new core ids (default ∅ (m !! t))]> m.

(** One step of the loops over the channels. *)
Definition add_channel (t : BufferType) (a : Allocator) (bank_id : Z) : Allocator :=
  set_tables (insert_new bank_id bank_id (bank_id_to_dram_channel a))
    (insert_new bank_id [bank_id] (dram_channel_to_bank_ids a))
    (bank_id_to_logical_core a)
    (add_ids t (mkCoord bank_id 0) [bank_id] (logical_core_to_bank_ids a)) a.

Fixpoint mapM_res {A B} (f : A -> res B) (l : list A) : res (list B) :=
  match l with
  | [] => mret []
  | x :: l => y ← f x; ys ← mapM_res f l; mret (y :: ys)
  end.

Definition init_one_bank_per_channel (c : AllocatorConfig) (a : Allocator) : res Allocator :=
  let bank := u64 (dram_bank_size c - dram_unreserved_base c - trace_region_size c) in
  let channels := zrange 0 (num_dram_channels c) in
  bank_offsets ← mapM_res (fun i => o ← opt_res StdException (dram_bank_offsets c !! Z.to_nat i); mret (i32 o)) channels;
  dram ← BankManager_of_offsets DRAM bank_offsets bank (config_alignment c) (dram_unreserved_base c) (disable_interleaved c);
  let a := set_manager DRAM (BankManager_assign dram (dram_manager a)) a in
  let a := fold_left (add_channel DRAM) channels a in
  trace ← BankManager_of_offsets TRACE bank_offsets (trace_region_size c) (config_alignment c)
            (u64 (bank + dram_unreserved_base c)) (disable_interleaved c);
  let a := set_manager TRACE (BankManager_assign trace (trace_buffer_manager a)) a in
  mret (fold_left (add_channel TRACE) channels a).

Definition add_l1_core (a : Allocator) (p : Z * CoreCoord) : Allocator :=
  let '(bank_id, logical_core) := p in
  set_tables (bank_id_to_dram_channel a) (dram_channel_to_bank_ids a)
    (insert_new bank_id logical_core (bank_id_to_logical_core a))
    (add_ids L1 logical_core [bank_id] (logical_core_to_bank_ids a)) a.

Definition init_one_bank_per_l1 (c : AllocatorConfig) (a : Allocator) : res Allocator :=
  check Assert (l1_small_size c =? 0);;
  let num_l1_banks := CoreRangeSet_num_cores (worker_grid c) in
  let l1_bank_size := u64 (worker_l1_size c - l1_unreserved_base c) in
  l1 ← BankManager_of_offsets L1 (map (fun _ => 0) (zrange 0 num_l1_banks)) l1_bank_size (config_alignment c)
         (l1_unreserved_base c) (disable_interleaved c);
  let a := set_manager L1 (BankManager_assign l1 (l1_manager a)) a in
  let cores := corerange_to_cores (worker_grid c) None true in
  mret (fold_left add_l1_core (zip (zrange 0 (Z.of_nat (length cores))) cores) a).

(** *** L1 banking *)

Record num_banks_t := mkNumBanks {
  total_banks : Z;
  num_l1_banks : Z;
  num_l1_small_banks : Z;
  per_storage_core : Z;
}.

Definition num_in_category (types : gmap CoreCoord AllocCoreType) (t : AllocCoreType) : Z :=
  map_size (filter (fun p : CoreCoord * AllocCoreType => p.2 = t) types).

Definition compute_total_and_storage_only_num_l1_banks (c : AllocatorConfig) : res num_banks_t :=
  let num_compute_and_storage_cores := num_in_category (core_type_from_noc_coord_table c) ComputeAndStore in
  let num_storage_only_cores := num_in_category (core_type_from_noc_coord_table c) StorageOnly in
  per_core ←
    (if 0 <? num_storage_only_cores then
       sz ← opt_res Assert (storage_core_bank_size c);
       check Undefined (negb (sz =? 0));;
       check Assert (worker_l1_size c mod sz =? 0);;
       mret (u32 (worker_l1_size c / sz))
     else mret 0);
  let small := if 0 <? l1_small_size c then num_compute_and_storage_cores else 0 in
  let l1 := u32 (num_compute_and_storage_cores + u32 (per_core * num_storage_only_cores)) in
  mret (mkNumBanks (u32 (l1 + small)) l1 small per_core).

Section L1Banking.
(** The standard library's [std::shuffle] with the fixed seed, and the mailbox
    address of the hardware layer. *)
Context (shuffle : list Z -> list Z) (mem_mailbox_base : Z).

Definition logical_to_noc_coord (c : AllocatorConfig) (logical_core : CoreCoord) : res CoreCoord :=
  x ← opt_res Assert (worker_log_to_physical_routing_x c !! i32 (cx logical_core));
  y ← opt_res Assert (worker_log_to_physical_routing_y c !! i32 (cy logical_core));
  let noc_core := mkCoord (u64 x) (u64 y) in
  check Assert (bool_decide (noc_core ∈ dom (core_type_from_noc_coord_table c)));;
  mret noc_core.

Definition core_type (c : AllocatorConfig) (logical_core : CoreCoord) : res AllocCoreType :=
  noc_core ← logical_to_noc_coord c logical_core;
  opt_res StdException (core_type_from_noc_coord_table c !! noc_core).

Definition shuffled_banks (c : AllocatorConfig) (n : num_banks_t) : res (list Z) :=
  match l1_bank_remap c with
  | [] => mret (shuffle (zrange 0 (num_l1_banks n)))
  | _ => check Assert (num_l1_banks n =? Z.of_nat (length (l1_bank_remap c)));; mret (l1_bank_remap c)
  end.

(** State of the loop over the cores. *)
Record bank_assignment := mkAssign {
  assigned_core : gmap Z CoreCoord;
  assigned_ids : gmap BufferType (gmap CoreCoord (list Z));
  assigned_offset : gmap Z Z;
  next_bank : Z;
}.

(** [shuffled_bank_id[bank_id]] *)
Definition remapped (shuffled_bank_id : list Z) (bank_id : Z) : res Z :=
  opt_res Undefined (shuffled_bank_id !! Z.to_nat bank_id).

Definition storage_bank_offset (c : AllocatorConfig) (n : num_banks_t) (storage_bank_index : Z) : res Z :=
  sz ← opt_res StdException (storage_core_bank_size c);
  if negb (sz =? worker_l1_size c) then mret (u32 (storage_bank_index * sz) - sz)
  else check Throw (per_storage_core n =? 1);; mret 0.

(** The banks of a storage core: the ids so far, and the state. *)
Fixpoint assign_storage_banks (c : AllocatorConfig) (n : num_banks_t) (shuffled_bank_id : list Z)
    (logical_core : CoreCoord) (indices : list Z) (st : list Z * bank_assignment) : res (list Z * bank_assignment) :=
  match indices with
  | [] => mret st
  | i :: indices =>
      let '(bank_ids, st) := st in
      b ← remapped shuffled_bank_id (next_bank st);
      o ← storage_bank_offset c n i;
      assign_storage_banks c n shuffled_bank_id logical_core indices
        (bank_ids ++ [b],
         mkAssign (insert_new b logical_core (assigned_core st)) (assigned_ids st)
           (insert_new b o (assigned_offset st)) (u32 (next_bank st + 1)))
  end.

Definition assign_core (c : AllocatorConfig) (n : num_banks_t) (shuffled_bank_id : list Z)
    (logical_core : CoreCoord) (st : bank_assignment) : res bank_assignment :=
  t ← core_type c logical_core;
  match t with
  | ComputeAndStore =>
      b ← remapped shuffled_bank_id (next_bank st);
      mret (mkAssign (insert_new b logical_core (assigned_core st))
              (add_ids L1 logical_core [b] (assigned_ids st))
              (insert_new b 0 (assigned_offset st)) (u32 (next_bank st + 1)))
  | StorageOnly =>
      '(bank_ids, st) ← assign_storage_banks c n shuffled_bank_id logical_core
                          (zrange 0 (per_storage_core n)) ([], st);
      mret (mkAssign (assigned_core st) (add_ids L1 logical_core bank_ids (assigned_ids st))
              (assigned_offset st) (next_bank st))
  | _ => mret st
  end.

(** The loop over the compute cores for the small region. *)
Definition assign_small (c : AllocatorConfig) (logical_core : CoreCoord) (st : bank_assignment) : res bank_assignment :=
  t ← core_type c logical_core;
  match t with
  | ComputeAndStore =>
      let b := next_bank st in
      mret (mkAssign (insert_new b logical_core (assigned_core st))
              (add_ids L1_SMALL logical_core [b] (assigned_ids st))
              (insert_new b 0 (assigned_offset st)) (u32 (b + 1)))
  | _ => mret st
  end.

Definition init_compute_and_storage_l1_bank_manager (c : AllocatorConfig) (a : Allocator) : res Allocator :=
  check Fatal (CoreRangeSet_contains_set (worker_grid c) (compute_grid c));;
  n ← compute_total_and_storage_only_num_l1_banks c;
  shuffled_bank_id ← shuffled_banks c n;
  let cores := corerange_to_cores (worker_grid c) None true in
  st ← fold_res (assign_core c n shuffled_bank_id) cores
         (mkAssign (bank_id_to_logical_core a) (logical_core_to_bank_ids a) ∅ 0);
  check Assert (next_bank st =? Z.of_nat (length shuffled_bank_id));;
  let bank_id_to_bank_offset := assigned_offset st in
  let st := mkAssign (assigned_core st) (assigned_ids st) ∅ (next_bank st) in
  st ← (if 0 <? l1_small_size c then
          check Assert (0 <? num_l1_small_banks n);; fold_res (assign_small c) cores st
        else mret st);
  let small_bank_id_to_bank_offset := assigned_offset st in
  check Assert (map_size bank_id_to_bank_offset =? num_l1_banks n);;
  check Assert (map_size small_bank_id_to_bank_offset =? num_l1_small_banks n);;
  check Assert (map_size bank_id_to_bank_offset + map_size small_bank_id_to_bank_offset =? total_banks n);;
  check Undefined (negb (config_alignment c =? 0));;
  let storage_core_unreserved_base :=
    u32 (u32 (mem_mailbox_base + config_alignment c - 1) / config_alignment c * config_alignment c) in
  let l1_bank_size := match storage_core_bank_size c with
    | Some sz => sz
    | None => u64 (worker_l1_size c - l1_unreserved_base c)
    end in
  let interleaved_address_limit := u64 (u64 (worker_l1_size c - l1_bank_size) + storage_core_unreserved_base) in
  let allocatable_l1_size := u64 (worker_l1_size c - l1_unreserved_base c - l1_small_size c) in
  l1 ← BankManager_of_map L1 bank_id_to_bank_offset allocatable_l1_size interleaved_address_limit
         (config_alignment c) (l1_unreserved_base c) (disable_interleaved c);
  let small_interleaved_address_limit := u64 (worker_l1_size c - l1_small_size c) in
  let small_alloc_offset := u64 (l1_unreserved_base c + allocatable_l1_size) in
  check Assert (u64 (l1_unreserved_base c + l1_small_size c) <=? worker_l1_size c);;
  small ← BankManager_of_map L1_SMALL small_bank_id_to_bank_offset (l1_small_size c) small_interleaved_address_limit
            (config_alignment c) small_alloc_offset (disable_interleaved c);
  let a := set_tables (bank_id_to_dram_channel a) (dram_channel_to_bank_ids a) (assigned_core st) (assigned_ids st) a in
  let a := set_manager L1 (BankManager_assign l1 (l1_manager a)) a in
  mret (set_manager L1_SMALL (BankManager_assign small (l1_small_manager a)) a).

(** The constructor, for the two init functions of a descriptor. *)
Definition Allocator_ctor (c : AllocatorConfig) (dram_init l1_init : AllocatorConfig -> Allocator -> res Allocator)
    : res Allocator :=
  let a := mkAllocator false BankManager_default BankManager_default BankManager_default BankManager_default
             ∅ ∅ ∅ ∅ ∅ c in
  a ← dram_init c a;
  a ← l1_init c a;
  check Assert (bool_decide (bank_id_to_dram_channel a <> ∅ /\ dram_channel_to_bank_ids a <> ∅));;
  check Assert (bool_decide (bank_id_to_logical_core a <> ∅));;
  mret a.

Definition L1BankingAllocator (c : AllocatorConfig) : res Allocator :=
  Allocator_ctor c init_one_bank_per_channel init_compute_and_storage_l1_bank_manager.
Definition BasicAllocator (c : AllocatorConfig) : res Allocator :=
  Allocator_ctor c init_one_bank_per_channel init_one_bank_per_l1.
End L1Banking.
