(* ===== verification/AllocatorProps.v ===== *)
(** * What the bank managers and the allocator promise *)

From S2P Require Import Prelude CoreCoord FreeList FreeListSpec FreeListTheorems FreeListQuery WorkSplit Allocator.

(** ** Size per bank *)

(** Size per bank.  When a buffer of whole pages is spread over banks, each bank
    gets room for the rounded-up share of pages, each page rounded up to the
    alignment; the banks together hold the buffer. *)
Theorem size_per_bank_suffices pages page n al :
  0 <= pages -> 0 < page -> 0 < n -> 0 < al -> page + al <= 2 ^ 32 -> pages * zceil page al < 2 ^ 64 ->
  exists per_bank, SizeBytesPerBank (pages * page) page n al = Ok (per_bank * zceil page al) /\
    per_bank * n >= pages /\ (pages = 0 \/ (per_bank - 1) * n < pages) /\
    per_bank * zceil page al * n >= pages * page /\ (per_bank * zceil page al) mod al = 0.
Proof.
  intros Hp Hpage Hn Hal Hsum Hmax. destruct (zceil_spec page al Hal) as [Hz Hzm]. unfold SizeBytesPerBank.
  rewrite (proj2 (Z.eqb_neq page 0)), Z.mod_mul, Z.div_mul by lia. cbn [Z.eqb check]. rewrite res_bind_ret.
  rewrite (u32_small page), round_up_ok by (pow2; lia).
  assert (Hmod : forall k, (k * zceil page al) mod al = 0) by (intros k; rewrite Z.mul_mod, Hzm, Z.mul_0_r by lia; by apply Z.mod_0_l; lia).
  destruct (Z.eqb_spec pages 0) as [->|Hne].
  - exists 0. cbn. split_and!; try done; try lia.
  - rewrite (proj2 (Z.eqb_neq n 0)) by lia. cbn [negb check]. rewrite !res_bind_ret.
    pose proof (Z.div_mod (pages - 1) n ltac:(lia)). pose proof (Z.mod_pos_bound (pages - 1) n Hn).
    assert (0 <= (pages - 1) / n <= pages - 1) by (split; [apply Z.div_pos; lia|apply Z.div_le_upper_bound; nia]).
    exists (1 + (pages - 1) / n). rewrite u64_small by (pow2; nia). split; [done|].
    split_and!; [nia|right; nia|nia|apply Hmod].
Qed.

Lemma size_per_bank_suffices_witness : exists k, SizeBytesPerBank (100 * 2048) 2048 12 32 = Ok (k * 2048) /\ k * 12 >= 100.
Proof.
  destruct (size_per_bank_suffices 100 2048 12 32) as (k & He & Hk & _); try (vm_compute; congruence); try lia.
  exists k. split; [exact He|exact Hk].
Defined.

(** ** Which ranges a release keeps *)

Lemma allocated_coalesce x sz m : (x, sz, true) ∈ coalesce m <-> (x, sz, true) ∈ m.
Proof.
  induction m as [|[[a s] b] m IH]; [done|]. rewrite coalesce_cons. destruct b.
  - by rewrite !elem_of_cons, IH.
  - rewrite elem_of_cons, <- IH. destruct (coalesce m) as [|[[a' s'] []] r]; rewrite !elem_of_cons; intuition congruence.
Qed.

Lemma allocated_mark_free a x sz m : (x, sz, true) ∈ mark_free a m <-> (x, sz, true) ∈ m /\ x <> a.
Proof.
  induction m as [|[[y s] b] m IH]; [split; [by intros []%elem_of_nil|by intros [[]%elem_of_nil _]]|].
  rewrite mark_free_cons, !elem_of_cons, IH. destruct (Z.eqb_spec y a); intuition congruence.
Qed.

Lemma allocated_release a x sz m : (x, sz, true) ∈ release a m <-> (x, sz, true) ∈ m /\ x <> a.
Proof.
  unfold release. destruct (existsb (allocated_at a) m) eqn:E.
  - by rewrite allocated_coalesce, allocated_mark_free.
  - split; [|tauto]. intros H. split; [done|]. intros ->. apply not_true_iff_false in E. apply E.
    apply existsb_exists. exists (a, sz, true). rewrite <- list_elem_of_In. split; [done|]. cbn. by rewrite Z.eqb_refl.
Qed.

(** A coalesced map without allocations is one free range. *)
Lemma all_free base m top :
  tiles base m top -> coalesced m -> base < top -> (forall x sz, (x, sz, true) ∈ m -> False) ->
  m = [(base, top - base, false)].
Proof.
  destruct m as [|[[a sz] b] m]; cbn [tiles]; [lia|]. intros (-> & Hs & Ht) Hc Hlt Hno.
  destruct b; [exfalso; eapply Hno; left|]. apply coalesced_cons in Hc as [Hf _]. specialize (Hf eq_refl).
  destruct m as [|[[x y] []] m]; cbn [tiles] in Ht; [subst; do 3 f_equal; lia| |done].
  exfalso. eapply Hno. right. left.
Qed.

(** ** Bank managers *)

(** The manager's free list holds [m], and every allocation of [m] is tracked. *)
Definition bank_inv (b : BankManager) (m : list range) : Prop :=
  exists f, allocator_ b = Some f /\ holds f m /\ 0 < max_size_bytes f /\
    forall x sz, (x, sz, true) ∈ m -> x + offset_bytes f ∈ allocated_buffers_ b.

Lemma on_allocator_ok {A} (m : F A) f f' (r : res A) b :
  allocator_ b = Some f -> m f = (f', r) -> on_allocator m b = (set_bank_allocator (Some f') b, r).
Proof. intros H1 H2. unfold on_allocator. by rewrite H1, H2. Qed.

Lemma deallocate_list_ok l b f m :
  allocator_ b = Some f -> holds f m ->
  exists f' m', mapM_ (fun addr => on_allocator (deallocate addr)) l b = (set_bank_allocator (Some f') b, Ok tt) /\
    holds f' m' /\ config f' = config f /\
    forall x sz, (x, sz, true) ∈ m' <-> (x, sz, true) ∈ m /\ forall a, a ∈ l -> x <> u64 (a - offset_bytes f).
Proof.
  revert b f m. induction l as [|a l IH]; intros b f m Hb Hh.
  - exists f, m. split; [cbn; destruct b; cbn in *; by subst|]. split_and!; [done|done|].
    intros x sz. split; [|tauto]. intros H. split; [done|]. by intros a []%elem_of_nil.
  - destruct Hh as (bl & Hr & Hl & <-). destruct (deallocate_ok f bl a Hr Hl) as (f1 & bl1 & He & Hr1 & Hl1 & Hc1 & Hm1).
    cbn [mapM_]. erewrite M_bind_ok by (by apply (on_allocator_ok _ f f1)).
    destruct (IH (set_bank_allocator (Some f1) b) f1 (map_of bl1)) as (f' & m' & He' & Hh' & Hc' & Hm'); [done|by exists bl1|].
    exists f', m'. rewrite He'. split_and!; [by destruct b|done|congruence|].
    intros x sz. rewrite Hm', Hm1, allocated_release. unfold config in Hc1. injection Hc1 as _ _ -> _ _ _.
    setoid_rewrite elem_of_cons. naive_solver.
Qed.

(** [deallocate_all] frees every buffer the manager tracks, in whatever order the
    set is walked: a manager that tracks all its allocations is left with one free
    block that spans the bank. *)
Theorem deallocate_all_frees order b m :
  (forall s a, a ∈ order s <-> a ∈ s) -> bank_inv b m ->
  exists b' f', BankManager_deallocate_all order b = (b', Ok tt) /\ allocator_ b' = Some f' /\
    holds f' [(shrink_size_ f', max_size_bytes f', false)] /\
    allocated_buffers_ b' = allocated_buffers_ b.
Proof.
  intros Ho (f & Hb & Hh & Hpos & Htr). unfold BankManager_deallocate_all. erewrite M_bind_ok by reflexivity. cbv beta.
  destruct (deallocate_list_ok (order (allocated_buffers_ b)) b f m Hb Hh) as (f' & m' & He & Hh' & Hc & Hm').
  eexists _, f'. split; [exact He|]. split; [done|]. split; [|done].
  unfold config in Hc. injection Hc as _ E1 E2 _ _ E3.
  rewrite (all_free (shrink_size_ f') m' (shrink_size_ f' + max_size_bytes f')) in Hh'.
  - by replace (shrink_size_ f' + max_size_bytes f' - shrink_size_ f') with (max_size_bytes f') in Hh' by lia.
  - by apply holds_tiles.
  - by eapply holds_coalesced.
  - lia.
  - intros x sz Hx. apply Hm' in Hx as [Hx Hno]. apply (Hno (x + offset_bytes f)); [by apply Ho, (Htr x sz)|].
    pose proof (holds_config _ _ Hh) as Hcf. destruct Hcf as [_ _ C1 C2 C3 C4].
    pose proof (tiles_bounds _ _ _ _ _ _ (holds_tiles _ _ Hh) Hx). rewrite u64_small; lia.
Qed.

Definition demo_bank : BankManager :=
  default BankManager_default
    (match BankManager_of_offsets L1_SMALL [0; 0; 0; 0] 4096 32 1024 false with Ok b => Some b | Err _ => None end).

Lemma demo_bank_inv : bank_inv demo_bank (fresh_region 4096).
Proof.
  destruct (FreeList_new_ok 4096 1024 32 32 FIRST) as (s & He & Hh & Hc); try lia; [done|].
  exists s. unfold config in Hc. injection Hc as _ E1 _ _ _ _. split; [|split; [done|split; [lia|]]].
  - unfold demo_bank, BankManager_of_offsets, BankManager_of_map, init_allocator. by rewrite He.
  - intros x sz Hx. by apply list_elem_of_singleton in Hx.
Qed.

Lemma deallocate_all_frees_witness :
  exists b' f', BankManager_deallocate_all elements demo_bank = (b', Ok tt) /\ allocator_ b' = Some f' /\
    holds f' [(shrink_size_ f', max_size_bytes f', false)].
Proof.
  destruct (deallocate_all_frees elements demo_bank (fresh_region 4096)) as (b' & f' & H1 & H2 & H3 & _);
    [intros s a; apply elem_of_elements|apply demo_bank_inv|].
  exists b', f'. split; [exact H1|]. split; [exact H2|exact H3].
Defined.

(** ** Allocation *)

(** A request of [size] bytes in pages, spread over [n] banks above [limit]: the
    banks of a sharded request are its shards, those of an interleaved one all the
    banks of the manager. *)
Definition request (b : BankManager) (grid : CoreRangeSet) (shards : option Z) (n limit : Z) : Prop :=
  match shards with
  | Some k => n = k /\ k <= CoreRangeSet_num_cores grid /\ limit = 0
  | None => n = BankManager_num_banks b /\
      if decide (buffer_type_ b = L1) then limit = interleaved_address_limit_ b /\ 0 < limit else limit = 0
  end.

Lemma set_bank_allocator_same b f : allocator_ b = Some f -> set_bank_allocator (Some f) b = b.
Proof. intros H. destruct b. cbn in *. by subst. Qed.

Lemma BankManager_allocate_run b f size page bu grid shards n per limit :
  allocator_ b = Some f -> request b grid shards n limit -> SizeBytesPerBank size page n (alignment_bytes_ b) = Ok per ->
  BankManager_allocate_buffer size page bu grid shards b =
    (address ← on_allocator (allocate per bu limit);
     match address with
     | None => fail Throw
     | Some a => modify (fun b => set_allocated_buffers ({[a]} ∪ allocated_buffers_ b) b);; mret a
     end) b.
Proof.
  intros Hb Hreq Hper.
  unfold BankManager_allocate_buffer. erewrite M_bind_ok by reflexivity. cbv beta.
  destruct shards as [k|]; cbn [request] in Hreq.
  - destruct Hreq as (-> & Hk & ->). rewrite (proj2 (Z.leb_le _ _) Hk). cbn [check]. rewrite res_bind_ret.
    erewrite M_bind_ok by reflexivity. rewrite Hper. erewrite M_bind_ok by reflexivity.
    erewrite M_bind_ok by reflexivity. erewrite M_bind_ok by (by rewrite Hb). done.
  - destruct Hreq as (-> & Hl). erewrite M_bind_ok by reflexivity. rewrite Hper. erewrite M_bind_ok by reflexivity.
    case_decide as Ht.
    + destruct Hl as (-> & Hl). rewrite (bool_decide_true _ Ht), (proj2 (Z.ltb_lt _ _) Hl). cbn [andb check]. rewrite res_bind_ret.
      erewrite M_bind_ok by reflexivity. erewrite M_bind_ok by (by rewrite Hb). done.
    + subst limit. rewrite (bool_decide_false _ Ht), andb_false_r.
      erewrite M_bind_ok by reflexivity. erewrite M_bind_ok by (by rewrite Hb). done.
Qed.

Lemma BankManager_allocate_ok b f m size page bu grid shards n per limit :
  allocator_ b = Some f -> holds f m -> request b grid shards n limit ->
  SizeBytesPerBank size page n (alignment_bytes_ b) = Ok per -> 0 <= per -> per + alignment f <= 2 ^ 64 ->
  let sz := alloc_size_of f per in
  (BankManager_allocate_buffer size page bu grid shards b = (b, Err Throw) /\ forall r, r ∈ m -> fits_range sz r = false) \/
  (exists l r k f', m = l ++ r :: k /\ fits_range sz r = true /\ config f' = config f /\
     let a := place bu sz r + offset_bytes f in
     holds f' (l ++ carve r (place bu sz r) sz ++ k) /\
     BankManager_allocate_buffer size page bu grid shards b =
       if a <? limit then (set_bank_allocator (Some f') b, Err Throw)
       else (set_allocated_buffers ({[a]} ∪ allocated_buffers_ b) (set_bank_allocator (Some f') b), Ok a)).
Proof.
  intros Hb Hh Hreq Hper H0 H1 sz.
  rewrite (BankManager_allocate_run b f size page bu grid shards n per limit Hb Hreq Hper). destruct (allocate_ok f m per bu limit Hh H0 H1) as [[He Hn]|(l & r & k & f' & -> & (Hf & _) & He & Hh' & Hc)].
  - left. split; [|done]. erewrite M_bind_ok by exact (on_allocator_ok _ _ _ _ _ Hb He). unfold fail. by rewrite set_bank_allocator_same.
  - right. exists l, r, k, f'. split; [done|]. split; [done|]. split; [done|]. intros a. split; [done|].
    unfold within_limit in He. fold sz a in He. destruct (a <? limit).
    + by erewrite M_bind_err by exact (on_allocator_ok _ _ _ _ _ Hb He).
    + by erewrite M_bind_ok by exact (on_allocator_ok _ _ _ _ _ Hb He).
Qed.

(** C21: Allocation through the allocator.  When [allocate_buffer] returns, the
    address is at or above the limit of an interleaved request, its range in the
    bank is apart from every live range, the manager of the buffer's type tracks
    it, every other manager and table is as before, and the buffer is recorded as
    live. *)
Theorem allocate_buffer_safe buffer a a' addr b m n per limit :
  manager_of (buffer_type buffer) a = Ok b -> bank_inv b m ->
  request b (compute_grid (config_ a)) (buffer_num_cores buffer) n limit ->
  SizeBytesPerBank (aligned_size buffer) (aligned_page_size buffer) n (alignment_bytes_ b) = Ok per ->
  0 <= per -> (forall f, allocator_ b = Some f -> per + alignment f <= 2 ^ 64) ->
  allocate_buffer buffer a = (a', Ok addr) ->
  exists b' m' f, a' = set_live ({[buffer_id buffer]} ∪ allocated_buffers a) (set_manager (buffer_type buffer) b' a) /\
    allocator_ b = Some f /\ bank_inv b' m' /\ limit <= addr /\ addr ∈ allocated_buffers_ b' /\
    let start := addr - offset_bytes f in let sz := alloc_size_of f per in
    per <= sz /\ (forall x z, (x, z, true) ∈ m -> x + z <= start \/ start + sz <= x) /\
    forall x z, (x, z, true) ∈ m' <-> (x, z, true) ∈ m \/ (x, z) = (start, sz).
Proof.
  intros Hm (f & Hb & Hh & Hpos & Htr) Hreq Hper H0 H1 Ha. specialize (H1 f Hb).
  destruct (BankManager_allocate_ok b f m _ _ (buffer_bottom_up buffer) _ _ n per limit Hb Hh Hreq Hper H0 H1)
    as [[He Hn]|(l & r & k & f' & -> & Hf & Hc & Hh' & He)].
  all: unfold allocate_buffer in Ha; apply M_bind_inv in Ha as (s1 & a1 & [= <- <-] & Ha).
  all: apply M_bind_inv in Ha as (s2 & [] & Hw1 & Ha); apply M_bind_inv in Ha as (s3 & [] & Hw2 & Ha).
  all: apply when_require in Hw1 as [-> _]; apply when_require in Hw2 as [-> _].
  all: apply M_bind_inv in Ha as (s4 & ad & Hal & Ha); unfold on_manager, base_alloc in Hal; rewrite Hm, He in Hal.
  { congruence. }
  case_match eqn:El; [congruence|]. injection Hal as <- <-. apply Z.ltb_ge in El.
  set (start := place (buffer_bottom_up buffer) (alloc_size_of f per) r) in *.
  eassert (Hadd : addr = start + offset_bytes f /\ a' = _) by (cbn in Ha; injection Ha as <- <-; split; reflexivity).
  destruct Hadd as [-> ->]. destruct (carve_safe f l r k (buffer_bottom_up buffer) _ Hh Hf) as (C1 & C2 & C3 & C4). fold start in C1, C2, C3, C4.
  assert (Hoff : offset_bytes f' = offset_bytes f /\ max_size_bytes f' = max_size_bytes f) by (unfold config in Hc; split; congruence).
  destruct Hoff as [Ho Hmx].
  eexists _, _, f. split; [destruct a, (buffer_type buffer); reflexivity|]. split; [done|].
  split; [|split; [done|split; [set_solver|]]].
  - exists f'. split; [done|]. split; [exact Hh'|]. split; [lia|]. intros x z Hx. rewrite Ho.
    apply C4 in Hx as [Hx|[= -> ->]]; [|set_solver]. specialize (Htr _ _ Hx). set_solver.
  - intros st sz. assert (st = start) as -> by (unfold st; lia). split_and!; [|done|exact C4].
    by destruct (alloc_size_ok f per (holds_config _ _ Hh) H0 H1) as (_ & _ & ?).
Qed.

(** ** The bank tables *)

Definition ids_at (m : gmap BufferType (gmap CoreCoord (list Z))) (t : BufferType) (core : CoreCoord) : option (list Z) :=
  default ∅ (m !! t) !! core.

Lemma ids_at_add m t core ids t' core' :
  ids_at m t core = None ->
  ids_at (add_ids t core ids m) t' core' = if decide ((t', core') = (t, core)) then Some ids else ids_at m t' core'.
Proof.
  unfold ids_at, add_ids, insert_new. intros H. rewrite H. destruct (decide (t' = t)) as [->|Ht].
  - rewrite lookup_insert_eq. cbn. destruct (decide (core' = core)) as [->|Hc].
    + by rewrite lookup_insert_eq, decide_True.
    + by rewrite lookup_insert_ne, decide_False by congruence.
  - by rewrite lookup_insert_ne, decide_False by congruence.
Qed.

Lemma lookup_insert_new {A} (m : gmap Z A) k a i :
  m !! k = None -> insert_new k a m !! i = if decide (i = k) then Some a else m !! i.
Proof. intros H. unfold insert_new. rewrite H. case_decide; [subst; apply lookup_insert_eq|by apply lookup_insert_ne]. Qed.

Definition l1_kind (t : BufferType) : bool := bool_decide (t = L1 \/ t = L1_SMALL).

(** The two tables are inverse to each other on the L1 kinds. *)
Definition tables_ok (cores : gmap Z CoreCoord) (ids : gmap BufferType (gmap CoreCoord (list Z))) : Prop :=
  forall b core, cores !! b = Some core <-> exists t l, l1_kind t = true /\ ids_at ids t core = Some l /\ b ∈ l.

(** Giving new banks to a core that has none keeps the tables inverse. *)
Lemma tables_register cores cores' ids t core bs :
  tables_ok cores ids -> l1_kind t = true -> ids_at ids t core = None ->
  (forall b, b ∈ bs -> cores !! b = None) ->
  (forall b, cores' !! b = if decide (b ∈ bs) then Some core else cores !! b) ->
  tables_ok cores' (add_ids t core bs ids).
Proof.
  intros H Ht Hc Hnew Hcs b core'. rewrite Hcs. setoid_rewrite (ids_at_add ids t core bs); [|done]. split.
  - case_decide as Hb; [intros [= <-]|].
    + exists t, bs. by rewrite decide_True.
    + intros (t' & l & Hk & Hl & Hin)%H. exists t', l. rewrite decide_False; [done|]. intros [= -> ->]. congruence.
  - intros (t' & l & Hk & Hl & Hin). case_decide as Ed.
    + injection Ed as -> ->. injection Hl as <-. by rewrite decide_True.
    + assert (Hcb : cores !! b = Some core') by (apply H; by exists t', l).
      case_decide as Hb; [|done]. by rewrite (Hnew b Hb) in Hcb.
Qed.

(** The banks given out so far: a prefix of the shuffled ids. *)
Definition assigned (S : list Z) (k : nat) (st : bank_assignment) : Prop :=
  next_bank st = Z.of_nat k /\ (k <= length S)%nat /\
  (forall b, is_Some (assigned_core st !! b) <-> b ∈ take k S) /\
  (forall b, is_Some (assigned_offset st !! b) <-> b ∈ take k S).

Lemma assign_next S k st core o b ids :
  NoDup S -> Z.of_nat (length S) < 2 ^ 32 -> assigned S k st -> remapped S (next_bank st) = Ok b ->
  let st' := mkAssign (insert_new b core (assigned_core st)) ids (insert_new b o (assigned_offset st)) (u32 (next_bank st + 1)) in
  S !! k = Some b /\ assigned S (k + 1) st' /\ assigned_core st !! b = None /\
  forall i, assigned_core st' !! i = if decide (i = b) then Some core else assigned_core st !! i.
Proof.
  intros Hd Hlen (Hn & Hk & Hac & Hao) Hb st'. unfold remapped, opt_res in Hb. rewrite Hn, Nat2Z.id in Hb. case_match eqn:Hs; [|done].
  injection Hb as ->. pose proof (lookup_lt_Some _ _ _ Hs). assert (Hfr : b ∉ take k S).
  { intros (i & Hi & Hlt)%elem_of_take. pose proof (NoDup_lookup _ _ _ _ Hd Hs Hi). lia. }
  assert (N1 : assigned_core st !! b = None) by (apply eq_None_not_Some; by rewrite Hac).
  assert (N2 : assigned_offset st !! b = None) by (apply eq_None_not_Some; by rewrite Hao).
  assert (Htk : take (k + 1) S = take k S ++ [b]) by (rewrite Nat.add_1_r; by apply take_S_r).
  split; [done|]. split; [|split; [done|intros i; by apply lookup_insert_new]].
  unfold assigned, st'. cbn. rewrite Hn, u32_small by lia. split; [lia|]. split; [lia|].
  rewrite Htk. split; intros i; rewrite lookup_insert_new, elem_of_app, list_elem_of_singleton by done.
  - rewrite <- Hac. case_decide; [|naive_solver]. split; [by right|done].
  - rewrite <- Hao. case_decide; [|naive_solver]. split; [by right|done].
Qed.

Lemma assign_storage_banks_ok c n S core indices :
  NoDup S -> Z.of_nat (length S) < 2 ^ 32 -> forall acc st acc' st' k,
  assigned S k st -> assign_storage_banks c n S core indices (acc, st) = Ok (acc', st') ->
  exists bs k', acc' = acc ++ bs /\ assigned S k' st' /\ assigned_ids st' = assigned_ids st /\
    (forall b, b ∈ bs -> assigned_core st !! b = None) /\
    forall b, assigned_core st' !! b = if decide (b ∈ bs) then Some core else assigned_core st !! b.
Proof.
  intros Hd Hlen. induction indices as [|i indices IH]; intros acc st acc' st' k Ha He; cbn [assign_storage_banks] in He.
  - injection He as <- <-. exists [], k. rewrite app_nil_r. split_and!; try done. by intros b []%elem_of_nil.
  - apply bind_ok in He as (b & Hb & He). apply bind_ok in He as (o & Ho & He).
    destruct (assign_next S k st core o b (assigned_ids st) Hd Hlen Ha Hb) as (Hs & Ha1 & Hfr & Hl).
    destruct (IH _ _ _ _ _ Ha1 He) as (bs & k' & -> & Ha' & Hids & Hnew & Hl').
    exists (b :: bs), k'. rewrite <- app_assoc. split_and!; [done|done|exact Hids| |].
    + intros x [->|Hx]%elem_of_cons; [done|]. specialize (Hnew x Hx). rewrite Hl in Hnew. by case_decide.
    + intros x. rewrite Hl', Hl. destruct (decide (x ∈ bs)) as [Hx|Hx].
      * rewrite decide_True by (by right). done.
      * destruct (decide (x = b)) as [->|Hne]; [by rewrite decide_True by left|].
        rewrite decide_False; [done|]. by intros [?|?]%elem_of_cons.
Qed.

Lemma assign_core_ok c n S core st st' k :
  NoDup S -> Z.of_nat (length S) < 2 ^ 32 -> assigned S k st -> tables_ok (assigned_core st) (assigned_ids st) ->
  ids_at (assigned_ids st) L1 core = None -> assign_core c n S core st = Ok st' ->
  exists k', assigned S k' st' /\ tables_ok (assigned_core st') (assigned_ids st') /\
    forall t core', (t, core') <> (L1, core) -> ids_at (assigned_ids st') t core' = ids_at (assigned_ids st) t core'.
Proof.
  intros Hd Hlen Ha Ht Hc He. unfold assign_core in He. apply bind_ok in He as (ty & _ & He). destruct ty.
  1,3,5: injection He as <-; by exists k.
  - apply bind_ok in He as ([bs st1] & Hs & [= <-]).
    destruct (assign_storage_banks_ok c n S core _ Hd Hlen _ _ _ _ _ Ha Hs) as (bs' & k' & E & Ha' & Hids & Hnew & Hl).
    cbn in E. subst bs'. exists k'. cbn. split; [exact Ha'|]. rewrite Hids. split.
    + by eapply tables_register.
    + intros t core' Hne. rewrite ids_at_add by done. by rewrite decide_False.
  - apply bind_ok in He as (b & Hb & [= <-]).
    destruct (assign_next S k st core 0 b (add_ids L1 core [b] (assigned_ids st)) Hd Hlen Ha Hb) as (Hs & Ha1 & Hfr & Hl).
    exists (k + 1)%nat. split; [exact Ha1|]. cbn. split.
    + eapply tables_register; [exact Ht|done|done| |].
      * by intros x ->%list_elem_of_singleton.
      * intros x. cbn in Hl. rewrite Hl. apply decide_ext. by rewrite list_elem_of_singleton.
    + intros t core' Hne. rewrite ids_at_add by done. by rewrite decide_False.
Qed.

Lemma assign_cores_ok c n S cores :
  NoDup S -> Z.of_nat (length S) < 2 ^ 32 -> NoDup cores -> forall st st' k,
  assigned S k st -> tables_ok (assigned_core st) (assigned_ids st) ->
  (forall core, core ∈ cores -> ids_at (assigned_ids st) L1 core = None) ->
  fold_res (assign_core c n S) cores st = Ok st' ->
  exists k', assigned S k' st' /\ tables_ok (assigned_core st') (assigned_ids st') /\
    forall t core, t <> L1 -> ids_at (assigned_ids st') t core = ids_at (assigned_ids st) t core.
Proof.
  intros Hd Hlen. induction 1 as [|core cores Hnin Hnd IH]; intros st st' k Ha Ht Hno He; cbn [fold_res] in He.
  - injection He as <-. by exists k.
  - apply bind_ok in He as (st1 & H1 & He).
    destruct (assign_core_ok c n S core st st1 k Hd Hlen Ha Ht) as (k1 & Ha1 & Ht1 & Hl1); [apply Hno; left|done|].
    destruct (IH st1 st' k1 Ha1 Ht1) as (k' & Ha' & Ht' & Hl'); [|done|].
    + intros core' Hc. rewrite Hl1 by congruence. apply Hno. by right.
    + exists k'. split_and!; [done..|]. intros t core' Hne. rewrite Hl', Hl1 by congruence. done.
Qed.

(** The loop for the small region gives out the ids from [lo] on. *)
Definition assigned_small (lo : Z) (st : bank_assignment) : Prop :=
  lo <= next_bank st /\ (forall b, lo <= b -> is_Some (assigned_core st !! b) <-> b < next_bank st) /\
  forall b, is_Some (assigned_offset st !! b) <-> lo <= b < next_bank st.

Lemma assign_smalls_ok c lo cores :
  NoDup cores -> forall st st',
  next_bank st + Z.of_nat (length cores) < 2 ^ 32 -> 0 <= lo ->
  assigned_small lo st -> tables_ok (assigned_core st) (assigned_ids st) ->
  (forall core, core ∈ cores -> ids_at (assigned_ids st) L1_SMALL core = None) ->
  fold_res (assign_small c) cores st = Ok st' ->
  assigned_small lo st' /\ tables_ok (assigned_core st') (assigned_ids st') /\
  (forall b, b < lo -> assigned_core st' !! b = assigned_core st !! b).
Proof.
  induction 1 as [|core cores Hnin Hnd IH]; intros st st' Hmax Hlo0 Hs Ht Hno He; cbn [fold_res] in He.
  { injection He as <-. done. }
  destruct Hs as (Hlo & Hb & Ho). cbn [length] in Hmax. apply bind_ok in He as (st1 & H1 & He). unfold assign_small in H1.
  apply bind_ok in H1 as (ty & _ & H1).
  assert (Hsame : Ok st = Ok st1 -> assigned_small lo st' /\ tables_ok (assigned_core st') (assigned_ids st') /\
    (forall b, b < lo -> assigned_core st' !! b = assigned_core st !! b)).
  { intros [= <-]. apply (IH st); try done; [lia|]. intros core' Hc. apply Hno. by right. }
  destruct ty; try exact (Hsame H1). injection H1 as <-.
  assert (N1 : assigned_core st !! next_bank st = None) by (apply eq_None_not_Some; rewrite Hb; lia).
  assert (N2 : assigned_offset st !! next_bank st = None) by (apply eq_None_not_Some; intros Hx%Ho; lia).
  assert (Hc : ids_at (assigned_ids st) L1_SMALL core = None) by (apply Hno; left).
  edestruct IH as (A1 & A2 & A3); [| | | | |exact He|].
  - cbn. rewrite u32_small; lia.
  - done.
  - unfold assigned_small. cbn. rewrite u32_small by lia. split; [lia|]. split; intros b; rewrite lookup_insert_new by done.
    + intros Hb'. case_decide; [subst; split; [lia|done]|]. rewrite Hb by done. lia.
    + case_decide; [subst; split; [lia|done]|]. rewrite Ho. lia.
  - eapply tables_register; [exact Ht|done|done| |].
    + by intros x ->%list_elem_of_singleton.
    + intros x. cbn. rewrite lookup_insert_new by done. apply decide_ext. by rewrite list_elem_of_singleton.
  - intros core' Hc'. cbn. rewrite ids_at_add by done. rewrite decide_False by (intros [= ->]; done). apply Hno. by right.
  - split_and!; [exact A1|exact A2|]. intros b Hlt. rewrite A3 by done. cbn. rewrite lookup_insert_new by done.
    rewrite decide_False by lia. done.
Qed.

Lemma map_size_interval {A} (m : gmap Z A) lo hi :
  lo <= hi -> (forall b, is_Some (m !! b) <-> lo <= b < hi) -> map_size m = hi - lo.
Proof.
  intros Hle H. unfold map_size. rewrite <- size_dom.
  replace (dom m) with (list_to_set (zrange lo hi) : gset Z).
  - rewrite size_list_to_set by apply NoDup_zrange. rewrite length_zrange. lia.
  - apply set_eq. intros b. by rewrite elem_of_list_to_set, elem_of_zrange, elem_of_dom, H.
Qed.

Lemma add_channels_l1 t channels a :
  l1_kind t = false ->
  let a' := fold_left (add_channel t) channels a in
  bank_id_to_logical_core a' = bank_id_to_logical_core a /\
  forall t' core, l1_kind t' = true -> ids_at (logical_core_to_bank_ids a') t' core = ids_at (logical_core_to_bank_ids a) t' core.
Proof.
  intros Ht. revert a. induction channels as [|b channels IH]; intros a; [done|]. cbn [fold_left].
  destruct (IH (add_channel t a b)) as [E1 E2]. cbn zeta. rewrite E1. split; [done|]. intros t' core Hk. rewrite E2 by done.
  unfold add_channel, set_tables, ids_at, add_ids. cbn [logical_core_to_bank_ids]. rewrite lookup_insert_ne; [done|]. intros ->. congruence.
Qed.

Lemma init_dram_l1 c a a' :
  init_one_bank_per_channel c a = Ok a' ->
  bank_id_to_logical_core a' = bank_id_to_logical_core a /\
  forall t core, l1_kind t = true -> ids_at (logical_core_to_bank_ids a') t core = ids_at (logical_core_to_bank_ids a) t core.
Proof.
  unfold init_one_bank_per_channel. intros (offs & _ & H)%bind_ok. apply bind_ok in H as (d & _ & H).
  apply bind_ok in H as (tr & _ & [= <-]).
  split.
  - etrans; [exact (proj1 (add_channels_l1 TRACE _ _ eq_refl))|]. exact (proj1 (add_channels_l1 DRAM _ _ eq_refl)).
  - intros t core Hk. etrans; [exact (proj2 (add_channels_l1 TRACE _ _ eq_refl) t core Hk)|].
    exact (proj2 (add_channels_l1 DRAM _ _ eq_refl) t core Hk).
Qed.

Lemma bank_ids_ids_at a t core ids :
  bank_ids_from_logical_core a t core = Ok ids <-> ids_at (logical_core_to_bank_ids a) t core = Some ids.
Proof.
  unfold bank_ids_from_logical_core, ids_at, opt_res. destruct (logical_core_to_bank_ids a !! t) as [m|]; cbn.
  - destruct (m !! core); split; congruence.
  - rewrite lookup_empty. split; congruence.
Qed.

Lemma logical_core_ok a b core : logical_core_from_bank_id a b = Ok core <-> bank_id_to_logical_core a !! b = Some core.
Proof. unfold logical_core_from_bank_id, opt_res. case_match; split; congruence. Qed.

Lemma bank_offset_ok b i : (exists o, BankManager_bank_offset b i = Ok o) <-> is_Some (bank_id_to_bank_offset_ b !! i).
Proof.
  unfold BankManager_bank_offset, validate_bank_id. rewrite <- elem_of_dom. case_bool_decide as H; cbn.
  - split; [done|]. intros _. apply elem_of_dom in H as [o ->]. by exists o.
  - split; [|done]. by intros [].
Qed.

(** The two loops over the cores, from the tables the DRAM banks leave. *)
Lemma l1_loops_ok c n S cores ac ids st1 st2 :
  NoDup S -> NoDup cores -> S ≡ₚ zrange 0 (Z.of_nat (length S)) ->
  Z.of_nat (length S) + Z.of_nat (length cores) < 2 ^ 32 ->
  ac = ∅ -> (forall t core, l1_kind t = true -> ids_at ids t core = None) ->
  fold_res (assign_core c n S) cores (mkAssign ac ids ∅ 0) = Ok st1 ->
  next_bank st1 = Z.of_nat (length S) ->
  (if 0 <? l1_small_size c then fold_res (assign_small c) cores (mkAssign (assigned_core st1) (assigned_ids st1) ∅ (next_bank st1))
   else Ok (mkAssign (assigned_core st1) (assigned_ids st1) ∅ (next_bank st1))) = Ok st2 ->
  tables_ok (assigned_core st2) (assigned_ids st2) /\
  (forall b, is_Some (assigned_offset st1 !! b) <-> 0 <= b < Z.of_nat (length S)) /\
  (forall b, is_Some (assigned_offset st2 !! b) <-> Z.of_nat (length S) <= b < next_bank st2) /\
  Z.of_nat (length S) <= next_bank st2 /\
  (forall b, 0 <= b < next_bank st2 -> is_Some (assigned_core st2 !! b)).
Proof.
  intros HdS Hd Hperm Hmax -> Hids H1 Hnext H2.
  edestruct (assign_cores_ok c n S cores HdS) as (k & (Hk & Hkl & Hac & Hao) & Ht & Hl); [lia|exact Hd| | | |exact H1|].
  1: instantiate (1 := 0%nat).
  - unfold assigned. cbn. split; [done|]. split; [lia|]. rewrite take_0. split; intros b; rewrite lookup_empty;
      (split; [by intros []|by intros []%elem_of_nil]).
  - intros b core. cbn. rewrite lookup_empty. split; [done|]. intros (t & l & Hkd & Hl & _). by rewrite Hids in Hl.
  - intros core _. by apply Hids.
  - assert (k = length S) as -> by lia. rewrite firstn_all in Hac, Hao.
    assert (Hin : forall b, b ∈ S <-> 0 <= b < Z.of_nat (length S)) by (intros b; rewrite <- elem_of_zrange; split; intros; [by rewrite <- Hperm|by rewrite Hperm]).
    set (st := mkAssign _ _ _ _) in H2.
    assert (Hs : assigned_small (Z.of_nat (length S)) st).
    { unfold assigned_small, st. cbn. rewrite Hk. split; [lia|]. split; intros b; rewrite ?lookup_empty.
      - rewrite Hac, Hin. lia.
      - split; [by intros []|lia]. }
    assert (Hres : assigned_small (Z.of_nat (length S)) st2 /\ tables_ok (assigned_core st2) (assigned_ids st2) /\
      forall b, b < Z.of_nat (length S) -> assigned_core st2 !! b = assigned_core st !! b).
    { destruct (0 <? l1_small_size c); [|by injection H2 as <-].
      apply (assign_smalls_ok c _ cores Hd st); try done; [cbn; lia|lia|]. intros core _. cbn. rewrite Hl by done. by apply Hids. }
    destruct Hres as ((R1 & R2 & R3) & R4 & R5). split_and!; try done.
    + intros b. by rewrite Hao, Hin.
    + intros b [Hb0 Hb]. destruct (decide (b < Z.of_nat (length S))).
      * rewrite R5 by done. apply Hac, Hin. lia.
      * apply R2; lia.
Qed.

(** The bank tables of the L1 banking allocator.  After construction the tables
    between L1 banks and cores are inverse to each other, the L1 manager serves
    exactly the ids below the number of L1 banks, the L1_SMALL manager exactly the
    ids that follow, and every one of these banks has a core. *)
Theorem l1_tables_consistent shuffle mailbox c a n :
  (forall l, shuffle l ≡ₚ l) ->
  (l1_bank_remap c = [] \/ l1_bank_remap c ≡ₚ zrange 0 (Z.of_nat (length (l1_bank_remap c)))) ->
  NoDup (corerange_to_cores (worker_grid c) None true) ->
  compute_total_and_storage_only_num_l1_banks c = Ok n ->
  num_l1_banks n + Z.of_nat (length (corerange_to_cores (worker_grid c) None true)) < 2 ^ 32 -> 0 <= num_l1_banks n ->
  L1BankingAllocator shuffle mailbox c = Ok a ->
  (forall b core, logical_core_from_bank_id a b = Ok core <->
     exists t ids, l1_kind t = true /\ bank_ids_from_logical_core a t core = Ok ids /\ b ∈ ids) /\
  (forall b, (exists o, BankManager_bank_offset (l1_manager a) b = Ok o) <-> 0 <= b < num_l1_banks n) /\
  (forall b, (exists o, BankManager_bank_offset (l1_small_manager a) b = Ok o) <-> num_l1_banks n <= b < total_banks n) /\
  (forall b, 0 <= b < total_banks n -> exists core, logical_core_from_bank_id a b = Ok core).
Proof.
  intros Hsh Hre Hd Hn Hmax Hn0. unfold L1BankingAllocator, Allocator_ctor. set (a0 := mkAllocator _ _ _ _ _ _ _ _ _ _ _).
  intros (a1 & Hdram & H)%bind_ok. apply bind_ok in H as (a2 & Hl1 & H).
  apply bind_ok in H as (? & _ & H). apply bind_ok in H as (? & _ & [= <-]).
  destruct (init_dram_l1 c a0 a1 Hdram) as [E1 E2].
  unfold init_compute_and_storage_l1_bank_manager in Hl1. rewrite Hn in Hl1.
  apply bind_ok in Hl1 as (? & _ & H). rewrite res_bind_ret in H. apply bind_ok in H as (S & HS & H).
  apply bind_ok in H as (st1 & Hst1 & H). apply bind_ok in H as (? & Hc1%check_ok & H). apply bind_ok in H as (st2 & Hst2 & H).
  apply bind_ok in H as (? & Hc2%check_ok & H). apply bind_ok in H as (? & Hc3%check_ok & H). apply bind_ok in H as (? & Hc4%check_ok & H).
  apply bind_ok in H as (? & _ & H). apply bind_ok in H as (l1 & Hl1 & H). apply bind_ok in H as (? & _ & H). apply bind_ok in H as (sm & Hsm & [= <-]).
  apply Z.eqb_eq in Hc1, Hc2, Hc3, Hc4.
  assert (Hperm : S ≡ₚ zrange 0 (Z.of_nat (length S)) /\ Z.of_nat (length S) = num_l1_banks n).
  { unfold shuffled_banks in HS. destruct Hre as [E|Hp].
    - rewrite E in HS. injection HS as <-. rewrite Hsh, length_zrange. replace (Z.of_nat _) with (num_l1_banks n) by lia. done.
    - destruct (l1_bank_remap c) eqn:E.
      + injection HS as <-. rewrite Hsh, length_zrange. replace (Z.of_nat _) with (num_l1_banks n) by lia. done.
      + apply bind_ok in HS as (? & Hc%check_ok & [= <-]). apply Z.eqb_eq in Hc. done. }
  destruct Hperm as [Hperm HlS].
  edestruct (l1_loops_ok c n S) as (T1 & T2 & T3 & T4 & T5); [|exact Hd|exact Hperm|lia|exact E1| |exact Hst1|lia| |].
  - rewrite Hperm. apply NoDup_zrange.
  - intros t core Hk. by rewrite E2.
  - destruct (0 <? l1_small_size c); [|exact Hst2]. by apply bind_ok in Hst2 as (? & _ & ?).
  - assert (Hm1 : bank_id_to_bank_offset_ l1 = assigned_offset st1).
    { unfold BankManager_of_map in Hl1. apply bind_ok in Hl1 as (? & _ & H). by apply bind_ok in H as (? & _ & [= <-]). }
    assert (Hm2 : bank_id_to_bank_offset_ sm = assigned_offset st2).
    { unfold BankManager_of_map in Hsm. apply bind_ok in Hsm as (? & _ & H). by apply bind_ok in H as (? & _ & [= <-]). }
    rewrite HlS in *. pose proof (map_size_interval _ _ _ T4 T3) as Hsz. rewrite Hc2, Hsz in Hc4.
    split_and!.
    + intros b core. rewrite logical_core_ok. setoid_rewrite bank_ids_ids_at. apply T1.
    + intros b. rewrite bank_offset_ok. cbn. rewrite Hm1. apply T2.
    + intros b. rewrite bank_offset_ok. cbn. rewrite Hm2. rewrite T3. lia.
    + intros b Hb. setoid_rewrite logical_core_ok. destruct (T5 b) as [core Hcore]; [lia|]. exists core. exact Hcore.
Qed.

(** A chip of two compute cores and a storage core with two banks, and two DRAM
    channels. *)
Definition demo_config : AllocatorConfig := {|
  num_dram_channels := 2; dram_bank_size := 65536; dram_bank_offsets := [0; 0]; dram_unreserved_base := 1024;
  l1_unreserved_base := 1024; worker_grid := [mkRange (mkCoord 0 0) (mkCoord 2 0)]; worker_l1_size := 8192;
  storage_core_bank_size := Some 4096; l1_small_size := 1024; trace_region_size := 4096;
  core_type_from_noc_coord_table := list_to_map [(mkCoord 1 1, ComputeAndStore); (mkCoord 2 1, ComputeAndStore); (mkCoord 3 1, StorageOnly)];
  worker_log_to_physical_routing_x := list_to_map [(0, 1); (1, 2); (2, 3)];
  worker_log_to_physical_routing_y := list_to_map [(0, 1)]; l1_bank_remap := [];
  compute_grid := [mkRange (mkCoord 0 0) (mkCoord 1 0)]; config_alignment := 32; disable_interleaved := false;
|}.

Definition demo_allocator : res Allocator := L1BankingAllocator reverse 96 demo_config.

Definition demo_alloc : Allocator :=
  match demo_allocator with
  | Ok a => a
  | Err _ => mkAllocator false BankManager_default BankManager_default BankManager_default BankManager_default ∅ ∅ ∅ ∅ ∅ demo_config
  end.

Lemma demo_l1_inv : bank_inv (l1_manager demo_alloc) (fresh_region 6144).
Proof.
  destruct (FreeList_new_ok 6144 1024 32 32 FIRST) as (s & He & Hh & Hc); try lia; [done|].
  exists s. unfold config in Hc. injection Hc as _ E1 _ _ _ _. split; [|split; [done|split; [lia|]]].
  - transitivity (Some (FreeList_new 6144 1024 32 32 FIRST).1); [vm_compute; reflexivity|by rewrite He].
  - intros x sz Hx. by apply list_elem_of_singleton in Hx.
Qed.

(** Four pages of 64 bytes, interleaved over the four L1 banks. *)
Definition demo_buffer : BufferInfo := mkBuffer 7 256 64 L1 false None.

Lemma allocate_buffer_safe_witness :
  exists a' addr b' m', allocate_buffer demo_buffer demo_alloc = (a', Ok addr) /\
    a' = set_live ({[7]} ∪ ∅) (set_manager L1 b' demo_alloc) /\ bank_inv b' m' /\ 4192 <= addr.
Proof.
  set (r := allocate_buffer demo_buffer demo_alloc).
  destruct (allocate_buffer_safe demo_buffer demo_alloc r.1 7104 (l1_manager demo_alloc) (fresh_region 6144) 4 64 4192)
    as (b' & m' & f & H1 & H2 & H3 & H4 & _).
  - reflexivity.
  - exact demo_l1_inv.
  - split; [vm_compute; reflexivity|]. rewrite decide_True by (vm_compute; reflexivity). split; [vm_compute; reflexivity|lia].
  - vm_compute. reflexivity.
  - lia.
  - intros f Hf. replace (alignment f) with 32; [lia|]. vm_compute in Hf. injection Hf as <-. reflexivity.
  - vm_compute. reflexivity.
  - exists r.1, 7104, b', m'. split; [vm_compute; reflexivity|]. split; [exact H1|]. split; [exact H3|exact H4].
Defined.

Lemma l1_tables_consistent_witness :
  (exists core, logical_core_from_bank_id demo_alloc 1 = Ok core) /\
  exists o, BankManager_bank_offset (l1_small_manager demo_alloc) 5 = Ok o.
Proof.
  destruct (l1_tables_consistent reverse 96 demo_config demo_alloc (mkNumBanks 6 4 2 2)) as (_ & _ & Hs & H).
  - intros l. apply reverse_Permutation.
  - left. reflexivity.
  - apply (bool_decide_unpack _). vm_compute. exact I.
  - vm_compute. reflexivity.
  - vm_compute. reflexivity.
  - cbn. lia.
  - vm_compute. reflexivity.
  - split; [apply H; cbn; lia|apply Hs; cbn; lia].
Defined.

(** C31: A failed interleaved allocation leaks.  When there is a free range that is large
    enough and [allocate_buffer] throws all the same, the free list has taken a block whose
    address is below the limit and keeps it, while the manager does not track its address:
    no buffer has it, and unless an earlier buffer had the very address, [deallocate_all]
    frees everything except that block. *)
Theorem failed_allocation_leaks order buffer a a' b m f n per limit :
  (forall s x, x ∈ order s <-> x ∈ s) ->
  manager_of (buffer_type buffer) a = Ok b -> bank_inv b m -> allocator_ b = Some f ->
  request b (compute_grid (config_ a)) (buffer_num_cores buffer) n limit ->
  SizeBytesPerBank (aligned_size buffer) (aligned_page_size buffer) n (alignment_bytes_ b) = Ok per ->
  0 <= per -> per + alignment f <= 2 ^ 64 ->
  (exists r, r ∈ m /\ fits_range (alloc_size_of f per) r = true) ->
  allocate_buffer buffer a = (a', Err Throw) ->
  exists b' f' m' start, let sz := alloc_size_of f per in
    a' = set_manager (buffer_type buffer) b' a /\ allocated_buffers_ b' = allocated_buffers_ b /\ allocator_ b' = Some f' /\ holds f' m' /\
    start + offset_bytes f < limit /\ per <= sz /\
    (forall x z, (x, z, true) ∈ m' <-> (x, z, true) ∈ m \/ (x, z) = (start, sz)) /\
    ((forall x, x ∈ allocated_buffers_ b -> is_u64 x /\ x <> start + offset_bytes f) ->
     exists b'' f'' m'', BankManager_deallocate_all order b' = (b'', Ok tt) /\ allocator_ b'' = Some f'' /\ holds f'' m'' /\
       forall x z, (x, z, true) ∈ m'' <-> (x, z) = (start, sz)).
Proof.
  intros Ho Hm (f0 & Hb0 & Hh & Hpos & Htr) Hb Hreq Hper H0 H1 (r0 & Hr0 & Hfit) Ha. rewrite Hb in Hb0. injection Hb0 as <-.
  destruct (BankManager_allocate_ok b f m _ _ (buffer_bottom_up buffer) _ _ n per limit Hb Hh Hreq Hper H0 H1)
    as [[_ Hn]|(l & r & k & f' & -> & Hf & Hc & Hh' & He)]; [by rewrite Hn in Hfit|].
  destruct (carve_safe f l r k (buffer_bottom_up buffer) _ Hh Hf) as (C1 & C2 & _ & C4). set (sz := alloc_size_of f per) in *. set (start := place (buffer_bottom_up buffer) sz r) in *.
  assert (start + offset_bytes f < limit /\ a' = set_manager (buffer_type buffer) (set_bank_allocator (Some f') b) a) as [Hlt ->].
  { assert (on_manager (buffer_type buffer) (base_alloc (config_ a) (aligned_size buffer) (aligned_page_size buffer) (buffer_bottom_up buffer) (buffer_num_cores buffer)) a = _) as Eon
      by (unfold on_manager, base_alloc; rewrite Hm, He; reflexivity).
    unfold allocate_buffer in Ha. erewrite M_bind_ok in Ha by reflexivity. cbv zeta in Ha.
    destruct (disable_interleaved (config_ a)), (bool_decide (buffer_type buffer = L1_SMALL)), (bool_decide (buffer_num_cores buffer <> None)); try discriminate Ha.
    all: erewrite !(M_bind_ok (when _ _)) in Ha by reflexivity; unfold mbind, M_bind in Ha; rewrite Eon in Ha; destruct (Z.ltb_spec (start + offset_bytes f) limit); [by injection Ha as <-|discriminate Ha]. }
  assert (offset_bytes f' = offset_bytes f) as Hof by (unfold config in Hc; congruence).
  exists (set_bank_allocator (Some f') b), f', (l ++ carve r start sz ++ k), start. intros sz'. split; [done|]. split; [done|]. split; [done|]. split; [done|]. split; [done|].
  split; [by destruct (alloc_size_ok f per (holds_config _ _ Hh) H0 H1) as (_ & _ & ?)|]. split; [exact C4|]. intros Htracked.
  unfold BankManager_deallocate_all. erewrite M_bind_ok by reflexivity. cbv beta.
  destruct (deallocate_list_ok (order (allocated_buffers_ b)) (set_bank_allocator (Some f') b) f' _ eq_refl Hh') as (f'' & m'' & Hd & Hh'' & _ & Hm'').
  eexists _, f'', m''. split; [exact Hd|]. split; [done|]. split; [done|]. intros x z. rewrite Hm'', C4, Hof.
  destruct (holds_config _ _ Hh) as [_ _ K1 K2 K3 K4]. destruct (holds_split _ _ _ _ Hh) as (S1 & S2 & S3). split.
  - intros [[Hx|Hx] Hno]; [|done]. exfalso. apply (Hno (x + offset_bytes f)); [by apply Ho, (Htr x z)|].
    pose proof (tiles_bounds _ _ _ _ _ _ (holds_tiles _ _ Hh) Hx). rewrite u64_small; lia.
  - intros [= -> ->]. split; [by right|]. intros y Hy%Ho Hu. destruct (Htracked y Hy) as [[Hy0 Hy1] Hne]. unfold u64 in Hu. pose proof (Z.div_mod (y - offset_bytes f) (2 ^ 64) ltac:(lia)). destruct (alloc_size_ok f per (holds_config _ _ Hh) H0 H1) as (_ & [Hsz _] & _). fold sz in Hsz. lia.
Qed.

(** Four pages of 3968 bytes over the four L1 banks: 3968 of the 6144 bytes of a bank. *)
Definition big_buffer : BufferInfo := mkBuffer 8 (4 * 3968) 3968 L1 false None.

Lemma failed_allocation_leaks_witness :
  exists a' b' b'' f'' m'' start, allocate_buffer big_buffer demo_alloc = (a', Err Throw) /\ a' = set_manager L1 b' demo_alloc /\
    BankManager_deallocate_all elements b' = (b'', Ok tt) /\ allocator_ b'' = Some f'' /\ holds f'' m'' /\ (start, 3968, true) ∈ m''.
Proof.
  set (r := allocate_buffer big_buffer demo_alloc).
  destruct demo_l1_inv as (f & Hf & Hrest). assert (alignment f = 32 /\ alloc_size_of f 3968 = 3968) as [Eal Esz] by (vm_compute in Hf; injection Hf as <-; split; reflexivity).
  destruct (failed_allocation_leaks elements big_buffer demo_alloc r.1 (l1_manager demo_alloc) (fresh_region 6144) f 4 3968 4192)
    as (b' & f' & m' & start & H1 & H2 & H3 & H4 & H5 & H6 & H7 & H8).
  - intros s x. apply elem_of_elements.
  - reflexivity.
  - exact demo_l1_inv.
  - exact Hf.
  - split; [vm_compute; reflexivity|]. rewrite decide_True by (vm_compute; reflexivity). split; [vm_compute; reflexivity|lia].
  - vm_compute. reflexivity.
  - lia.
  - rewrite Eal. lia.
  - rewrite Esz. exists (0, 6144, false). split; [vm_compute; left|reflexivity].
  - vm_compute. reflexivity.
  - destruct H8 as (b'' & f'' & m'' & D1 & D2 & D3 & D4); [intros x Hx; vm_compute in Hx; discriminate Hx|].
    exists r.1, b', b'', f'', m'', start. split; [vm_compute; reflexivity|]. split; [exact H1|]. split; [exact D1|]. split; [exact D2|]. split; [exact D3|]. apply D4. by rewrite Esz.
Defined.
