(* ===== verification/Memory.v ===== *)
(** * Memory: bytes at addresses

    A memory is a function from an address to a byte; [write_mem] stores a run of
    bytes, [read_mem] fetches one.  Host memory, the memory of a core and the memory
    behind a NoC coordinate are all of this kind. *)

From Stdlib Require Import Lia.
From S2P Require Import Prelude.

Definition write_mem (a : Z) (bytes : list Z) (mem : Z -> Z) : Z -> Z :=
  fun x => if (a <=? x) && (x <? a + Z.of_nat (length bytes)) then bytes !!! Z.to_nat (x - a) else mem x.

Definition read_mem (mem : Z -> Z) (a n : Z) : list Z := map (fun i => mem (a + i)) (seqZ 0 n).

(** ** Memory *)

Lemma write_mem_in a bytes mem i :
  (i < length bytes)%nat -> write_mem a bytes mem (a + Z.of_nat i) = bytes !!! i.
Proof.
  intros H. unfold write_mem. rewrite (proj2 (Z.leb_le _ _)), (proj2 (Z.ltb_lt _ _)) by lia. cbn. f_equal. lia.
Qed.

Lemma write_mem_out a bytes mem x : x < a \/ a + Z.of_nat (length bytes) <= x -> write_mem a bytes mem x = mem x.
Proof.
  intros H. unfold write_mem. destruct (Z.leb_spec a x), (Z.ltb_spec x (a + Z.of_nat (length bytes))); cbn; auto; lia.
Qed.

Lemma write_mem_nil a mem x : write_mem a [] mem x = mem x.
Proof. apply write_mem_out. cbn. lia. Qed.

Lemma write_mem_ext a bytes mem mem' x : (forall y, mem y = mem' y) -> write_mem a bytes mem x = write_mem a bytes mem' x.
Proof. intros H. unfold write_mem. by rewrite H. Qed.

Lemma write_mem_app a l1 l2 mem x :
  write_mem a (l1 ++ l2) mem x = write_mem (a + Z.of_nat (length l1)) l2 (write_mem a l1 mem) x.
Proof.
  unfold write_mem. rewrite length_app.
  destruct (Z.leb_spec a x), (Z.leb_spec (a + Z.of_nat (length l1)) x); cbn; try lia; auto.
  - replace (a + Z.of_nat (length l1) + Z.of_nat (length l2)) with (a + Z.of_nat (length l1 + length l2)) by lia.
    case_match; [|by rewrite (proj2 (Z.ltb_ge _ _)) by lia].
    rewrite lookup_total_app_r by lia. f_equal. lia.
  - rewrite !(proj2 (Z.ltb_lt _ _)) by lia. by rewrite lookup_total_app_l by lia.
Qed.

(** The same write through a window [o] bytes into the memory. *)
Lemma write_mem_shift o a bytes mem x :
  write_mem (a - o) bytes mem (x - o) = write_mem a bytes (fun y => mem (y - o)) x.
Proof.
  unfold write_mem. replace (a - o <=? x - o) with (a <=? x) by (destruct (Z.leb_spec a x), (Z.leb_spec (a - o) (x - o)); lia).
  replace (x - o <? _) with (x <? a + Z.of_nat (length bytes))
    by (destruct (Z.ltb_spec x (a + Z.of_nat (length bytes))), (Z.ltb_spec (x - o) (a - o + Z.of_nat (length bytes))); lia).
  by replace (x - o - (a - o)) with (x - a) by lia.
Qed.

Lemma length_read_mem mem a n : length (read_mem mem a n) = Z.to_nat n.
Proof. unfold read_mem. by rewrite length_map, length_seqZ. Qed.

Lemma read_mem_lookup mem a n i : (Z.of_nat i < n) -> read_mem mem a n !! i = Some (mem (a + Z.of_nat i)).
Proof.
  intros H. unfold read_mem. rewrite list_lookup_fmap, lookup_seqZ_lt by lia. cbn. by rewrite Z.add_0_l.
Qed.

Lemma read_mem_ext mem mem' a b n :
  (forall i, 0 <= i < n -> mem (a + i) = mem' (b + i)) -> read_mem mem a n = read_mem mem' b n.
Proof.
  intros H. unfold read_mem. apply list_fmap_ext. intros i x Hx%lookup_seqZ. cbn. apply H. lia.
Qed.

Lemma read_mem_app mem a n m : 0 <= n -> 0 <= m -> read_mem mem a (n + m) = read_mem mem a n ++ read_mem mem (a + n) m.
Proof.
  intros Hn Hm. unfold read_mem. rewrite seqZ_app by lia. rewrite fmap_app. f_equal.
  rewrite Z.add_0_l. rewrite <- (Z.add_0_r n) at 1. rewrite <- fmap_add_seqZ, <- list_fmap_compose.
  apply list_fmap_ext. intros i x _. cbn. f_equal. lia.
Qed.

Lemma read_write_mem a bytes mem : read_mem (write_mem a bytes mem) a (Z.of_nat (length bytes)) = bytes.
Proof.
  apply list_eq_same_length with (n := length bytes); rewrite ?length_read_mem; [done|lia|].
  intros i x y Hi. rewrite read_mem_lookup by lia. rewrite write_mem_in by lia.
  rewrite list_lookup_total_alt. intros [= <-] Hy. by rewrite Hy.
Qed.

(** A run of memory that equals a list of bytes. *)
Definition holds (mem : Z -> Z) (a : Z) (bytes : list Z) : Prop := read_mem mem a (Z.of_nat (length bytes)) = bytes.

Lemma holds_write mem a bytes mem' : (forall x, mem' x = write_mem a bytes mem x) -> holds mem' a bytes.
Proof.
  intros H. unfold holds. rewrite <- (read_write_mem a bytes mem) at 2. apply read_mem_ext. intros. apply H.
Qed.

Lemma holds_frame mem a bytes b other mem' :
  (forall x, mem' x = write_mem b other mem x) -> b + Z.of_nat (length other) <= a \/ a + Z.of_nat (length bytes) <= b ->
  holds mem a bytes -> holds mem' a bytes.
Proof.
  intros H Hd <-. unfold holds. rewrite length_read_mem, Nat2Z.id. apply read_mem_ext.
  intros i Hi. rewrite H. apply write_mem_out. lia.
Qed.
