(* ===== verification/ConfigBuffer.v ===== *)
(** * The kernel configuration ring buffer
    (tt_metal/impl/dispatch/{worker_config_buffer.cpp,worker_config_buffer.hpp}, and
    its client in tt_metal/impl/dispatch/command_queue.cpp)

    Each core type has a region of device memory in which programs in flight keep
    their configuration.  The manager keeps, per core type, a ring of eight entries;
    those between [free_index_] and [alloc_index_] are live, the one at
    [alloc_index_] holds the next address.  [entries_] is the code's vector of
    vectors, entry index first; reading or writing out of range is undefined. *)

From S2P Require Import Prelude.

Definition kernel_config_entry_count : Z := 8.

Record ConfigBufferEntry := mkEntry { addr : Z; size : Z; sync_count : Z }.

Definition set_entry_addr a e := mkEntry a (size e) (sync_count e).
Definition set_entry_size z e := mkEntry (addr e) z (sync_count e).
Definition set_entry_sync n e := mkEntry (addr e) (size e) n.

(** The code leaves [sync_count] indeterminate while [need_sync] is false, and never
    reads it then; it is 0 here. *)
Record ConfigBufferSync := mkSync { need_sync : bool; sync_to : Z }.

Record WorkerConfigBufferMgr := mkMgr {
  base_addrs_ : list Z;
  end_addrs_ : list Z;
  entries_ : list (list ConfigBufferEntry);
  alloc_index_ : list Z;
  free_index_ : list Z;
  reservation_ : list ConfigBufferEntry;
}.

Abbreviation W := (M WorkerConfigBufferMgr).

Definition set_entries es s := mkMgr (base_addrs_ s) (end_addrs_ s) es (alloc_index_ s) (free_index_ s) (reservation_ s).
Definition set_alloc_index l s := mkMgr (base_addrs_ s) (end_addrs_ s) (entries_ s) l (free_index_ s) (reservation_ s).
Definition set_free_index l s := mkMgr (base_addrs_ s) (end_addrs_ s) (entries_ s) (alloc_index_ s) l (reservation_ s).
Definition set_reservation l s := mkMgr (base_addrs_ s) (end_addrs_ s) (entries_ s) (alloc_index_ s) (free_index_ s) l.

(** [WorkerConfigBufferMgr()] *)
Definition WorkerConfigBufferMgr_new : WorkerConfigBufferMgr :=
  mkMgr [] [] (replicate (Z.to_nat kernel_config_entry_count) []) [] [] [].

Definition entry (s : WorkerConfigBufferMgr) (i idx : Z) : res ConfigBufferEntry :=
  row ← at_ (entries_ s) i; at_ row idx.

(** An assignment to a field of [entries_[i][idx]]. *)
Definition update_entry (i idx : Z) (f : ConfigBufferEntry -> ConfigBufferEntry) : W unit :=
  s ← get;
  lift (entry s i idx);;
  modify (set_entries (alter (alter f (Z.to_nat idx)) (Z.to_nat i) (entries_ s))).

Definition update_reservation (idx : Z) (f : ConfigBufferEntry -> ConfigBufferEntry) : W unit :=
  s ← get;
  lift (at_ (reservation_ s) idx);;
  modify (set_reservation (alter f (Z.to_nat idx) (reservation_ s))).

Definition set_alloc (idx i : Z) : W unit := modify (fun s => set_alloc_index (<[Z.to_nat idx := i]> (alloc_index_ s)) s).
Definition set_free (idx i : Z) : W unit := modify (fun s => set_free_index (<[Z.to_nat idx := i]> (free_index_ s)) s).

Definition init_add_buffer (base_addr size : Z) : W unit :=
  modify (fun s => mkMgr (base_addrs_ s ++ [base_addr]) (end_addrs_ s ++ [u32 (base_addr + size)])
    (map (fun row => row ++ [mkEntry 0 0 0]) (entries_ s))
    (alloc_index_ s ++ [0]) (free_index_ s ++ [0]) (reservation_ s));;
  s ← get;
  row ← lift (at_ (entries_ s) 0);
  update_entry 0 (Z.of_nat (length row) - 1) (set_entry_addr base_addr);;
  modify (fun s => set_reservation (reservation_ s ++ [mkEntry 0 0 0]) s).

(** The next index of the ring. *)
Definition ring_next (i : Z) : Z := if i + 1 =? kernel_config_entry_count then 0 else i + 1.

(** [sync_info] after a sync on an entry is found to be needed. *)
Definition add_sync (sync_info : ConfigBufferSync) (n : Z) : ConfigBufferSync :=
  mkSync true (if need_sync sync_info then Z.max (sync_to sync_info) n else n).

(** The loop over the entries to free for one core type. *)
Fixpoint reserve_loop (fuel : nat) (idx size alloc_index free_index : Z) (sync_info : ConfigBufferSync)
    : W ConfigBufferSync :=
  match fuel with
  | O => fail OutOfFuel
  | S fuel =>
      s ← get;
      ae ← lift (entry s alloc_index idx);
      update_reservation idx (set_entry_size size);;
      if size =? 0 then
        update_reservation idx (set_entry_addr (addr ae));; mret sync_info
      else
        e_ ← lift (at_ (end_addrs_ s) idx);
        b_ ← lift (at_ (base_addrs_ s) idx);
        require Assert (size <=? u32 (e_ - b_));;
        fe ← lift (entry s free_index idx);
        let end_ := if u32 (addr fe + ConfigBuffer.size fe) <=? addr ae then e_ else addr fe in
        let '(a, end_) :=
          if (end_ <? u32 (addr ae + size)) && (end_ =? e_) then (b_, addr fe) else (addr ae, end_) in
        if end_ <? u32 (a + size) then
          let next_free_index := ring_next free_index in
          if next_free_index =? alloc_index then
            update_reservation idx (set_entry_addr b_);; mret (add_sync sync_info (sync_count fe))
          else
            ne ← lift (entry s next_free_index idx);
            let next_end := if addr ne <=? a then e_ else addr ne in
            if next_end <? u32 (a + size) then
              reserve_loop fuel idx size alloc_index next_free_index sync_info
            else
              update_reservation idx (set_entry_addr a);; mret (add_sync sync_info (sync_count fe))
        else
          let table_full := (u32 (alloc_index + 1) =? free_index) ||
            ((u32 (alloc_index + 1) =? kernel_config_entry_count) && (free_index =? 0)) in
          update_reservation idx (set_entry_addr a);;
          mret (if table_full then add_sync sync_info (sync_count fe) else sync_info)
  end.

(** The core types in turn, for the indices [idxs]. *)
Fixpoint reserve_types (sizes : list Z) (idxs : list Z) (sync_info : ConfigBufferSync) : W ConfigBufferSync :=
  match idxs with
  | [] => mret sync_info
  | idx :: idxs =>
      s ← get;
      free_index ← lift (at_ (free_index_ s) idx);
      alloc_index ← lift (at_ (alloc_index_ s) idx);
      size ← lift (at_ sizes idx);
      sync_info ← reserve_loop (Z.to_nat kernel_config_entry_count) idx size alloc_index free_index sync_info;
      reserve_types sizes idxs sync_info
  end.

Definition num_buffer_types (s : WorkerConfigBufferMgr) : Z := Z.of_nat (length (reservation_ s)).

(** The reservation itself is read from the state. *)
Definition reserve (sizes : list Z) : W ConfigBufferSync :=
  s ← get;
  require Assert (Z.of_nat (length sizes) =? num_buffer_types s);;
  reserve_types sizes (zrange 0 (num_buffer_types s)) (mkSync false 0).

Fixpoint free_loop (fuel : nat) (free_up_to_sync_count idx free_index : Z) : W unit :=
  match fuel with
  | O => fail OutOfFuel
  | S fuel =>
      s ← get;
      fe ← lift (entry s free_index idx);
      alloc_index ← lift (at_ (alloc_index_ s) idx);
      if (sync_count fe <=? free_up_to_sync_count) && negb (free_index =? alloc_index) then
        set_free idx (ring_next free_index);;
        free_loop fuel free_up_to_sync_count idx (ring_next free_index)
      else mret tt
  end.

Definition free_type (free_up_to_sync_count idx : Z) : W unit :=
  s ← get;
  free_index ← lift (at_ (free_index_ s) idx);
  free_loop (Z.to_nat kernel_config_entry_count) free_up_to_sync_count idx free_index.

Definition free (free_up_to_sync_count : Z) : W unit :=
  s ← get;
  mapM_ (free_type free_up_to_sync_count) (zrange 0 (num_buffer_types s)).

(** The marker of an entry that is not live. *)
Definition debug_sync : Z := 0xbabababa.

Definition alloc_type (when_freeable_sync_count idx : Z) : W unit :=
  s ← get;
  alloc_index ← lift (at_ (alloc_index_ s) idx);
  r ← lift (at_ (reservation_ s) idx);
  update_entry alloc_index idx (set_entry_addr (addr r));;
  update_entry alloc_index idx (set_entry_size (size r));;
  update_entry alloc_index idx (set_entry_sync when_freeable_sync_count);;
  let old_alloc_index := alloc_index in
  let alloc_index := ring_next alloc_index in
  s ← get;
  old ← lift (entry s old_alloc_index idx);
  update_entry alloc_index idx (set_entry_addr (u32 (addr old + size old)));;
  update_entry alloc_index idx (set_entry_size 0);;
  update_entry alloc_index idx (set_entry_sync debug_sync);;
  set_alloc idx alloc_index.

Definition alloc (when_freeable_sync_count : Z) : W unit :=
  s ← get;
  mapM_ (alloc_type when_freeable_sync_count) (zrange 0 (num_buffer_types s)).

Inductive HalProgrammableCoreType := TENSIX | ACTIVE_ETH | IDLE_ETH.

Definition get_last_slot_addr (s : WorkerConfigBufferMgr) (programmable_core_type : HalProgrammableCoreType) : res Z :=
  check Assert (match programmable_core_type with IDLE_ETH => false | _ => true end);;
  let index := match programmable_core_type with TENSIX => 0 | ACTIVE_ETH => 1 | IDLE_ETH => 2 end in
  r ← at_ (reservation_ s) index;
  mret (addr r).

Definition full_type (sync idx : Z) : W unit :=
  set_alloc idx 1;;
  set_free idx 0;;
  s ← get;
  b_ ← lift (at_ (base_addrs_ s) idx);
  e_ ← lift (at_ (end_addrs_ s) idx);
  update_entry 0 idx (set_entry_addr b_);;
  update_entry 0 idx (set_entry_size (u32 (e_ - b_)));;
  update_entry 0 idx (set_entry_sync sync);;
  update_entry 1 idx (set_entry_addr e_);;
  update_entry 1 idx (set_entry_size 0);;
  update_entry 1 idx (set_entry_sync debug_sync).

Definition mark_completely_full (sync : Z) : W unit :=
  s ← get;
  mapM_ (full_type sync) (zrange 0 (num_buffer_types s)).

(** ** The client

    The part of [EnqueueProgramCommand::process] that works on the manager: what it
    reads of the program and the queue are arguments. *)

Record ProgramInfo := mkProgram {
  program_config_sizes : list Z;
  kernel_binary_always_stored_in_ringbuffer : bool;
  is_cached : bool;
}.

Record Stalls := mkStalls { stall_first : bool; stall_before_program : bool; stall_count : Z }.

Definition process_reserve (program : ProgramInfo) (expected_num_workers_completed : Z) : W Stalls :=
  sync ← reserve (program_config_sizes program);
  if negb (kernel_binary_always_stored_in_ringbuffer program) then
    mret (mkStalls (need_sync sync) (negb (need_sync sync)) expected_num_workers_completed)
  else if need_sync sync then
    let config_sizes := program_config_sizes program in
    memory_sync ← reserve (<[(length config_sizes - 1)%nat := 0]> config_sizes);
    reserve (program_config_sizes program);;
    mret (mkStalls (need_sync memory_sync) (negb (need_sync memory_sync)) (sync_to sync))
  else mret (mkStalls false false 0).

(** [num_workers]: the workers the program runs on. *)
Definition process (program : ProgramInfo) (expected_num_workers_completed num_workers : Z) : W Stalls :=
  stalls ← process_reserve program expected_num_workers_completed;
  (if negb (is_cached program) then free expected_num_workers_completed
   else when (stall_first stalls || stall_before_program stalls) (free (stall_count stalls)));;
  alloc (u32 (expected_num_workers_completed + num_workers));;
  mret stalls.

(** [reset_config_buffer_mgr] for one manager: [buffers] are the base and size of the
    configuration region of each programmable core type, from the hardware layer. *)
Definition reset_config_buffer_mgr (buffers : list (Z * Z)) : W unit :=
  put WorkerConfigBufferMgr_new;;
  mapM_ (fun '(base, sz) => init_add_buffer base sz) buffers;;
  init_add_buffer 0 1.

(** What reaches the manager of one sub-device outside of trace capture: launches of
    programs ([enqueue_program]) and of traces ([enqueue_trace]).  The count of
    workers expected to complete is threaded along. *)
Inductive queue_op :=
  | EnqueueProgram (program : ProgramInfo) (num_workers : Z)
  | EnqueueTrace (num_completion_worker_cores : Z).

Definition enqueue (op : queue_op) (expected_num_workers_completed : Z) : W Z :=
  match op with
  | EnqueueProgram program num_workers =>
      process program expected_num_workers_completed num_workers;;
      mret (u32 (expected_num_workers_completed + num_workers))
  | EnqueueTrace n =>
      let expected := u32 (expected_num_workers_completed + n) in
      mark_completely_full expected;; mret expected
  end.

Fixpoint enqueue_all (ops : list queue_op) (expected : Z) : W Z :=
  match ops with
  | [] => mret expected
  | op :: ops => expected ← enqueue op expected; enqueue_all ops expected
  end.
