(* ===== verification/ConfigBufferRing.v ===== *)
(** * The lanes of the configuration ring buffer

    The vectors of the manager are read core type by core type (lanes); a lane is a
    ring of entries whose live part covers at most two runs of addresses.  The loops
    of [reserve], [free] and [alloc] are described on one lane. *)

From S2P Require Import Prelude ConfigBuffer.

(** ** Lanes *)

Record Lane := mkLane {
  l_base : Z;
  l_end : Z;
  l_ring : list ConfigBufferEntry;
  l_alloc : Z;
  l_free : Z;
  l_res : ConfigBufferEntry;
}.

Definition lane (s : WorkerConfigBufferMgr) (i : nat) : option Lane :=
  b ← base_addrs_ s !! i;
  e ← end_addrs_ s !! i;
  ring ← mapM (fun row => row !! i) (entries_ s);
  a ← alloc_index_ s !! i;
  f ← free_index_ s !! i;
  r ← reservation_ s !! i;
  Some (mkLane b e ring a f r).

Lemma lane_inv s i L :
  lane s i = Some L <->
  base_addrs_ s !! i = Some (l_base L) /\ end_addrs_ s !! i = Some (l_end L) /\
  mapM (fun row => row !! i) (entries_ s) = Some (l_ring L) /\
  alloc_index_ s !! i = Some (l_alloc L) /\ free_index_ s !! i = Some (l_free L) /\ reservation_ s !! i = Some (l_res L).
Proof.
  unfold lane. split.
  - intros H. repeat (apply bind_Some in H as (? & ? & H)). injection H as <-. done.
  - intros (-> & -> & -> & -> & -> & ->). by destruct L.
Qed.

(** [s'] differs from [s] in lane [i] only, which is [L] now. *)
Definition at_lane (i : nat) (L : Lane) (s s' : WorkerConfigBufferMgr) : Prop :=
  lane s' i = Some L /\ (forall j, j <> i -> lane s' j = lane s j) /\ length (reservation_ s') = length (reservation_ s).

Lemma at_lane_refl i L s : lane s i = Some L -> at_lane i L s s.
Proof. by intros H. Qed.

Lemma at_lane_trans i L L' s s1 s2 : at_lane i L s s1 -> at_lane i L' s1 s2 -> at_lane i L' s s2.
Proof. intros (_ & H1 & N1) (H2 & H3 & N2). split; [done|]. split; [|congruence]. intros j Hj. rewrite H3, H1; done. Qed.

Definition lane_set_ring r L := mkLane (l_base L) (l_end L) r (l_alloc L) (l_free L) (l_res L).
Definition lane_set_alloc a L := mkLane (l_base L) (l_end L) (l_ring L) a (l_free L) (l_res L).
Definition lane_set_free f L := mkLane (l_base L) (l_end L) (l_ring L) (l_alloc L) f (l_res L).
Definition lane_set_res r L := mkLane (l_base L) (l_end L) (l_ring L) (l_alloc L) (l_free L) r.

Lemma at_of_nat {A} (l : list A) i a : l !! i = Some a -> at_ l (Z.of_nat i) = Ok a.
Proof. intros H. unfold at_. by rewrite Nat2Z.id, H. Qed.

Lemma mapM_lookup {A B} (f : A -> option B) l k i a :
  mapM f l = Some k -> l !! i = Some a -> exists b, f a = Some b /\ k !! i = Some b.
Proof. intros H%mapM_Some Ha. destruct (Forall2_lookup_l _ _ _ _ _ H Ha) as (b & ? & ?). by exists b. Qed.

Lemma lane_entry s i L k e : lane s i = Some L -> l_ring L !! Z.to_nat k = Some e -> entry s k (Z.of_nat i) = Ok e.
Proof.
  intros (_ & _ & H & _)%lane_inv He. unfold entry, at_. pose proof H as Hm. apply mapM_Some in H.
  destruct (Forall2_lookup_r _ _ _ _ _ H He) as (row & Hrow & Hx). rewrite Hrow. cbn [opt_res]. rewrite res_bind_ret.
  by rewrite Nat2Z.id, Hx.
Qed.

Lemma mapM_alter {A} (l : list (list A)) (c : list A) k i (f : A -> A) :
  mapM (fun row => row !! i) l = Some c ->
  mapM (fun row => row !! i) (alter (alter f i) k l) = Some (alter f k c).
Proof.
  revert k c. induction l as [|row l IH]; intros k c H; cbn in H.
  - injection H as <-. done.
  - apply bind_Some in H as (x & Hx & H). apply bind_Some in H as (c' & Hc & [= <-]). destruct k as [|k].
    + cbn. rewrite list_lookup_alter_eq, Hx. cbn. by rewrite Hc.
    + change (alter (alter f i) (S k) (row :: l)) with (row :: alter (alter f i) k l).
      change (alter f (S k) (x :: c')) with (x :: alter f k c'). cbn. rewrite Hx. cbn. by rewrite (IH k c' Hc).
Qed.

Lemma mapM_alter_ne {A} (l : list (list A)) k i j (f : A -> A) :
  i <> j -> mapM (fun row => row !! j) (alter (alter f i) k l) = mapM (fun row => row !! j) l.
Proof.
  intros Hij. revert k. induction l as [|row l IH]; intros k; [done|]. destruct k as [|k].
  - cbn. by rewrite list_lookup_alter_ne.
  - change (alter (alter f i) (S k) (row :: l)) with (row :: alter (alter f i) k l). cbn. by rewrite IH.
Qed.

Lemma update_entry_lane s i L k e f :
  lane s i = Some L -> l_ring L !! Z.to_nat k = Some e ->
  exists s', update_entry k (Z.of_nat i) f s = (s', Ok tt) /\
    at_lane i (lane_set_ring (alter f (Z.to_nat k) (l_ring L)) L) s s'.
Proof.
  intros HL He. eexists. split.
  - unfold update_entry. erewrite M_bind_ok by reflexivity. erewrite M_bind_ok by (unfold lift; by rewrite (lane_entry _ _ _ _ _ HL He)). reflexivity.
  - rewrite Nat2Z.id. apply lane_inv in HL as (H1 & H2 & H3 & H4 & H5 & H6). split; [|split; [|done]].
    + apply lane_inv. cbn. split_and!; try done. by apply mapM_alter.
    + intros j Hj. unfold lane, set_entries. cbn. by rewrite mapM_alter_ne.
Qed.

Lemma update_reservation_lane s i L f :
  lane s i = Some L ->
  exists s', update_reservation (Z.of_nat i) f s = (s', Ok tt) /\ at_lane i (lane_set_res (f (l_res L)) L) s s'.
Proof.
  intros HL. pose proof HL as (H1 & H2 & H3 & H4 & H5 & H6)%lane_inv. eexists. split.
  - unfold update_reservation. erewrite M_bind_ok by reflexivity. erewrite M_bind_ok by (unfold lift; by rewrite (at_of_nat _ _ _ H6)). reflexivity.
  - rewrite Nat2Z.id. split; [|split].
    + apply lane_inv. cbn. split_and!; try done. by rewrite list_lookup_alter_eq, H6.
    + intros j Hj. unfold lane, set_reservation. cbn. by rewrite list_lookup_alter_ne.
    + cbn. apply length_alter.
Qed.

Lemma set_alloc_lane s i L a :
  lane s i = Some L -> exists s', set_alloc (Z.of_nat i) a s = (s', Ok tt) /\ at_lane i (lane_set_alloc a L) s s'.
Proof.
  intros (H1 & H2 & H3 & H4 & H5 & H6)%lane_inv. eexists. split; [reflexivity|]. rewrite Nat2Z.id.
  split; [|split; [|done]].
  - apply lane_inv. cbn. split_and!; try done. apply list_lookup_insert_eq. by apply lookup_lt_Some in H4.
  - intros j Hj. unfold lane, set_alloc_index. cbn. by rewrite list_lookup_insert_ne.
Qed.

Lemma set_free_lane s i L a :
  lane s i = Some L -> exists s', set_free (Z.of_nat i) a s = (s', Ok tt) /\ at_lane i (lane_set_free a L) s s'.
Proof.
  intros (H1 & H2 & H3 & H4 & H5 & H6)%lane_inv. eexists. split; [reflexivity|]. rewrite Nat2Z.id.
  split; [|split; [|done]].
  - apply lane_inv. cbn. split_and!; try done. apply list_lookup_insert_eq. by apply lookup_lt_Some in H5.
  - intros j Hj. unfold lane, set_free_index. cbn. by rewrite list_lookup_insert_ne.
Qed.

(** ** The live entries of a lane *)

(** [l] are the entries of the ring from index [f] up to index [a]. *)
Record live_from (ring : list ConfigBufferEntry) (f a : Z) (l : list ConfigBufferEntry) : Prop := {
  lf_free : 0 <= f < 8;
  lf_len : (length l < 8)%nat;
  lf_alloc : a = (f + Z.of_nat (length l)) mod 8;
  lf_entry : forall k e, l !! k = Some e -> ring !! Z.to_nat ((f + Z.of_nat k) mod 8) = Some e;
}.

Lemma ring_next_mod i : 0 <= i < 8 -> ring_next i = (i + 1) mod 8 /\ 0 <= ring_next i < 8.
Proof.
  intros Hi. unfold ring_next, kernel_config_entry_count. destruct (Z.eqb_spec (i + 1) 8) as [->|]; [done|].
  rewrite Z.mod_small; lia.
Qed.

Lemma mod8_add f k : 0 <= f < 8 -> 0 <= k < 8 -> (f + k) mod 8 = if f + k <? 8 then f + k else f + k - 8.
Proof.
  intros Hf Hk. destruct (Z.ltb_spec (f + k) 8); [apply Z.mod_small; lia|].
  symmetry. apply (Z.mod_unique_pos _ _ 1); lia.
Qed.

Lemma live_from_cons ring f a e l :
  live_from ring f a (e :: l) ->
  ring !! Z.to_nat f = Some e /\ f <> a /\ live_from ring (ring_next f) a l /\ (ring_next f =? a) = match l with [] => true | _ => false end.
Proof.
  intros [H1 H2 H3 H4]. cbn [length] in *. destruct (ring_next_mod f H1) as [E1 E2].
  pose proof (mod8_add f (Z.of_nat (S (length l))) H1 ltac:(lia)) as Em. rewrite <- H3 in Em.
  pose proof (mod8_add f 1 H1 ltac:(lia)) as E3. rewrite <- E1 in E3.
  split; [|split; [|split]].
  - specialize (H4 0%nat e eq_refl). cbn in H4. by rewrite Z.add_0_r, Z.mod_small in H4 by lia.
  - destruct (Z.ltb_spec (f + Z.of_nat (S (length l))) 8); lia.
  - constructor; [done|lia| |].
    + rewrite E1, Zplus_mod_idemp_l, H3. f_equal. lia.
    + intros k x Hk. specialize (H4 (S k) x Hk). rewrite E1, Zplus_mod_idemp_l. by replace (f + 1 + Z.of_nat k) with (f + Z.of_nat (S k)) by lia.
  - destruct l; [|cbn [length] in *]; [apply Z.eqb_eq|apply Z.eqb_neq]; rewrite Em, E3;
      destruct (Z.ltb_spec (f + 1) 8); cbn [length] in *;
      match goal with |- context [?x <? 8] => destruct (Z.ltb_spec x 8) end; lia.
Qed.

Lemma live_from_nil ring f : 0 <= f < 8 -> live_from ring f f [].
Proof. intros H. constructor; [done|cbn; lia|cbn; rewrite Z.add_0_r, Z.mod_small; lia|done]. Qed.

Lemma live_from_alloc ring f a l : live_from ring f a l -> 0 <= a < 8.
Proof. intros [_ _ -> _]. apply Z.mod_pos_bound. lia. Qed.

(** A run of adjacent entries from [x] to [y], none empty. *)
Fixpoint chain (x : Z) (l : list ConfigBufferEntry) (y : Z) : Prop :=
  match l with
  | [] => x = y
  | e :: l => addr e = x /\ 0 < size e /\ chain (x + size e) l y
  end.

Lemma chain_le x l y : chain x l y -> x <= y.
Proof. revert x. induction l as [|e l IH]; cbn; [lia|]. intros x (_ & ? & ?%IH). lia. Qed.

Lemma chain_in x l y e : chain x l y -> e ∈ l -> x <= addr e /\ 0 < size e /\ addr e + size e <= y.
Proof.
  revert x. induction l as [|d l IH]; intros x H He; [by apply elem_of_nil in He|].
  apply elem_of_cons in He as [->|He].
  - cbn in H. destruct H as (<- & ? & ?%chain_le). lia.
  - cbn in H. destruct H as (<- & ? & H). destruct (IH _ H He). lia.
Qed.

Lemma chain_snoc x l y e : chain x l y -> addr e = y -> 0 < size e -> chain x (l ++ [e]) (y + size e).
Proof.
  revert x. induction l as [|d l IH]; cbn; intros x H Ha Hs; [subst; done|].
  destruct H as (? & ? & ?). split_and!; auto.
Qed.

(** The live entries cover one run of addresses, or a run that ends in the
    buffer and a second one from its base; [t] is the next address. *)
Definition geometry (b E : Z) (l : list ConfigBufferEntry) (t : Z) : Prop :=
  exists l1 l2 x y, l = l1 ++ l2 /\ chain x l1 y /\ b <= x /\ y <= E /\
    ((l2 = [] /\ t = y) \/ (l1 <> [] /\ l2 <> [] /\ chain b l2 t /\ t <= x)).

Lemma geometry_tail b E e l t : geometry b E (e :: l) t -> geometry b E l t.
Proof.
  intros (l1 & l2 & x & y & El & Hc & Hx & Hy & Ht). destruct l1 as [|d l1].
  - destruct Ht as [[-> _]|[? _]]; [by destruct l|done].
  - cbn in El. injection El as -> ->. cbn in Hc. destruct Hc as (Ha & Hs & Hc). destruct Ht as [[-> ->]|(_ & Hn & Hc2 & Htx)].
    + exists l1, [], (x + size d), y. split_and!; [done..|lia|lia|by left].
    + destruct l1 as [|d' l1].
      * exists l2, [], b, t. rewrite app_nil_r. cbn in Hc. split_and!; [done..|lia|lia|by left].
      * exists (d' :: l1), l2, (x + size d), y. split_and!; [done..|lia|lia|]. right. split_and!; [done..|lia].
Qed.

(** How the head of the live entries lies to the next address. *)
Lemma geometry_cons b E e l t :
  geometry b E (e :: l) t ->
  b <= addr e /\ 0 < size e /\ addr e + size e <= E /\ b <= t <= E /\
  ((addr e + size e <= t /\ chain (addr e + size e) l t) \/
   (t <= addr e /\ exists l1 l2 y, l = l1 ++ l2 /\ l2 <> [] /\ chain (addr e + size e) l1 y /\ y <= E /\ chain b l2 t)).
Proof.
  intros (l1 & l2 & x & y & El & Hc & Hx & Hy & Ht). destruct l1 as [|d l1].
  { destruct Ht as [[-> _]|[? _]]; done. }
  cbn in El. injection El as -> ->. cbn in Hc. destruct Hc as (<- & Hs & Hc). pose proof (chain_le _ _ _ Hc).
  destruct Ht as [[-> ->]|(_ & Hn & Hc2 & Htx)].
  - rewrite app_nil_r. split_and!; try lia. left. split; [lia|done].
  - pose proof (chain_le _ _ _ Hc2). split_and!; try lia. right. split; [done|]. by exists l1, l2, y.
Qed.

(** ** What [reserve] picks *)

(** Where a request is tried while [e] is the oldest live entry, and the end of
    the space there. *)
Definition spot (b E sz t : Z) (e : ConfigBufferEntry) : Z * Z :=
  let end_ := if addr e + size e <=? t then E else addr e in
  if (end_ <? t + sz) && (end_ =? E) then (b, addr e) else (t, end_).

(** The loop of [reserve] over the live entries [l], the next address [t] and a
    request of [sz] bytes: the entry to synchronise on, if any, and the address. *)
Fixpoint pick (b E sz t : Z) (l : list ConfigBufferEntry) : option Z * Z :=
  match l with
  | [] => (None, t)
  | e :: l' =>
      let '(a, end_) := spot b E sz t e in
      if end_ <? a + sz then
        match l' with
        | [] => (Some (sync_count e), b)
        | n :: _ => if (if addr n <=? a then E else addr n) <? a + sz then pick b E sz t l' else (Some (sync_count e), a)
        end
      else (if Z.of_nat (length l) =? 7 then Some (sync_count e) else None, a)
  end.

Definition apart (a sz : Z) (e : ConfigBufferEntry) : Prop := a + sz <= addr e \/ addr e + size e <= a.

(** [spot] when the live entries are one run up to the next address. *)
Lemma spot_one b E sz t e :
  addr e + size e <= t -> spot b E sz t e = if E <? t + sz then (b, addr e) else (t, E).
Proof. intros H. unfold spot. rewrite (proj2 (Z.leb_le _ _) H), Z.eqb_refl, andb_true_r. done. Qed.

(** [spot] when they wrap around the end of the buffer. *)
Lemma spot_two b E sz t e : t <= addr e -> 0 < size e -> addr e + size e <= E -> spot b E sz t e = (t, addr e).
Proof.
  intros H1 H2 H3. unfold spot. rewrite (proj2 (Z.leb_gt _ _)) by lia.
  by rewrite (proj2 (Z.eqb_neq (addr e) E)), andb_false_r by lia.
Qed.

(** A request that [o] and [a] answer: after the synchronisation the entries left
    have room for it at [a]. *)
Definition answers (b E sz : Z) (l : list ConfigBufferEntry) (o : option Z) (a : Z) : Prop :=
  exists la lb, l = la ++ lb /\ (length lb < 7)%nat /\
    (forall n, addr n = a -> size n = sz -> geometry b E (lb ++ [n]) (a + sz)) /\
    match o with None => la = [] | Some c => exists la' e, la = la' ++ [e] /\ c = sync_count e end.

Lemma answers_cons b E sz e l o a : o <> None -> answers b E sz l o a -> answers b E sz (e :: l) o a.
Proof.
  intros Ho (la & lb & -> & Hlen & Hg & Hm). exists (e :: la), lb. split_and!; [done..|]. destruct o; [|done].
  destruct Hm as (la' & x & -> & ->). by exists (e :: la'), x.
Qed.

Lemma answers_sync b E sz e l a :
  (length l < 7)%nat -> (forall n, addr n = a -> size n = sz -> geometry b E (l ++ [n]) (a + sz)) ->
  answers b E sz (e :: l) (Some (sync_count e)) a.
Proof. intros Hl Hg. exists [e], l. split_and!; [done..|]. by exists [], e. Qed.

(** A request that fits before the oldest entry: no sync unless the table is full. *)
Lemma answers_fit b E sz e l a :
  (length (e :: l) < 8)%nat -> (forall n, addr n = a -> size n = sz -> geometry b E ((e :: l) ++ [n]) (a + sz)) ->
  answers b E sz (e :: l) (if Z.of_nat (length (e :: l)) =? 7 then Some (sync_count e) else None) a.
Proof.
  intros Hl Hg. destruct (Z.eqb_spec (Z.of_nat (length (e :: l))) 7).
  - apply answers_sync; [cbn [length] in *; lia|]. intros n Ha Hn. eapply geometry_tail, (Hg n Ha Hn).
  - exists [], (e :: l). split_and!; [done|lia|done..].
Qed.

Lemma geometry_two b E l1 l2 x y t : chain x l1 y -> l1 <> [] -> b <= x -> y <= E -> l2 <> [] -> chain b l2 t -> t <= x -> geometry b E (l1 ++ l2) t.
Proof. intros. exists l1, l2, x, y. split_and!; [done..|]. by right. Qed.

Lemma geometry_one b E l x t : chain x l t -> b <= x -> t <= E -> geometry b E l t.
Proof. intros. exists l, [], x, t. rewrite app_nil_r. split_and!; [done..|]. by left. Qed.

Lemma pick_answers b E sz t l :
  geometry b E l t -> l <> [] -> (length l < 8)%nat -> 0 < sz -> sz <= E - b ->
  answers b E sz l (pick b E sz t l).1 (pick b E sz t l).2 /\
  ((spot b E sz t (hd (mkEntry 0 0 0) l)).2 < (spot b E sz t (hd (mkEntry 0 0 0) l)).1 + sz -> (pick b E sz t l).1 <> None).
Proof.
  intros Hg Hne Hlen Hsz Hcap. induction l as [|e l IH]; [done|]. clear Hne.
  pose proof Hg as (B1 & B2 & B3 & B4 & Hc)%geometry_cons. pose proof (geometry_tail _ _ _ _ _ Hg) as Hg'.
  cbn [length] in Hlen. cbn [hd pick].
  assert (Hsnoc : forall x k y n a, chain x k a -> addr n = a -> size n = sz -> a + sz = y -> chain x (k ++ [n]) y)
    by (intros x k y n a Hk H1 H2 <-; rewrite <- H2; apply chain_snoc; [done..|lia]).
  assert (Hone : forall n a, addr n = a -> size n = sz -> chain a [n] (a + sz)) by (intros n a H1 H2; cbn; lia).
  destruct Hc as [(Ht & Hc)|(Ht & l1 & l2 & y & -> & Hl2 & Hc1 & Hy & Hc2)].
  - rewrite spot_one by done. assert (Hall : chain (addr e) (e :: l) t) by (cbn; auto).
    destruct (Z.ltb_spec E (t + sz)) as [Hw|Hw]; cbn [fst snd].
    + destruct (Z.ltb_spec (addr e) (b + sz)) as [Hx|Hx].
      * destruct l as [|n l]; cbn [fst snd].
        { split; [|done]. apply answers_sync; [cbn; lia|]. intros m Ha Hm. apply (geometry_one _ _ _ b); [by apply Hone|lia..]. }
        assert (Hn : addr n = addr e + size e) by (by destruct Hc). assert (0 < size n /\ addr n + size n <= t) as [Hn1 Hn2].
        { destruct Hc as (_ & ? & Hc). apply chain_le in Hc. lia. }
        rewrite (proj2 (Z.leb_gt (addr n) b)) by lia. destruct (Z.ltb_spec (addr n) (b + sz)) as [Hr|Hr]; cbn [fst snd].
        -- destruct (IH Hg') as [IH1 IH2]; [done|lia|].
           assert (Hnone : (pick b E sz t (n :: l)).1 <> None).
           { apply IH2. cbn [hd]. rewrite spot_one, (proj2 (Z.ltb_lt E (t + sz))) by lia. cbn. lia. }
           split; [|done]. by apply answers_cons.
        -- split; [|done]. apply answers_sync; [lia|]. intros m Ha Hm.
           apply (geometry_two _ _ (n :: l) [m] (addr e + size e) t); [done|done|lia|lia|done|by apply Hone|lia].
      * cbn [fst snd]. split; [|lia]. apply answers_fit; [done|]. intros m Ha Hm.
        apply (geometry_two _ _ (e :: l) [m] (addr e) t); [done|done|lia|lia|done|by apply Hone|lia].
    + rewrite (proj2 (Z.ltb_ge E (t + sz))) by lia. cbn [fst snd]. split; [|lia]. apply answers_fit; [done|].
      intros m Ha Hm. apply (geometry_one _ _ _ (addr e)); [|lia..]. by eapply Hsnoc.
  - rewrite spot_two by lia. cbn [fst snd]. destruct (Z.ltb_spec (addr e) (t + sz)) as [Hx|Hx].
    + destruct (l1 ++ l2) as [|n l] eqn:El; [by destruct l1, l2|]. cbn [fst snd].
      assert (Hcase : (addr e + size e = addr n /\ 0 < size n /\ addr n + size n <= E /\ exists l1', l1 = n :: l1') \/
        (l1 = [] /\ addr n = b /\ 0 < size n /\ addr n + size n <= t)).
      { destruct l1 as [|d l1]; cbn in El.
        - right. subst l2. destruct Hc2 as (? & ? & Hc2). apply chain_le in Hc2. split_and!; [done|lia..].
        - left. injection El as -> <-. destruct Hc1 as (? & ? & Hc1). apply chain_le in Hc1. split_and!; [lia..|by exists l1]. }
      destruct (IH Hg') as [IH1 IH2]; [done|lia|].
      destruct Hcase as [(Hn & Hn1 & Hn2 & l1' & ->)|(-> & Hn & Hn1 & Hn2)].
      * rewrite (proj2 (Z.leb_gt (addr n) t)) by lia. destruct (Z.ltb_spec (addr n) (t + sz)) as [Hr|Hr]; cbn [fst snd].
        -- assert (Hnone : (pick b E sz t (n :: l)).1 <> None) by (apply IH2; cbn [hd]; rewrite spot_two by lia; cbn; lia).
           split; [|done]. by apply answers_cons.
        -- split; [|done]. apply answers_sync; [lia|]. intros m Ha Hm. rewrite <- El, <- app_assoc.
           apply (geometry_two _ _ _ _ (addr e + size e) y); [done|done|lia|lia|by destruct l2|by eapply Hsnoc|lia].
      * rewrite (proj2 (Z.leb_le (addr n) t)) by lia. cbn in El. subst l2. destruct (Z.ltb_spec E (t + sz)) as [Hr|Hr]; cbn [fst snd].
        -- assert (Hnone : (pick b E sz t (n :: l)).1 <> None).
           { apply IH2. cbn [hd]. rewrite spot_one, (proj2 (Z.ltb_lt E (t + sz))) by lia. cbn. lia. }
           split; [|done]. by apply answers_cons.
        -- split; [|done]. apply answers_sync; [lia|]. intros m Ha Hm. apply (geometry_one _ _ _ b); [by eapply Hsnoc|lia..].
    + cbn [fst snd]. split; [|lia]. apply answers_fit; [done|]. intros m Ha Hm.
      change (e :: l1 ++ l2) with ((e :: l1) ++ l2). rewrite <- app_assoc.
      apply (geometry_two _ _ (e :: l1) _ (addr e) y); [cbn; auto|done|lia|lia|by destruct l2|by eapply Hsnoc|lia].
Qed.

(** ** The loop of [reserve] is [pick] *)

Record lane_ok (L : Lane) (l : list ConfigBufferEntry) (t : Z) : Prop := {
  ok_base : 0 <= l_base L;
  ok_end : l_end L < 2 ^ 31;
  ok_ring : length (l_ring L) = 8%nat;
  ok_live : live_from (l_ring L) (l_free L) (l_alloc L) l;
  ok_tail : exists e, l_ring L !! Z.to_nat (l_alloc L) = Some e /\ addr e = t /\ size e = 0;
  ok_geometry : geometry (l_base L) (l_end L) l t;
}.

(** Ready for [reserve]: something is live, or the next address is the base. *)
Definition ready (L : Lane) (l : list ConfigBufferEntry) (t : Z) : Prop :=
  lane_ok L l t /\ (l = [] -> t = l_base L).

Lemma table_full ring f a l :
  live_from ring f a l ->
  (u32 (a + 1) =? f) || ((u32 (a + 1) =? kernel_config_entry_count) && (f =? 0)) = (Z.of_nat (length l) =? 7).
Proof.
  intros H. pose proof (live_from_alloc _ _ _ _ H) as Ha. destruct H as [Hf Hlen Hal _]. rewrite u32_small by lia.
  unfold kernel_config_entry_count. rewrite (mod8_add f) in Hal by lia.
  destruct (Z.ltb_spec (f + Z.of_nat (length l)) 8);
    destruct (Z.eqb_spec (a + 1) f), (Z.eqb_spec (a + 1) 8), (Z.eqb_spec f 0), (Z.eqb_spec (Z.of_nat (length l)) 7);
    cbn; try done; lia.
Qed.

Definition answer_sync (sync : ConfigBufferSync) (o : option Z) : ConfigBufferSync :=
  match o with None => sync | Some c => add_sync sync c end.

Lemma geometry_bounds b E l t : geometry b E l t -> b <= t <= E.
Proof.
  intros (l1 & l2 & x & y & _ & H1%chain_le & ? & ? & [[_ ->]|(_ & _ & H2%chain_le & ?)]); lia.
Qed.

Lemma reserve_loop_pick i sz sync : forall fuel s L f l t tail,
  lane s i = Some L -> l_ring L !! Z.to_nat (l_alloc L) = Some tail -> addr tail = t ->
  live_from (l_ring L) f (l_alloc L) l -> l <> [] -> geometry (l_base L) (l_end L) l t ->
  0 <= l_base L -> l_end L < 2 ^ 31 -> 0 < sz -> sz <= l_end L - l_base L -> (length l <= fuel)%nat ->
  exists s', reserve_loop fuel (Z.of_nat i) sz (l_alloc L) f sync s
      = (s', Ok (answer_sync sync (pick (l_base L) (l_end L) sz t l).1)) /\
    at_lane i (lane_set_res (mkEntry (pick (l_base L) (l_end L) sz t l).2 sz (sync_count (l_res L))) L) s s'.
Proof.
  induction fuel as [|fuel IH]; intros s L f l t tail HL Htail <- Hlive Hne Hg Hb0 HE Hsz Hcap Hfuel; [destruct l; [done|cbn in Hfuel; lia]|].
  destruct l as [|e l]; [done|]. clear Hne. pow2.
  pose proof (geometry_bounds _ _ _ _ Hg) as Ht. pose proof Hg as (B1 & B2 & B3 & _ & Hcase)%geometry_cons.
  pose proof (live_from_cons _ _ _ _ _ Hlive) as (He & Hfa & Hlive' & Hnext). pose proof HL as (H1 & H2 & _ & _ & _ & H6)%lane_inv.
  cbn [reserve_loop]. erewrite M_bind_ok by reflexivity. cbv beta.
  erewrite M_bind_ok by (unfold lift; by rewrite (lane_entry _ _ _ _ _ HL Htail)).
  destruct (update_reservation_lane s i L (set_entry_size sz) HL) as (s1 & E1 & Hs1).
  erewrite M_bind_ok by exact E1. rewrite (proj2 (Z.eqb_neq sz 0)) by lia.
  erewrite M_bind_ok by (unfold lift; by rewrite (at_of_nat _ _ _ H2)).
  erewrite M_bind_ok by (unfold lift; by rewrite (at_of_nat _ _ _ H1)).
  rewrite (u32_small (l_end L - l_base L)) by (pow2; lia). erewrite M_bind_ok by (apply require_true; lia).
  erewrite M_bind_ok by (unfold lift; by rewrite (lane_entry _ _ _ _ _ HL He)).
  rewrite (u32_small (addr e + size e)), (u32_small (addr tail + sz)) by (pow2; lia). cbv zeta.
  assert (Hfin : forall a o, exists s',
    (update_reservation (Z.of_nat i) (set_entry_addr a);; mret (answer_sync sync o)) s1 = (s', Ok (answer_sync sync o)) /\
    at_lane i (lane_set_res (mkEntry a sz (sync_count (l_res L))) L) s s').
  { intros a o. destruct (update_reservation_lane s1 i _ (set_entry_addr a) (proj1 Hs1)) as (s2 & E2 & Hs2).
    exists s2. split; [by erewrite M_bind_ok by exact E2|]. exact (at_lane_trans _ _ _ _ _ _ Hs1 Hs2). }
  cbn [pick]. unfold spot. 
  assert (Hab : let p := if ((if addr e + size e <=? addr tail then l_end L else addr e) <? addr tail + sz) &&
      ((if addr e + size e <=? addr tail then l_end L else addr e) =? l_end L) then (l_base L, addr e)
      else (addr tail, if addr e + size e <=? addr tail then l_end L else addr e) in l_base L <= p.1 <= l_end L)
    by (cbn zeta; destruct (_ && _); cbn; [lia|]; case_match; lia).
  cbn zeta in Hab. destruct (if _ && _ then _ else _) as [a end_] in Hab |- *. cbn [fst] in Hab.
  rewrite (u32_small (a + sz)) by (pow2; lia).
  destruct (end_ <? a + sz).
  - rewrite Hnext. destruct l as [|n l]; [exact (Hfin (l_base L) (Some (sync_count e)))|].
    pose proof (live_from_cons _ _ _ _ _ Hlive') as (Hn & _).
    erewrite M_bind_ok by (unfold lift; by rewrite (lane_entry _ _ _ _ _ HL Hn)).
    destruct ((if addr n <=? a then l_end L else addr n) <? a + sz); [|exact (Hfin a (Some (sync_count e)))].
    destruct (IH s1 _ (ring_next f) (n :: l) (addr tail) tail (proj1 Hs1)) as (s2 & E2 & Hs2); try done.
    + by eapply geometry_tail.
    + cbn [length] in *. lia.
    + exists s2. split; [exact E2|]. exact (at_lane_trans _ _ _ _ _ _ Hs1 Hs2).
  - rewrite (table_full _ _ _ _ Hlive). destruct (Hfin a (if Z.of_nat (length (e :: l)) =? 7 then Some (sync_count e) else None)) as (s2 & E2 & Hs2).
    exists s2. split; [|exact Hs2]. destruct (_ =? 7); exact E2.
Qed.

Lemma reserve_loop_ready i sz sync s L l t :
  lane s i = Some L -> ready L l t -> 0 < sz -> sz <= l_end L - l_base L ->
  exists s' o a, reserve_loop (Z.to_nat kernel_config_entry_count) (Z.of_nat i) sz (l_alloc L) (l_free L) sync s = (s', Ok (answer_sync sync o)) /\
    at_lane i (lane_set_res (mkEntry a sz (sync_count (l_res L))) L) s s' /\ o = (pick (l_base L) (l_end L) sz t l).1 /\
    answers (l_base L) (l_end L) sz l o a.
Proof.
  intros HL [[Hb HE Hring Hlive (tail & Htail & <- & Hts) Hg] Hempty] Hsz Hcap. destruct l as [|e l].
  - specialize (Hempty eq_refl). pose proof (lf_alloc _ _ _ _ Hlive) as Ha. pose proof (lf_free _ _ _ _ Hlive) as Hf.
    cbn [length] in Ha. rewrite Z.add_0_r, Z.mod_small in Ha by lia. pow2.
    pose proof HL as (H1 & H2 & _ & _ & _ & H6)%lane_inv.
    destruct (update_reservation_lane s i L (set_entry_size sz) HL) as (s1 & E1 & Hs1).
    destruct (update_reservation_lane s1 i _ (set_entry_addr (addr tail)) (proj1 Hs1)) as (s2 & E2 & Hs2).
    exists s2, None, (addr tail). split; [|split; [exact (at_lane_trans _ _ _ _ _ _ Hs1 Hs2)|split; [done|]]].
    + change (Z.to_nat kernel_config_entry_count) with 8%nat. cbn [reserve_loop]. erewrite M_bind_ok by reflexivity. cbv beta.
      erewrite M_bind_ok by (unfold lift; by rewrite (lane_entry _ _ _ _ _ HL Htail)). erewrite M_bind_ok by exact E1.
      rewrite (proj2 (Z.eqb_neq sz 0)) by lia.
      erewrite M_bind_ok by (unfold lift; by rewrite (at_of_nat _ _ _ H2)). erewrite M_bind_ok by (unfold lift; by rewrite (at_of_nat _ _ _ H1)).
      rewrite (u32_small (l_end L - l_base L)) by (pow2; lia). erewrite M_bind_ok by (apply require_true; lia).
      rewrite <- Ha. erewrite M_bind_ok by (unfold lift; by rewrite (lane_entry _ _ _ _ _ HL Htail)). cbv zeta.
      rewrite Hts, Z.add_0_r, (u32_small (addr tail)), Z.leb_refl, Z.eqb_refl, andb_true_r, (u32_small (addr tail + sz)) by (pow2; lia).
      rewrite (proj2 (Z.ltb_ge (l_end L) (addr tail + sz))) by lia. rewrite (u32_small (addr tail + sz)), (proj2 (Z.ltb_ge (l_end L) (addr tail + sz))) by (pow2; lia).
      rewrite <- Ha in Hlive. rewrite (table_full _ _ _ _ Hlive). cbn [length]. erewrite M_bind_ok by exact E2. done.
    + exists [], []. split_and!; [done|cbn; lia| |done]. intros n Hn1 Hn2. apply (geometry_one _ _ _ (addr tail)); [cbn; lia|lia..].
  - destruct (reserve_loop_pick i sz sync (Z.to_nat kernel_config_entry_count) s L (l_free L) (e :: l) (addr tail) tail) as (s' & E1 & Hs'); try done.
    + pose proof (lf_len _ _ _ _ Hlive). change (Z.to_nat kernel_config_entry_count) with 8%nat. lia.
    + eexists s', _, _. split; [exact E1|]. split; [exact Hs'|]. split; [done|]. apply pick_answers; try done. by destruct Hlive.
Qed.

Lemma reserve_loop_zero i sync s L l t :
  lane s i = Some L -> lane_ok L l t ->
  exists s', reserve_loop (Z.to_nat kernel_config_entry_count) (Z.of_nat i) 0 (l_alloc L) (l_free L) sync s = (s', Ok sync) /\
    at_lane i (lane_set_res (mkEntry t 0 (sync_count (l_res L))) L) s s'.
Proof.
  intros HL [_ _ _ _ (tail & Htail & <- & _) _].
  destruct (update_reservation_lane s i L (set_entry_size 0) HL) as (s1 & E1 & Hs1).
  destruct (update_reservation_lane s1 i _ (set_entry_addr (addr tail)) (proj1 Hs1)) as (s2 & E2 & Hs2).
  exists s2. split; [|exact (at_lane_trans _ _ _ _ _ _ Hs1 Hs2)].
  change (Z.to_nat kernel_config_entry_count) with 8%nat. cbn [reserve_loop]. erewrite M_bind_ok by reflexivity. cbv beta.
  erewrite M_bind_ok by (unfold lift; by rewrite (lane_entry _ _ _ _ _ HL Htail)). erewrite M_bind_ok by exact E1.
  cbn [Z.eqb]. by erewrite M_bind_ok by exact E2.
Qed.

(** ** The loops over the core types *)

Lemma lanes_loop (f : Z -> W unit) (P : nat -> Lane -> Prop) (R : nat -> Lane -> Lane -> Prop) :
  (forall s i L, lane s i = Some L -> P i L -> exists s' L', f (Z.of_nat i) s = (s', Ok tt) /\ at_lane i L' s s' /\ R i L L') ->
  forall m k s, (k + m = length (reservation_ s))%nat -> (forall i, (k <= i < k + m)%nat -> exists L, lane s i = Some L /\ P i L) ->
  exists s', mapM_ f (zrange (Z.of_nat k) (Z.of_nat (k + m))) s = (s', Ok tt) /\
    length (reservation_ s') = length (reservation_ s) /\ (forall i, (i < k)%nat -> lane s' i = lane s i) /\
    forall i, (k <= i < k + m)%nat -> exists L L', lane s i = Some L /\ lane s' i = Some L' /\ R i L L'.
Proof.
  intros Hf. induction m as [|m IH]; intros k s Hlen HP.
  - rewrite zrange_nil by lia. exists s. split_and!; [done..|]. intros i Hi. lia.
  - rewrite zrange_cons by lia. cbn [mapM_]. destruct (HP k ltac:(lia)) as (L & HL & HPL).
    destruct (Hf s k L HL HPL) as (s1 & L1 & E1 & (Hs1 & Hs1' & Hn1) & HR).
    destruct (IH (S k) s1) as (s' & E' & Hn' & Hlow & Hall); [lia| |].
    { intros i Hi. rewrite Hs1' by lia. apply HP. lia. }
    exists s'. erewrite M_bind_ok by exact E1. replace (Z.of_nat k + 1) with (Z.of_nat (S k)) by lia.
    replace (k + S m)%nat with (S k + m)%nat by lia. split_and!; [exact E'|congruence| |].
    + intros i Hi. rewrite Hlow, Hs1' by lia. done.
    + intros i Hi. destruct (decide (i = k)) as [->|].
      * exists L, L1. split_and!; [done| |done]. rewrite Hlow by lia. done.
      * rewrite <- Hs1' by lia. apply Hall. lia.
Qed.

Lemma lanes_all (f : Z -> W unit) (P : nat -> Lane -> Prop) (R : nat -> Lane -> Lane -> Prop) s :
  (forall s i L, lane s i = Some L -> P i L -> exists s' L', f (Z.of_nat i) s = (s', Ok tt) /\ at_lane i L' s s' /\ R i L L') ->
  (forall i, (i < length (reservation_ s))%nat -> exists L, lane s i = Some L /\ P i L) ->
  exists s', mapM_ f (zrange 0 (num_buffer_types s)) s = (s', Ok tt) /\ length (reservation_ s') = length (reservation_ s) /\
    forall i, (i < length (reservation_ s))%nat -> exists L L', lane s i = Some L /\ lane s' i = Some L' /\ R i L L'.
Proof.
  intros Hf HP. destruct (lanes_loop f P R Hf (length (reservation_ s)) 0 s) as (s' & E & Hn & _ & H); [done| |].
  - intros i Hi. apply HP. lia.
  - exists s'. split_and!; [exact E|done|]. intros i Hi. apply H. lia.
Qed.

(** The entry a request of [sz] bytes has to wait for. *)
Definition wait_for (L : Lane) (l : list ConfigBufferEntry) (t sz : Z) : option Z :=
  if sz =? 0 then None else (pick (l_base L) (l_end L) sz t l).1.

(** What a lane is after [reserve]: the reservation, and the answer. *)
Definition reserved (sz : Z) (l : list ConfigBufferEntry) (t : Z) (o : option Z) (L L' : Lane) : Prop :=
  exists a, L' = lane_set_res (mkEntry a sz (sync_count (l_res L))) L /\ o = wait_for L l t sz /\
    (sz = 0 /\ o = None \/ answers (l_base L) (l_end L) sz l o a).

Lemma reserve_loop_ok i sz sync s L l t :
  lane s i = Some L -> ready L l t -> 0 <= sz <= l_end L - l_base L ->
  exists s' o L', reserve_loop (Z.to_nat kernel_config_entry_count) (Z.of_nat i) sz (l_alloc L) (l_free L) sync s = (s', Ok (answer_sync sync o)) /\
    at_lane i L' s s' /\ reserved sz l t o L L'.
Proof.
  intros HL Hr [H0 Hcap]. destruct (decide (sz = 0)) as [->|Hne].
  - destruct (reserve_loop_zero i sync s L l t HL (proj1 Hr)) as (s' & E & Hs').
    exists s'. eexists None, _. split; [exact E|]. split; [exact Hs'|]. exists t. split; [done|]. split; [done|by left].
  - destruct (reserve_loop_ready i sz sync s L l t HL Hr) as (s' & o & a & E & Hs' & Ho & Hans); [lia..|].
    eexists s', o, _. split; [exact E|]. split; [exact Hs'|]. exists a. split; [done|]. split; [|by right].
    unfold wait_for. by rewrite (proj2 (Z.eqb_neq sz 0) Hne).
Qed.

Definition readies (s : WorkerConfigBufferMgr) (ls : nat -> list ConfigBufferEntry) : Prop :=
  forall i, (i < length (reservation_ s))%nat -> exists L t, lane s i = Some L /\ ready L (ls i) t.

Definition request_fits (s : WorkerConfigBufferMgr) (sizes : list Z) : Prop :=
  length sizes = length (reservation_ s) /\
  forall i L sz, lane s i = Some L -> sizes !! i = Some sz -> 0 <= sz <= l_end L - l_base L.

Lemma reserve_types_ok sizes ls : forall m k s sync,
  (k + m = length (reservation_ s))%nat -> readies s ls -> request_fits s sizes ->
  exists s' os, reserve_types sizes (zrange (Z.of_nat k) (Z.of_nat (k + m))) sync s = (s', Ok (foldl answer_sync sync os)) /\
    length os = m /\ length (reservation_ s') = length (reservation_ s) /\ (forall i, (i < k)%nat -> lane s' i = lane s i) /\
    forall i o, os !! i = Some o -> exists L L' sz, sizes !! (k + i)%nat = Some sz /\
      lane s (k + i)%nat = Some L /\ lane s' (k + i)%nat = Some L' /\
      exists t, lane_ok L (ls (k + i)%nat) t /\ reserved sz (ls (k + i)%nat) t o L L'.
Proof.
  induction m as [|m IH]; intros k s sync Hlen Hr Hq.
  - rewrite zrange_nil by lia. exists s, []. split_and!; done.
  - rewrite zrange_cons by lia. cbn [reserve_types]. destruct (Hr k ltac:(lia)) as (L & t & HL & Hrd).
    pose proof HL as (_ & _ & _ & H4 & H5 & _)%lane_inv.
    destruct (lookup_lt_is_Some_2 sizes k) as [sz Hsz]; [destruct Hq; lia|].
    destruct (reserve_loop_ok k sz sync s L (ls k) t HL Hrd (proj2 Hq k L sz HL Hsz)) as (s1 & o & L1 & E1 & (Hs1 & Hs1' & Hn1) & a & HL1 & Hw & Hans).
    destruct (IH (S k) s1 (answer_sync sync o)) as (s' & os & E' & Hos & Hn' & Hlow & Hall); [lia| | |].
    + intros i Hi. destruct (decide (i = k)) as [->|].
      * eexists _, t. split; [exact Hs1|]. subst L1. destruct Hrd as [[] ?]. split; [by constructor|done].
      * rewrite Hs1' by done. apply Hr. lia.
    + destruct Hq as [Hq1 Hq2]. split; [congruence|]. intros i L' sz' HL' Hsz'. destruct (decide (i = k)) as [->|].
      * rewrite HL' in Hs1. injection Hs1 as ->. rewrite HL1. cbn. rewrite Hsz in Hsz'. injection Hsz' as <-.
        by apply (Hq2 k L sz).
      * rewrite Hs1' in HL' by done. by eapply Hq2.
    + exists s', (o :: os). erewrite M_bind_ok by reflexivity. cbv beta.
      erewrite M_bind_ok by (unfold lift; by rewrite (at_of_nat _ _ _ H5)). erewrite M_bind_ok by (unfold lift; by rewrite (at_of_nat _ _ _ H4)).
      erewrite M_bind_ok by (unfold lift; by rewrite (at_of_nat _ _ _ Hsz)). erewrite M_bind_ok by exact E1.
      replace (Z.of_nat k + 1) with (Z.of_nat (S k)) by lia. replace (k + S m)%nat with (S k + m)%nat by lia.
      split_and!; [exact E'|cbn; lia|congruence| |].
      * intros i Hi. rewrite Hlow, Hs1' by lia. done.
      * intros [|i] o' Ho'.
        -- injection Ho' as <-. rewrite Nat.add_0_r. exists L, L1, sz.
           split_and!; [done|done|rewrite Hlow by lia; done|]. exists t. split; [apply Hrd|by exists a].
        -- destruct (Hall i o' Ho') as (M & M' & sz' & H1 & H2 & H3 & H6).
           replace (k + S i)%nat with (S k + i)%nat by lia. rewrite Hs1' in H2 by lia. by exists M, M', sz'.
Qed.

(** ** free *)

(** The entries left after everything up to [n] is synchronised. *)
Fixpoint unsynced (n : Z) (l : list ConfigBufferEntry) : list ConfigBufferEntry :=
  match l with
  | [] => []
  | e :: l' => if sync_count e <=? n then unsynced n l' else l
  end.

Lemma unsynced_suffix n l : exists k, l = k ++ unsynced n l /\ Forall (fun e => sync_count e <= n) k.
Proof.
  induction l as [|e l (k & E & H)]; cbn; [by exists []|]. destruct (Z.leb_spec (sync_count e) n).
  - exists (e :: k). split; [cbn; congruence|by constructor].
  - by exists [].
Qed.

Lemma free_loop_ok i n : forall fuel s L f l tail,
  lane s i = Some L -> live_from (l_ring L) f (l_alloc L) l -> l_free L = f ->
  l_ring L !! Z.to_nat (l_alloc L) = Some tail -> (length l < fuel)%nat ->
  exists s' f', free_loop fuel n (Z.of_nat i) f s = (s', Ok tt) /\ at_lane i (lane_set_free f' L) s s' /\
    live_from (l_ring L) f' (l_alloc L) (unsynced n l).
Proof.
  induction fuel as [|fuel IH]; intros s L f l tail HL Hlive Hf Htail Hfuel; [lia|].
  pose proof HL as (_ & _ & _ & H4 & _ & _)%lane_inv. cbn [free_loop]. erewrite M_bind_ok by reflexivity. cbv beta.
  assert (HLs : L = lane_set_free f L) by (rewrite <- Hf; by destruct L). destruct l as [|e l].
  - assert (f = l_alloc L) as -> by (pose proof (lf_alloc _ _ _ _ Hlive) as Ha; pose proof (lf_free _ _ _ _ Hlive);
      cbn [length] in Ha; rewrite Z.add_0_r, Z.mod_small in Ha; lia).
    erewrite M_bind_ok by (unfold lift; by rewrite (lane_entry _ _ _ _ _ HL Htail)).
    erewrite M_bind_ok by (unfold lift; by rewrite (at_of_nat _ _ _ H4)). rewrite Z.eqb_refl, andb_false_r.
    exists s, (l_alloc L). split; [done|]. split; [rewrite <- HLs; by apply at_lane_refl|done].
  - destruct (live_from_cons _ _ _ _ _ Hlive) as (He & Hfa & Hlive' & _).
    erewrite M_bind_ok by (unfold lift; by rewrite (lane_entry _ _ _ _ _ HL He)).
    erewrite M_bind_ok by (unfold lift; by rewrite (at_of_nat _ _ _ H4)).
    rewrite (proj2 (Z.eqb_neq f (l_alloc L)) Hfa), andb_true_r. cbn [unsynced]. destruct (sync_count e <=? n).
    + destruct (set_free_lane s i L (ring_next f) HL) as (s1 & E1 & Hs1). erewrite M_bind_ok by exact E1.
      destruct (IH s1 (lane_set_free (ring_next f) L) (ring_next f) l tail) as (s2 & f' & E2 & Hs2 & Hl2); try done.
      * apply Hs1.
      * cbn [length] in Hfuel. lia.
      * exists s2, f'. split; [exact E2|]. split; [exact (at_lane_trans _ _ _ _ _ _ Hs1 Hs2)|exact Hl2].
    + exists s, f. split; [done|]. split; [rewrite <- HLs; by apply at_lane_refl|done].
Qed.

Lemma geometry_suffix b E k l t : geometry b E (k ++ l) t -> geometry b E l t.
Proof. induction k as [|e k IH]; [done|]. intros H%geometry_tail. auto. Qed.

(** What [free n] does to a lane with live entries [l]. *)
Definition freed (n : Z) (l : list ConfigBufferEntry) (t : Z) (L L' : Lane) : Prop :=
  (exists f', L' = lane_set_free f' L) /\ lane_ok L' (unsynced n l) t.

Lemma free_type_ok n s i L l t :
  lane s i = Some L -> lane_ok L l t ->
  exists s' L', free_type n (Z.of_nat i) s = (s', Ok tt) /\ at_lane i L' s s' /\ freed n l t L L'.
Proof.
  intros HL [Hb HE Hring Hlive (tail & Htail & Ht & Hts) Hg]. pose proof HL as (_ & _ & _ & _ & H5 & _)%lane_inv.
  unfold free_type. erewrite M_bind_ok by reflexivity. cbv beta. erewrite M_bind_ok by (unfold lift; by rewrite (at_of_nat _ _ _ H5)).
  destruct (free_loop_ok i n (Z.to_nat kernel_config_entry_count) s L (l_free L) l tail) as (s' & f' & E & Hs' & Hl'); try done.
  { apply (lf_len _ _ _ _ Hlive). }
  exists s', (lane_set_free f' L). split; [exact E|]. split; [exact Hs'|]. split; [by exists f'|].
  constructor; cbn; try done; [by exists tail|]. destruct (unsynced_suffix n l) as (k & Hk & _). rewrite Hk in Hg. by eapply geometry_suffix.
Qed.

(** ** alloc *)

Lemma update3 s i L k e f1 f2 f3 (m : W unit) :
  lane s i = Some L -> l_ring L !! Z.to_nat k = Some e ->
  exists s', (update_entry k (Z.of_nat i) f1;; update_entry k (Z.of_nat i) f2;; update_entry k (Z.of_nat i) f3;; m) s = m s' /\
    at_lane i (lane_set_ring (<[Z.to_nat k := f3 (f2 (f1 e))]> (l_ring L)) L) s s'.
Proof.
  intros HL He.
  destruct (update_entry_lane s i L k e f1 HL He) as (s1 & E1 & Hs1).
  destruct (update_entry_lane s1 i _ k (f1 e) f2 (proj1 Hs1)) as (s2 & E2 & Hs2); [cbn; by rewrite list_lookup_alter_eq, He|].
  destruct (update_entry_lane s2 i _ k (f2 (f1 e)) f3 (proj1 Hs2)) as (s3 & E3 & Hs3).
  { cbn. rewrite !list_lookup_alter_eq, He. done. }
  exists s3. erewrite M_bind_ok by exact E1. erewrite M_bind_ok by exact E2. erewrite M_bind_ok by exact E3. split; [done|].
  pose proof (at_lane_trans _ _ _ _ _ _ (at_lane_trans _ _ _ _ _ _ Hs1 Hs2) Hs3) as H. cbn in H.
  replace (alter f3 _ (alter f2 _ (alter f1 _ (l_ring L)))) with (<[Z.to_nat k := f3 (f2 (f1 e))]> (l_ring L)) in H; [exact H|].
  apply list_eq. intros j. destruct (decide (j = Z.to_nat k)) as [->|Hj].
  - rewrite list_lookup_insert_eq by (by eapply lookup_lt_Some). by rewrite !list_lookup_alter_eq, He.
  - by rewrite list_lookup_insert_ne, !list_lookup_alter_ne by done.
Qed.

Lemma three_updates (u1 u2 u3 : W unit) s s' : (u1;; u2;; u3;; mret tt) s = (s', Ok tt) -> (u1;; u2;; u3) s = (s', Ok tt).
Proof.
  unfold mbind, M_bind. destruct (u1 s) as [s1 [[]|]]; [|done]. destruct (u2 s1) as [s2 [[]|]]; [|done].
  by destruct (u3 s2) as [s3 [[]|]].
Qed.

(** The indices of the live entries are apart from those [alloc] writes. *)
Lemma ring_indices f k n :
  0 <= f < 8 -> 0 <= k < n -> n < 8 -> Z.to_nat ((f + k) mod 8) <> Z.to_nat ((f + n) mod 8).
Proof.
  intros Hf Hk Hn. rewrite !mod8_add by lia. destruct (Z.ltb_spec (f + k) 8), (Z.ltb_spec (f + n) 8); lia.
Qed.

(** What [alloc c] does to a lane with live entries [l] whose reservation has room. *)
Definition alloced (c : Z) (l : list ConfigBufferEntry) (L L' : Lane) : Prop :=
  l_base L' = l_base L /\ l_end L' = l_end L /\ l_res L' = l_res L /\
  ready L' (l ++ [mkEntry (addr (l_res L)) (size (l_res L)) c]) (addr (l_res L) + size (l_res L)).

Lemma alloc_type_ok c s i L l t :
  lane s i = Some L -> lane_ok L l t -> (length l < 7)%nat ->
  (forall n, addr n = addr (l_res L) -> size n = size (l_res L) -> geometry (l_base L) (l_end L) (l ++ [n]) (addr (l_res L) + size (l_res L))) ->
  exists s' L', alloc_type c (Z.of_nat i) s = (s', Ok tt) /\ at_lane i L' s s' /\ alloced c l L L'.
Proof.
  intros HL [Hb HE Hring Hlive (tail & Htail & Ht & Hts) Hg] Hlen Hnew. pose proof HL as (_ & _ & _ & H4 & _ & H6)%lane_inv.
  pose proof (live_from_alloc _ _ _ _ Hlive) as Ha8. destruct (ring_next_mod _ Ha8) as [Hn1 Hn2]. pose proof Hlive as [Hf8 _ Hal Hent].
  set (a := l_alloc L) in *. set (r := l_res L) in *. set (new := mkEntry (addr r) (size r) c).
  specialize (Hnew new eq_refl eq_refl). pose proof (geometry_bounds _ _ _ _ Hnew) as Hbd. pow2.
  unfold alloc_type. erewrite M_bind_ok by reflexivity. cbv beta.
  erewrite M_bind_ok by (unfold lift; by rewrite (at_of_nat _ _ _ H4)). erewrite M_bind_ok by (unfold lift; by rewrite (at_of_nat _ _ _ H6)).
  fold a r. cbv zeta.
  match goal with |- context [update_entry a _ (set_entry_sync c);; ?m] =>
    destruct (update3 s i L a tail (set_entry_addr (addr r)) (set_entry_size (size r)) (set_entry_sync c) m HL Htail) as (s1 & E1 & Hs1) end.
  rewrite E1. clear E1. cbn [set_entry_addr set_entry_size set_entry_sync addr size sync_count] in Hs1. fold new in Hs1.
  set (ring1 := <[Z.to_nat a := new]> (l_ring L)) in Hs1.
  assert (Hlen1 : length ring1 = 8%nat) by (unfold ring1; by rewrite length_insert).
  assert (Hold : ring1 !! Z.to_nat a = Some new) by (apply list_lookup_insert_eq; lia).
  erewrite M_bind_ok by reflexivity. cbv beta.
  erewrite M_bind_ok by (unfold lift; by rewrite (lane_entry s1 i _ _ _ (proj1 Hs1) Hold)).
  change (addr new) with (addr r). change (size new) with (size r). rewrite (u32_small (addr r + size r)) by (pow2; lia).
  destruct (lookup_lt_is_Some_2 ring1 (Z.to_nat (ring_next a))) as [nx Hnx]; [lia|].
  match goal with |- context [update_entry (ring_next a) _ (set_entry_sync debug_sync);; ?m] =>
    destruct (update3 s1 i _ (ring_next a) nx (set_entry_addr (addr r + size r)) (set_entry_size 0) (set_entry_sync debug_sync) m (proj1 Hs1) Hnx)
      as (s2 & E2 & Hs2) end.
  rewrite E2. clear E2. cbn [set_entry_addr set_entry_size set_entry_sync addr size sync_count lane_set_ring l_ring] in Hs2.
  set (nt := mkEntry (addr r + size r) 0 debug_sync) in Hs2. set (ring2 := <[Z.to_nat (ring_next a) := nt]> ring1) in Hs2.
  destruct (set_alloc_lane s2 i _ (ring_next a) (proj1 Hs2)) as (s3 & E3 & Hs3).
  eexists s3, _. split; [exact E3|]. split; [exact (at_lane_trans _ _ _ _ _ _ (at_lane_trans _ _ _ _ _ _ Hs1 Hs2) Hs3)|].
  split; [done|]. split; [done|]. split; [done|]. split; [|by destruct l].
  assert (Hidx : ring_next a = (l_free L + Z.of_nat (length (l ++ [new]))) mod 8).
  { rewrite Hn1, Hal, Zplus_mod_idemp_l, length_app. cbn [length]. f_equal. lia. }
  constructor; cbn; try done.
  - unfold ring2. by rewrite length_insert.
  - constructor; cbn; try done; [rewrite length_app; cbn; lia|].
    intros k e Hk. pose proof (lookup_lt_Some _ _ _ Hk) as Hkl. rewrite length_app in Hkl. cbn in Hkl.
    unfold ring2. rewrite list_lookup_insert_ne by (rewrite Hidx, length_app; cbn; apply not_eq_sym, ring_indices; lia).
    apply lookup_app_Some in Hk as [Hk|[Hk1 Hk2]].
    + unfold ring1. rewrite list_lookup_insert_ne; [by apply Hent|].
      apply lookup_lt_Some in Hk. rewrite Hal. apply not_eq_sym, ring_indices; lia.
    + apply list_lookup_singleton_Some in Hk2 as [Hk2 <-]. replace k with (length l) by lia. by rewrite <- Hal.
  - exists nt. split; [|done]. unfold ring2. apply list_lookup_insert_eq. rewrite ?length_insert. lia.
Qed.
