(* ===== verification/ConfigBufferProps.v ===== *)
(** * What the configuration ring buffer promises

    The manager over all its core types, its client in the command queue, set-up,
    and the placement of launches apart from every program in flight. *)

From S2P Require Import Prelude ConfigBuffer ConfigBufferRing.

(** ** The manager as a whole *)

(** Every lane posts an answer to the request [sizes]. *)
Definition posted (s : WorkerConfigBufferMgr) (ls : nat -> list ConfigBufferEntry) (sizes : list Z) (os : list (option Z)) : Prop :=
  length os = length (reservation_ s) /\
  forall i, (i < length (reservation_ s))%nat -> exists L t sz o, lane s i = Some L /\ sizes !! i = Some sz /\ os !! i = Some o /\
    ready L (ls i) t /\ size (l_res L) = sz /\ o = wait_for L (ls i) t sz /\
    (sz = 0 /\ o = None \/ answers (l_base L) (l_end L) sz (ls i) o (addr (l_res L))).

(** The same regions under management. *)
Definition same_regions (s s' : WorkerConfigBufferMgr) : Prop :=
  length (reservation_ s') = length (reservation_ s) /\
  forall i L', lane s' i = Some L' -> (i < length (reservation_ s))%nat -> exists L, lane s i = Some L /\ l_base L' = l_base L /\ l_end L' = l_end L.

(** The same state but for the reservations. *)
Definition same_rings (s s' : WorkerConfigBufferMgr) : Prop :=
  length (reservation_ s') = length (reservation_ s) /\
  forall i, (i < length (reservation_ s))%nat -> exists L r, lane s i = Some L /\ lane s' i = Some (lane_set_res r L).

Lemma lane_length s i L : lane s i = Some L -> (i < length (reservation_ s))%nat.
Proof. intros (_ & _ & _ & _ & _ & H)%lane_inv. by eapply lookup_lt_Some. Qed.

Lemma same_rings_regions s s' : same_rings s s' -> same_regions s s'.
Proof.
  intros [Hn H]. split; [done|]. intros i L' HL' Hi. destruct (H i Hi) as (L & r & HL & E). rewrite E in HL'. injection HL' as <-. by exists L.
Qed.

Lemma same_rings_trans s s1 s2 : same_rings s s1 -> same_rings s1 s2 -> same_rings s s2.
Proof.
  intros [N1 H1] [N2 H2]. split; [congruence|]. intros i Hi. destruct (H1 i Hi) as (L & r & HL & HL1).
  destruct (H2 i ltac:(lia)) as (L1 & r' & HL1' & HL2). rewrite HL1 in HL1'. injection HL1' as <-. by exists L, r'.
Qed.

Lemma request_fits_same s s' sizes : same_regions s s' -> request_fits s sizes -> request_fits s' sizes.
Proof.
  intros [Hn Hs] [H1 H2]. split; [congruence|]. intros i L' sz HL' Hsz. pose proof (lane_length _ _ _ HL').
  destruct (Hs i L' HL') as (L & HL & -> & ->); [lia|]. by eapply H2.
Qed.

Lemma same_regions_trans s s1 s2 : same_regions s s1 -> same_regions s1 s2 -> same_regions s s2.
Proof.
  intros [N1 H1] [N2 H2]. split; [congruence|]. intros i L2 HL2 Hi. destruct (H2 i L2 HL2) as (L1 & HL1 & -> & ->); [lia|]. by apply H1.
Qed.

Lemma ready_set_res L l t r : ready L l t -> ready (lane_set_res r L) l t.
Proof. intros [[] ?]. split; [by constructor|done]. Qed.

Lemma reserve_posts s ls sizes :
  readies s ls -> request_fits s sizes ->
  exists s' os, reserve sizes s = (s', Ok (foldl answer_sync (mkSync false 0) os)) /\ posted s' ls sizes os /\ same_rings s s'.
Proof.
  intros Hr Hq. destruct (reserve_types_ok sizes ls (length (reservation_ s)) 0 s (mkSync false 0)) as (s' & os & E & Hos & Hn & _ & Hall); [lia|done|done|].
  exists s', os. split; [|split].
  - unfold reserve. erewrite M_bind_ok by reflexivity. cbv beta. unfold num_buffer_types.
    erewrite M_bind_ok by (apply require_true; destruct Hq; lia). exact E.
  - split; [congruence|]. intros i Hi. destruct (lookup_lt_is_Some_2 os i) as [o Ho]; [lia|].
    destruct (Hall i o Ho) as (L & L' & sz & Hsz & HL & HL' & t & Hok & a & -> & Hw & Ha). destruct (Hr i) as (L2 & t2 & HL2 & Hrd); [lia|].
    cbn in HL, HL'. rewrite HL in HL2. injection HL2 as <-.
    assert (t2 = t) as ->.
    { destruct Hrd as [[_ _ _ _ (e & He & <- & _) _] _], Hok as [_ _ _ _ (e' & He' & <- & _) _]. congruence. }
    eexists _, t, sz, o. split_and!; [exact HL'|done..|by apply ready_set_res|done|exact Hw|exact Ha].
  - split; [done|]. intros i Hi. destruct (lookup_lt_is_Some_2 os i) as [o Ho]; [lia|].
    destruct (Hall i o Ho) as (L & L2 & sz & Hsz & HL & HL2 & t & Hok & a & -> & _). cbn in HL, HL2. by eexists L, _.
Qed.

Lemma posted_readies s ls sizes os : posted s ls sizes os -> readies s ls.
Proof. intros [_ H] i Hi. destruct (H i Hi) as (L & t & sz & o & HL & _ & _ & Hr & _). by exists L, t. Qed.

(** The answers depend on the rings only. *)
Lemma posted_unique s s' ls sizes os os' :
  posted s ls sizes os -> posted s' ls sizes os' -> same_rings s s' -> os = os'.
Proof.
  intros [Ho Hp] [Ho' Hp'] [Hn Hs]. apply list_eq_same_length with (length os); [congruence|done|]. intros i x y Hi Hx Hy.
  destruct (Hp i) as (L & t & sz & o & HL & Hsz & Hoi & [[_ _ _ _ (e & He & <- & _) _] _] & _ & -> & _); [lia|].
  destruct (Hp' i) as (L' & t' & sz' & o' & HL' & Hsz' & Hoi' & [[_ _ _ _ (e' & He' & <- & _) _] _] & _ & -> & _); [lia|].
  destruct (Hs i) as (M & r & HM & HM'); [lia|]. rewrite HL in HM. injection HM as <-. rewrite HL' in HM'. injection HM' as ->.
  cbn in He'. rewrite He in He'. injection He' as <-. rewrite Hsz in Hsz'. injection Hsz' as <-. rewrite Hoi in Hx. rewrite Hoi' in Hy. injection Hx as <-. injection Hy as <-. done.
Qed.

(** The synchronisation covers every answer, and is one of them. *)
Lemma foldl_sync os : forall sync,
  (forall c, Some c ∈ os -> need_sync (foldl answer_sync sync os) = true /\ c <= sync_to (foldl answer_sync sync os)) /\
  (need_sync sync = true -> need_sync (foldl answer_sync sync os) = true /\ sync_to sync <= sync_to (foldl answer_sync sync os)) /\
  (need_sync (foldl answer_sync sync os) = true -> Some (sync_to (foldl answer_sync sync os)) ∈ os \/
     (need_sync sync = true /\ sync_to (foldl answer_sync sync os) = sync_to sync)).
Proof.
  induction os as [|o os IH]; intros sync; cbn [foldl].
  - split_and!; [by intros c []%elem_of_nil|intros ->; split; [done|lia]|intros H; by right].
  - destruct (IH (answer_sync sync o)) as (H1 & H2 & H3). destruct o as [c|]; cbn [answer_sync] in *.
    + assert (Hn : need_sync (add_sync sync c) = true) by done. specialize (H2 Hn) as [H2 H2'].
      assert (Hc : c <= sync_to (add_sync sync c)) by (unfold add_sync; cbn; case_match; lia). split_and!.
      * intros c' [[= ->]|Hc']%elem_of_cons; [split; [done|lia]|by apply H1].
      * intros Hs. split; [done|]. unfold add_sync in H2'. rewrite Hs in H2'. cbn in H2'. unfold add_sync at 1. rewrite Hs. lia.
      * intros Hs. destruct (H3 Hs) as [H|[_ H]]; [left; by right|]. unfold add_sync in H at 2. cbn in H.
        destruct (need_sync sync) eqn:Es; [|left; rewrite H; left]. destruct (Z.max_spec (sync_to sync) c) as [[_ Em]|[_ Em]];
          rewrite Em in H; [left; rewrite H; left|by right].
    + split_and!; [|done|].
      * intros c [?|Hc]%elem_of_cons; [done|by apply H1].
      * intros Hs. destruct (H3 Hs) as [H|H]; [left; by right|by right].
Qed.

(** Entries become free in the order they were allocated. *)
Definition in_order (now : Z) (l : list ConfigBufferEntry) : Prop :=
  StronglySorted Z.le (map sync_count l) /\ Forall (fun e => sync_count e <= now) l.

Lemma in_order_unsynced now n l : in_order now l -> in_order now (unsynced n l).
Proof.
  intros [H1 H2]. destruct (unsynced_suffix n l) as (k & Hk & _). rewrite Hk in H1, H2. split.
  - rewrite map_app in H1. by apply StronglySorted_app_1_r in H1.
  - by apply Forall_app in H2 as [_ ?].
Qed.

Lemma in_order_snoc now n l e : in_order now l -> now <= n -> sync_count e = n -> in_order n (l ++ [e]).
Proof.
  intros [H1 H2] Hn He. split.
  - rewrite map_app. apply StronglySorted_app. split_and!; [|done|cbn; repeat constructor].
    intros x y (e' & -> & Hx)%elem_of_map Hy. cbn in Hy. apply list_elem_of_singleton in Hy as ->.
    rewrite Forall_forall in H2. specialize (H2 _ Hx). lia.
  - apply Forall_app. split; [eapply Forall_impl; [exact H2|]; cbn; lia|]. constructor; [lia|constructor].
Qed.

(** After the synchronisation an answer asks for, what is left is what it left or less. *)
Lemma answers_unsynced b E sz now l o a n :
  answers b E sz l o a -> in_order now l -> (forall c, o = Some c -> c <= n) ->
  (length (unsynced n l) < 7)%nat /\
  forall m, addr m = a -> size m = sz -> geometry b E (unsynced n l ++ [m]) (a + sz).
Proof.
  intros (la & lb & -> & Hlen & Hg & Ho) [Hs _] Hn.
  assert (exists k, lb = k ++ unsynced n (la ++ lb)) as (k & Hk).
  { destruct o as [c|].
    - destruct Ho as (la' & e & -> & ->). specialize (Hn _ eq_refl). rewrite <- app_assoc in Hs |- *. cbn [app] in *.
      induction la' as [|x la' IH]; cbn [app map unsynced] in *.
      + rewrite (proj2 (Z.leb_le _ _) Hn). destruct (unsynced_suffix n lb) as (k & Hk & _). by exists k.
      + apply StronglySorted_cons in Hs as [Hx Hs]. rewrite Forall_forall in Hx.
        specialize (Hx (sync_count e)). rewrite (proj2 (Z.leb_le (sync_count x) n)); [by apply IH|].
        enough (sync_count x <= sync_count e) by lia. apply Hx. apply elem_of_map. exists e. split; [done|]. set_solver.
    - subst la. cbn [app]. destruct (unsynced_suffix n lb) as (k & Hk & _). by exists k. }
  split.
  - assert (length lb = length k + length (unsynced n (la ++ lb)))%nat by (rewrite Hk at 1; apply length_app). lia.
  - intros m H1 H2. specialize (Hg m H1 H2). rewrite Hk, <- app_assoc in Hg. by eapply geometry_suffix.
Qed.

Lemma geometry_snoc_apart b E l m t e :
  geometry b E (l ++ [m]) t -> e ∈ l -> apart (addr m) (size m) e /\ b <= addr m /\ addr m + size m <= E.
Proof.
  revert l. induction l as [|d l IH]; intros Hg He; [by apply elem_of_nil in He|]. cbn [app] in Hg.
  apply elem_of_cons in He as [->|He]; [|apply IH; [by eapply geometry_tail|done]].
  apply geometry_cons in Hg as (B1 & B2 & B3 & B4 & Hc). unfold apart.
  destruct Hc as [(Ht & Hc)|(Ht & l1 & l2 & y & El & Hl2 & Hc1 & Hy & Hc2)].
  - pose proof (chain_in _ _ _ m Hc ltac:(set_solver)). lia.
  - assert (m ∈ l2) as Hm.
    { destruct (exists_last Hl2) as (l2' & m' & ->). rewrite app_assoc in El. apply app_inj_tail in El as [_ <-]. set_solver. }
    pose proof (chain_in _ _ _ m Hc2 Hm). lia.
Qed.

(** The manager of programs in flight: [ls i] are the live entries of core type [i],
    whose synchronisation counts were all issued by [now]. *)
Definition in_flight (now : Z) (s : WorkerConfigBufferMgr) (ls : nat -> list ConfigBufferEntry) : Prop :=
  readies s ls /\ forall i, (i < length (reservation_ s))%nat -> in_order now (ls i).

Lemma free_if_ok (freeing : bool) n s ls :
  readies s ls ->
  exists s1, (if freeing then free n else mret tt) s = (s1, Ok tt) /\ length (reservation_ s1) = length (reservation_ s) /\
    forall i, (i < length (reservation_ s))%nat -> exists L L' t, lane s i = Some L /\ lane s1 i = Some L' /\
      l_base L' = l_base L /\ l_end L' = l_end L /\ l_res L' = l_res L /\
      lane_ok L' (if freeing then unsynced n (ls i) else ls i) t.
Proof.
  intros Hr. destruct freeing.
  - destruct (lanes_all (free_type n) (fun i L => exists t, lane_ok L (ls i) t)
      (fun i L L' => exists t, freed n (ls i) t L L') s) as (s1 & E1 & Hn1 & H1).
    + intros s0 i L HL (t & Hok). destruct (free_type_ok n s0 i L (ls i) t HL Hok) as (s' & L' & E & Ha & Hf).
      exists s', L'. split_and!; [done..|by exists t].
    + intros i Hi. destruct (Hr i Hi) as (L & t & HL & [Hok _]). exists L. split; [done|by exists t].
    + exists s1. split_and!; [exact E1|done|]. intros i Hi. destruct (H1 i Hi) as (L & L' & HL & HL' & t & (f' & ->) & Hok).
      by exists L, (lane_set_free f' L), t.
  - exists s. split_and!; [done..|]. intros i Hi. destruct (Hr i Hi) as (L & t & HL & [Hok _]). by exists L, L, t.
Qed.

(** The reservation of the lane fits behind its live entries. *)
Definition has_room (L : Lane) (l : list ConfigBufferEntry) : Prop :=
  (length l < 7)%nat /\ forall m, addr m = addr (l_res L) -> size m = size (l_res L) ->
    geometry (l_base L) (l_end L) (l ++ [m]) (addr (l_res L) + size (l_res L)).

Lemma alloc_ok c s left :
  (forall i, (i < length (reservation_ s))%nat -> exists L t, lane s i = Some L /\ lane_ok L (left i) t /\ has_room L (left i)) ->
  exists s', alloc c s = (s', Ok tt) /\ length (reservation_ s') = length (reservation_ s) /\
    forall i, (i < length (reservation_ s))%nat -> exists L L', lane s i = Some L /\ lane s' i = Some L' /\ alloced c (left i) L L'.
Proof.
  intros H. apply (lanes_all (alloc_type c) (fun i L => exists t, lane_ok L (left i) t /\ has_room L (left i))).
  - intros s0 i L HL (t & Hok & Hlen & Hg). by apply (alloc_type_ok c s0 i L (left i) t).
  - intros i Hi. destruct (H i Hi) as (L & t & HL & Hok & Hroom). exists L. split; [done|by exists t].
Qed.

(** An answer that was waited for, or asked for no wait, leaves room. *)
Lemma answers_room now n (freeing : bool) L l sz o :
  answers (l_base L) (l_end L) sz l o (addr (l_res L)) -> size (l_res L) = sz -> in_order now l ->
  (forall k, o = Some k -> freeing = true /\ k <= n) -> has_room L (if freeing then unsynced n l else l).
Proof.
  intros Hans <- Hord Hsync. unfold has_room. destruct freeing.
  - eapply (answers_unsynced _ _ _ now); [exact Hans|done|]. intros k Hk. by apply Hsync.
  - destruct o as [k|]; [by destruct (Hsync k)|]. destruct Hans as (la & lb & -> & Hlen & Hg & ->). by split.
Qed.

(** Freeing up to [n] and allocating with the count [c] after a reservation. *)
Lemma free_alloc_ok now n c s ls sizes os (freeing : bool) :
  posted s ls sizes os -> (forall i, (i < length (reservation_ s))%nat -> in_order now (ls i)) ->
  (forall i sz, sizes !! i = Some sz -> 0 < sz) ->
  (forall k, Some k ∈ os -> freeing = true /\ k <= n) -> now <= c ->
  let left i := if freeing then unsynced n (ls i) else ls i in
  exists s', ((if freeing then free n else mret tt);; alloc c) s = (s', Ok tt) /\ same_regions s s' /\
    exists r, in_flight c s' (fun i => left i ++ [r i]) /\
    forall i, (i < length (reservation_ s))%nat -> sizes !! i = Some (size (r i)) /\ sync_count (r i) = c /\
      (forall e, e ∈ left i -> apart (addr (r i)) (size (r i)) e) /\
      exists L, lane s i = Some L /\ l_base L <= addr (r i) /\ addr (r i) + size (r i) <= l_end L.
Proof.
  intros Hpost Hord Hpos Hsync Hc left_. destruct (free_if_ok freeing n s ls (posted_readies _ _ _ _ Hpost)) as (s1 & E1 & Hn1 & H1).
  destruct Hpost as [Hlo Hp]. fold left_ in H1.
  assert (Hroom : forall i L', lane s1 i = Some L' -> sizes !! i = Some (size (l_res L')) /\ has_room L' (left_ i)).
  { intros i L1 HL1. pose proof (lane_length _ _ _ HL1) as Hi. rewrite Hn1 in Hi.
    destruct (H1 i Hi) as (L & L' & t & HL & HL' & Hb & He & Hr & Hok). rewrite HL1 in HL'. injection HL' as <-.
    destruct (Hp i Hi) as (M & t' & sz & o & HM & Hsz & Ho & _ & Hm & _ & Hans). rewrite HL in HM. injection HM as <-.
    rewrite Hr, Hm. split; [done|]. pose proof (Hpos i sz Hsz). destruct Hans as [[? _]|Hans]; [lia|]. rewrite <- Hb, <- He, <- Hr in Hans.
    eapply (answers_room now); [exact Hans|congruence|by apply Hord|]. intros k ->. apply Hsync. by eapply list_elem_of_lookup_2. }
  destruct (alloc_ok c s1 left_) as (s2 & E2 & Hn2 & H2).
  { intros i Hi. destruct (H1 i) as (L & L' & t & HL & HL' & _ & _ & _ & Hok); [lia|]. exists L', t. split_and!; [done..|by apply Hroom]. }
  exists s2. split; [by erewrite M_bind_ok by exact E1|]. split.
  { split; [congruence|]. intros i L2 HL2 Hi. destruct (H1 i Hi) as (L & L' & t & HL & HL' & Hb & He & _).
    destruct (H2 i) as (M & M2 & HM & HM2 & Hb2 & He2 & _); [lia|]. rewrite HL' in HM. injection HM as <-.
    rewrite HL2 in HM2. injection HM2 as <-. exists L. split_and!; congruence. }
  exists (fun i => match reservation_ s1 !! i with Some r => mkEntry (addr r) (size r) c | None => mkEntry 0 0 c end). split; [split|].
  - intros i Hi. rewrite Hn2 in Hi. destruct (H2 i Hi) as (L & L' & HL & HL' & _ & _ & _ & Hrd).
    pose proof HL as (_ & _ & _ & _ & _ & ->)%lane_inv. exists L', (addr (l_res L) + size (l_res L)). split; [done|exact Hrd].
  - intros i Hi. apply (in_order_snoc now); [|done|cbn beta; by destruct (reservation_ s1 !! i)]. unfold left_.
    destruct freeing; [apply in_order_unsynced|]; apply Hord; lia.
  - intros i Hi. destruct (H1 i Hi) as (L & L' & t & HL & HL' & Hb & He & Hr & Hok). destruct (Hroom i L' HL') as (Hsz & _ & Hg).
    pose proof HL' as (_ & _ & _ & _ & _ & ->)%lane_inv. cbn [addr size sync_count]. specialize (Hg (mkEntry (addr (l_res L')) (size (l_res L')) c) eq_refl eq_refl).
    split; [exact Hsz|]. split; [done|]. split; [intros e Hle; apply (geometry_snoc_apart _ _ _ _ _ _ Hg Hle)|].
    exists L. split; [done|]. rewrite <- Hb, <- He. pose proof (geometry_suffix _ _ _ _ _ Hg) as Hg1.
    apply geometry_cons in Hg1 as (? & _ & ? & _). cbn in *. lia.
Qed.

(** ** Enqueueing a program *)

(** The count the queue waits for before it launches the program, if it waits. *)
Definition waited (p : ProgramInfo) (now : Z) (st : Stalls) : option Z :=
  if is_cached p then (if stall_first st || stall_before_program st then Some (stall_count st) else None) else Some now.

(** What is still live after the wait. *)
Definition still_live (w : option Z) (l : list ConfigBufferEntry) : list ConfigBufferEntry :=
  match w with Some n => unsynced n l | None => l end.

Lemma posted_issued now s ls sizes os c :
  posted s ls sizes os -> (forall i, (i < length (reservation_ s))%nat -> in_order now (ls i)) -> Some c ∈ os -> c <= now.
Proof.
  intros [Ho Hp] Hord (i & Hi)%list_elem_of_lookup. pose proof (lookup_lt_Some _ _ _ Hi).
  destruct (Hp i) as (L & t & sz & o & _ & _ & Hoi & _ & _ & _ & Ha); [lia|]. rewrite Hi in Hoi. injection Hoi as <-.
  destruct Ha as [[_ ?]|(la & lb & El & _ & _ & la' & e & -> & ->)]; [done|].
  destruct (Hord i) as [_ Hf]; [lia|]. rewrite Forall_forall in Hf. apply Hf. rewrite El. set_solver.
Qed.

Lemma process_reserve_ok p now s ls :
  in_flight now s ls -> request_fits s (program_config_sizes p) ->
  exists s' st os, process_reserve p now s = (s', Ok st) /\ posted s' ls (program_config_sizes p) os /\ same_rings s s' /\
    (forall n, waited p now st = Some n -> n <= now) /\
    forall k, Some k ∈ os -> exists n, waited p now st = Some n /\ k <= n.
Proof.
  intros [Hr Hord] Hq. set (sizes := program_config_sizes p) in *.
  destruct (reserve_posts s ls sizes Hr Hq) as (s1 & os & E1 & Hp1 & Hs1).
  assert (Hord1 : forall i, (i < length (reservation_ s1))%nat -> in_order now (ls i)) by (intros i Hi; apply Hord; destruct Hs1; lia).
  set (sync := foldl answer_sync (mkSync false 0) os) in *. destruct (foldl_sync os (mkSync false 0)) as (F1 & _ & F3). fold sync in F1, F3.
  pose proof (fun c => posted_issued now s1 ls sizes os c Hp1 Hord1) as Hiss.
  unfold process_reserve. fold sizes. erewrite M_bind_ok by exact E1.
  destruct (kernel_binary_always_stored_in_ringbuffer p); cbn [negb]; cycle 1.
  { assert (Hw : waited p now (mkStalls (need_sync sync) (negb (need_sync sync)) now) = Some now)
      by (unfold waited; cbn; destruct (is_cached p), (need_sync sync); done).
    eexists s1, _, os. split; [done|]. split; [done|]. split; [done|]. rewrite Hw. split; [intros n [= <-]; lia|]. intros k Hk. exists now. split; [done|by apply Hiss]. }
  destruct (need_sync sync) eqn:Hneed; cycle 1.
  { eexists s1, _, os. split; [done|]. split; [done|]. split; [done|]. split.
    - unfold waited. cbn. destruct (is_cached p); [done|]. intros n [= <-]. lia.
    - intros k Hk. by destruct (F1 k Hk). }
  set (sizes0 := <[(length sizes - 1)%nat := 0]> sizes).
  assert (Hq0 : request_fits s1 sizes0).
  { apply (request_fits_same s); [by apply same_rings_regions|]. destruct Hq as [Hq1 Hq2]. split; [unfold sizes0; by rewrite length_insert|].
    intros i L sz HL [(<- & <- & Hlt)|[Hi Hsz]]%list_lookup_insert_Some; [|by eapply Hq2]. split; [lia|].
    destruct (lookup_lt_is_Some_2 sizes (length sizes - 1) Hlt) as [z Hz]. pose proof (Hq2 _ L z HL Hz). lia. }
  destruct (reserve_posts s1 ls sizes0 (posted_readies _ _ _ _ Hp1) Hq0) as (s2 & os2 & E2 & Hp2 & Hs2).
  assert (Hs12 : same_rings s s2) by (by eapply same_rings_trans).
  destruct (reserve_posts s2 ls sizes (posted_readies _ _ _ _ Hp2)) as (s3 & os3 & E3 & Hp3 & Hs3).
  { apply (request_fits_same s); [by apply same_rings_regions|done]. }
  assert (os3 = os) as -> by (symmetry; eapply posted_unique; [exact Hp1|exact Hp3|by eapply same_rings_trans]).
  erewrite M_bind_ok by exact E2. erewrite M_bind_ok by exact E3. fold sync. set (ms := foldl answer_sync _ os2).
  assert (Hw : waited p now (mkStalls (need_sync ms) (negb (need_sync ms)) (sync_to sync)) = Some (if is_cached p then sync_to sync else now))
    by (unfold waited; cbn; by destruct (is_cached p), (need_sync ms)).
  eexists s3, _, os. split; [done|]. split; [done|]. split; [by eapply same_rings_trans|]. rewrite Hw. split.
  - intros n [= <-]. destruct (is_cached p); [|lia]. destruct (F3 eq_refl) as [H|[? _]]; [by apply Hiss|done].
  - intros k Hk. eexists. split; [done|]. destruct (is_cached p); [by apply F1|by apply Hiss].
Qed.

Lemma process_ok p now num_workers s ls :
  in_flight now s ls -> request_fits s (program_config_sizes p) ->
  (forall i sz, program_config_sizes p !! i = Some sz -> 0 < sz) ->
  0 <= now -> 0 <= num_workers -> now + num_workers < 2 ^ 32 ->
  exists s' st, process p now num_workers s = (s', Ok st) /\ (forall n, waited p now st = Some n -> n <= now) /\
    same_regions s s' /\
    let left i := still_live (waited p now st) (ls i) in
    exists r, in_flight (now + num_workers) s' (fun i => left i ++ [r i]) /\
    forall i, (i < length (reservation_ s))%nat ->
      program_config_sizes p !! i = Some (size (r i)) /\ sync_count (r i) = now + num_workers /\
      (forall e, e ∈ left i -> apart (addr (r i)) (size (r i)) e) /\
      exists L, lane s i = Some L /\ l_base L <= addr (r i) /\ addr (r i) + size (r i) <= l_end L.
Proof.
  intros Hfl Hq Hpos Hnow Hnw Hmax. destruct (process_reserve_ok p now s ls Hfl Hq) as (s1 & st & os & E1 & Hp1 & Hs1 & Hw & Hsync).
  set (c := now + num_workers). set (w := waited p now st) in *. set (n := default 0 w). set (freeing := bool_decide (is_Some w)).
  destruct (free_alloc_ok now n c s1 ls (program_config_sizes p) os freeing Hp1) as (s2 & E2 & Hs2 & r & Hfl2 & Hr); [| |intros k Hk|lia|].
  - intros i Hi. apply Hfl. destruct Hs1. lia.
  - exact Hpos.
  - destruct (Hsync k Hk) as (n' & Hn' & Hkn). unfold freeing, n. rewrite Hn'. split; [done|exact Hkn].
  - assert (Hleft : forall i, (if freeing then unsynced n (ls i) else ls i) = still_live w (ls i)) by (intros i; unfold freeing, n; by destruct w).
    exists s2, st. split; [|split; [done|split; [|cbv zeta; exists r; split]]].
    + unfold process. erewrite M_bind_ok by exact E1. rewrite u32_small by lia. fold c.
      replace (if negb (is_cached p) then free now else when (stall_first st || stall_before_program st) (free (stall_count st)))
        with (if freeing then free n else mret tt) by (unfold freeing, n, w, waited, when; by destruct (is_cached p), (stall_first st || stall_before_program st)).
      rewrite <- M_bind_assoc. by erewrite M_bind_ok by exact E2.
    + eapply same_regions_trans; [by apply same_rings_regions|done].
    + destruct Hfl2 as [F1 F2]. split.
      * intros i Hi. rewrite <- Hleft. by apply F1.
      * intros i Hi. rewrite <- Hleft. by apply F2.
    + intros i Hi. destruct Hs1 as [Hn1 Hs1]. destruct (Hr i) as (H1 & H2 & H3 & L & HL & H4); [lia|].
      split; [done|]. split; [done|]. split; [by rewrite <- Hleft|]. destruct (Hs1 i Hi) as (L0 & r0 & HL0 & HL1).
      rewrite HL in HL1. injection HL1 as ->. by exists L0.
Qed.

(** ** Set-up *)

Record shape (n : nat) (s : WorkerConfigBufferMgr) : Prop := {
  shape_base : length (base_addrs_ s) = n;
  shape_end : length (end_addrs_ s) = n;
  shape_alloc : length (alloc_index_ s) = n;
  shape_free : length (free_index_ s) = n;
  shape_res : length (reservation_ s) = n;
  shape_ring : length (entries_ s) = 8%nat;
  shape_row : Forall (fun row => length row = n) (entries_ s);
}.

Lemma mapM_app_lt {A} (es : list (list A)) n i x :
  Forall (fun row => length row = n) es -> (i < n)%nat ->
  mapM (fun row => row !! i) (map (fun row => row ++ [x]) es) = mapM (fun row => row !! i) es.
Proof. induction 1 as [|row es Hr _ IH]; intros Hi; [done|]. cbn. rewrite lookup_app_l, IH by lia. done. Qed.

Lemma mapM_app_eq {A} (es : list (list A)) n x :
  Forall (fun row => length row = n) es ->
  mapM (fun row => row !! n) (map (fun row => row ++ [x]) es) = Some (map (fun _ => x) es).
Proof. induction 1 as [|row es Hr _ IH]; [done|]. cbn. rewrite <- Hr at 1. rewrite list_lookup_middle by done. cbn. by rewrite IH. Qed.

(** What [init_add_buffer] leaves. *)
Definition added (base sz : Z) (n : nat) (s : WorkerConfigBufferMgr) : WorkerConfigBufferMgr :=
  mkMgr (base_addrs_ s ++ [base]) (end_addrs_ s ++ [u32 (base + sz)])
    (alter (alter (set_entry_addr base) n) 0%nat (map (fun row => row ++ [mkEntry 0 0 0]) (entries_ s)))
    (alloc_index_ s ++ [0]) (free_index_ s ++ [0]) (reservation_ s ++ [mkEntry 0 0 0]).

Lemma init_add_buffer_eq base sz n s : shape n s -> init_add_buffer base sz s = (added base sz n s, Ok tt).
Proof.
  intros [Hb He Ha Hf Hr Hring Hrow]. unfold init_add_buffer. erewrite M_bind_ok by reflexivity. erewrite M_bind_ok by reflexivity. cbv beta.
  cbn [entries_]. destruct (entries_ s) as [|row es] eqn:Ees; [done|]. apply Forall_cons in Hrow as [Hrow _].
  erewrite M_bind_ok by reflexivity. cbv beta. rewrite length_app. cbn [length].
  replace (Z.of_nat (length row + 1) - 1) with (Z.of_nat n) by lia.
  match goal with |- mbind _ _ ?s0 = _ => set (s1 := s0) end.
  assert (Hent : entry s1 0 (Z.of_nat n) = Ok (mkEntry 0 0 0)).
  { unfold entry, at_. cbn. rewrite Nat2Z.id. change (Z.to_nat 0) with 0%nat. cbn [lookup list_lookup opt_res]. rewrite res_bind_ret.
    by rewrite list_lookup_middle by done. }
  erewrite (M_bind_ok (update_entry _ _ _)).
  2: { unfold update_entry. erewrite M_bind_ok by reflexivity. cbv beta. erewrite M_bind_ok by (unfold lift; by rewrite Hent). reflexivity. }
  unfold added, s1. rewrite Nat2Z.id, Ees. done.
Qed.

Lemma added_shape base sz n s : shape n s -> shape (S n) (added base sz n s).
Proof.
  intros [Hb He Ha Hf Hr Hring Hrow]. constructor; cbn [base_addrs_ end_addrs_ alloc_index_ free_index_ reservation_ entries_ added];
    rewrite ?length_app, ?length_alter, ?length_map; cbn [length]; try lia.
  apply Forall_alter; [|intros x _ Hx; by rewrite length_alter].
  apply Forall_map. eapply Forall_impl; [exact Hrow|]. intros row Hl. cbn in *. rewrite length_app. cbn. lia.
Qed.

Lemma added_lane_old base sz n s i : shape n s -> (i < n)%nat -> lane (added base sz n s) i = lane s i.
Proof.
  intros [Hb He Ha Hf Hr Hring Hrow] Hi. unfold lane, added. cbn.
  rewrite !lookup_app_l, mapM_alter_ne, (mapM_app_lt _ n) by (done || lia). done.
Qed.

Lemma added_lane_new base sz n s :
  shape n s -> 0 <= base -> 0 <= sz -> base + sz < 2 ^ 31 ->
  exists L, lane (added base sz n s) n = Some L /\ ready L [] base /\ l_base L = base /\ l_end L = base + sz.
Proof.
  intros [Hb He Ha Hf Hr Hring Hrow] H1 H2 H3. pow2.
  exists (mkLane base (base + sz) (alter (set_entry_addr base) 0%nat (map (fun _ => mkEntry 0 0 0) (entries_ s))) 0 0 (mkEntry 0 0 0)).
  assert (Hlk : forall A (l : list A) x, length l = n -> (l ++ [x]) !! n = Some x)
    by (intros A l x <-; by rewrite list_lookup_middle).
  split; [|split; [|done]].
  - apply lane_inv. cbn. rewrite !Hlk, u32_small by (done || (pow2; lia)). split_and!; try done. by apply mapM_alter, mapM_app_eq.
  - split; [|done]. constructor; cbn.
    + done.
    + lia.
    + by rewrite length_alter, length_map.
    + by apply live_from_nil.
    + exists (mkEntry base 0 0). split; [|done]. destruct (entries_ s); [done|]. done.
    + apply (geometry_one _ _ _ base); [done|lia|lia].
Qed.

(** The regions fit in 31 bits. *)
Definition region_ok (p : Z * Z) : Prop := 0 <= p.1 /\ 0 <= p.2 /\ p.1 + p.2 < 2 ^ 31.

Lemma init_buffers_ok bs : forall n s,
  shape n s -> readies s (fun _ => []) -> Forall region_ok bs ->
  exists s', mapM_ (fun '(base, sz) => init_add_buffer base sz) bs s = (s', Ok tt) /\ shape (n + length bs) s' /\ readies s' (fun _ => []) /\
    (forall i, (i < n)%nat -> lane s' i = lane s i) /\
    forall i b z, bs !! i = Some (b, z) -> exists L, lane s' (n + i)%nat = Some L /\ l_base L = b /\ l_end L = b + z.
Proof.
  induction bs as [|[b z] bs IH]; intros n s Hsh Hr Hok.
  - exists s. rewrite Nat.add_0_r. split_and!; done.
  - apply Forall_cons in Hok as [(H1 & H2 & H3) Hok]. cbn [fst snd] in *. cbn [mapM_].
    erewrite M_bind_ok by exact (init_add_buffer_eq b z n s Hsh).
    destruct (added_lane_new b z n s Hsh H1 H2 H3) as (L & HL & Hrd & Hlb & Hle).
    destruct (IH (S n) (added b z n s)) as (s' & E & Hsh' & Hr' & Hold & Hnew); [by apply added_shape| |done|].
    + intros i Hi. rewrite (shape_res _ _ (added_shape b z n s Hsh)) in Hi. destruct (decide (i = n)) as [->|]; [by exists L, b|].
      rewrite added_lane_old by (done || lia). apply Hr. rewrite (shape_res _ _ Hsh). lia.
    + exists s'. cbn [length]. replace (n + S (length bs))%nat with (S n + length bs)%nat by lia. split_and!; try done.
      * intros i Hi. rewrite Hold, added_lane_old by (done || lia). done.
      * intros [|i] b' z' Hi; cbn in Hi.
        -- injection Hi as <- <-. rewrite Nat.add_0_r. exists L. split; [|done]. rewrite Hold by lia. done.
        -- replace (n + S i)%nat with (S n + i)%nat by lia. by apply Hnew.
Qed.

Lemma reset_ok buffers :
  Forall region_ok buffers ->
  exists s', (forall s, reset_config_buffer_mgr buffers s = (s', Ok tt)) /\ in_flight 0 s' (fun _ => []) /\
    length (reservation_ s') = S (length buffers) /\
    forall i b z, (buffers ++ [(0, 1)]) !! i = Some (b, z) -> exists L, lane s' i = Some L /\ l_base L = b /\ l_end L = b + z.
Proof.
  intros Hok.
  assert (Hsh : shape 0 WorkerConfigBufferMgr_new) by (constructor; try done; cbn; repeat constructor).
  destruct (init_buffers_ok (buffers ++ [(0, 1)]) 0 WorkerConfigBufferMgr_new) as (s' & E & Hsh' & Hr & _ & Hnew); [done| | |].
  - intros i Hi. cbn in Hi. lia.
  - apply Forall_app. split; [done|]. repeat constructor; cbn; lia.
  - exists s'. split_and!.
    + intros s. unfold reset_config_buffer_mgr. erewrite M_bind_ok by reflexivity. rewrite <- E. clear.
      generalize WorkerConfigBufferMgr_new. induction buffers as [|[b z] bs IH]; intros s0; cbn [app mapM_].
      * change (mret tt) with (fun s : WorkerConfigBufferMgr => (s, Ok tt)). unfold mbind, M_bind. destruct (init_add_buffer 0 1 s0) as [s1 [[]|]]; done.
      * rewrite M_bind_assoc. unfold mbind, M_bind. destruct (init_add_buffer b z s0) as [s1 [[]|]]; [apply IH|done].
    + split; [done|]. intros i Hi. split; [constructor|constructor].
    + rewrite (shape_res _ _ Hsh'), length_app. cbn. lia.
    + intros i b z Hi. by apply Hnew.
Qed.

(** ** Traces, and sequences of launches *)

Lemma full_type_ok n s i L l t :
  lane s i = Some L -> lane_ok L l t -> l_base L < l_end L ->
  exists s' L', full_type n (Z.of_nat i) s = (s', Ok tt) /\ at_lane i L' s s' /\
    l_base L' = l_base L /\ l_end L' = l_end L /\ ready L' [mkEntry (l_base L) (l_end L - l_base L) n] (l_end L).
Proof.
  intros HL [Hb HE Hring Hlive _ Hg] Hlt. pose proof HL as (H1 & H2 & _)%lane_inv. pow2.
  destruct (set_alloc_lane s i L 1 HL) as (s1 & E1 & Hs1). destruct (set_free_lane s1 i _ 0 (proj1 Hs1)) as (s2 & E2 & Hs2).
  pose proof (proj1 Hs2) as (H1' & H2' & _)%lane_inv. cbn in H1', H2'.
  unfold full_type. erewrite M_bind_ok by exact E1. erewrite M_bind_ok by exact E2. erewrite M_bind_ok by reflexivity. cbv beta.
  erewrite M_bind_ok by (unfold lift; by rewrite (at_of_nat _ _ _ H1')). erewrite M_bind_ok by (unfold lift; by rewrite (at_of_nat _ _ _ H2')).
  rewrite (u32_small (l_end L - l_base L)) by (pow2; lia).
  destruct (lookup_lt_is_Some_2 (l_ring L) 0) as [e0 He0]; [lia|]. destruct (lookup_lt_is_Some_2 (l_ring L) 1) as [e1 He1]; [lia|].
  match goal with |- context [update_entry 0 _ (set_entry_sync n);; ?m] =>
    destruct (update3 s2 i _ 0 e0 (set_entry_addr (l_base L)) (set_entry_size (l_end L - l_base L)) (set_entry_sync n) m (proj1 Hs2) He0) as (s3 & E3 & Hs3) end.
  rewrite E3. clear E3. cbn in Hs3.
  destruct (update3 s3 i _ 1 e1 (set_entry_addr (l_end L)) (set_entry_size 0) (set_entry_sync debug_sync) (mret tt) (proj1 Hs3)) as (s4 & E4 & Hs4).
  { cbn. by rewrite list_lookup_insert_ne. }
  eexists s4, _. split; [|split; [exact (at_lane_trans _ _ _ _ _ _ (at_lane_trans _ _ _ _ _ _ (at_lane_trans _ _ _ _ _ _ Hs1 Hs2) Hs3) Hs4)|]].
  - exact (three_updates _ _ _ _ _ E4).
  - split; [done|]. split; [done|]. split; [|done]. constructor; cbn.
    + done.
    + lia.
    + by rewrite !length_insert.
    + constructor; cbn [length]; [lia|lia|reflexivity|]. intros [|k] e Hk; [|done]. injection Hk as <-. change (Z.to_nat ((0 + Z.of_nat 0) mod 8)) with 0%nat.
      rewrite list_lookup_insert_ne by done. apply list_lookup_insert_eq. lia.
    + exists (mkEntry (l_end L) 0 debug_sync). split; [|done]. apply list_lookup_insert_eq. rewrite length_insert. lia.
    + apply (geometry_one _ _ _ (l_base L)); [cbn; lia|lia..].
Qed.

Definition regions_nonempty (s : WorkerConfigBufferMgr) : Prop := forall i L, lane s i = Some L -> l_base L < l_end L.

Lemma regions_nonempty_same s s' : same_regions s s' -> regions_nonempty s -> regions_nonempty s'.
Proof.
  intros [Hn H] Hr i L' HL'. pose proof (lane_length _ _ _ HL'). destruct (H i L' HL') as (L & HL & -> & ->); [lia|]. by eapply Hr.
Qed.

Lemma mark_completely_full_ok n s now ls :
  in_flight now s ls -> regions_nonempty s ->
  exists s' ls', mark_completely_full n s = (s', Ok tt) /\ same_regions s s' /\ in_flight n s' ls'.
Proof.
  intros [Hr _] Hne.
  destruct (lanes_all (full_type n) (fun i L => (exists t, lane_ok L (ls i) t) /\ l_base L < l_end L)
    (fun i L L' => l_base L' = l_base L /\ l_end L' = l_end L /\ ready L' [mkEntry (l_base L) (l_end L - l_base L) n] (l_end L)) s)
    as (s' & E & Hn & H).
  - intros s0 i L HL ((t & Hok) & Hlt). by apply (full_type_ok n s0 i L (ls i) t).
  - intros i Hi. destruct (Hr i Hi) as (L & t & HL & [Hok _]). exists L. split; [done|]. split; [by exists t|by eapply Hne].
  - exists s', (fun i => match lane s i with Some L => [mkEntry (l_base L) (l_end L - l_base L) n] | None => [] end).
    split; [exact E|]. split; [|split].
    + split; [done|]. intros i L' HL' Hi. destruct (H i Hi) as (L & L2 & HL & HL2 & Hb & He & _). rewrite HL' in HL2. injection HL2 as <-. by exists L.
    + intros i Hi. rewrite Hn in Hi. destruct (H i Hi) as (L & L' & HL & HL' & _ & _ & Hrd). exists L', (l_end L). by rewrite HL.
    + intros i Hi. rewrite Hn in Hi. destruct (H i Hi) as (L & L' & HL & _). rewrite HL. split; repeat constructor. cbn. lia.
Qed.

(** A launch with at least a byte for every core type. *)
Definition op_fits (s : WorkerConfigBufferMgr) (op : queue_op) : Prop :=
  match op with
  | EnqueueProgram p num_workers =>
      request_fits s (program_config_sizes p) /\ (forall i sz, program_config_sizes p !! i = Some sz -> 0 < sz) /\ 0 <= num_workers
  | EnqueueTrace n => 0 <= n
  end.

Definition workers_of (op : queue_op) : Z := match op with EnqueueProgram _ n => n | EnqueueTrace n => n end.

Lemma op_fits_same s s' op : same_regions s s' -> op_fits s op -> op_fits s' op.
Proof.
  intros Hs. destruct op; cbn; [|done]. intros (H1 & H2 & H3). split; [by eapply request_fits_same|done].
Qed.

(** Launches with at least a byte for every core type keep the entries in flight well
    formed, so that the next one is placed safely as well. *)
Theorem launches_keep_flight ops now s ls :
  in_flight now s ls -> regions_nonempty s -> Forall (op_fits s) ops ->
  0 <= now -> now + zsum (map workers_of ops) < 2 ^ 32 ->
  exists s' ls', enqueue_all ops now s = (s', Ok (now + zsum (map workers_of ops))) /\ same_regions s s' /\
    in_flight (now + zsum (map workers_of ops)) s' ls'.
Proof.
  revert now s ls. induction ops as [|op ops IH]; intros now s ls Hfl Hne Hops Hnow Hmax; cbn [map zsum enqueue_all] in *.
  - exists s, ls. rewrite Z.add_0_r. split_and!; [done..| |done]. split; [done|]. intros i L HL _. by exists L.
  - apply Forall_cons in Hops as [Hop Hops].
    assert (Hpos : 0 <= zsum (map workers_of ops)).
    { apply zsum_nonneg, Forall_map. eapply Forall_impl; [exact Hops|]. intros [p n|n]; cbn; lia || tauto. }
    assert (0 <= workers_of op) by (destruct op; cbn in *; lia || tauto).
    assert (exists s1 ls1, enqueue op now s = (s1, Ok (now + workers_of op)) /\ same_regions s s1 /\ in_flight (now + workers_of op) s1 ls1)
      as (s1 & ls1 & E1 & Hs1 & Hfl1).
    { destruct op as [p n|n]; cbn [enqueue workers_of] in *.
      - destruct Hop as (H1 & H2 & H3). destruct (process_ok p now n s ls Hfl H1 H2) as (s1 & st & E & _ & Hs & r & Hf & _); [lia..|].
        eexists s1, _. split; [|split; [exact Hs|exact Hf]]. erewrite M_bind_ok by exact E. rewrite u32_small by lia. done.
      - rewrite u32_small by lia. destruct (mark_completely_full_ok (now + n) s now ls Hfl Hne) as (s1 & ls1 & E & Hs & Hf).
        exists s1, ls1. split; [|done]. by erewrite M_bind_ok by exact E. }
    destruct (IH (now + workers_of op) s1 ls1) as (s' & ls' & E' & Hs' & Hfl'); [done|by eapply regions_nonempty_same| |lia|lia|].
    + eapply Forall_impl; [exact Hops|]. intros op'. by apply op_fits_same.
    + exists s', ls'. erewrite M_bind_ok by exact E1. rewrite Z.add_assoc. split_and!; [exact E'|by eapply same_regions_trans|exact Hfl'].
Qed.

Lemma unsynced_elem n l e : e ∈ l -> sync_count e <= n \/ e ∈ unsynced n l.
Proof.
  induction l as [|d l IH]; intros He; [by apply elem_of_nil in He|]. cbn. destruct (Z.leb_spec (sync_count d) n); [|by right].
  apply elem_of_cons in He as [->|He]; auto.
Qed.

(** C24: Launch safety.  With a request of at least one byte for every core type that
    fits the regions, enqueueing a program succeeds, waits only for counts already
    issued, and places it in each region apart from every program in flight, except
    those whose completion the queue waits for first. *)
Theorem process_safe p now num_workers s ls :
  in_flight now s ls -> request_fits s (program_config_sizes p) ->
  (forall i sz, program_config_sizes p !! i = Some sz -> 0 < sz) ->
  0 <= now -> 0 <= num_workers -> now + num_workers < 2 ^ 32 ->
  exists s' st ls', process p now num_workers s = (s', Ok st) /\ in_flight (now + num_workers) s' ls' /\
    (forall n, waited p now st = Some n -> n <= now) /\
    forall i L, lane s i = Some L -> exists r, last (ls' i) = Some r /\ program_config_sizes p !! i = Some (size r) /\
      sync_count r = now + num_workers /\ l_base L <= addr r /\ addr r + size r <= l_end L /\
      forall e, e ∈ ls i -> apart (addr r) (size r) e \/ exists n, waited p now st = Some n /\ sync_count e <= n.
Proof.
  intros Hfl Hq Hpos Hnow Hnw Hmax. destruct (process_ok p now num_workers s ls Hfl Hq Hpos Hnow Hnw Hmax) as (s' & st & E & Hw & _ & r & Hfl' & Hr).
  eexists s', st, _. split; [exact E|]. split; [exact Hfl'|]. split; [exact Hw|]. intros i L HL.
  destruct (Hr i (lane_length _ _ _ HL)) as (H1 & H2 & H3 & L' & HL' & H4 & H5). rewrite HL in HL'. injection HL' as <-.
  exists (r i). split; [by rewrite last_snoc|]. split_and!; [done..|]. intros e He. unfold still_live in H3.
  destruct (waited p now st) as [n|] eqn:Ew; [|left; by apply H3].
  destruct (unsynced_elem n _ _ He) as [?|?]; [right; by exists n|left; by apply H3].
Qed.

(** Three core types, as the queue sets them up: two regions and the launch slot. *)
Definition demo_mgr : WorkerConfigBufferMgr := (reset_config_buffer_mgr [(1024, 4096); (512, 2048)] WorkerConfigBufferMgr_new).1.

Lemma demo_mgr_ok : in_flight 0 demo_mgr (fun _ => []) /\ length (reservation_ demo_mgr) = 3%nat /\
  forall i b z, [(1024, 4096); (512, 2048); (0, 1)] !! i = Some (b, z) -> exists L, lane demo_mgr i = Some L /\ l_base L = b /\ l_end L = b + z.
Proof.
  destruct (reset_ok [(1024, 4096); (512, 2048)]) as (s & E & H1 & H2 & H3); [repeat constructor; cbn; lia|].
  unfold demo_mgr. rewrite E. split_and!; [done|done|]. exact H3.
Qed.

Definition demo_program : ProgramInfo := mkProgram [100; 60; 1] true true.

Lemma demo_regions i L : lane demo_mgr i = Some L ->
  (l_base L, l_end L) ∈ [(1024, 5120); (512, 2560); (0, 1)] /\ [(1024, 5120); (512, 2560); (0, 1)] !! i = Some (l_base L, l_end L).
Proof.
  intros HL. destruct demo_mgr_ok as (_ & Hn & H). pose proof (lane_length _ _ _ HL) as Hi. rewrite Hn in Hi.
  destruct i as [|[|[|i]]]; [| | |lia].
  - destruct (H 0%nat _ _ eq_refl) as (L' & HL' & E1 & E2). rewrite HL in HL'. injection HL' as <-. rewrite E1, E2. split; [set_solver|done].
  - destruct (H 1%nat _ _ eq_refl) as (L' & HL' & E1 & E2). rewrite HL in HL'. injection HL' as <-. rewrite E1, E2. split; [set_solver|done].
  - destruct (H 2%nat _ _ eq_refl) as (L' & HL' & E1 & E2). rewrite HL in HL'. injection HL' as <-. rewrite E1, E2. split; [set_solver|done].
Qed.

Lemma demo_fits : request_fits demo_mgr (program_config_sizes demo_program).
Proof.
  split; [by rewrite (proj1 (proj2 demo_mgr_ok))|]. intros i L sz HL Hsz. destruct (demo_regions i L HL) as [_ Hr].
  destruct i as [|[|[|i]]]; cbn in Hr, Hsz; [..|done]; injection Hr as <- <-; injection Hsz as <-; lia.
Qed.

Lemma demo_positive i sz : program_config_sizes demo_program !! i = Some sz -> 0 < sz.
Proof. destruct i as [|[|[|i]]]; cbn; [..|done]; intros [= <-]; lia. Qed.

Lemma process_safe_witness :
  exists s' st ls', process demo_program 0 64 demo_mgr = (s', Ok st) /\ in_flight 64 s' ls' /\ exists r, last (ls' 0%nat) = Some r /\ size r = 100.
Proof.
  destruct (process_safe demo_program 0 64 demo_mgr (fun _ => []) (proj1 demo_mgr_ok) demo_fits demo_positive) as (s' & st & ls' & E & H1 & _ & H2);
    [lia|lia|lia|].
  destruct (proj2 (proj2 demo_mgr_ok) 0%nat _ _ eq_refl) as (L & HL & _).
  destruct (H2 0%nat L HL) as (r & H3 & H4 & _). exists s', st, ls'. split; [exact E|]. split; [exact H1|].
  exists r. split; [exact H3|]. injection H4 as H4. by symmetry.
Defined.

Lemma launches_keep_flight_witness :
  exists s' ls', enqueue_all [EnqueueProgram demo_program 64; EnqueueTrace 128; EnqueueProgram demo_program 8] 0 demo_mgr = (s', Ok 200) /\
    in_flight 200 s' ls'.
Proof.
  destruct (launches_keep_flight [EnqueueProgram demo_program 64; EnqueueTrace 128; EnqueueProgram demo_program 8] 0 demo_mgr (fun _ => []) (proj1 demo_mgr_ok))
    as (s' & ls' & E & _ & H).
  - intros i L HL. destruct (demo_regions i L HL) as [_ Hr]. destruct i as [|[|[|i]]]; cbn in Hr; [..|done]; injection Hr as <- <-; lia.
  - assert (Hp : forall n, 0 <= n -> op_fits demo_mgr (EnqueueProgram demo_program n)) by (intros n Hn; split; [apply demo_fits|]; split; [exact demo_positive|exact Hn]).
    apply Forall_cons; split; [apply Hp; lia|]. apply Forall_cons; split; [cbn; lia|]. apply Forall_singleton, Hp. lia.
  - lia.
  - cbn. lia.
  - exists s', ls'. split; [exact E|exact H].
Defined.
