(* ===== verification/ConfigBufferLaunches.v ===== *)
(** * The configuration ring buffer serves every launch

    Whatever the ring holds, also entries of no bytes, no call of the manager fails: its
    indices stay in their vectors, and its loops stop within one turn of the ring. *)

From S2P Require Import Prelude ConfigBuffer ConfigBufferRing ConfigBufferProps.

Create HintDb sure.

(** ** The loops go round at most once *)

Definition ring_distance (f a : Z) : nat := Z.to_nat ((a - f) mod 8).

Lemma ring_distance_next f a :
  0 <= f < 8 -> 0 <= a < 8 -> f <> a -> ring_distance f a = S (ring_distance (ring_next f) a).
Proof.
  intros Hf Ha Hne. destruct (ring_next_mod f Hf) as [-> _]. unfold ring_distance. rewrite Zminus_mod_idemp_r.
  Z.div_mod_to_equations. lia.
Qed.

Lemma ring_distance_bound f a : (ring_distance f a < 8)%nat.
Proof. unfold ring_distance. pose proof (Z.mod_pos_bound (a - f) 8). lia. Qed.

Definition in_ring (i : Z) : Prop := 0 <= i < 8.

Section Sure.
(** The regions under management: where each begins and ends. *)
Context (bs es : list Z).

Record well_shaped (s : WorkerConfigBufferMgr) : Prop := {
  ws_base : base_addrs_ s = bs;
  ws_end : end_addrs_ s = es;
  ws_shape : shape (length bs) s;
  ws_alloc : Forall in_ring (alloc_index_ s);
  ws_free : Forall in_ring (free_index_ s);
}.

(** From every state of that shape the action succeeds, and keeps the shape. *)
Definition sure {A} (P : A -> Prop) (m : W A) : Prop :=
  forall s, well_shaped s -> exists s' x, m s = (s', Ok x) /\ P x /\ well_shaped s'.

Definition any {A} (_ : A) : Prop := True.

Lemma sure_bind {A B} (P : A -> Prop) (Q : B -> Prop) (m : W A) f :
  sure P m -> (forall x, P x -> sure Q (f x)) -> sure Q (m ≫= f).
Proof.
  intros Hm Hf s Hs. destruct (Hm s Hs) as (s1 & x & E & Hx & Hs1). erewrite M_bind_ok by exact E. by apply Hf.
Qed.

Lemma sure_get_bind {B} (Q : B -> Prop) (f : WorkerConfigBufferMgr -> W B) : (forall s, well_shaped s -> sure Q (f s)) -> sure Q (get ≫= f).
Proof. intros Hf s Hs. erewrite M_bind_ok by reflexivity. by apply Hf. Qed.

Lemma sure_ret {A} (P : A -> Prop) (x : A) : P x -> sure P (mret x).
Proof. intros H s Hs. by exists s, x. Qed.

Lemma sure_lift {A} (P : A -> Prop) (r : res A) x : r = Ok x -> P x -> sure P (lift r).
Proof. intros -> H s Hs. by exists s, x. Qed.

Lemma sure_require e c : c = true -> sure any (require e c).
Proof. intros -> s Hs. by exists s, tt. Qed.

Definition in_types (idx : Z) : Prop := 0 <= idx < Z.of_nat (length bs).

Lemma sure_at {A} (P : A -> Prop) (l : list A) idx : in_types idx -> length l = length bs -> Forall P l -> sure P (lift (at_ l idx)).
Proof.
  intros Hi Hl HP. destruct (lookup_lt_is_Some_2 l (Z.to_nat idx)) as [x Hx]; [unfold in_types in Hi; lia|].
  apply sure_lift with x; [unfold at_; by rewrite Hx|]. rewrite Forall_forall in HP. apply HP. by eapply list_elem_of_lookup_2.
Qed.

Lemma shaped_entry s i idx : well_shaped s -> in_ring i -> in_types idx -> exists e, entry s i idx = Ok e.
Proof.
  intros [_ _ [_ _ _ _ _ Hring Hrow] _ _] Hi Hx. unfold entry, at_.
  destruct (lookup_lt_is_Some_2 (entries_ s) (Z.to_nat i)) as [row Hr]; [unfold in_ring in Hi; lia|]. rewrite Hr. cbn [opt_res]. rewrite res_bind_ret.
  rewrite Forall_forall in Hrow. specialize (Hrow row ltac:(by eapply list_elem_of_lookup_2)).
  destruct (lookup_lt_is_Some_2 row (Z.to_nat idx)) as [e He]; [unfold in_types in Hx; lia|]. exists e. by rewrite He.
Qed.

Lemma sure_entry s i idx : well_shaped s -> in_ring i -> in_types idx -> sure any (lift (entry s i idx)).
Proof. intros Hs Hi Hx. destruct (shaped_entry s i idx Hs Hi Hx) as [e He]. by apply sure_lift with e. Qed.

(** An assignment that keeps the shape. *)
Lemma sure_modify f : (forall s, well_shaped s -> well_shaped (f s)) -> sure any (modify f).
Proof. intros Hf s Hs. exists (f s), tt. split; [done|]. split; [done|by apply Hf]. Qed.

Lemma sure_update_entry i idx f : in_ring i -> in_types idx -> sure any (update_entry i idx f).
Proof.
  intros Hi Hx. apply sure_get_bind. intros s Hs. eapply sure_bind; [by apply sure_entry|]. intros _ _.
  apply sure_modify. intros s' [H1 H2 [] H4 H5]. destruct Hs as [_ _ [_ _ _ _ _ Hring Hrow] _ _]. constructor; [done..| |done|done].
  constructor; cbn; rewrite ?length_alter; try done. apply Forall_alter; [done|]. intros row _ Hr. by rewrite length_alter.
Qed.

Lemma sure_update_reservation idx f : in_types idx -> sure any (update_reservation idx f).
Proof.
  intros Hx. apply sure_get_bind. intros s Hs. pose proof Hs as [_ _ [] _ _].
  eapply sure_bind; [by apply (sure_at any); [|congruence|apply Forall_true]|]. intros _ _.
  apply sure_modify. intros s' [H1 H2 [] H4 H5]. constructor; [done..| |done|done]. constructor; cbn; rewrite ?length_alter; done.
Qed.

Lemma sure_set_alloc idx i : in_ring i -> sure any (set_alloc idx i).
Proof.
  intros Hi. apply sure_modify. intros s [H1 H2 [] H4 H5]. constructor; try done; cbn; [|by apply Forall_insert].
  constructor; cbn; rewrite ?length_insert; done.
Qed.

Lemma sure_set_free idx i : in_ring i -> sure any (set_free idx i).
Proof.
  intros Hi. apply sure_modify. intros s [H1 H2 [] H4 H5]. constructor; try done; cbn; [|by apply Forall_insert].
  constructor; cbn; rewrite ?length_insert; done.
Qed.

#[local] Hint Resolve sure_update_entry sure_update_reservation sure_set_alloc sure_set_free sure_entry : sure.
#[local] Hint Extern 0 (any _) => exact I : sure.

Lemma in_ring_next i : in_ring i -> in_ring (ring_next i).
Proof. intros H. by destruct (ring_next_mod i H). Qed.

(** ** The operations *)

(** A request for bytes in a region fits it. *)
Definition request_ok (idx sz : Z) : Prop :=
  exists b e, bs !! Z.to_nat idx = Some b /\ es !! Z.to_nat idx = Some e /\ sz <= u32 (e - b).

Lemma sure_reserve_loop idx sz a sync : in_types idx -> request_ok idx sz -> in_ring a ->
  forall fuel f, in_ring f -> (ring_distance (ring_next f) a < fuel)%nat -> sure any (reserve_loop fuel idx sz a f sync).
Proof.
  intros Hx (b & e & Hb & He & Hsz) Ha. induction fuel as [|fuel IH]; intros f Hf Hd; [lia|]. cbn [reserve_loop].
  apply sure_get_bind. intros s Hs. eapply sure_bind; [by apply sure_entry|]. intros ae _.
  eapply sure_bind; [by apply sure_update_reservation|]. intros _ _.
  assert (forall g sync', sure any (update_reservation idx g;; mret sync' : W ConfigBufferSync)) as Hend.
  { intros g sync'. eapply sure_bind; [by apply sure_update_reservation|]. intros _ _. by apply sure_ret. }
  case_match; [apply Hend|]. pose proof Hs as [E1 E2 _ _ _].
  eapply sure_bind; [apply (sure_lift (eq e) _ e); [unfold at_; by rewrite E2, He|done]|]. intros ? <-.
  eapply sure_bind; [apply (sure_lift (eq b) _ b); [unfold at_; by rewrite E1, Hb|done]|]. intros ? <-.
  eapply sure_bind; [apply sure_require; by apply Z.leb_le|]. intros _ _.
  eapply sure_bind; [by apply sure_entry|]. intros fe _. cbv zeta.
  destruct (if _ && _ then _ else _) as [x end_]. case_match; [|apply Hend].
  destruct (Z.eqb_spec (ring_next f) a) as [|Hne]; [apply Hend|]. pose proof (in_ring_next f Hf) as Hn.
  eapply sure_bind; [by apply sure_entry|]. intros ne _. case_match; [|apply Hend].
  apply IH; [done|]. rewrite (ring_distance_next (ring_next f) a) in Hd by done. lia.
Qed.

Lemma sure_reserve_types sizes idxs sync :
  Forall in_types idxs -> (forall idx, in_types idx -> exists sz, sizes !! Z.to_nat idx = Some sz /\ request_ok idx sz) ->
  sure any (reserve_types sizes idxs sync).
Proof.
  intros Hidx Hsizes. revert sync. induction Hidx as [|idx idxs Hx _ IH]; intros sync; cbn [reserve_types]; [by apply sure_ret|].
  apply sure_get_bind. intros s [_ _ [] Hal Hfr]. eapply sure_bind; [by apply sure_at; [| |exact Hfr]|]. intros f Hf.
  eapply sure_bind; [by apply sure_at; [| |exact Hal]|]. intros a Ha. destruct (Hsizes idx Hx) as (sz & Hsz & Hq).
  eapply sure_bind; [apply (sure_lift (eq sz) _ sz); [unfold at_; by rewrite Hsz|done]|]. intros ? <-.
  eapply sure_bind; [apply sure_reserve_loop; [done..|apply ring_distance_bound]|]. intros ? _. apply IH.
Qed.

Lemma types_range s : well_shaped s -> Forall in_types (zrange 0 (num_buffer_types s)).
Proof.
  intros [_ _ [] _ _]. apply Forall_forall. intros i Hi%elem_of_zrange. unfold num_buffer_types, in_types in *. lia.
Qed.

(** The sizes of a program, one for every region: no bytes, or some that fit. *)
Definition fits (sizes : list Z) : Prop := Forall2 (fun '(b, e) sz => sz <= u32 (e - b)) (zip bs es) sizes.

Lemma fits_request sizes idx : length es = length bs -> fits sizes -> in_types idx ->
  exists sz, sizes !! Z.to_nat idx = Some sz /\ request_ok idx sz.
Proof.
  intros Hl Hs Hx. unfold in_types in Hx. destruct (lookup_lt_is_Some_2 bs (Z.to_nat idx)) as [b Hb]; [lia|].
  destruct (lookup_lt_is_Some_2 es (Z.to_nat idx)) as [e He]; [lia|].
  destruct (Forall2_lookup_l _ _ _ (Z.to_nat idx) (b, e) Hs) as (sz & Hsz & Hle); [by rewrite lookup_zip_with, Hb; cbn; rewrite He|].
  exists sz. split; [done|]. by exists b, e.
Qed.

Lemma fits_length sizes : length es = length bs -> fits sizes -> length sizes = length bs.
Proof. intros Hl Hs%Forall2_length. rewrite length_zip_with in Hs. lia. Qed.

Lemma sure_reserve sizes : fits sizes -> sure any (reserve sizes).
Proof.
  intros Hq. apply sure_get_bind. intros s Hs. pose proof Hs as [_ E2 [] _ _].
  eapply sure_bind; [apply sure_require; apply Z.eqb_eq; unfold num_buffer_types; rewrite fits_length by (done || congruence); lia|]. intros _ _.
  apply sure_reserve_types; [by apply types_range|]. intros idx Hx. apply fits_request; [congruence|done..].
Qed.

(** The launch slot is asked for with no bytes as well. *)
Lemma fits_zero sizes : fits sizes -> fits (<[(length sizes - 1)%nat := 0]> sizes).
Proof.
  unfold fits. intros Hs. generalize (length sizes - 1)%nat as k. induction Hs as [|[b e] sz l sizes' Hle Hs IH]; intros k; [by destruct k|].
  destruct k as [|k]; [constructor; [apply u32_range|done]|constructor; [done|apply IH]].
Qed.

Lemma sure_free_loop n idx a : in_types idx -> forall fuel f, in_ring f -> (ring_distance f a < fuel)%nat ->
  forall s, well_shaped s -> alloc_index_ s !! Z.to_nat idx = Some a ->
  exists s', free_loop fuel n idx f s = (s', Ok tt) /\ well_shaped s'.
Proof.
  intros Hx. induction fuel as [|fuel IH]; intros f Hf Hd s Hs Hat; [lia|]. cbn [free_loop]. erewrite M_bind_ok by reflexivity. cbv beta.
  destruct (shaped_entry s f idx Hs Hf Hx) as [fe He]. erewrite M_bind_ok by (unfold lift; by rewrite He).
  erewrite M_bind_ok by (unfold lift, at_; by rewrite Hat). destruct (sync_count fe <=? n); [|by exists s].
  destruct (Z.eqb_spec f a) as [|Hne]; [by exists s|]. cbn [andb negb]. pose proof (in_ring_next f Hf) as Hn.
  destruct (sure_set_free idx (ring_next f) Hn s Hs) as (s1 & [] & E1 & _ & Hs1). erewrite M_bind_ok by exact E1.
  assert (Ha : in_ring a) by (destruct Hs as [_ _ _ Hal _]; rewrite Forall_forall in Hal; apply Hal; by eapply list_elem_of_lookup_2).
  apply IH; [done| |done|unfold set_free, modify in E1; by injection E1 as <-].
  rewrite (ring_distance_next f a) in Hd by done. lia.
Qed.

Lemma sure_each (f : Z -> W unit) : (forall idx, in_types idx -> sure any (f idx)) ->
  sure any (s ← get; mapM_ f (zrange 0 (num_buffer_types s))).
Proof.
  intros Hf. apply sure_get_bind. intros s Hs%types_range. induction Hs as [|idx l Hx _ IH]; cbn [mapM_]; [by apply sure_ret|].
  eapply sure_bind; [by apply Hf|]. intros _ _. exact IH.
Qed.

Lemma sure_free n : sure any (free n).
Proof.
  apply sure_each. intros idx Hx. apply sure_get_bind. intros s [_ _ [] _ Hfr].
  eapply sure_bind; [by apply sure_at; [| |exact Hfr]|]. intros f Hf s' Hs'. pose proof Hs' as [_ _ [] _ _].
  destruct (lookup_lt_is_Some_2 (alloc_index_ s') (Z.to_nat idx)) as [a Ha]; [unfold in_types in Hx; lia|].
  destruct (sure_free_loop n idx a Hx _ f Hf (ring_distance_bound f a) s' Hs' Ha) as (s2 & E & Hs2). by exists s2, tt.
Qed.

Lemma sure_alloc n : sure any (alloc n).
Proof.
  apply sure_each. intros idx Hx. apply sure_get_bind. intros s [_ _ [] Hal _].
  eapply sure_bind; [by apply sure_at; [| |exact Hal]|]. intros a Ha. pose proof (in_ring_next a Ha) as Hn.
  eapply sure_bind; [by apply (sure_at any); [| |apply Forall_true]|]. intros r _.
  do 3 (eapply sure_bind; [by apply sure_update_entry|]; intros _ _). cbv zeta. apply sure_get_bind. intros s1 Hs1.
  eapply sure_bind; [by apply sure_entry|]. intros old _. do 3 (eapply sure_bind; [by apply sure_update_entry|]; intros _ _). by apply sure_set_alloc.
Qed.

Lemma sure_mark_completely_full n : length es = length bs -> sure any (mark_completely_full n).
Proof.
  intros Hl. apply sure_each. intros idx Hx. assert (in_ring 0 /\ in_ring 1) as [H0 H1] by (unfold in_ring; lia).
  eapply sure_bind; [by apply sure_set_alloc|]. intros _ _. eapply sure_bind; [by apply sure_set_free|]. intros _ _.
  apply sure_get_bind. intros s [E1 E2 _ _ _]. rewrite E1, E2.
  do 2 (eapply sure_bind; [by apply (sure_at any); [| |apply Forall_true]|]; intros ? _).
  do 5 (eapply sure_bind; [by apply sure_update_entry|]; intros _ _). by apply sure_update_entry.
Qed.

Lemma sure_process p now n : fits (program_config_sizes p) -> sure any (process p now n).
Proof.
  intros Hq. unfold process. eapply (sure_bind any).
  - unfold process_reserve. eapply sure_bind; [by apply sure_reserve|]. intros sync _. case_match; [by apply sure_ret|].
    case_match; [|by apply sure_ret]. eapply sure_bind; [by apply sure_reserve, fits_zero|]. intros ms _.
    eapply sure_bind; [by apply sure_reserve|]. intros _ _. by apply sure_ret.
  - intros st _. eapply (sure_bind any); [|intros _ _; eapply sure_bind; [apply sure_alloc|]; intros _ _; by apply sure_ret].
    destruct (is_cached p); cbn [negb]; [|apply sure_free]. unfold when. case_match; [apply sure_free|by apply sure_ret].
Qed.
End Sure.

(** ** Set-up and launches *)

Definition region_end (r : Z * Z) : Z := u32 (r.1 + r.2).

Lemma shaped_added b z bs es s : well_shaped bs es s -> well_shaped (bs ++ [b]) (es ++ [u32 (b + z)]) (added b z (length bs) s).
Proof.
  intros [H1 H2 H3 H4 H5]. constructor; cbn; [congruence|congruence| |apply Forall_app; repeat constructor; done..].
  rewrite length_app, Nat.add_1_r. by apply added_shape.
Qed.

Lemma shaped_init buffers bs es s :
  well_shaped bs es s -> exists s', mapM_ (fun '(base, sz) => init_add_buffer base sz) buffers s = (s', Ok tt) /\
    well_shaped (bs ++ map fst buffers) (es ++ map region_end buffers) s'.
Proof.
  revert bs es s. induction buffers as [|[b z] l IH]; intros bs es s Hs; [exists s; by rewrite !app_nil_r|]. cbn [mapM_ map].
  erewrite M_bind_ok by (apply init_add_buffer_eq, Hs). destruct (IH _ _ _ (shaped_added b z _ _ _ Hs)) as (s' & E & Hs').
  exists s'. split; [exact E|]. rewrite <- !app_assoc in Hs'. exact Hs'.
Qed.

Lemma shaped_reset buffers s0 : exists s, reset_config_buffer_mgr buffers s0 = (s, Ok tt) /\
  well_shaped (map fst (buffers ++ [(0, 1)])) (map region_end (buffers ++ [(0, 1)])) s.
Proof.
  assert (well_shaped [] [] WorkerConfigBufferMgr_new) as Hs by (constructor; [done..|repeat constructor|constructor|constructor]).
  destruct (shaped_init buffers _ _ _ Hs) as (s1 & E1 & Hs1). exists (added 0 1 (length (map fst buffers)) s1). split.
  - unfold reset_config_buffer_mgr. erewrite M_bind_ok by reflexivity. erewrite M_bind_ok by exact E1. apply init_add_buffer_eq, Hs1.
  - rewrite !map_app. by apply (shaped_added 0 1) in Hs1.
Qed.

(** A launch whose program asks every region for no bytes, or for some that fit: the
    regions are those of the core types and the launch slot. *)
Definition launch_fits (buffers : list (Z * Z)) (op : queue_op) : Prop :=
  match op with
  | EnqueueProgram p _ => Forall2 (fun r sz => sz <= r.2) (buffers ++ [(0, 1)]) (program_config_sizes p)
  | EnqueueTrace _ => True
  end.

Lemma launch_fits_sizes regions sizes : Forall (fun r => is_u32 r.2) regions ->
  Forall2 (fun r sz => sz <= r.2) regions sizes -> fits (map fst regions) (map region_end regions) sizes.
Proof.
  intros Hr. induction 1 as [|[b z] sz l sizes' Hle _ IH]; [constructor|]. apply Forall_cons in Hr as [Hz Hr]. constructor; [|by apply IH].
  cbn in *. unfold region_end, u32 in *. cbn. rewrite Zminus_mod_idemp_l. replace (b + z - b) with z by lia. rewrite Z.mod_small; done.
Qed.

(** The workers expected to have completed when the launches have. *)
Definition expected_after (now : Z) (ops : list queue_op) : Z := foldl (fun x op => u32 (x + workers_of op)) now ops.

(** C25: Launches never get stuck.  However the regions of the core types lie, after the
    manager has been set up every sequence of launches of programs and traces runs to the
    end, when what a program asks of a region is no longer than the region; core types
    may be asked for no bytes.  No assertion fires, no index leaves its vector, no loop
    runs out of fuel, and the count of workers is that of the launches, with its wrap. *)
Theorem launches_succeed buffers ops now s0 :
  Forall (fun r => is_u32 r.2) buffers -> Forall (launch_fits buffers) ops ->
  exists s s', reset_config_buffer_mgr buffers s0 = (s, Ok tt) /\ enqueue_all ops now s = (s', Ok (expected_after now ops)).
Proof.
  intros Hb Hops. destruct (shaped_reset buffers s0) as (s & E & Hs). exists s.
  enough (exists s', enqueue_all ops now s = (s', Ok (expected_after now ops))) as [s' H] by (by exists s').
  set (regions := buffers ++ [(0, 1)]) in *. clear E. revert now s Hs.
  induction Hops as [|op ops Hop _ IH]; intros now s Hs; cbn [enqueue_all]; [by exists s|].
  assert (exists s1, enqueue op now s = (s1, Ok (u32 (now + workers_of op))) /\ well_shaped (map fst regions) (map region_end regions) s1) as (s1 & E1 & Hs1).
  { destruct op as [p n|n]; cbn [enqueue workers_of].
    - assert (fits (map fst regions) (map region_end regions) (program_config_sizes p)) as Hq.
      { apply launch_fits_sizes; [|exact Hop]. apply Forall_app. split; [done|]. repeat constructor; cbn; lia. }
      destruct (sure_process _ _ p now n Hq s Hs) as (s1 & st & E1 & _ & Hs1). exists s1. split; [by erewrite M_bind_ok by exact E1|done].
    - destruct (sure_mark_completely_full (map fst regions) (map region_end regions) (u32 (now + n)) ltac:(by rewrite !length_map) s Hs)
        as (s1 & [] & E1 & _ & Hs1). exists s1. split; [by erewrite M_bind_ok by exact E1|done]. }
  erewrite M_bind_ok by exact E1. by apply IH.
Qed.

(** Twelve launches of programs with kernels on the first core type only, and a trace. *)
Definition tensix_program : ProgramInfo := mkProgram [96; 0; 1] true true.

Lemma launches_succeed_witness : exists s s',
  reset_config_buffer_mgr [(1024, 256); (512, 2048)] WorkerConfigBufferMgr_new = (s, Ok tt) /\
  enqueue_all (replicate 12 (EnqueueProgram tensix_program 64) ++ [EnqueueTrace 8]) 0 s = (s', Ok 776).
Proof.
  apply (launches_succeed [(1024, 256); (512, 2048)] (replicate 12 (EnqueueProgram tensix_program 64) ++ [EnqueueTrace 8]) 0).
  - repeat constructor; cbn; lia.
  - apply Forall_app. split; [|repeat constructor]. apply Forall_replicate. repeat constructor; cbn; lia.
Defined.
