(* ===== verification/ConfigBufferEmpty.v ===== *)
(** * What a request of no bytes does to the configuration ring buffer

    Runs of a manager of one region, for any addresses and sizes. *)

From Stdlib Require Import Lia.
From S2P Require Import Prelude ConfigBuffer ConfigBufferRing.

(** A program of [sz] bytes is placed, what is in its way is waited for, and its entry may
    be freed from the count [n] on. *)
Definition launch (sz n : Z) : W unit :=
  sync ← reserve [sz]; when (need_sync sync) (free (sync_to sync));; alloc n.

(** A manager of the region from [b] to [e]. *)
Definition one (b e : Z) (ring : list ConfigBufferEntry) (a f : Z) (r : ConfigBufferEntry) : WorkerConfigBufferMgr :=
  mkMgr [b] [e] (map (fun x => [x]) ring) [a] [f] [r].

Section One.
Context (b e : Z).

Lemma entry_one ring a f r i x : ring !! Z.to_nat i = Some x -> entry (one b e ring a f r) i 0 = Ok x.
Proof.
  intros H. unfold entry, at_. cbn [entries_ one]. rewrite list_lookup_fmap, H. cbn [fmap option_fmap option_map opt_res]. by rewrite res_bind_ret.
Qed.

Lemma update_entry_one ring a f r i x g : ring !! Z.to_nat i = Some x ->
  update_entry i 0 g (one b e ring a f r) = (one b e (alter g (Z.to_nat i) ring) a f r, Ok tt).
Proof.
  intros H. unfold update_entry. erewrite M_bind_ok by reflexivity. erewrite M_bind_ok by (unfold lift; by rewrite (entry_one _ _ _ _ _ _ H)).
  unfold modify, set_entries, one. cbn. do 2 f_equal. clear H. generalize (Z.to_nat i) as k. induction ring as [|y l IH]; intros [|k]; cbn; [done..|].
  f_equal. apply IH.
Qed.

Lemma update_reservation_one ring a f r g : update_reservation 0 g (one b e ring a f r) = (one b e ring a f (g r), Ok tt).
Proof. reflexivity. Qed.

Lemma reserve_one sz ring a f r :
  reserve [sz] (one b e ring a f r) = reserve_loop (Z.to_nat kernel_config_entry_count) 0 sz a f (mkSync false 0) (one b e ring a f r).
Proof.
  unfold reserve. erewrite M_bind_ok by reflexivity. erewrite M_bind_ok by reflexivity. change (zrange 0 _) with [0]. cbn [reserve_types].
  do 4 (erewrite M_bind_ok by reflexivity). unfold mbind, M_bind. by destruct (reserve_loop _ _ _ _ _ _ _) as [s' [v|]].
Qed.

(** No bytes are placed at the next address. *)
Lemma reserve_nothing ring a f r ae : ring !! Z.to_nat a = Some ae ->
  reserve [0] (one b e ring a f r) = (one b e ring a f (mkEntry (addr ae) 0 (sync_count r)), Ok (mkSync false 0)).
Proof.
  intros Ha. rewrite reserve_one.
  change (Z.to_nat kernel_config_entry_count) with 8%nat. cbn [reserve_loop]. erewrite M_bind_ok by reflexivity.
  erewrite M_bind_ok by (unfold lift; by rewrite (entry_one _ _ _ _ _ _ Ha)). reflexivity.
Qed.

Context (Hb : 0 <= b) (He : e < 2 ^ 31).

Lemma spot_range sz t fe x end_ : b <= t <= e -> spot b e sz t fe = (x, end_) -> b <= addr fe <= e -> b <= x <= e /\ end_ <= e.
Proof.
  unfold spot. cbv zeta. intros Ht H Hf. assert (x = (spot b e sz t fe).1 /\ end_ = (spot b e sz t fe).2) as [-> ->] by (unfold spot; cbv zeta; by rewrite H).
  unfold spot. cbv zeta. destruct (addr fe + size fe <=? t), (_ && _); cbn; lia.
Qed.

(** A request goes where [spot] tries it, if there is room there ... *)
Lemma reserve_free sz ring a f r ae fe x end_ : ring !! Z.to_nat a = Some ae -> ring !! Z.to_nat f = Some fe ->
  0 < sz <= e - b -> b <= addr ae <= e -> b <= addr fe -> 0 <= size fe -> addr fe + size fe <= e ->
  spot b e sz (addr ae) fe = (x, end_) -> x + sz <= end_ ->
  (u32 (a + 1) =? f) || ((u32 (a + 1) =? kernel_config_entry_count) && (f =? 0)) = false ->
  reserve [sz] (one b e ring a f r) = (one b e ring a f (mkEntry x sz (sync_count r)), Ok (mkSync false 0)).
Proof.
  intros Ha Hf Hsz Hae Hf1 Hf2 Hf3 Hspot Hroom Hfull. rewrite reserve_one. change (Z.to_nat kernel_config_entry_count) with 8%nat.
  cbn [reserve_loop]. erewrite M_bind_ok by reflexivity. erewrite M_bind_ok by (unfold lift; by rewrite (entry_one _ _ _ _ _ _ Ha)).
  erewrite M_bind_ok by reflexivity. rewrite (proj2 (Z.eqb_neq sz 0)) by lia. do 2 (erewrite M_bind_ok by reflexivity).
  rewrite (u32_small (e - b)) by lia. erewrite M_bind_ok by (apply require_true; lia).
  erewrite M_bind_ok by (unfold lift; by rewrite (entry_one _ _ _ _ _ _ Hf)). cbv zeta.
  rewrite (u32_small (addr fe + size fe)), (u32_small (addr ae + sz)) by lia. unfold spot in Hspot. cbv zeta in Hspot. rewrite Hspot. pose proof (spot_range sz (addr ae) fe x end_ Hae) as Hx. unfold spot in Hx. cbv zeta in Hx. specialize (Hx Hspot ltac:(lia)).
  rewrite (u32_small (x + sz)), (proj2 (Z.ltb_ge end_ (x + sz))) by lia. rewrite Hfull. reflexivity.
Qed.

(** ... or else waits for the oldest entry, when freeing that makes room. *)
Lemma reserve_wait sz ring a f r ae fe ne x end_ : ring !! Z.to_nat a = Some ae -> ring !! Z.to_nat f = Some fe ->
  ring !! Z.to_nat (ring_next f) = Some ne -> ring_next f <> a ->
  0 < sz <= e - b -> b <= addr ae <= e -> b <= addr fe -> 0 <= size fe -> addr fe + size fe <= e ->
  spot b e sz (addr ae) fe = (x, end_) -> end_ < x + sz -> x + sz <= (if addr ne <=? x then e else addr ne) ->
  reserve [sz] (one b e ring a f r) = (one b e ring a f (mkEntry x sz (sync_count r)), Ok (mkSync true (sync_count fe))).
Proof.
  intros Ha Hf Hn Hna Hsz Hae Hf1 Hf2 Hf3 Hspot Hroom Hnext. rewrite reserve_one. change (Z.to_nat kernel_config_entry_count) with 8%nat.
  cbn [reserve_loop]. erewrite M_bind_ok by reflexivity. erewrite M_bind_ok by (unfold lift; by rewrite (entry_one _ _ _ _ _ _ Ha)).
  erewrite M_bind_ok by reflexivity. rewrite (proj2 (Z.eqb_neq sz 0)) by lia. do 2 (erewrite M_bind_ok by reflexivity).
  rewrite (u32_small (e - b)) by lia. erewrite M_bind_ok by (apply require_true; lia).
  erewrite M_bind_ok by (unfold lift; by rewrite (entry_one _ _ _ _ _ _ Hf)). cbv zeta.
  rewrite (u32_small (addr fe + size fe)), (u32_small (addr ae + sz)) by lia. unfold spot in Hspot. cbv zeta in Hspot. rewrite Hspot. pose proof (spot_range sz (addr ae) fe x end_ Hae) as Hx. unfold spot in Hx. cbv zeta in Hx. specialize (Hx Hspot ltac:(lia)).
  rewrite (u32_small (x + sz)), (proj2 (Z.ltb_lt end_ (x + sz))) by lia. rewrite (proj2 (Z.eqb_neq _ _) Hna).
  erewrite M_bind_ok by (unfold lift; by rewrite (entry_one _ _ _ _ _ _ Hn)). rewrite (proj2 (Z.ltb_ge _ (x + sz))) by lia. reflexivity.
Qed.

(** The reservation becomes an entry, and the next address is its end. *)
Lemma alloc_one c ring a f r x y : ring !! Z.to_nat a = Some x -> ring !! Z.to_nat (ring_next a) = Some y -> Z.to_nat a <> Z.to_nat (ring_next a) ->
  0 <= addr r + size r < 2 ^ 32 ->
  alloc c (one b e ring a f r) = (one b e (<[Z.to_nat (ring_next a) := mkEntry (addr r + size r) 0 debug_sync]> (<[Z.to_nat a := mkEntry (addr r) (size r) c]> ring)) (ring_next a) f r, Ok tt).
Proof.
  intros Ha Hn Hne Hsum. unfold alloc. erewrite M_bind_ok by reflexivity. change (zrange 0 _) with [0]. cbn [mapM_]. 
  erewrite M_bind_ok; [reflexivity|]. unfold alloc_type. do 3 (erewrite M_bind_ok by reflexivity).
  assert (forall (l : list ConfigBufferEntry) k z g1 g2 g3, l !! k = Some z -> alter g3 k (alter g2 k (alter g1 k l)) = <[k := g3 (g2 (g1 z))]> l) as Halter.
  { clear. intros l k z g1 g2 g3. revert k. induction l as [|y l IH]; intros [|k] Hz; cbn in *; [done..|by injection Hz as ->|]. f_equal. by apply IH. }
  erewrite M_bind_ok by (by eapply update_entry_one). erewrite M_bind_ok by (eapply update_entry_one; by rewrite list_lookup_alter_eq, Ha).
  erewrite M_bind_ok by (eapply update_entry_one; by rewrite !list_lookup_alter_eq, Ha). rewrite (Halter _ _ x) by done. cbv zeta.
  change (set_entry_sync c _) with (mkEntry (addr r) (size r) c).
  assert (<[Z.to_nat a:=mkEntry (addr r) (size r) c]> ring !! Z.to_nat a = Some (mkEntry (addr r) (size r) c)) as E by (apply list_lookup_insert_eq; by eapply lookup_lt_Some).
  assert (<[Z.to_nat a:=mkEntry (addr r) (size r) c]> ring !! Z.to_nat (ring_next a) = Some y) as En by (by rewrite list_lookup_insert_ne).
  erewrite M_bind_ok by reflexivity. erewrite M_bind_ok by (unfold lift; by rewrite (entry_one _ _ _ _ _ _ E)).
  erewrite M_bind_ok by (by eapply update_entry_one). erewrite M_bind_ok by (eapply update_entry_one; by rewrite list_lookup_alter_eq, En).
  erewrite M_bind_ok by (eapply update_entry_one; by rewrite !list_lookup_alter_eq, En). rewrite (Halter _ _ y) by done. cbn [addr size]. rewrite u32_small by done. reflexivity.
Qed.
End One.

(** [free] passes the entries one after the other while their counts allow it. *)
Lemma free_first b e ring a f r n x y : ring !! Z.to_nat f = Some x -> ring !! Z.to_nat (ring_next f) = Some y -> f <> a -> sync_count x <= n -> n < sync_count y ->
  free n (one b e ring a f r) = (one b e ring a (ring_next f) r, Ok tt).
Proof.
  intros Hx Hy Hfa Hxn Hyn. unfold free. erewrite M_bind_ok by reflexivity. change (zrange 0 _) with [0]. cbn [mapM_].
  erewrite M_bind_ok; [reflexivity|]. unfold free_type. do 2 (erewrite M_bind_ok by reflexivity). change (Z.to_nat kernel_config_entry_count) with 8%nat.
  cbn [free_loop]. erewrite M_bind_ok by reflexivity. erewrite M_bind_ok by (unfold lift; by rewrite (entry_one _ _ _ _ _ _ _ _ Hx)).
  erewrite M_bind_ok by reflexivity. rewrite (proj2 (Z.leb_le _ _)), (proj2 (Z.eqb_neq _ _)) by done. cbn [andb negb].
  erewrite M_bind_ok by reflexivity. change (set_free_index _ _) with (one b e ring a (ring_next f) r).
  erewrite M_bind_ok by reflexivity. erewrite M_bind_ok by (unfold lift; by rewrite (entry_one _ _ _ _ _ _ _ _ Hy)).
  erewrite M_bind_ok by reflexivity. rewrite (proj2 (Z.leb_gt _ _)) by done. reflexivity.
Qed.

Section Run.
Context (b n x y v c1 c2 c3 c4 : Z).
Hypotheses (Hb : 0 <= b) (Hn : b + n < 2 ^ 31) (Hx : 0 < x) (Hy : 0 < y) (Hv : 0 < v) (Hfit : x + y <= n) (Hwrap : n < x + y + x) (Hroom : x + v <= n).
Hypothesis Hc : c1 < c2.

Definition unused : ConfigBufferEntry := mkEntry 0 0 0.

(** The manager after the launches of [x], 0, [y] and [x] bytes. *)
Definition overlapping : WorkerConfigBufferMgr :=
  one b (b + n) [mkEntry b x c1; mkEntry (b + x) 0 c2; mkEntry (b + x) y c3; mkEntry b x c4; mkEntry (b + x) 0 debug_sync; unused; unused; unused]
    4 1 (mkEntry b x 0).

Lemma launch_free sz c ring a f r ae fe z end_ : ring !! Z.to_nat a = Some ae -> ring !! Z.to_nat f = Some fe ->
  0 < sz <= n -> b <= addr ae <= b + n -> b <= addr fe -> 0 <= size fe -> addr fe + size fe <= b + n ->
  spot b (b + n) sz (addr ae) fe = (z, end_) -> z + sz <= end_ ->
  (u32 (a + 1) =? f) || ((u32 (a + 1) =? kernel_config_entry_count) && (f =? 0)) = false ->
  launch sz c (one b (b + n) ring a f r) = alloc c (one b (b + n) ring a f (mkEntry z sz (sync_count r))).
Proof using Hb Hn.
  intros. unfold launch. erewrite M_bind_ok by (eapply (reserve_free b (b + n)); (done || lia)). reflexivity.
Qed.

Lemma overlapping_reached :
  (init_add_buffer b n;; launch x c1;; launch 0 c2;; launch y c3;; launch x c4) WorkerConfigBufferMgr_new = (overlapping, Ok tt).
Proof using All.
  assert (init_add_buffer b n WorkerConfigBufferMgr_new = (one b (b + n) (mkEntry b 0 0 :: replicate 7 unused) 0 0 unused, Ok tt)) as E0.
  { transitivity (one b (u32 (b + n)) (mkEntry b 0 0 :: replicate 7 unused) 0 0 unused, Ok tt); [reflexivity|by rewrite u32_small by lia]. }
  erewrite M_bind_ok by exact E0.
  assert (launch x c1 (one b (b + n) (mkEntry b 0 0 :: replicate 7 unused) 0 0 unused) =
    (one b (b + n) (mkEntry b x c1 :: mkEntry (b + x) 0 debug_sync :: replicate 6 unused) 1 0 (mkEntry b x 0), Ok tt)) as E1.
  { rewrite (launch_free _ _ _ _ _ _ (mkEntry b 0 0) (mkEntry b 0 0) b (b + n)); cbn [addr size sync_count unused]; (done || lia || idtac).
    - erewrite alloc_one by (done || (cbn; lia)). reflexivity.
    - unfold spot. cbn [addr size]. rewrite (proj2 (Z.leb_le _ _)), (proj2 (Z.ltb_ge _ _)) by lia. done. }
  erewrite M_bind_ok by exact E1.
  assert (launch 0 c2 (one b (b + n) (mkEntry b x c1 :: mkEntry (b + x) 0 debug_sync :: replicate 6 unused) 1 0 (mkEntry b x 0)) =
    (one b (b + n) (mkEntry b x c1 :: mkEntry (b + x) 0 c2 :: mkEntry (b + x) 0 debug_sync :: replicate 5 unused) 2 0 (mkEntry (b + x) 0 0), Ok tt)) as E2.
  { unfold launch. erewrite M_bind_ok by (by eapply reserve_nothing). cbn [need_sync when addr sync_count]. erewrite M_bind_ok by reflexivity.
    erewrite alloc_one by (done || (cbn; lia)). cbn [addr size]. rewrite Z.add_0_r. reflexivity. }
  erewrite M_bind_ok by exact E2.
  assert (launch y c3 (one b (b + n) (mkEntry b x c1 :: mkEntry (b + x) 0 c2 :: mkEntry (b + x) 0 debug_sync :: replicate 5 unused) 2 0 (mkEntry (b + x) 0 0)) =
    (one b (b + n) (mkEntry b x c1 :: mkEntry (b + x) 0 c2 :: mkEntry (b + x) y c3 :: mkEntry (b + x + y) 0 debug_sync :: replicate 4 unused) 3 0 (mkEntry (b + x) y 0), Ok tt)) as E3.
  { rewrite (launch_free _ _ _ _ _ _ (mkEntry (b + x) 0 debug_sync) (mkEntry b x c1) (b + x) (b + n)); cbn [addr size sync_count unused]; (done || lia || idtac).
    - erewrite alloc_one by (done || (cbn; lia)). reflexivity.
    - unfold spot. cbn [addr size]. rewrite (proj2 (Z.leb_le _ _)), (proj2 (Z.ltb_ge _ _)) by lia. done. }
  erewrite M_bind_ok by exact E3. unfold launch.
  erewrite M_bind_ok.
  2: { eapply (reserve_wait b (b + n) Hb Hn x _ 3 0 _ (mkEntry (b + x + y) 0 debug_sync) (mkEntry b x c1) (mkEntry (b + x) 0 c2) b b); cbn [addr size]; try (done || lia).
    - unfold spot. cbn [addr size]. rewrite (proj2 (Z.leb_le _ _)), (proj2 (Z.ltb_lt _ _)), Z.eqb_refl by lia. done.
    - rewrite (proj2 (Z.leb_gt _ _)) by lia. lia. }
  cbn [need_sync sync_to when sync_count]. erewrite M_bind_ok by (by eapply (free_first _ _ _ _ 0)).
  erewrite alloc_one by (done || (cbn; lia)). reflexivity.
Qed.

(** C32: A request of no bytes breaks the ring.  Wherever a region lies, launches of [x], 0,
    [y] and again [x] bytes, of which the last finds room only at the region's start, leave
    the empty entry the oldest; its address, which is also the next one, makes the free end
    of the region look free.  A program of [v] bytes is then placed, without a wait, at the
    address of the one of [y] bytes, which is still live. *)
Theorem empty_request_overlaps : exists s s',
  (init_add_buffer b n;; launch x c1;; launch 0 c2;; launch y c3;; launch x c4) WorkerConfigBufferMgr_new = (s, Ok tt) /\
  free_index_ s = [1] /\ alloc_index_ s = [4] /\ entry s 2 0 = Ok (mkEntry (b + x) y c3) /\
  reserve [v] s = (s', Ok (mkSync false 0)) /\ exists r, reservation_ s' = [r] /\ addr r = b + x /\ size r = v.
Proof using All.
  exists overlapping. eexists. split; [exact overlapping_reached|]. split; [done|]. split; [done|]. split; [reflexivity|]. split.
  - unfold overlapping. eapply (reserve_free b (b + n) Hb Hn v _ 4 1 _ (mkEntry (b + x) 0 debug_sync) (mkEntry (b + x) 0 c2) (b + x) (b + n)); cbn [addr size]; try (done || lia).
    unfold spot. cbn [addr size]. rewrite (proj2 (Z.leb_le _ _)), (proj2 (Z.ltb_ge _ _)) by lia. done.
  - by eexists.
Qed.
End Run.

Lemma empty_request_overlaps_witness : exists s s', entry s 2 0 = Ok (mkEntry 1084 30 3) /\ reserve [25] s = (s', Ok (mkSync false 0)) /\
  exists r, reservation_ s' = [r] /\ addr r = 1084 /\ size r = 25.
Proof.
  destruct (empty_request_overlaps 1024 100 60 30 25 1 2 3 4) as (s & s' & _ & _ & _ & H1 & H2 & H3); try lia.
  exists s, s'. split; [exact H1|]. split; [exact H2|exact H3].
Defined.
