(* ===== verification/SystemMemory.v ===== *)
(** * Command queues in host memory
    (tt_metal/impl/dispatch/command_queue_interface.hpp, [align] of
    tt_metal/common/base.hpp)

    The host writes commands into the issue region of a command queue, tells the
    device about each through a queue of fetch entries, and reads results from the
    completion region.  What the code reads of the hardware layer and the cluster is
    a record [Platform].  Writes that leave the object - host memory, the device's
    fetch queue, the completion read pointer - are a log of events in program order,
    and a loop that polls the device is given the list of values it reads. *)

From S2P Require Import Prelude Memory ConfigBuffer.

(** [align] of base.hpp, for alignments that are powers of two. *)
Definition align (addr alignment : Z) : Z := u32 (Z.lor (u32 (addr - 1)) (u32 (alignment - 1)) + 1).

Definition MAX_HUGEPAGE_SIZE : Z := Z.shiftl 1 30.
Definition MAX_DEV_CHANNEL_SIZE : Z := Z.shiftl 1 28.
Definition DEVICES_PER_UMD_CHANNEL : Z := MAX_HUGEPAGE_SIZE / MAX_DEV_CHANNEL_SIZE.

Inductive CommandQueueDeviceAddrType :=
  | PREFETCH_Q_RD | PREFETCH_Q_PCIE_RD | COMPLETION_Q_WR | COMPLETION_Q_RD
  | COMPLETION_Q0_LAST_EVENT | COMPLETION_Q1_LAST_EVENT | DISPATCH_S_SYNC_SEM | DISPATCH_MESSAGE | UNRESERVED.

Definition device_addr_index (t : CommandQueueDeviceAddrType) : Z :=
  match t with
  | PREFETCH_Q_RD => 0 | PREFETCH_Q_PCIE_RD => 1 | COMPLETION_Q_WR => 2 | COMPLETION_Q_RD => 3
  | COMPLETION_Q0_LAST_EVENT => 4 | COMPLETION_Q1_LAST_EVENT => 5 | DISPATCH_S_SYNC_SEM => 6
  | DISPATCH_MESSAGE => 7 | UNRESERVED => 8
  end.

Definition device_addr_types : list CommandQueueDeviceAddrType :=
  [PREFETCH_Q_RD; PREFETCH_Q_PCIE_RD; COMPLETION_Q_WR; COMPLETION_Q_RD; COMPLETION_Q0_LAST_EVENT;
   COMPLETION_Q1_LAST_EVENT; DISPATCH_S_SYNC_SEM; DISPATCH_MESSAGE; UNRESERVED].

Inductive CommandQueueHostAddrType := ISSUE_Q_RD | ISSUE_Q_WR | HOST_COMPLETION_Q_WR | HOST_COMPLETION_Q_RD | HOST_UNRESERVED.

Definition host_addr_index (t : CommandQueueHostAddrType) : Z :=
  match t with ISSUE_Q_RD => 0 | ISSUE_Q_WR => 1 | HOST_COMPLETION_Q_WR => 2 | HOST_COMPLETION_Q_RD => 3 | HOST_UNRESERVED => 4 end.

(** The driver's core types; the queue code tells the first two apart. *)
Inductive CoreType := WORKER | ETH | OTHER_CORE.

#[export] Instance CoreType_eq_dec : EqDecision CoreType.
Proof. solve_decision. Defined.

Record Platform := mkPlatform {
  is_galaxy_cluster : bool;
  host_alignment : Z;
  l1_alignment : Z;
  tensix_unreserved : Z;
  idle_eth_unreserved : Z;
  mem_l1_size : Z;
  mem_eth_size : Z;
  dispatch_messages_max_offset : Z;
}.

(** ** dispatch_constants *)

Definition DISPATCH_MESSAGE_ENTRIES : Z := 16.
Definition PREFETCH_Q_LOG_MINSIZE : Z := 4.
Definition TRANSFER_PAGE_SIZE : Z := Z.shiftl 1 12.
Definition DISPATCH_BUFFER_LOG_PAGE_SIZE : Z := 12.
Definition DISPATCH_BUFFER_SIZE_BLOCKS : Z := 4.
Definition DISPATCH_S_BUFFER_LOG_PAGE_SIZE : Z := 7.
Definition PREFETCH_D_BUFFER_LOG_PAGE_SIZE : Z := 12.
(** [sizeof(prefetch_q_entry_type)], of uint16_t. *)
Definition sizeof_entry : Z := 2.

Record dispatch_constants := mkDispatch {
  prefetch_q_entries : Z;
  prefetch_q_size : Z;
  max_prefetch_command_size : Z;
  cmddat_q_base : Z;
  cmddat_q_size : Z;
  scratch_db_base : Z;
  scratch_db_size : Z;
  dispatch_buffer_base : Z;
  dispatch_buffer_block_size_pages : Z;
  dispatch_buffer_pages : Z;
  prefetch_d_buffer_size : Z;
  prefetch_d_buffer_pages : Z;
  dispatch_s_buffer_size : Z;
  device_cq_addrs : list Z;
}.

Definition mux_buffer_size (dc : dispatch_constants) (num_hw_cqs : Z) : res Z :=
  check Undefined (negb (num_hw_cqs =? 0));; mret (prefetch_d_buffer_size dc / num_hw_cqs).
Definition mux_buffer_pages (dc : dispatch_constants) (num_hw_cqs : Z) : res Z :=
  check Undefined (negb (num_hw_cqs =? 0));; mret (prefetch_d_buffer_pages dc / num_hw_cqs).
Definition dispatch_s_buffer_pages (dc : dispatch_constants) : Z :=
  dispatch_s_buffer_size dc / Z.shiftl 1 DISPATCH_S_BUFFER_LOG_PAGE_SIZE.

Definition get_device_command_queue_addr (dc : dispatch_constants) (t : CommandQueueDeviceAddrType) : res Z :=
  let index := device_addr_index t in
  check Assert (index <? Z.of_nat (length (device_cq_addrs dc)));;
  at_ (device_cq_addrs dc) index.

Definition get_host_command_queue_addr (p : Platform) (t : CommandQueueHostAddrType) : Z :=
  u32 (host_addr_index t * host_alignment p).

Definition get_dispatch_message_offset (p : Platform) (index : Z) : res Z :=
  check Assert (index <? DISPATCH_MESSAGE_ENTRIES);; mret (u32 (index * l1_alignment p)).

Definition device_cq_addr_size (p : Platform) (t : CommandQueueDeviceAddrType) : Z :=
  match t with
  | PREFETCH_Q_RD => 4
  | PREFETCH_Q_PCIE_RD => u32 (l1_alignment p - 4)
  | DISPATCH_S_SYNC_SEM | DISPATCH_MESSAGE => u32 (DISPATCH_MESSAGE_ENTRIES * l1_alignment p)
  | _ => l1_alignment p
  end.

(** The addresses after [addr], the address of the type before: the loop from index 1. *)
Fixpoint device_cq_addrs_from (p : Platform) (addr : Z) (before : CommandQueueDeviceAddrType)
    (types : list CommandQueueDeviceAddrType) : list Z :=
  match types with
  | [] => []
  | t :: types =>
      let a := u32 (addr + device_cq_addr_size p before) in
      let a := match t with UNRESERVED => align a (host_alignment p) | _ => a end in
      a :: device_cq_addrs_from p a t types
  end.

Definition device_cq_addrs_of (p : Platform) (base : Z) : list Z :=
  base :: device_cq_addrs_from p base PREFETCH_Q_RD (tail device_addr_types).

(** [(x + a - 1) / a * a] *)
Definition round_to (x a : Z) : Z := u32 (u32 (x + a - 1) / a * a).

(** What the constructor fixes by core type. *)
Record core_settings := mkSettings {
  cs_entries : Z;
  cs_max_command : Z;
  cs_cmddat : Z;
  cs_scratch : Z;
  cs_dispatch_block : Z;
  cs_prefetch_d : Z;
  cs_dispatch_s : Z;
  cs_base : Z;
  cs_l1_size : Z;
}.

Definition settings_of (p : Platform) (core_type : CoreType) (num_hw_cqs : Z) : res core_settings :=
  check Assert (bool_decide (core_type = WORKER) || bool_decide (core_type = ETH));;
  if bool_decide (core_type = WORKER) then
    check Undefined (negb (is_galaxy_cluster p && (num_hw_cqs =? 0)));;
    mret (mkSettings (if is_galaxy_cluster p then 1532 / num_hw_cqs else 1534) (128 * 1024) (256 * 1024) (128 * 1024)
      (512 * 1024) (256 * 1024) (32 * 1024) (tensix_unreserved p) (mem_l1_size p))
  else
    mret (mkSettings 128 (32 * 1024) (64 * 1024) (19 * 1024) (128 * 1024) (128 * 1024) (32 * 1024)
      (idle_eth_unreserved p) (mem_eth_size p)).

(** The rest of the constructor: the addresses laid out from the base. *)
Definition lay_out (p : Platform) (st : core_settings) : res dispatch_constants :=
  let pcie_alignment := host_alignment p in
  check Assert (2 * cs_max_command st <=? cs_cmddat st);;
  check Assert (cs_scratch st mod 2 =? 0);;
  check Assert (Z.land (cs_dispatch_block st) (cs_dispatch_block st - 1) =? 0);;
  check Assert (DISPATCH_MESSAGE_ENTRIES <=? dispatch_messages_max_offset p / l1_alignment p + 1);;
  let addrs := device_cq_addrs_of p (cs_base st) in
  let q_size := u32 (cs_entries st * sizeof_entry) in
  unreserved ← at_ addrs (device_addr_index UNRESERVED);
  let cmddat_base := u32 (unreserved + round_to q_size pcie_alignment) in
  let scratch_base := u32 (cmddat_base + round_to (cs_cmddat st) pcie_alignment) in
  check Assert (u32 (scratch_base + cs_scratch st) <? cs_l1_size st);;
  let page := Z.shiftl 1 DISPATCH_BUFFER_LOG_PAGE_SIZE in
  let buffer_base := u32 (Z.lor (u32 (unreserved - 1)) (page - 1) + 1) in
  let block_pages := cs_dispatch_block st / page / DISPATCH_BUFFER_SIZE_BLOCKS in
  let buffer_pages := u32 (block_pages * DISPATCH_BUFFER_SIZE_BLOCKS) in
  check Assert (u32 (buffer_base + u32 (page * buffer_pages)) <? cs_l1_size st);;
  mret (mkDispatch (cs_entries st) q_size (cs_max_command st) cmddat_base (cs_cmddat st) scratch_base (cs_scratch st)
    buffer_base block_pages buffer_pages (cs_prefetch_d st) (Z.shiftr (cs_prefetch_d st) PREFETCH_D_BUFFER_LOG_PAGE_SIZE)
    (cs_dispatch_s st) addrs).

Definition dispatch_constants_new (p : Platform) (core_type : CoreType) (num_hw_cqs : Z) : res dispatch_constants :=
  st ← settings_of p core_type num_hw_cqs; lay_out p st.

(** The static members: the instance in force. *)
Record dispatch_static := mkStatic { hw_cqs : Z; last_core_type : CoreType; inst : option dispatch_constants }.

Definition dispatch_constants_get (p : Platform) (core_type : CoreType) (num_hw_cqs : Z) : M dispatch_static dispatch_constants :=
  s ← get;
  when ((0 <? num_hw_cqs) && (negb (num_hw_cqs =? hw_cqs s) || bool_decide (core_type <> last_core_type s) || bool_decide (inst s = None)))
    (modify (fun s => mkStatic num_hw_cqs core_type (inst s));;
     dc ← lift (dispatch_constants_new p core_type num_hw_cqs);
     modify (fun s => mkStatic (hw_cqs s) (last_core_type s) (Some dc)));;
  s ← get;
  require Fatal (0 <? hw_cqs s);;
  lift (opt_res Undefined (inst s)).

(** ** Offsets *)

Definition get_relative_cq_offset (cq_id cq_size : Z) : Z := u32 (cq_id * cq_size).
Definition get_umd_channel (channel : Z) : Z := Z.land channel 3.
Definition channel_base (channel : Z) : Z :=
  u32 (u32 (MAX_HUGEPAGE_SIZE * get_umd_channel channel) + u32 (Z.shiftr channel 2 * MAX_DEV_CHANNEL_SIZE)).
Definition get_absolute_cq_offset (channel cq_id cq_size : Z) : Z :=
  u32 (channel_base channel + get_relative_cq_offset cq_id cq_size).

(** ** SystemMemoryCQInterface *)

Record SystemMemoryCQInterface := mkCQ {
  cq_start : Z;
  command_completion_region_size : Z;
  command_issue_region_size : Z;
  cq_id_ : Z;
  issue_fifo_size : Z;
  issue_fifo_limit : Z;
  cq_offset : Z;
  issue_fifo_wr_ptr : Z;
  issue_fifo_wr_toggle : bool;
  completion_fifo_size : Z;
  completion_fifo_limit : Z;
  completion_fifo_rd_ptr : Z;
  completion_fifo_rd_toggle : bool;
}.

Definition set_issue_wr (ptr : Z) (toggle : bool) (c : SystemMemoryCQInterface) : SystemMemoryCQInterface :=
  mkCQ (cq_start c) (command_completion_region_size c) (command_issue_region_size c) (cq_id_ c) (issue_fifo_size c)
    (issue_fifo_limit c) (cq_offset c) ptr toggle (completion_fifo_size c) (completion_fifo_limit c)
    (completion_fifo_rd_ptr c) (completion_fifo_rd_toggle c).
Definition set_completion_rd (ptr : Z) (toggle : bool) (c : SystemMemoryCQInterface) : SystemMemoryCQInterface :=
  mkCQ (cq_start c) (command_completion_region_size c) (command_issue_region_size c) (cq_id_ c) (issue_fifo_size c)
    (issue_fifo_limit c) (cq_offset c) (issue_fifo_wr_ptr c) (issue_fifo_wr_toggle c) (completion_fifo_size c)
    (completion_fifo_limit c) ptr toggle.
Definition set_issue_limits (size limit : Z) (c : SystemMemoryCQInterface) : SystemMemoryCQInterface :=
  mkCQ (cq_start c) (command_completion_region_size c) (command_issue_region_size c) (cq_id_ c) size
    limit (cq_offset c) (issue_fifo_wr_ptr c) (issue_fifo_wr_toggle c) (completion_fifo_size c)
    (completion_fifo_limit c) (completion_fifo_rd_ptr c) (completion_fifo_rd_toggle c).

(** The first address of the issue region, in words of 16 bytes. *)
Definition issue_start (c : SystemMemoryCQInterface) : Z := Z.shiftr (u32 (cq_start c + cq_offset c)) 4.

Definition SystemMemoryCQInterface_new (p : Platform) (channel cq_id cq_size cq_start : Z) : res SystemMemoryCQInterface :=
  let completion_region := u32 (u32 (cq_size - cq_start) / TRANSFER_PAGE_SIZE / 4 * TRANSFER_PAGE_SIZE) in
  let issue_region := u32 (u32 (cq_size - cq_start) - completion_region) in
  let offset := get_absolute_cq_offset channel cq_id cq_size in
  let issue_limit := Z.shiftr (u32 (u32 (cq_start + issue_region) + offset)) 4 in
  let completion_size := Z.shiftr completion_region 4 in
  check Undefined (negb (host_alignment p =? 0));;
  check Assert ((completion_region mod host_alignment p =? 0) && (issue_region mod host_alignment p =? 0));;
  check Assert (negb (issue_limit =? 0));;
  mret (mkCQ cq_start completion_region issue_region cq_id (Z.shiftr issue_region 4) issue_limit offset
    (Z.shiftr (u32 (cq_start + offset)) 4) false completion_size (u32 (issue_limit + completion_size)) issue_limit false).

(** ** memcpy_to_device

    [copy_blocks] is the loop that moves [num_lines] blocks of [width] bytes,
    its two pointers advanced together. *)

Fixpoint copy_blocks (num_lines : nat) (width : nat) (dst8 : Z) (src8 : list Z) (mem : Z -> Z) : Z * list Z * (Z -> Z) :=
  match num_lines with
  | O => (dst8, src8, mem)
  | S i => copy_blocks i width (dst8 + Z.of_nat width) (drop width src8) (write_mem dst8 (take width src8) mem)
  end.

Definition memcpy_to_device (dst : Z) (src : list Z) (mem : Z -> Z) : res (Z -> Z) :=
  check Assert (dst mod 16 =? 0);;
  let n := length src in
  let '(dst8, src8, mem) := copy_blocks (n / 256 * 8) 32 dst src mem in
  let n := (n - n / 256 * 256)%nat in
  let '(dst8, src8, mem) := copy_blocks (n / 32) 32 dst8 src8 mem in
  let n := (n - n / 32 * 32)%nat in
  let '(dst8, src8, mem) := copy_blocks (n / 16) 16 dst8 src8 mem in
  let n := (n - n / 16 * 16)%nat in
  let '(dst8, src8, mem) := copy_blocks (n / 4) 4 dst8 src8 mem in
  let n := (n - n / 4 * 4)%nat in
  match n with O => mret mem | S _ => mret (write_mem dst8 (take n src8 ++ replicate (4 - n) 0) mem) end.

(** ** SystemMemoryManager *)

Inductive io_event :=
  | FetchQueueEntry (cq_id addr value : Z)
  | CompletionReadPtr (cq_id value : Z)
  | SysmemWord (addr value : Z).

Inductive region := BypassBuffer (offset : Z) | HostRegion (offset : Z).

Record SystemMemoryManager := mkSM {
  consts : dispatch_static;
  num_hw_cqs : Z;
  cq_size : Z;
  channel_offset : Z;
  cq_interfaces : list SystemMemoryCQInterface;
  cq_to_event : list Z;
  cq_to_last_completed_event : list Z;
  prefetch_q_dev_ptrs : list Z;
  prefetch_q_dev_fences : list Z;
  bypass_enable : bool;
  bypass_buffer : list Z;
  bypass_buffer_write_offset : Z;
  sysmem : Z -> Z;
  events : list io_event;
}.

Definition set_consts (v : dispatch_static) (s : SystemMemoryManager) : SystemMemoryManager :=
  mkSM v (num_hw_cqs s) (cq_size s) (channel_offset s) (cq_interfaces s) (cq_to_event s) (cq_to_last_completed_event s)
    (prefetch_q_dev_ptrs s) (prefetch_q_dev_fences s) (bypass_enable s) (bypass_buffer s) (bypass_buffer_write_offset s) (sysmem s) (events s).
Definition set_cq_interfaces (v : list SystemMemoryCQInterface) (s : SystemMemoryManager) : SystemMemoryManager :=
  mkSM (consts s) (num_hw_cqs s) (cq_size s) (channel_offset s) v (cq_to_event s) (cq_to_last_completed_event s)
    (prefetch_q_dev_ptrs s) (prefetch_q_dev_fences s) (bypass_enable s) (bypass_buffer s) (bypass_buffer_write_offset s) (sysmem s) (events s).
Definition set_cq_events (e c : list Z) (s : SystemMemoryManager) : SystemMemoryManager :=
  mkSM (consts s) (num_hw_cqs s) (cq_size s) (channel_offset s) (cq_interfaces s) e c
    (prefetch_q_dev_ptrs s) (prefetch_q_dev_fences s) (bypass_enable s) (bypass_buffer s) (bypass_buffer_write_offset s) (sysmem s) (events s).
Definition set_dev_ptrs (v : list Z) (s : SystemMemoryManager) : SystemMemoryManager :=
  mkSM (consts s) (num_hw_cqs s) (cq_size s) (channel_offset s) (cq_interfaces s) (cq_to_event s) (cq_to_last_completed_event s)
    v (prefetch_q_dev_fences s) (bypass_enable s) (bypass_buffer s) (bypass_buffer_write_offset s) (sysmem s) (events s).
Definition set_dev_fences (v : list Z) (s : SystemMemoryManager) : SystemMemoryManager :=
  mkSM (consts s) (num_hw_cqs s) (cq_size s) (channel_offset s) (cq_interfaces s) (cq_to_event s) (cq_to_last_completed_event s)
    (prefetch_q_dev_ptrs s) v (bypass_enable s) (bypass_buffer s) (bypass_buffer_write_offset s) (sysmem s) (events s).
Definition set_bypass (e : bool) (b : list Z) (o : Z) (s : SystemMemoryManager) : SystemMemoryManager :=
  mkSM (consts s) (num_hw_cqs s) (cq_size s) (channel_offset s) (cq_interfaces s) (cq_to_event s) (cq_to_last_completed_event s)
    (prefetch_q_dev_ptrs s) (prefetch_q_dev_fences s) e b o (sysmem s) (events s).
Definition set_sysmem (v : Z -> Z) (s : SystemMemoryManager) : SystemMemoryManager :=
  mkSM (consts s) (num_hw_cqs s) (cq_size s) (channel_offset s) (cq_interfaces s) (cq_to_event s) (cq_to_last_completed_event s)
    (prefetch_q_dev_ptrs s) (prefetch_q_dev_fences s) (bypass_enable s) (bypass_buffer s) (bypass_buffer_write_offset s) v (events s).
Definition emit (e : io_event) (s : SystemMemoryManager) : SystemMemoryManager :=
  mkSM (consts s) (num_hw_cqs s) (cq_size s) (channel_offset s) (cq_interfaces s) (cq_to_event s) (cq_to_last_completed_event s)
    (prefetch_q_dev_ptrs s) (prefetch_q_dev_fences s) (bypass_enable s) (bypass_buffer s) (bypass_buffer_write_offset s) (sysmem s)
    (events s ++ [e]).

(** [v[i]] of a member vector. *)
Definition elem {A} (f : SystemMemoryManager -> list A) (i : Z) : M SystemMemoryManager A :=
  s ← get; lift (at_ (f s) i).

Section Manager.
(** The platform, the core type the device dispatches on and its host channel. *)
Context (p : Platform) (core_type : CoreType) (channel : Z).

Definition constants (cqs : Z) : M SystemMemoryManager dispatch_constants :=
  zoom consts set_consts (dispatch_constants_get p core_type cqs).

Definition device_addr (t : CommandQueueDeviceAddrType) : M SystemMemoryManager Z :=
  dc ← constants 0; lift (get_device_command_queue_addr dc t).

Definition issue_queue_size_of (c : SystemMemoryCQInterface) : Z := u32 (Z.shiftl (issue_fifo_size c) 4).
Definition get_issue_queue_size (cq_id : Z) : M SystemMemoryManager Z :=
  c ← elem cq_interfaces cq_id; mret (issue_queue_size_of c).
Definition get_issue_queue_limit (cq_id : Z) : M SystemMemoryManager Z :=
  c ← elem cq_interfaces cq_id; mret (u32 (Z.shiftl (issue_fifo_limit c) 4)).
Definition get_completion_queue_size (cq_id : Z) : M SystemMemoryManager Z :=
  c ← elem cq_interfaces cq_id; mret (u32 (Z.shiftl (completion_fifo_size c) 4)).
Definition get_completion_queue_limit (cq_id : Z) : M SystemMemoryManager Z :=
  c ← elem cq_interfaces cq_id; mret (u32 (Z.shiftl (completion_fifo_limit c) 4)).
Definition get_issue_queue_write_ptr (cq_id : Z) : M SystemMemoryManager Z :=
  s ← get;
  if bypass_enable s then mret (bypass_buffer_write_offset s)
  else c ← elem cq_interfaces cq_id; mret (u32 (Z.shiftl (issue_fifo_wr_ptr c) 4)).
Definition get_completion_queue_read_ptr (cq_id : Z) : M SystemMemoryManager Z :=
  c ← elem cq_interfaces cq_id; mret (u32 (Z.shiftl (completion_fifo_rd_ptr c) 4)).
Definition get_completion_queue_read_toggle (cq_id : Z) : M SystemMemoryManager Z :=
  c ← elem cq_interfaces cq_id; mret (Z.b2z (completion_fifo_rd_toggle c)).

Definition new_cq_size (cq_size_override : option Z) (host_channel_size hw_cqs : Z) : res Z :=
  match cq_size_override with
  | Some size => mret (u32 size)
  | None =>
      check Undefined (negb (hw_cqs =? 0));;
      let size := host_channel_size / hw_cqs in
      mret (if is_galaxy_cluster p then size / DEVICES_PER_UMD_CHANNEL else size)
  end.

(** The body of the constructor's loop for [cq_id]. *)
Definition add_cq (prefetch_q_base cq_start cq_id : Z) : M SystemMemoryManager unit :=
  s ← get;
  c ← lift (SystemMemoryCQInterface_new p channel cq_id (cq_size s) cq_start);
  modify (fun s => set_cq_interfaces (cq_interfaces s ++ [c]) s);;
  dc ← constants (num_hw_cqs s);
  size ← get_issue_queue_size cq_id;
  require Fatal (u32 (max_prefetch_command_size dc * u32 (prefetch_q_entries dc + 2)) <=? size);;
  modify (fun s => set_cq_events (cq_to_event s ++ [0]) (cq_to_last_completed_event s ++ [0]) s);;
  modify (fun s => set_dev_ptrs (update (prefetch_q_dev_ptrs s) cq_id prefetch_q_base) s);;
  dc ← constants (num_hw_cqs s);
  modify (fun s => set_dev_fences
    (update (prefetch_q_dev_fences s) cq_id (u32 (prefetch_q_base + prefetch_q_entries dc * sizeof_entry))) s).

Definition blank (st : dispatch_static) (hw_cqs : Z) (mem : Z -> Z) : SystemMemoryManager :=
  mkSM st hw_cqs 0 0 [] [] [] (replicate (Z.to_nat hw_cqs) 0) (replicate (Z.to_nat hw_cqs) 0) false [] 0 mem [].

Definition set_sizes (size offset : Z) (s : SystemMemoryManager) : SystemMemoryManager :=
  mkSM (consts s) (num_hw_cqs s) size offset (cq_interfaces s) (cq_to_event s) (cq_to_last_completed_event s)
    (prefetch_q_dev_ptrs s) (prefetch_q_dev_fences s) (bypass_enable s) (bypass_buffer s) (bypass_buffer_write_offset s) (sysmem s) (events s).

(** The constructor, run on [blank]. *)
Definition SystemMemoryManager_new (cq_size_override : option Z) (host_channel_size : Z) : M SystemMemoryManager unit :=
  s ← get;
  size ← lift (new_cq_size cq_size_override host_channel_size (num_hw_cqs s));
  modify (set_sizes size (channel_base channel));;
  device_addr COMPLETION_Q_RD;;
  prefetch_q_base ← device_addr UNRESERVED;
  constants 0;;
  mapM_ (add_cq prefetch_q_base (get_host_command_queue_addr p HOST_UNRESERVED)) (seqZ 0 (num_hw_cqs s)).

(** *** Events *)

Definition get_next_event (cq_id : Z) : M SystemMemoryManager Z :=
  e ← elem cq_to_event cq_id;
  require Undefined (e + 1 <? 2 ^ 31);;
  modify (fun s => set_cq_events (update (cq_to_event s) cq_id (e + 1)) (cq_to_last_completed_event s) s);;
  mret (u32 (e + 1)).

Definition reset_event_id (cq_id : Z) : M SystemMemoryManager unit :=
  elem cq_to_event cq_id;;
  modify (fun s => set_cq_events (update (cq_to_event s) cq_id 0) (cq_to_last_completed_event s) s).

Definition increment_event_id (cq_id val : Z) : M SystemMemoryManager unit :=
  e ← elem cq_to_event cq_id;
  modify (fun s => set_cq_events (update (cq_to_event s) cq_id (i32 (u32 e + val))) (cq_to_last_completed_event s) s).

Definition set_last_completed_event (cq_id event_id : Z) : M SystemMemoryManager unit :=
  e ← elem cq_to_last_completed_event cq_id;
  require Assert (u32 e <=? event_id);;
  modify (fun s => set_cq_events (cq_to_event s) (update (cq_to_last_completed_event s) cq_id (i32 event_id)) s).

Definition get_last_completed_event (cq_id : Z) : M SystemMemoryManager Z :=
  e ← elem cq_to_last_completed_event cq_id; mret (u32 e).

(** *** Queue control *)

Definition set_interface (cq_id : Z) (f : SystemMemoryCQInterface -> SystemMemoryCQInterface) : M SystemMemoryManager unit :=
  c ← elem cq_interfaces cq_id;
  modify (fun s => set_cq_interfaces (update (cq_interfaces s) cq_id (f c)) s).

Definition reset (cq_id : Z) : M SystemMemoryManager unit :=
  set_interface cq_id (fun c => set_completion_rd (issue_fifo_limit c) false (set_issue_wr (issue_start c) false c)).

Definition set_issue_queue_size (cq_id issue_queue_size : Z) : M SystemMemoryManager unit :=
  set_interface cq_id (fun c => set_issue_limits (Z.shiftr issue_queue_size 4)
    (Z.shiftr (u32 (u32 (cq_start c + cq_offset c) + issue_queue_size)) 4) c).

Definition set_bypass_mode (enable clear : bool) : M SystemMemoryManager unit :=
  modify (fun s => set_bypass enable (if clear then [] else bypass_buffer s) (if clear then 0 else bypass_buffer_write_offset s) s).

Definition wrap_issue_queue_wr_ptr (cq_id : Z) : M SystemMemoryManager unit :=
  s ← get;
  if bypass_enable s then mret tt
  else set_interface cq_id (fun c => set_issue_wr (issue_start c) (negb (issue_fifo_wr_toggle c)) c).

Definition wrap_completion_queue_rd_ptr (cq_id : Z) : M SystemMemoryManager unit :=
  set_interface cq_id (fun c => set_completion_rd (issue_fifo_limit c) (negb (completion_fifo_rd_toggle c)) c).

(** *** Issuing a command *)

(** [bypass_buffer.resize(words)], on the bytes. *)
Definition resize_words (buffer : list Z) (words : Z) : list Z := resize (Z.to_nat (4 * words)) 0 buffer.

Definition issue_queue_reserve (cmd_size_B cq_id : Z) : M SystemMemoryManager region :=
  s ← get;
  if bypass_enable s then
    let new_size := u32 (Z.of_nat (length (bypass_buffer s)) / 4 + cmd_size_B / 4) in
    modify (fun s => set_bypass true (resize_words (bypass_buffer s) new_size) (bypass_buffer_write_offset s) s);;
    mret (BypassBuffer (bypass_buffer_write_offset s))
  else
    issue_q_write_ptr ← get_issue_queue_write_ptr cq_id;
    command_issue_limit ← get_issue_queue_limit cq_id;
    when (command_issue_limit <? u32 (issue_q_write_ptr + align cmd_size_B (host_alignment p))) (wrap_issue_queue_wr_ptr cq_id);;
    issue_q_write_ptr ← get_issue_queue_write_ptr cq_id;
    mret (HostRegion (u32 (issue_q_write_ptr - channel_offset s))).

Definition cq_write (data : list Z) (write_ptr : Z) : M SystemMemoryManager unit :=
  s ← get;
  if bypass_enable s then
    require Undefined (write_ptr + Z.of_nat (length data) <=? Z.of_nat (length (bypass_buffer s)));;
    modify (fun s => set_bypass true (list_inserts (Z.to_nat write_ptr) data (bypass_buffer s)) (bypass_buffer_write_offset s) s)
  else
    mem ← lift (memcpy_to_device (u32 (write_ptr - channel_offset s)) data (sysmem s));
    modify (set_sysmem mem).

Definition issue_queue_push_back (push_size_B cq_id : Z) : M SystemMemoryManager unit :=
  s ← get;
  if bypass_enable s then
    modify (fun s => set_bypass true (bypass_buffer s) (u32 (bypass_buffer_write_offset s + push_size_B)) s)
  else
    let push_size_16B := Z.shiftr (align push_size_B (host_alignment p)) 4 in
    c ← elem cq_interfaces cq_id;
    constants 0;;
    set_interface cq_id (fun c =>
      if issue_fifo_limit c <=? u32 (issue_fifo_wr_ptr c + push_size_16B) then
        set_issue_wr (issue_start c) (negb (issue_fifo_wr_toggle c)) c
      else set_issue_wr (u32 (issue_fifo_wr_ptr c + push_size_16B)) (issue_fifo_wr_toggle c) c);;
    c ← elem cq_interfaces cq_id;
    modify (emit (SysmemWord (u32 (get_host_command_queue_addr p ISSUE_Q_WR + get_relative_cq_offset cq_id (cq_size s)))
      (issue_fifo_wr_ptr c))).

(** [wait_for_fetch_q_space]: each pass reads the device's read pointer once; [reads]
    lists what it reads, and the values not read are returned. *)
Fixpoint wait_for_fetch_q_space (cq_id : Z) (reads : list Z) : M SystemMemoryManager (list Z) :=
  ptr ← elem prefetch_q_dev_ptrs cq_id;
  fence ← elem prefetch_q_dev_fences cq_id;
  if ptr =? fence then
    match reads with
    | [] => fail OutOfFuel
    | fence :: reads =>
        modify (fun s => set_dev_fences (update (prefetch_q_dev_fences s) cq_id fence) s);;
        wait_for_fetch_q_space cq_id reads
    end
  else mret reads.

Definition fetch_queue_reserve_back (cq_id : Z) (reads : list Z) : M SystemMemoryManager (list Z) :=
  s ← get;
  if bypass_enable s then mret reads
  else
    device_addr PREFETCH_Q_RD;;
    reads ← wait_for_fetch_q_space cq_id reads;
    prefetch_q_base ← device_addr UNRESERVED;
    dc ← constants (num_hw_cqs s);
    let prefetch_q_limit := u32 (prefetch_q_base + prefetch_q_entries dc * sizeof_entry) in
    ptr ← elem prefetch_q_dev_ptrs cq_id;
    if ptr =? prefetch_q_limit then
      modify (fun s => set_dev_ptrs (update (prefetch_q_dev_ptrs s) cq_id prefetch_q_base) s);;
      wait_for_fetch_q_space cq_id reads
    else mret reads.

(** The entry: the size in words of 16 bytes, the most significant bit set to stall. *)
Definition fetch_entry (command_size_B : Z) (stall_prefetcher : bool) : Z :=
  let command_size_16B := Z.shiftr command_size_B PREFETCH_Q_LOG_MINSIZE mod 2 ^ 16 in
  if stall_prefetcher then Z.lor command_size_16B (Z.shiftl 1 (sizeof_entry * 8 - 1)) else command_size_16B.

Definition fetch_queue_write (command_size_B cq_id : Z) (stall_prefetcher : bool) : M SystemMemoryManager unit :=
  s ← get;
  dc ← constants (num_hw_cqs s);
  require Assert (command_size_B <=? max_prefetch_command_size dc);;
  require Assert (Z.shiftr command_size_B PREFETCH_Q_LOG_MINSIZE <? 65535);;
  if bypass_enable s then mret tt
  else
    ptr ← elem prefetch_q_dev_ptrs cq_id;
    modify (emit (FetchQueueEntry cq_id ptr (fetch_entry command_size_B stall_prefetcher)));;
    modify (fun s => set_dev_ptrs (update (prefetch_q_dev_ptrs s) cq_id (u32 (ptr + sizeof_entry))) s).

(** *** Completion queue *)

(** The polling loop; each pass reads the device's write pointer and [exit_condition]. *)
Fixpoint completion_queue_wait_front (cq_id : Z) (reads : list (Z * bool)) : M SystemMemoryManager Z :=
  match reads with
  | [] => fail OutOfFuel
  | (write_ptr_and_toggle, exit_condition) :: reads =>
      let write_ptr := Z.land write_ptr_and_toggle 0x7fffffff in
      let write_toggle := Z.shiftr write_ptr_and_toggle 31 in
      c ← elem cq_interfaces cq_id;
      if (completion_fifo_rd_ptr c =? write_ptr) && (Z.b2z (completion_fifo_rd_toggle c) =? write_toggle)
         && negb exit_condition
      then completion_queue_wait_front cq_id reads
      else mret write_ptr_and_toggle
  end.

Definition rd_ptr_and_toggle (c : SystemMemoryCQInterface) : Z :=
  u32 (Z.lor (completion_fifo_rd_ptr c) (Z.shiftl (Z.b2z (completion_fifo_rd_toggle c)) 31)).

Definition send_completion_queue_read_ptr (cq_id : Z) : M SystemMemoryManager unit :=
  c ← elem cq_interfaces cq_id;
  let read_ptr_and_toggle := rd_ptr_and_toggle c in
  modify (emit (CompletionReadPtr cq_id read_ptr_and_toggle));;
  constants 0;;
  modify (fun s => emit (SysmemWord
    (u32 (get_host_command_queue_addr p HOST_COMPLETION_Q_RD + get_relative_cq_offset cq_id (cq_size s))) read_ptr_and_toggle) s).

Definition pop_completion (num_pages_read : Z) (c : SystemMemoryCQInterface) : SystemMemoryCQInterface :=
  let data_read_16B := Z.shiftr (u32 (num_pages_read * TRANSFER_PAGE_SIZE)) 4 in
  let c := set_completion_rd (u32 (completion_fifo_rd_ptr c + data_read_16B)) (completion_fifo_rd_toggle c) c in
  if completion_fifo_limit c <=? completion_fifo_rd_ptr c then
    set_completion_rd (issue_fifo_limit c) (negb (completion_fifo_rd_toggle c)) c
  else c.

Definition completion_queue_pop_front (num_pages_read cq_id : Z) : M SystemMemoryManager unit :=
  set_interface cq_id (pop_completion num_pages_read);;
  send_completion_queue_read_ptr cq_id.

(** A command of [data], as the command queue issues it (EnqueueProgramCommand::process
    and the other commands): reserve the region, write it, push it, then enter it in
    the device's fetch queue. *)
Definition issue_command (data : list Z) (cq_id : Z) : M SystemMemoryManager unit :=
  let size := Z.of_nat (length data) in
  issue_queue_reserve size cq_id;;
  write_ptr ← get_issue_queue_write_ptr cq_id;
  cq_write data write_ptr;;
  issue_queue_push_back size cq_id.

Definition send_command (data : list Z) (cq_id : Z) (reads : list Z) (stall : bool) : M SystemMemoryManager (list Z) :=
  issue_command data cq_id;;
  reads ← fetch_queue_reserve_back cq_id reads;
  fetch_queue_write (Z.of_nat (length data)) cq_id stall;;
  mret reads.
End Manager.

(** ** LaunchMessageRingBufferState *)

Definition launch_msg_buffer_num_entries : Z := 4.

Record LaunchMessageRingBufferState := mkLaunch {
  multicast_cores_launch_message_wptr : Z;
  unicast_cores_launch_message_wptr : Z;
}.

Definition inc_mcast_wptr (inc_val : Z) : M LaunchMessageRingBufferState unit := modify (fun s =>
  mkLaunch (Z.land (u32 (multicast_cores_launch_message_wptr s + inc_val)) (launch_msg_buffer_num_entries - 1))
    (unicast_cores_launch_message_wptr s)).
Definition inc_unicast_wptr (inc_val : Z) : M LaunchMessageRingBufferState unit := modify (fun s =>
  mkLaunch (multicast_cores_launch_message_wptr s)
    (Z.land (u32 (unicast_cores_launch_message_wptr s + inc_val)) (launch_msg_buffer_num_entries - 1))).
Definition set_mcast_wptr (val : Z) : M LaunchMessageRingBufferState unit := modify (fun s =>
  mkLaunch (Z.land val (launch_msg_buffer_num_entries - 1)) (unicast_cores_launch_message_wptr s)).
Definition set_unicast_wptr (val : Z) : M LaunchMessageRingBufferState unit := modify (fun s =>
  mkLaunch (multicast_cores_launch_message_wptr s) (Z.land val (launch_msg_buffer_num_entries - 1))).
Definition launch_reset : M LaunchMessageRingBufferState unit := put (mkLaunch 0 0).
