(* ===== verification/IssueRing.v ===== *)
(** * The geometry of the issue region

    Where consecutive commands land in a region [start, limit): each at the running
    pointer, or at the start when it would cross the limit.  Host and device each
    compute it from their own pointer; the lemmas say that a window of commands that
    leaves a maximal command's room free wraps at most once, and that the next
    command does not touch any of the window. *)

From S2P Require Import Prelude.

Section Ring.
Context (start limit : Z).

Definition place (ptr size : Z) : Z := if limit <? ptr + size then start else ptr.
Definition advance (ptr size : Z) : Z := place ptr size + size.

(** The pointer after the commands, and each command's address and size. *)
Definition end_ptr (ptr : Z) (sizes : list Z) : Z := fold_left advance sizes ptr.
Fixpoint places (ptr : Z) (sizes : list Z) : list (Z * Z) :=
  match sizes with
  | [] => []
  | s :: sizes => (place ptr s, s) :: places (advance ptr s) sizes
  end.

(** The host keeps [start] where the device's pointer is at the limit. *)
Definition norm (ptr : Z) : Z := if ptr =? limit then start else ptr.

Fixpoint total (sizes : list Z) : Z := match sizes with [] => 0 | s :: sizes => s + total sizes end.

Lemma total_app l1 l2 : total (l1 ++ l2) = total l1 + total l2.
Proof. induction l1; cbn in *; lia. Qed.

Lemma total_bound m sizes : Forall (fun s => 0 < s <= m) sizes -> 0 <= total sizes <= m * Z.of_nat (length sizes).
Proof. induction 1; cbn in *; lia. Qed.

Lemma end_ptr_app ptr l1 l2 : end_ptr ptr (l1 ++ l2) = end_ptr (end_ptr ptr l1) l2.
Proof. apply fold_left_app. Qed.

Lemma places_app ptr l1 l2 : places ptr (l1 ++ l2) = places ptr l1 ++ places (end_ptr ptr l1) l2.
Proof. revert ptr; induction l1; intros; cbn; [done|]. by rewrite IHl1. Qed.

Lemma places_lookup ptr sizes i s :
  sizes !! i = Some s -> places ptr sizes !! i = Some (place (end_ptr ptr (take i sizes)) s, s).
Proof.
  revert ptr i; induction sizes as [|s' sizes IH]; intros ptr i H; [done|].
  destruct i; cbn in *; [by injection H as ->|]. by apply IH.
Qed.

(** The pointer stays in the region. *)
Lemma end_ptr_range ptr sizes :
  start <= ptr <= limit -> Forall (fun s => 0 < s <= limit - start) sizes -> start <= end_ptr ptr sizes <= limit.
Proof.
  intros Hp H. revert ptr Hp; induction H; intros ptr Hp; cbn; [done|].
  apply IHForall. unfold advance, place. destruct (Z.ltb_spec limit (ptr + x)); lia.
Qed.

(** Host and device place the next command at the same address. *)
Lemma place_norm ptr s : 0 < s <= limit - start -> place (norm ptr) s = place ptr s.
Proof.
  intros Hs. unfold place, norm. destruct (Z.eqb_spec ptr limit) as [->|]; [|done].
  rewrite (proj2 (Z.ltb_ge _ _)), (proj2 (Z.ltb_lt _ _)) by lia. done.
Qed.

Lemma norm_range ptr : start < limit -> start <= ptr <= limit -> start <= norm ptr < limit.
Proof. unfold norm. destruct (Z.eqb_spec ptr limit); lia. Qed.

Context (m : Z) (Hroom : 0 < m <= limit - start).

(** The window [sizes] starting at [ptr] has not wrapped, or has wrapped once at [x]. *)
Definition straight (ptr : Z) (sizes : list Z) : Prop :=
  end_ptr ptr sizes = ptr + total sizes /\ end_ptr ptr sizes <= limit /\
  Forall (fun b => ptr <= b.1 /\ b.1 + b.2 <= end_ptr ptr sizes) (places ptr sizes).

Definition wrapped (ptr : Z) (sizes : list Z) : Prop := exists x,
  ptr <= x <= limit /\ limit - m < x /\ end_ptr ptr sizes = start + (total sizes - (x - ptr)) /\
  start <= end_ptr ptr sizes /\
  Forall (fun b => ptr <= b.1 /\ b.1 + b.2 <= x \/ start <= b.1 /\ b.1 + b.2 <= end_ptr ptr sizes) (places ptr sizes).

(** A block that lies apart from every block of the window. *)
Definition apart (b s : Z) (blocks : list (Z * Z)) : Prop := Forall (fun c => b + s <= c.1 \/ c.1 + c.2 <= b) blocks.

Lemma straight_snoc ptr sizes s :
  0 < s <= m -> 0 <= total sizes -> straight ptr sizes -> start <= ptr -> total sizes + s <= limit - start - m ->
  (straight ptr (sizes ++ [s]) \/ wrapped ptr (sizes ++ [s])) /\ apart (place (end_ptr ptr sizes) s) s (places ptr sizes).
Proof.
  intros Hs H0 (He & Hle & Hb) Hp Ht. unfold straight, wrapped, apart.
  rewrite end_ptr_app, places_app, total_app. cbn.
  unfold advance, place. destruct (Z.ltb_spec limit (end_ptr ptr sizes + s)); (split;
    [|eapply Forall_impl; [exact Hb|]; cbn; intros; lia]).
  - right. exists (end_ptr ptr sizes). rewrite Forall_app, Forall_singleton. cbn.
    repeat split; try lia. eapply Forall_impl; [exact Hb|]. cbn. intros; lia.
  - left. rewrite Forall_app, Forall_singleton. cbn.
    repeat split; try lia. eapply Forall_impl; [exact Hb|]. cbn. intros; lia.
Qed.

Lemma wrapped_snoc ptr sizes s :
  0 < s <= m -> wrapped ptr sizes -> start <= ptr -> total sizes + s <= limit - start - m ->
  wrapped ptr (sizes ++ [s]) /\ apart (place (end_ptr ptr sizes) s) s (places ptr sizes).
Proof.
  intros Hs (x & Hx & Hxm & He & He0 & Hb) Hp Ht. unfold wrapped, apart.
  rewrite end_ptr_app, places_app, total_app. cbn.
  unfold advance, place. rewrite (proj2 (Z.ltb_ge _ _)) by lia. split.
  - exists x. rewrite Forall_app, Forall_singleton. cbn. repeat split; try lia.
    eapply Forall_impl; [exact Hb|]. cbn. intros; lia.
  - eapply Forall_impl; [exact Hb|]. cbn. intros; lia.
Qed.

Lemma window ptr sizes :
  start <= ptr <= limit -> Forall (fun s => 0 < s <= m) sizes -> total sizes <= limit - start - m ->
  straight ptr sizes \/ wrapped ptr sizes.
Proof.
  intros Hp. induction sizes as [|s sizes IH] using rev_ind; intros H Ht.
  - left. unfold straight. cbn. repeat split; [lia..|constructor].
  - rewrite Forall_app, Forall_singleton in H. destruct H as [H Hs]. rewrite total_app in Ht. cbn in Ht.
    pose proof (total_bound m sizes H).
    destruct IH as [IH|IH]; [done|lia| |].
    + apply straight_snoc; try done; lia.
    + right. apply wrapped_snoc; try done; lia.
Qed.

(** The next command lies apart from the window. *)
Lemma next_apart ptr sizes s :
  start <= ptr <= limit -> Forall (fun s => 0 < s <= m) sizes -> 0 < s <= m -> total sizes + s <= limit - start - m ->
  apart (place (end_ptr ptr sizes) s) s (places ptr sizes).
Proof.
  intros Hp H Hs Ht. pose proof (total_bound m sizes H).
  destruct (window ptr sizes) as [W|W]; try done; try lia.
  - apply straight_snoc; try done; lia.
  - apply wrapped_snoc; try done; lia.
Qed.

(** The same for the commands of the window by their positions: [before] is no longer in use. *)
Lemma next_apart_nth before sizes s i t :
  Forall (fun s => 0 < s <= m) before -> Forall (fun s => 0 < s <= m) sizes -> 0 < s <= m ->
  total sizes + s <= limit - start - m -> sizes !! i = Some t ->
  let b := place (end_ptr start (before ++ sizes)) s in
  let c := place (end_ptr start (before ++ take i sizes)) t in
  b + s <= c \/ c + t <= b.
Proof.
  intros Hb H Hs Ht Hi b c. unfold b, c. rewrite !end_ptr_app.
  assert (Hr : start <= end_ptr start before <= limit).
  { apply end_ptr_range; [lia|]. eapply Forall_impl; [exact Hb|]. cbn. lia. }
  pose proof (next_apart _ _ _ Hr H Hs Ht) as A. unfold apart in A. rewrite Forall_lookup in A.
  apply (A i (_, t)). by apply places_lookup.
Qed.
End Ring.
