(* ===== verification/SystemMemoryOps.v ===== *)
(** * Command queues in host memory: what each operation does

    Lemmas that give the result of the operations of SystemMemory on the memory, the
    pointers and the log, on a queue whose constants are settled. *)

From Stdlib Require Import Lia.
From S2P Require Import Prelude Memory ConfigBuffer SystemMemory IssueRing.

(** ** memcpy_to_device *)

(** [c] bytes have been copied. *)
Definition copied (dst : Z) (src : list Z) (mem0 : Z -> Z) (c : nat) (s : Z * list Z * (Z -> Z)) : Prop :=
  s.1.1 = dst + Z.of_nat c /\ s.1.2 = drop c src /\ forall x, s.2 x = write_mem dst (take c src) mem0 x.

Lemma copied_more dst src mem0 c w dst8 src8 mem :
  copied dst src mem0 c (dst8, src8, mem) -> (c + w <= length src)%nat ->
  copied dst src mem0 (c + w) (dst8 + Z.of_nat w, drop w src8, write_mem dst8 (take w src8) mem).
Proof.
  unfold copied. cbn. intros (-> & -> & Hm) H. split; [lia|]. split; [apply drop_drop|].
  intros x. rewrite <- take_take_drop, write_mem_app, length_take, Nat.min_l by lia. by apply write_mem_ext.
Qed.

Lemma copied_blocks dst src mem0 c k width s :
  copied dst src mem0 c s -> (c + k * width <= length src)%nat ->
  copied dst src mem0 (c + k * width) (copy_blocks k width s.1.1 s.1.2 s.2).
Proof.
  revert c s; induction k as [|k IH]; intros c [[d l] m] Hc H; cbn.
  - by rewrite Nat.add_0_r.
  - replace (c + (width + k * width))%nat with (c + width + k * width)%nat by lia.
    apply (IH _ (_, _, _)); [|lia]. apply copied_more; [done|lia].
Qed.

(** What [memcpy_to_device] writes: the bytes, and zeros up to a multiple of four. *)
Definition padded (src : list Z) : list Z := src ++ replicate ((4 - length src mod 4) mod 4) 0.

Lemma memcpy_to_device_ok dst src mem :
  dst mod 16 = 0 -> exists mem', memcpy_to_device dst src mem = Ok mem' /\ forall x, mem' x = write_mem dst (padded src) mem x.
Proof.
  intros Ha. unfold memcpy_to_device. rewrite Ha. cbn [Z.eqb check mbind res_bind mret res_ret].
  set (n0 := length src).
  assert (C0 : copied dst src mem 0 (dst, src, mem)).
  { unfold copied. cbn. split; [lia|]. split; [done|]. intros x. by rewrite write_mem_nil. }
  pose proof (Nat.div_mod_eq n0 256). pose proof (Nat.mod_upper_bound n0 256 ltac:(done)).
  apply copied_blocks with (k := (n0 / 256 * 8)%nat) (width := 32%nat) in C0; [cbn [fst snd] in C0|lia].
  destruct (copy_blocks (n0 / 256 * 8) 32 dst src mem) as [[d1 l1] m1].
  set (n1 := (n0 - n0 / 256 * 256)%nat). pose proof (Nat.div_mod_eq n1 32). pose proof (Nat.mod_upper_bound n1 32 ltac:(done)).
  apply copied_blocks with (k := (n1 / 32)%nat) (width := 32%nat) in C0; [cbn [fst snd] in C0|unfold n0 in *; lia].
  destruct (copy_blocks (n1 / 32) 32 d1 l1 m1) as [[d2 l2] m2].
  set (n2 := (n1 - n1 / 32 * 32)%nat). pose proof (Nat.div_mod_eq n2 16). pose proof (Nat.mod_upper_bound n2 16 ltac:(done)).
  apply copied_blocks with (k := (n2 / 16)%nat) (width := 16%nat) in C0; [cbn [fst snd] in C0|unfold n0 in *; lia].
  destruct (copy_blocks (n2 / 16) 16 d2 l2 m2) as [[d3 l3] m3].
  set (n3 := (n2 - n2 / 16 * 16)%nat). pose proof (Nat.div_mod_eq n3 4). pose proof (Nat.mod_upper_bound n3 4 ltac:(done)).
  apply copied_blocks with (k := (n3 / 4)%nat) (width := 4%nat) in C0; [cbn [fst snd] in C0|unfold n0 in *; lia].
  destruct (copy_blocks (n3 / 4) 4 d3 l3 m3) as [[d4 l4] m4].
  destruct C0 as (Hd & Hl & Hm). cbn [fst snd] in *.
  set (c := (0 + n0 / 256 * 8 * 32 + n1 / 32 * 32 + n2 / 16 * 16 + n3 / 4 * 4)%nat) in *.
  set (r := (n3 - n3 / 4 * 4)%nat). assert (Hc : (c + r = n0)%nat) by lia.
  assert (Hr : (r < 4)%nat) by lia.
  assert (Hmod : (n0 mod 4 = r)%nat).
  { replace n0 with (r + (n0 / 256 * 64 + n1 / 32 * 8 + n2 / 16 * 4 + n3 / 4) * 4)%nat by lia.
    rewrite Nat.Div0.mod_add. by apply Nat.mod_small. }
  unfold padded. fold n0. rewrite Hmod.
  replace (src ++ _) with (take c src ++ drop c src ++ replicate ((4 - r) mod 4) 0) by (by rewrite app_assoc, take_drop).
  destruct r as [|r'] eqn:Er.
  - exists m4. split; [done|]. intros x. rewrite Hm. rewrite drop_ge by (unfold n0 in *; lia). by rewrite app_nil_r.
  - eexists. split; [done|]. intros x. rewrite Hd, Hl. rewrite take_ge by (rewrite length_drop; unfold n0 in *; lia).
    rewrite (write_mem_app dst (take c src)), length_take, Nat.min_l by (unfold n0 in *; lia).
    rewrite (Nat.mod_small (4 - S r') 4) by lia. by apply write_mem_ext.
Qed.

Lemma padded_whole src : (length src mod 4 = 0)%nat -> padded src = src.
Proof. intros H. unfold padded. rewrite H. apply app_nil_r. Qed.

(** ** The constants in force *)

Definition settled (core_type : CoreType) (dc : dispatch_constants) (h : SystemMemoryManager) : Prop :=
  consts h = mkStatic (num_hw_cqs h) core_type (Some dc) /\ 0 < num_hw_cqs h.

Lemma constants_settled p core_type dc h cqs :
  settled core_type dc h -> cqs = 0 \/ cqs = num_hw_cqs h -> constants p core_type cqs h = (h, Ok dc).
Proof.
  intros [Hc Hn] Hcqs. unfold constants, zoom, dispatch_constants_get. rewrite Hc.
  unfold mbind, M_bind, get. cbn [hw_cqs last_core_type inst].
  rewrite !bool_decide_eq_false_2 by congruence. rewrite !orb_false_r.
  unfold when. replace (_ && _) with false.
  2:{ destruct Hcqs as [->| ->]; [done|]. rewrite Z.eqb_refl. by rewrite andb_false_r. }
  cbn. unfold require. rewrite (proj2 (Z.ltb_lt _ _)) by done. cbn. rewrite <- Hc. by destruct h.
Qed.

Lemma device_addr_settled p core_type dc h t v :
  settled core_type dc h -> device_cq_addrs dc !! Z.to_nat (device_addr_index t) = Some v ->
  device_addr p core_type t h = (h, Ok v).
Proof.
  intros Hs Hv. unfold device_addr. erewrite M_bind_ok by (apply constants_settled; eauto).
  unfold lift, get_device_command_queue_addr, check, at_. rewrite Hv.
  apply lookup_lt_Some in Hv. destruct (Z.ltb_spec (device_addr_index t) (Z.of_nat (length (device_cq_addrs dc)))); [done|].
  destruct t; cbn in *; lia.
Qed.

Lemma elem_ok {A} (f : SystemMemoryManager -> list A) i h x : f h !! Z.to_nat i = Some x -> elem f i h = (h, Ok x).
Proof. intros H. unfold elem, mbind, M_bind, get, lift, at_. by rewrite H. Qed.

(** ** Alignment *)

Lemma align_id k n : 0 <= k < 32 -> 0 < n < 2 ^ 32 -> n mod 2 ^ k = 0 -> align n (2 ^ k) = n.
Proof.
  intros Hk Hn Hm. unfold align.
  assert (0 < 2 ^ k < 2 ^ 32) by (split; [apply Z.pow_pos_nonneg|apply Z.pow_lt_mono_r]; lia).
  rewrite (u32_small (n - 1)), (u32_small (2 ^ k - 1)) by lia.
  assert (E : 2 ^ k - 1 = Z.land (n - 1) (2 ^ k - 1)).
  { replace (2 ^ k - 1) with (Z.ones k) by (rewrite Z.ones_equiv; lia).
    rewrite Z.land_ones by lia. rewrite Z.ones_equiv.
    apply Z.mod_unique_pos with (q := n / 2 ^ k - 1); [lia|].
    pose proof (Z.div_mod n (2 ^ k) ltac:(lia)). lia. }
  assert (L : Z.lor (n - 1) (2 ^ k - 1) = n - 1).
  { rewrite E. apply Z.bits_inj. intros i. rewrite Z.lor_spec, Z.land_spec. by destruct (Z.testbit (n - 1) i), (Z.testbit (2 ^ k - 1) i). }
  rewrite L, u32_small; lia.
Qed.

(** ** The issue region *)

(** The byte addresses of a queue's issue region and of its write pointer. *)
Definition interface_at (start limit w : Z) (c : SystemMemoryCQInterface) : Prop :=
  issue_start c * 16 = start /\ issue_fifo_limit c * 16 = limit /\ issue_fifo_wr_ptr c * 16 = w.

Lemma shl4 x y : x * 16 = y -> 0 <= y < 2 ^ 32 -> u32 (Z.shiftl x 4) = y.
Proof. intros <- H. rewrite Z.shiftl_mul_pow2 by lia. change (2 ^ 4) with 16. by apply u32_small. Qed.

Lemma shr4 n : n mod 16 = 0 -> Z.shiftr n 4 * 16 = n.
Proof. intros H. rewrite Z.shiftr_div_pow2 by lia. change (2 ^ 4) with 16. pose proof (Z.div_mod n 16 ltac:(lia)). lia. Qed.

Lemma mod_pow_mod j k n : 0 <= j <= k -> n mod 2 ^ k = 0 -> n mod 2 ^ j = 0.
Proof.
  intros Hj H. assert (0 < 2 ^ j /\ 0 < 2 ^ k) as [? ?] by (split; apply Z.pow_pos_nonneg; lia).
  apply Z.mod_divide; [lia|]. apply Z.divide_trans with (2 ^ k); [|apply Z.mod_divide; [lia|done]].
  exists (2 ^ (k - j)). rewrite <- Z.pow_add_r by lia. f_equal. lia.
Qed.

Section Issue.
Context (p : Platform) (core_type : CoreType) (dc : dispatch_constants) (cq start limit k : Z).
Context (Hk : host_alignment p = 2 ^ k /\ 4 <= k < 32).
Context (Hrange : 0 <= start < limit /\ limit < 2 ^ 32).

Lemma get_write_ptr_ok h c w :
  bypass_enable h = false -> cq_interfaces h !! Z.to_nat cq = Some c -> interface_at start limit w c -> start <= w < limit ->
  get_issue_queue_write_ptr cq h = (h, Ok w).
Proof.
  intros Hb Hc (Hs & Hl & Hw) Hr. unfold get_issue_queue_write_ptr, mbind, M_bind, get. rewrite Hb.
  rewrite (elem_ok _ _ _ _ Hc). unfold mret, M_ret. by rewrite (shl4 _ w) by lia.
Qed.

Lemma set_interface_ok h c f :
  cq_interfaces h !! Z.to_nat cq = Some c ->
  set_interface cq f h = (set_cq_interfaces (update (cq_interfaces h) cq (f c)) h, Ok tt).
Proof. intros H. unfold set_interface. by erewrite M_bind_ok by (by apply elem_ok). Qed.

(** The room a command of [n] bytes is given. *)
Lemma issue_queue_reserve_ok h c w n :
  bypass_enable h = false -> cq_interfaces h !! Z.to_nat cq = Some c -> interface_at start limit w c -> start <= w < limit ->
  0 < n -> w + n < 2 ^ 32 -> n mod 2 ^ k = 0 ->
  exists c', interface_at start limit (place start limit w n) c' /\
  issue_queue_reserve p n cq h =
    (set_cq_interfaces (update (cq_interfaces h) cq c') h, Ok (HostRegion (u32 (place start limit w n - channel_offset h)))).
Proof.
  intros Hb Hc Hi Hr Hn Hn' Hm. pose proof Hi as (Hs & Hl & Hw). unfold issue_queue_reserve.
  erewrite M_bind_ok by reflexivity. rewrite Hb.
  erewrite M_bind_ok by (by eapply get_write_ptr_ok).
  assert (Hlim : get_issue_queue_limit cq h = (h, Ok limit)).
  { unfold get_issue_queue_limit. erewrite M_bind_ok by (by apply elem_ok). unfold mret, M_ret. by rewrite (shl4 _ limit) by lia. }
  erewrite M_bind_ok by exact Hlim.
  rewrite (proj1 Hk), align_id by lia. rewrite u32_small by lia. unfold place.
  destruct (Z.ltb_spec limit (w + n)).
  - set (c' := set_issue_wr (issue_start c) (negb (issue_fifo_wr_toggle c)) c).
    assert (Hi' : interface_at start limit start c') by (unfold interface_at, c'; cbn; done).
    exists c'. split; [done|]. unfold when.
    assert (Hwrap : wrap_issue_queue_wr_ptr cq h = (set_cq_interfaces (update (cq_interfaces h) cq c') h, Ok tt)).
    { unfold wrap_issue_queue_wr_ptr. erewrite M_bind_ok by reflexivity. rewrite Hb. exact (set_interface_ok _ c _ Hc). }
    erewrite M_bind_ok by exact Hwrap.
    erewrite M_bind_ok by (eapply get_write_ptr_ok; [done|by eapply update_eq|done|lia]). done.
  - exists c. split; [done|]. unfold when. erewrite M_bind_ok by reflexivity.
    erewrite M_bind_ok by (by eapply get_write_ptr_ok).
    rewrite update_id by done. by destruct h.
Qed.

Lemma cq_write_ok h data w :
  bypass_enable h = false -> channel_offset h <= w < 2 ^ 32 -> 0 <= channel_offset h -> (w - channel_offset h) mod 16 = 0 ->
  exists mem, cq_write data w h = (set_sysmem mem h, Ok tt) /\
  forall x, mem x = write_mem (w - channel_offset h) (padded data) (sysmem h) x.
Proof.
  intros Hb Hw H0 Hm. unfold cq_write. destruct (memcpy_to_device_ok (w - channel_offset h) data (sysmem h) Hm) as (mem & Hc & Hx).
  exists mem. split; [|done]. erewrite M_bind_ok by reflexivity. rewrite Hb, u32_small by lia.
  by erewrite M_bind_ok by (unfold lift; rewrite Hc; reflexivity).
Qed.

Lemma issue_queue_push_back_ok h c w n :
  bypass_enable h = false -> settled core_type dc h ->
  cq_interfaces h !! Z.to_nat cq = Some c -> interface_at start limit w c -> start <= w < limit ->
  0 < n -> w + n <= limit -> n mod 2 ^ k = 0 ->
  exists c' e, interface_at start limit (norm start limit (w + n)) c' /\
  issue_queue_push_back p core_type n cq h =
    (emit (SysmemWord e (issue_fifo_wr_ptr c')) (set_cq_interfaces (update (cq_interfaces h) cq c') h), Ok tt).
Proof.
  intros Hb Hst Hc Hi Hr Hn Hn' Hm. pose proof Hi as (Hs & Hl & Hw). unfold issue_queue_push_back.
  erewrite M_bind_ok by reflexivity. rewrite Hb.
  rewrite (proj1 Hk), align_id by lia.
  assert (H16 : n mod 16 = 0).
  { apply (mod_pow_mod 4 k); [lia|done]. }
  pose proof (shr4 n H16) as Hn16. set (n16 := Z.shiftr n 4) in *.
  erewrite M_bind_ok by (by apply elem_ok).
  erewrite M_bind_ok by (by eapply constants_settled; eauto).
  erewrite M_bind_ok by exact (set_interface_ok _ c _ Hc).
  cbv beta. set (c' := if issue_fifo_limit c <=? u32 (issue_fifo_wr_ptr c + n16)
    then set_issue_wr (issue_start c) (negb (issue_fifo_wr_toggle c)) c
    else set_issue_wr (u32 (issue_fifo_wr_ptr c + n16)) (issue_fifo_wr_toggle c) c).
  assert (Hi' : interface_at start limit (norm start limit (w + n)) c').
  { unfold interface_at, c', norm. rewrite u32_small by lia.
    destruct (Z.leb_spec (issue_fifo_limit c) (issue_fifo_wr_ptr c + n16)), (Z.eqb_spec (w + n) limit); cbn; unfold issue_start in *; cbn; repeat split; lia. }
  exists c'. eexists. split; [done|].
  erewrite M_bind_ok by (apply elem_ok; exact (update_eq _ _ _ c' Hc)). reflexivity.
Qed.

(** A command of [data] issued: the bytes are at the place the ring gives them, the
    write pointer is past them, and nothing else of the host's memory has changed. *)
Lemma issue_command_ok h c w data :
  let n := Z.of_nat (length data) in
  bypass_enable h = false -> settled core_type dc h ->
  cq_interfaces h !! Z.to_nat cq = Some c -> interface_at start limit w c -> start <= w < limit ->
  0 < n -> n <= limit - start -> w + n < 2 ^ 32 -> n mod 2 ^ k = 0 ->
  0 <= channel_offset h <= start -> (start - channel_offset h) mod 16 = 0 ->
  exists c' e mem, interface_at start limit (norm start limit (advance start limit w n)) c' /\
  (forall x, mem x = write_mem (place start limit w n - channel_offset h) data (sysmem h) x) /\
  issue_command p core_type data cq h =
    (emit e (set_sysmem mem (set_cq_interfaces (update (cq_interfaces h) cq c') h)), Ok tt).
Proof.
  intros n Hb Hst Hc Hi Hr Hn Hnl Hn' Hm Hoff H16. unfold issue_command. fold n.
  destruct (issue_queue_reserve_ok h c w n) as (c1 & Hi1 & Hres); try done.
  erewrite M_bind_ok by exact Hres. set (h1 := set_cq_interfaces _ h) in *.
  assert (Hc1 : cq_interfaces h1 !! Z.to_nat cq = Some c1) by (by eapply update_eq).
  assert (Hp : start <= place start limit w n /\ place start limit w n + n <= limit).
  { unfold place. destruct (Z.ltb_spec limit (w + n)); lia. }
  erewrite M_bind_ok by (eapply get_write_ptr_ok; [done|done|done|lia]).
  assert (Hw16 : (place start limit w n - channel_offset h1) mod 16 = 0).
  { destruct Hi1 as (Hs1 & _ & Hw1). change (channel_offset h1) with (channel_offset h). rewrite <- Hw1.
    rewrite <- Hs1 in H16. replace (_ - _) with ((issue_start c1 * 16 - channel_offset h) + (issue_fifo_wr_ptr c1 - issue_start c1) * 16) by lia.
    by rewrite Z.mod_add by lia. }
  destruct (cq_write_ok h1 data (place start limit w n)) as (mem & Hcw & Hmem); try done; [cbn; lia|cbn; lia|].
  erewrite M_bind_ok by exact Hcw.
  destruct (issue_queue_push_back_ok (set_sysmem mem h1) c1 (place start limit w n) n) as (c2 & e & Hi2 & Hpush); try done; try lia.
  exists c2. eexists. exists mem. split; [exact Hi2|]. split.
  - intros x. rewrite Hmem, padded_whole; [done|]. apply Nat2Z.inj. rewrite Nat2Z.inj_mod.
    by apply (mod_pow_mod 2 k); [lia|].
  - rewrite Hpush. cbn. rewrite update_same. done.
Qed.
End Issue.

(** ** The fetch queue *)

Definition with_fetch (cq ptr fence : Z) (h : SystemMemoryManager) : SystemMemoryManager :=
  set_dev_ptrs (update (prefetch_q_dev_ptrs h) cq ptr) (set_dev_fences (update (prefetch_q_dev_fences h) cq fence) h).

Lemma with_fetch_id cq ptr f h :
  prefetch_q_dev_ptrs h !! Z.to_nat cq = Some ptr -> prefetch_q_dev_fences h !! Z.to_nat cq = Some f ->
  with_fetch cq ptr f h = h.
Proof. intros Hp Hf. unfold with_fetch. rewrite !update_id by done. by destruct h. Qed.

(** The last of [used], or [f] when nothing was read. *)
Definition last_read (f : Z) (used : list Z) : Z := default f (last used).

Lemma last_read_cons f v used : last_read f (v :: used) = last_read v used.
Proof. unfold last_read. rewrite last_cons. by destruct (last used). Qed.

Lemma last_read_app f l1 l2 : last_read f (l1 ++ l2) = last_read (last_read f l1) l2.
Proof. revert f; induction l1 as [|v l1 IH]; intros f; [done|]. cbn [app]. rewrite !last_read_cons. apply IH. Qed.

Section Fetch.
Context (cq : Z).

(** The wait ends when a value read from the device differs from the pointer. *)
Lemma wait_inv h ptr f reads h' rest :
  prefetch_q_dev_ptrs h !! Z.to_nat cq = Some ptr -> prefetch_q_dev_fences h !! Z.to_nat cq = Some f ->
  wait_for_fetch_q_space cq reads h = (h', Ok rest) ->
  exists used, reads = used ++ rest /\ ptr <> last_read f used /\ h' = with_fetch cq ptr (last_read f used) h.
Proof.
  revert h f; induction reads as [|v reads IH]; intros h f Hp Hf; cbn [wait_for_fetch_q_space];
    erewrite M_bind_ok by (by apply elem_ok); erewrite M_bind_ok by (by apply elem_ok); destruct (Z.eqb_spec ptr f).
  - done.
  - intros [= <- <-]. exists []. by rewrite with_fetch_id.
  - erewrite M_bind_ok by reflexivity. intros H.
    apply (IH _ v) in H as (used & -> & Hne & ->); [|done|by eapply update_eq].
    exists (v :: used). rewrite last_read_cons. split; [done|]. split; [done|].
    unfold with_fetch. cbn. by rewrite update_same.
  - intros [= <- <-]. exists []. by rewrite with_fetch_id.
Qed.

Context (p : Platform) (core_type : CoreType) (dc : dispatch_constants) (base : Z).
Context (Haddr : device_cq_addrs dc !! 8%nat = Some base) (Hlen : (length (device_cq_addrs dc) = 9)%nat).

Definition queue_limit : Z := u32 (base + prefetch_q_entries dc * sizeof_entry).

Lemma reserve_back_inv h ptr f reads h' rest :
  bypass_enable h = false -> settled core_type dc h ->
  prefetch_q_dev_ptrs h !! Z.to_nat cq = Some ptr -> prefetch_q_dev_fences h !! Z.to_nat cq = Some f ->
  fetch_queue_reserve_back p core_type cq reads h = (h', Ok rest) ->
  exists used1 used2, reads = used1 ++ used2 ++ rest /\ ptr <> last_read f used1 /\
  (ptr = queue_limit -> base <> last_read f (used1 ++ used2)) /\ (ptr <> queue_limit -> used2 = []) /\
  h' = with_fetch cq (if ptr =? queue_limit then base else ptr) (last_read f (used1 ++ used2)) h.
Proof.
  intros Hb Hst Hp Hf. unfold fetch_queue_reserve_back. erewrite M_bind_ok by reflexivity. rewrite Hb.
  destruct (lookup_lt_is_Some_2 (device_cq_addrs dc) 0) as [a0 Ha0]; [lia|].
  erewrite M_bind_ok by (by eapply device_addr_settled).
  intros H. apply M_bind_inv in H as (h1 & rest1 & Hw & H).
  apply (wait_inv _ _ _ _ _ _ Hp Hf) in Hw as (used1 & -> & Hne & ->).
  set (h1 := with_fetch _ _ _ _) in H.
  assert (Hst1 : settled core_type dc h1) by done.
  assert (Hp1 : prefetch_q_dev_ptrs h1 !! Z.to_nat cq = Some ptr) by (by eapply update_eq).
  assert (Hf1 : prefetch_q_dev_fences h1 !! Z.to_nat cq = Some (last_read f used1)) by (by eapply update_eq).
  erewrite M_bind_ok in H by (by eapply device_addr_settled).
  erewrite M_bind_ok in H by (eapply constants_settled; [done|by right]).
  erewrite M_bind_ok in H by (by apply elem_ok). fold queue_limit in H.
  destruct (Z.eqb_spec ptr queue_limit) as [E|E].
  - erewrite M_bind_ok in H by reflexivity.
    apply (wait_inv _ base (last_read f used1)) in H as (used2 & -> & Hne2 & ->); [|by eapply update_eq|done].
    exists used1, used2. rewrite last_read_app. repeat split; try done.
    unfold with_fetch, h1. cbn. by rewrite !update_same.
  - injection H as <- <-. exists used1, []. rewrite app_nil_r. done.
Qed.

Lemma fetch_queue_write_ok h ptr n stall :
  bypass_enable h = false -> settled core_type dc h -> prefetch_q_dev_ptrs h !! Z.to_nat cq = Some ptr ->
  n <= max_prefetch_command_size dc -> n < 65535 * 16 ->
  fetch_queue_write p core_type n cq stall h =
    (set_dev_ptrs (update (prefetch_q_dev_ptrs h) cq (u32 (ptr + sizeof_entry)))
      (emit (FetchQueueEntry cq ptr (fetch_entry n stall)) h), Ok tt).
Proof.
  intros Hb Hst Hp Hn Hn'. unfold fetch_queue_write. erewrite M_bind_ok by reflexivity.
  erewrite M_bind_ok by (eapply constants_settled; [done|by right]).
  erewrite M_bind_ok by (apply require_true; by apply Z.leb_le).
  erewrite M_bind_ok.
  2:{ apply require_true, Z.ltb_lt. unfold PREFETCH_Q_LOG_MINSIZE. rewrite Z.shiftr_div_pow2 by lia.
      apply Z.div_lt_upper_bound; lia. }
  rewrite Hb. erewrite M_bind_ok by (by apply elem_ok). erewrite M_bind_ok by reflexivity. done.
Qed.
End Fetch.
