(* ===== verification/Prefetcher.v ===== *)
(** * The prefetcher
    (tt_metal/impl/dispatch/kernels/cq_prefetch.cpp, cq_common.hpp)

    The kernel that reads the fetch queue, copies commands from host memory over PCIe
    into its command-data queue and relays them downstream ([kernel_main_h]).  The
    fetch queue is written by the host while the kernel runs, and a read over the NoC
    only lands at the next barrier, so [fetch_q_get_cmds] is split where it looks at
    the queue again or waits: each [fetch_...] definition is a stretch of it without
    such a point, and a [point] says which stretch runs next.  The kernel ends when it has
    relayed a packet that begins with a TERMINATE command; on an idle ethernet core it
    also ends, at the next heartbeat, once the flag read by [early_exit] is raised.  What
    [kernel_main] does after that, a wait for its pages, is left out. *)

From S2P Require Import Prelude Memory ConfigBuffer SystemMemory.

Record PrefetchArgs := mkArgs {
  downstream_cb_base : Z;
  downstream_cb_log_page_size : Z;
  downstream_cb_pages : Z;
  pcie_base : Z;
  pcie_size : Z;
  prefetch_q_base : Z;
  prefetch_q_size_ : Z;
  cmddat_q_base_ : Z;
  cmddat_q_size_ : Z;
  (** [sizeof(CQPrefetchHToPrefetchDHeader)] *)
  header_size : Z;
}.

Definition downstream_cb_page_size (a : PrefetchArgs) : Z := u32 (Z.shiftl 1 (downstream_cb_log_page_size a)).
Definition downstream_cb_end (a : PrefetchArgs) : Z :=
  u32 (downstream_cb_base a + u32 (Z.shiftl 1 (downstream_cb_log_page_size a) * downstream_cb_pages a)).
Definition prefetch_q_end (a : PrefetchArgs) : Z := u32 (prefetch_q_base a + prefetch_q_size_ a).
Definition cmddat_q_end (a : PrefetchArgs) : Z := u32 (cmddat_q_base_ a + cmddat_q_size_ a).

Inductive StallState := NOT_STALLED | STALLED | STALL_NEXT.

#[export] Instance StallState_eq_dec : EqDecision StallState.
Proof. solve_decision. Defined.

(** A read over the NoC that has been issued and has not landed. *)
Record NocRead := mkRead { read_src : Z; read_dst : Z; read_size : Z }.

Record Prefetcher := mkPrefetcher {
  prefetch_q : Z -> Z;
  prefetch_q_rd_ptr : Z;
  (** what the kernel tells the host: the words at [prefetch_q_rd_ptr_addr] and [prefetch_q_pcie_rd_ptr_addr] *)
  host_rd_ptr : Z;
  host_pcie_rd_ptr : Z;
  pcie_read_ptr : Z;
  fence : Z;
  cmd_ptr : Z;
  pending_read_size : Z;
  stall_state : StallState;
  (** the core's memory, where the command-data queue is *)
  l1 : Z -> Z;
  in_flight : list NocRead;
  (** the semaphore of free downstream pages, and the pages handed downstream *)
  my_downstream_cb_sem : Z;
  downstream_cb_sem : Z;
  downstream_data_ptr : Z;
  (** the writes of each relayed packet: destination and bytes *)
  relayed : list (list (Z * list Z));
}.

Definition set_queue (q : Z -> Z) (rd host pcie : Z) (s : Prefetcher) : Prefetcher :=
  mkPrefetcher q rd host pcie (pcie_read_ptr s) (fence s) (cmd_ptr s) (pending_read_size s) (stall_state s) (l1 s)
    (in_flight s) (my_downstream_cb_sem s) (downstream_cb_sem s) (downstream_data_ptr s) (relayed s).
Definition set_pcie_read_ptr (v : Z) (s : Prefetcher) : Prefetcher :=
  mkPrefetcher (prefetch_q s) (prefetch_q_rd_ptr s) (host_rd_ptr s) (host_pcie_rd_ptr s) v (fence s) (cmd_ptr s)
    (pending_read_size s) (stall_state s) (l1 s)
    (in_flight s) (my_downstream_cb_sem s) (downstream_cb_sem s) (downstream_data_ptr s) (relayed s).
Definition set_fence (v : Z) (s : Prefetcher) : Prefetcher :=
  mkPrefetcher (prefetch_q s) (prefetch_q_rd_ptr s) (host_rd_ptr s) (host_pcie_rd_ptr s) (pcie_read_ptr s) v (cmd_ptr s)
    (pending_read_size s) (stall_state s) (l1 s)
    (in_flight s) (my_downstream_cb_sem s) (downstream_cb_sem s) (downstream_data_ptr s) (relayed s).
Definition set_cmd_ptr (v : Z) (s : Prefetcher) : Prefetcher :=
  mkPrefetcher (prefetch_q s) (prefetch_q_rd_ptr s) (host_rd_ptr s) (host_pcie_rd_ptr s) (pcie_read_ptr s) (fence s) v
    (pending_read_size s) (stall_state s) (l1 s)
    (in_flight s) (my_downstream_cb_sem s) (downstream_cb_sem s) (downstream_data_ptr s) (relayed s).
Definition set_pending (v : Z) (s : Prefetcher) : Prefetcher :=
  mkPrefetcher (prefetch_q s) (prefetch_q_rd_ptr s) (host_rd_ptr s) (host_pcie_rd_ptr s) (pcie_read_ptr s) (fence s) (cmd_ptr s)
    v (stall_state s) (l1 s)
    (in_flight s) (my_downstream_cb_sem s) (downstream_cb_sem s) (downstream_data_ptr s) (relayed s).
Definition set_stall (v : StallState) (s : Prefetcher) : Prefetcher :=
  mkPrefetcher (prefetch_q s) (prefetch_q_rd_ptr s) (host_rd_ptr s) (host_pcie_rd_ptr s) (pcie_read_ptr s) (fence s) (cmd_ptr s)
    (pending_read_size s) v (l1 s)
    (in_flight s) (my_downstream_cb_sem s) (downstream_cb_sem s) (downstream_data_ptr s) (relayed s).
Definition set_l1 (v : Z -> Z) (reads : list NocRead) (s : Prefetcher) : Prefetcher :=
  mkPrefetcher (prefetch_q s) (prefetch_q_rd_ptr s) (host_rd_ptr s) (host_pcie_rd_ptr s) (pcie_read_ptr s) (fence s) (cmd_ptr s)
    (pending_read_size s) (stall_state s) v
    reads (my_downstream_cb_sem s) (downstream_cb_sem s) (downstream_data_ptr s) (relayed s).
Definition set_downstream (mine theirs ptr : Z) (packets : list (list (Z * list Z))) (s : Prefetcher) : Prefetcher :=
  mkPrefetcher (prefetch_q s) (prefetch_q_rd_ptr s) (host_rd_ptr s) (host_pcie_rd_ptr s) (pcie_read_ptr s) (fence s) (cmd_ptr s)
    (pending_read_size s) (stall_state s) (l1 s)
    (in_flight s) mine theirs ptr packets.

(** Where the kernel is: about to call [fetch_q_get_cmds] or to run its first stretch
    again, waiting on the host, at the barrier of a pending read, about to look at the
    queue again, about to wait and stall, or back in the main loop with commands; or the
    kernel has ended, on a TERMINATE command or on an early exit. *)
Inductive point := AtFetch | AtPoll | AtBarrier | AtRecheck | AtStall | AtRelay | Terminated | Exited.

(** [early_exit] as a stretch reads it: at the heartbeat of the loop, and while it waits
    for pages. *)
Record exit_flags := mkExits { exit_at_heartbeat : bool; exit_in_wait : bool }.

Definition no_exit : exit_flags := mkExits false false.

#[export] Instance point_eq_dec : EqDecision point.
Proof. solve_decision. Defined.

(** ** NoC and semaphores *)

(** A memory of cells, one of them stored to. *)
Definition store (addr v : Z) (mem : Z -> Z) : Z -> Z := fun x => if x =? addr then v else mem x.

Definition noc_async_read (src dst size : Z) : M Prefetcher unit :=
  modify (fun s => set_l1 (l1 s) (in_flight s ++ [mkRead src dst size]) s).

(** Every read issued has landed, [pcie] being the host's memory. *)
Definition land_reads (pcie : Z -> Z) (reads : list NocRead) (mem : Z -> Z) : Z -> Z :=
  fold_left (fun mem r => write_mem (read_dst r) (read_mem pcie (read_src r) (read_size r)) mem) reads mem.

Definition noc_async_read_barrier (pcie : Z -> Z) : M Prefetcher unit :=
  modify (fun s => set_l1 (land_reads pcie (in_flight s) (l1 s)) [] s).

Definition wrap_ge (a b : Z) : bool := 0 <=? i32 (u32 (a - b)).
Definition wrap_gt (a b : Z) : bool := 0 <? i32 (u32 (a - b)).
Definition round_up_pow2 (v pow2_size : Z) : Z := Z.land (u32 (v + u32 (pow2_size - 1))) (u32 (Z.lnot (u32 (pow2_size - 1)))).
Definition div_up (n d : Z) : Z := u32 (u32 (n + d) - 1) / d.

(** One pass of the waiting loop; [OutOfFuel] when it goes round.  An early exit leaves it
    without the pages. *)
Definition cb_acquire_pages (early_exit : bool) (n : Z) : M Prefetcher unit :=
  if early_exit then mret tt
  else
    s ← get;
    require OutOfFuel (negb (wrap_gt n (my_downstream_cb_sem s)));;
    modify (fun s => set_downstream (u32 (my_downstream_cb_sem s - n)) (downstream_cb_sem s) (downstream_data_ptr s) (relayed s) s).

Definition cb_release_pages (n : Z) : M Prefetcher unit :=
  modify (fun s => set_downstream (my_downstream_cb_sem s) (u32 (downstream_cb_sem s + n)) (downstream_data_ptr s) (relayed s) s).

Section Kernel.
Context (a : PrefetchArgs).

(** ** Fetching *)

Definition barrier_and_stall (pcie : Z -> Z) : M Prefetcher unit :=
  noc_async_read_barrier pcie;;
  s ← get;
  when (fence s <? cmd_ptr s) (modify (fun s => set_cmd_ptr (fence s) s));;
  modify (fun s => set_fence (u32 (fence s + pending_read_size s)) s);;
  modify (set_pending 0);;
  modify (set_stall STALLED).

(** The read itself, the wrap of the command-data queue settled. *)
Definition issue_read (preamble_size size : Z) : M Prefetcher Z :=
  s ← get;
  when (u32 (pcie_base a + pcie_size a) <? u32 (pcie_read_ptr s + size)) (modify (set_pcie_read_ptr (pcie_base a)));;
  s ← get;
  noc_async_read (pcie_read_ptr s) (u32 (fence s + preamble_size)) size;;
  modify (set_pcie_read_ptr (u32 (pcie_read_ptr s + size)));;
  modify (fun s => set_queue (store (prefetch_q_rd_ptr s) 0 (prefetch_q s)) (prefetch_q_rd_ptr s)
    (prefetch_q_rd_ptr s) (pcie_read_ptr s) s);;
  modify (fun s =>
    let rd := u32 (prefetch_q_rd_ptr s + sizeof_entry) in
    set_queue (prefetch_q s) (if rd =? prefetch_q_end a then prefetch_q_base a else rd) (host_rd_ptr s) (host_pcie_rd_ptr s) s);;
  mret (u32 (size + preamble_size)).

Definition read_from_pcie (preamble_size size : Z) : M Prefetcher Z :=
  s ← get;
  if cmddat_q_end a <? u32 (u32 (fence s + size) + preamble_size) then
    if bool_decide (cmd_ptr s <> fence s) then mret 0
    else modify (set_fence (cmddat_q_base_ a));; issue_read preamble_size size
  else issue_read preamble_size size.

Definition prefetch_q_msb_mask : Z := Z.shiftl 1 (sizeof_entry * 8 - 1).
Definition entry_size (e : Z) : Z := u32 (Z.shiftl (Z.land e (u32 (Z.lnot prefetch_q_msb_mask))) PREFETCH_Q_LOG_MINSIZE).
Definition entry_stalls (e : Z) : bool := negb (Z.land e prefetch_q_msb_mask =? 0).
Definition stall_of (e : Z) : StallState := if entry_stalls e then STALL_NEXT else NOT_STALLED.

(** [fetch_q_get_cmds] from its start to its first wait. *)
Definition fetch_first (preamble_size : Z) : M Prefetcher point :=
  s ← get;
  if bool_decide (stall_state s = STALLED) then
    require Assert (pending_read_size s =? 0);; mret AtRelay
  else
    when (fence s <? cmd_ptr s) (modify (fun s => set_cmd_ptr (fence s) s));;
    s ← get;
    let cmd_ready := bool_decide (cmd_ptr s <> fence s) in
    let e := prefetch_q s (prefetch_q_rd_ptr s) in
    modify (set_stall (stall_of e));;
    when (negb (entry_size e =? 0) && (pending_read_size s =? 0))
      (size ← read_from_pcie preamble_size (entry_size e); modify (set_pending size));;
    s' ← get;
    if (negb (entry_size e =? 0) && (pending_read_size s =? 0))
       && (bool_decide (stall_state s' = STALL_NEXT) && negb (pending_read_size s' =? 0))
    then mret AtStall
    else if cmd_ready then mret AtRelay
    else if negb (pending_read_size s' =? 0) then mret AtBarrier
    else mret AtPoll.

(** The pending read lands and its commands become ready. *)
Definition fetch_land (pcie : Z -> Z) : M Prefetcher point :=
  noc_async_read_barrier pcie;;
  s ← get;
  when (fence s <? cmd_ptr s) (modify (fun s => set_cmd_ptr (fence s) s));;
  modify (fun s => set_fence (u32 (fence s + pending_read_size s)) s);;
  modify (set_pending 0);;
  mret AtRecheck.

(** "After the stall, re-check the host". *)
Definition fetch_recheck (preamble_size : Z) : M Prefetcher point :=
  s ← get;
  let e := prefetch_q s (prefetch_q_rd_ptr s) in
  if entry_size e =? 0 then mret AtRelay
  else
    modify (set_stall (stall_of e));;
    if entry_stalls e then
      size ← read_from_pcie 0 (entry_size e);
      modify (set_pending size);;
      mret (if size =? 0 then AtRelay else AtStall)
    else
      size ← read_from_pcie preamble_size (entry_size e);
      modify (set_pending size);;
      mret AtRelay.

Definition fetch_stall (pcie : Z -> Z) : M Prefetcher point := barrier_and_stall pcie;; mret AtRelay.

(** One turn of the loop that waits for the host; an early exit returns from it, and then
    from the main loop. *)
Definition fetch_poll (early_exit : bool) : M Prefetcher point :=
  s ← get;
  mret (if prefetch_q s (prefetch_q_rd_ptr s) =? 0 then if early_exit then Exited else AtPoll else AtFetch).

(** ** Relaying *)

(** Four bytes of a word, the least significant first. *)
Definition word_bytes (w : Z) : list Z := map (fun i => Z.shiftr w (8 * i) mod 256) [0; 1; 2; 3].

Definition process_relay_inline_all (early_exit is_exec_buf : bool) : M Prefetcher Z :=
  s ← get;
  let data_ptr := cmd_ptr s in
  let length := u32 (fence s - data_ptr) in
  modify (fun s => set_l1 (write_mem data_ptr (word_bytes length) (l1 s)) (in_flight s) s);;
  let npages := Z.shiftr (u32 (u32 (length + downstream_cb_page_size a) - 1)) (downstream_cb_log_page_size a) in
  cb_acquire_pages early_exit npages;;
  when is_exec_buf
    (modify (fun s => set_downstream (u32 (my_downstream_cb_sem s - downstream_cb_pages a)) (downstream_cb_sem s)
       (downstream_data_ptr s) (relayed s) s);;
     modify (set_stall NOT_STALLED));;
  s ← get;
  let dst := downstream_data_ptr s in
  let downstream_pages_left := Z.shiftr (u32 (downstream_cb_end a - dst)) (downstream_cb_log_page_size a) in
  (if npages <=? downstream_pages_left then
     modify (fun s => set_downstream (my_downstream_cb_sem s) (downstream_cb_sem s)
       (u32 (dst + npages * downstream_cb_page_size a))
       (relayed s ++ [[(dst, read_mem (l1 s) data_ptr length)]]) s)
   else
     let tail_pages := u32 (npages - downstream_pages_left) in
     let available := u32 (downstream_pages_left * downstream_cb_page_size a) in
     let head := if 0 <? available then [(dst, read_mem (l1 s) data_ptr available)] else [] in
     modify (fun s => set_downstream (my_downstream_cb_sem s) (downstream_cb_sem s)
       (u32 (downstream_cb_base a + tail_pages * downstream_cb_page_size a))
       (relayed s ++ [head ++ [(downstream_cb_base a, read_mem (l1 s) (data_ptr + available) (length - available))]]) s));;
  cb_release_pages npages;;
  s ← get; mret (fence s).

Definition CQ_PREFETCH_CMD_TERMINATE : Z := 10.

(** The body of [kernel_main_h]'s loop after [fetch_q_get_cmds].  The command's id is its
    first byte. *)
Definition relay_commands (exits : exit_flags) : M Prefetcher point :=
  if exit_at_heartbeat exits then mret Exited
  else
    s ← get;
    let cmd_id := l1 s (u32 (cmd_ptr s + header_size a)) in
    ptr ← process_relay_inline_all (exit_in_wait exits) (bool_decide (stall_state s = STALLED));
    modify (set_cmd_ptr ptr);;
    mret (if cmd_id =? CQ_PREFETCH_CMD_TERMINATE then Terminated else AtFetch).

(** The kernel from [pt] to the next point, [pcie] being the host's memory; once it has
    ended it stays as it is. *)
Definition kernel_step (exits : exit_flags) (pcie : Z -> Z) (pt : point) : M Prefetcher point :=
  match pt with
  | AtFetch => fetch_first (header_size a)
  | AtPoll => fetch_poll (exit_at_heartbeat exits)
  | AtBarrier => fetch_land pcie
  | AtRecheck => fetch_recheck (header_size a)
  | AtStall => fetch_stall pcie
  | AtRelay => relay_commands exits
  | Terminated | Exited => mret pt
  end.

(** The state of the kernel at its start: its static variables, the queue cleared by
    the device's set-up (device.cpp, configure_command_queue_programs). *)
Definition kernel_start (mem : Z -> Z) : Prefetcher :=
  mkPrefetcher (fun _ => 0) (prefetch_q_base a) (u32 (prefetch_q_base a + prefetch_q_size_ a)) (pcie_base a)
    (pcie_base a) (cmddat_q_base_ a) (cmddat_q_base_ a) 0 NOT_STALLED mem [] (downstream_cb_pages a) 0
    (downstream_cb_base a) [].
End Kernel.
