(* ===== verification/CommandQueueSystem.v ===== *)
(** * Host and prefetcher together

    A step relation on the pair of a SystemMemoryManager and the prefetcher kernel of
    one of its command queues.  The host issues a command in three steps (write it to
    the issue region, reserve a fetch-queue entry, write the entry) and the kernel
    runs from one point to the next; the two interleave freely.  A value the host
    reads while it waits is one the kernel published since the last one it read.  A
    kernel on an ethernet core may be told to exit at any time. *)

From S2P Require Import Prelude Memory ConfigBuffer SystemMemory Prefetcher.

(** The compile-time arguments of the prefetch_h kernel of a queue
    (device.cpp, update_workers_build_settings and setup_tunnel_for_remote_devices). *)
Definition prefetch_h_args (dc : dispatch_constants) (c : SystemMemoryCQInterface) (downstream_base pages header : Z) : res PrefetchArgs :=
  base ← get_device_command_queue_addr dc UNRESERVED;
  mret (mkArgs downstream_base PREFETCH_D_BUFFER_LOG_PAGE_SIZE pages (u32 (cq_offset c + cq_start c)) (issue_queue_size_of c)
    base (prefetch_q_size dc) (cmddat_q_base dc) (cmddat_q_size dc) header).

(** How far the host is with its command: [Issued] and [Reserved] carry its size and
    whether the prefetcher is to stall on it. *)
Inductive host_phase := Idle | Issued (size : Z) (stall : bool) | Reserved (size : Z) (stall : bool).

Record System := mkSystem {
  host : SystemMemoryManager;
  phase : host_phase;
  kernel : Prefetcher;
  pt : point;
  (** the commands issued so far, and their stall flags *)
  commands : list (list Z * bool);
  (** the values of the kernel's read pointer in the order published, and the last one the host has read *)
  published : list Z;
  seen : nat;
}.

(** Reads at times that do not go backwards. *)
Inductive reads_from (values : list Z) : nat -> list Z -> nat -> Prop :=
  | reads_done i : reads_from values i [] i
  | reads_next i j v reads l :
      (i <= j)%nat -> values !! j = Some v -> reads_from values j reads l -> reads_from values i (v :: reads) l.

(** The writes of fetch-queue entries reach the kernel's queue. *)
Definition deliver (cq : Z) (writes : list io_event) (k : Prefetcher) : Prefetcher :=
  fold_left (fun k e => match e with
    | FetchQueueEntry c addr v =>
        if c =? cq then set_queue (store addr v (prefetch_q k)) (prefetch_q_rd_ptr k) (host_rd_ptr k) (host_pcie_rd_ptr k) k else k
    | _ => k
    end) writes k.

(** Host memory as the device addresses it over PCIe. *)
Definition pcie_view (h : SystemMemoryManager) : Z -> Z := fun addr => sysmem h (addr - channel_offset h).

Section System.
Context (p : Platform) (core_type : CoreType) (cq : Z) (max_size : Z) (a : PrefetchArgs).

(** What the command queue gives the manager: whole alignment units, at most the
    largest command the prefetcher takes. *)
Definition well_sized (data : list Z) : Prop :=
  0 < Z.of_nat (length data) <= max_size /\ Z.of_nat (length data) mod host_alignment p = 0.

Inductive step : System -> System -> Prop :=
  | step_issue h h' k pt cmds vs i data stall :
      well_sized data ->
      issue_command p core_type data cq h = (h', Ok tt) ->
      step (mkSystem h Idle k pt cmds vs i)
           (mkSystem h' (Issued (Z.of_nat (length data)) stall) k pt (cmds ++ [(data, stall)]) vs i)
  | step_reserve h h' k pt cmds vs i i' n stall reads :
      reads_from vs i reads i' ->
      fetch_queue_reserve_back p core_type cq reads h = (h', Ok []) ->
      step (mkSystem h (Issued n stall) k pt cmds vs i) (mkSystem h' (Reserved n stall) k pt cmds vs i')
  | step_enter h h' k pt cmds vs i n stall :
      fetch_queue_write p core_type n cq stall h = (h', Ok tt) ->
      step (mkSystem h (Reserved n stall) k pt cmds vs i)
           (mkSystem h' Idle (deliver cq (drop (length (events h)) (events h')) k) pt cmds vs i)
  | step_kernel h ph k k' pt pt' cmds vs i exits :
      exits = no_exit \/ core_type = ETH ->
      kernel_step a exits (pcie_view h) pt k = (k', Ok pt') ->
      step (mkSystem h ph k pt cmds vs i) (mkSystem h ph k' pt' cmds (vs ++ [host_rd_ptr k']) i)
  | step_downstream h ph k pt cmds vs i n :
      step (mkSystem h ph k pt cmds vs i)
           (mkSystem h ph (set_downstream (u32 (my_downstream_cb_sem k + n)) (downstream_cb_sem k)
             (downstream_data_ptr k) (relayed k) k) pt cmds vs i).

Definition initial (h : SystemMemoryManager) (mem : Z -> Z) : System :=
  mkSystem h Idle (kernel_start a mem) AtFetch [] [host_rd_ptr (kernel_start a mem)] 0.

Inductive reachable (h : SystemMemoryManager) (mem : Z -> Z) : System -> Prop :=
  | reach_initial : reachable h mem (initial h mem)
  | reach_step s s' : reachable h mem s -> step s s' -> reachable h mem s'.
End System.

(** The bytes of a relayed packet after its header. *)
Definition payload (header_size : Z) (writes : list (Z * list Z)) : list Z := drop (Z.to_nat header_size) (mjoin (map snd writes)).
