(* ===== verification/CommandQueueInv.v ===== *)
(** * Host and prefetcher together: the invariant

    The state of the pair as a function of the commands issued: how many have been
    entered in the fetch queue, read by the kernel and landed in its memory, and
    where each lies in the issue region. *)

From Stdlib Require Import Lia.
From S2P Require Import Prelude Memory ConfigBuffer SystemMemory SystemMemoryOps IssueRing Prefetcher CommandQueueSystem.

(** What the two sides agree on: the alignment, the fetch queue's base and its number
    of entries, the issue region, the room of the command-data queue. *)
Record Linked (p : Platform) (dc : dispatch_constants) (a : PrefetchArgs) (offset k : Z) : Prop := mkLinked {
  lk_align : host_alignment p = 2 ^ k /\ 4 <= k < 32;
  lk_addrs : device_cq_addrs dc !! 8%nat = Some (prefetch_q_base a) /\ length (device_cq_addrs dc) = 9%nat;
  lk_entries : 0 < prefetch_q_entries dc /\ prefetch_q_size_ a = prefetch_q_entries dc * 2;
  lk_queue : 0 <= prefetch_q_base a /\ prefetch_q_base a + prefetch_q_entries dc * 2 < 2 ^ 32;
  lk_max : 0 < max_prefetch_command_size dc < 2 ^ 19;
  lk_region : 0 <= pcie_base a /\ pcie_base a + pcie_size a + max_prefetch_command_size dc < 2 ^ 32;
  lk_room : max_prefetch_command_size dc * (prefetch_q_entries dc + 2) <= pcie_size a;
  lk_offset : 0 <= offset <= pcie_base a /\ (pcie_base a - offset) mod 16 = 0;
  lk_header : 4 <= header_size a;
  lk_cmddat : 0 <= cmddat_q_base_ a /\ header_size a + max_prefetch_command_size dc <= cmddat_q_size_ a;
  lk_cmddat_end : cmddat_q_base_ a + cmddat_q_size_ a + header_size a + max_prefetch_command_size dc < 2 ^ 32;
  lk_pages : 0 <= downstream_cb_log_page_size a < 31;
  lk_pages_room : 2 ^ downstream_cb_log_page_size a + cmddat_q_size_ a < 2 ^ 32;
}.

(** The bytes of a command and whether the prefetcher is to stall on it. *)
Abbreviation command := (list Z * bool)%type.

Definition size_of (c : command) : Z := Z.of_nat (length c.1).
Definition sizes (cs : list command) : list Z := map size_of cs.
Definition bytes (cs : list command) : list Z := mjoin (map fst cs).

(** A packet: one command, or a command and a stalling one. *)
Definition packet (g : list command) : Prop :=
  (exists c, g = [c]) \/ (exists c d, g = [c; d] /\ c.2 = false /\ d.2 = true).

Section Invariant.
Context (p : Platform) (core_type : CoreType) (dc : dispatch_constants) (a : PrefetchArgs) (cq offset k : Z).

Definition entries : Z := prefetch_q_entries dc.
Definition start : Z := pcie_base a.
Definition limit : Z := pcie_base a + pcie_size a.
Definition max_size : Z := max_prefetch_command_size dc.

(** The fetch-queue entry of the [i]-th command, what the kernel publishes when it
    has read [n] of them, and the host's pointer when it has entered [n]. *)
Definition slot (i : nat) : Z := prefetch_q_base a + 2 * (Z.of_nat i mod entries).
Definition read_mark (n : nat) : Z := match n with O => prefetch_q_base a + 2 * entries | S i => slot i end.
Definition enter_mark (n : nat) : Z := match n with O => prefetch_q_base a | S i => slot i + 2 end.
(** How many the host may have entered when the last value it read was [read_mark n]. *)
Definition allowed (n : nat) : Z := match n with O => entries | S i => Z.of_nat i + entries end.

(** The device's pointer before the [i]-th command, and the command's address. *)
Definition pointer (cs : list command) (i : nat) : Z := end_ptr start limit start (sizes (take i cs)).
Definition address (cs : list command) (i : nat) (c : command) : Z := place start limit (pointer cs i) (size_of c).

Definition host_phase_inv (ph : host_phase) (h : SystemMemoryManager) (cs : list command) (n n0 : nat) : Prop :=
  match ph with
  | Idle => length cs = n /\ prefetch_q_dev_ptrs h !! Z.to_nat cq = Some (enter_mark n)
  | Issued size stall => length cs = S n /\ prefetch_q_dev_ptrs h !! Z.to_nat cq = Some (enter_mark n) /\
      exists c, cs !! n = Some c /\ size = size_of c /\ stall = c.2
  | Reserved size stall => length cs = S n /\ prefetch_q_dev_ptrs h !! Z.to_nat cq = Some (slot n) /\
      Z.of_nat (S n) <= allowed n0 /\ exists c, cs !! n = Some c /\ size = size_of c /\ stall = c.2
  end.

(** The host has entered [n] commands and last read that the kernel had read [n0]. *)
Record host_inv (h : SystemMemoryManager) (ph : host_phase) (cs : list command) (n n0 : nat) : Prop := mkHostInv {
  hi_bypass : bypass_enable h = false;
  hi_settled : settled core_type dc h;
  hi_offset : channel_offset h = offset;
  hi_interface : exists c, cq_interfaces h !! Z.to_nat cq = Some c /\
    interface_at start limit (norm start limit (pointer cs (length cs))) c;
  hi_fence : prefetch_q_dev_fences h !! Z.to_nat cq = Some (read_mark n0);
  hi_allowed : Z.of_nat n <= allowed n0;
  hi_phase : host_phase_inv ph h cs n n0;
}.

(** The fetch queue: [r] commands read, [n] entered. *)
Record queue_inv (q : Prefetcher) (cs : list command) (n r : nat) : Prop := mkQueueInv {
  qi_rd : prefetch_q_rd_ptr q = slot r;
  qi_host : host_rd_ptr q = read_mark r;
  qi_pcie : pcie_read_ptr q = pointer cs r;
  qi_order : (r <= n <= length cs)%nat /\ Z.of_nat n <= Z.of_nat r + entries;
  qi_entries : forall i c, (r <= i < n)%nat -> cs !! i = Some c -> prefetch_q q (slot i) = fetch_entry (size_of c) c.2;
  qi_empty : forall i, (n <= i)%nat -> Z.of_nat i < Z.of_nat r + entries -> prefetch_q q (slot i) = 0;
}.

(** Nothing is in flight, or the [l]-th command is, to land [pre] bytes past the fence. *)
Definition no_flight (q : Prefetcher) (r l : nat) : Prop := r = l /\ in_flight q = [] /\ pending_read_size q = 0.
Definition flight (q : Prefetcher) (cs : list command) (r l : nat) (pre : Z) (stall : bool) : Prop :=
  r = S l /\ exists c, cs !! l = Some c /\ c.2 = stall /\
  in_flight q = [mkRead (address cs l c) (fence q + pre) (size_of c)] /\
  pending_read_size q = size_of c + pre /\ fence q + (size_of c + pre) <= cmddat_q_end a.

(** No commands are ready, or those of [g] are, after a header. *)
Definition none_ready (q : Prefetcher) : Prop := fence q <= cmd_ptr q.
Definition ready (q : Prefetcher) (g : list command) : Prop :=
  cmddat_q_base_ a <= cmd_ptr q /\ fence q = cmd_ptr q + header_size a + Z.of_nat (length (bytes g)) /\
  holds (l1 q) (cmd_ptr q + header_size a) (bytes g).

(** The kernel at each point: [r] read, [l] landed, [g] ready. *)
Definition point_inv (pt : point) (q : Prefetcher) (cs : list command) (r l : nat) (g : list command) : Prop :=
  let running := stall_state q <> STALLED in
  match pt with
  | AtFetch => running /\ g = [] /\ cmd_ptr q = fence q /\ (no_flight q r l \/ flight q cs r l (header_size a) false)
  | AtPoll => running /\ g = [] /\ cmd_ptr q = fence q /\ no_flight q r l
  | AtBarrier => running /\ g = [] /\ none_ready q /\ flight q cs r l (header_size a) false
  | AtRecheck => running /\ (exists c, g = [c] /\ c.2 = false) /\ ready q g /\ no_flight q r l
  | AtStall => running /\
      (g = [] /\ none_ready q /\ flight q cs r l (header_size a) true \/
       (exists c, g = [c] /\ c.2 = false) /\ ready q g /\ flight q cs r l 0 true)
  | AtRelay => ready q g /\ packet g /\
      (stall_state q = STALLED /\ no_flight q r l /\ (exists c, last g = Some c /\ c.2 = true) \/
       running /\ (exists c, g = [c] /\ c.2 = false) /\ (no_flight q r l \/ flight q cs r l (header_size a) false))
  | Terminated => g = [] /\ (no_flight q r l \/ flight q cs r l (header_size a) false)
  | Exited => no_flight q r l \/ flight q cs r l (header_size a) false
  end.

(** A command the prefetcher ends on. *)
Definition terminates (c : command) : Prop := head c.1 = Some CQ_PREFETCH_CMD_TERMINATE.

(** The kernel has relayed the packets [gs], holds [g] ready, and has read [r] commands. *)
Record kernel_inv (q : Prefetcher) (pt : point) (cs : list command) (n r l : nat) (gs : list (list command)) (g : list command) : Prop :=
  mkKernelInv {
  ki_queue : queue_inv q cs n r;
  ki_fence : cmddat_q_base_ a <= fence q <= cmddat_q_end a;
  ki_landed : mjoin gs ++ g = take l cs;
  ki_relayed : map (payload (header_size a)) (relayed q) = map bytes gs;
  ki_packets : Forall packet gs;
  ki_point : point_inv pt q cs r l g;
  ki_terminated : pt = Terminated -> exists c g', last gs = Some (c :: g') /\ terminates c;
}.

(** The issue region holds every command that has not landed. *)
Definition memory_inv (pcie : Z -> Z) (cs : list command) (l : nat) : Prop :=
  forall i c, (l <= i)%nat -> cs !! i = Some c -> holds pcie (address cs i c) c.1.

(** The published values are the marks of counts that do not decrease. *)
Definition history_inv (values : list Z) (i n0 r : nat) : Prop := exists counts,
  values = map read_mark counts /\ counts !! i = Some n0 /\ Forall (fun m => (m <= r)%nat) counts /\
  forall i j m m', (i <= j)%nat -> counts !! i = Some m -> counts !! j = Some m' -> (m <= m')%nat.

Definition sized (c : command) : Prop := well_sized p max_size c.1.

Record invariant (s : System) (n0 n r l : nat) (gs : list (list command)) (g : list command) : Prop := mkInv {
  inv_sized : Forall sized (commands s);
  inv_host : host_inv (host s) (phase s) (commands s) n n0;
  inv_kernel : kernel_inv (kernel s) (pt s) (commands s) n r l gs g;
  inv_memory : memory_inv (pcie_view (host s)) (commands s) l;
  inv_history : history_inv (published s) (seen s) n0 r;
}.

(** ** Slots and marks *)

Context (L : Linked p dc a offset k).

Lemma entries_pos : 0 < entries.
Proof. apply lk_entries in L. unfold entries. lia. Qed.

Lemma slot_range i : prefetch_q_base a <= slot i <= prefetch_q_base a + 2 * entries - 2.
Proof. unfold slot. pose proof entries_pos. pose proof (Z.mod_pos_bound (Z.of_nat i) entries). lia. Qed.

Lemma slot_inj i j : slot i = slot j -> Z.abs (Z.of_nat i - Z.of_nat j) < entries -> i = j.
Proof.
  unfold slot. intros H Hd. pose proof entries_pos.
  assert (E : Z.of_nat i mod entries = Z.of_nat j mod entries) by lia.
  pose proof (Z.div_mod (Z.of_nat i) entries ltac:(lia)). pose proof (Z.div_mod (Z.of_nat j) entries ltac:(lia)).
  assert (Z.of_nat i / entries = Z.of_nat j / entries) by nia. nia.
Qed.

Lemma slot_next i : slot (S i) = if slot i + 2 =? prefetch_q_base a + 2 * entries then prefetch_q_base a else slot i + 2.
Proof.
  unfold slot. pose proof entries_pos. pose proof (Z.mod_pos_bound (Z.of_nat i) entries).
  pose proof (Z.div_mod (Z.of_nat i) entries ltac:(lia)).
  destruct (Z.eqb_spec (prefetch_q_base a + 2 * (Z.of_nat i mod entries) + 2) (prefetch_q_base a + 2 * entries)).
  - replace (Z.of_nat (S i) mod entries) with 0; [lia|].
    apply Z.mod_unique_pos with (q := Z.of_nat i / entries + 1); lia.
  - replace (Z.of_nat (S i) mod entries) with (Z.of_nat i mod entries + 1); [lia|].
    apply Z.mod_unique_pos with (q := Z.of_nat i / entries); lia.
Qed.

Lemma slot_enter_mark n : slot n = if enter_mark n =? prefetch_q_base a + 2 * entries then prefetch_q_base a else enter_mark n.
Proof.
  destruct n as [|i]; [|apply slot_next]. cbn. unfold slot. rewrite Z.mod_0_l by (pose proof entries_pos; lia).
  pose proof entries_pos. rewrite (proj2 (Z.eqb_neq _ _)) by lia. lia.
Qed.

(** The wait of the host: its slot differs from the mark it read, so it may enter one more. *)
Lemma allowed_next n n0 :
  Z.of_nat n <= allowed n0 -> slot n <> read_mark n0 -> (n0 = 0%nat -> Z.of_nat n <> entries) ->
  Z.of_nat (S n) <= allowed n0.
Proof.
  destruct n0 as [|i]; cbn; intros H Hne H0; [specialize (H0 eq_refl); lia|].
  destruct (decide (Z.of_nat n = Z.of_nat i + entries)) as [E|]; [|lia].
  exfalso. apply Hne. unfold slot. rewrite E. pose proof entries_pos.
  rewrite <- (Z.mul_1_l entries) at 1. by rewrite Z.mod_add by lia.
Qed.

Lemma allowed_mono m n : (m <= n)%nat -> allowed m <= allowed n.
Proof. destruct m, n; cbn; pose proof entries_pos; lia. Qed.

(** ** Places *)

Lemma sizes_app cs ds : sizes (cs ++ ds) = sizes cs ++ sizes ds.
Proof. apply map_app. Qed.

Lemma sized_bounds c : sized c -> 0 < size_of c <= max_size /\ size_of c mod 2 ^ k = 0.
Proof. unfold sized, well_sized, size_of, max_size. rewrite (proj1 (lk_align _ _ _ _ _ L)). done. Qed.

Lemma sizes_bounds cs : Forall sized cs -> Forall (fun s => 0 < s <= max_size) (sizes cs).
Proof. induction 1 as [|c cs Hc]; constructor; [by apply sized_bounds|done]. Qed.

Lemma pointer_app cs ds i : (i <= length cs)%nat -> pointer (cs ++ ds) i = pointer cs i.
Proof. intros H. unfold pointer. by rewrite take_app_le. Qed.

Lemma address_app cs ds i c : (i <= length cs)%nat -> address (cs ++ ds) i c = address cs i c.
Proof. intros H. unfold address. by rewrite pointer_app. Qed.

Lemma pointer_next cs i c : cs !! i = Some c -> pointer cs (S i) = address cs i c + size_of c.
Proof.
  intros H. unfold pointer. rewrite (take_S_r _ _ c H), sizes_app, end_ptr_app. done.
Qed.

Lemma region_bounds : 0 < max_size /\ max_size * (entries + 2) <= limit - start /\ 0 <= start /\ limit + max_size < 2 ^ 32 /\ 0 < max_size < 2 ^ 19.
Proof.
  destruct L as [_ _ _ _ Hm Hr Ho _ _ _ _]. unfold max_size, entries, limit, start. lia.
Qed.

Lemma pointer_range cs i : Forall sized cs -> start <= pointer cs i <= limit.
Proof.
  intros H. pose proof region_bounds. pose proof entries_pos. apply end_ptr_range; [nia|].
  eapply Forall_impl; [apply sizes_bounds, Forall_take, H|]. cbn. nia.
Qed.

Lemma address_range cs i c : Forall sized cs -> sized c -> start <= address cs i c /\ address cs i c + size_of c <= limit.
Proof.
  intros H Hc%sized_bounds. pose proof (pointer_range cs i H). pose proof region_bounds. pose proof entries_pos.
  unfold address, place. destruct (Z.ltb_spec limit (pointer cs i + size_of c)); nia.
Qed.

(** A new command lies apart from every command that has not landed. *)
Lemma new_command_apart cs d l i c :
  Forall sized cs -> sized d -> Z.of_nat (length cs) <= Z.of_nat l + entries -> (l <= i)%nat -> cs !! i = Some c ->
  address cs (length cs) d + size_of d <= address cs i c \/ address cs i c + size_of c <= address cs (length cs) d.
Proof.
  intros Hcs Hd Hlen Hi Hc. pose proof region_bounds as (Hm & Hroom & _). pose proof entries_pos.
  assert (i < length cs)%nat by (by eapply lookup_lt_Some).
  set (before := sizes (take l cs)). set (win := sizes (drop l cs)).
  assert (Hb : Forall (fun s => 0 < s <= max_size) before) by (apply sizes_bounds, Forall_take, Hcs).
  assert (Hw : Forall (fun s => 0 < s <= max_size) win) by (apply sizes_bounds, Forall_drop, Hcs).
  assert (Hall : sizes (take (length cs) cs) = before ++ win).
  { unfold before, win. by rewrite <- sizes_app, take_drop, take_ge by lia. }
  assert (Hpre : sizes (take i cs) = before ++ take (i - l) win).
  { unfold before, win, sizes. rewrite <- fmap_take. rewrite <- map_app. f_equal.
    replace i with (l + (i - l))%nat at 1 by lia. by rewrite <- take_take_drop. }
  pose proof (next_apart_nth start limit max_size ltac:(nia) before win (size_of d) (i - l) (size_of c) Hb Hw) as A.
  unfold address, pointer. rewrite Hall, Hpre. apply A.
  - by apply sized_bounds.
  - assert (Hl : length win = (length cs - l)%nat) by (unfold win, sizes; by rewrite length_map, length_drop).
    pose proof (total_bound _ _ Hw) as B. rewrite Hl in B. apply sized_bounds in Hd. nia.
  - unfold win, sizes. rewrite list_lookup_fmap, lookup_drop. replace (l + (i - l))%nat with i by lia. by rewrite Hc.
Qed.
End Invariant.
