(* ===== verification/CommandQueueHost.v ===== *)
(** * Host and prefetcher together: the host's steps

    Each of the host's three steps succeeds where the invariant allows it and keeps
    the host's part of the invariant. *)

From Stdlib Require Import Lia.
From S2P Require Import Prelude Memory ConfigBuffer SystemMemory SystemMemoryOps IssueRing Prefetcher CommandQueueSystem CommandQueueInv.

Section Host.
Context (p : Platform) (core_type : CoreType) (dc : dispatch_constants) (a : PrefetchArgs) (cq offset k : Z).
Context (L : Linked p dc a offset k).

Local Abbreviation host_inv := (host_inv core_type dc a cq offset).
Local Abbreviation sized := (sized p dc).
Local Abbreviation start := (start a).
Local Abbreviation limit := (limit a).

(** A command issued: its bytes are at its address, the rest of the region is as it was. *)
Lemma host_issue h cs n n0 data stall :
  let c := (data, stall) in
  host_inv h Idle cs n n0 -> Forall sized cs -> sized c ->
  exists h', issue_command p core_type data cq h = (h', Ok tt) /\
  host_inv h' (Issued (size_of c) stall) (cs ++ [c]) n n0 /\
  (forall x, pcie_view h' x = write_mem (address a cs (length cs) c) data (pcie_view h) x) /\
  exists e, events h' = events h ++ [e].
Proof.
  intros c [Hb Hst Ho (ci & Hci & Hi) Hf Ha [Hlen Hp]] Hcs Hc.
  pose proof (region_bounds _ _ _ _ _ L) as (Hm & Hroom & Hs0 & Hlm & _). pose proof (entries_pos _ _ _ _ _ L) as He.
  pose proof (sized_bounds _ _ _ _ _ L _ Hc) as [Hsz Hal].
  pose proof (pointer_range _ _ _ _ _ L cs (length cs) Hcs) as Hpr.
  assert (Hsl : start + size_of c <= limit) by nia.
  destruct (issue_command_ok p core_type dc cq start limit k (lk_align _ _ _ _ _ L) ltac:(lia) h ci
    (norm start limit (pointer a cs (length cs))) data) as (ci' & e & mem & Hi' & Hmem & Hok); try done.
  { apply norm_range; lia. }
  { unfold size_of in *. cbn in *. lia. }
  { unfold size_of in *. cbn in *. lia. }
  { pose proof (norm_range start limit (pointer a cs (length cs)) ltac:(lia) Hpr). unfold size_of in *. cbn in *. lia. }
  { pose proof (lk_offset _ _ _ _ _ L) as [? ?]. rewrite Ho. unfold CommandQueueInv.start. lia. }
  { rewrite Ho. apply (lk_offset _ _ _ _ _ L). }
  eexists. split; [exact Hok|].
  assert (Hpl : place start limit (norm start limit (pointer a cs (length cs))) (size_of c) = address a cs (length cs) c).
  { apply place_norm. lia. }
  change (Z.of_nat (length data)) with (size_of c) in *.
  split; [constructor|split]; try done.
  - exists ci'. split; [by eapply update_eq|]. rewrite length_app. cbn [length].
    rewrite Nat.add_1_r. erewrite pointer_next by (by apply list_lookup_middle).
    rewrite address_app by lia. rewrite <- Hpl. exact Hi'.
  - cbn. rewrite length_app. cbn. split; [lia|]. split; [done|]. exists c. split; [|done].
    rewrite lookup_app_r by lia. by rewrite Hlen, Nat.sub_diag.
  - intros x. unfold pcie_view. cbn. rewrite Hmem, Hpl, Ho.
    apply write_mem_shift.
  - by exists e.
Qed.

(** ** Waiting for the fetch queue *)

Lemma reads_app vs i l1 l2 j : reads_from vs i (l1 ++ l2) j -> exists m, reads_from vs i l1 m /\ reads_from vs m l2 j.
Proof.
  revert i; induction l1 as [|v l1 IH]; intros i; cbn; [exists i; by repeat constructor|].
  inversion 1; subst. destruct (IH j0) as (m & ? & ?); [done|]. exists m. split; [by econstructor|done].
Qed.

Local Abbreviation mark := (read_mark dc a).

Lemma reads_mark counts i l j n0 :
  (forall i j m m', (i <= j)%nat -> counts !! i = Some m -> counts !! j = Some m' -> (m <= m')%nat) ->
  counts !! i = Some n0 -> reads_from (map mark counts) i l j ->
  exists n1, counts !! j = Some n1 /\ last_read (mark n0) l = mark n1 /\ (n0 <= n1)%nat.
Proof.
  intros Hmono. revert i n0; induction l as [|v l IH]; intros i n0 Hi; inversion 1; subst.
  - by exists n0.
  - rewrite list_lookup_fmap in H4. destruct (counts !! j0) as [m|] eqn:E; [|done]. injection H4 as <-.
    destruct (IH j0 m E) as (n1 & ? & ? & ?); [done|]. exists n1. rewrite last_read_cons.
    split; [done|]. split; [done|]. etrans; [by eapply (Hmono i j0)|done].
Qed.

Lemma queue_limit_eq : queue_limit dc (prefetch_q_base a) = prefetch_q_base a + 2 * entries dc.
Proof. pose proof (lk_queue _ _ _ _ _ L). pose proof (lk_entries _ _ _ _ _ L). unfold queue_limit, sizeof_entry, entries in *. rewrite u32_small; lia. Qed.

Lemma with_fetch_inv h cs n n0 n1 size stall :
  host_inv h (Issued size stall) cs n n0 -> (n0 <= n1)%nat -> Z.of_nat (S n) <= allowed dc n1 ->
  host_inv (with_fetch cq (slot dc a n) (mark n1) h) (Reserved size stall) cs n n1.
Proof.
  intros [Hb Hst Ho Hci Hf Ha (Hlen & Hp & Hc)] Hle Hn. constructor; try done.
  - by eapply update_eq.
  - cbn. lia.
  - split; [done|]. split; [by eapply update_eq|done].
Qed.

(** A wait that ends leaves the host a free entry. *)
Lemma host_reserve h h' cs n n0 r size stall vs i i' reads :
  host_inv h (Issued size stall) cs n n0 -> history_inv dc a vs i n0 r ->
  reads_from vs i reads i' -> fetch_queue_reserve_back p core_type cq reads h = (h', Ok []) ->
  exists n1, host_inv h' (Reserved size stall) cs n n1 /\ history_inv dc a vs i' n1 r /\
  pcie_view h' = pcie_view h /\ events h' = events h.
Proof.
  intros Hi (counts & -> & Hcount & Hle & Hmono) Hreads Hres.
  pose proof Hi as [Hb Hst Ho Hci Hf Ha (Hlen & Hp & Hc)].
  destruct (lk_addrs _ _ _ _ _ L) as [Haddr Hlen9].
  eapply reserve_back_inv in Hres as (u1 & u2 & -> & Hne1 & Hne2 & Hu2 & ->); [|done..].
  rewrite app_nil_r in Hreads.
  pose proof Hreads as (j & Hr1 & Hr2)%reads_app.
  destruct (reads_mark _ _ _ _ _ Hmono Hcount Hr1) as (n' & Hj & Hm' & Hn').
  destruct (reads_mark _ _ _ _ _ Hmono Hcount Hreads) as (n1 & Hi' & Hm1 & Hn1).
  rewrite queue_limit_eq in Hne2, Hu2 |- *. rewrite Hm1 in Hne2 |- *. rewrite <- (slot_enter_mark _ _ _ _ _ L). rewrite Hm' in Hne1.
  exists n1. split; [|by repeat split; try done; exists counts].
  apply with_fetch_inv with n0; [done..|].
  assert (Hslot : slot dc a n <> mark n1 /\ (n1 = 0%nat -> Z.of_nat n <> entries dc)).
  { pose proof (entries_pos _ _ _ _ _ L). rewrite (slot_enter_mark _ _ _ _ _ L).
    destruct (Z.eqb_spec (enter_mark dc a n) (prefetch_q_base a + 2 * entries dc)) as [E|E].
    - split; [by apply Hne2|]. intros ->. destruct Hne1.
      destruct (reads_mark _ _ _ _ _ Hmono Hj Hr2) as (m & Hm & _ & Hle'). assert (m = 0%nat) by congruence.
      assert (n' = 0%nat) as -> by lia. exact E.
    - specialize (Hu2 E) as ->. rewrite app_nil_r in Hm1. split; [congruence|]. intros ->.
      intros En. apply E. destruct n as [|m]; [cbn in *; lia|]. cbn. unfold slot.
      rewrite Z.mod_small by lia. lia. }
  apply (allowed_next _ _ _ _ _ L); [|apply Hslot..]. pose proof (allowed_mono _ _ _ _ _ L n0 n1 Hn1). lia.
Qed.

(** Where the value on offer differs from the pointer, the wait ends after at most one read. *)
Lemma wait_reads h ptr f v :
  prefetch_q_dev_ptrs h !! Z.to_nat cq = Some ptr -> prefetch_q_dev_fences h !! Z.to_nat cq = Some f -> ptr <> v ->
  exists used, Forall (eq v) used /\
  forall rest, wait_for_fetch_q_space cq (used ++ rest) h = (with_fetch cq ptr (last_read f used) h, Ok rest).
Proof.
  intros Hp Hf Hv. destruct (decide (ptr = f)) as [E|E].
  - exists [v]. split; [by constructor|]. intros rest. cbn [app wait_for_fetch_q_space].
    erewrite M_bind_ok by (by apply elem_ok). erewrite M_bind_ok by (by apply elem_ok). rewrite (proj2 (Z.eqb_eq _ _)) by done.
    erewrite M_bind_ok by reflexivity. set (h1 := set_dev_fences _ h).
    assert (Hf1 : prefetch_q_dev_fences h1 !! Z.to_nat cq = Some v) by (by eapply update_eq).
    assert (Hend : forall l, wait_for_fetch_q_space cq l h1 = (h1, Ok l)).
    { intros l. destruct l; cbn [wait_for_fetch_q_space]; erewrite M_bind_ok by (by apply elem_ok);
        erewrite M_bind_ok by (by apply elem_ok); by rewrite (proj2 (Z.eqb_neq _ _)) by done. }
    rewrite Hend. f_equal. unfold with_fetch, h1. cbn. rewrite (update_id (prefetch_q_dev_ptrs h)) by done. by destruct h.
  - exists []. split; [done|]. intros rest. cbn [app].
    destruct rest; cbn [wait_for_fetch_q_space]; (erewrite M_bind_ok by (by apply elem_ok));
      (erewrite M_bind_ok by (by apply elem_ok)); rewrite (proj2 (Z.eqb_neq _ _)) by done; by rewrite with_fetch_id.
Qed.

(** A reservation succeeds once the kernel has caught up. *)
Lemma reserve_reads h cs n n0 size stall :
  host_inv h (Issued size stall) cs n n0 -> 2 <= entries dc ->
  exists reads h', Forall (eq (mark n)) reads /\ fetch_queue_reserve_back p core_type cq reads h = (h', Ok []).
Proof.
  intros [Hb Hst Ho Hci Hf Ha (Hlen & Hp & Hc)] H2. destruct (lk_addrs _ _ _ _ _ L) as [Haddr Hlen9].
  assert (Hne : enter_mark dc a n <> mark n) by (destruct n; cbn; lia).
  destruct (wait_reads h _ _ _ Hp Hf Hne) as (u1 & Hu1 & Hw1).
  set (h1 := with_fetch cq (enter_mark dc a n) (last_read (mark n0) u1) h) in *.
  assert (Hp1 : prefetch_q_dev_ptrs h1 !! Z.to_nat cq = Some (enter_mark dc a n)) by (by eapply update_eq).
  assert (Hrun : forall rest, fetch_queue_reserve_back p core_type cq (u1 ++ rest) h =
    (if enter_mark dc a n =? prefetch_q_base a + 2 * entries dc
     then wait_for_fetch_q_space cq rest (set_dev_ptrs (update (prefetch_q_dev_ptrs h1) cq (prefetch_q_base a)) h1)
     else (h1, Ok rest))).
  { intros rest. unfold fetch_queue_reserve_back. erewrite M_bind_ok by reflexivity. rewrite Hb.
    destruct (lookup_lt_is_Some_2 (device_cq_addrs dc) 0) as [a0 Ha0]; [lia|].
    erewrite M_bind_ok by (by eapply device_addr_settled). erewrite M_bind_ok by exact (Hw1 rest).
    erewrite M_bind_ok by (by eapply device_addr_settled).
    erewrite M_bind_ok by (eapply constants_settled; [done|by right]). erewrite M_bind_ok by (by apply elem_ok).
    fold (queue_limit dc (prefetch_q_base a)). rewrite queue_limit_eq. by case_match. }
  destruct (Z.eqb_spec (enter_mark dc a n) (prefetch_q_base a + 2 * entries dc)) as [E|E].
  - set (h2 := set_dev_ptrs _ h1) in *.
    assert (Hb2 : prefetch_q_base a <> mark n) by (destruct n; cbn in *; lia).
    destruct (wait_reads h2 (prefetch_q_base a) (last_read (mark n0) u1) (mark n)) as (u2 & Hu2 & Hw2);
      [by eapply update_eq|by eapply update_eq|done|].
    exists (u1 ++ u2). eexists. split; [by apply Forall_app|]. rewrite Hrun. specialize (Hw2 []). rewrite app_nil_r in Hw2. exact Hw2.
  - exists u1, h1. split; [done|]. specialize (Hrun []). by rewrite app_nil_r in Hrun.
Qed.

(** ** Entering the command *)

Lemma host_enter h cs n n1 size stall :
  Forall sized cs -> host_inv h (Reserved size stall) cs n n1 ->
  exists h' c, fetch_queue_write p core_type size cq stall h = (h', Ok tt) /\
  host_inv h' Idle cs (S n) n1 /\ pcie_view h' = pcie_view h /\ cs !! n = Some c /\
  events h' = events h ++ [FetchQueueEntry cq (slot dc a n) (fetch_entry (size_of c) c.2)].
Proof.
  intros Hcs [Hb Hst Ho Hci Hf Ha (Hlen & Hp & Hn & c & Hc & -> & ->)].
  pose proof (region_bounds _ _ _ _ _ L) as (_ & _ & _ & _ & Hmax).
  pose proof (proj1 (Forall_lookup _ _) Hcs n c Hc) as Hsz. apply (sized_bounds _ _ _ _ _ L) in Hsz as [Hsz _].
  unfold max_size in *.
  destruct (lk_addrs _ _ _ _ _ L) as [Haddr Hlen9]. eexists _, c. split; [eapply fetch_queue_write_ok; (done || lia)|].
  split; [|done]. pose proof (slot_range _ _ _ _ _ L n). pose proof (lk_queue _ _ _ _ _ L).
  constructor; try done. split; [done|]. cbn. rewrite u32_small by (unfold sizeof_entry, entries in *; lia).
  by eapply update_eq.
Qed.

(** The entry reaches an empty slot of the kernel's queue. *)
Lemma deliver_entry q cs n r c :
  queue_inv dc a q cs n r -> cs !! n = Some c -> Z.of_nat n < Z.of_nat r + entries dc ->
  let q' := deliver cq [FetchQueueEntry cq (slot dc a n) (fetch_entry (size_of c) c.2)] q in
  queue_inv dc a q' cs (S n) r /\
  q' = set_queue (prefetch_q q') (prefetch_q_rd_ptr q) (host_rd_ptr q) (host_pcie_rd_ptr q) q.
Proof.
  intros [Hrd Hh Hpc [Ho Hroom] He Hz] Hc Hn. cbn. rewrite Z.eqb_refl. split; [|done].
  apply lookup_lt_Some in Hc as Hlt.
  constructor; cbn; try done; [lia| |].
  - intros i c' Hi Hc'. unfold store. destruct (Z.eqb_spec (slot dc a i) (slot dc a n)) as [E|E].
    + apply (slot_inj _ _ _ _ _ L) in E as ->; [congruence|lia].
    + apply He; [|done]. destruct (decide (i = n)) as [->|]; [done|lia].
  - intros i Hi Hlt'. unfold store. destruct (Z.eqb_spec (slot dc a i) (slot dc a n)) as [E|E].
    + apply (slot_inj _ _ _ _ _ L) in E; lia.
    + apply Hz; lia.
Qed.
End Host.


