(* ===== verification/CommandQueueKernel.v ===== *)
(** * Host and prefetcher together: the kernel's steps

    From each point the kernel goes on to the next without failing (a relay may have
    to wait for downstream pages) and keeps its part of the invariant. *)

From Stdlib Require Import Lia.
From S2P Require Import Prelude Memory ConfigBuffer SystemMemory SystemMemoryOps IssueRing Prefetcher CommandQueueSystem CommandQueueInv.

(** ** Fetch-queue entries *)

Lemma fetch_entry_eq n st : 0 <= n < 2 ^ 19 -> n mod 16 = 0 ->
  fetch_entry n st = Z.lor (Z.land (n / 16) (Z.ones 15)) (if st then 2 ^ 15 else 0).
Proof.
  intros Hn Hm. unfold fetch_entry, PREFETCH_Q_LOG_MINSIZE. rewrite Z.shiftr_div_pow2 by lia. change (2 ^ 4) with 16.
  assert (0 <= n / 16 < 2 ^ 15) by (split; [apply Z.div_pos|apply Z.div_lt_upper_bound]; lia).
  rewrite Z.land_ones by lia. rewrite !Z.mod_small by lia. destruct st; [done|]. by rewrite Z.lor_0_r.
Qed.

Lemma entry_size_fetch n st : 0 <= n < 2 ^ 19 -> n mod 16 = 0 -> entry_size (fetch_entry n st) = n.
Proof.
  intros Hn Hm. rewrite fetch_entry_eq by done. unfold entry_size, PREFETCH_Q_LOG_MINSIZE.
  change (u32 (Z.lnot prefetch_q_msb_mask)) with 4294934527. rewrite Z.land_lor_distr_l, <- Z.land_assoc.
  replace (Z.land (if st then 2 ^ 15 else 0) 4294934527) with 0 by (by destruct st).
  change (Z.land (Z.ones 15) 4294934527) with (Z.ones 15). rewrite Z.lor_0_r, Z.land_ones by lia.
  assert (0 <= n / 16 < 2 ^ 15) by (split; [apply Z.div_pos|apply Z.div_lt_upper_bound]; lia).
  rewrite Z.mod_small by lia. rewrite Z.shiftl_mul_pow2 by lia. change (2 ^ 4) with 16.
  pose proof (Z.div_mod n 16 ltac:(lia)). rewrite u32_small; lia.
Qed.

Lemma entry_stalls_fetch n st : 0 <= n < 2 ^ 19 -> n mod 16 = 0 -> entry_stalls (fetch_entry n st) = st.
Proof.
  intros Hn Hm. rewrite fetch_entry_eq by done. unfold entry_stalls. change prefetch_q_msb_mask with (2 ^ 15).
  rewrite Z.land_lor_distr_l, <- Z.land_assoc. change (Z.land (Z.ones 15) (2 ^ 15)) with 0. rewrite Z.land_0_r. by destruct st.
Qed.

Lemma entry_zero : entry_size 0 = 0 /\ entry_stalls 0 = false.
Proof. done. Qed.

Lemma holds_app mem addr l1 l2 : holds mem addr l1 -> holds mem (addr + Z.of_nat (length l1)) l2 -> holds mem addr (l1 ++ l2).
Proof. intros H1 H2. unfold holds in *. rewrite length_app, Nat2Z.inj_add, read_mem_app, H1, H2 by lia. done. Qed.

Section Kernel.
Context (p : Platform) (dc : dispatch_constants) (a : PrefetchArgs) (offset k : Z).
Context (L : Linked p dc a offset k).

Local Abbreviation sized := (sized p dc).
Local Abbreviation header := (header_size a).

Lemma cmddat_end_eq : cmddat_q_end a = cmddat_q_base_ a + cmddat_q_size_ a.
Proof.
  unfold cmddat_q_end. pose proof (lk_cmddat _ _ _ _ _ L). pose proof (lk_cmddat_end _ _ _ _ _ L).
  pose proof (lk_header _ _ _ _ _ L). pose proof (lk_max _ _ _ _ _ L). rewrite u32_small; lia.
Qed.

Lemma sized16 c : sized c -> 0 < size_of c <= max_prefetch_command_size dc /\ size_of c < 2 ^ 19 /\ size_of c mod 16 = 0.
Proof.
  intros Hc. apply (sized_bounds _ _ _ _ _ L) in Hc as [Hs Hm]. pose proof (lk_max _ _ _ _ _ L).
  unfold max_size in *. split; [lia|]. split; [lia|]. apply (mod_pow_mod 4 k); [|done]. pose proof (lk_align _ _ _ _ _ L). lia.
Qed.

(** What the kernel sees at its read pointer. *)
Lemma entry_seen q cs n r c :
  queue_inv dc a q cs n r -> (r < n)%nat -> cs !! r = Some c ->
  prefetch_q q (prefetch_q_rd_ptr q) = fetch_entry (size_of c) c.2.
Proof. intros [Hrd _ _ _ He _] Hn Hc. rewrite Hrd. apply He; [lia|done]. Qed.

Lemma no_entry_seen q cs r : queue_inv dc a q cs r r -> prefetch_q q (prefetch_q_rd_ptr q) = 0.
Proof. intros [Hrd _ _ _ _ Hz]. rewrite Hrd. apply Hz; [done|]. pose proof (entries_pos _ _ _ _ _ L). lia. Qed.

(** ** Issuing a read *)

Definition read_issued (q : Prefetcher) (cs : list command) (r : nat) (c : command) (pre f : Z) : Prefetcher :=
  set_queue (store (slot dc a r) 0 (prefetch_q q)) (slot dc a (S r)) (slot dc a r) (pointer a cs (S r))
    (set_pcie_read_ptr (pointer a cs (S r))
      (set_l1 (l1 q) (in_flight q ++ [mkRead (address a cs r c) (f + pre) (size_of c)]) (set_fence f q))).

Lemma issue_read_ok q cs n r c pre :
  queue_inv dc a q cs n r -> Forall sized cs -> cs !! r = Some c -> 0 <= pre <= header ->
  cmddat_q_base_ a <= fence q <= cmddat_q_end a ->
  issue_read a pre (size_of c) q = (read_issued q cs r c pre (fence q), Ok (size_of c + pre)).
Proof.
  intros Hq Hcs Hc Hpre Hf. pose proof (proj1 (Forall_lookup _ _) Hcs r c Hc) as Hsz.
  pose proof (sized16 _ Hsz) as (Hs & Hs19 & _). pose proof (lk_region _ _ _ _ _ L). pose proof (lk_max _ _ _ _ _ L).
  pose proof (lk_cmddat _ _ _ _ _ L). pose proof (lk_cmddat_end _ _ _ _ _ L). rewrite cmddat_end_eq in Hf.
  pose proof (pointer_range _ _ _ _ _ L cs r Hcs) as Hp. pose proof (address_range _ _ _ _ _ L cs r c Hcs Hsz) as Ha.
  pose proof (region_bounds _ _ _ _ _ L) as Hreg. pose proof (entries_pos _ _ _ _ _ L) as He.
  pose proof (slot_range _ _ _ _ _ L r) as Hsl. pose proof (lk_queue _ _ _ _ _ L) as Hqb. pose proof (lk_entries _ _ _ _ _ L) as Hen.
  destruct Hq as [Hrd _ Hpc _ _ _]. unfold CommandQueueInv.limit, CommandQueueInv.start, entries in *.
  unfold issue_read. erewrite M_bind_ok by reflexivity. rewrite (u32_small (pcie_base a + pcie_size a)) by lia.
  rewrite Hpc, (u32_small (pointer a cs r + size_of c)) by lia.
  assert (Hw : (when (pcie_base a + pcie_size a <? pointer a cs r + size_of c) (modify (set_pcie_read_ptr (pcie_base a)))) q
    = (set_pcie_read_ptr (address a cs r c) q, Ok tt)).
  { unfold address, place, when, CommandQueueInv.limit. case_match; [done|]. rewrite <- Hpc. by destruct q. }
  erewrite M_bind_ok by exact Hw. unfold mbind, M_bind, get, noc_async_read, modify, mret, M_ret.
  cbn [pcie_read_ptr set_pcie_read_ptr fence set_l1 in_flight l1 prefetch_q prefetch_q_rd_ptr set_queue host_rd_ptr host_pcie_rd_ptr].
  rewrite (u32_small (fence q + pre)), (u32_small (size_of c + pre)), (u32_small (address a cs r c + size_of c)) by lia.
  rewrite <- (pointer_next _ _ _ _ Hc), Hrd.
  assert (Hend : prefetch_q_end a = prefetch_q_base a + 2 * entries dc).
  { unfold prefetch_q_end, entries. rewrite u32_small; lia. }
  rewrite Hend, (u32_small (slot dc a r + sizeof_entry)) by (unfold sizeof_entry; lia).
  change sizeof_entry with 2. rewrite <- (slot_next _ _ _ _ _ L). by destruct q.
Qed.

Lemma read_issued_queue q cs n r c pre f :
  queue_inv dc a q cs n r -> (r < n)%nat -> queue_inv dc a (read_issued q cs r c pre f) cs n (S r).
Proof.
  intros [Hrd Hh Hpc [Ho Hroom] He Hz] Hn. pose proof (entries_pos _ _ _ _ _ L).
  constructor; cbn [read_issued set_queue prefetch_q_rd_ptr host_rd_ptr pcie_read_ptr set_pcie_read_ptr prefetch_q]; try done.
  - lia.
  - intros i c' Hi Hc'. unfold store. destruct (Z.eqb_spec (slot dc a i) (slot dc a r)) as [E|E].
    + apply (slot_inj _ _ _ _ _ L) in E; lia.
    + apply He; [lia|done].
  - intros i Hi Hlt. unfold store. destruct (Z.eqb_spec (slot dc a i) (slot dc a r)) as [E|E]; [done|].
    apply Hz; [done|]. destruct (decide (Z.of_nat i = Z.of_nat r + entries dc)) as [Ei|]; [|lia].
    exfalso. apply E. unfold slot. rewrite Ei. rewrite <- (Z.mul_1_l (entries dc)) at 1. by rewrite Z.mod_add by lia.
Qed.

(** With nothing ready the read is issued, the command-data queue wrapped if needed. *)
Lemma read_from_pcie_none q cs n r c :
  queue_inv dc a q cs n r -> Forall sized cs -> cs !! r = Some c -> cmd_ptr q = fence q ->
  cmddat_q_base_ a <= fence q <= cmddat_q_end a ->
  exists f, (f = fence q \/ f = cmddat_q_base_ a) /\ f <= fence q /\ f + (size_of c + header) <= cmddat_q_end a /\
  read_from_pcie a header (size_of c) q = (read_issued q cs r c header f, Ok (size_of c + header)).
Proof.
  intros Hq Hcs Hc Hcmd Hf. pose proof (proj1 (Forall_lookup _ _) Hcs r c Hc) as Hsz.
  pose proof (sized16 _ Hsz) as (Hs & _ & _). pose proof (lk_header _ _ _ _ _ L).
  pose proof (lk_cmddat _ _ _ _ _ L). pose proof (lk_cmddat_end _ _ _ _ _ L). pose proof cmddat_end_eq as Hend.
  unfold read_from_pcie. setoid_rewrite M_bind_ok; [|reflexivity].
  rewrite (u32_small (fence q + size_of c)), (u32_small (fence q + size_of c + header)) by lia.
  destruct (Z.ltb_spec (cmddat_q_end a) (fence q + size_of c + header)).
  - rewrite bool_decide_eq_false_2 by congruence. exists (cmddat_q_base_ a). split; [by right|]. split; [lia|]. split; [lia|].
    erewrite M_bind_ok by reflexivity.
    rewrite (issue_read_ok (set_fence (cmddat_q_base_ a) q) cs n r); try done; try lia; [destruct Hq; by constructor|cbn; lia].
  - exists (fence q). split; [by left|]. split; [lia|]. split; [lia|]. apply (issue_read_ok q cs n r); (done || lia).
Qed.

(** With commands ready the read is issued only where it fits behind them. *)
Lemma read_from_pcie_ready q cs n r c pre :
  queue_inv dc a q cs n r -> Forall sized cs -> cs !! r = Some c -> cmd_ptr q <> fence q -> 0 <= pre <= header ->
  cmddat_q_base_ a <= fence q <= cmddat_q_end a ->
  read_from_pcie a pre (size_of c) q = (q, Ok 0) \/
  fence q + (size_of c + pre) <= cmddat_q_end a /\
  read_from_pcie a pre (size_of c) q = (read_issued q cs r c pre (fence q), Ok (size_of c + pre)).
Proof.
  intros Hq Hcs Hc Hcmd Hpre Hf. pose proof (proj1 (Forall_lookup _ _) Hcs r c Hc) as Hsz.
  pose proof (sized16 _ Hsz) as (Hs & _ & _).
  pose proof (lk_cmddat _ _ _ _ _ L). pose proof (lk_cmddat_end _ _ _ _ _ L). pose proof cmddat_end_eq as Hend.
  unfold read_from_pcie. setoid_rewrite M_bind_ok; [|reflexivity..].
  rewrite (u32_small (fence q + size_of c)), (u32_small (fence q + size_of c + pre)) by lia.
  destruct (Z.ltb_spec (cmddat_q_end a) (fence q + size_of c + pre)).
  - left. by rewrite bool_decide_eq_true_2.
  - right. split; [lia|]. apply (issue_read_ok q cs n r); (done || lia).
Qed.

(** ** The points *)

Local Abbreviation kernel_inv := (kernel_inv dc a).

(** The parts of the invariant that changes of the other fields leave alone. *)
Lemma queue_same q q' cs n r :
  queue_inv dc a q cs n r -> prefetch_q q' = prefetch_q q -> prefetch_q_rd_ptr q' = prefetch_q_rd_ptr q ->
  host_rd_ptr q' = host_rd_ptr q -> pcie_read_ptr q' = pcie_read_ptr q -> queue_inv dc a q' cs n r.
Proof. intros [] Hq Hr Hh Hp. constructor; rewrite ?Hq, ?Hr, ?Hh, ?Hp; done. Qed.

(** [fetch_q_get_cmds] with nothing ready: a read is pending, there is no entry, or the entry's read is issued. *)
Lemma fetch_first_eq q :
  let e := prefetch_q q (prefetch_q_rd_ptr q) in
  let q1 := set_stall (stall_of e) q in
  stall_state q <> STALLED -> cmd_ptr q = fence q ->
  (pending_read_size q <> 0 -> fetch_first a header q = (q1, Ok AtBarrier)) /\
  (pending_read_size q = 0 -> entry_size e = 0 -> fetch_first a header q = (q1, Ok AtPoll)) /\
  (pending_read_size q = 0 -> entry_size e <> 0 -> forall q2 v, read_from_pcie a header (entry_size e) q1 = (q2, Ok v) -> v <> 0 ->
    fetch_first a header q = (set_pending v q2, Ok (if bool_decide (stall_state q2 = STALL_NEXT) then AtStall else AtBarrier))).
Proof.
  intros e q1 Hrun Hcmd. unfold fetch_first, mbind, M_bind, get. rewrite bool_decide_eq_false_2 by done.
  rewrite (proj2 (Z.ltb_ge (fence q) (cmd_ptr q))) by lia. cbn [when mret M_ret].
  rewrite (bool_decide_eq_false_2 (cmd_ptr q <> fence q)) by (intros []; done). fold e. unfold modify. fold q1.
  split; [|split].
  - intros Hp. rewrite (proj2 (Z.eqb_neq (pending_read_size q) 0)) by done. rewrite andb_false_r. cbn.
    by rewrite (proj2 (Z.eqb_neq (pending_read_size q) 0)) by done.
  - intros Hp He. rewrite He. cbn. by rewrite Hp.
  - intros Hp He q2 v Hr Hv. rewrite Hp, (proj2 (Z.eqb_neq (entry_size e) 0)) by done. cbn [negb andb Z.eqb when].
    rewrite Hr. cbn. rewrite (proj2 (Z.eqb_neq v 0)) by done. cbn. rewrite andb_true_r. by case_bool_decide.
Qed.

Lemma stall_of_fetch n st : 0 <= n < 2 ^ 19 -> n mod 16 = 0 -> stall_of (fetch_entry n st) = if st then STALL_NEXT else NOT_STALLED.
Proof. intros Hn Hm. unfold stall_of. by rewrite entry_stalls_fetch. Qed.

Lemma stall_of_running e : stall_of e <> STALLED.
Proof. unfold stall_of. by case_match. Qed.

(** The state after a read issued with nothing ready. *)
Lemma first_read_inv q cs n l gs c f :
  kernel_inv q AtPoll cs n l l gs [] -> Forall sized cs -> (l < n)%nat -> cs !! l = Some c ->
  (f = fence q \/ f = cmddat_q_base_ a) -> f <= fence q -> f + (size_of c + header) <= cmddat_q_end a ->
  kernel_inv (set_pending (size_of c + header) (read_issued (set_stall (if c.2 then STALL_NEXT else NOT_STALLED) q) cs l c header f))
    (if c.2 then AtStall else AtBarrier) cs n (S l) l gs [].
Proof.
  intros [Hq Hf Hl Hrel Hpk (Hrun & _ & Hcmd & (_ & Hin & Hp))] Hcs Hlt Hc Hf' Hle Hfit.
  set (q1 := set_stall _ q). set (q' := set_pending _ _).
  assert (Hq1 : queue_inv dc a q1 cs n l) by (by eapply queue_same).
  assert (Hq' : queue_inv dc a q' cs n (S l)) by (by eapply queue_same; [apply (read_issued_queue q1 cs n l c header f)|..]).
  assert (Hfl : flight a q' cs (S l) l header c.2).
  { split; [done|]. exists c. cbn. by rewrite Hin. }
  assert (Hnone : none_ready q') by (unfold none_ready; cbn; lia).
  constructor; try done; [cbn; destruct Hf'; subst; lia| |by destruct c.2].
  cbn [point_inv]. destruct c.2 eqn:Est; (split; [done|]).
  - by left.
  - done.
Qed.

Lemma fetch_first_ok q cs n r l gs g pcie exits :
  kernel_inv q AtFetch cs n r l gs g -> Forall sized cs ->
  exists q' pt' r', kernel_step a exits pcie AtFetch q = (q', Ok pt') /\ kernel_inv q' pt' cs n r' l gs g /\ (r <= r')%nat /\
    (pt' = AtPoll /\ l = n \/ pt' = AtBarrier \/ pt' = AtStall).
Proof.
  intros [Hq Hf Hl Hrel Hpk (Hrun & -> & Hcmd & Hfl)] Hcs. cbn [kernel_step].
  pose proof (fetch_first_eq q Hrun Hcmd) as (E1 & E2 & E3). cbv zeta in *. pose proof (lk_header _ _ _ _ _ L).
  set (e := prefetch_q q (prefetch_q_rd_ptr q)) in *. set (q1 := set_stall (stall_of e) q) in *.
  assert (Hq1 : queue_inv dc a q1 cs n r) by (by eapply queue_same).
  destruct Hfl as [(-> & Hin & Hp)|Hfl]; [destruct (decide (l = n)) as [->|Hne]|].
  - assert (He : e = 0) by (by apply no_entry_seen with cs n).
    exists q1, AtPoll, n. split; [apply E2; [done|by rewrite He]|]. split; [|split; [done|by left]].
    constructor; try done. split; [apply stall_of_running|]. done.
  - pose proof (proj1 (qi_order _ _ _ _ _ _ Hq)).
    destruct (lookup_lt_is_Some_2 cs l) as [c Hc]; [lia|].
    pose proof (sized16 _ (proj1 (Forall_lookup _ _) Hcs l c Hc)) as (Hs & Hs19 & Hs16).
    assert (He : e = fetch_entry (size_of c) c.2) by (eapply entry_seen; [done|lia|done]).
    destruct (read_from_pcie_none q1 cs n l c) as (f & Hf' & Hle & Hfit & Hread); try done.
    rewrite He, entry_size_fetch in E3 by (done || lia).
    eexists _, _, (S l). split; [apply (E3 Hp ltac:(lia) _ _ Hread); lia|].
    split; [|split; [lia|right]].
    unfold q1. cbn [stall_state read_issued set_queue set_pcie_read_ptr set_l1 set_fence set_stall].
    rewrite He, stall_of_fetch by (done || lia).
    replace (if bool_decide _ then AtStall else AtBarrier) with (if c.2 then AtStall else AtBarrier) by (by destruct c.2).
    2:{ unfold q1. cbn. rewrite He, stall_of_fetch by (done || lia). destruct c.2; auto. }
    apply first_read_inv; (done || lia || by constructor).
  - pose proof Hfl as (-> & c & Hc & Hst & Hin & Hp & Hend).
    pose proof (sized16 _ (proj1 (Forall_lookup _ _) Hcs l c Hc)) as (Hs & _).
    exists q1, AtBarrier, (S l). split; [apply E1; lia|]. split; [|auto].
    constructor; try done. split; [apply stall_of_running|]. split; [done|]. split; [unfold none_ready; cbn; lia|done].
Qed.

(** ** Landing *)

Definition landed_state (pcie : Z -> Z) (q : Prefetcher) : Prefetcher :=
  let q := set_l1 (land_reads pcie (in_flight q) (l1 q)) [] q in
  let q := if fence q <? cmd_ptr q then set_cmd_ptr (fence q) q else q in
  set_pending 0 (set_fence (u32 (fence q + pending_read_size q)) q).

Lemma fetch_land_eq pcie q : fetch_land pcie q = (landed_state pcie q, Ok AtRecheck).
Proof.
  unfold fetch_land, noc_async_read_barrier, landed_state, mbind, M_bind, get, modify, when. cbn.
  by destruct (fence q <? cmd_ptr q).
Qed.

Lemma fetch_stall_eq pcie q : fetch_stall pcie q = (set_stall STALLED (landed_state pcie q), Ok AtRelay).
Proof.
  unfold fetch_stall, barrier_and_stall, noc_async_read_barrier, landed_state, mbind, M_bind, get, modify, when. cbn.
  by destruct (fence q <? cmd_ptr q).
Qed.

Lemma bytes_app g1 g2 : bytes (g1 ++ g2) = bytes g1 ++ bytes g2.
Proof. unfold bytes. by rewrite map_app, join_app. Qed.

Lemma bytes_one c : bytes [c] = c.1.
Proof. unfold bytes. cbn. apply app_nil_r. Qed.

(** The command in flight lands behind those that are ready. *)
Lemma landed_ready pcie q cs r l g pre st :
  flight a q cs r l pre st -> Forall sized cs -> memory_inv a pcie cs l -> cmddat_q_base_ a <= fence q <= cmddat_q_end a ->
  (g = [] /\ none_ready q /\ pre = header \/ g <> [] /\ ready a q g /\ pre = 0) ->
  exists c, cs !! l = Some c /\ c.2 = st /\ ready a (landed_state pcie q) (g ++ [c]) /\
  no_flight (landed_state pcie q) r (S l) /\ cmddat_q_base_ a <= fence (landed_state pcie q) <= cmddat_q_end a.
Proof.
  intros (-> & c & Hc & Hst & Hin & Hp & Hend) Hcs Hmem Hf Hcase.
  pose proof (sized16 _ (proj1 (Forall_lookup _ _) Hcs l c Hc)) as (Hs & _). pose proof (lk_header _ _ _ _ _ L).
  pose proof cmddat_end_eq. pose proof (lk_cmddat _ _ _ _ _ L). pose proof (lk_cmddat_end _ _ _ _ _ L).
  assert (Hdata : read_mem pcie (address a cs l c) (size_of c) = c.1) by (by apply (Hmem l c)).
  assert (Hl1 : land_reads pcie (in_flight q) (l1 q) = write_mem (fence q + pre) c.1 (l1 q)).
  { rewrite Hin. cbn. by rewrite Hdata. }
  assert (Hfe : u32 (fence q + pending_read_size q) = fence q + (size_of c + pre)).
  { rewrite Hp. apply u32_small. destruct Hcase as [(_ & _ & ->)|(_ & _ & ->)]; lia. }
  exists c. split; [done|]. split; [done|]. unfold landed_state. rewrite Hl1.
  unfold ready. rewrite bytes_app, bytes_one, length_app. fold (size_of c).
  destruct Hcase as [(-> & Hnone & ->)|(Hg & (Hb & Hfen & Hh) & ->)]; cbn [fence cmd_ptr set_l1 pending_read_size].
  - assert (Hc' : (if fence q <? cmd_ptr q then fence q else cmd_ptr q) = fence q).
    { unfold none_ready in Hnone. destruct (Z.ltb_spec (fence q) (cmd_ptr q)); lia. }
    destruct (fence q <? cmd_ptr q); cbn; rewrite Hfe; cbn; unfold size_of in *.
    + repeat split; try lia. by eapply holds_write.
    + rewrite Hc'. repeat split; try lia. by eapply holds_write.
  - rewrite (proj2 (Z.ltb_ge _ _)) by lia. cbn. rewrite Hfe. unfold size_of in *. repeat split; try lia.
    apply holds_app.
    + eapply holds_frame; [done| |exact Hh]. lia.
    + rewrite <- Hfen, Z.add_0_r. by eapply holds_write.
Qed.

Lemma landed_queue pcie q cs n r : queue_inv dc a q cs n r -> queue_inv dc a (landed_state pcie q) cs n r.
Proof. intros H. unfold landed_state. cbn [fence cmd_ptr set_l1]. case_match; by eapply queue_same. Qed.

Lemma landed_relayed pcie q : relayed (landed_state pcie q) = relayed q /\ stall_state (landed_state pcie q) = stall_state q.
Proof. unfold landed_state. cbn [fence cmd_ptr set_l1]. by case_match. Qed.

Lemma landed_take (cs : list command) l gs g c :
  cs !! l = Some c -> mjoin gs ++ g = take l cs -> mjoin gs ++ g ++ [c] = take (S l) cs.
Proof. intros Hc H. rewrite app_assoc, H. symmetry. by apply take_S_r. Qed.

Lemma fetch_land_ok q cs n r l gs g pcie exits :
  kernel_inv q AtBarrier cs n r l gs g -> Forall sized cs -> memory_inv a pcie cs l ->
  exists q' g', kernel_step a exits pcie AtBarrier q = (q', Ok AtRecheck) /\ kernel_inv q' AtRecheck cs n r (S l) gs g'.
Proof.
  intros [Hq Hf Hl Hrel Hpk (Hrun & -> & Hnone & Hfl)] Hcs Hmem.
  destruct (landed_ready pcie q cs r l [] header false Hfl Hcs Hmem Hf ltac:(by left)) as (c & Hc & Hst & Hready & Hno & Hf').
  destruct (landed_relayed pcie q) as [Hr Hs].
  eexists _, [c]. split; [apply fetch_land_eq|].
  constructor; try done; [by apply landed_queue|by apply (landed_take _ _ _ [])|by rewrite Hr|].
  rewrite <- Hs in Hrun. split; [done|]. split; [by exists c|done].
Qed.

Lemma relayed_set_stall st q : relayed (set_stall st q) = relayed q.
Proof. done. Qed.

Lemma fetch_stall_ok q cs n r l gs g pcie exits :
  kernel_inv q AtStall cs n r l gs g -> Forall sized cs -> memory_inv a pcie cs l ->
  exists q' g', kernel_step a exits pcie AtStall q = (q', Ok AtRelay) /\ kernel_inv q' AtRelay cs n r (S l) gs g'.
Proof.
  intros [Hq Hf Hl Hrel Hpk (Hrun & Hcase)] Hcs Hmem.
  destruct (landed_relayed pcie q) as [Hr Hs].
  destruct Hcase as [(-> & Hnone & Hfl)|((c0 & -> & Hc0) & Hready0 & Hfl)].
  - destruct (landed_ready pcie q cs r l [] header true Hfl Hcs Hmem Hf ltac:(by left)) as (c & Hc & Hst & Hready & Hno & Hf').
    eexists _, [c]. split; [apply fetch_stall_eq|].
    constructor; try done; [by apply (queue_same (landed_state pcie q)); [apply landed_queue|..]|by apply (landed_take _ _ _ [])|by rewrite relayed_set_stall, Hr|].
    split; [done|]. split; [left; by exists c|]. left. split; [done|]. split; [done|]. by exists c.
  - destruct (landed_ready pcie q cs r l [c0] 0 true Hfl Hcs Hmem Hf ltac:(by right)) as (c & Hc & Hst & Hready & Hno & Hf').
    eexists _, [c0; c]. split; [apply fetch_stall_eq|].
    constructor; try done; [by apply (queue_same (landed_state pcie q)); [apply landed_queue|..]|by apply (landed_take _ _ _ [c0])|by rewrite relayed_set_stall, Hr|].
    split; [done|]. split; [right; by exists c0, c|]. left. split; [done|]. split; [done|]. by exists c.
Qed.

Lemma fetch_poll_ok q cs n r l gs g pcie exits :
  kernel_inv q AtPoll cs n r l gs g ->
  exists pt', kernel_step a exits pcie AtPoll q = (q, Ok pt') /\ kernel_inv q pt' cs n r l gs g.
Proof.
  intros [Hq Hf Hl Hrel Hpk (Hrun & -> & Hcmd & Hno)]. cbn [kernel_step]. unfold fetch_poll, mbind, M_bind, get, mret, M_ret.
  destruct (_ =? 0); [destruct (exit_at_heartbeat exits)|]; eexists; (split; [done|]); constructor; try done; [by left|].
  repeat split; try done. by left.
Qed.

(** "After the stall, re-check the host" *)
Lemma fetch_recheck_eq q :
  let e := prefetch_q q (prefetch_q_rd_ptr q) in
  let q1 := set_stall (stall_of e) q in
  (entry_size e = 0 -> fetch_recheck a header q = (q, Ok AtRelay)) /\
  (entry_size e <> 0 -> forall q2 v, read_from_pcie a (if entry_stalls e then 0 else header) (entry_size e) q1 = (q2, Ok v) ->
    fetch_recheck a header q = (set_pending v q2, Ok (if entry_stalls e && negb (v =? 0) then AtStall else AtRelay))).
Proof.
  intros e q1. unfold fetch_recheck, mbind, M_bind, get. fold e. split.
  - intros ->. done.
  - intros He q2 v Hr. rewrite (proj2 (Z.eqb_neq (entry_size e) 0)) by done. unfold modify. fold q1.
    destruct (entry_stalls e); rewrite Hr; [|done]. cbn. by destruct (v =? 0).
Qed.

(** The state after a look at the queue with [c0] ready: nothing was read, or [c] was. *)
Lemma recheck_inv q cs n l gs c0 (c : command) :
  kernel_inv q AtRecheck cs n l l gs [c0] -> Forall sized cs -> (l < n)%nat -> cs !! l = Some c ->
  let q1 := set_stall (if c.2 then STALL_NEXT else NOT_STALLED) q in
  let pre := if c.2 then 0 else header in
  kernel_inv (set_pending 0 q1) AtRelay cs n l l gs [c0] /\
  (fence q + (size_of c + pre) <= cmddat_q_end a ->
   kernel_inv (set_pending (size_of c + pre) (read_issued q1 cs l c pre (fence q))) (if c.2 then AtStall else AtRelay) cs n (S l) l gs [c0]).
Proof.
  intros [Hq Hf Hl Hrel Hpk (Hrun & (c1 & [= <-] & Hc0) & Hready & (_ & Hin & Hp))] Hcs Hlt Hc q1 pre.
  assert (Hpk1 : packet [c0]) by (left; by exists c0).
  split.
  - constructor; try done; [by eapply queue_same|]. split; [done|]. split; [done|]. right.
    split; [cbn; by destruct c.2|]. split; [by exists c0|]. by left.
  - intros Hfit. assert (Hq1 : queue_inv dc a q1 cs n l) by (by eapply queue_same).
    set (q' := set_pending _ _).
    assert (Hq' : queue_inv dc a q' cs n (S l)) by (by eapply queue_same; [apply (read_issued_queue q1 cs n l c pre (fence q))|..]).
    assert (Hfl : flight a q' cs (S l) l pre c.2).
    { split; [done|]. exists c. cbn. by rewrite Hin. }
    constructor; try done; [|by destruct c.2]. unfold q', pre, q1 in *. destruct c.2 eqn:Est; cbn [point_inv].
    + split; [done|]. right. split; [by exists c0|done].
    + split; [done|]. split; [done|]. right. split; [done|]. split; [by exists c0|]. by right.
Qed.

Lemma fetch_recheck_ok q cs n r l gs g pcie exits :
  kernel_inv q AtRecheck cs n r l gs g -> Forall sized cs ->
  exists q' pt' r', kernel_step a exits pcie AtRecheck q = (q', Ok pt') /\ kernel_inv q' pt' cs n r' l gs g /\ (r <= r')%nat /\
    (pt' = AtRelay \/ pt' = AtStall).
Proof.
  intros Hinv Hcs. pose proof Hinv as [Hq Hf Hl Hrel Hpk (Hrun & (c0 & -> & Hc0) & Hready & Hno)].
  pose proof Hno as (-> & Hin & Hp). cbn [kernel_step]. pose proof (fetch_recheck_eq q) as [E1 E2]. cbv zeta in *.
  pose proof (lk_header _ _ _ _ _ L).
  destruct (decide (l = n)) as [->|Hne].
  - exists q, AtRelay, n. split; [apply E1; by rewrite (no_entry_seen q cs n Hq)|].
    split; [|auto]. constructor; try done. split; [done|]. split; [left; by exists c0|].
    right. split; [done|]. split; [by exists c0|]. by left.
  - pose proof (proj1 (qi_order _ _ _ _ _ _ Hq)). destruct (lookup_lt_is_Some_2 cs l) as [c Hc]; [lia|].
    pose proof (sized16 _ (proj1 (Forall_lookup _ _) Hcs l c Hc)) as (Hs & Hs19 & Hs16).
    rewrite (entry_seen q cs n l c Hq ltac:(lia) Hc), entry_size_fetch, entry_stalls_fetch, stall_of_fetch in E2 by (done || lia).
    set (q1 := set_stall _ q) in *. set (pre := if c.2 then 0 else header) in *.
    assert (Hq1 : queue_inv dc a q1 cs n l) by (by eapply queue_same).
    destruct (recheck_inv q cs n l gs c0 c Hinv Hcs ltac:(lia) Hc) as [I0 I1].
    destruct Hready as (Hb & Hfen & _).
    destruct (read_from_pcie_ready q1 cs n l c pre) as [Hr|[Hfit Hr]]; try done.
    + cbn. lia.
    + unfold pre. destruct c.2; lia.
    + eexists _, _, l. split; [apply (E2 ltac:(lia) _ _ Hr)|]. cbn [Z.eqb negb]. rewrite andb_false_r. auto.
    + eexists _, _, (S l). split; [apply (E2 ltac:(lia) _ _ Hr)|].
      rewrite (proj2 (Z.eqb_neq _ 0)) by (unfold pre; destruct c.2; lia). cbn [negb]. rewrite andb_true_r.
      specialize (I1 Hfit). split; [exact I1|]. split; [lia|]. destruct c.2; auto.
Qed.

(** ** Relaying *)

(** The pages a packet of [m] bytes takes. *)
Definition pages_of (m : Z) : Z := Z.shiftr (u32 (u32 (m + downstream_cb_page_size a) - 1)) (downstream_cb_log_page_size a).

(** The fields a relay leaves alone. *)
Definition relay_frame (q q' : Prefetcher) : Prop :=
  (prefetch_q q' = prefetch_q q /\ prefetch_q_rd_ptr q' = prefetch_q_rd_ptr q /\ host_rd_ptr q' = host_rd_ptr q /\
   pcie_read_ptr q' = pcie_read_ptr q) /\
  fence q' = fence q /\ pending_read_size q' = pending_read_size q /\ in_flight q' = in_flight q.

Lemma page_size_eq : downstream_cb_page_size a = 2 ^ downstream_cb_log_page_size a.
Proof.
  unfold downstream_cb_page_size. pose proof (lk_pages _ _ _ _ _ L). rewrite Z.shiftl_mul_pow2, Z.mul_1_l by lia.
  apply u32_small. split; [apply Z.pow_nonneg; lia|apply Z.pow_lt_mono_r; lia].
Qed.

(** A split at [available] bytes, where the packet wraps, carries the same bytes. *)
Lemma packet_bytes (d1 d2 : Z) mem addr m available :
  0 <= available <= m ->
  mjoin (map snd ((if 0 <? available then [(d1, read_mem mem addr available)] else []) ++
    [(d2, read_mem mem (addr + available) (m - available))])) = read_mem mem addr m.
Proof.
  intros H. replace m with (available + (m - available)) at 2 by lia. rewrite read_mem_app by lia.
  destruct (Z.ltb_spec 0 available); cbn; rewrite ?app_nil_r; [done|].
  assert (available = 0) as -> by lia. done.
Qed.

Lemma fewer_pages m left : 0 < m < 2 ^ 32 - 2 ^ downstream_cb_log_page_size a -> 0 <= left < pages_of m ->
  0 <= u32 (left * downstream_cb_page_size a) <= m.
Proof.
  intros Hm Hleft. unfold pages_of in Hleft. rewrite page_size_eq in *. set (pg := 2 ^ downstream_cb_log_page_size a) in *.
  pose proof (lk_pages _ _ _ _ _ L). assert (0 < pg) by (apply Z.pow_pos_nonneg; lia).
  rewrite (u32_small (m + pg)), (u32_small (m + pg - 1)), Z.shiftr_div_pow2 in Hleft by lia. fold pg in Hleft.
  assert (left * pg < m).
  { pose proof (Z.div_mod (m + pg - 1) pg ltac:(lia)). pose proof (Z.mod_pos_bound (m + pg - 1) pg ltac:(lia)). nia. }
  rewrite u32_small by nia. nia.
Qed.

Lemma payload_read mem addr m w bytes (writes : list (Z * list Z)) :
  4 <= header -> m = header + Z.of_nat (length bytes) -> holds mem (addr + header) bytes ->
  mjoin (map snd writes) = read_mem (write_mem addr (word_bytes w) mem) addr m -> payload header writes = bytes.
Proof.
  intros Hh -> Hd Hw. unfold payload. rewrite Hw, read_mem_app by lia. rewrite drop_app_length' by (rewrite length_read_mem; lia).
  unfold holds in Hd. rewrite <- Hd at 2. apply read_mem_ext. intros i Hi. apply write_mem_out. cbn. lia.
Qed.

(** Whether the relay has to wait for downstream pages. *)
Definition waits (exits : exit_flags) (q : Prefetcher) : bool :=
  negb (exit_in_wait exits) && wrap_gt (pages_of (fence q - cmd_ptr q)) (my_downstream_cb_sem q).

Lemma relay_all_eq q g early_exit is_exec_buf :
  ready a q g -> 0 < fence q - cmd_ptr q -> fence q <= cmddat_q_end a ->
  (negb early_exit && wrap_gt (pages_of (fence q - cmd_ptr q)) (my_downstream_cb_sem q) = true ->
   (process_relay_inline_all a early_exit is_exec_buf q).2 = Err OutOfFuel) /\
  (negb early_exit && wrap_gt (pages_of (fence q - cmd_ptr q)) (my_downstream_cb_sem q) = false ->
   exists q' writes, process_relay_inline_all a early_exit is_exec_buf q = (q', Ok (fence q)) /\ payload header writes = bytes g /\
   relayed q' = relayed q ++ [writes] /\ relay_frame q q' /\
   stall_state q' = if is_exec_buf then NOT_STALLED else stall_state q).
Proof.
  intros (Hb & Hfen & Hh) Hm Hend. pose proof (lk_cmddat _ _ _ _ _ L). pose proof (lk_cmddat_end _ _ _ _ _ L).
  pose proof cmddat_end_eq. pose proof (lk_pages_room _ _ _ _ _ L). pose proof (lk_header _ _ _ _ _ L).
  unfold process_relay_inline_all, cb_acquire_pages, cb_release_pages, mbind, M_bind, get, modify, require, check.
  rewrite (u32_small (fence q - cmd_ptr q)) by lia. fold (pages_of (fence q - cmd_ptr q)).
  set (m := fence q - cmd_ptr q) in *.
  assert (Hmeq : m = header + Z.of_nat (length (bytes g))) by (unfold m; lia).
  assert (Hmle : m <= cmddat_q_size_ a) by (unfold m; lia).
  split; intros Hsem; destruct early_exit; cbn [negb andb] in Hsem; try done; cbv iota beta; cbn [my_downstream_cb_sem set_l1]; rewrite ?Hsem; cbn [negb]; try done;
    destruct is_exec_buf; unfold when; cbn;
    match goal with |- context [pages_of m <=? ?left] => destruct (Z.leb_spec (pages_of m) left) as [|Hleft] end;
    (eexists _, _; split; [done|]; split; [|done]); eapply payload_read with (m := m); try done; try lia;
    first [by rewrite <- app_nil_r | apply packet_bytes, fewer_pages; [lia|split; [apply Z.shiftr_nonneg, u32_range|done]]].
Qed.

(** The kernel looks at the first byte of what is ready. *)
Lemma ready_head q g c g' : ready a q g -> g = c :: g' -> sized c -> fence q <= cmddat_q_end a ->
  terminates c <-> l1 q (u32 (cmd_ptr q + header)) = CQ_PREFETCH_CMD_TERMINATE.
Proof.
  intros (Hb & Hfen & Hh) -> Hc%sized16 Hend. pose proof (lk_cmddat _ _ _ _ _ L). pose proof (lk_cmddat_end _ _ _ _ _ L).
  pose proof cmddat_end_eq. pose proof (lk_header _ _ _ _ _ L). rewrite u32_small by lia. unfold terminates, size_of in *.
  destruct c as [[|b l] st]; [cbn in Hc; lia|]. cbn [head fst]. unfold holds in Hh.
  assert (read_mem (l1 q) (cmd_ptr q + header) (Z.of_nat (length (bytes (((b :: l), st) :: g')))) !! 0%nat = Some b) as E by (by rewrite Hh).
  rewrite read_mem_lookup in E by (cbn; lia). rewrite Z.add_0_r in E. injection E as ->. split; [by intros [= ->]|by intros ->].
Qed.

Lemma relay_ok q cs n r l gs g pcie exits :
  kernel_inv q AtRelay cs n r l gs g -> Forall sized cs -> exit_at_heartbeat exits = false ->
  (waits exits q = true -> (kernel_step a exits pcie AtRelay q).2 = Err OutOfFuel) /\
  (waits exits q = false ->
   exists q' pt', kernel_step a exits pcie AtRelay q = (q', Ok pt') /\ (pt' = AtFetch \/ pt' = Terminated) /\
   kernel_inv q' pt' cs n r l (gs ++ [g]) []).
Proof.
  intros [Hq Hf Hl Hrel Hpk (Hready & Hg & Hcase) _] Hcs Hexit. pose proof (lk_header _ _ _ _ _ L).
  pose proof Hready as (_ & Hfen & _). cbn [kernel_step]. unfold relay_commands. rewrite Hexit.
  destruct (relay_all_eq q g (exit_in_wait exits) (bool_decide (stall_state q = STALLED)) Hready ltac:(lia) ltac:(lia)) as [R1 R2].
  change (negb _ && _) with (waits exits q) in R1, R2. split; intros Hw.
  { specialize (R1 Hw). unfold mbind, M_bind, get. cbv beta iota zeta. destruct (process_relay_inline_all _ _ _ q) as [q' [v|e]]; [done|injection R1 as ->; done]. }
  destruct (R2 Hw) as (q' & writes & Hstep & Hpay & Hrel' & ((F1 & F2 & F3 & F4) & F5 & F6 & F7) & Hst).
  exists (set_cmd_ptr (fence q) q'), (if l1 q (u32 (cmd_ptr q + header)) =? CQ_PREFETCH_CMD_TERMINATE then Terminated else AtFetch).
  split; [unfold mbind, M_bind, get; by rewrite Hstep|]. split; [destruct (_ =? _); auto|].
  assert (Hpt : forall x, (x = AtFetch \/ x = Terminated) -> point_inv a x (set_cmd_ptr (fence q) q') cs r l []).
  { intros x Hx. assert (stall_state q' <> STALLED /\ (no_flight q r l \/ flight a q cs r l header false)) as [Hrun Hfl].
    { rewrite Hst. destruct Hcase as [(Hs & Hno & _)|(Hs & _ & Hfl)].
      - rewrite bool_decide_eq_true_2 by done. split; [done|by left].
      - rewrite bool_decide_eq_false_2 by done. done. }
    assert (no_flight (set_cmd_ptr (fence q) q') r l \/ flight a (set_cmd_ptr (fence q) q') cs r l header false)
      by (unfold no_flight, flight in *; cbn; by rewrite F5, F6, F7).
    destruct Hx as [-> | ->]; [|done]. by repeat split. }
  constructor.
  - by eapply queue_same.
  - cbn. by rewrite F5.
  - rewrite app_nil_r, join_app. cbn. by rewrite app_nil_r.
  - cbn. rewrite Hrel', !map_app, Hrel. cbn. by rewrite Hpay.
  - apply Forall_app. by rewrite Forall_singleton.
  - apply Hpt. destruct (_ =? _); auto.
  - intros Ht. destruct (Z.eqb_spec (l1 q (u32 (cmd_ptr q + header))) CQ_PREFETCH_CMD_TERMINATE) as [E|]; [|done].
    assert (exists c g', g = c :: g') as (c & g' & Eg) by (destruct Hg as [[c ->]|(c & d & -> & _)]; eauto).
    exists c, g'. rewrite last_snoc. split; [by rewrite Eg|]. refine (proj2 (ready_head q g c g' Hready Eg _ ltac:(lia)) E).
    assert (Forall sized (take l cs)) as Ht' by (by apply Forall_take). rewrite <- Hl, Eg in Ht'. apply Forall_app in Ht' as [_ Ht']. by inversion Ht'.
Qed.

(** Every point but the relay goes on by itself; none fails. *)
Lemma kernel_step_ok q pt cs n r l gs g pcie exits :
  kernel_inv q pt cs n r l gs g -> Forall sized cs -> memory_inv a pcie cs l ->
  (exists q' pt' r' l' gs' g', kernel_step a exits pcie pt q = (q', Ok pt') /\ kernel_inv q' pt' cs n r' l' gs' g' /\
    (r <= r')%nat /\ (l <= l')%nat) \/
  pt = AtRelay /\ (kernel_step a exits pcie pt q).2 = Err OutOfFuel.
Proof.
  intros Hinv Hcs Hmem. destruct pt.
  - destruct (fetch_first_ok _ _ _ _ _ _ _ pcie exits Hinv Hcs) as (q' & pt' & r' & ? & ? & ? & _). left. by exists q', pt', r', l, gs, g.
  - destruct (fetch_poll_ok _ _ _ _ _ _ _ pcie exits Hinv) as (pt' & ? & ?). left. by exists q, pt', r, l, gs, g.
  - destruct (fetch_land_ok _ _ _ _ _ _ _ pcie exits Hinv Hcs Hmem) as (q' & g' & ? & ?). left.
    exists q', AtRecheck, r, (S l), gs, g'. split; [done|]. split; [done|]. lia.
  - destruct (fetch_recheck_ok _ _ _ _ _ _ _ pcie exits Hinv Hcs) as (q' & pt' & r' & ? & ? & ? & _). left. by exists q', pt', r', l, gs, g.
  - destruct (fetch_stall_ok _ _ _ _ _ _ _ pcie exits Hinv Hcs Hmem) as (q' & g' & ? & ?). left.
    exists q', AtRelay, r, (S l), gs, g'. split; [done|]. split; [done|]. lia.
  - destruct (exit_at_heartbeat exits) eqn:Hexit.
    + left. exists q, Exited, r, l, gs, g. cbn [kernel_step]. unfold relay_commands. rewrite Hexit. split; [done|]. split; [|lia].
      destruct Hinv as [Hq Hf Hl Hrel Hpk (_ & _ & Hcase) _]. constructor; try done.
      destruct Hcase as [(_ & Hno & _)|(_ & _ & Hfl)]; [by left|done].
    + destruct (relay_ok _ _ _ _ _ _ _ pcie exits Hinv Hcs Hexit) as [R1 R2]. destruct (waits exits q); [right; auto|left].
      destruct (R2 eq_refl) as (q' & pt' & ? & _ & ?). by exists q', pt', r, l, (gs ++ [g]), [].
  - left. by exists q, Terminated, r, l, gs, g.
  - left. by exists q, Exited, r, l, gs, g.
Qed.
End Kernel.
