(* ===== verification/CommandQueueSteps.v ===== *)
(** * Host and prefetcher together: the invariant holds

    Every step of the pair keeps the invariant; the steps the kernel and the host have
    left always lead to all commands relayed. *)

From Stdlib Require Import Lia.
From S2P Require Import Prelude Memory ConfigBuffer SystemMemory SystemMemoryOps IssueRing Prefetcher CommandQueueSystem.
From S2P Require Import CommandQueueInv CommandQueueHost CommandQueueKernel.

Section Steps.
Context (p : Platform) (core_type : CoreType) (dc : dispatch_constants) (a : PrefetchArgs) (cq offset k : Z).
Context (L : Linked p dc a offset k).

Local Abbreviation sized := (sized p dc).
Local Abbreviation host_inv := (host_inv core_type dc a cq offset).
Local Abbreviation kernel_inv := (kernel_inv dc a).
Local Abbreviation invariant := (invariant p core_type dc a cq offset).
Local Abbreviation step := (step p core_type cq (max_size dc) a).

(** ** More commands, more published values *)

Lemma queue_more q cs c n r : queue_inv dc a q cs n r -> (n <= length cs)%nat -> queue_inv dc a q (cs ++ [c]) n r.
Proof.
  intros [Hrd Hh Hpc [Ho Hroom] He Hz] Hn. constructor; try done.
  - by rewrite pointer_app by lia.
  - rewrite length_app. cbn. lia.
  - intros i c' Hi Hc'. apply He; [done|]. by rewrite lookup_app_l in Hc' by lia.
Qed.

Lemma flight_more q cs c r l pre st : flight a q cs r l pre st -> flight a q (cs ++ [c]) r l pre st.
Proof.
  intros (-> & d & Hd & ?). split; [done|]. exists d. apply lookup_lt_Some in Hd as Hlt.
  split; [by apply lookup_app_l_Some|]. by rewrite address_app by lia.
Qed.

Lemma flight_or_more q cs c r l pre st :
  no_flight q r l \/ flight a q cs r l pre st -> no_flight q r l \/ flight a q (cs ++ [c]) r l pre st.
Proof. intros [H|H]; [by left|right; by apply flight_more]. Qed.

Lemma landed_le q pt cs n r l gs g : kernel_inv q pt cs n r l gs g -> (r = l \/ r = S l) /\ (l <= length cs)%nat.
Proof.
  intros [Hq _ _ _ _ Hp _]. pose proof (proj1 (qi_order _ _ _ _ _ _ Hq)).
  assert (r = l \/ r = S l); [|lia].
  destruct pt; cbn in Hp.
  - destruct Hp as (_ & _ & _ & [[-> _]|[-> _]]); auto.
  - destruct Hp as (_ & _ & _ & [-> _]); auto.
  - destruct Hp as (_ & _ & _ & [-> _]); auto.
  - destruct Hp as (_ & _ & _ & [-> _]); auto.
  - destruct Hp as (_ & [(_ & _ & [-> _])|(_ & _ & [-> _])]); auto.
  - destruct Hp as (_ & _ & [(_ & [-> _] & _)|(_ & _ & [[-> _]|[-> _]])]); auto.
  - destruct Hp as (_ & [[-> _]|[-> _]]); auto.
  - destruct Hp as [[-> _]|[-> _]]; auto.
Qed.

Lemma kernel_more q pt cs c n r l gs g :
  kernel_inv q pt cs n r l gs g -> (n <= length cs)%nat -> kernel_inv q pt (cs ++ [c]) n r l gs g.
Proof.
  intros H Hn. pose proof (landed_le _ _ _ _ _ _ _ _ H) as [_ Hle]. destruct H as [Hq Hf Hl Hrel Hpk Hp Ht].
  constructor; try done; [by apply queue_more|by rewrite take_app_le by lia|].
  destruct pt; cbn in *.
  - destruct Hp as (? & ? & ? & Hfl). split_and!; [done..|]. by apply flight_or_more.
  - done.
  - destruct Hp as (? & ? & ? & Hfl). split_and!; [done..|]. by apply flight_more.
  - done.
  - destruct Hp as (? & [(? & ? & Hfl)|(? & ? & Hfl)]); (split; [done|]); [left|right];
      (split; [done|]; split; [done|]; by apply flight_more).
  - destruct Hp as (? & ? & [?|(? & ? & Hfl)]); (split; [done|]; split; [done|]); [by left|right].
    split; [done|]. split; [done|]. by apply flight_or_more.
  - destruct Hp as (? & Hfl). split; [done|]. by apply flight_or_more.
  - by apply flight_or_more.
Qed.

Lemma history_next vs i n0 r r' : history_inv dc a vs i n0 r -> (r <= r')%nat -> history_inv dc a (vs ++ [read_mark dc a r']) i n0 r'.
Proof.
  intros (counts & -> & Hi & Hle & Hmono) Hr. exists (counts ++ [r']). rewrite map_app. split; [done|].
  split; [by apply lookup_app_l_Some|]. split.
  - apply Forall_app. split; [|by constructor]. eapply Forall_impl; [exact Hle|]. cbn. lia.
  - intros x y m m' Hxy Hx Hy. rewrite Forall_lookup in Hle.
    rewrite lookup_app_Some in Hx, Hy. destruct Hx as [Hx|[? Hx]], Hy as [Hy|[? Hy]].
    + by eapply Hmono.
    + apply list_lookup_singleton_Some in Hy as [_ <-]. specialize (Hle _ _ Hx). cbn in Hle. lia.
    + apply lookup_lt_Some in Hy. lia.
    + apply list_lookup_singleton_Some in Hx as [_ <-]. by apply list_lookup_singleton_Some in Hy as [_ <-].
Qed.

Lemma history_le vs i n0 r : history_inv dc a vs i n0 r -> (n0 <= r)%nat.
Proof. intros (counts & _ & Hi & Hle & _). rewrite Forall_lookup in Hle. by apply (Hle _ _ Hi). Qed.

(** ** The steps *)

Definition host_in_room (s : System) (n r l : nat) : Prop := Z.of_nat n <= Z.of_nat l + entries dc.

Lemma room s n0 n r l gs g : invariant s n0 n r l gs g -> Z.of_nat n <= Z.of_nat l + entries dc.
Proof.
  intros [_ Hh Hk _ Hv]. apply history_le in Hv. pose proof (hi_allowed _ _ _ _ _ _ _ _ _ _ Hh).
  pose proof (allowed_mono _ _ _ _ _ L n0 r Hv). apply landed_le in Hk as [Hk _].
  destruct r; cbn in *; lia.
Qed.

Lemma memory_more pcie pcie' cs data stall n l :
  memory_inv a pcie cs l -> Forall sized cs -> sized (data, stall) -> n = length cs -> Z.of_nat n <= Z.of_nat l + entries dc -> (l <= n)%nat ->
  (forall x, pcie' x = write_mem (address a cs (length cs) (data, stall)) data pcie x) ->
  memory_inv a pcie' (cs ++ [(data, stall)]) l.
Proof.
  intros Hm Hcs Hc -> Hroom Hl Hw i c Hi Hci. apply lookup_app_Some in Hci as [Hci|[Hge Hci]].
  - rewrite address_app by (apply lookup_lt_Some in Hci; lia).
    eapply holds_frame; [exact Hw| |by apply Hm].
    pose proof (new_command_apart _ _ _ _ _ L cs (data, stall) l i c Hcs Hc Hroom Hi Hci). unfold size_of in *. cbn in *. lia.
  - apply list_lookup_singleton_Some in Hci as [Hi0 <-]. replace i with (length cs) by lia.
    rewrite address_app by lia. by eapply holds_write.
Qed.

Lemma invariant_step s s' n0 n r l gs g :
  invariant s n0 n r l gs g -> step s s' -> exists n0' n' r' l' gs' g', invariant s' n0' n' r' l' gs' g'.
Proof.
  intros Hinv Hstep. pose proof (room _ _ _ _ _ _ _ Hinv) as Hroom. destruct Hinv as [Hcs Hh Hk Hm Hv].
  pose proof (landed_le _ _ _ _ _ _ _ _ Hk) as [_ Hll]. pose proof (qi_order _ _ _ _ _ _ (ki_queue _ _ _ _ _ _ _ _ _ _ Hk)) as [Hord _].
  destruct Hstep as [h h' q pt cs vs i data stall Hws Hiss|h h' q pt cs vs i i' size stall reads Hreads Hres|
    h h' q pt cs vs i size stall Hw|h ph q q' pt pt' cs vs i exits _ Hker|h ph q pt cs vs i m]; cbn in *.
  - pose proof (hi_phase _ _ _ _ _ _ _ _ _ _ Hh) as [Hlen _].
    destruct (host_issue p core_type dc a cq offset k L h cs n n0 data stall Hh Hcs Hws) as (h1 & Hi1 & Hh1 & Hmem & _).
    rewrite Hi1 in Hiss. injection Hiss as <-. exists n0, n, r, l, gs, g. constructor; try done.
    + apply Forall_app. split; [done|]. by constructor.
    + apply kernel_more; [done|lia].
    + eapply memory_more; try done; lia.
  - destruct (host_reserve p core_type dc a cq offset k L h h' cs n n0 r size stall vs i i' reads Hh Hv Hreads Hres)
      as (n1 & Hh1 & Hv1 & Hp & _). exists n1, n, r, l, gs, g. constructor; try done. cbn. by rewrite Hp.
  - pose proof (hi_phase _ _ _ _ _ _ _ _ _ _ Hh) as (Hlen & _ & Hn & _).
    destruct (host_enter p core_type dc a cq offset k L h cs n n0 size stall Hcs Hh) as (h1 & c & Hw1 & Hh1 & Hp & Hc & He).
    rewrite Hw1 in Hw. injection Hw as <-. exists n0, (S n), r, l, gs, g.
    rewrite He, drop_app_length. destruct Hk as [Hq Hf Hl Hrel Hpk Hpt Ht].
    pose proof (history_le _ _ _ _ Hv) as Hn0. pose proof (allowed_mono _ _ _ _ _ L n0 r Hn0).
    assert (Hn' : Z.of_nat n < Z.of_nat r + entries dc) by (destruct r; cbn in *; lia).
    destruct (deliver_entry p dc a cq offset k L q cs n r c Hq Hc Hn') as [Hq' Heq].
    cbn in Hq'. rewrite Z.eqb_refl in Hq'. constructor; try done; [|cbn; by rewrite Hp]. cbn. rewrite Z.eqb_refl. by constructor.
  - pose proof (kernel_step_ok p dc a offset k L q pt cs n r l gs g (pcie_view h) exits Hk Hcs Hm)
      as [(q1 & pt1 & r' & l' & gs' & g' & Hs1 & Hk1 & Hr & Hl1)|[-> Herr]].
    + rewrite Hs1 in Hker. injection Hker as <- <-. exists n0, n, r', l', gs', g'. constructor; try done.
      * intros j c Hj. apply Hm. lia.
      * cbn. rewrite (qi_host _ _ _ _ _ _ (ki_queue _ _ _ _ _ _ _ _ _ _ Hk1)). by apply history_next with r.
    + by rewrite Hker in Herr.
  - exists n0, n, r, l, gs, g. constructor; try done. destruct Hk as [Hq Hf Hl Hrel Hpk Hpt]. constructor; try done. by eapply queue_same.
Qed.

Lemma invariant_initial h mem :
  host_inv h Idle [] 0 0 -> invariant (initial a h mem) 0 0 0 0 [] [].
Proof.
  intros Hh. pose proof (entries_pos _ _ _ _ _ L). pose proof (lk_entries _ _ _ _ _ L). pose proof (lk_queue _ _ _ _ _ L).
  pose proof (cmddat_end_eq _ _ _ _ _ L). pose proof (lk_cmddat _ _ _ _ _ L). pose proof (lk_header _ _ _ _ _ L). pose proof (lk_max _ _ _ _ _ L).
  constructor; try done.
  - constructor; try done; cbn; [|lia|split_and!; (done || by left)].
    constructor; try done; cbn; try lia.
    + unfold slot. rewrite Z.mod_0_l by lia. lia.
    + unfold entries in *. rewrite u32_small; lia.
  - exists [0%nat]. cbn. unfold entries in *. split; [f_equal; rewrite u32_small; lia|]. split; [done|]. split; [by repeat constructor|].
    intros i j m m' _ Hx Hy. apply list_lookup_singleton_Some in Hx as [_ <-]. by apply list_lookup_singleton_Some in Hy as [_ <-].
Qed.

Lemma invariant_reachable h mem s :
  host_inv h Idle [] 0 0 -> reachable p core_type cq (max_size dc) a h mem s ->
  exists n0 n r l gs g, invariant s n0 n r l gs g.
Proof.
  intros Hh. induction 1 as [|s s' Hr (n0 & n & r & l & gs & g & IH) Hstep].
  - eexists _, _, _, _, _, _. by apply invariant_initial.
  - by eapply invariant_step.
Qed.
End Steps.
