(* ===== verification/CommandQueueLive.v ===== *)
(** * Host and prefetcher together: progress

    The kernel, given downstream pages, drains the fetch queue, and a command the host
    has begun can always be completed: a measure decreases with every move. *)

From Stdlib Require Import Lia.
From stdpp Require Import relations.
From S2P Require Import Prelude Memory ConfigBuffer SystemMemory SystemMemoryOps IssueRing Prefetcher CommandQueueSystem.
From S2P Require Import CommandQueueInv CommandQueueHost CommandQueueKernel CommandQueueSteps.

Section Live.
Context (p : Platform) (core_type : CoreType) (dc : dispatch_constants) (a : PrefetchArgs) (cq offset k : Z).
Context (L : Linked p dc a offset k).

Local Abbreviation invariant := (invariant p core_type dc a cq offset).
Local Abbreviation step := (step p core_type cq (max_size dc) a).

(** The moves left: six a command that has not landed, and the distance of the point. *)
Definition distance (pt : point) (n l : nat) : nat :=
  (6 * (n - l) + match pt with
    | AtBarrier | AtStall => 0 | AtFetch => 2 | AtPoll => if decide (l = n) then 0 else 3 | AtRelay => 4 | AtRecheck => 5
    | Terminated | Exited => 1 end)%nat.

(** No command but the last one issued ends the prefetcher. *)
Definition terminates_last (cs : list command) : Prop := forall i c, cs !! i = Some c -> terminates c -> S i = length cs.

(** A prefetcher that has ended then has relayed every command. *)
Lemma terminated_done q cs n r l gs g : kernel_inv dc a q Terminated cs n r l gs g -> terminates_last cs -> l = n /\ n = length cs.
Proof.
  intros Hk Hlast. pose proof (landed_le _ _ _ _ _ _ _ _ _ _ Hk) as [Hrl Hle]. destruct Hk as [Hq _ Hl _ _ (-> & _) Ht].
  pose proof (proj1 (qi_order _ _ _ _ _ _ Hq)). destruct (Ht eq_refl) as (c & g' & Hgs & Hc). apply last_Some in Hgs as (gs0 & ->).
  rewrite app_nil_r, join_app in Hl. cbn in Hl. rewrite app_nil_r in Hl.
  assert (take l cs !! length (mjoin gs0) = Some c) as Hi by (rewrite <- Hl; by apply list_lookup_middle).
  apply lookup_take_Some in Hi as [Hi Hlt]. specialize (Hlast _ _ Hi Hc). lia.
Qed.

(** Only the kernel has moved. *)
Definition kernel_only (s s' : System) : Prop :=
  rtc step s s' /\ host s' = host s /\ phase s' = phase s /\ commands s' = commands s /\ seen s' = seen s.

Lemma kernel_only_trans s1 s2 s3 : kernel_only s1 s2 -> kernel_only s2 s3 -> kernel_only s1 s3.
Proof. intros (R1 & ? & ? & ? & ?) (R2 & ? & ? & ? & ?). split_and!; [by etrans|congruence..]. Qed.

(** The kernel's move, from the parts of the invariant it concerns. *)
Lemma kernel_moves s n0 n r l gs g q' pt' r' l' gs' g' :
  invariant s n0 n r l gs g -> kernel_step a no_exit (pcie_view (host s)) (pt s) (kernel s) = (q', Ok pt') ->
  kernel_inv dc a q' pt' (commands s) n r' l' gs' g' -> (r <= r')%nat -> (l <= l')%nat ->
  exists s', kernel_only s s' /\ pt s' = pt' /\ invariant s' n0 n r' l' gs' g'.
Proof.
  intros [Hcs Hh Hk Hm Hv] Hs Hk' Hr Hl. destruct s as [h ph q pt cs vs i]; cbn in *.
  exists (mkSystem h ph q' pt' cs (vs ++ [host_rd_ptr q']) i). split; [split_and!; try done; apply rtc_once, step_kernel with no_exit; auto|].
  split; [done|]. constructor; try done.
  - intros j c Hj. apply Hm. lia.
  - cbn. rewrite (qi_host _ _ _ _ _ _ (ki_queue _ _ _ _ _ _ _ _ _ _ Hk')). by apply history_next with r.
Qed.

(** Downstream returns what the packet at hand needs. *)
Lemma pages_returned s n0 n r l gs g :
  invariant s n0 n r l gs g -> exists s', kernel_only s s' /\ pt s' = pt s /\ invariant s' n0 n r l gs g /\
  waits a no_exit (kernel s') = false.
Proof.
  intros [Hcs Hh Hk Hm Hv]. destruct s as [h ph q pt cs vs i]; cbn in *.
  set (pages := pages_of a (fence q - cmd_ptr q)).
  exists (mkSystem h ph (set_downstream (u32 (my_downstream_cb_sem q + (pages - my_downstream_cb_sem q))) (downstream_cb_sem q)
    (downstream_data_ptr q) (relayed q) q) pt cs vs i).
  split; [split_and!; try done; apply rtc_once, step_downstream|]. split; [done|]. split.
  - constructor; try done. destruct Hk as [Hq Hf Hl Hrel Hpk Hpt Ht]. constructor; try done. by eapply queue_same.
  - unfold waits. cbn. fold pages. replace (my_downstream_cb_sem q + (pages - my_downstream_cb_sem q)) with pages by lia.
    assert (0 <= pages < 2 ^ 32).
    { unfold pages, pages_of. rewrite Z.shiftr_div_pow2 by (pose proof (lk_pages _ _ _ _ _ L); lia).
      set (x := u32 _). pose proof (u32_range (u32 (fence q - cmd_ptr q + downstream_cb_page_size a) - 1)) as Hx. fold x in Hx.
      pose proof (lk_pages _ _ _ _ _ L). assert (0 < 2 ^ downstream_cb_log_page_size a) by (apply Z.pow_pos_nonneg; lia).
      split; [apply Z.div_pos; lia|]. apply Z.div_lt_upper_bound; nia. }
    rewrite u32_small by lia. unfold wrap_gt. by rewrite Z.sub_diag.
Qed.

(** Unless it waits with nothing left to fetch, or has ended, the kernel moves closer. *)
Lemma kernel_closer s n0 n r l gs g :
  invariant s n0 n r l gs g -> terminates_last (commands s) -> pt s <> Exited -> ((pt s = AtPoll \/ pt s = Terminated) /\ l = n) \/
  exists s' r' l' gs' g', kernel_only s s' /\ pt s' <> Exited /\ invariant s' n0 n r' l' gs' g' /\ (distance (pt s') n l' < distance (pt s) n l)%nat.
Proof.
  intros Hinv Hlast Hex. pose proof Hinv as [Hcs Hh Hk Hm Hv]. pose proof (landed_le _ _ _ _ _ _ _ _ _ _ Hk) as [Hrl _].
  pose proof (proj1 (qi_order _ _ _ _ _ _ (ki_queue _ _ _ _ _ _ _ _ _ _ Hk))) as Hord.
  set (pcie := pcie_view (host s)). destruct (pt s) eqn:Ept.
  - right. destruct (fetch_first_ok p dc a offset k L _ _ _ _ _ _ _ pcie no_exit Hk Hcs) as (q' & pt' & r' & Hs & Hk' & Hr & Hpt).
    destruct (kernel_moves s n0 n r l gs g q' pt' r' l gs g Hinv ltac:(by rewrite Ept) Hk' Hr ltac:(done)) as (s' & Ho & Hp & Hi).
    exists s', r', l, gs, g. split; [done|]. split; [rewrite Hp; by destruct Hpt as [[-> _]|[-> | ->]]|]. split; [done|]. rewrite Hp. unfold distance; cbv iota.
    destruct Hpt as [[-> ->]|[-> | ->]]; cbv iota; [rewrite decide_True by done|..]; lia.
  - destruct (decide (l = n)) as [->|Hne]; [left; auto|right].
    pose proof Hk as [Hq _ _ _ _ (_ & _ & _ & [-> _])].
    destruct (lookup_lt_is_Some_2 (commands s) l) as [c Hc]; [lia|].
    pose proof (sized16 _ _ _ _ _ L _ (proj1 (Forall_lookup _ _) Hcs l c Hc)) as (Hs & Hs19 & Hs16).
    destruct (fetch_poll_ok _ _ _ _ _ _ _ _ _ pcie no_exit Hk) as (pt' & Hst & Hk').
    assert (pt' = AtFetch) as ->.
    { cbn in Hst. unfold fetch_poll, mbind, M_bind, get, mret, M_ret in Hst.
      rewrite (entry_seen _ _ _ _ _ _ _ Hq ltac:(lia) Hc) in Hst.
      destruct (Z.eqb_spec (fetch_entry (size_of c) c.2) 0) as [E|E]; [|by injection Hst as <-].
      pose proof (entry_size_fetch (size_of c) c.2 ltac:(lia) Hs16) as E0. rewrite E in E0. change (entry_size 0) with 0 in E0. lia. }
    destruct (kernel_moves s n0 n l l gs g _ _ l l gs g Hinv ltac:(by rewrite Ept) Hk' ltac:(done) ltac:(done)) as (s' & Ho & Hp & Hi).
    exists s', l, l, gs, g. split; [done|]. split; [by rewrite Hp|]. split; [done|]. rewrite Hp. unfold distance; cbv iota. rewrite decide_False by done. lia.
  - right. destruct (fetch_land_ok p dc a offset k L _ _ _ _ _ _ _ pcie no_exit Hk Hcs Hm) as (q' & g' & Hs & Hk').
    destruct (kernel_moves s n0 n r l gs g _ _ r (S l) gs g' Hinv ltac:(by rewrite Ept) Hk' ltac:(done) ltac:(lia)) as (s' & Ho & Hp & Hi).
    exists s', r, (S l), gs, g'. split; [done|]. split; [by rewrite Hp|]. split; [done|]. rewrite Hp. unfold distance; cbv iota.
    pose proof (landed_le _ _ _ _ _ _ _ _ _ _ Hk') as [? _]. lia.
  - right. destruct (fetch_recheck_ok p dc a offset k L _ _ _ _ _ _ _ pcie no_exit Hk Hcs) as (q' & pt' & r' & Hs & Hk' & Hr & Hpt).
    destruct (kernel_moves s n0 n r l gs g q' pt' r' l gs g Hinv ltac:(by rewrite Ept) Hk' Hr ltac:(done)) as (s' & Ho & Hp & Hi).
    exists s', r', l, gs, g. split; [done|]. split; [rewrite Hp; by destruct Hpt as [-> | ->]|]. split; [done|]. rewrite Hp.
    unfold distance; cbv iota. destruct Hpt as [-> | ->]; cbv iota; lia.
  - right. destruct (fetch_stall_ok p dc a offset k L _ _ _ _ _ _ _ pcie no_exit Hk Hcs Hm) as (q' & g' & Hs & Hk').
    destruct (kernel_moves s n0 n r l gs g _ _ r (S l) gs g' Hinv ltac:(by rewrite Ept) Hk' ltac:(done) ltac:(lia)) as (s' & Ho & Hp & Hi).
    exists s', r, (S l), gs, g'. split; [done|]. split; [by rewrite Hp|]. split; [done|]. rewrite Hp. unfold distance; cbv iota.
    pose proof (landed_le _ _ _ _ _ _ _ _ _ _ Hk') as [? _]. lia.
  - right. destruct (pages_returned s n0 n r l gs g Hinv) as (s1 & Ho1 & Hp1 & Hi1 & Hpages). pose proof Hi1 as [Hcs1 _ Hk1 _ _].
    rewrite Hp1, Ept in Hk1. destruct (relay_ok p dc a offset k L _ _ _ _ _ _ _ (pcie_view (host s1)) no_exit Hk1 Hcs1 eq_refl) as [_ R].
    destruct (R Hpages) as (q' & pt' & Hs & Hpt & Hk').
    destruct (kernel_moves s1 n0 n r l gs g _ _ r l _ _ Hi1 ltac:(by rewrite Hp1, Ept) Hk' ltac:(done) ltac:(done)) as (s' & Ho & Hp & Hi).
    exists s', r, l, (gs ++ [g]), []. split; [by eapply kernel_only_trans|]. split; [rewrite Hp; by destruct Hpt as [-> | ->]|].
    split; [done|]. rewrite Hp. unfold distance; cbv iota. destruct Hpt as [-> | ->]; cbv iota; lia.
  - left. split; [by right|]. by eapply terminated_done.
  - done.
Qed.

(** The kernel drains the fetch queue. *)
Lemma kernel_drains s n0 n r l gs g :
  invariant s n0 n r l gs g -> terminates_last (commands s) -> pt s <> Exited ->
  exists s' gs', kernel_only s s' /\ (pt s' = AtPoll \/ pt s' = Terminated) /\ invariant s' n0 n n n gs' [].
Proof.
  remember (distance (pt s) n l) as d eqn:Ed. revert s r l gs g Ed.
  induction d as [d IH] using lt_wf_ind. intros s r l gs g -> Hinv Hlast Hex.
  destruct (kernel_closer _ _ _ _ _ _ _ Hinv Hlast Hex) as [[Hpt ->]|(s' & r' & l' & gs' & g' & Ho & Hex' & Hi & Hd)].
  - pose proof (inv_kernel _ _ _ _ _ _ _ _ _ _ _ _ _ Hinv) as Hk. pose proof (landed_le _ _ _ _ _ _ _ _ _ _ Hk) as [Hrl _].
    destruct Hk as [Hq _ _ _ _ Hp _]. pose proof (proj1 (qi_order _ _ _ _ _ _ Hq)). assert (r = n) as -> by lia.
    assert (g = []) as -> by (destruct Hpt as [Hpt|Hpt]; rewrite Hpt in Hp; [by destruct Hp as (_ & -> & _)|by destruct Hp as (-> & _)]).
    exists s, gs. split; [by split_and!|done].
  - pose proof Ho as (_ & _ & _ & Hc & _).
    destruct (IH _ Hd s' r' l' gs' g' eq_refl Hi ltac:(by rewrite Hc) Hex') as (s2 & gs2 & Ho2 & Hpt2 & Hi2).
    exists s2, gs2. split; [by eapply kernel_only_trans|done].
Qed.

(** What has been relayed, packet by packet. *)
Lemma relayed_bytes s n0 n r l gs g :
  invariant s n0 n r l gs g ->
  map (payload (header_size a)) (relayed (kernel s)) = map bytes gs /\ Forall packet gs /\ mjoin gs ++ g = take l (commands s).
Proof. intros [_ _ [_ _ ? ? ? _ _] _ _]. done. Qed.

Lemma reads_last vs i v reads : last vs = Some v -> (i < length vs)%nat -> Forall (eq v) reads -> exists j, reads_from vs i reads j.
Proof.
  intros Hv. revert i. induction reads as [|w reads IH]; intros i Hi H; [exists i; constructor|].
  inversion H as [|? ? E1 E2]; subst. rewrite last_lookup in Hv. destruct (IH (pred (length vs))) as [j Hj]; [lia|done|].
  exists j. apply reads_next with (pred (length vs)); [lia|done..].
Qed.

(** A reservation, once the kernel has drained the queue. *)
Lemma host_reserves s n0 n gs size stall :
  invariant s n0 n n n gs [] -> pt s = AtPoll -> phase s = Issued size stall -> 2 <= entries dc ->
  last (published s) = Some (read_mark dc a n) ->
  exists s' n1, rtc step s s' /\ phase s' = Reserved size stall /\ commands s' = commands s /\ pt s' = pt s /\ invariant s' n1 n n n gs [].
Proof.
  intros Hinv Hpt Hph H2 Hlast. pose proof Hinv as [Hcs Hh Hk Hm Hv]. rewrite Hph in Hh.
  destruct (reserve_reads p core_type dc a cq offset k L _ _ _ _ _ _ Hh H2) as (reads & h' & Hreads & Hres).
  assert (Hi : (seen s < length (published s))%nat).
  { destruct Hv as (counts & -> & Hi & _). rewrite length_map. by apply lookup_lt_Some in Hi. }
  destruct (reads_last _ _ _ _ Hlast Hi Hreads) as (j & Hj).
  destruct (host_reserve p core_type dc a cq offset k L _ h' _ n n0 n size stall _ _ j reads Hh Hv Hj Hres)
    as (n1 & Hh1 & Hv1 & Hp & _).
  destruct s as [h ph q pt cs vs i]; cbn in *. subst ph.
  exists (mkSystem h' (Reserved size stall) q pt cs vs j), n1. split; [by apply rtc_once, step_reserve with reads|].
  split; [done|]. split; [done|]. split; [done|]. constructor; try done. cbn. by rewrite Hp.
Qed.

Lemma host_enters s n0 n r l gs g size stall :
  invariant s n0 n r l gs g -> phase s = Reserved size stall ->
  exists s' n0' n' r' l' gs' g', step s s' /\ phase s' = Idle /\ commands s' = commands s /\ pt s' = pt s /\ invariant s' n0' n' r' l' gs' g'.
Proof.
  intros Hinv Hph. pose proof Hinv as [Hcs Hh _ _ _]. rewrite Hph in Hh.
  destruct (host_enter p core_type dc a cq offset k L _ _ _ _ size stall Hcs Hh) as (h1 & c & Hw1 & _).
  destruct s as [h ph q pt cs vs i]; cbn in *. subst ph.
  assert (Hs : step (mkSystem h (Reserved size stall) q pt cs vs i)
    (mkSystem h1 Idle (deliver cq (drop (length (events h)) (events h1)) q) pt cs vs i)) by (by apply step_enter).
  destruct (invariant_step p core_type dc a cq offset k L _ _ _ _ _ _ _ _ Hinv Hs) as (n0' & n' & r' & l' & gs' & g' & Hi).
  eexists _, _, _, _, _, _, _. split; [exact Hs|done].
Qed.

Lemma idle_completes s n0 n r l gs g :
  invariant s n0 n r l gs g -> terminates_last (commands s) -> pt s <> Exited -> phase s = Idle ->
  exists s' gs', rtc step s s' /\ phase s' = Idle /\ commands s' = commands s /\ invariant s' n0 n n n gs' [] /\ mjoin gs' = commands s.
Proof.
  intros Hinv Hlast Hex Hph. destruct (kernel_drains _ _ _ _ _ _ _ Hinv Hlast Hex) as (s' & gs' & (R & Hh & Hp & Hc & _) & _ & Hi).
  exists s', gs'. rewrite Hp, Hc. split_and!; try done.
  pose proof (inv_host _ _ _ _ _ _ _ _ _ _ _ _ _ Hi) as [_ _ _ _ _ _ Hph']. rewrite Hp, Hph in Hph'. destruct Hph' as [Hlen _].
  destruct (relayed_bytes _ _ _ _ _ _ _ Hi) as (_ & _ & E). rewrite app_nil_r in E. rewrite E, <- Hlen, take_ge by done. congruence.
Qed.

Lemma published_last s n0 n gs :
  invariant s n0 n n n gs [] -> exists s', kernel_only s s' /\ pt s' = pt s /\ invariant s' n0 n n n gs [] /\
  (pt s = AtPoll -> last (published s') = Some (read_mark dc a n)).
Proof.
  intros Hinv. pose proof Hinv as [Hcs Hh Hk Hm Hv]. destruct (decide (pt s = AtPoll)) as [E|E].
  - rewrite E in Hk. destruct (fetch_poll_ok _ _ _ _ _ _ _ _ _ (pcie_view (host s)) no_exit Hk) as (pt' & Hst & Hk').
    assert (pt' = AtPoll) as ->.
    { cbn in Hst. unfold fetch_poll, mbind, M_bind, get, mret, M_ret in Hst.
      rewrite (no_entry_seen _ _ _ _ _ L _ _ _ (ki_queue _ _ _ _ _ _ _ _ _ _ Hk)) in Hst. by injection Hst as <-. }
    destruct s as [h ph q pt cs vs i]; cbn in *. subst pt.
    exists (mkSystem h ph q AtPoll cs (vs ++ [host_rd_ptr q]) i).
    rewrite (qi_host _ _ _ _ _ _ (ki_queue _ _ _ _ _ _ _ _ _ _ Hk)).
    split; [split_and!; try done; apply rtc_once; rewrite <- (qi_host _ _ _ _ _ _ (ki_queue _ _ _ _ _ _ _ _ _ _ Hk)); apply step_kernel with no_exit; auto|].
    split; [done|]. split; [constructor; try done; by apply history_next with n|]. intros _. cbn. by rewrite last_snoc.
  - exists s. split; [by split_and!|]. done.
Qed.

(** Whatever the host is at, it can finish and all commands be relayed. *)
Lemma completes s n0 n r l gs g :
  invariant s n0 n r l gs g -> terminates_last (commands s) -> pt s <> Exited -> 2 <= entries dc ->
  exists s' n1 n' gs', rtc step s s' /\ phase s' = Idle /\ commands s' = commands s /\ invariant s' n1 n' n' n' gs' [] /\ mjoin gs' = commands s.
Proof.
  intros Hinv Hlast Hex H2. destruct (phase s) as [|size stall|size stall] eqn:Hph.
  - destruct (idle_completes _ _ _ _ _ _ _ Hinv Hlast Hex Hph) as (s' & gs' & R & Hp & Hc & Hi & Hall). by exists s', n0, n, gs'.
  - destruct (kernel_drains _ _ _ _ _ _ _ Hinv Hlast Hex) as (s1 & gs1 & (R1 & _ & Hp1 & Hc1 & _) & Hpt1 & Hi1).
    assert (pt s1 = AtPoll) as Hpoll.
    { destruct Hpt1 as [|Ht]; [done|]. pose proof Hi1 as [_ Hh1 Hk1 _ _]. rewrite Ht in Hk1. apply terminated_done in Hk1 as [_ Hlen]; [|by rewrite Hc1].
      destruct Hh1 as [_ _ _ _ _ _ Hph1]. rewrite Hp1, Hph in Hph1. destruct Hph1 as (? & _). lia. }
    destruct (published_last _ _ _ _ Hi1) as (s2 & (R2 & _ & Hp2 & Hc2 & _) & Hpt2 & Hi2 & Hpub). specialize (Hpub Hpoll).
    destruct (host_reserves s2 n0 n gs1 size stall Hi2) as (s3 & n1 & R3 & Hp3 & Hc3 & Hpt3 & Hi3); [congruence..|done|done|].
    destruct (host_enters _ _ _ _ _ _ _ _ _ Hi3 Hp3) as (s4 & n0' & n' & r' & l' & gs' & g' & R4 & Hp4 & Hc4 & Hpt4 & Hi4).
    destruct (idle_completes _ _ _ _ _ _ _ Hi4 ltac:(by rewrite Hc4, Hc3, Hc2, Hc1) ltac:(congruence) Hp4) as (s5 & gs5 & R5 & Hp5 & Hc5 & Hi5 & Hall).
    exists s5, n0', n', gs5. split_and!; [|done|congruence|done|congruence].
    etrans; [exact R1|]. etrans; [exact R2|]. etrans; [exact R3|]. by eapply rtc_l.
  - destruct (host_enters _ _ _ _ _ _ _ _ _ Hinv Hph) as (s4 & n0' & n' & r' & l' & gs' & g' & R4 & Hp4 & Hc4 & Hpt4 & Hi4).
    destruct (idle_completes _ _ _ _ _ _ _ Hi4 ltac:(by rewrite Hc4) ltac:(congruence) Hp4) as (s5 & gs5 & R5 & Hp5 & Hc5 & Hi5 & Hall).
    exists s5, n0', n', gs5. split_and!; [|done|congruence|done|congruence]. by eapply rtc_l.
Qed.
End Live.

Lemma bytes_join gs : mjoin (map bytes gs) = bytes (mjoin gs).
Proof. induction gs as [|g gs IH]; [done|]. change (bytes g ++ mjoin (map bytes gs) = bytes (g ++ mjoin gs)). by rewrite IH, bytes_app. Qed.

Lemma in_flight_command dc a q pt cs n r l gs g :
  kernel_inv dc a q pt cs n r l gs g ->
  in_flight q = [] \/ exists d, cs !! l = Some d /\ exists dst, in_flight q = [mkRead (address a cs l d) dst (size_of d)].
Proof.
  intros [_ _ _ _ _ Hp _].
  assert (F : forall pre st, flight a q cs r l pre st -> in_flight q = [] \/
    exists d, cs !! l = Some d /\ exists dst, in_flight q = [mkRead (address a cs l d) dst (size_of d)]).
  { intros pre st (_ & d & Hd & _ & E & _). right. exists d. split; [done|]. by eexists. }
  assert (N : no_flight q r l -> in_flight q = []) by (by intros (_ & ? & _)).
  destruct pt; cbn in Hp.
  - destruct Hp as (_ & _ & _ & [Hn|Hf]); [left; auto|by eapply F].
  - destruct Hp as (_ & _ & _ & Hn). left; auto.
  - destruct Hp as (_ & _ & _ & Hf). by eapply F.
  - destruct Hp as (_ & _ & _ & Hn). left; auto.
  - destruct Hp as (_ & [(_ & _ & Hf)|(_ & _ & Hf)]); by eapply F.
  - destruct Hp as (_ & _ & [(_ & Hn & _)|(_ & _ & [Hn|Hf])]); [left; auto..|by eapply F].
  - destruct Hp as (_ & [Hn|Hf]); [left; auto|by eapply F].
  - destruct Hp as [Hn|Hf]; [left; auto|by eapply F].
Qed.
