(* ===== verification/CommandQueueConfig.v ===== *)
(** * Host and prefetcher together: the configuration

    The constants, the queue interfaces and the manager their constructors build agree
    with the arguments the prefetcher is compiled with, as the invariant needs. *)

From Stdlib Require Import Lia.
From S2P Require Import Prelude Memory ConfigBuffer SystemMemory SystemMemoryOps IssueRing Prefetcher CommandQueueSystem CommandQueueInv.

(** ** The constants *)

(** The addresses of the device's pointers do not overflow. *)
Definition sane_platform (p : Platform) (k : Z) : Prop :=
  host_alignment p = 2 ^ k /\ 4 <= k <= 12 /\ 8 <= l1_alignment p <= 2 ^ 12 /\
  0 < tensix_unreserved p <= 2 ^ 24 /\ 0 < idle_eth_unreserved p <= 2 ^ 24.

Lemma addr_size_bound p t : 8 <= l1_alignment p <= 2 ^ 12 -> 0 < device_cq_addr_size p t <= 2 ^ 16.
Proof. intros H. destruct t; cbn; unfold DISPATCH_MESSAGE_ENTRIES; rewrite ?u32_small; lia. Qed.

(** [align] rounds up to the next multiple. *)
Lemma align_bound x j : 0 < x < 2 ^ 31 -> 0 <= j <= 12 -> x <= align x (2 ^ j) < x + 2 ^ j /\ align x (2 ^ j) mod 2 ^ j = 0.
Proof.
  intros Hx Hj. unfold align.
  assert (0 < 2 ^ j <= 2 ^ 12) by (split; [apply Z.pow_pos_nonneg; lia|apply Z.pow_le_mono_r; lia]).
  rewrite (u32_small (x - 1)), (u32_small (2 ^ j - 1)) by lia.
  pose proof (Z.add_lor_land (x - 1) (2 ^ j - 1)) as E.
  replace (Z.land (x - 1) (2 ^ j - 1)) with ((x - 1) mod 2 ^ j) in E.
  2:{ rewrite <- Z.land_ones by lia. f_equal. rewrite Z.ones_equiv. lia. }
  pose proof (Z.mod_pos_bound (x - 1) (2 ^ j) ltac:(lia)). pose proof (Z.div_mod (x - 1) (2 ^ j) ltac:(lia)).
  rewrite u32_small by lia. split; [lia|].
  replace (Z.lor (x - 1) (2 ^ j - 1) + 1) with (((x - 1) / 2 ^ j + 1) * 2 ^ j) by lia. by rewrite Z.mod_mul by lia.
Qed.

Lemma addr_step p x b t : 8 <= l1_alignment p <= 2 ^ 12 -> 0 < x <= b -> b <= 2 ^ 31 -> x < u32 (x + device_cq_addr_size p t) <= b + 2 ^ 16.
Proof. intros Hl Hx Hb. pose proof (addr_size_bound p t Hl). rewrite u32_small; lia. Qed.

(** The last of the device's addresses, where the fetch queue is. *)
Lemma cq_addrs_last p k types x before b :
  host_alignment p = 2 ^ k -> 4 <= k <= 12 -> 8 <= l1_alignment p <= 2 ^ 12 ->
  0 < x <= b -> b + 2 ^ 16 * Z.of_nat (S (length types)) <= 2 ^ 30 -> Forall (fun t => t <> UNRESERVED) types ->
  exists v, last (device_cq_addrs_from p x before (types ++ [UNRESERVED])) = Some v /\
  x <= v <= b + 2 ^ 16 * Z.of_nat (S (length types)) + 2 ^ 12 /\ v mod 2 ^ k = 0 /\
  length (device_cq_addrs_from p x before (types ++ [UNRESERVED])) = S (length types).
Proof.
  intros Hk Hk' Hl. revert x before b. induction types as [|t types IH]; intros x before b Hx Hb Ht.
  - cbn. pose proof (addr_step p x b before Hl Hx ltac:(cbn in Hb; lia)) as Hs. cbn in Hb.
    destruct (align_bound (u32 (x + device_cq_addr_size p before)) k) as [Ha Hm]; [lia|lia|].
    rewrite <- Hk in Ha, Hm. eexists. split; [done|]. rewrite Hk in Ha |- *. rewrite Hk in Hm.
    assert (2 ^ k <= 2 ^ 12) by (apply Z.pow_le_mono_r; lia). split; [cbn; lia|done].
  - inversion Ht as [|? ? Hne Ht']; subst. cbn [app length device_cq_addrs_from] in *.
    pose proof (addr_step p x b before Hl Hx ltac:(lia)) as Hs.
    destruct (IH (u32 (x + device_cq_addr_size p before)) t (b + 2 ^ 16)) as (v & Hv & Hb' & Hm & Hlen); [lia|lia|done|].
    replace (match t with UNRESERVED => _ | _ => _ end) with (u32 (x + device_cq_addr_size p before)) by (by destruct t).
    exists v. rewrite last_cons, Hv. split; [done|]. split; [lia|]. split; [done|]. cbn. by rewrite Hlen.
Qed.

Lemma cq_addrs_base p base k :
  host_alignment p = 2 ^ k -> 4 <= k <= 12 -> 8 <= l1_alignment p <= 2 ^ 12 -> 0 < base <= 2 ^ 24 ->
  exists v, device_cq_addrs_of p base !! 8%nat = Some v /\ length (device_cq_addrs_of p base) = 9%nat /\ base <= v <= 2 ^ 25 /\ v mod 2 ^ k = 0.
Proof.
  intros Hk Hk' Hl Hb.
  destruct (cq_addrs_last p k [PREFETCH_Q_PCIE_RD; COMPLETION_Q_WR; COMPLETION_Q_RD; COMPLETION_Q0_LAST_EVENT; COMPLETION_Q1_LAST_EVENT;
    DISPATCH_S_SYNC_SEM; DISPATCH_MESSAGE] base PREFETCH_Q_RD (2 ^ 24) Hk Hk' Hl Hb) as (v & Hv & Hr & Hm & Hlen); [cbn; lia|by repeat constructor|].
  exists v. unfold device_cq_addrs_of. cbn [tail device_addr_types length] in *. cbn [app] in *. rewrite Hlen.
  split; [|split; [done|split; [lia|done]]]. rewrite last_lookup, Hlen in Hv. exact Hv.
Qed.

(** What the accepted constants are: the fetch queue, the command-data queue and the
    scratch buffer one after the other, inside the core's memory; the dispatch buffer
    (on another core) inside it too. *)
Record constants_facts (dc : dispatch_constants) (k l1_size : Z) : Prop := mkFacts {
  fa_entries : 2 <= prefetch_q_entries dc <= 1534 /\ prefetch_q_size dc = prefetch_q_entries dc * 2;
  fa_max : 2 ^ 15 <= max_prefetch_command_size dc <= 2 ^ 17;
  fa_base : exists v, device_cq_addrs dc !! 8%nat = Some v /\ length (device_cq_addrs dc) = 9%nat /\ 0 < v <= 2 ^ 25 /\ v mod 2 ^ k = 0 /\
    v + prefetch_q_size dc <= cmddat_q_base dc /\ cmddat_q_base dc <= 2 ^ 26;
  fa_cmddat : 2 * max_prefetch_command_size dc <= cmddat_q_size dc <= 2 ^ 18;
  fa_scratch : cmddat_q_base dc + cmddat_q_size dc <= scratch_db_base dc /\ scratch_db_base dc + scratch_db_size dc < l1_size;
  fa_buffer : dispatch_buffer_base dc mod 4096 = 0 /\ 0 < dispatch_buffer_base dc /\
    dispatch_buffer_base dc + 4096 * dispatch_buffer_pages dc < l1_size;
}.

Lemma round_to_bound x a : 0 <= x <= 2 ^ 20 -> 0 < a <= 2 ^ 12 -> x <= round_to x a < x + a.
Proof.
  intros Hx Ha. unfold round_to. rewrite (u32_small (x + a - 1)) by lia.
  pose proof (Z.div_mod (x + a - 1) a ltac:(lia)). pose proof (Z.mod_pos_bound (x + a - 1) a ltac:(lia)).
  rewrite u32_small by nia. nia.
Qed.

Lemma settings_bounds p core_type cqs st k :
  sane_platform p k -> 0 < cqs < 256 -> settings_of p core_type cqs = Ok st ->
  2 <= cs_entries st <= 1534 /\ 2 ^ 15 <= cs_max_command st <= 2 ^ 17 /\ 0 < cs_cmddat st <= 2 ^ 18 /\ 0 < cs_scratch st <= 2 ^ 17 /\
  0 < cs_dispatch_block st <= 2 ^ 19 /\ 0 < cs_base st <= 2 ^ 24.
Proof.
  intros (_ & _ & _ & Ht & Hi) Hcqs H. unfold settings_of in H. res_inv.
  case_bool_decide; res_inv; subst st; cbn; split_and!; try lia; destruct (is_galaxy_cluster p); try lia.
  - apply Z.div_le_lower_bound; lia.
  - apply Z.div_le_upper_bound; lia.
Qed.

(** The checks of [lay_out], with the values they are made on. *)
Lemma lay_out_inv p st dc :
  lay_out p st = Ok dc -> exists v,
  device_cq_addrs_of p (cs_base st) !! 8%nat = Some v /\ 2 * cs_max_command st <= cs_cmddat st /\
  let q_size := u32 (cs_entries st * sizeof_entry) in
  let cmddat := u32 (v + round_to q_size (host_alignment p)) in
  let scratch := u32 (cmddat + round_to (cs_cmddat st) (host_alignment p)) in
  let buffer := u32 (Z.lor (u32 (v - 1)) (4096 - 1) + 1) in
  let pages := u32 (cs_dispatch_block st / 4096 / 4 * 4) in
  u32 (scratch + cs_scratch st) < cs_l1_size st /\ u32 (buffer + u32 (4096 * pages)) < cs_l1_size st /\
  prefetch_q_entries dc = cs_entries st /\ prefetch_q_size dc = q_size /\ max_prefetch_command_size dc = cs_max_command st /\
  cmddat_q_base dc = cmddat /\ cmddat_q_size dc = cs_cmddat st /\ scratch_db_base dc = scratch /\ scratch_db_size dc = cs_scratch st /\
  dispatch_buffer_base dc = buffer /\ dispatch_buffer_pages dc = pages /\ device_cq_addrs dc = device_cq_addrs_of p (cs_base st).
Proof.
  unfold lay_out. intros H. res_inv. exists x. unfold at_ in Hm. cbn [device_addr_index] in Hm.
  destruct (device_cq_addrs_of p (cs_base st) !! Z.to_nat 8) as [v|] eqn:E; [|done]. injection Hm as ->.
  apply Z.leb_le in Hc. apply Z.ltb_lt in Hc3, Hc4. subst dc. cbv zeta.
  assert (Epage : Z.shiftl 1 DISPATCH_BUFFER_LOG_PAGE_SIZE = 4096) by reflexivity. rewrite Epage in *.
  split; [exact E|]. split; [exact Hc|]. split; [exact Hc3|]. split; [exact Hc4|].
  cbn [prefetch_q_entries prefetch_q_size max_prefetch_command_size device_cq_addrs cmddat_q_base cmddat_q_size
    scratch_db_base scratch_db_size dispatch_buffer_base dispatch_buffer_pages]. by split_and!.
Qed.

Lemma dispatch_constants_facts p core_type cqs dc k st :
  sane_platform p k -> 0 < cqs < 256 -> settings_of p core_type cqs = Ok st -> lay_out p st = Ok dc ->
  constants_facts dc k (cs_l1_size st).
Proof.
  intros Hsane Hcqs Hst H. pose proof (settings_bounds _ _ _ _ _ Hsane Hcqs Hst) as (He & Hmax & Hcm & Hsc & Hbl & Hbase).
  destruct Hsane as (Hk & Hk' & Hl & Ht & Hi).
  assert (Hp : 0 < 2 ^ k <= 2 ^ 12) by (split; [apply Z.pow_pos_nonneg; lia|apply Z.pow_le_mono_r; lia]).
  destruct (cq_addrs_base p (cs_base st) k Hk Hk' Hl Hbase) as (v & Hv & Hlen & Hbound & Hmod).
  apply lay_out_inv in H as (v' & Hv' & Hmc & H). rewrite Hv in Hv'. injection Hv' as <-. cbv zeta in H.
  destruct H as (Hs1 & Hs2 & E1 & E2 & E3 & E4 & E5 & E6 & E7 & E8 & E9 & E10).
  pose proof (round_to_bound (cs_entries st * 2) (host_alignment p) ltac:(lia) ltac:(lia)) as R1.
  pose proof (round_to_bound (cs_cmddat st) (host_alignment p) ltac:(lia) ltac:(lia)) as R2.
  destruct (align_bound v 12 ltac:(lia) ltac:(lia)) as [B1 B2]. unfold align in B1, B2.
  assert (E12 : 2 ^ 12 = 4096) by reflexivity. rewrite E12, (u32_small (4096 - 1)) in B1, B2 by lia.
  unfold sizeof_entry in *. rewrite (u32_small (cs_entries st * 2)) in * by lia.
  set (r1 := round_to (cs_entries st * 2) (host_alignment p)) in *. set (r2 := round_to (cs_cmddat st) (host_alignment p)) in *.
  rewrite (u32_small (v + r1)) in * by lia. rewrite (u32_small (v + r1 + r2)) in * by lia.
  rewrite (u32_small (v + r1 + r2 + cs_scratch st)) in Hs1 by lia.
  set (bb := u32 (Z.lor (u32 (v - 1)) (4096 - 1) + 1)) in *.
  assert (Hpg : 0 <= cs_dispatch_block st / 4096 / 4 * 4 <= 128).
  { pose proof (Z.div_mod (cs_dispatch_block st) 4096 ltac:(lia)). pose proof (Z.mod_pos_bound (cs_dispatch_block st) 4096 ltac:(lia)).
    pose proof (Z.div_mod (cs_dispatch_block st / 4096) 4 ltac:(lia)). pose proof (Z.mod_pos_bound (cs_dispatch_block st / 4096) 4 ltac:(lia)). lia. }
  set (pages := cs_dispatch_block st / 4096 / 4 * 4) in *.
  rewrite (u32_small pages) in * by lia. rewrite (u32_small (4096 * pages)), (u32_small (bb + 4096 * pages)) in Hs2 by lia.
  constructor; rewrite ?E1, ?E2, ?E3, ?E4, ?E5, ?E6, ?E7, ?E8, ?E9, ?E10.
  - lia.
  - lia.
  - exists v. split; [exact Hv|]. split; [exact Hlen|]. split; [lia|]. split; [exact Hmod|]. lia.
  - lia.
  - lia.
  - split; [exact B2|]. lia.
Qed.

(** ** The interfaces *)

Lemma channel_base_facts channel : 0 <= channel < 16 -> 0 <= channel_base channel /\ channel_base channel mod 2 ^ 28 = 0.
Proof.
  intros H. unfold channel_base, get_umd_channel. rewrite Z.shiftr_div_pow2 by lia.
  assert (El : Z.land channel 3 = channel mod 4) by exact (Z.land_ones channel 2 ltac:(lia)).
  rewrite El. change (2 ^ 2) with 4. change MAX_HUGEPAGE_SIZE with (4 * 2 ^ 28). change MAX_DEV_CHANNEL_SIZE with (2 ^ 28).
  pose proof (Z.mod_pos_bound channel 4 ltac:(lia)). assert (0 <= channel / 4 < 4) by (split; [apply Z.div_pos|apply Z.div_lt_upper_bound]; lia).
  rewrite (u32_small (4 * 2 ^ 28 * (channel mod 4))), (u32_small (channel / 4 * 2 ^ 28)), u32_small by lia. split; [lia|].
  replace (4 * 2 ^ 28 * (channel mod 4) + channel / 4 * 2 ^ 28) with ((4 * (channel mod 4) + channel / 4) * 2 ^ 28) by lia.
  by rewrite Z.mod_mul by lia.
Qed.

(** The issue region of a queue: where it starts, and that the completion region
    takes the rest, more than a quarter less two transfer pages. *)
Record interface_facts (channel cq_id cq_size k : Z) (c : SystemMemoryCQInterface) (region : Z) : Prop := mkIfFacts {
  if_start : let start := channel_base channel + cq_id * cq_size + 4 * 2 ^ k in
    interface_at start (start + region) start c /\ u32 (cq_offset c + SystemMemory.cq_start c) = start;
  if_size : issue_queue_size_of c = region /\ 0 <= region;
  if_rest : exists completion, region + completion = cq_size - 4 * 2 ^ k /\ cq_size - 4 * 2 ^ k < 4 * completion + 4 * 4096;
  if_aligned : cq_size mod 16 = 0 /\ (4 * 2 ^ k) mod 16 = 0;
}.

Lemma u32_sub a b : 0 <= b <= a -> a < 2 ^ 32 -> u32 (a - b) = a - b.
Proof. intros. apply u32_small. lia. Qed.

Lemma mod16_add a b : a mod 16 = 0 -> b mod 16 = 0 -> (a + b) mod 16 = 0.
Proof. intros Ha Hb. by rewrite Z.add_mod, Ha, Hb by lia. Qed.

Lemma mod16_mul a b : b mod 16 = 0 -> (a * b) mod 16 = 0.
Proof. intros Hb. by rewrite Z.mul_mod, Hb, Z.mul_0_r by lia. Qed.

Lemma interface_new_facts p channel cq_id cq_size k c :
  sane_platform p k -> 0 <= channel < 16 -> 0 <= cq_id -> 4 * 2 ^ k <= cq_size < 2 ^ 32 ->
  channel_base channel + (cq_id + 1) * cq_size <= 2 ^ 32 ->
  SystemMemoryCQInterface_new p channel cq_id cq_size (get_host_command_queue_addr p HOST_UNRESERVED) = Ok c ->
  exists region, interface_facts channel cq_id cq_size k c region.
Proof.
  intros (Hk & Hk' & _) Hch Hid Hsize Hmem H.
  assert (Hp : 0 < 2 ^ k <= 2 ^ 12) by (split; [apply Z.pow_pos_nonneg; lia|apply Z.pow_le_mono_r; lia]).
  assert (H16 : 2 ^ k mod 16 = 0).
  { apply (mod_pow_mod 4 k); [lia|]. apply Z.mod_same. lia. }
  pose proof (channel_base_facts channel Hch) as [Hcb Hcbm].
  assert (Hstart : get_host_command_queue_addr p HOST_UNRESERVED = 4 * 2 ^ k).
  { unfold get_host_command_queue_addr. cbn [host_addr_index]. rewrite Hk. apply u32_small. lia. }
  rewrite Hstart in H. unfold SystemMemoryCQInterface_new in H.
  assert (Hoff : get_absolute_cq_offset channel cq_id cq_size = channel_base channel + cq_id * cq_size).
  { unfold get_absolute_cq_offset, get_relative_cq_offset. rewrite (u32_small (cq_id * cq_size)), u32_small by nia. done. }
  rewrite Hoff, (u32_small (cq_size - 4 * 2 ^ k)) in H by lia.
  set (x := cq_size - 4 * 2 ^ k) in *. change TRANSFER_PAGE_SIZE with 4096 in H.
  pose proof (Z.div_mod x 4096 ltac:(lia)). pose proof (Z.mod_pos_bound x 4096 ltac:(lia)).
  pose proof (Z.div_mod (x / 4096) 4 ltac:(lia)). pose proof (Z.mod_pos_bound (x / 4096) 4 ltac:(lia)).
  rewrite (u32_small (x / 4096 / 4 * 4096)) in H by lia. set (completion := x / 4096 / 4 * 4096) in *.
  assert (Hc0 : 0 <= completion <= x) by lia. rewrite (u32_small (x - completion)) in H by lia.
  set (region := x - completion) in *. cbv zeta in H. res_inv. rewrite Hk in *. subst c.
  rewrite Z.eqb_eq in *.
  assert (Hreg16 : region mod 16 = 0) by (by apply (mod_pow_mod 4 k); [lia|]).
  assert (Hcomp16 : completion mod 16 = 0).
  { unfold completion. change 4096 with (256 * 16). rewrite Z.mul_assoc. by rewrite Z.mod_mul by lia. }
  assert (Hs16 : (4 * 2 ^ k) mod 16 = 0) by (by apply mod16_mul).
  assert (Hsz16 : cq_size mod 16 = 0).
  { replace cq_size with (region + completion + 4 * 2 ^ k) by (unfold region, x; lia). apply mod16_add; [by apply mod16_add|done]. }
  pose proof (mod_pow_mod 4 28 _ ltac:(lia) Hcbm) as Hcb16. change (2 ^ 4) with 16 in Hcb16.
  pose proof (mod16_mul cq_id cq_size Hsz16) as Hid16.
  set (start := channel_base channel + cq_id * cq_size + 4 * 2 ^ k).
  assert (Hlim : start + region <= 2 ^ 32 - completion) by (unfold start, region, x; lia).
  assert (Hlt : start + region < 2 ^ 32).
  { destruct (Z.lt_ge_cases (start + region) (2 ^ 32)) as [|Hge]; [done|].
    rewrite (u32_small (4 * 2 ^ k + region)) in Hc2 by lia.
    replace (4 * 2 ^ k + region + (channel_base channel + cq_id * cq_size)) with (2 ^ 32) in Hc2 by (unfold start in *; lia). done. }
  assert (Hid0 : 0 <= cq_id * cq_size) by nia. assert (Hst0 : 0 <= start) by (unfold start; lia).
  exists region. rewrite (u32_small (4 * 2 ^ k + region)) by lia.
  rewrite (u32_small (4 * 2 ^ k + (channel_base channel + cq_id * cq_size))) by (unfold start in *; lia).
  rewrite (u32_small (4 * 2 ^ k + region + (channel_base channel + cq_id * cq_size))) by (unfold start in *; lia).
  assert (Hs : start mod 16 = 0) by (by apply mod16_add; [apply mod16_add|]).
  constructor; cbn.
  - fold start. split; [|change (u32 start = start); apply u32_small; lia].
    unfold interface_at, issue_start. cbn.
    rewrite (u32_small (4 * 2 ^ k + (channel_base channel + cq_id * cq_size))) by (unfold start in *; lia).
    replace (4 * 2 ^ k + (channel_base channel + cq_id * cq_size)) with start by (unfold start; lia).
    replace (4 * 2 ^ k + region + (channel_base channel + cq_id * cq_size)) with (start + region) by (unfold start; lia).
    rewrite !shr4 by (done || by apply mod16_add). done.
  - unfold issue_queue_size_of. cbn. rewrite (shl4 _ region); [lia|by apply shr4|lia].
  - exists completion. unfold region. lia.
  - done.
Qed.

(** ** The manager *)

Section Constructor.
Context (p : Platform) (core_type : CoreType) (channel : Z) (dc : dispatch_constants) (base cq_start size : Z).

(** What the constructor's loop has done for the first [j] queues. *)
Record built (num j : nat) (h : SystemMemoryManager) : Prop := mkBuilt {
  bu_settled : settled core_type dc h /\ num_hw_cqs h = Z.of_nat num;
  bu_plain : bypass_enable h = false /\ cq_size h = size /\ channel_offset h = channel_base channel;
  bu_count : length (cq_interfaces h) = j /\ length (prefetch_q_dev_ptrs h) = num /\ length (prefetch_q_dev_fences h) = num;
  bu_interfaces : forall i c, cq_interfaces h !! i = Some c ->
    SystemMemoryCQInterface_new p channel (Z.of_nat i) size cq_start = Ok c /\
    u32 (max_prefetch_command_size dc * u32 (prefetch_q_entries dc + 2)) <= issue_queue_size_of c;
  bu_ptrs : forall i, (i < j)%nat -> prefetch_q_dev_ptrs h !! i = Some base;
  bu_fences : forall i, (i < j)%nat -> prefetch_q_dev_fences h !! i = Some (u32 (base + prefetch_q_entries dc * sizeof_entry));
}.

Lemma update_built (l : list Z) j v i x num :
  length l = num -> (j < num)%nat -> (forall i, (i < j)%nat -> l !! i = Some v) -> x = v -> (i < S j)%nat ->
  update l (Z.of_nat j) x !! i = Some v.
Proof.
  intros Hl Hj H -> Hi. unfold update. rewrite Nat2Z.id. destruct (decide (i = j)) as [->|].
  - apply list_lookup_insert_eq. lia.
  - rewrite list_lookup_insert_ne by lia. apply H. lia.
Qed.

Lemma add_cq_built num j h h' :
  built num j h -> (j < num)%nat -> add_cq p core_type channel base cq_start (Z.of_nat j) h = (h', Ok tt) -> built num (S j) h'.
Proof.
  intros [[Hst Hnum] (Hb & Hsz & Ho) (Hlen & Hlp & Hlf) Hif Hps Hfs] Hj H. unfold add_cq in H.
  erewrite M_bind_ok in H by reflexivity. rewrite Hsz in H.
  destruct (SystemMemoryCQInterface_new p channel (Z.of_nat j) size cq_start) as [c|] eqn:Ec; [|by erewrite M_bind_err in H by reflexivity].
  erewrite M_bind_ok in H by reflexivity. erewrite M_bind_ok in H by reflexivity.
  set (h1 := set_cq_interfaces _ h) in H. assert (Hst1 : settled core_type dc h1) by done.
  erewrite M_bind_ok in H by (eapply constants_settled; [done|by right]).
  assert (Hc1 : cq_interfaces h1 !! Z.to_nat (Z.of_nat j) = Some c) by (cbn; rewrite Nat2Z.id; by apply list_lookup_middle).
  erewrite M_bind_ok in H.
  2:{ unfold get_issue_queue_size. erewrite M_bind_ok by (by apply elem_ok). reflexivity. }
  destruct (Z.leb_spec (u32 (max_prefetch_command_size dc * u32 (prefetch_q_entries dc + 2))) (issue_queue_size_of c)) as [Hroom|];
    [|by erewrite M_bind_err in H by reflexivity].
  do 3 erewrite M_bind_ok in H by reflexivity.
  erewrite M_bind_ok in H by (eapply constants_settled; [done|by right]). injection H as <-.
  constructor; cbn.
  - done.
  - done.
  - rewrite length_app. unfold update. rewrite !length_insert. cbn. lia.
  - intros i c' Hi. apply lookup_app_Some in Hi as [Hi|[Hge Hi]]; [by apply Hif|].
    apply list_lookup_singleton_Some in Hi as [Hi <-]. replace i with j by lia. done.
  - intros i Hi. by eapply update_built.
  - intros i Hi. by eapply update_built.
Qed.

Lemma add_cqs_built num n j h h' :
  built num j h -> (j + n = num)%nat ->
  mapM_ (add_cq p core_type channel base cq_start) (seqZ (Z.of_nat j) (Z.of_nat n)) h = (h', Ok tt) -> built num num h'.
Proof.
  revert j h; induction n as [|n IH]; intros j h Hb Hn H.
  - cbn in H. injection H as <-. by rewrite <- Hn, Nat.add_0_r in *.
  - rewrite seqZ_cons in H by lia. cbn [mapM_] in H. apply M_bind_inv in H as (h1 & [] & H1 & H).
    apply (IH (S j) h1); [apply (add_cq_built num j h); [done|lia|done]|lia|].
    by replace (Z.of_nat (S j)) with (Z.succ (Z.of_nat j)) by lia; replace (Z.of_nat n) with (Z.pred (Z.of_nat (S n))) by lia.
Qed.
End Constructor.

(** What the constructor leaves behind, when it does not throw. *)
Lemma manager_built p core_type channel dc override host_size num mem h v :
  device_cq_addrs dc !! 8%nat = Some v -> length (device_cq_addrs dc) = 9%nat -> (0 < num)%nat ->
  SystemMemoryManager_new p core_type channel override host_size
    (blank (mkStatic (Z.of_nat num) core_type (Some dc)) (Z.of_nat num) mem) = (h, Ok tt) ->
  built p core_type channel dc v (get_host_command_queue_addr p HOST_UNRESERVED) (cq_size h) num num h.
Proof.
  intros Hv Hlen Hnum H. unfold SystemMemoryManager_new in H. erewrite M_bind_ok in H by reflexivity.
  cbn [num_hw_cqs blank] in H.
  destruct (new_cq_size p override host_size (Z.of_nat num)) as [size|] eqn:Es; [|by erewrite M_bind_err in H by reflexivity].
  do 2 erewrite M_bind_ok in H by reflexivity. set (h1 := set_sizes _ _ _) in H.
  assert (Hst : settled core_type dc h1) by (split; cbn; [done|lia]).
  destruct (lookup_lt_is_Some_2 (device_cq_addrs dc) 3) as [a3 Ha3]; [lia|].
  erewrite M_bind_ok in H by (by eapply device_addr_settled).
  erewrite M_bind_ok in H by (by eapply device_addr_settled).
  erewrite M_bind_ok in H by (eapply constants_settled; [done|by left]).
  assert (Hb : built p core_type channel dc v (get_host_command_queue_addr p HOST_UNRESERVED) size num 0 h1).
  { constructor; cbn; try done; try (intros; lia). rewrite !length_replicate. lia. }
  apply (add_cqs_built _ _ _ _ _ _ _ num num 0 h1 h Hb) in H; [|lia].
  pose proof (bu_plain _ _ _ _ _ _ _ _ _ _ H) as (_ & E & _). by rewrite E.
Qed.

(** ** A configured queue *)

(** A device opened with [num] queues, of which [cq] is run by the prefetcher compiled
    with [a]: the constructors returned, the platform's addresses are in range, and the
    queues lie within the four gigabytes the device addresses. *)
Record Configured (p : Platform) (core_type : CoreType) (channel : Z) (override : option Z) (host_size : Z) (num cq : nat)
    (mem : Z -> Z) (downstream pages header k : Z) (dc : dispatch_constants) (c : SystemMemoryCQInterface)
    (h : SystemMemoryManager) (a : PrefetchArgs) : Prop := mkConfigured {
  cf_platform : sane_platform p k;
  cf_constants : dispatch_constants_new p core_type (Z.of_nat num) = Ok dc;
  cf_manager : SystemMemoryManager_new p core_type channel override host_size
    (blank (mkStatic (Z.of_nat num) core_type (Some dc)) (Z.of_nat num) mem) = (h, Ok tt);
  cf_queue : (cq < num < 256)%nat /\ cq_interfaces h !! cq = Some c;
  cf_args : prefetch_h_args dc c downstream pages header = Ok a;
  cf_header : 4 <= header <= 2 ^ 12;
  cf_memory : 0 <= channel < 16 /\ 4 * 2 ^ k <= cq_size h < 2 ^ 32 /\ channel_base channel + Z.of_nat num * cq_size h <= 2 ^ 32;
}.

Lemma prefetch_h_args_eq dc c downstream pages header a v :
  device_cq_addrs dc !! 8%nat = Some v -> length (device_cq_addrs dc) = 9%nat -> prefetch_h_args dc c downstream pages header = Ok a ->
  a = mkArgs downstream 12 pages (u32 (cq_offset c + SystemMemory.cq_start c)) (issue_queue_size_of c) v (prefetch_q_size dc)
    (cmddat_q_base dc) (cmddat_q_size dc) header.
Proof.
  intros Hv Hlen H. unfold prefetch_h_args, get_device_command_queue_addr in H. res_inv.
  unfold at_ in Hm. cbn [device_addr_index] in Hm. change (Z.to_nat 8) with 8%nat in Hm. rewrite Hv in Hm. injection Hm as <-. by subst.
Qed.

(** The completion region leaves more than a maximal command after the issue region. *)
Lemma rest_bound n m r c x : 2 <= n -> 2 ^ 15 <= m -> m * (n + 2) <= r -> r + c = x -> x < 4 * c + 4 * 4096 -> m < c.
Proof. intros. nia. Qed.

Lemma configured_linked p core_type channel override host_size num cq mem downstream pages header k dc c h a :
  Configured p core_type channel override host_size num cq mem downstream pages header k dc c h a ->
  Linked p dc a (channel_offset h) k /\ host_inv core_type dc a (Z.of_nat cq) (channel_offset h) h Idle [] 0 0 /\ 2 <= entries dc.
Proof.
  intros [Hpl Hdc Hm [Hcq Hc] Hargs Hhd (Hch & Hsize & Hmem)]. pose proof Hpl as (Hk & Hk' & _).
  unfold dispatch_constants_new in Hdc. apply bind_ok in Hdc as (st & Hst & Hlay).
  pose proof (dispatch_constants_facts p core_type (Z.of_nat num) dc k st Hpl ltac:(lia) Hst Hlay) as [[He Hqs] Hmax (v & Hv & Hlen & Hv0 & Hvm & Hcb & Hcb') Hcm _ _].
  apply (manager_built p core_type channel dc override host_size num mem h v Hv Hlen ltac:(lia)) in Hm.
  destruct Hm as [[Hset Hnum] (Hb & _ & Ho) _ Hif Hps Hfs].
  apply (prefetch_h_args_eq _ _ _ _ _ _ _ Hv Hlen) in Hargs.
  destruct (Hif cq c Hc) as [Hnew Hroom].
  destruct (interface_new_facts p channel (Z.of_nat cq) (cq_size h) k c Hpl Hch ltac:(lia) Hsize ltac:(nia) Hnew)
    as (region & [[Hi Hstart] [Hrs Hr0] (completion & Hrest & Hrest4) [Hs16 Hk16]]).
  rewrite Hstart, Hrs in Hargs.
  set (start := channel_base channel + Z.of_nat cq * cq_size h + 4 * 2 ^ k) in *.
  pose proof (channel_base_facts channel Hch) as [Hcb0 _].
  assert (0 <= max_prefetch_command_size dc * (prefetch_q_entries dc + 2) <= 2 ^ 17 * 1536)
    by (split; [lia|apply Z.mul_le_mono_nonneg; lia]).
  rewrite (u32_small (prefetch_q_entries dc + 2)), u32_small, Hrs in Hroom by lia.
  pose proof (rest_bound _ _ _ _ _ (proj1 He) (proj1 Hmax) Hroom Hrest Hrest4) as Hcomp.
  assert (Hend : start + region + max_prefetch_command_size dc < 2 ^ 32) by (unfold start; nia).
  assert (Hst0 : channel_base channel <= start) by (unfold start; nia).
  assert (HL : Linked p dc a (channel_offset h) k).
  { subst a. rewrite Ho. constructor; cbn; try done; try lia.
    split; [lia|]. replace (start - channel_base channel) with (Z.of_nat cq * cq_size h + 4 * 2 ^ k) by (unfold start; lia).
    apply mod16_add; [by apply mod16_mul|done]. }
  split; [done|]. split; [|unfold entries; lia].
  constructor; try done.
  - exists c. rewrite Nat2Z.id. split; [done|]. subst a. unfold CommandQueueInv.start, limit, pointer, norm. cbn.
    rewrite (proj2 (Z.eqb_neq _ _)) by nia. exact Hi.
  - rewrite Nat2Z.id, Hfs by lia. subst a. cbn. unfold entries, sizeof_entry. rewrite u32_small by lia. f_equal. lia.
  - cbn. unfold entries. lia.
  - split; [done|]. rewrite Nat2Z.id. rewrite Hps by lia. by subst a.
Qed.
