(* ===== verification/CommandQueueProps.v ===== *)
(** * Host and prefetcher together: the theorems

    What holds of every interleaving of the host issuing commands and the prefetcher
    fetching and relaying them, for a queue built by the constructors; with the copy
    into host memory and the layout of the core's memory. *)

From Stdlib Require Import Lia.
From stdpp Require Import relations.
From S2P Require Import Prelude Memory ConfigBuffer SystemMemory SystemMemoryOps IssueRing Prefetcher CommandQueueSystem.
From S2P Require Import CommandQueueInv CommandQueueHost CommandQueueKernel CommandQueueSteps CommandQueueLive CommandQueueConfig.

Section Claims.
Context (p : Platform) (core_type : CoreType) (channel : Z) (override : option Z) (host_size : Z) (num cq : nat)
  (mem mem' : Z -> Z) (downstream pages header k : Z) (dc : dispatch_constants) (c : SystemMemoryCQInterface)
  (h : SystemMemoryManager) (a : PrefetchArgs).

Local Abbreviation configured :=
  (Configured p core_type channel override host_size num cq mem downstream pages header k dc c h a).
Local Abbreviation reached := (reachable p core_type (Z.of_nat cq) (max_prefetch_command_size dc) a h mem').
Local Abbreviation steps := (rtc (step p core_type (Z.of_nat cq) (max_prefetch_command_size dc) a)).

Lemma configured_invariant s :
  configured -> reached s -> exists n0 n r l gs g,
  invariant p core_type dc a (Z.of_nat cq) (channel_offset h) s n0 n r l gs g.
Proof.
  intros Hc Hr. apply configured_linked in Hc as (HL & Hh & _).
  by eapply (invariant_reachable p core_type dc a (Z.of_nat cq) (channel_offset h) k HL).
Qed.

(** C1: However the host and the prefetcher interleave, the packets the prefetcher
    relays carry, byte for byte and in order, a prefix of the commands issued: each
    packet one command, or a command followed by one that stalls the prefetcher. *)
Theorem commands_relayed_in_order s :
  configured -> reached s -> exists gs,
  map (payload (header_size a)) (relayed (kernel s)) = map bytes gs /\ Forall packet gs /\ mjoin gs `prefix_of` commands s.
Proof.
  intros Hc Hr. destruct (configured_invariant s Hc Hr) as (n0 & n & r & l & gs & g & Hi).
  destruct (relayed_bytes _ _ _ _ _ _ _ _ _ _ _ _ _ Hi) as (H1 & H2 & H3).
  exists gs. split; [done|]. split; [done|]. exists (g ++ drop l (commands s)). by rewrite app_assoc, H3, take_drop.
Qed.

(** C22: The host never overwrites a command before it has landed: the source of every
    read the prefetcher has in flight holds, in the host's memory as it is now, exactly
    the bytes of one command issued, whatever the host has written since. *)
Theorem reads_in_flight_intact s :
  configured -> reached s ->
  Forall (fun r => exists d, d ∈ commands s /\ read_size r = Z.of_nat (length d.1) /\
    read_mem (pcie_view (host s)) (read_src r) (read_size r) = d.1) (in_flight (kernel s)).
Proof.
  intros Hc Hr. destruct (configured_invariant s Hc Hr) as (n0 & n & r & l & gs & g & [_ _ Hk Hm _]).
  pose proof (in_flight_command _ _ _ _ _ _ _ _ _ _ Hk) as [->|(d & Hd & dst & ->)]; [constructor|].
  constructor; [|constructor]. exists d. cbn. split; [by eapply list_elem_of_lookup_2|]. split; [done|]. by apply (Hm l d).
Qed.

(** C23: Nothing fails: from every state reached the kernel goes on (or waits for
    downstream pages), the host's write of a well-sized command succeeds when it is
    idle, and so does the entry it has reserved. *)
Theorem queue_never_fails s :
  configured -> reached s ->
  (forall exits e, (kernel_step a exits (pcie_view (host s)) (pt s) (kernel s)).2 = Err e -> pt s = AtRelay /\ e = OutOfFuel) /\
  (forall data, phase s = Idle -> well_sized p (max_prefetch_command_size dc) data ->
    exists h', issue_command p core_type data (Z.of_nat cq) (host s) = (h', Ok tt)) /\
  (forall size stall, phase s = Reserved size stall ->
    exists h', fetch_queue_write p core_type size (Z.of_nat cq) stall (host s) = (h', Ok tt)).
Proof.
  intros Hc Hr. destruct (configured_invariant s Hc Hr) as (n0 & n & r & l & gs & g & [Hs Hh Hk Hm _]).
  apply configured_linked in Hc as (HL & _ & _). split_and!.
  - intros exits e He. pose proof (kernel_step_ok p dc a (channel_offset h) k HL _ _ _ _ _ _ _ _ (pcie_view (host s)) exits Hk Hs Hm)
      as [(q' & pt' & r' & l' & gs' & g' & E & _)|[Hp E]]; rewrite E in He; [done|]. split; [done|congruence].
  - intros data Hp Hd. rewrite Hp in Hh.
    destruct (host_issue p core_type dc a (Z.of_nat cq) (channel_offset h) k HL _ _ _ _ data false Hh Hs Hd) as (h' & E & _). by exists h'.
  - intros size stall Hp. rewrite Hp in Hh.
    destruct (host_enter p core_type dc a (Z.of_nat cq) (channel_offset h) k HL _ _ _ _ size stall Hs Hh) as (h' & d & E & _). by exists h'.
Qed.

(** C2: Every command issued can be brought to its end.  From every state reached in
    which the prefetcher has not been told to exit, and no command before the last one
    issued is a TERMINATE, which ends the prefetcher, some steps complete the command
    the host is at and relay all that were issued: the waits of the host and of the
    prefetcher do not deadlock. *)
Theorem every_command_arrives s :
  configured -> reached s -> terminates_last (commands s) -> pt s <> Exited ->
  exists s', steps s s' /\ phase s' = Idle /\ commands s' = commands s /\
  mjoin (map (payload (header_size a)) (relayed (kernel s'))) = bytes (commands s).
Proof.
  intros Hc Hr Hlast Hex. destruct (configured_invariant s Hc Hr) as (n0 & n & r & l & gs & g & Hi).
  apply configured_linked in Hc as (HL & _ & H2).
  destruct (completes p core_type dc a (Z.of_nat cq) (channel_offset h) k HL s n0 n r l gs g Hi Hlast Hex H2)
    as (s' & n1 & n' & gs' & R & Hp & Hcs & Hi' & Hall).
  exists s'. split; [done|]. split; [done|]. split; [done|].
  destruct (relayed_bytes _ _ _ _ _ _ _ _ _ _ _ _ _ Hi') as (-> & _). rewrite <- Hall. apply bytes_join.
Qed.
End Claims.

(** [memcpy_to_device], whatever the length and however it splits it into blocks,
    writes the source bytes at the destination and then zeros up to a multiple of four
    bytes, and nothing else; a destination off a 16-byte boundary is refused. *)
Theorem memcpy_to_device_copies dst src mem :
  (dst mod 16 = 0 -> exists mem', memcpy_to_device dst src mem = Ok mem' /\
    (forall i, (i < length src)%nat -> mem' (dst + Z.of_nat i) = src !!! i) /\
    (forall x, dst + Z.of_nat (length src) <= x < dst + Z.of_nat (length (padded src)) -> mem' x = 0) /\
    (forall x, x < dst \/ dst + Z.of_nat (length (padded src)) <= x -> mem' x = mem x)) /\
  (dst mod 16 <> 0 -> memcpy_to_device dst src mem = Err Assert).
Proof.
  split.
  - intros Ha. destruct (memcpy_to_device_ok dst src mem Ha) as (mem' & E & Hm). exists mem'. split; [done|].
    assert (Hlen : (length src <= length (padded src))%nat) by (unfold padded; rewrite length_app; lia). split_and!.
    + intros i Hi. rewrite Hm, write_mem_in by lia. unfold padded. by rewrite lookup_total_app_l.
    + intros x Hx. rewrite Hm. replace x with (dst + Z.of_nat (Z.to_nat (x - dst))) by lia. rewrite write_mem_in by lia.
      unfold padded in *. rewrite length_app, length_replicate in *. rewrite lookup_total_app_r by lia.
      apply lookup_total_replicate_2. lia.
    + intros x Hx. rewrite Hm. by apply write_mem_out.
  - intros Ha. unfold memcpy_to_device. by rewrite (proj2 (Z.eqb_neq _ _) Ha).
Qed.

(** The constants accepted by the constructor lay the prefetcher's core out without
    overlap: the fetch queue, the command-data queue and the scratch buffer follow each
    other inside the core's memory, and the dispatch buffer starts on a page and ends
    inside it. *)
Theorem dispatch_layout p core_type cqs dc k st :
  sane_platform p k -> 0 < cqs < 256 -> dispatch_constants_new p core_type cqs = Ok dc -> settings_of p core_type cqs = Ok st ->
  exists base, get_device_command_queue_addr dc UNRESERVED = Ok base /\ 0 < base /\
  base + prefetch_q_entries dc * sizeof_entry <= cmddat_q_base dc /\
  cmddat_q_base dc + cmddat_q_size dc <= scratch_db_base dc /\
  scratch_db_base dc + scratch_db_size dc < cs_l1_size st /\
  2 * max_prefetch_command_size dc <= cmddat_q_size dc /\
  dispatch_buffer_base dc mod 4096 = 0 /\ dispatch_buffer_base dc + 4096 * dispatch_buffer_pages dc < cs_l1_size st.
Proof.
  intros Hp Hc H Hst. unfold dispatch_constants_new in H. apply bind_ok in H as (st' & Hst' & Hlay).
  assert (st' = st) as -> by congruence.
  destruct (dispatch_constants_facts p core_type cqs dc k st Hp Hc Hst Hlay) as [[_ Hq] _ (v & Hv & Hlen & Hv0 & _ & Hb & _) Hcm Hs Hbuf].
  exists v. unfold get_device_command_queue_addr, at_. rewrite Hlen. change (Z.to_nat (device_addr_index UNRESERVED)) with 8%nat.
  rewrite Hv. unfold sizeof_entry. rewrite <- Hq. split; [done|]. lia.
Qed.

(** ** Witnesses *)

(** One queue on a board with worker dispatch, a host channel of half a gigabyte. *)
Definition board : Platform := mkPlatform false 32 16 (100 * 1024) (50 * 1024) (1464 * 1024) (256 * 1024) 1000.
Definition board_constants : dispatch_constants := Eval vm_compute in
  match dispatch_constants_new board WORKER 1 with Ok dc => dc | Err _ => mkDispatch 0 0 0 0 0 0 0 0 0 0 0 0 0 [] end.
Definition board_manager : SystemMemoryManager :=
  (SystemMemoryManager_new board WORKER 0 None (2 ^ 29) (blank (mkStatic 1 WORKER (Some board_constants)) 1 (fun _ => 0))).1.
Definition board_interface : SystemMemoryCQInterface := Eval vm_compute in
  default (mkCQ 0 0 0 0 0 0 0 0 false 0 0 0 false) (cq_interfaces board_manager !! 0%nat).
Definition board_args : PrefetchArgs := Eval vm_compute in
  match prefetch_h_args board_constants board_interface 65536 8 32 with Ok a => a | Err _ => mkArgs 0 0 0 0 0 0 0 0 0 0 end.
Definition board_command : list Z := map Z.of_nat (seq 1 32).


(** A schedule: what happens next, with the host never waiting. *)
Inductive move := MIssue (data : list Z) (stall : bool) | MReserve | MEnter | MKernel.

Definition do_move (m : move) (s : System) : option System :=
  match m, phase s with
  | MIssue data stall, Idle =>
      match issue_command board WORKER data 0 (host s) with
      | (h', Ok tt) => if decide (0 < Z.of_nat (length data) <= 2 ^ 17 /\ Z.of_nat (length data) mod 32 = 0) then
          Some (mkSystem h' (Issued (Z.of_nat (length data)) stall) (kernel s) (pt s) (commands s ++ [(data, stall)]) (published s) (seen s))
          else None
      | _ => None
      end
  | MReserve, Issued n stall =>
      match fetch_queue_reserve_back board WORKER 0 [] (host s) with
      | (h', Ok []) => Some (mkSystem h' (Reserved n stall) (kernel s) (pt s) (commands s) (published s) (seen s))
      | _ => None
      end
  | MEnter, Reserved n stall =>
      match fetch_queue_write board WORKER n 0 stall (host s) with
      | (h', Ok tt) => Some (mkSystem h' Idle (deliver 0 (drop (length (events (host s))) (events h')) (kernel s)) (pt s)
          (commands s) (published s) (seen s))
      | _ => None
      end
  | MKernel, _ =>
      match kernel_step board_args no_exit (pcie_view (host s)) (pt s) (kernel s) with
      | (k', Ok pt') => Some (mkSystem (host s) (phase s) k' pt' (commands s) (published s ++ [host_rd_ptr k']) (seen s))
      | _ => None
      end
  | _, _ => None
  end.

Definition board_reachable := reachable board WORKER 0 (max_prefetch_command_size board_constants) board_args board_manager (fun _ => 0).

Lemma do_move_reachable m s s' : board_reachable s -> do_move m s = Some s' -> board_reachable s'.
Proof.
  intros Hr H. eapply reach_step; [exact Hr|]. destruct s as [h ph q pt cs vs i]. unfold do_move in H. cbn in H.
  destruct m as [data stall| | |], ph as [|n st|n st]; try done; repeat case_match; simplify_eq/=;
    first [by eapply step_kernel with (exits := no_exit); [left|] | by econstructor | idtac].
  eapply step_reserve; [constructor|done].
Qed.

Fixpoint do_moves (ms : list move) (s : System) : option System :=
  match ms with [] => Some s | m :: ms => match do_move m s with Some s' => do_moves ms s' | None => None end end.

Lemma do_moves_reachable ms s s' : board_reachable s -> do_moves ms s = Some s' -> board_reachable s'.
Proof.
  revert s; induction ms as [|m ms IH]; cbn; intros s Hr H; [by simplify_eq|].
  destruct (do_move m s) eqn:E; [|done]. eapply IH; [|done]. by eapply do_move_reachable.
Qed.

(** The state a schedule leads to, from what can be computed of it. *)
Lemma run_board {A} (f : System -> A) ms v :
  option_map f (do_moves ms (initial board_args board_manager (fun _ => 0))) = Some v -> exists s, board_reachable s /\ f s = v.
Proof.
  destruct (do_moves ms _) as [s|] eqn:E; [|done]. intros [= <-]. exists s. split; [|done].
  eapply do_moves_reachable; [|exact E]. apply reach_initial.
Qed.

Lemma board_configured :
  Configured board WORKER 0 None (2 ^ 29) 1 0 (fun _ => 0) 65536 8 32 5 board_constants board_interface board_manager board_args.
Proof.
  constructor.
  - unfold sane_platform. cbn. lia.
  - vm_compute. reflexivity.
  - assert (E : (SystemMemoryManager_new board WORKER 0 None (2 ^ 29)
      (blank (mkStatic 1 WORKER (Some board_constants)) 1 (fun _ => 0))).2 = Ok tt) by (vm_compute; reflexivity).
    unfold board_manager. change (Z.of_nat 1) with 1.
    destruct (SystemMemoryManager_new board WORKER 0 None (2 ^ 29) _) as [m r]. cbn in *. by rewrite E.
  - split; [lia|]. vm_compute. reflexivity.
  - vm_compute. reflexivity.
  - lia.
  - vm_compute. repeat split; discriminate || reflexivity.
Qed.

Lemma commands_relayed_in_order_witness : exists s, board_reachable s /\
  map (payload 32) (relayed (kernel s)) = [board_command ++ board_command] /\
  exists gs, map (payload 32) (relayed (kernel s)) = map bytes gs /\ Forall packet gs /\ mjoin gs `prefix_of` commands s.
Proof.
  destruct (run_board (fun s => map (payload 32) (relayed (kernel s)))
    [MIssue board_command false; MReserve; MEnter; MKernel; MIssue board_command true; MReserve; MEnter; MKernel; MKernel; MKernel; MKernel;
     MIssue board_command false]
    [board_command ++ board_command]) as (s & R & E); [vm_compute; reflexivity|].
  exists s. split; [exact R|]. split; [exact E|].
  exact (commands_relayed_in_order _ _ _ _ _ _ _ _ _ _ _ _ _ _ _ _ _ _ board_configured R).
Defined.

Lemma reads_in_flight_intact_witness : exists s, board_reachable s /\ length (in_flight (kernel s)) = 1%nat /\
  Forall (fun r => exists d, d ∈ commands s /\ read_size r = Z.of_nat (length d.1) /\
    read_mem (pcie_view (host s)) (read_src r) (read_size r) = d.1) (in_flight (kernel s)).
Proof.
  destruct (run_board (fun s => length (in_flight (kernel s)))
    [MIssue board_command false; MReserve; MEnter; MKernel; MIssue board_command false] 1%nat) as (s & R & E); [vm_compute; reflexivity|].
  exists s. split; [exact R|]. split; [exact E|].
  exact (reads_in_flight_intact _ _ _ _ _ _ _ _ _ _ _ _ _ _ _ _ _ _ board_configured R).
Defined.

Lemma queue_never_fails_witness : exists s, board_reachable s /\ phase s = Reserved 32 false /\
  exists h', fetch_queue_write board WORKER 32 0 false (host s) = (h', Ok tt).
Proof.
  destruct (run_board phase [MIssue board_command false; MReserve] (Reserved 32 false)) as (s & R & E); [vm_compute; reflexivity|].
  exists s. split; [exact R|]. split; [exact E|].
  exact (proj2 (proj2 (queue_never_fails _ _ _ _ _ _ _ _ _ _ _ _ _ _ _ _ _ _ board_configured R)) 32 false E).
Defined.

(** The last of two commands is a TERMINATE, still being issued. *)
Definition board_terminate : list Z := CQ_PREFETCH_CMD_TERMINATE :: replicate 31 0.

Lemma every_command_arrives_witness : exists s s', board_reachable s /\ commands s = [(board_command, false); (board_terminate, false)] /\
  phase s = Issued 32 false /\
  rtc (step board WORKER 0 (max_prefetch_command_size board_constants) board_args) s s' /\
  mjoin (map (payload 32) (relayed (kernel s'))) = board_command ++ board_terminate.
Proof.
  destruct (run_board (fun s => (commands s, phase s, pt s)) [MIssue board_command false; MReserve; MEnter; MKernel; MIssue board_terminate false]
    ([(board_command, false); (board_terminate, false)], Issued 32 false, AtBarrier)) as (s & R & [= E1 E2 E3]); [vm_compute; reflexivity|].
  destruct (every_command_arrives _ _ _ _ _ _ _ _ _ _ _ _ _ _ _ _ _ _ board_configured R) as (s' & Rs & _ & _ & H).
  - rewrite E1. intros [|[|i]] c Hi Hc; [|reflexivity|discriminate Hi]. injection Hi as <-. discriminate Hc.
  - rewrite E3. discriminate.
  - exists s, s'. split; [exact R|]. split; [exact E1|]. split; [exact E2|]. split; [exact Rs|]. rewrite E1 in H. exact H.
Defined.

Lemma dispatch_layout_witness : exists base, get_device_command_queue_addr board_constants UNRESERVED = Ok base /\ 0 < base.
Proof.
  destruct (dispatch_layout board WORKER 1 board_constants 5
    (mkSettings 1534 (128 * 1024) (256 * 1024) (128 * 1024) (512 * 1024) (256 * 1024) (32 * 1024) (100 * 1024) (1464 * 1024)))
    as (base & H & Hb & _); [unfold sane_platform; cbn; lia|lia|vm_compute; reflexivity|vm_compute; reflexivity|].
  exists base. split; [exact H|exact Hb].
Defined.
