(* ===== verification/Buffers.v ===== *)
(** * Buffers and their page mapping
    (tt_metal/impl/buffers/{buffer.cpp,buffer.hpp,buffer_constants.hpp},
    tt_metal/common/base.hpp)

    A buffer is a sequence of pages on a device.  An interleaved buffer deals its
    pages round-robin to the banks; a sharded one cuts the two-dimensional array of
    its pages into shards, one per core, and [generate_buffer_page_mapping] builds the
    tables between pages as the host counts them and pages as they lie on the device.
    The allocator a buffer points at, and the soc descriptor's translation of cores,
    are arguments of the functions that use them. *)

From S2P Require Import Prelude CoreCoord FreeList WorkSplit Allocator.

(** ** buffer_constants.hpp *)

Inductive TensorMemoryLayout := INTERLEAVED | SINGLE_BANK | HEIGHT_SHARDED | WIDTH_SHARDED | BLOCK_SHARDED.
Inductive ShardOrientation := ROW_MAJOR | COL_MAJOR.
Inductive ShardMode := PHYSICAL | LOGICAL.

#[export] Instance TensorMemoryLayout_eq_dec : EqDecision TensorMemoryLayout.
Proof. solve_decision. Defined.
#[export] Instance ShardOrientation_eq_dec : EqDecision ShardOrientation.
Proof. solve_decision. Defined.
#[export] Instance ShardMode_eq_dec : EqDecision ShardMode.
Proof. solve_decision. Defined.

(** ** Shard specifications *)

Record ShardSpec := mkShardSpec {
  grid : CoreRangeSet;
  shape : Z * Z;
  orientation : ShardOrientation;
  halo : bool;
  mode : ShardMode;
  physical_shard_shape : option (Z * Z);
}.

(** [ShardSpec(core_sets, shard_shape, orientation, halo, mode)] *)
Definition ShardSpec_new (core_sets : CoreRangeSet) (shard_shape : Z * Z) (o : ShardOrientation) (halo : bool)
    (m : ShardMode) : ShardSpec := mkShardSpec core_sets shard_shape o halo m None.

(** [ShardSpec(core_sets, shard_shape, physical_shard_shape, orientation, halo)] *)
Definition ShardSpec_new_logical (core_sets : CoreRangeSet) (shard_shape physical : Z * Z) (o : ShardOrientation)
    (halo : bool) : res ShardSpec :=
  check Fatal ((shard_shape.1 <=? physical.1) && (shard_shape.2 <=? physical.2));;
  mret (mkShardSpec core_sets shard_shape o halo LOGICAL (Some physical)).

Definition ShardSpec_num_cores (s : ShardSpec) : Z := CoreRangeSet_num_cores (grid s).
Definition numel (s : ShardSpec) : Z := u32 ((shape s).1 * (shape s).2).

Record ShardSpecBuffer := mkShardSpecBuffer {
  tensor_shard_spec : ShardSpec;
  page_shape : Z * Z;
  tensor2d_shape : Z * Z;
}.

(** A dimension in pages; the code takes a page of no extent for none. *)
Definition in_pages (extent page : Z) : Z := if page =? 0 then 0 else extent / page.

Definition shape_in_pages (s : ShardSpecBuffer) : Z * Z :=
  (in_pages (shape (tensor_shard_spec s)).1 (page_shape s).1, in_pages (shape (tensor_shard_spec s)).2 (page_shape s).2).

(** [ShardSpecBuffer::size]: the pages of a shard. *)
Definition shard_size (s : ShardSpecBuffer) : Z := u32 ((shape_in_pages s).1 * (shape_in_pages s).2).

Definition is_sharded (layout : TensorMemoryLayout) : bool :=
  match layout with HEIGHT_SHARDED | WIDTH_SHARDED | BLOCK_SHARDED => true | _ => false end.

Definition is_l1_type (t : BufferType) : bool := match t with L1 | L1_SMALL => true | _ => false end.

Definition validate_buffer_size_and_page_size (size page_size : Z) (buffer_layout : TensorMemoryLayout)
    (shard_parameters : option ShardSpecBuffer) : res unit :=
  if size =? 0 then mret tt
  else
    check Undefined (negb (page_size =? 0));;
    check Fatal (size mod page_size =? 0);;
    if is_sharded buffer_layout then check Fatal (bool_decide (is_Some shard_parameters))
    else
      check Fatal (negb (bool_decide (is_Some shard_parameters)));;
      (if bool_decide (buffer_layout = SINGLE_BANK) then check Fatal (page_size =? size) else mret tt).

(** ** core_to_host_pages *)

(** The loop over the shards of a height-sharded tensor: runs of consecutive pages. *)
Fixpoint height_shards (pages_per_shard : Z) (shard_in_pages : Z * Z) (num_shards : nat) (rem_pages page_id : Z)
    : res (list (list Z * (Z * Z))) :=
  match num_shards with
  | O => mret []
  | S n =>
      if rem_pages =? 0 then
        rest ← height_shards pages_per_shard shard_in_pages n rem_pages page_id;
        mret (([], (0, 0)) :: rest)
      else
        let num_cols := Z.min pages_per_shard rem_pages in
        shard ← (if rem_pages <? pages_per_shard
                 then check Undefined (negb (shard_in_pages.2 =? 0));; mret (rem_pages / shard_in_pages.2, shard_in_pages.2)
                 else mret shard_in_pages);
        rest ← height_shards pages_per_shard shard_in_pages n (rem_pages - num_cols) (u32 (page_id + num_cols));
        mret ((map (fun j => u32 (page_id + j)) (zrange 0 num_cols), shard) :: rest)
  end.

(** One shard of the other layouts: the rows from [i_offset] and the columns from
    [j_offset] that lie inside the tensor.  The second component is what the loop
    variables say when the loops have ended; [j] is still 0 when no row was entered. *)
Definition block_pages (shard_in_pages tensor2d_size : Z * Z) (i_offset j_offset : Z) : list Z * (Z * Z) :=
  let i_end := Z.min (u32 (shard_in_pages.1 + i_offset)) tensor2d_size.1 in
  let j_end := Z.min (u32 (shard_in_pages.2 + j_offset)) tensor2d_size.2 in
  let rows := zrange i_offset i_end in
  let i := Z.max i_offset i_end in
  let j := match rows with [] => 0 | _ => Z.max j_offset j_end end in
  (flat_map (fun i => map (fun j => u32 (u32 (i * tensor2d_size.2) + j)) (zrange j_offset j_end)) rows,
   (u32 (i - i_offset), u32 (j - j_offset))).

Fixpoint block_shards (shard_in_pages tensor2d_size : Z * Z) (num_shard_columns : Z) (num_shards : nat)
    (i_offset j_offset shard_in_row : Z) : list (list Z * (Z * Z)) :=
  match num_shards with
  | O => []
  | S n =>
      block_pages shard_in_pages tensor2d_size i_offset j_offset ::
      (if u32 (shard_in_row + 1) =? num_shard_columns then
         block_shards shard_in_pages tensor2d_size num_shard_columns n (u32 (i_offset + shard_in_pages.1)) 0 0
       else
         block_shards shard_in_pages tensor2d_size num_shard_columns n i_offset (u32 (j_offset + shard_in_pages.2))
           (u32 (shard_in_row + 1)))
  end.

Definition core_to_host_pages (pages_per_shard : Z) (num_shards : nat) (layout : TensorMemoryLayout)
    (page_shape shard_shape tensor2d_size : Z * Z) : res (list (list Z * (Z * Z))) :=
  let shard_in_pages := (in_pages shard_shape.1 page_shape.1, in_pages shard_shape.2 page_shape.2) in
  match layout with
  | HEIGHT_SHARDED =>
      height_shards pages_per_shard shard_in_pages num_shards (u32 (tensor2d_size.1 * tensor2d_size.2)) 0
  | WIDTH_SHARDED | BLOCK_SHARDED =>
      num_shard_columns ← (if shard_in_pages.2 =? 0 then mret 0 else div_up tensor2d_size.2 shard_in_pages.2);
      mret (block_shards shard_in_pages tensor2d_size num_shard_columns num_shards 0 0 0)
  | _ => mret (replicate num_shards ([], shard_in_pages))
  end.

(** ** Buffers *)

Record BufferPageMapping := mkMapping {
  all_cores_ : list CoreCoord;
  core_bank_indices_ : list Z;
  core_host_page_indices_ : list (list Z);
  dev_page_to_core_mapping_ : list Z;
  dev_page_to_host_page_mapping_ : list (option Z);
  host_page_to_dev_page_mapping_ : list Z;
  core_to_core_id_ : gmap CoreCoord Z;
  host_page_to_local_shard_page_mapping_ : list Z;
  core_shard_shape_ : list (Z * Z);
}.

Definition empty_mapping : BufferPageMapping := mkMapping [] [] [] [] [] [] ∅ [] [].

Inductive AllocationStatus := ALLOCATION_REQUESTED | ALLOCATION_FAILED | ALLOCATED | DEALLOCATED.

#[export] Instance AllocationStatus_eq_dec : EqDecision AllocationStatus.
Proof. solve_decision. Defined.

Record Buffer := mkBuf {
  size_ : Z;
  buffer_type_ : BufferType;
  buffer_layout_ : TensorMemoryLayout;
  bottom_up_ : bool;
  sub_device_id_ : option Z;
  owns_data_ : bool;
  sub_device_manager_id_ : option Z;
  allocation_status_ : AllocationStatus;
  address_ : Z;
  deallocation_requested_ : bool;
  page_size_ : Z;
  shard_parameters_ : option ShardSpecBuffer;
  buffer_page_mapping_ : option BufferPageMapping;
  unique_id_ : Z;
}.

Definition num_pages (b : Buffer) : Z := if page_size_ b =? 0 then 0 else u32 (size_ b / page_size_ b).

Definition shard_spec (b : Buffer) : res ShardSpecBuffer :=
  check Fatal (is_sharded (buffer_layout_ b));; opt_res Fatal (shard_parameters_ b).

Definition num_cores (b : Buffer) : res (option Z) :=
  if is_sharded (buffer_layout_ b)
  then s ← shard_spec b; mret (Some (ShardSpec_num_cores (tensor_shard_spec s)))
  else mret None.

Definition num_dev_pages (b : Buffer) : res Z :=
  if is_sharded (buffer_layout_ b)
  then s ← shard_spec b; n ← num_cores b; n ← opt_res StdException n; mret (u32 (u64 (shard_size s * n)))
  else mret (num_pages b).

(** ** generate_buffer_page_mapping *)

(** The tables being filled and the counters of the loops. *)
Record PageLoop := mkLoop {
  dev_to_core : list Z;
  dev_to_host : list (option Z);
  host_to_local : list Z;
  host_to_dev : list Z;
  core_pages : list Z;
  dev_page_index : Z;
  valid_shard_page : Z;
  shard_page_id : Z;
}.

(** The body of the innermost loop. *)
Definition place_page (core_index : Z) (host_pages : list Z) (core_shape : Z * Z) (xy : Z * Z) (l : PageLoop) : res PageLoop :=
  cores ← set_at (dev_page_index l) core_index (dev_to_core l);
  let next := u32 (dev_page_index l + 1) in
  if (xy.1 <? core_shape.1) && (xy.2 <? core_shape.2) then
    host_page ← at_ host_pages (valid_shard_page l);
    hosts ← set_at (dev_page_index l) (Some host_page) (dev_to_host l);
    locals ← set_at host_page (shard_page_id l) (host_to_local l);
    devs ← set_at host_page (dev_page_index l) (host_to_dev l);
    mret (mkLoop cores hosts locals devs (core_pages l ++ [host_page]) next (u32 (valid_shard_page l + 1))
            (u32 (shard_page_id l + 1)))
  else
    mret (mkLoop cores (dev_to_host l) (host_to_local l) (host_to_dev l) (core_pages l) next (valid_shard_page l)
            (u32 (shard_page_id l + 1))).

(** The body of the loop over the cores: [core_host_page_indices_] of the cores done,
    and the tables. *)
Definition place_core (shape_in_pages : Z * Z) (core : Z * (list Z * (Z * Z))) (st : list (list Z) * PageLoop)
    : res (list (list Z) * PageLoop) :=
  let '(core_index, (host_pages, core_shape)) := core in
  let '(done, l) := st in
  l ← fold_res (fun x => fold_res (fun y => place_page core_index host_pages core_shape (x, y)) (zrange 0 shape_in_pages.2))
        (zrange 0 shape_in_pages.1)
        (mkLoop (dev_to_core l) (dev_to_host l) (host_to_local l) (host_to_dev l) [] (dev_page_index l) 0 0);
  mret (done ++ [core_pages l], l).

Definition generate_buffer_page_mapping (b : Buffer) : res BufferPageMapping :=
  if size_ b =? 0 then mret empty_mapping
  else
    s ← shard_spec b;
    let row_major := bool_decide (orientation (tensor_shard_spec s) = ROW_MAJOR) in
    n ← num_cores b; n ← opt_res StdException n;
    let all_cores := corerange_to_cores (grid (tensor_shard_spec s)) (Some n) row_major in
    check Fatal (n =? Z.of_nat (length all_cores));;
    let ids := fold_left (fun m '(core_id, core) => insert_new core core_id m)
                 (zip (zrange 0 (Z.of_nat (length all_cores))) all_cores) ∅ in
    dev_pages ← num_dev_pages b;
    shards ← core_to_host_pages (u32 (shard_size s)) (Z.to_nat n) (buffer_layout_ b) (page_shape s)
      (shape (tensor_shard_spec s)) (tensor2d_shape s);
    let zeros := replicate (Z.to_nat (num_pages b)) 0 in
    '(core_pages, l) ← fold_res (place_core (shape_in_pages s)) (zip (zrange 0 (Z.of_nat (length shards))) shards)
      ([], mkLoop (replicate (Z.to_nat dev_pages) 0) (replicate (Z.to_nat dev_pages) None) zeros zeros [] 0 0 0);
    mret (mkMapping all_cores [] core_pages (dev_to_core l) (dev_to_host l) (host_to_dev l) ids (host_to_local l)
            (map snd shards)).

(** ** Sizes and addresses *)

Definition set_mapping (m : option BufferPageMapping) (b : Buffer) : Buffer :=
  mkBuf (size_ b) (buffer_type_ b) (buffer_layout_ b) (bottom_up_ b) (sub_device_id_ b) (owns_data_ b)
    (sub_device_manager_id_ b) (allocation_status_ b) (address_ b) (deallocation_requested_ b) (page_size_ b)
    (shard_parameters_ b) m (unique_id_ b).

(** [get_buffer_page_mapping]: computed once and kept. *)
Definition get_buffer_page_mapping : M Buffer BufferPageMapping :=
  b ← get;
  require Fatal (is_sharded (buffer_layout_ b));;
  match buffer_page_mapping_ b with
  | Some m => mret m
  | None => m ← lift (generate_buffer_page_mapping b); modify (set_mapping (Some m));; mret m
  end.

Definition set_page_size (page_size : Z) : M Buffer unit :=
  b ← get;
  require Fatal (if page_size =? 0 then size_ b =? 0 else size_ b mod page_size =? 0);;
  put (mkBuf (size_ b) (buffer_type_ b) (buffer_layout_ b) (bottom_up_ b) (sub_device_id_ b) (owns_data_ b)
    (sub_device_manager_id_ b) (allocation_status_ b) (address_ b) (deallocation_requested_ b) page_size
    (shard_parameters_ b) None (unique_id_ b)).

Definition set_shard_spec (s : ShardSpecBuffer) : M Buffer unit :=
  b ← get;
  put (mkBuf (size_ b) (buffer_type_ b) (buffer_layout_ b) (bottom_up_ b) (sub_device_id_ b) (owns_data_ b)
    (sub_device_manager_id_ b) (allocation_status_ b) (address_ b) (deallocation_requested_ b) (page_size_ b)
    (Some s) None (unique_id_ b)).

Definition is_l1 (b : Buffer) : bool := is_l1_type (buffer_type_ b).
Definition is_dram (b : Buffer) : bool := match buffer_type_ b with DRAM | TRACE => true | _ => false end.
Definition is_trace (b : Buffer) : bool := match buffer_type_ b with TRACE => true | _ => false end.

(** [CoreType::DRAM] and [CoreType::WORKER] are all this file needs of the enumeration. *)
Inductive BufferCoreType := CORE_DRAM | CORE_WORKER.

Definition core_type (b : Buffer) : res BufferCoreType :=
  match buffer_type_ b with DRAM => mret CORE_DRAM | L1 | L1_SMALL => mret CORE_WORKER | _ => Err Throw end.

(** common/base.hpp *)
Definition align (addr alignment : Z) : Z := u32 (Z.lor (u32 (addr - 1)) (u32 (alignment - 1)) + 1).

Section Placed.
(** The allocator of the buffer, and the soc descriptor of its device. *)
Context (a : Allocator).
Context (dram_core_from_dram_channel : Z -> CoreCoord) (worker_core_from_logical_core : CoreCoord -> CoreCoord).

Definition alignment : Z := config_alignment (config_ a).
Definition aligned_page_size (b : Buffer) : Z := align (u32 (page_size_ b)) (u32 alignment).
Definition aligned_size (b : Buffer) : res Z := n ← num_dev_pages b; mret (u64 (n * aligned_page_size b)).

(** [num_device_banks]: [Device::num_banks] of the buffer's type. *)
Definition aligned_size_per_bank (num_device_banks : Z) (b : Buffer) : res Z :=
  num_banks ← (if is_sharded (buffer_layout_ b) then n ← num_cores b; opt_res StdException n else mret num_device_banks);
  size ← aligned_size b;
  SizeBytesPerBank size (aligned_page_size b) num_banks alignment.

Definition translate_page_address (b : Buffer) (offset bank_id : Z) : res Z :=
  base ← bank_offset a (buffer_type_ b) bank_id;
  mret (u64 (u32 (u32 (address_ b) + base) + offset)).

Definition page_address (b : Buffer) (bank_id page_index : Z) : res Z :=
  num_banks ← num_banks a (buffer_type_ b);
  check Fatal (bank_id <? num_banks);;
  let pages_offset_within_bank := i32 (u32 page_index / num_banks) in
  page ← round_up (u32 (page_size_ b)) (u32 alignment);
  translate_page_address b (u32 (page * pages_offset_within_bank)) bank_id.

Definition sharded_page_address (b : Buffer) (bank_id page_index : Z) : res Z :=
  check Fatal (is_sharded (buffer_layout_ b));;
  s ← shard_spec b;
  check Undefined (negb (shard_size s =? 0));;
  let pages_offset_within_bank := u32 (page_index mod shard_size s) in
  page ← round_up (u32 (page_size_ b)) (u32 alignment);
  translate_page_address b (u32 (page * pages_offset_within_bank)) bank_id.

Definition Buffer_dram_channel_from_bank_id (b : Buffer) (bank_id : Z) : res Z :=
  check Fatal (is_dram b);; dram_channel_from_bank_id a bank_id.

Definition Buffer_logical_core_from_bank_id (b : Buffer) (bank_id : Z) : res CoreCoord :=
  check Fatal (is_l1 b);; logical_core_from_bank_id a bank_id.

Definition noc_coordinates (b : Buffer) (bank_id : Z) : res CoreCoord :=
  match buffer_type_ b with
  | DRAM | TRACE => c ← Buffer_dram_channel_from_bank_id b bank_id; mret (dram_core_from_dram_channel c)
  | L1 | L1_SMALL => c ← Buffer_logical_core_from_bank_id b bank_id; mret (worker_core_from_logical_core c)
  | SYSTEM_MEMORY => Err Throw
  end.
End Placed.
