(* ===== verification/BufferPages.v ===== *)
(** * The page mapping of a sharded buffer is a bijection: lemmas

    [core_to_host_pages] gives a plan: for each core the host pages of its shard and the
    extent of the part of the shard that lies inside the tensor.  The loops of
    [generate_buffer_page_mapping] write the plan into the tables page by page; the plan
    of each layout is computed in closed form. *)

From Stdlib Require Import Lia.
From S2P Require Import Prelude CoreCoord FreeList WorkSplit Allocator Buffers.

Abbreviation plan_entry := (list Z * (Z * Z))%type.

(** The place of a cell in an array stored row by row. *)
Lemma row_index i j m n : 0 <= i < m -> 0 <= j < n -> 0 <= i * n + j < m * n.
Proof.
  intros Hi Hj. assert ((i + 1) * n <= m * n) by (apply Z.mul_le_mono_nonneg_r; lia).
  assert (0 <= i * n) by (apply Z.mul_nonneg_nonneg; lia). lia.
Qed.

(** The shard, the row and the column of a page of the device, from its number. *)
Lemma place_of h w c x y :
  0 < h -> 0 < w -> 0 <= c -> 0 <= x < h -> 0 <= y < w ->
  let d := c * (h * w) + x * w + y in
  d / (h * w) = c /\ d mod (h * w) = x * w + y /\ (x * w + y) / w = x /\ (x * w + y) mod w = y.
Proof.
  intros Hh Hw Hc Hx Hy d. pose proof (row_index x y h w Hx Hy). unfold d.
  rewrite <- Z.add_assoc. rewrite Z.div_add_l, Z.div_small by lia.
  rewrite (Z.add_comm (c * (h * w))), Z.mod_add, Z.mod_small by lia.
  rewrite Z.div_add_l, (Z.div_small y) by lia. rewrite (Z.add_comm (x * w)), Z.mod_add, Z.mod_small by lia. lia.
Qed.

(** ** Filling the tables from a plan *)

Section Fill.
(** The pages of a shard are [h] rows of [w]; [P] is the number of host pages. *)
Context (h w P : Z) (plan : list plan_entry).
Hypothesis Hh : 0 < h.
Hypothesis Hw : 0 < w.

Let spp := h * w.
Let N := Z.of_nat (length plan) * spp.
Hypothesis HN : N < 2 ^ 32.

(** A shard's host pages fill the part of it that lies inside the tensor. *)
Definition entry_ok (e : plan_entry) : Prop :=
  Forall (fun p => 0 <= p < P) e.1 /\
  (e.2.1 = 0 /\ e.1 = [] \/ 0 < e.2.1 <= h /\ 0 <= e.2.2 <= w /\ Z.of_nat (length e.1) = e.2.1 * e.2.2).

Hypothesis Hplan : Forall entry_ok plan.

(** The host page that lies at place [p] of a shard. *)
Definition entry_at (e : plan_entry) (p : Z) : option Z :=
  if (p / w <? e.2.1) && (p mod w <? e.2.2) then e.1 !! Z.to_nat (p / w * e.2.2 + p mod w) else None.

(** The host page that lies at a page of the device. *)
Definition host_at (d : Z) : option Z := plan !! Z.to_nat (d / spp) ≫= fun e => entry_at e (d mod spp).

Hypothesis Hinj : forall d d' p, 0 <= d < N -> 0 <= d' < N -> host_at d = Some p -> host_at d' = Some p -> d = d'.

Lemma host_at_range d p : host_at d = Some p -> 0 <= p < P.
Proof.
  unfold host_at. destruct (plan !! Z.to_nat (d / spp)) as [e|] eqn:He; [|done]. cbn. unfold entry_at.
  destruct ((_ <? _) && _); [|done]. intros Hp.
  pose proof (proj1 (Forall_lookup _ _) Hplan _ _ He) as [Hr _]. by pose proof (proj1 (Forall_lookup _ _) Hr _ _ Hp).
Qed.

(** The pages before [k] have been placed. *)
Record placed (k : Z) (l : PageLoop) : Prop := mkPlaced {
  at_index : dev_page_index l = k;
  len_core : Z.of_nat (length (dev_to_core l)) = N;
  len_host : Z.of_nat (length (dev_to_host l)) = N;
  len_local : Z.of_nat (length (host_to_local l)) = P;
  len_dev : Z.of_nat (length (host_to_dev l)) = P;
  have_core : forall d, 0 <= d < N -> dev_to_core l !! Z.to_nat d = Some (if d <? k then d / spp else 0);
  have_host : forall d, 0 <= d < N -> dev_to_host l !! Z.to_nat d = Some (if d <? k then host_at d else None);
  have_dev : forall d p, 0 <= d < k -> host_at d = Some p ->
    host_to_dev l !! Z.to_nat p = Some d /\ host_to_local l !! Z.to_nat p = Some (d mod spp);
}.

(** The pages of core [c] before place [(x, y)] have been placed. *)
Definition core_placed (c : Z) (e : plan_entry) (x y : Z) (l : PageLoop) : Prop :=
  let valid := if x <? e.2.1 then x * e.2.2 + Z.min y e.2.2 else e.2.1 * e.2.2 in
  placed (c * spp + x * w + y) l /\ shard_page_id l = x * w + y /\
  valid_shard_page l = (if e.2.1 =? 0 then 0 else valid) /\
  core_pages l = take (Z.to_nat (valid_shard_page l)) e.1.

Lemma update_lookup {A} (t : list A) (f : Z -> A) (k : Z) (v : A) :
  0 <= k < Z.of_nat (length t) ->
  (forall d, 0 <= d < Z.of_nat (length t) -> t !! Z.to_nat d = Some (f d)) ->
  forall d, 0 <= d < Z.of_nat (length t) -> update t k v !! Z.to_nat d = Some (if d =? k then v else f d).
Proof.
  intros Hk Ht d Hd. unfold update. destruct (Z.eqb_spec d k) as [->|Hne].
  - apply list_lookup_insert_eq. lia.
  - rewrite list_lookup_insert_ne by lia. by apply Ht.
Qed.

(** The step of the innermost loop. *)
Lemma place_page_ok (i : nat) e x y l :
  plan !! i = Some e -> 0 <= x < h -> 0 <= y < w -> core_placed (Z.of_nat i) e x y l ->
  exists l', place_page (Z.of_nat i) e.1 e.2 (x, y) l = Ok l' /\ core_placed (Z.of_nat i) e x (y + 1) l'.
Proof.
  intros Hi Hx Hy (Hpl & Hid & Hv & Hcp).
  pose proof (proj1 (Forall_lookup _ _) Hplan i e Hi) as [Hr He].
  pose proof (lookup_lt_Some _ _ _ Hi) as Hlt.
  destruct (place_of h w (Z.of_nat i) x y Hh Hw ltac:(lia) Hx Hy) as (Ec & Em & Ex & Ey).
  fold spp in Ec, Em. set (k := Z.of_nat i * spp + x * w + y) in *.
  assert (0 <= x * w + y < spp) as Hp0 by (unfold spp; nia).
  assert (0 <= k < N) as Hk.
  { unfold k, N. assert (Z.of_nat i * spp + spp <= Z.of_nat (length plan) * spp) by nia. nia. }
  assert (Hat : host_at k = entry_at e (x * w + y)) by (unfold host_at; by rewrite Ec, Em, Nat2Z.id, Hi).
  unfold entry_at in Hat. rewrite Ex, Ey in Hat.
  destruct Hpl as [E1 L1 L2 L3 L4 C1 C2 C3].
  unfold place_page. cbn [fst snd]. rewrite E1, set_at_ok by lia. cbn [mbind res_bind].
  pose proof (update_lookup _ _ k (Z.of_nat i) ltac:(rewrite L1; lia) ltac:(rewrite L1; exact C1)) as C1'.
  rewrite L1 in C1'.
  assert (spp <= N) as Hspp by (unfold N; nia).
  rewrite (u32_small (k + 1)) by lia. rewrite (u32_small (shard_page_id l + 1)) by lia.
  assert (Hcore : forall d, 0 <= d < N -> update (dev_to_core l) k (Z.of_nat i) !! Z.to_nat d = Some (if d <? k + 1 then d / spp else 0)).
  { intros d Hd. rewrite C1' by done. destruct (Z.eqb_spec d k) as [->|].
    - rewrite (proj2 (Z.ltb_lt k (k + 1))) by lia. by rewrite Ec.
    - destruct (Z.ltb_spec d k), (Z.ltb_spec d (k + 1)); auto; lia. }
  destruct ((x <? e.2.1) && (y <? e.2.2)) eqn:Eb.
  2: { eexists. split; [reflexivity|]. unfold core_placed. cbn [shard_page_id valid_shard_page core_pages].
    split; [|split; [lia|split]].
    - replace (Z.of_nat i * spp + x * w + (y + 1)) with (k + 1) by (unfold k; lia).
      constructor; cbn; rewrite ?length_update; auto.
      + intros d Hd. rewrite C2 by done. destruct (Z.ltb_spec d k), (Z.ltb_spec d (k + 1)); auto; try lia.
        assert (d = k) as -> by lia. by rewrite Hat.
      + intros d p Hd Hp. apply C3; [|done]. destruct (Z.eq_dec d k) as [->|]; [congruence|lia].
    - rewrite Hv. destruct (e.2.1 =? 0); [done|].
      destruct (Z.ltb_spec x e.2.1); [|done]. cbn in Eb. apply Z.ltb_ge in Eb. lia.
    - done. }
  apply andb_true_iff in Eb as [Ea Eb]. apply Z.ltb_lt in Ea, Eb.
  destruct He as [[He0 _]|(Ha & Hb & Hlen)]; [lia|].
  rewrite (proj2 (Z.eqb_neq e.2.1 0)) in Hv by lia. rewrite (proj2 (Z.ltb_lt x e.2.1)), Z.min_l in Hv by lia.
  assert (0 <= x * e.2.2 + y < e.2.1 * e.2.2) as Hin by nia.
  destruct (lookup_lt_is_Some_2 e.1 (Z.to_nat (x * e.2.2 + y)) ltac:(lia)) as [p Hp].
  rewrite Hp in Hat. pose proof (proj1 (Forall_lookup _ _) Hr _ _ Hp) as Hpr. cbn in Hpr.
  unfold at_. rewrite Hv, Hp. cbn [opt_res mbind res_bind].
  rewrite !set_at_ok by lia. cbn [mbind res_bind].
  eexists. split; [reflexivity|]. unfold core_placed. cbn [shard_page_id valid_shard_page core_pages].
  assert (x * e.2.2 + y + 1 <= spp) by (unfold spp; nia).
  rewrite (u32_small (x * e.2.2 + y + 1)) by lia.
  split; [|split; [lia|split]].
  - replace (Z.of_nat i * spp + x * w + (y + 1)) with (k + 1) by (unfold k; lia).
    constructor; cbn; rewrite ?length_update; auto.
    + intros d Hd. pose proof (update_lookup _ _ k (Some p) ltac:(rewrite L2; lia) ltac:(rewrite L2; exact C2)) as C2'.
      rewrite L2 in C2'. rewrite C2' by done. destruct (Z.eqb_spec d k) as [->|].
      * rewrite (proj2 (Z.ltb_lt k (k + 1))) by lia. by rewrite Hat.
      * destruct (Z.ltb_spec d k), (Z.ltb_spec d (k + 1)); auto; lia.
    + intros d q Hd Hq. destruct (Z.eq_dec d k) as [->|].
      * assert (q = p) as -> by congruence. unfold update. rewrite !list_lookup_insert_eq by lia.
        rewrite Hid. by rewrite Em.
      * assert (q <> p) as Hqp by (intros ->; assert (d = k); [apply (Hinj d k p)|]; auto; lia).
        destruct (C3 d q ltac:(lia) Hq) as [H1 H2].
        pose proof (host_at_range _ _ Hq). unfold update. rewrite !list_lookup_insert_ne by lia. done.
  - rewrite (proj2 (Z.eqb_neq e.2.1 0)), (proj2 (Z.ltb_lt x e.2.1)) by lia. lia.
  - rewrite Hcp, Hv. replace (Z.to_nat (x * e.2.2 + y + 1)) with (S (Z.to_nat (x * e.2.2 + y))) by lia.
    by rewrite (take_S_r _ _ _ Hp).
Qed.

(** The loops over the rows and columns of a shard. *)
Lemma place_core_ok (i : nat) e prev l :
  plan !! i = Some e -> placed (Z.of_nat i * spp) l ->
  exists l', place_core (h, w) (Z.of_nat i, e) (prev, l) = Ok (prev ++ [e.1], l') /\ placed ((Z.of_nat i + 1) * spp) l'.
Proof.
  intros Hi Hpl. pose proof (proj1 (Forall_lookup _ _) Hplan i e Hi) as [_ He].
  unfold place_core. destruct e as [hosts shard]. cbn [fst snd] in *.
  set (l0 := mkLoop _ _ _ _ [] _ 0 0).
  destruct (fold_res_zrange (fun x => core_placed (Z.of_nat i) (hosts, shard) x 0)
    (fun x => fold_res (fun y => place_page (Z.of_nat i) hosts shard (x, y)) (zrange 0 w)) 0 h l0) as (l' & -> & Hl').
  - lia.
  - subst l0. unfold core_placed. cbn [shard_page_id valid_shard_page core_pages fst snd].
    split; [|split; [lia|split; [|done]]].
    + replace (Z.of_nat i * spp + 0 * w + 0) with (Z.of_nat i * spp) by lia. by destruct Hpl; constructor.
    + destruct (Z.eqb_spec shard.1 0), (Z.ltb_spec 0 shard.1); nia.
  - intros x lx Hx Hlx.
    destruct (fold_res_zrange (fun y => core_placed (Z.of_nat i) (hosts, shard) x y)
      (fun y => place_page (Z.of_nat i) hosts shard (x, y)) 0 w lx) as (l' & -> & Hl'); [lia|done| |].
    + intros y ly Hy Hly. by apply (place_page_ok i (hosts, shard)).
    + exists l'. split; [done|]. destruct Hl' as (H1 & H2 & H3 & H4). cbn [fst snd] in *.
      unfold core_placed. cbn [fst snd]. split; [|split; [lia|split; [|done]]].
      * by replace (Z.of_nat i * spp + (x + 1) * w + 0) with (Z.of_nat i * spp + x * w + w) by lia.
      * rewrite H3. destruct (Z.eqb_spec shard.1 0); [done|].
        destruct He as [[? _]|He]; [lia|]. destruct (Z.ltb_spec x shard.1), (Z.ltb_spec (x + 1) shard.1); nia.
  - cbn [mbind res_bind]. exists l'. destruct Hl' as (H1 & H2 & H3 & H4). cbn [fst snd] in *. split.
    + do 4 f_equal. rewrite H4, H3. destruct (Z.eqb_spec shard.1 0).
      * destruct He as [[_ ->]|He]; [done|lia].
      * destruct He as [[? _]|He]; [lia|].
        replace (Z.to_nat (if h <? shard.1 then _ else _)) with (length hosts); [apply firstn_all|].
        destruct (Z.ltb_spec h shard.1); nia.
    + replace ((Z.of_nat i + 1) * spp) with (Z.of_nat i * spp + h * w + 0) by (unfold spp; lia). done.
Qed.

(** All the loops. *)
Lemma fill_ok l :
  placed 0 l ->
  exists l', fold_res (place_core (h, w)) (zip (zrange 0 (Z.of_nat (length plan))) plan) ([], l) = Ok (map fst plan, l') /\
    placed N l'.
Proof.
  intros Hl.
  destruct (fold_res_indexed (fun i st => st.1 = map fst (take (Z.to_nat i) plan) /\ placed (i * spp) st.2)
    (place_core (h, w)) plan ([], l)) as ([prev l'] & -> & Hd & Hp).
  - cbn. split; [done|]. by replace (0 * spp) with 0 by lia.
  - intros i e [prev l'] Hi [Hd Hp]. cbn [fst snd] in *.
    destruct (place_core_ok i e prev l' Hi Hp) as (l2 & -> & Hl2). eexists. split; [reflexivity|]. cbn [fst snd].
    split; [|done]. rewrite Hd. replace (Z.to_nat (Z.of_nat i + 1)) with (S (Z.to_nat (Z.of_nat i))) by lia.
    rewrite Nat2Z.id. by rewrite (take_S_r _ _ _ Hi), map_app.
  - exists l'. cbn [fst snd] in *. split; [|done]. by rewrite Nat2Z.id, firstn_all in Hd; subst.
Qed.
End Fill.

(** ** The plan of each layout *)

Section Plans.
Context (h w : Z).
Hypothesis Hh : 0 < h.
Hypothesis Hw : 0 < w.

Let spp := h * w.

Lemma host_at_cons e plan d :
  0 <= d -> host_at h w (e :: plan) d = (if d <? spp then entry_at w e d else host_at h w plan (d - spp)).
Proof.
  intros Hd. assert (0 < spp) by (unfold spp; nia). unfold host_at. fold spp. destruct (Z.ltb_spec d spp).
  - by rewrite Z.div_small, Z.mod_small by lia.
  - pose proof (Z.div_add (d - spp) 1 spp ltac:(lia)) as Hq. pose proof (Z.mod_add (d - spp) 1 spp ltac:(lia)) as Hr.
    replace (d - spp + 1 * spp) with d in Hq, Hr by lia. rewrite Hq, Hr.
    assert (0 <= (d - spp) / spp) by (apply Z.div_pos; lia).
    replace (Z.to_nat ((d - spp) / spp + 1)) with (S (Z.to_nat ((d - spp) / spp))) by lia. done.
Qed.

(** *** Height sharding: consecutive runs *)

Lemma run_entry_at pid m p :
  0 <= pid -> 0 <= m <= spp -> m mod w = 0 -> 0 <= p < spp -> pid + m < 2 ^ 32 ->
  entry_at w (map (fun j => u32 (pid + j)) (zrange 0 m), (m / w, w)) p = if p <? m then Some (pid + p) else None.
Proof.
  intros Hpid Hm Hmw Hp Hb. unfold entry_at. cbn [fst snd].
  pose proof (Z.mod_pos_bound p w Hw). pose proof (Z.div_mod p w ltac:(lia)). pose proof (Z.div_mod m w ltac:(lia)).
  rewrite (proj2 (Z.ltb_lt (p mod w) w)), andb_true_r by lia.
  destruct (Z.ltb_spec p m), (Z.ltb_spec (p / w) (m / w)); try nia; [|done].
  rewrite list_lookup_fmap, lookup_zrange by nia. cbn. f_equal.
  rewrite Z2Nat.id by nia. rewrite u32_small by nia. nia.
Qed.

Lemma height_shards_ok n rem pid :
  0 <= pid -> 0 <= rem -> rem mod w = 0 -> pid + rem < 2 ^ 32 ->
  exists plan, height_shards spp (h, w) n rem pid = Ok plan /\ length plan = n /\
    Forall (entry_ok h w (pid + rem)) plan /\
    forall d, 0 <= d < Z.of_nat n * spp -> host_at h w plan d = if d <? rem then Some (pid + d) else None.
Proof.
  assert (0 < spp) as Hspp by (unfold spp; nia).
  revert rem pid. induction n as [|n IH]; intros rem pid Hpid Hrem Hmod Hb; cbn [height_shards].
  { exists []. split_and!; [done..|constructor|]. lia. }
  destruct (Z.eqb_spec rem 0) as [->|Hne].
  - destruct (IH 0 pid) as (plan & -> & Hl & Hf & Hat); [lia..|]. cbn. eexists. split; [reflexivity|].
    split_and!; [cbn; lia|constructor; [|done]|].
    + split; [constructor|by left].
    + intros d Hd. rewrite host_at_cons by lia. destruct (Z.ltb_spec d spp).
      * rewrite (proj2 (Z.ltb_ge d 0)) by lia. unfold entry_at. cbn [fst snd].
        rewrite (proj2 (Z.ltb_ge (d / w) 0)) by (apply Z.div_pos; lia). done.
      * rewrite Hat by lia. by rewrite !(proj2 (Z.ltb_ge _ 0)) by lia.
  - set (m := Z.min spp rem).
    assert (m mod w = 0) as Hmm.
    { unfold m. destruct (Z.min_spec spp rem) as [[_ ->]|[_ ->]]; [|done]. unfold spp. apply Z.mod_mul. lia. }
    assert ((rem - m) mod w = 0) as Hrm by (rewrite Zminus_mod, Hmod, Hmm; by apply Z.mod_0_l; lia).
    rewrite (u32_small (pid + m)) by (unfold m; pow2; lia).
    destruct (IH (rem - m) (pid + m)) as (plan & E & Hl & Hf & Hat); [first [exact Hrm|unfold m; lia]..|].
    assert (forall shard : Z * Z, shard = (m / w, w) ->
      exists plan, ((rest ← height_shards spp (h, w) n (rem - m) (pid + m);
        mret ((map (fun j => u32 (pid + j)) (zrange 0 m), shard) :: rest)) : res (list plan_entry)) = Ok plan /\
        length plan = S n /\ Forall (entry_ok h w (pid + rem)) plan /\
        forall d, 0 <= d < Z.of_nat (S n) * spp -> host_at h w plan d = if d <? rem then Some (pid + d) else None) as Hmain.
    { intros shard ->. rewrite E. cbn [mbind res_bind]. eexists. split; [reflexivity|]. split_and!; [cbn; lia| |].
      - constructor.
        + pose proof (Z.div_mod m w ltac:(lia)). assert (0 < m <= spp) by (unfold m; lia). unfold spp in *.
          split; cbn [fst snd]; [|right; split_and!; try nia].
          * apply Forall_map, Forall_forall. intros j Hj%elem_of_zrange. cbn. rewrite u32_small by (unfold m in *; pow2; lia).
            unfold m in *. lia.
          * rewrite length_map, length_zrange. nia.
        + eapply Forall_impl; [exact Hf|]. intros e. unfold entry_ok. replace (pid + m + (rem - m)) with (pid + rem) by lia. done.
      - intros d Hd. rewrite host_at_cons by lia. destruct (Z.ltb_spec d spp).
        + rewrite run_entry_at by (unfold m; pow2; lia || done).
          destruct (Z.ltb_spec d m), (Z.ltb_spec d rem); auto; unfold m in *; lia.
        + rewrite Hat by lia. destruct (Z.ltb_spec (d - spp) (rem - m)), (Z.ltb_spec d rem); try (unfold m in *; lia); auto.
          f_equal. unfold m. lia. }
    destruct (Z.ltb_spec rem spp).
    + rewrite (proj2 (Z.eqb_neq (h, w).2 0)) by (cbn; lia). cbn [negb check mbind res_bind fst snd]. apply Hmain.
      unfold m. by rewrite Z.min_r by lia.
    + cbn [mbind res_bind mret res_ret]. apply Hmain. unfold m. rewrite Z.min_l by lia. unfold spp. by rewrite Z.div_mul by lia.
Qed.

(** *** The other layouts: tiles of the tensor, row by row *)

Context (t0 t1 : Z).
Hypothesis Ht0 : 0 < t0.
Hypothesis Ht1 : 0 < t1.
Hypothesis Ht : t0 * t1 < 2 ^ 32.

(** The tiles of a row. *)
Let nc := (t1 + w - 1) / w.

Lemma tiles_bound : 0 < nc /\ (nc - 1) * w < t1 <= nc * w.
Proof.
  pose proof (Z.div_mod (t1 + w - 1) w ltac:(lia)). pose proof (Z.mod_pos_bound (t1 + w - 1) w Hw). unfold nc.
  assert (0 < (t1 + w - 1) / w) by (apply Z.div_str_pos; lia). nia.
Qed.

Lemma block_pages_ok r q :
  0 <= r -> 0 <= q < nc -> (r + 1) * h < 2 ^ 32 -> (q + 1) * w < 2 ^ 32 ->
  let e := block_pages (h, w) (t0, t1) (r * h) (q * w) in
  entry_ok h w (t0 * t1) e /\
  forall p, 0 <= p < spp -> entry_at w e p =
    if (r * h + p / w <? t0) && (q * w + p mod w <? t1) then Some ((r * h + p / w) * t1 + (q * w + p mod w)) else None.
Proof.
  intros Hr Hq Hrb Hqb. pose proof tiles_bound as [Hnc Htb]. unfold block_pages. cbn [fst snd].
  assert (q * w < t1) as Hq1 by nia.
  rewrite (u32_small (h + r * h)), (u32_small (w + q * w)) by (pow2; nia).
  destruct (Z.le_gt_cases t0 (r * h)) as [Hout|Hin].
  { rewrite (zrange_nil (r * h)) by lia. cbn [flat_map]. rewrite Z.max_l by lia. rewrite Z.sub_diag. unfold entry_ok. cbn [fst snd].
    split; [split; [constructor|by left]|]. intros p Hp. unfold entry_at. cbn [fst snd].
    assert (0 <= p / w) by (apply Z.div_pos; lia).
    rewrite (proj2 (Z.ltb_ge (p / w) (u32 0))), (proj2 (Z.ltb_ge (r * h + p / w) t0)) by (change (u32 0) with 0; lia). done. }
  set (i_end := Z.min (h + r * h) t0). set (j_end := Z.min (w + q * w) t1).
  assert (r * h < i_end <= r * h + h /\ i_end <= t0) as Hi by (unfold i_end; lia).
  assert (q * w < j_end <= q * w + w /\ j_end <= t1) as Hj by (unfold j_end; lia).
  assert (t0 < 2 ^ 32 /\ t1 < 2 ^ 32) as Htt by nia.
  replace (match zrange (r * h) i_end with [] => 0 | _ => Z.max (q * w) j_end end) with j_end
    by (rewrite zrange_cons by lia; lia).
  rewrite Z.max_r, (u32_small (i_end - r * h)), (u32_small (j_end - q * w)) by lia.
  set (row := fun i => map (fun j => u32 (u32 (i * t1) + j)) (zrange (q * w) j_end)).
  assert (forall i, i ∈ zrange (r * h) i_end -> length (row i) = Z.to_nat (j_end - q * w)) as Hrow
    by (intros; unfold row; by rewrite length_map, length_zrange).
  assert (forall i j, r * h <= i < i_end -> q * w <= j < j_end ->
    u32 (u32 (i * t1) + j) = i * t1 + j /\ 0 <= i * t1 + j < t0 * t1) as Hval.
  { intros i j Hii Hjj. pose proof (row_index i j t0 t1 ltac:(lia) ltac:(lia)).
    assert (0 <= i * t1) by (apply Z.mul_nonneg_nonneg; lia).
    rewrite (u32_small (i * t1)) by lia. rewrite u32_small by lia. done. }
  split.
  - unfold entry_ok. cbn [fst snd]. split.
    + apply Forall_forall. intros p (i & Hii & Hp)%elem_of_flat_map. apply elem_of_zrange in Hii.
      apply elem_of_map in Hp as (j & -> & Hjj%elem_of_zrange). destruct (Hval i j) as [-> Hv]; [lia..|]. done.
    + right. split_and!; [lia..|]. rewrite (length_flat_map_const row _ _ Hrow), length_zrange. nia.
  - intros p Hp. unfold entry_at. cbn [fst snd].
    pose proof (Z.mod_pos_bound p w Hw). assert (0 <= p / w < h) by (split; [apply Z.div_pos|apply Z.div_lt_upper_bound]; unfold spp in *; lia).
    replace (r * h + p / w <? t0) with (p / w <? i_end - r * h)
      by (destruct (Z.ltb_spec (p / w) (i_end - r * h)), (Z.ltb_spec (r * h + p / w) t0); unfold i_end in *; lia).
    replace (q * w + p mod w <? t1) with (p mod w <? j_end - q * w)
      by (destruct (Z.ltb_spec (p mod w) (j_end - q * w)), (Z.ltb_spec (q * w + p mod w) t1); unfold j_end in *; lia).
    destruct (Z.ltb_spec (p / w) (i_end - r * h)) as [H1|]; [|done].
    destruct (Z.ltb_spec (p mod w) (j_end - q * w)) as [H2|]; [|done]. cbn [andb].
    rewrite Z2Nat.inj_add, Z2Nat.inj_mul by (lia || apply Z.mul_nonneg_nonneg; lia).
    rewrite (lookup_flat_map_const row _ _ _ (r * h + p / w)) by (done || lia || (rewrite lookup_zrange by lia; f_equal; lia)).
    unfold row. rewrite list_lookup_fmap, lookup_zrange by lia. cbn. f_equal.
    destruct (Hval (r * h + p / w) (q * w + p mod w)) as [E _]; [lia..|]. rewrite Z2Nat.id by lia. exact E.
Qed.

Hypothesis Htw : t1 + w <= 2 ^ 32.

(** Shard number [s]. *)
Definition tile (s : Z) : plan_entry := block_pages (h, w) (t0, t1) (s / nc * h) (s mod nc * w).

Lemma block_shards_tiles n r q :
  0 <= r -> 0 <= q < nc -> (r * nc + q + Z.of_nat n) * spp < 2 ^ 32 ->
  block_shards (h, w) (t0, t1) nc n (r * h) (q * w) q = map tile (zrange (r * nc + q) (r * nc + q + Z.of_nat n)).
Proof.
  pose proof tiles_bound as [Hnc Htb].
  revert r q. induction n as [|n IH]; intros r q Hr Hq Hb; cbn [block_shards].
  { by rewrite zrange_nil by lia. }
  rewrite zrange_cons by lia. cbn [map].
  replace (block_pages _ _ _ _) with (tile (r * nc + q)).
  2: { unfold tile. by rewrite Z.div_add_l, Z.div_small, Z.add_0_r, (Z.add_comm (r * nc)), Z.mod_add, Z.mod_small by lia. }
  f_equal. cbn [fst snd].
  assert (0 <= r * nc) by (apply Z.mul_nonneg_nonneg; lia).
  assert (nc <= nc * w) as Hncw by nia.
  rewrite (u32_small (q + 1)) by (pow2; lia).
  destruct (Z.eqb_spec (q + 1) nc) as [Hend|Hne].
  - assert (r * h + h < 2 ^ 32) as Hrh.
    { apply Z.le_lt_trans with ((r * nc + q + Z.of_nat (S n)) * spp); [|done]. unfold spp. nia. }
    assert (0 <= r * h) by (apply Z.mul_nonneg_nonneg; lia).
    rewrite u32_small by lia.
    replace (r * h + h) with ((r + 1) * h) by lia. specialize (IH (r + 1) 0 ltac:(lia) ltac:(lia)).
    replace (0 * w) with 0 in IH by lia. rewrite IH by (replace ((r + 1) * nc + 0 + Z.of_nat n) with (r * nc + q + Z.of_nat (S n)) by lia; done).
    f_equal; f_equal; lia.
  - assert (0 <= q * w /\ q * w + w <= nc * w) by nia.
    rewrite u32_small by (pow2; lia).
    replace (q * w + w) with ((q + 1) * w) by lia. rewrite IH by (lia || (replace (r * nc + (q + 1) + Z.of_nat n) with (r * nc + q + Z.of_nat (S n)) by lia; done)).
    f_equal; f_equal; lia.
Qed.

(** The row and the column of the tensor that lie at a page of the device. *)
Definition dev_row (d : Z) : Z := d / spp / nc * h + d mod spp / w.
Definition dev_col (d : Z) : Z := (d / spp) mod nc * w + d mod spp mod w.

Lemma tiles_host_at n d :
  Z.of_nat n * spp < 2 ^ 32 -> 0 <= d < Z.of_nat n * spp ->
  Forall (entry_ok h w (t0 * t1)) (map tile (zrange 0 (Z.of_nat n))) /\
  host_at h w (map tile (zrange 0 (Z.of_nat n))) d =
    if (dev_row d <? t0) && (dev_col d <? t1) then Some (dev_row d * t1 + dev_col d) else None.
Proof.
  pose proof tiles_bound as [Hnc Htb]. assert (0 < spp) as Hspp by (unfold spp; nia). intros Hb Hd.
  assert (forall s, 0 <= s < Z.of_nat n -> entry_ok h w (t0 * t1) (tile s) /\
    forall p, 0 <= p < spp -> entry_at w (tile s) p =
    if (s / nc * h + p / w <? t0) && (s mod nc * w + p mod w <? t1)
    then Some ((s / nc * h + p / w) * t1 + (s mod nc * w + p mod w)) else None) as Htile.
  { intros s Hs. pose proof (Z.mod_pos_bound s nc Hnc). assert (0 <= s / nc <= s) by (split; [apply Z.div_pos|apply Z.div_le_upper_bound]; nia).
    apply block_pages_ok; [lia..| |].
    - apply Z.le_lt_trans with (Z.of_nat n * spp); [|done]. unfold spp. nia.
    - apply Z.le_lt_trans with (nc * w); [apply Z.mul_le_mono_nonneg_r; lia|]. pow2. lia. }
  split.
  - apply Forall_map, Forall_forall. intros s Hs%elem_of_zrange. apply Htile. lia.
  - unfold host_at. fold spp. assert (0 <= d / spp < Z.of_nat n) by (split; [apply Z.div_pos|apply Z.div_lt_upper_bound]; lia).
    rewrite list_lookup_fmap, lookup_zrange by lia. cbn. rewrite Z2Nat.id by lia.
    apply Htile; [lia|]. apply Z.mod_pos_bound. lia.
Qed.

(** The page of the device a host page is placed at. *)
Definition tile_page (p : Z) : Z :=
  let row := p / t1 in let col := p mod t1 in (row / h * nc + col / w) * spp + (row mod h * w + col mod w).

Lemma dev_row_col r q x y :
  0 <= r -> 0 <= q < nc -> 0 <= x < h -> 0 <= y < w ->
  let d := (r * nc + q) * spp + (x * w + y) in dev_row d = r * h + x /\ dev_col d = q * w + y.
Proof.
  intros Hr Hq Hx Hy d. pose proof tiles_bound as [Hnc Htb].
  assert (0 <= r * nc) by (apply Z.mul_nonneg_nonneg; lia).
  destruct (place_of h w (r * nc + q) x y) as (E1 & E2 & E3 & E4); [lia..|].
  rewrite <- Z.add_assoc in E1, E2. fold spp in E1, E2. fold d in E1, E2. unfold dev_row, dev_col. rewrite E1, E2, E3, E4.
  by rewrite Z.div_add_l, Z.div_small, Z.add_0_r, (Z.add_comm (r * nc)), Z.mod_add, Z.mod_small by lia.
Qed.

Lemma tile_page_spec d p :
  0 <= d -> 0 <= p < t0 * t1 ->
  (((dev_row d <? t0) && (dev_col d <? t1) = true /\ dev_row d * t1 + dev_col d = p) <-> d = tile_page p).
Proof.
  intros Hd Hp. pose proof tiles_bound as [Hnc Htb]. assert (0 < spp) as Hspp by (unfold spp; nia).
  pose proof (Z.mod_pos_bound p t1 Ht1) as Hc. pose proof (Z.div_mod p t1 ltac:(lia)) as Hpd.
  assert (0 <= p / t1 < t0) as Hrow by (split; [apply Z.div_pos|apply Z.div_lt_upper_bound]; lia).
  assert (0 <= p mod t1 / w < nc) as Hcw by (split; [apply Z.div_pos|apply Z.div_lt_upper_bound]; lia).
  assert (0 <= p / t1 / h) by (apply Z.div_pos; lia).
  pose proof (Z.mod_pos_bound (p / t1) h Hh). pose proof (Z.mod_pos_bound (p mod t1) w Hw).
  destruct (dev_row_col (p / t1 / h) (p mod t1 / w) (p / t1 mod h) (p mod t1 mod w)) as [Er Ec]; [done..|].
  fold (tile_page p) in Er, Ec. split.
  - intros [Hin Hv]. apply andb_true_iff in Hin as [Hir%Z.ltb_lt Hic%Z.ltb_lt].
    set (s := d / spp) in *. set (m := d mod spp) in *.
    assert (0 <= s) by (apply Z.div_pos; lia). pose proof (Z.mod_pos_bound d spp Hspp) as Hm. fold m in Hm.
    assert (0 <= m / w < h) by (split; [apply Z.div_pos|apply Z.div_lt_upper_bound]; unfold spp in *; lia).
    pose proof (Z.mod_pos_bound m w Hw). pose proof (Z.mod_pos_bound s nc Hnc).
    assert (0 <= s / nc) by (apply Z.div_pos; lia).
    assert (0 <= dev_col d) by (unfold dev_col; fold s m; apply Z.add_nonneg_nonneg; [apply Z.mul_nonneg_nonneg; lia|lia]).
    assert (p / t1 = dev_row d /\ p mod t1 = dev_col d) as [Hq1 Hq2].
    { rewrite <- Hv. split; [rewrite Z.div_add_l, Z.div_small by lia; lia|].
      by rewrite Z.add_comm, Z.mod_add, Z.mod_small by lia. }
    unfold tile_page. rewrite Hq1, Hq2. unfold dev_row, dev_col. fold s m.
    rewrite !Z.div_add_l, (Z.div_small (m / w)), (Z.div_small (m mod w)) by lia.
    rewrite (Z.add_comm (s / nc * h)), (Z.add_comm (s mod nc * w)), !Z.mod_add, (Z.mod_small (m / w)), (Z.mod_small (m mod w)) by lia.
    pose proof (Z.div_mod d spp ltac:(lia)) as Hds. fold s m in Hds. pose proof (Z.div_mod s nc ltac:(lia)). pose proof (Z.div_mod m w ltac:(lia)).
    lia.
  - intros ->. rewrite Er, Ec. pose proof (Z.div_mod (p / t1) h ltac:(lia)). pose proof (Z.div_mod (p mod t1) w ltac:(lia)).
    replace (p / t1 / h * h + p / t1 mod h) with (p / t1) by lia. replace (p mod t1 / w * w + p mod t1 mod w) with (p mod t1) by lia.
    rewrite (proj2 (Z.ltb_lt _ _)), (proj2 (Z.ltb_lt (p mod t1) t1)) by lia. split; [done|lia].
Qed.
(** The tiled plan sends each host page to its tile, and nothing else there. *)
Lemma tile_page_range n p :
  (t0 + h - 1) / h * nc <= n -> 0 <= p < t0 * t1 -> 0 <= tile_page p < n * spp.
Proof.
  intros Hc Hp. pose proof tiles_bound as [Hnc Htb]. unfold tile_page, spp.
  assert (0 <= p / t1 < t0) as Hr by (split; [apply Z.div_pos|apply Z.div_lt_upper_bound]; lia).
  pose proof (Z.mod_pos_bound p t1 Ht1). pose proof (Z.mod_pos_bound (p / t1) h Hh). pose proof (Z.mod_pos_bound (p mod t1) w Hw).
  assert (0 <= p / t1 / h < (t0 + h - 1) / h).
  { split; [apply Z.div_pos; lia|]. apply Z.div_lt_upper_bound; [lia|].
    pose proof (Z.div_mod (t0 + h - 1) h ltac:(lia)). pose proof (Z.mod_pos_bound (t0 + h - 1) h Hh). lia. }
  assert (0 <= p mod t1 / w < nc) by (split; [apply Z.div_pos; lia|apply Z.div_lt_upper_bound; lia]).
  pose proof (row_index (p / t1 / h) (p mod t1 / w) ((t0 + h - 1) / h) nc ltac:(lia) ltac:(lia)).
  apply row_index; [lia|]. apply row_index; lia.
Qed.

Lemma tiles_plan_ok n :
  0 <= n -> n * spp < 2 ^ 32 -> (t0 + h - 1) / h * nc <= n ->
  let plan := map tile (zrange 0 n) in
  Forall (entry_ok h w (t0 * t1)) plan /\
  forall d p, 0 <= d < n * spp -> (host_at h w plan d = Some p <-> 0 <= p < t0 * t1 /\ d = tile_page p).
Proof.
  intros Hn Hb Hc. pose proof tiles_bound as [Hnc Htb]. assert (0 < spp) as Hspp by (unfold spp; nia). cbv zeta.
  assert (forall d, 0 <= d < n * spp -> Forall (entry_ok h w (t0 * t1)) (map tile (zrange 0 n)) /\
    host_at h w (map tile (zrange 0 n)) d =
    if (dev_row d <? t0) && (dev_col d <? t1) then Some (dev_row d * t1 + dev_col d) else None) as Hat.
  { intros d Hd. rewrite <- (Z2Nat.id n) by lia. apply tiles_host_at; rewrite Z2Nat.id by lia; lia. }
  split.
  { apply (Hat 0). split; [lia|]. pose proof (tile_page_range n 0 Hc ltac:(nia)). lia. }
  intros d p Hd. destruct (Hat d Hd) as [_ ->]. split.
  - destruct (_ && _) eqn:E; [|done]. intros [= Hv]. assert (0 <= p < t0 * t1) as Hp.
    { apply andb_true_iff in E as [E1%Z.ltb_lt E2%Z.ltb_lt]. rewrite <- Hv. unfold dev_row, dev_col in *.
      assert (0 <= d / spp) by (apply Z.div_pos; lia).
      assert (0 <= d / spp / nc) by (apply Z.div_pos; lia).
      pose proof (Z.mod_pos_bound (d / spp) nc Hnc). pose proof (Z.mod_pos_bound d spp Hspp). pose proof (Z.mod_pos_bound (d mod spp) w Hw).
      assert (0 <= d mod spp / w) by (apply Z.div_pos; lia).
      apply row_index; (split; [|done]); apply Z.add_nonneg_nonneg; try lia; apply Z.mul_nonneg_nonneg; lia. }
    split; [done|]. by apply (proj1 (tile_page_spec d p ltac:(lia) Hp)).
  - intros [Hp Hd']. apply tile_page_spec in Hd' as [-> ->]; [done|lia..].
Qed.
End Plans.

(** ** The mapping of a buffer *)

(** The sizes of a sharded buffer fit together: its tensor has as many pages as the
    buffer, its shards hold them, and the numbers stay below [2 ^ 32].  A height-sharded
    tensor is cut between rows of a shard. *)
Definition sharding_fits (b : Buffer) (s : ShardSpecBuffer) : Prop :=
  let h := (shape_in_pages s).1 in let w := (shape_in_pages s).2 in
  let t0 := (tensor2d_shape s).1 in let t1 := (tensor2d_shape s).2 in
  let n := total_area (grid (tensor_shard_spec s)) in
  is_sharded (buffer_layout_ b) = true /\ shard_parameters_ b = Some s /\
  size_ b <> 0 /\ set_wf (grid (tensor_shard_spec s)) /\
  0 < h /\ 0 < w /\ 0 < t0 /\ 0 < t1 /\ t0 * t1 = num_pages b /\ n * (h * w) < 2 ^ 32 /\ t1 + w <= 2 ^ 32 /\
  match buffer_layout_ b with
  | HEIGHT_SHARDED => num_pages b <= n * (h * w) /\ num_pages b mod w = 0
  | _ => (t0 + h - 1) / h * ((t1 + w - 1) / w) <= n
  end.

(** Where the layout puts a host page. *)
Definition page_of (b : Buffer) (s : ShardSpecBuffer) (p : Z) : Z :=
  match buffer_layout_ b with
  | HEIGHT_SHARDED => p
  | _ => tile_page (shape_in_pages s).1 (shape_in_pages s).2 (tensor2d_shape s).2 p
  end.

(** The pages of the device, and the tables a mapping must have. *)
Definition dev_pages (s : ShardSpecBuffer) : Z :=
  total_area (grid (tensor_shard_spec s)) * ((shape_in_pages s).1 * (shape_in_pages s).2).

Record maps_pages (b : Buffer) (s : ShardSpecBuffer) (m : BufferPageMapping) : Prop := mkMaps {
  maps_cores : all_cores_ m = enumerate_set (grid (tensor_shard_spec s)) (bool_decide (orientation (tensor_shard_spec s) = ROW_MAJOR));
  maps_dev_len : Z.of_nat (length (dev_page_to_host_page_mapping_ m)) = dev_pages s /\
    Z.of_nat (length (dev_page_to_core_mapping_ m)) = dev_pages s;
  maps_to_dev : forall p, 0 <= p < num_pages b ->
    0 <= page_of b s p < dev_pages s /\ host_page_to_dev_page_mapping_ m !! Z.to_nat p = Some (page_of b s p) /\
    host_page_to_local_shard_page_mapping_ m !! Z.to_nat p = Some (page_of b s p mod shard_size s);
  maps_to_host : forall d p, 0 <= d < dev_pages s ->
    dev_page_to_host_page_mapping_ m !! Z.to_nat d = Some (Some p) <-> 0 <= p < num_pages b /\ d = page_of b s p;
  maps_to_core : forall d, 0 <= d < dev_pages s -> dev_page_to_core_mapping_ m !! Z.to_nat d = Some (d / shard_size s);
}.

Lemma num_pages_range b : 0 <= num_pages b < 2 ^ 32.
Proof. unfold num_pages. destruct (page_size_ b =? 0); [by pow2|]. apply u32_range. Qed.

(** The plan of either layout sends each host page to [page_of] and nothing else there. *)
Lemma plan_ok b s :
  sharding_fits b s ->
  let h := (shape_in_pages s).1 in let w := (shape_in_pages s).2 in
  exists plan, core_to_host_pages (h * w) (Z.to_nat (total_area (grid (tensor_shard_spec s)))) (buffer_layout_ b)
      (page_shape s) (shape (tensor_shard_spec s)) (tensor2d_shape s) = Ok plan /\
    Z.of_nat (length plan) = total_area (grid (tensor_shard_spec s)) /\ Forall (entry_ok h w (num_pages b)) plan /\
    (forall p, 0 <= p < num_pages b -> 0 <= page_of b s p < dev_pages s) /\
    forall d p, 0 <= d < dev_pages s -> (host_at h w plan d = Some p <-> 0 <= p < num_pages b /\ d = page_of b s p).
Proof.
  intros (Hsh & _ & _ & [Hwf _] & Hh & Hw & Ht0 & Ht1 & Hnp & Hn & Htw & Hcap). cbv zeta.
  unfold dev_pages, core_to_host_pages, page_of.
  change (in_pages (shape (tensor_shard_spec s)).1 (page_shape s).1) with (shape_in_pages s).1.
  change (in_pages (shape (tensor_shard_spec s)).2 (page_shape s).2) with (shape_in_pages s).2.
  set (h := (shape_in_pages s).1) in *. set (w := (shape_in_pages s).2) in *.
  set (n := total_area (grid (tensor_shard_spec s))) in *.
  pose proof (total_area_nonneg _ Hwf) as Hn0. fold n in Hn0. pose proof (num_pages_range b) as [_ Hnpb].
  destruct (tensor2d_shape s) as [t0 t1] eqn:Et. cbn [fst snd] in *.
  pose proof (tiles_bound h w Hw t1 Ht1) as [Hnc Htb].
  pose proof (tiles_plan_ok h w Hh Hw t0 t1 Ht0 Ht1 ltac:(lia) Htw n Hn0 Hn) as Htiles.
  pose proof (tile_page_range h w Hh Hw t0 t1 Ht1 n) as Hrange.
  pose proof (block_shards_tiles h w Hh Hw t0 t1 Ht1 ltac:(lia) Htw (Z.to_nat n) 0 0) as Hbs.
  rewrite Z2Nat.id in Hbs by lia. rewrite !Z.mul_0_l, !Z.add_0_l in Hbs.
  rewrite (proj2 (Z.eqb_neq w 0)) by lia. unfold div_up. rewrite (proj2 (Z.ltb_lt 0 w)) by lia.
  cbn [check mbind res_bind mret res_ret]. rewrite (u32_small (t1 + w - 1)) by (pow2; lia).
  assert (0 <= (t1 + w - 1) / w < 2 ^ 32) by (split; [lia|apply Z.div_lt_upper_bound; pow2; nia]).
  rewrite (u32_small ((t1 + w - 1) / w)) by lia.
  destruct (buffer_layout_ b) eqn:El; [done|done| | |].
  2, 3: rewrite Hbs by lia; eexists; split; [reflexivity|]; rewrite length_map, length_zrange, <- Hnp;
    split_and!; [lia|by apply Htiles| |by apply Htiles]; intros; apply Hrange; lia.
  destruct Hcap as [Hc Hm]. rewrite Hnp, u32_small by lia.
  destruct (height_shards_ok h w Hh Hw (Z.to_nat n) (num_pages b) 0) as (plan & -> & Hl & Hf & Hat); [lia..|].
  exists plan. split_and!; [done|lia|done|lia|]. intros d p Hd. rewrite Hat by lia. rewrite Z.add_0_l.
  destruct (Z.ltb_spec d (num_pages b)); split; naive_solver lia.
Qed.

Lemma sharding_sizes b s :
  sharding_fits b s ->
  let n := total_area (grid (tensor_shard_spec s)) in
  shard_spec b = Ok s /\ num_cores b = Ok (Some n) /\ num_dev_pages b = Ok (dev_pages s) /\
  0 < n < 2 ^ 32 /\ 0 < shard_size s < 2 ^ 32 /\ shard_size s = (shape_in_pages s).1 * (shape_in_pages s).2 /\
  dev_pages s = n * shard_size s /\ 0 < num_pages b.
Proof.
  intros Hf. pose proof (plan_ok b s Hf) as (plan & _ & Hl & _ & Hr & _).
  destruct Hf as (Hsh & Hs & _ & [Hwf _] & Hh & Hw & Ht0 & Ht1 & Hnp & Hn & _). cbv zeta.
  set (n := total_area (grid (tensor_shard_spec s))) in *.
  set (h := (shape_in_pages s).1) in *. set (w := (shape_in_pages s).2) in *.
  assert (0 < num_pages b) as Hp by nia. assert (0 < h * w) as Hhw by nia.
  assert (0 < n) as Hn0. { specialize (Hr 0 ltac:(lia)). unfold dev_pages in Hr. fold n h w in Hr. nia. }
  assert (h * w <= n * (h * w)) by nia. assert (n <= n * (h * w)) by nia.
  assert (shard_spec b = Ok s) as Hss by (unfold shard_spec; by rewrite Hsh, Hs).
  assert (num_cores b = Ok (Some n)) as Hnc.
  { unfold num_cores. rewrite Hsh, Hss. cbn. unfold ShardSpec_num_cores. rewrite num_cores_area by (done || (fold n; lia)). done. }
  assert (shard_size s = h * w) as Hsz by (unfold shard_size; fold h w; apply u32_small; lia).
  assert (dev_pages s = n * shard_size s) as Hdp by (unfold dev_pages; fold n h w; by rewrite Hsz).
  split_and!; try done; try lia.
  unfold num_dev_pages. rewrite Hsh, Hss, Hnc. cbn. rewrite Hdp, Hsz, (Z.mul_comm (h * w)).
  rewrite u64_small by (pow2; lia). rewrite u32_small by lia. done.
Qed.

Lemma enumerate_cores s :
  set_wf s -> forall rm, NoDup (enumerate_set s rm) /\ Z.of_nat (length (enumerate_set s rm)) = total_area s /\
  corerange_to_cores s (Some (total_area s)) rm = enumerate_set s rm.
Proof.
  intros Hs rm. pose proof (enumerate_set_perm s rm (proj1 Hs)) as Hp.
  assert (Z.of_nat (length (enumerate_set s rm)) = total_area s) as Hl by (rewrite Hp; apply length_set_cells, Hs).
  split_and!; [rewrite Hp; by apply NoDup_set_cells|done|].
  rewrite corerange_to_cores_spec by (intros ? [= <-]; apply total_area_nonneg, Hs). by rewrite take_ge by lia.
Qed.

Lemma generate_ok b s :
  sharding_fits b s ->
  exists m, generate_buffer_page_mapping b = Ok m /\ maps_pages b s m.
Proof.
  intros Hf. destruct (sharding_sizes b s Hf) as (Hss & Hnc & Hnd & Hn & Hsz & Hszw & Hdp & Hnp). cbv zeta in *.
  destruct (plan_ok b s Hf) as (plan & Hplan & Hlen & Hok & Hrange & Hat).
  destruct Hf as (_ & _ & Hsize & Hset & Hh & Hw & _ & _ & _ & Hb & _).
  set (n := total_area (grid (tensor_shard_spec s))) in *.
  destruct (enumerate_cores _ Hset (bool_decide (orientation (tensor_shard_spec s) = ROW_MAJOR))) as (_ & Hcl & Hc). fold n in Hcl, Hc.
  unfold generate_buffer_page_mapping. rewrite (proj2 (Z.eqb_neq (size_ b) 0)) by done.
  rewrite Hss, Hnc, Hnd. cbn [mbind res_bind opt_res]. rewrite Hc, Hcl, Z.eqb_refl. cbn [check mbind res_bind].
  rewrite (u32_small (shard_size s)), Hszw, Hplan by lia. cbn [mbind res_bind].
  set (l0 := mkLoop _ _ _ _ _ _ _ _).
  assert (HN : Z.of_nat (length plan) * ((shape_in_pages s).1 * (shape_in_pages s).2) = dev_pages s) by (rewrite Hlen, Hdp; lia).
  assert (Hl0 : placed (shape_in_pages s).1 (shape_in_pages s).2 (num_pages b) plan 0 l0).
  { unfold l0. constructor; cbn [dev_to_core dev_to_host host_to_local host_to_dev dev_page_index];
      rewrite ?HN, ?length_replicate; try lia.
    - intros d Hd. rewrite (proj2 (Z.ltb_ge d 0)), lookup_replicate_2 by lia. done.
    - intros d Hd. rewrite (proj2 (Z.ltb_ge d 0)), lookup_replicate_2 by lia. done. }
  destruct (fill_ok _ _ (num_pages b) plan Hh Hw ltac:(rewrite HN; exact Hb) Hok) with (l := l0) as (l' & E & Hl').
  - rewrite HN. intros d d' p Hd Hd' Hp Hp'. apply Hat in Hp as [_ ->], Hp' as [_ ->]; done.
  - done.
  - destruct (shape_in_pages s) as [h w] eqn:Esh. cbn [fst snd] in *. rewrite E. cbn [mbind res_bind mret res_ret].
    eexists. split; [reflexivity|]. rewrite HN in Hl'. destruct Hl' as [_ L1 L2 L3 L4 C1 C2 C3]. rewrite HN in *.
    constructor; cbn; [done|done| | |].
    + intros p Hp. specialize (Hrange p Hp). split; [done|]. rewrite Hszw. apply C3; [lia|]. by apply Hat.
    + intros d p Hd. rewrite C2, (proj2 (Z.ltb_lt d (dev_pages s))) by lia. rewrite <- (Hat d p Hd). split; [by intros [= ->]|by intros ->].
    + intros d Hd. rewrite C1, (proj2 (Z.ltb_lt d (dev_pages s))) by lia. by rewrite Hszw.
Qed.
