(* ===== verification/BufferIO.v ===== *)
(** * Reading and writing buffers without the command queues
    (tt_metal/tt_metal.cpp, tt_metal/detail/tt_metal.hpp)

    [WriteToBuffer] and [ReadFromBuffer] move a buffer page by page between a host
    array and the memories of the chip.  The memory behind a NoC coordinate is a
    function from addresses to bytes; the driver's transfers ([write_to_device],
    [read_from_device]) store and fetch bytes there.  A host array is a list: an access
    past its end is undefined behaviour. *)

From S2P Require Import Prelude Memory CoreCoord FreeList WorkSplit Allocator Buffers.

Abbreviation Chip := (CoreCoord -> Z -> Z).

Definition chip_write (core : CoreCoord) (addr : Z) (bytes : list Z) (c : Chip) : Chip :=
  fun k => if bool_decide (k = core) then write_mem addr bytes (c k) else c k.
Definition chip_read (c : Chip) (core : CoreCoord) (addr n : Z) : list Z := read_mem (c core) addr n.

(** A copy out of a host array, and one into it. *)
Definition host_slice (host : list Z) (start len : Z) : res (list Z) :=
  check Undefined ((0 <=? start) && (start + len <=? Z.of_nat (length host)));;
  mret (take (Z.to_nat len) (drop (Z.to_nat start) host)).
Definition host_store (start : Z) (bytes host : list Z) : res (list Z) :=
  check Undefined ((0 <=? start) && (start + Z.of_nat (length bytes) <=? Z.of_nat (length host)));;
  mret (take (Z.to_nat start) host ++ bytes ++ drop (Z.to_nat start + length bytes) host).

(** The buffer, whose page mapping is computed when it is first asked for, the chip,
    and the host array read into. *)
Record Storage := mkStorage { buffer : Buffer; chip : Chip; host_array : list Z }.

Definition on_buffer {A} (m : M Buffer A) : M Storage A :=
  zoom buffer (fun b s => mkStorage b (chip s) (host_array s)) m.
Definition to_chip (core : CoreCoord) (addr : Z) (bytes : list Z) : M Storage unit :=
  modify (fun s => mkStorage (buffer s) (chip_write core addr bytes (chip s)) (host_array s)).
Definition to_host (start : Z) (bytes : list Z) : M Storage unit :=
  s ← get; h ← lift (host_store start bytes (host_array s)); put (mkStorage (buffer s) (chip s) h).

Section Device.
(** The device's own allocator, the allocator of the buffer (that of a sub-device may
    be another one), and the soc descriptor. *)
Context (dev a : Allocator).
Context (dram_core_from_dram_channel : Z -> CoreCoord) (worker_core_from_logical_core : CoreCoord -> CoreCoord).

Abbreviation noc := (noc_coordinates a dram_core_from_dram_channel worker_core_from_logical_core).

(** The bank of a page of a sharded buffer: the first one of its core. *)
Definition shard_bank (b : Buffer) (m : BufferPageMapping) (dev_page_id : Z) : res Z :=
  core_index ← at_ (dev_page_to_core_mapping_ m) dev_page_id;
  core ← at_ (all_cores_ m) core_index;
  banks ← bank_ids_from_logical_core dev (buffer_type_ b) core;
  at_ banks 0.

Definition write_sharded_page (host_buffer : list Z) (page_size : Z) (m : BufferPageMapping) (host_page_id : Z)
    : M Storage unit :=
  s ← get;
  dev_page_id ← lift (at_ (host_page_to_dev_page_mapping_ m) host_page_id);
  bank_id ← lift (shard_bank (buffer s) m dev_page_id);
  absolute_address ← lift (sharded_page_address a (buffer s) bank_id dev_page_id);
  let data_index := u32 (host_page_id * page_size) in
  page ← lift (host_slice host_buffer data_index page_size);
  core ← lift (noc (buffer s) bank_id);
  to_chip core absolute_address page.

Definition WriteToDeviceSharded (host_buffer : list Z) : M Storage unit :=
  s ← get;
  require Fatal (Z.of_nat (length host_buffer) <=? size_ (buffer s));;
  let page_size := u32 (page_size_ (buffer s)) in
  require Assert (if page_size =? 0 then size_ (buffer s) =? 0 else size_ (buffer s) mod page_size =? 0);;
  m ← on_buffer get_buffer_page_mapping;
  mapM_ (write_sharded_page host_buffer page_size m) (zrange 0 (num_pages (buffer s))).

(** The loop over the pages of an interleaved buffer, with its two running indices. *)
Fixpoint write_interleaved (host_buffer : list Z) (page_size num_banks : Z) (pages : list Z) (bank_index data_index : Z)
    : M Storage unit :=
  match pages with
  | [] => mret tt
  | page_index :: pages =>
      s ← get;
      absolute_address ← lift (page_address a (buffer s) bank_index page_index);
      page ← lift (host_slice host_buffer data_index page_size);
      match buffer_type_ (buffer s) with
      | DRAM | L1 | L1_SMALL =>
          core ← lift (noc (buffer s) bank_index); to_chip core absolute_address page
      | _ => fail Throw
      end;;
      require Undefined (negb (num_banks =? 0));;
      write_interleaved host_buffer page_size num_banks pages (u32 (bank_index + 1) mod num_banks)
        (i32 (u32 (data_index + page_size)))
  end.

Definition WriteToDeviceInterleavedContiguous (host_buffer : list Z) : M Storage unit :=
  s ← get;
  require Fatal (u32 (Z.of_nat (length host_buffer)) <=? size_ (buffer s));;
  let page_size := u32 (page_size_ (buffer s)) in
  num_banks ← lift (num_banks dev (buffer_type_ (buffer s)));
  write_interleaved host_buffer page_size num_banks (zrange 0 (num_pages (buffer s))) 0 0.

Definition WriteToDevice (host_buffer : list Z) : M Storage unit :=
  s ← get;
  match buffer_layout_ (buffer s) with
  | INTERLEAVED | SINGLE_BANK => WriteToDeviceInterleavedContiguous host_buffer
  | _ => WriteToDeviceSharded host_buffer
  end.

Definition WriteToBuffer (host_buffer : list Z) : M Storage unit :=
  s ← get;
  match buffer_type_ (buffer s) with
  | DRAM | L1 | L1_SMALL => WriteToDevice host_buffer
  | _ => fail Throw
  end.

(** The loop over the pages of an interleaved buffer; [host_idx] is a [size_t]. *)
Fixpoint read_interleaved (page_size num_banks : Z) (pages : list Z) (bank_index host_idx : Z) : M Storage unit :=
  match pages with
  | [] => mret tt
  | page_index :: pages =>
      s ← get;
      absolute_address ← lift (page_address a (buffer s) bank_index page_index);
      page ← match buffer_type_ (buffer s) with
             | SYSTEM_MEMORY => fail Throw
             | _ => core ← lift (noc (buffer s) bank_index); mret (chip_read (chip s) core absolute_address page_size)
             end;
      to_host host_idx page;;
      require Undefined (negb (num_banks =? 0));;
      read_interleaved page_size num_banks pages (u32 (bank_index + 1) mod num_banks)
        (u64 (host_idx + Z.of_nat (length page)))
  end.

Definition ReadFromDeviceInterleavedContiguous : M Storage unit :=
  s ← get;
  let page_size := u32 (page_size_ (buffer s)) in
  num_banks ← lift (num_banks dev (buffer_type_ (buffer s)));
  read_interleaved page_size num_banks (zrange 0 (num_pages (buffer s))) 0 0.

Definition read_pages_to_host_helper (page_size host_page_id dev_page_id bank_id : Z) : M Storage unit :=
  s ← get;
  absolute_address ← lift (sharded_page_address a (buffer s) bank_id dev_page_id);
  core ← lift (noc (buffer s) bank_id);
  let host_buffer_start := u32 (host_page_id * page_size) in
  to_host host_buffer_start (chip_read (chip s) core absolute_address page_size).

Definition read_sharded_page (shard_order : bool) (page_size : Z) (m : BufferPageMapping) (dev_page_id : Z)
    : M Storage unit :=
  s ← get;
  bank_id ← lift (shard_bank (buffer s) m dev_page_id);
  host_page_id ← lift (at_ (dev_page_to_host_page_mapping_ m) dev_page_id);
  match host_page_id with
  | Some h => read_pages_to_host_helper page_size (if shard_order then dev_page_id else h) dev_page_id bank_id
  | None => mret tt
  end.

Definition ReadFromDeviceSharded (shard_order : bool) : M Storage unit :=
  s ← get;
  total_pages ← lift (num_dev_pages (buffer s));
  let page_size := u32 (page_size_ (buffer s)) in
  m ← on_buffer get_buffer_page_mapping;
  mapM_ (read_sharded_page shard_order page_size m) (zrange 0 total_pages).

Definition ReadFromDevice (shard_order : bool) : M Storage unit :=
  s ← get;
  match buffer_layout_ (buffer s) with
  | INTERLEAVED | SINGLE_BANK => ReadFromDeviceInterleavedContiguous
  | _ => ReadFromDeviceSharded shard_order
  end.

Definition ReadFromBuffer (shard_order : bool) : M Storage unit :=
  s ← get;
  match buffer_type_ (buffer s) with
  | SYSTEM_MEMORY => fail Throw
  | _ => ReadFromDevice shard_order
  end.

(** The overload that takes a [std::vector] of elements of [width] bytes. *)
Definition ReadFromBuffer_vector (width : Z) (shard_order : bool) : M Storage unit :=
  s ← get;
  require Fatal (size_ (buffer s) mod width =? 0);;
  let bytes := size_ (buffer s) / width * width in
  put (mkStorage (buffer s) (chip s) (resize (Z.to_nat bytes) 0 (host_array s)));;
  ReadFromBuffer shard_order.

(** [ReadShard]: the pages of one core, one after the other. *)
Definition ReadShard (core_id : Z) : M Storage unit :=
  s ← get;
  require Assert (is_sharded (buffer_layout_ (buffer s)));;
  m ← on_buffer get_buffer_page_mapping;
  let pages := zrange 0 (Z.of_nat (length (dev_page_to_core_mapping_ m))) in
  let page_ids := filter (fun i => dev_page_to_core_mapping_ m !! Z.to_nat i = Some core_id) pages in
  mapM_ (fun '(host_page_id, dev_page_id) =>
           s ← get;
           bank_id ← lift (shard_bank (buffer s) m dev_page_id);
           read_pages_to_host_helper (u32 (page_size_ (buffer s))) host_page_id dev_page_id bank_id)
    (zip (zrange 0 (Z.of_nat (length page_ids))) page_ids).
End Device.
