(* ===== verification/BufferIOProps.v ===== *)
(** * Reading and writing buffers: what is stored is what is read back

    Pages of a host array, places of pages on the chip, the loops of [WriteToBuffer] and
    [ReadFromBuffer], and the claims on buffers. *)

From Stdlib Require Import Lia.
From S2P Require Import Prelude Memory CoreCoord FreeList WorkSplit Allocator Buffers BufferPages BufferIO.

(** ** The pages of a host array *)

Definition page_at (ps : Z) (l : list Z) (p : Z) : list Z := take (Z.to_nat ps) (drop (Z.to_nat (p * ps)) l).

Lemma page_end p n ps : 0 <= p < n -> 0 <= ps -> 0 <= p * ps /\ p * ps + ps <= n * ps.
Proof.
  intros Hp Hps. split; [apply Z.mul_nonneg_nonneg; lia|].
  assert ((p + 1) * ps <= n * ps) by (apply Z.mul_le_mono_nonneg_r; lia). lia.
Qed.

Lemma length_page_at ps l p n : 0 <= p < n -> 0 <= ps -> n * ps <= Z.of_nat (length l) -> length (page_at ps l p) = Z.to_nat ps.
Proof.
  intros Hp Hps Hl. pose proof (page_end p n ps Hp Hps). unfold page_at. rewrite length_take, length_drop. lia.
Qed.

Lemma host_slice_page ps l p n :
  0 <= p < n -> 0 <= ps -> n * ps <= Z.of_nat (length l) -> host_slice l (p * ps) ps = Ok (page_at ps l p).
Proof.
  intros Hp Hps Hl. pose proof (page_end p n ps Hp Hps). unfold host_slice.
  rewrite (proj2 (Z.leb_le 0 (p * ps))), (proj2 (Z.leb_le _ _)) by lia. done.
Qed.

Lemma host_store_page ps l p n bytes :
  0 <= p < n -> 0 <= ps -> n * ps = Z.of_nat (length l) -> Z.of_nat (length bytes) = ps ->
  exists l', host_store (p * ps) bytes l = Ok l' /\ length l' = length l /\ page_at ps l' p = bytes /\
    forall q, 0 <= q < n -> q <> p -> page_at ps l' q = page_at ps l q.
Proof.
  intros Hp Hps Hl Hb. pose proof (page_end p n ps Hp Hps). unfold host_store.
  rewrite (proj2 (Z.leb_le 0 (p * ps))), (proj2 (Z.leb_le _ _)) by lia. cbn [andb check mbind res_bind mret res_ret].
  eexists. split; [reflexivity|].
  set (l' := take _ l ++ bytes ++ _).
  assert (forall i, l' !! i = if decide (Z.to_nat (p * ps) <= i < Z.to_nat (p * ps) + length bytes)%nat
    then bytes !! (i - Z.to_nat (p * ps))%nat else l !! i) as Hl'.
  { intros i. unfold l'. assert (length (take (Z.to_nat (p * ps)) l) = Z.to_nat (p * ps)) as Ht by (rewrite length_take; lia).
    destruct (decide (i < Z.to_nat (p * ps))%nat).
    - rewrite lookup_app_l by lia. rewrite lookup_take_lt by lia. by rewrite decide_False by lia.
    - rewrite lookup_app_r by lia. rewrite Ht. destruct (decide (i < Z.to_nat (p * ps) + length bytes)%nat).
      + rewrite lookup_app_l by lia. by rewrite decide_True by lia.
      + rewrite lookup_app_r by lia. rewrite lookup_drop, decide_False by lia. f_equal. lia. }
  split; [|split].
  - unfold l'. rewrite !length_app, length_take, length_drop. lia.
  - apply list_eq. intros i. unfold page_at. destruct (decide (i < length bytes)%nat).
    + rewrite lookup_take_lt by lia. rewrite lookup_drop, Hl', decide_True by lia. f_equal. lia.
    + rewrite lookup_take_ge, lookup_ge_None_2 by lia. done.
  - intros q Hq Hne. pose proof (page_end q n ps Hq Hps).
    assert (q * ps + ps <= p * ps \/ p * ps + ps <= q * ps) as Hd.
    { destruct (Z.lt_ge_cases q p); [left|right].
      - pose proof (page_end q p ps ltac:(lia) Hps). lia.
      - pose proof (page_end p q ps ltac:(lia) Hps). lia. }
    apply list_eq. intros i. unfold page_at. destruct (decide (i < Z.to_nat ps)%nat).
    + rewrite !lookup_take_lt by lia. rewrite !lookup_drop, Hl', decide_False by lia. done.
    + by rewrite !lookup_take_ge by lia.
Qed.

Lemma pages_eq ps n l l' :
  0 < ps -> Z.of_nat (length l) = n * ps -> Z.of_nat (length l') = n * ps ->
  (forall p, 0 <= p < n -> page_at ps l p = page_at ps l' p) -> l = l'.
Proof.
  intros Hps Hl Hl' H. apply list_eq. intros i.
  destruct (decide (i < length l)%nat) as [Hi|]; [|by rewrite !lookup_ge_None_2 by lia].
  pose proof (Z.div_mod (Z.of_nat i) ps ltac:(lia)). pose proof (Z.mod_pos_bound (Z.of_nat i) ps Hps).
  assert (0 <= Z.of_nat i / ps < n) as Hp by (split; [apply Z.div_pos|apply Z.div_lt_upper_bound]; lia).
  specialize (H _ Hp). apply (f_equal (lookup (Z.to_nat (Z.of_nat i mod ps)))) in H. unfold page_at in H.
  rewrite !lookup_take_lt, !lookup_drop in H by lia.
  replace (Z.to_nat (Z.of_nat i / ps * ps) + Z.to_nat (Z.of_nat i mod ps))%nat with i in H; [done|].
  pose proof (page_end _ _ ps Hp ltac:(lia)). lia.
Qed.

(** ** Places on the chip *)

Lemma chip_read_same core addr bytes (c : Chip) :
  chip_read (chip_write core addr bytes c) core addr (Z.of_nat (length bytes)) = bytes.
Proof. unfold chip_read, chip_write. rewrite bool_decide_true by done. apply read_write_mem. Qed.

Definition apart (ps : Z) (x y : CoreCoord * Z) : Prop := x.1 <> y.1 \/ x.2 + ps <= y.2 \/ y.2 + ps <= x.2.

Lemma chip_read_apart ps x y bytes (c : Chip) :
  apart ps x y -> Z.of_nat (length bytes) = ps -> chip_read (chip_write x.1 x.2 bytes c) y.1 y.2 ps = chip_read c y.1 y.2 ps.
Proof.
  intros Ha Hl. unfold chip_read, chip_write. case_bool_decide as He; [|done].
  destruct Ha as [?|Ha]; [congruence|]. apply read_mem_ext. intros i Hi. apply write_mem_out. lia.
Qed.

Section Store.
(** The pages [0, n) of an array, of [ps] bytes each, and where they go. *)
Context (ps n : Z) (data : list Z) (place : Z -> CoreCoord * Z) (c0 : Chip).
Hypothesis Hps : 0 < ps.
Hypothesis Hplace : forall p q, 0 <= p < n -> 0 <= q < n -> p <> q -> apart ps (place p) (place q).

(** No page lies at the byte [x] of a core. *)
Definition elsewhere (core : CoreCoord) (x : Z) : Prop :=
  forall p, 0 <= p < n -> core = (place p).1 -> ~ (place p).2 <= x < (place p).2 + ps.

(** The pages before [i] are stored and nothing else has changed. *)
Definition stored (i : Z) (c : Chip) : Prop :=
  (forall p, 0 <= p < i -> chip_read c (place p).1 (place p).2 ps = page_at ps data p) /\
  forall core x, elsewhere core x -> c core x = c0 core x.

Lemma stored_step i c :
  0 <= i < n -> (i + 1) * ps <= Z.of_nat (length data) -> stored i c ->
  stored (i + 1) (chip_write (place i).1 (place i).2 (page_at ps data i) c).
Proof.
  intros Hi Hdata [H1 H2]. assert (Hl : Z.of_nat (length (page_at ps data i)) = ps)
    by (rewrite (length_page_at ps data i (i + 1)) by lia; lia).
  split.
  - intros p Hp. destruct (Z.eq_dec p i) as [->|Hne].
    + pose proof (chip_read_same (place i).1 (place i).2 (page_at ps data i) c) as E. by rewrite Hl in E.
    + rewrite chip_read_apart by (done || (apply Hplace; lia)). apply H1. lia.
  - intros core x Hx. unfold chip_write. case_bool_decide as He; [|by apply H2].
    rewrite write_mem_out; [by apply H2|]. specialize (Hx i Hi He). lia.
Qed.
End Store.

(** ** Banks *)

Section Banks.
Context (dev a : Allocator).
Context (dram_core_from_dram_channel : Z -> CoreCoord) (worker_core_from_logical_core : CoreCoord -> CoreCoord).

Abbreviation noc := (noc_coordinates a dram_core_from_dram_channel worker_core_from_logical_core).

(** The room a page takes in a bank. *)
Definition page_room (b : Buffer) : Z := zceil (page_size_ b) (alignment a).

(** The banks a buffer uses: where each is, what is added to addresses in it, and that
    the [slots] pages each holds keep clear of those of the others. *)
Record banks_apart (b : Buffer) (used : Z -> Prop) (slots : Z) (core_of : Z -> CoreCoord) (off_of : Z -> Z) : Prop := mkApart {
  ba_page : 0 < page_size_ b /\ 0 < alignment a /\ page_size_ b + alignment a < 2 ^ 32;
  ba_address : 0 <= address_ b < 2 ^ 32;
  ba_core : forall k, used k -> noc b k = Ok (core_of k);
  ba_offset : forall k, used k -> bank_offset a (buffer_type_ b) k = Ok (off_of k);
  ba_room : forall k, used k -> 0 <= address_ b + off_of k /\ address_ b + off_of k + slots * page_room b < 2 ^ 32;
  ba_apart : forall k k', used k -> used k' -> k <> k' -> core_of k <> core_of k' \/
    off_of k + slots * page_room b <= off_of k' \/ off_of k' + slots * page_room b <= off_of k;
}.

Definition slot_place (b : Buffer) (core_of : Z -> CoreCoord) (off_of : Z -> Z) (bank slot : Z) : CoreCoord * Z :=
  (core_of bank, address_ b + off_of bank + page_room b * slot).

Lemma page_room_ok b used slots core_of off_of :
  banks_apart b used slots core_of off_of ->
  round_up (u32 (page_size_ b)) (u32 (alignment a)) = Ok (page_room b) /\ page_size_ b <= page_room b < 2 ^ 32.
Proof.
  intros [(H1 & H2 & H3) _ _ _ _ _]. rewrite !u32_small by (pow2; lia). rewrite round_up_ok by (pow2; lia).
  destruct (zceil_spec (page_size_ b) (alignment a) H2). unfold page_room. split; [done|pow2; lia].
Qed.

Lemma slots_apart b used slots core_of off_of k k' x x' :
  banks_apart b used slots core_of off_of -> used k -> used k' -> 0 <= x < slots -> 0 <= x' < slots -> (k, x) <> (k', x') ->
  apart (page_size_ b) (slot_place b core_of off_of k x) (slot_place b core_of off_of k' x').
Proof.
  intros Hb Hk Hk' Hx Hx' Hne. destruct (page_room_ok _ _ _ _ _ Hb) as [_ Hr]. unfold apart, slot_place. cbn.
  assert (0 < page_room b) as Hpos by (destruct Hb as [? _ _ _ _ _]; lia).
  assert (forall y, 0 <= y < slots -> 0 <= page_room b * y /\ page_room b * y + page_room b <= slots * page_room b) as Hy.
  { intros y Hy. pose proof (page_end y slots (page_room b) Hy ltac:(lia)). lia. }
  pose proof (Hy x Hx). pose proof (Hy x' Hx').
  destruct (Z.eq_dec k k') as [->|Hkk]; [|destruct (ba_apart _ _ _ _ _ Hb k k' Hk Hk' Hkk) as [?|[?|?]]; [by left|right; lia..]].
  right. assert (x <> x') by congruence. destruct (Z.lt_ge_cases x x').
  - left. pose proof (page_end x x' (page_room b) ltac:(lia) ltac:(lia)). lia.
  - right. pose proof (page_end x' x (page_room b) ltac:(lia) ltac:(lia)). lia.
Qed.

Lemma translate_ok b used slots core_of off_of k x :
  banks_apart b used slots core_of off_of -> used k -> 0 <= x < slots ->
  translate_page_address a b (u32 (page_room b * x)) k = Ok (slot_place b core_of off_of k x).2.
Proof.
  intros Hb Hk Hx. destruct (page_room_ok _ _ _ _ _ Hb) as [_ Hr]. destruct (ba_room _ _ _ _ _ Hb k Hk).
  destruct Hb as [Hp Ha _ Ho _ _]. pose proof (page_end x slots (page_room b) Hx ltac:(lia)).
  unfold translate_page_address. rewrite Ho by done. cbn [mbind res_bind mret res_ret]. f_equal. unfold slot_place. cbn.
  rewrite (u32_small (address_ b)) by lia. rewrite !u32_small by (pow2; lia). rewrite u64_small by (pow2; lia). lia.
Qed.

Lemma sharded_page_address_ok b s used slots core_of off_of k d :
  banks_apart b used slots core_of off_of -> used k -> sharding_fits b s -> slots = shard_size s -> 0 <= d ->
  sharded_page_address a b k d = Ok (slot_place b core_of off_of k (d mod shard_size s)).2.
Proof.
  intros Hb Hk Hf -> Hd. destruct (sharding_sizes b s Hf) as (Hss & _ & _ & _ & Hsz & _).
  destruct (page_room_ok _ _ _ _ _ Hb) as [Hr _].
  unfold sharded_page_address. rewrite (proj1 Hf), Hss. cbn [check mbind res_bind].
  rewrite (proj2 (Z.eqb_neq (shard_size s) 0)), Hr by lia. cbn [negb check mbind res_bind].
  pose proof (Z.mod_pos_bound d (shard_size s) ltac:(lia)). rewrite (u32_small (d mod shard_size s)) by lia.
  by apply (translate_ok b used (shard_size s)).
Qed.

Lemma page_address_ok b used slots core_of off_of nb i :
  banks_apart b used slots core_of off_of -> num_banks a (buffer_type_ b) = Ok nb -> 0 < nb < 2 ^ 32 -> used (i mod nb) ->
  0 <= i < 2 ^ 31 -> i / nb < slots ->
  page_address a b (i mod nb) i = Ok (slot_place b core_of off_of (i mod nb) (i / nb)).2.
Proof.
  intros Hb Hnb Hpos Hk Hi Hs. destruct (page_room_ok _ _ _ _ _ Hb) as [Hr _].
  unfold page_address. rewrite Hnb. cbn [mbind res_bind]. pose proof (Z.mod_pos_bound i nb ltac:(lia)).
  rewrite (proj2 (Z.ltb_lt _ _)), Hr by lia. cbn [check mbind res_bind].
  assert (0 <= i / nb <= i) by (split; [apply Z.div_pos; lia|apply Z.div_le_upper_bound; nia]).
  rewrite (u32_small i) by (pow2; lia). rewrite i32_small by (pow2; lia). apply (translate_ok b used slots); [done|done|lia].
Qed.

(** *** Interleaved buffers *)

(** The index of the loop that writes, an [int] that the additions of an unsigned page
    size wrap. *)
Definition data_index (ps i : Z) : Z := i32 (u32 (i * ps)).

Lemma i32_congruent y z : u32 (i32 y + z) = u32 (y + z).
Proof.
  unfold i32, u32. pose proof (Z.div_mod (y + 2 ^ 31) (2 ^ 32) ltac:(done)).
  replace ((y + 2 ^ 31) mod 2 ^ 32 - 2 ^ 31 + z) with (y + z + (- ((y + 2 ^ 31) / 2 ^ 32)) * 2 ^ 32) by lia.
  by rewrite Z.mod_add.
Qed.

Lemma data_index_step ps i : i32 (u32 (data_index ps i + ps)) = data_index ps (i + 1).
Proof.
  unfold data_index. rewrite i32_congruent. f_equal. unfold u32. rewrite Zplus_mod_idemp_l. f_equal. lia.
Qed.

Lemma data_index_small ps i : 0 <= i * ps < 2 ^ 31 -> data_index ps i = i * ps.
Proof. intros H. unfold data_index. rewrite u32_small by (pow2; lia). rewrite i32_small; pow2; lia. Qed.

Section Interleaved.
Context (b : Buffer) (nb : Z) (core_of : Z -> CoreCoord) (off_of : Z -> Z).

Abbreviation n := (num_pages b).
Abbreviation ps := (page_size_ b).

(** The place of page [i]: dealt round-robin to the banks. *)
Definition dealt (i : Z) : CoreCoord * Z := slot_place b core_of off_of (i mod nb) (i / nb).

Definition dealt_ok : Prop :=
  banks_apart b (fun k => 0 <= k < nb) ((n + nb - 1) / nb) core_of off_of /\
  num_banks a (buffer_type_ b) = Ok nb /\ num_banks dev (buffer_type_ b) = Ok nb /\ 0 < nb < 2 ^ 32 - 1 /\ n <= 2 ^ 31.

Hypothesis Hok : dealt_ok.

Lemma dealt_in i : 0 <= i < n -> 0 <= i mod nb < nb /\ 0 <= i / nb < (n + nb - 1) / nb.
Proof.
  destruct Hok as (_ & _ & _ & Hnb & _). intros Hi. split; [apply Z.mod_pos_bound; lia|]. split; [apply Z.div_pos; lia|].
  apply Z.div_lt_upper_bound; [lia|]. pose proof (Z.div_mod (n + nb - 1) nb ltac:(lia)).
  pose proof (Z.mod_pos_bound (n + nb - 1) nb ltac:(lia)). lia.
Qed.

Lemma dealt_apart p q : 0 <= p < n -> 0 <= q < n -> p <> q -> apart ps (dealt p) (dealt q).
Proof.
  pose proof Hok as (Hb & _ & _ & Hnb & _). intros Hp Hq Hne.
  destruct (dealt_in p Hp), (dealt_in q Hq). eapply slots_apart; [exact Hb|done..|].
  intros [= E1 E2]. apply Hne. rewrite (Z.div_mod p nb), (Z.div_mod q nb) by lia. by rewrite E1, E2.
Qed.

Lemma next_bank i : 0 <= i -> u32 (i mod nb + 1) mod nb = (i + 1) mod nb.
Proof.
  pose proof Hok as (_ & _ & _ & Hnb & _). intros Hi. pose proof (Z.mod_pos_bound i nb ltac:(lia)).
  rewrite u32_small by lia. by rewrite Zplus_mod_idemp_l.
Qed.

(** The writes of the pages before [m]. *)
Lemma write_run data c0 i m s :
  0 <= i <= m -> m <= n -> m * ps <= Z.of_nat (length data) -> (m - 1) * ps < 2 ^ 31 ->
  buffer_type_ b ∈ [DRAM; L1; L1_SMALL] -> buffer s = b -> stored ps n data dealt c0 i (chip s) ->
  exists s', write_interleaved a dram_core_from_dram_channel worker_core_from_logical_core data ps nb (zrange i n) (i mod nb) (data_index ps i) s =
      write_interleaved a dram_core_from_dram_channel worker_core_from_logical_core data ps nb (zrange m n) (m mod nb) (data_index ps m) s' /\
    buffer s' = b /\ host_array s' = host_array s /\ stored ps n data dealt c0 m (chip s').
Proof.
  pose proof Hok as (Hb & Hna & _ & Hnb & Hn). destruct (ba_page _ _ _ _ _ Hb) as (Hps & _).
  intros Hi Hm Hlen H31 Ht. remember (Z.to_nat (m - i)) as k eqn:Hk. revert i s Hi Hk.
  induction k as [|k IH]; intros i s Hi Hk Hs Hst; [assert (i = m) as -> by lia; by exists s|].
  rewrite (zrange_cons i) by lia. cbn [write_interleaved].
  destruct (dealt_in i ltac:(lia)) as [Hbi Hsi].
  erewrite M_bind_ok by reflexivity. rewrite Hs.
  erewrite M_bind_ok by (unfold lift; by rewrite (page_address_ok b _ _ _ _ nb i Hb Hna) by lia).
  pose proof (page_end i m ps ltac:(lia) ltac:(lia)).
  assert (i * ps <= (m - 1) * ps) by (apply Z.mul_le_mono_nonneg_r; lia).
  rewrite (data_index_small ps i) by lia.
  erewrite M_bind_ok by (unfold lift; by rewrite (host_slice_page ps data i m) by lia).
  set (s1 := mkStorage b (chip_write (dealt i).1 (dealt i).2 (page_at ps data i) (chip s)) (host_array s)).
  erewrite M_bind_ok with (s' := s1) (a := tt).
  2: { assert ((core ← lift (noc b (i mod nb)); to_chip core (dealt i).2 (page_at ps data i)) s = (s1, Ok tt)) as E.
       { erewrite M_bind_ok by (unfold lift; by rewrite (ba_core _ _ _ _ _ Hb) by lia). unfold to_chip, modify. by rewrite Hs. }
       destruct (buffer_type_ b); exact E || (exfalso; by repeat (apply elem_of_cons in Ht as [?|Ht] || apply elem_of_nil in Ht)). }
  erewrite M_bind_ok by (apply require_true; rewrite (proj2 (Z.eqb_neq nb 0)) by lia; done).
  rewrite next_bank by lia. rewrite <- (data_index_small ps i), data_index_step by lia.
  apply (IH (i + 1) s1); [lia..|done|]. subst s1. cbn [chip].
  apply stored_step; [lia|apply dealt_apart|lia| |done]. lia.
Qed.

Lemma write_interleaved_all data s :
  n * ps <= Z.of_nat (length data) -> (n - 1) * ps < 2 ^ 31 -> buffer_type_ b ∈ [DRAM; L1; L1_SMALL] -> buffer s = b ->
  exists s', write_interleaved a dram_core_from_dram_channel worker_core_from_logical_core data ps nb (zrange 0 n) 0 0 s = (s', Ok tt) /\
    buffer s' = b /\ host_array s' = host_array s /\ stored ps n data dealt (chip s) n (chip s').
Proof.
  pose proof Hok as (_ & _ & _ & Hnb & _). pose proof (num_pages_range b) as Hn.
  intros Hlen H31 Ht Hs. destruct (write_run data (chip s) 0 n s) as (s' & E & H1 & H2 & H3); [lia..|done|done|split; [lia|done]|].
  rewrite Z.mod_0_l in E by lia. change (data_index ps 0) with (i32 (u32 0)) in E. change (i32 (u32 0)) with 0 in E.
  exists s'. rewrite E, (zrange_nil n n) by lia. done.
Qed.

(** The first page that lies beyond the array, or beyond what the loop's index can say. *)
Lemma write_overrun data m s :
  0 <= m < n -> m * ps < 2 ^ 32 -> Z.of_nat (length data) < (m + 1) * ps \/ 2 ^ 31 <= m * ps -> buffer s = b ->
  write_interleaved a dram_core_from_dram_channel worker_core_from_logical_core data ps nb (zrange m n) (m mod nb) (data_index ps m) s = (s, Err Undefined).
Proof.
  pose proof Hok as (Hb & Hna & _ & Hnb & Hn). destruct (ba_page _ _ _ _ _ Hb) as (Hps & _).
  intros Hm H32 Hover Hs. rewrite (zrange_cons m) by lia. cbn [write_interleaved]. destruct (dealt_in m ltac:(lia)).
  erewrite M_bind_ok by reflexivity. rewrite Hs.
  erewrite M_bind_ok by (unfold lift; by rewrite (page_address_ok b _ _ _ _ nb m Hb Hna) by lia).
  apply M_bind_err. unfold lift, host_slice. replace ((0 <=? data_index ps m) && _) with false; [done|]. symmetry.
  apply andb_false_iff. destruct (Z.lt_ge_cases (m * ps) (2 ^ 31)).
  - right. rewrite data_index_small by lia. apply Z.leb_gt. lia.
  - left. apply Z.leb_gt. unfold data_index. rewrite u32_small by lia. unfold i32.
    replace (m * ps + 2 ^ 31) with (m * ps - 2 ^ 31 + 1 * 2 ^ 32) by (pow2; lia).
    rewrite Z.mod_add, Z.mod_small by (pow2; lia). pow2. lia.
Qed.

(** The reads of the pages from [i] on. *)
Lemma read_run data i s :
  0 <= i <= n -> buffer s = b -> buffer_type_ b <> SYSTEM_MEMORY ->
  (forall p, 0 <= p < n -> chip_read (chip s) (dealt p).1 (dealt p).2 ps = page_at ps data p) ->
  Z.of_nat (length (host_array s)) = n * ps -> n * ps < 2 ^ 64 -> n * ps <= Z.of_nat (length data) ->
  (forall p, 0 <= p < i -> page_at ps (host_array s) p = page_at ps data p) ->
  exists s', read_interleaved a dram_core_from_dram_channel worker_core_from_logical_core ps nb (zrange i n) (i mod nb) (i * ps) s = (s', Ok tt) /\
    buffer s' = b /\ chip s' = chip s /\ Z.of_nat (length (host_array s')) = n * ps /\
    forall p, 0 <= p < n -> page_at ps (host_array s') p = page_at ps data p.
Proof.
  pose proof Hok as (Hb & Hna & _ & Hnb & Hn). destruct (ba_page _ _ _ _ _ Hb) as (Hps & _).
  intros Hi Hs Ht Hc Hl H64 Hlen. remember (Z.to_nat (n - i)) as k eqn:Hk. revert i s Hi Hk Hs Hc Hl.
  induction k as [|k IH]; intros i s Hi Hk Hs Hc Hl Hh.
  { replace i with n in * by lia. rewrite zrange_nil by lia. by exists s. }
  rewrite (zrange_cons i) by lia. cbn [read_interleaved].
  destruct (dealt_in i ltac:(lia)) as [Hbi Hsi].
  erewrite M_bind_ok by reflexivity. rewrite Hs.
  erewrite M_bind_ok by (unfold lift; by rewrite (page_address_ok b _ _ _ _ nb i Hb Hna) by lia).
  erewrite M_bind_ok with (s' := s) (a := page_at ps data i).
  2: { assert ((core ← lift (noc b (i mod nb)); mret (chip_read (chip s) core (dealt i).2 ps)) s = (s, Ok (page_at ps data i))) as E.
       { erewrite M_bind_ok by (unfold lift; by rewrite (ba_core _ _ _ _ _ Hb) by lia). unfold mret, M_ret. rewrite <- Hc by lia. done. }
       destruct (buffer_type_ b); exact E || done. }
  assert (Hpl : Z.of_nat (length (page_at ps data i)) = ps) by (rewrite (length_page_at ps data i n) by lia; lia).
  destruct (host_store_page ps (host_array s) i n (page_at ps data i)) as (h' & Eh & Hl' & Hi' & Hq); [lia..|].
  set (s1 := mkStorage b (chip s) h').
  erewrite M_bind_ok with (s' := s1) (a := tt).
  2: { unfold to_host. erewrite M_bind_ok by reflexivity. erewrite M_bind_ok by (unfold lift; by rewrite Eh).
       unfold put. by rewrite Hs. }
  erewrite M_bind_ok by (apply require_true; rewrite (proj2 (Z.eqb_neq nb 0)) by lia; done).
  pose proof (page_end i n ps ltac:(lia) ltac:(lia)).
  rewrite next_bank, Hpl, u64_small by (pow2; lia). replace (i * ps + ps) with ((i + 1) * ps) by lia.
  destruct (IH (i + 1) s1) as (s' & E & H1 & H2 & H3); try done; try lia.
  - subst s1. cbn. lia.
  - intros p Hp. subst s1. cbn. destruct (Z.eq_dec p i) as [->|]; [done|]. rewrite Hq by lia. apply Hh. lia.
  - by exists s'.
Qed.
End Interleaved.

(** *** Sharded buffers *)

Section Sharded.
Context (b : Buffer) (s : ShardSpecBuffer) (m : BufferPageMapping).
Context (bank_of : CoreCoord -> Z) (core_of : Z -> CoreCoord) (off_of : Z -> Z).

Abbreviation n := (num_pages b).
Abbreviation ps := (page_size_ b).
Abbreviation cores := (enumerate_set (grid (tensor_shard_spec s)) (bool_decide (orientation (tensor_shard_spec s) = ROW_MAJOR))).

(** Each core of the grid has a bank of its own. *)
Definition core_banks : Prop :=
  (forall core, core ∈ cores -> exists rest, bank_ids_from_logical_core dev (buffer_type_ b) core = Ok (bank_of core :: rest)) /\
  (forall core core', core ∈ cores -> core' ∈ cores -> bank_of core = bank_of core' -> core = core') /\
  banks_apart b (fun k => exists core, core ∈ cores /\ k = bank_of core) (shard_size s) core_of off_of.

Hypothesis Hfits : sharding_fits b s.
Hypothesis Hmaps : maps_pages b s m.
Hypothesis Hbanks : core_banks.
Hypothesis Hsize : n * ps < 2 ^ 32.

Definition dev_core (d : Z) : CoreCoord := nth (Z.to_nat (d / shard_size s)) cores (mkCoord 0 0).

Definition dev_place (d : Z) : CoreCoord * Z := slot_place b core_of off_of (bank_of (dev_core d)) (d mod shard_size s).

(** The place of a host page. *)
Definition shard_place (p : Z) : CoreCoord * Z := dev_place (page_of b s p).

Lemma dev_core_in d :
  0 <= d < dev_pages s -> cores !! Z.to_nat (d / shard_size s) = Some (dev_core d) /\ dev_core d ∈ cores /\ 0 <= d / shard_size s.
Proof.
  intros Hd. destruct (sharding_sizes b s Hfits) as (_ & _ & _ & Hn & Hsz & _ & Hdp & _). cbv zeta in *.
  destruct (enumerate_cores (grid (tensor_shard_spec s)) ltac:(apply Hfits) (bool_decide (orientation (tensor_shard_spec s) = ROW_MAJOR))) as (_ & Hl & _).
  assert (0 <= d / shard_size s < total_area (grid (tensor_shard_spec s))) by (split; [apply Z.div_pos|apply Z.div_lt_upper_bound]; lia).
  destruct (lookup_lt_is_Some_2 cores (Z.to_nat (d / shard_size s)) ltac:(lia)) as [c Hc].
  unfold dev_core. rewrite (nth_lookup_Some _ _ _ _ Hc). split_and!; [done|by eapply list_elem_of_lookup_2|lia].
Qed.

Lemma shard_bank_ok d : 0 <= d < dev_pages s -> shard_bank dev b m d = Ok (bank_of (dev_core d)).
Proof.
  intros Hd. destruct (dev_core_in d Hd) as (Hc & Hin & _). destruct (proj1 Hbanks _ Hin) as [rest Hr].
  unfold shard_bank, at_. rewrite (maps_to_core _ _ _ Hmaps) by done. cbn [opt_res mbind res_bind].
  rewrite (maps_cores _ _ _ Hmaps), Hc. cbn [opt_res mbind res_bind]. rewrite Hr. done.
Qed.

Lemma bank_used core : core ∈ cores -> exists c, c ∈ cores /\ bank_of core = bank_of c.
Proof. by exists core. Qed.

Lemma dev_address_ok d :
  0 <= d < dev_pages s -> sharded_page_address a b (bank_of (dev_core d)) d = Ok (dev_place d).2 /\
  noc b (bank_of (dev_core d)) = Ok (dev_place d).1.
Proof.
  intros Hd. destruct (dev_core_in d Hd) as (_ & Hin & _). destruct Hbanks as (_ & _ & Hb).
  split; [eapply sharded_page_address_ok; [exact Hb|by apply bank_used|done|done|lia]|]. apply (ba_core _ _ _ _ _ Hb). by apply bank_used.
Qed.

Lemma shard_apart p q : 0 <= p < n -> 0 <= q < n -> p <> q -> apart ps (shard_place p) (shard_place q).
Proof.
  intros Hp Hq Hne. destruct (maps_to_dev _ _ _ Hmaps p Hp) as [Hdp _], (maps_to_dev _ _ _ Hmaps q Hq) as [Hdq _].
  destruct (sharding_sizes b s Hfits) as (_ & _ & _ & _ & Hsz & _).
  destruct (dev_core_in _ Hdp) as (Hcp & Hip & Hp0), (dev_core_in _ Hdq) as (Hcq & Hiq & Hq0).
  destruct Hbanks as (_ & Hinj & Hb).
  eapply slots_apart; [exact Hb|by apply bank_used|by apply bank_used|apply Z.mod_pos_bound; lia|apply Z.mod_pos_bound; lia|].
  intros [= E1 E2]. apply Hinj in E1; [|done..].
  assert (page_of b s p = page_of b s q) as E.
  { rewrite (Z.div_mod (page_of b s p) (shard_size s)), (Z.div_mod (page_of b s q) (shard_size s)) by lia.
    rewrite E2. do 2 f_equal. apply Z2Nat.inj; [done..|].
    destruct (enumerate_cores (grid (tensor_shard_spec s)) ltac:(apply Hfits) (bool_decide (orientation (tensor_shard_spec s) = ROW_MAJOR))) as (Hnd & _).
    eapply NoDup_lookup; [exact Hnd|exact Hcp|]. by rewrite E1. }
  assert (dev_page_to_host_page_mapping_ m !! Z.to_nat (page_of b s p) = Some (Some p)) as L1 by by apply (maps_to_host _ _ _ Hmaps).
  assert (dev_page_to_host_page_mapping_ m !! Z.to_nat (page_of b s p) = Some (Some q)) as L2 by by apply (maps_to_host _ _ _ Hmaps).
  congruence.
Qed.

Lemma write_sharded_all data c0 st :
  n * ps <= Z.of_nat (length data) -> buffer st = b -> chip st = c0 ->
  exists st', mapM_ (write_sharded_page dev a dram_core_from_dram_channel worker_core_from_logical_core data ps m) (zrange 0 n) st = (st', Ok tt) /\
    buffer st' = b /\ host_array st' = host_array st /\ stored ps n data shard_place c0 n (chip st').
Proof.
  intros Hlen Hb Hc. pose proof Hbanks as (_ & _ & Hba). destruct (ba_page _ _ _ _ _ Hba) as (Hps & _).
  pose proof (num_pages_range b) as Hn.
  destruct (mapM_zrange (fun i st' => buffer st' = b /\ host_array st' = host_array st /\ stored ps n data shard_place c0 i (chip st'))
    (write_sharded_page dev a dram_core_from_dram_channel worker_core_from_logical_core data ps m) 0 n st) as (st' & E & H); [lia| | |by exists st'].
  - split_and!; [done|done|split; [lia|by rewrite Hc]].
  - intros p st1 Hp (Hb1 & Hh1 & Hst). destruct (maps_to_dev _ _ _ Hmaps p Hp) as (Hd & Hl & _).
    destruct (dev_address_ok _ Hd) as [Ha Hn']. pose proof (page_end p n ps ltac:(lia) ltac:(lia)).
    eexists. split.
    + unfold write_sharded_page. erewrite M_bind_ok by reflexivity. rewrite Hb1.
      erewrite M_bind_ok by (unfold lift, at_; by rewrite Hl).
      erewrite M_bind_ok by (unfold lift; by rewrite shard_bank_ok).
      erewrite M_bind_ok by (unfold lift; by rewrite Ha).
      rewrite (u32_small (p * ps)) by lia.
      erewrite M_bind_ok by (unfold lift; by rewrite (host_slice_page ps data p n) by lia).
      erewrite M_bind_ok by (unfold lift; by rewrite Hn'). reflexivity.
    + cbn. split_and!; [done|done|]. apply stored_step; [lia|apply shard_apart|lia| |done]. lia.
Qed.

Lemma read_sharded_all data st :
  n * ps <= Z.of_nat (length data) -> buffer st = b -> Z.of_nat (length (host_array st)) = n * ps ->
  (forall p, 0 <= p < n -> chip_read (chip st) (shard_place p).1 (shard_place p).2 ps = page_at ps data p) ->
  exists st', mapM_ (read_sharded_page dev a dram_core_from_dram_channel worker_core_from_logical_core false ps m) (zrange 0 (dev_pages s)) st = (st', Ok tt) /\
    buffer st' = b /\ chip st' = chip st /\ Z.of_nat (length (host_array st')) = n * ps /\
    forall p, 0 <= p < n -> page_at ps (host_array st') p = page_at ps data p.
Proof.
  intros Hlen Hb Hl Hc. pose proof Hbanks as (_ & _ & Hba). destruct (ba_page _ _ _ _ _ Hba) as (Hps & _).
  destruct (sharding_sizes b s Hfits) as (_ & _ & _ & Hn & Hsz & _ & Hdp & _). cbv zeta in *.
  destruct (mapM_zrange (fun d st' => buffer st' = b /\ chip st' = chip st /\ Z.of_nat (length (host_array st')) = n * ps /\
      forall p, 0 <= p < n -> page_of b s p < d -> page_at ps (host_array st') p = page_at ps data p)
    (read_sharded_page dev a dram_core_from_dram_channel worker_core_from_logical_core false ps m) 0 (dev_pages s) st) as (st' & E & H1 & H2 & H3 & H4);
    [nia| | |].
  - split_and!; [done..|]. intros p Hp Hlt. destruct (maps_to_dev _ _ _ Hmaps p Hp). lia.
  - intros d st1 Hd (Hb1 & Hc1 & Hl1 & Hh1). unfold read_sharded_page.
    erewrite M_bind_ok by reflexivity. rewrite Hb1. erewrite M_bind_ok by (unfold lift; by rewrite shard_bank_ok).
    destruct (dev_address_ok _ Hd) as [Ha Hn'].
    destruct (lookup_lt_is_Some_2 (dev_page_to_host_page_mapping_ m) (Z.to_nat d)) as [hp Hhp];
      [pose proof (maps_dev_len _ _ _ Hmaps); lia|].
    erewrite M_bind_ok by (unfold lift, at_; by rewrite Hhp). destruct hp as [p|].
    + apply (maps_to_host _ _ _ Hmaps) in Hhp as [Hp Hdq]; [|done]. pose proof (page_end p n ps ltac:(lia) ltac:(lia)).
      assert (Hpl : Z.of_nat (length (page_at ps data p)) = ps) by (rewrite (length_page_at ps data p n) by lia; lia).
      destruct (host_store_page ps (host_array st1) p n (page_at ps data p)) as (h' & Eh & Hl' & Hi' & Hq); [lia..|].
      exists (mkStorage b (chip st1) h'). split.
      * unfold read_pages_to_host_helper. erewrite M_bind_ok by reflexivity. rewrite Hb1.
        erewrite M_bind_ok by (unfold lift; by rewrite Ha). erewrite M_bind_ok by (unfold lift; by rewrite Hn').
        rewrite (u32_small (p * ps)) by lia. rewrite Hc1, Hdq.
        change (dev_place (page_of b s p)) with (shard_place p). rewrite Hc by done.
        unfold to_host. erewrite M_bind_ok by reflexivity. erewrite M_bind_ok by (unfold lift; by rewrite Eh).
        unfold put. by rewrite Hb1, Hc1.
      * cbn. split_and!; [done|done|lia|]. intros q Hq0 Hlt. destruct (Z.eq_dec q p) as [->|]; [done|]. rewrite Hq by done.
        apply Hh1; [done|]. assert (page_of b s q <> d); [|lia]. intros E.
        assert (dev_page_to_host_page_mapping_ m !! Z.to_nat d = Some (Some p)) as L1 by by apply (maps_to_host _ _ _ Hmaps).
        assert (dev_page_to_host_page_mapping_ m !! Z.to_nat d = Some (Some q)) as L2 by by apply (maps_to_host _ _ _ Hmaps).
        congruence.
    + eexists. split; [reflexivity|]. split_and!; [done..|]. intros p Hp Hlt. apply Hh1; [done|].
      assert (page_of b s p <> d); [|lia]. intros <-.
      assert (dev_page_to_host_page_mapping_ m !! Z.to_nat (page_of b s p) = Some (Some p)) by by apply (maps_to_host _ _ _ Hmaps). congruence.
  - exists st'. split_and!; [done..|]. intros p Hp. apply H4; [done|]. destruct (maps_to_dev _ _ _ Hmaps p Hp). lia.
Qed.
End Sharded.

(** *** Any buffer *)

(** A mapping kept from an earlier call is that of the buffer. *)
Definition mapping_kept (b : Buffer) (s : ShardSpecBuffer) : Prop :=
  forall m, buffer_page_mapping_ b = Some m -> maps_pages b s m.

(** Where the pages of a buffer lie. *)
Inductive laid_out (b : Buffer) : (Z -> CoreCoord * Z) -> Prop :=
  | interleaved_at nb core_of off_of :
      buffer_layout_ b ∈ [INTERLEAVED; SINGLE_BANK] -> dealt_ok b nb core_of off_of ->
      (num_pages b - 1) * page_size_ b < 2 ^ 31 -> laid_out b (dealt b nb core_of off_of)
  | sharded_at s bank_of core_of off_of :
      sharding_fits b s -> mapping_kept b s -> core_banks b s bank_of core_of off_of ->
      num_pages b * page_size_ b < 2 ^ 32 -> laid_out b (shard_place b s bank_of core_of off_of).

(** The buffer after its mapping has been asked for. *)
Definition with_mapping (b b' : Buffer) : Prop := exists m, b' = set_mapping m b.

Lemma get_mapping_ok b s st :
  sharding_fits b s -> mapping_kept b s -> buffer st = b ->
  exists m, on_buffer get_buffer_page_mapping st = (mkStorage (set_mapping (Some m) b) (chip st) (host_array st), Ok m) /\
    maps_pages b s m.
Proof.
  intros Hf Hk <-. unfold on_buffer, zoom, get_buffer_page_mapping.
  erewrite M_bind_ok by reflexivity. erewrite M_bind_ok by (apply require_true, Hf).
  destruct (buffer_page_mapping_ (buffer st)) as [m|] eqn:Em.
  - exists m. split; [|by apply Hk]. unfold mret, M_ret. do 2 f_equal.
    destruct (buffer st); cbn in *. by subst.
  - destruct (generate_ok _ _ Hf) as (m & Eg & Hm). exists m. split; [|done].
    erewrite M_bind_ok by (unfold lift; by rewrite Eg). reflexivity.
Qed.

Lemma maps_pages_set b s m m' : maps_pages b s m -> maps_pages (set_mapping m' b) s m.
Proof. intros []. by constructor. Qed.

Lemma banks_apart_set b m used slots core_of off_of :
  banks_apart b used slots core_of off_of -> banks_apart (set_mapping m b) used slots core_of off_of.
Proof. intros []. by constructor. Qed.

Lemma core_banks_set b m s bank_of core_of off_of : core_banks b s bank_of core_of off_of -> core_banks (set_mapping m b) s bank_of core_of off_of.
Proof. intros (H1 & H2 & H3). split_and!; [done..|by apply banks_apart_set]. Qed.

Lemma laid_out_apart b place : laid_out b place -> 0 < page_size_ b /\
  forall p q, 0 <= p < num_pages b -> 0 <= q < num_pages b -> p <> q -> apart (page_size_ b) (place p) (place q).
Proof.
  intros [nb core_of off_of _ Hd _|s bank_of core_of off_of Hf Hk Hc Hsize].
  - split; [apply Hd|by apply dealt_apart].
  - destruct (generate_ok b s Hf) as (m & _ & Hm). split; [apply Hc|]. by apply (shard_apart b s m).
Qed.

Lemma to_sharded {A} b s (x y : A) : sharding_fits b s -> match buffer_layout_ b with INTERLEAVED | SINGLE_BANK => x | _ => y end = y.
Proof. intros [H _]. by destruct (buffer_layout_ b). Qed.

Lemma to_interleaved {A} b (x y : A) :
  buffer_layout_ b ∈ [INTERLEAVED; SINGLE_BANK] -> match buffer_layout_ b with INTERLEAVED | SINGLE_BANK => x | _ => y end = x.
Proof. set_unfold. by intros [->|[->|[]]]. Qed.

Lemma to_writable {A} b (x y : A) : buffer_type_ b ∈ [DRAM; L1; L1_SMALL] -> match buffer_type_ b with DRAM | L1 | L1_SMALL => x | _ => y end = x.
Proof. set_unfold. by intros [->|[->|[->|[]]]]. Qed.

Lemma to_readable {A} b (x y : A) : buffer_type_ b <> SYSTEM_MEMORY -> match buffer_type_ b with SYSTEM_MEMORY => y | _ => x end = x.
Proof. by destruct (buffer_type_ b). Qed.

Abbreviation WriteToBuffer := (WriteToBuffer dev a dram_core_from_dram_channel worker_core_from_logical_core).
Abbreviation ReadFromBuffer_vector := (ReadFromBuffer_vector dev a dram_core_from_dram_channel worker_core_from_logical_core).

Lemma write_all b place data st :
  laid_out b place -> buffer_type_ b ∈ [DRAM; L1; L1_SMALL] -> size_ b = num_pages b * page_size_ b ->
  Z.of_nat (length data) = size_ b -> buffer st = b ->
  exists st', WriteToBuffer data st = (st', Ok tt) /\ with_mapping b (buffer st') /\ host_array st' = host_array st /\
    laid_out (buffer st') place /\ stored (page_size_ b) (num_pages b) data place (chip st) (num_pages b) (chip st').
Proof.
  intros Hl Ht Hsz Hlen Hb. unfold BufferIO.WriteToBuffer. erewrite M_bind_ok by reflexivity. rewrite Hb, to_writable by done.
  unfold WriteToDevice. erewrite M_bind_ok by reflexivity. rewrite Hb.
  destruct Hl as [nb core_of off_of Hlay Hd H31|s bank_of core_of off_of Hf Hk Hc H32].
  - rewrite to_interleaved by done. unfold WriteToDeviceInterleavedContiguous. erewrite M_bind_ok by reflexivity. rewrite Hb.
    assert (u32 (Z.of_nat (length data)) <= size_ b) as Hle by (rewrite Hlen; apply Z.mod_le; lia).
    erewrite M_bind_ok by (apply require_true; by apply Z.leb_le).
    pose proof Hd as (Hba & _ & Hdev & Hnb & _). destruct (ba_page _ _ _ _ _ Hba) as (Hps & Hal & Hps').
    erewrite M_bind_ok by (unfold lift; by rewrite Hdev). rewrite u32_small by lia.
    destruct (write_interleaved_all b nb core_of off_of Hd data st) as (st' & E & E1 & E2 & E3); [lia..|done|done|].
    exists st'. rewrite E, E1. split_and!; [done|exists (buffer_page_mapping_ b); by destruct b|done|by constructor|done].
  - rewrite (to_sharded b s) by done. unfold WriteToDeviceSharded. erewrite M_bind_ok by reflexivity. rewrite Hb.
    erewrite M_bind_ok by (apply require_true, Z.leb_le; lia).
    pose proof Hc as (_ & _ & Hba). destruct (ba_page _ _ _ _ _ Hba) as (Hps & Hal & Hps').
    rewrite u32_small by lia. erewrite M_bind_ok.
    2: { apply require_true. rewrite (proj2 (Z.eqb_neq _ 0)) by lia. apply Z.eqb_eq. rewrite Hsz. by apply Z.mod_mul; lia. }
    destruct (get_mapping_ok b s st Hf Hk Hb) as (m & E & Hm). erewrite M_bind_ok by exact E.
    destruct (write_sharded_all (set_mapping (Some m) b) s m bank_of core_of off_of Hf (maps_pages_set _ _ _ _ Hm)
      (core_banks_set _ _ _ _ _ _ Hc) H32 data (chip st) (mkStorage (set_mapping (Some m) b) (chip st) (host_array st)))
      as (st' & E' & E1 & E2 & E3); [change (num_pages b * page_size_ b <= Z.of_nat (length data)); lia|done|done|].
    exists st'. rewrite E1. split_and!; [exact E'|by exists (Some m)|done| |exact E3].
    apply (sharded_at (set_mapping (Some m) b) s bank_of core_of off_of Hf); [|by apply core_banks_set|done].
    intros m' [= <-]. by apply maps_pages_set.
Qed.

Lemma read_all b place data width st :
  laid_out b place -> buffer_type_ b <> SYSTEM_MEMORY -> size_ b = num_pages b * page_size_ b ->
  Z.of_nat (length data) = size_ b -> 0 < width -> size_ b mod width = 0 -> size_ b < 2 ^ 64 -> buffer st = b ->
  (forall p, 0 <= p < num_pages b -> chip_read (chip st) (place p).1 (place p).2 (page_size_ b) = page_at (page_size_ b) data p) ->
  exists st', ReadFromBuffer_vector width false st = (st', Ok tt) /\ host_array st' = data /\ chip st' = chip st.
Proof.
  intros Hl Ht Hsz Hlen Hw Hmod H64 Hb Hc. unfold BufferIO.ReadFromBuffer_vector. erewrite M_bind_ok by reflexivity. rewrite Hb.
  erewrite M_bind_ok by (apply require_true; by apply Z.eqb_eq).
  assert (size_ b / width * width = size_ b) as -> by (pose proof (Z.div_mod (size_ b) width ltac:(lia)); lia).
  set (st1 := mkStorage b (chip st) (resize (Z.to_nat (size_ b)) 0 (host_array st))).
  erewrite M_bind_ok with (s' := st1) (a := tt) by (unfold put; done).
  assert (Z.of_nat (length (host_array st1)) = num_pages b * page_size_ b) as Hl1 by (cbn; rewrite length_resize; lia).
  unfold ReadFromBuffer. erewrite M_bind_ok by reflexivity. cbn [buffer st1].
  rewrite to_readable by done.
  unfold ReadFromDevice. erewrite M_bind_ok by reflexivity. cbn [buffer st1].
  destruct Hl as [nb core_of off_of Hlay Hd H31|s bank_of core_of off_of Hf Hk Hcb H32].
  - rewrite to_interleaved by done. unfold ReadFromDeviceInterleavedContiguous. erewrite M_bind_ok by reflexivity. cbn [buffer st1].
    pose proof Hd as (Hba & _ & Hdev & Hnb & _). destruct (ba_page _ _ _ _ _ Hba) as (Hps & Hal & Hps').
    erewrite M_bind_ok by (unfold lift; by rewrite Hdev). rewrite u32_small by lia.
    pose proof (num_pages_range b).
    destruct (read_run b nb core_of off_of Hd data 0 st1) as (st' & E & E1 & E2 & E3 & E4); [lia|done|done|exact Hc|exact Hl1|lia|lia|lia|].
    rewrite Z.mod_0_l, Z.mul_0_l in E by lia. exists st'. split_and!; [exact E| |done].
    apply (pages_eq (page_size_ b) (num_pages b)); [done|done|lia|done].
  - rewrite (to_sharded b s) by done. unfold ReadFromDeviceSharded. erewrite M_bind_ok by reflexivity. cbn [buffer st1].
    destruct (sharding_sizes b s Hf) as (_ & _ & Hnd & _). erewrite M_bind_ok by (unfold lift; by rewrite Hnd).
    pose proof Hcb as (_ & _ & Hba). destruct (ba_page _ _ _ _ _ Hba) as (Hps & Hal & Hps'). rewrite u32_small by lia.
    destruct (get_mapping_ok b s st1 Hf Hk eq_refl) as (m & E & Hm). erewrite M_bind_ok by exact E.
    destruct (read_sharded_all (set_mapping (Some m) b) s m bank_of core_of off_of Hf (maps_pages_set _ _ _ _ Hm)
      (core_banks_set _ _ _ _ _ _ Hcb) H32 data (mkStorage (set_mapping (Some m) b) (chip st1) (host_array st1)))
      as (st' & E' & E1 & E2 & E3 & E4); [change (num_pages b * page_size_ b <= Z.of_nat (length data)); lia|done|exact Hl1|exact Hc|].
    exists st'. split_and!; [exact E'| |done]. apply (pages_eq (page_size_ b) (num_pages b)); [done|exact E3|lia|exact E4].
Qed.
End Banks.

