(* ===== verification/BufferProps.v ===== *)
(** * Buffers: the claims

    The page mapping of a sharded buffer, the cache it is kept in, and what
    [WriteToBuffer] and [ReadFromBuffer] move. *)

From Stdlib Require Import Lia.
From S2P Require Import Prelude Memory CoreCoord FreeList WorkSplit Allocator AllocatorProps Buffers BufferPages BufferIO BufferIOProps.

(** ** Buffers on the chip of [demo_alloc] *)

(** A tensor of 3 rows of 5 pages, 64 bytes each, in blocks of 2 rows of 3 pages on two
    by two cores: the last blocks reach past the edges of the tensor. *)
Definition demo_spec : ShardSpecBuffer :=
  mkShardSpecBuffer (ShardSpec_new [mkRange (mkCoord 0 0) (mkCoord 1 1)] (4, 48) ROW_MAJOR false PHYSICAL) (2, 16) (3, 5).

Definition demo_sharded (layout : TensorMemoryLayout) (s : ShardSpecBuffer) (size : Z) : Buffer :=
  mkBuf size L1 layout true None true None ALLOCATED 2048 false 64 (Some s) None 1.

Lemma one_range_wf r : range_wf r -> set_wf [r].
Proof. split; [by constructor|]. split; [|done]. by intros ? ?%not_elem_of_nil. Qed.

Definition demo_blocks : Buffer := demo_sharded BLOCK_SHARDED demo_spec (15 * 64).

Lemma demo_blocks_fit : sharding_fits demo_blocks demo_spec.
Proof.
  split_and!; try done. by apply one_range_wf.
Qed.

(** Three pages in a row, two to a core. *)
Definition demo_rows_spec : ShardSpecBuffer :=
  mkShardSpecBuffer (ShardSpec_new [mkRange (mkCoord 0 0) (mkCoord 1 0)] (2, 1) ROW_MAJOR false PHYSICAL) (1, 1) (3, 1).

Definition demo_rows : Buffer := demo_sharded HEIGHT_SHARDED demo_rows_spec (3 * 64).

Lemma demo_rows_fit : sharding_fits demo_rows demo_rows_spec.
Proof.
  split_and!; try done. by apply one_range_wf.
Qed.

(** Five pages over the four banks. *)
Definition demo_interleaved : Buffer :=
  mkBuf (5 * 64) L1 INTERLEAVED true None true None ALLOCATED 5120 false 64 None None 2.

(** ** The page mapping *)

(** C8: The tables of [generate_buffer_page_mapping] are inverse to each other.  Each
    page of the host has one page of the device, on the core and at the place in its
    shard that the layout says: a run of consecutive pages to a core for height
    sharding, the block of rows and columns it lies in for the others.  No two pages of
    the host share a page of the device, and the pages that pad a shard name no page of
    the host. *)
Theorem page_mapping_bijective b s (Hf : sharding_fits b s) :
  exists m, generate_buffer_page_mapping b = Ok m /\
    all_cores_ m = corerange_to_cores (grid (tensor_shard_spec s)) (Some (total_area (grid (tensor_shard_spec s))))
      (bool_decide (orientation (tensor_shard_spec s) = ROW_MAJOR)) /\
    (forall p, 0 <= p < num_pages b -> exists d, d = page_of b s p /\ 0 <= d < dev_pages s /\
      host_page_to_dev_page_mapping_ m !! Z.to_nat p = Some d /\
      dev_page_to_host_page_mapping_ m !! Z.to_nat d = Some (Some p) /\
      dev_page_to_core_mapping_ m !! Z.to_nat d = Some (d / shard_size s) /\
      host_page_to_local_shard_page_mapping_ m !! Z.to_nat p = Some (d mod shard_size s)) /\
    (forall d p, 0 <= d < dev_pages s -> dev_page_to_host_page_mapping_ m !! Z.to_nat d = Some (Some p) ->
      0 <= p < num_pages b /\ host_page_to_dev_page_mapping_ m !! Z.to_nat p = Some d) /\
    Z.of_nat (length (dev_page_to_host_page_mapping_ m)) = dev_pages s.
Proof.
  destruct (generate_ok b s Hf) as (m & E & []). destruct (enumerate_cores (grid (tensor_shard_spec s)) ltac:(apply Hf)
    (bool_decide (orientation (tensor_shard_spec s) = ROW_MAJOR))) as (_ & _ & Hc).
  exists m. rewrite Hc. split_and!; [done|done| | |apply maps_dev_len].
  - intros p Hp. destruct (maps_to_dev p Hp) as (Hd & H1 & H2). exists (page_of b s p). split_and!; auto; try lia.
    by apply maps_to_host.
  - intros d p Hd H. apply maps_to_host in H as [Hp ->]; [|done]. split; [done|]. by apply maps_to_dev.
Qed.

Lemma page_mapping_bijective_witness :
  exists m, generate_buffer_page_mapping demo_blocks = Ok m /\ dev_pages demo_spec = 24 /\
    dev_page_to_host_page_mapping_ m !! 13%nat = Some (Some 11) /\ page_of demo_blocks demo_spec 11 = 13 /\
    dev_page_to_host_page_mapping_ m !! 15%nat = Some None.
Proof.
  destruct (page_mapping_bijective demo_blocks demo_spec demo_blocks_fit) as (m & E & _ & H & _).
  exists m. split; [exact E|]. split; [vm_compute; reflexivity|].
  destruct (H 11) as (d & -> & _ & _ & Hd & _); [vm_compute; split; congruence|].
  split; [exact Hd|]. split; [vm_compute; reflexivity|].
  vm_compute in E. injection E as <-. vm_compute. reflexivity.
Defined.

(** *** The mapping is kept while it holds *)

(** The member functions that change what the mapping depends on, and the one that
    computes it. *)
Inductive buffer_call := call_set_page_size (page_size : Z) | call_set_shard_spec (s : ShardSpecBuffer) | call_get_buffer_page_mapping.

Definition run_call (c : buffer_call) (b : Buffer) : Buffer :=
  match c with
  | call_set_page_size n => (set_page_size n b).1
  | call_set_shard_spec s => (set_shard_spec s b).1
  | call_get_buffer_page_mapping => (get_buffer_page_mapping b).1
  end.

Definition mapping_fresh (b : Buffer) : Prop := forall m, buffer_page_mapping_ b = Some m -> generate_buffer_page_mapping b = Ok m.

Local Ltac run_m := unfold mbind, M_bind, get, put, modify, lift, mret, M_ret, require, check; cbn.

Lemma get_mapping_cases b :
  get_buffer_page_mapping b =
  if is_sharded (buffer_layout_ b) then
    match buffer_page_mapping_ b with
    | Some m => (b, Ok m)
    | None => match generate_buffer_page_mapping b with Ok m => (set_mapping (Some m) b, Ok m) | Err e => (b, Err e) end
    end
  else (b, Err Fatal).
Proof.
  unfold get_buffer_page_mapping. run_m. destruct (is_sharded (buffer_layout_ b)); [|done].
  destruct (buffer_page_mapping_ b); [done|]. by destruct (generate_buffer_page_mapping b).
Qed.

Lemma mapping_fresh_step c b : mapping_fresh b -> mapping_fresh (run_call c b).
Proof.
  intros H. destruct c as [n|s|]; cbn [run_call].
  - unfold set_page_size. run_m. by destruct (n =? 0); case_match.
  - done.
  - rewrite get_mapping_cases. destruct (is_sharded (buffer_layout_ b)); [|done].
    destruct (buffer_page_mapping_ b) eqn:E; [done|].
    destruct (generate_buffer_page_mapping b) eqn:Eg; [|done]. by intros m [= <-].
Qed.

(** However often the page size and the shard specification of a buffer are changed
    and its mapping is asked for, whether the calls return or throw, the mapping a
    buffer keeps is the one it would compute: asking for it gives that of the
    parameters as they are. *)
Theorem kept_mapping_fresh b (calls : list buffer_call) (Hb : buffer_page_mapping_ b = None) :
  let b' := fold_left (fun b c => run_call c b) calls b in
  mapping_fresh b' /\
  (is_sharded (buffer_layout_ b') = true -> (get_buffer_page_mapping b').2 = generate_buffer_page_mapping b') /\
  (is_sharded (buffer_layout_ b') = false -> (get_buffer_page_mapping b').2 = Err Fatal).
Proof.
  intros b'. assert (mapping_fresh b') as H.
  { subst b'. assert (mapping_fresh b) as H by (intros m; congruence). clear Hb. revert b H.
    induction calls as [|c calls IH]; intros b H; [done|]. by apply IH, mapping_fresh_step. }
  split; [done|]. rewrite get_mapping_cases. split; intros ->; [|done].
  destruct (buffer_page_mapping_ b') as [m|] eqn:E; [by rewrite (H m)|]. by destruct (generate_buffer_page_mapping b').
Qed.

Lemma kept_mapping_fresh_witness :
  let b' := fold_left (fun b c => run_call c b) [call_get_buffer_page_mapping; call_set_shard_spec demo_rows_spec; call_set_page_size 7]
    (demo_sharded HEIGHT_SHARDED demo_spec 192) in
  page_size_ b' = 64 /\ exists m, (get_buffer_page_mapping b').2 = Ok m /\ length (dev_page_to_core_mapping_ m) = 4%nat.
Proof.
  intros b'. split; [vm_compute; reflexivity|].
  destruct (kept_mapping_fresh (demo_sharded HEIGHT_SHARDED demo_spec 192)
    [call_get_buffer_page_mapping; call_set_shard_spec demo_rows_spec; call_set_page_size 7] eq_refl) as (_ & H & _).
  fold b' in H. rewrite H by reflexivity. eexists. split; vm_compute; reflexivity.
Defined.

(** ** Writing and reading *)

(** C7: What is written to a buffer is what is read back.  For an interleaved, single
    bank or sharded buffer whose banks keep clear of each other, [WriteToBuffer] of an
    array of the buffer's size returns, changes no byte outside the buffer's pages, and
    whatever happens to the chip elsewhere, [ReadFromBuffer] returns that very array,
    also where shards are padded or cut at the edge of the tensor. *)
Theorem write_read_roundtrip dev a dram worker b place data width c h
  (Hl : laid_out dev a dram worker b place) (Ht : buffer_type_ b ∈ [DRAM; L1; L1_SMALL])
  (Hsz : size_ b = num_pages b * page_size_ b) (Hlen : Z.of_nat (length data) = size_ b)
  (Hw : 0 < width) (Hmod : size_ b mod width = 0) :
  exists s1, WriteToBuffer dev a dram worker data (mkStorage b c h) = (s1, Ok tt) /\
    (forall core x, elsewhere (page_size_ b) (num_pages b) place core x -> chip s1 core x = c core x) /\
    forall c' h',
      (forall p x, 0 <= p < num_pages b -> (place p).2 <= x < (place p).2 + page_size_ b ->
        c' (place p).1 x = chip s1 (place p).1 x) ->
      exists s2, ReadFromBuffer_vector dev a dram worker width false (mkStorage (buffer s1) c' h') = (s2, Ok tt) /\
        host_array s2 = data /\ chip s2 = c'.
Proof.
  destruct (write_all dev a dram worker b place data (mkStorage b c h) Hl Ht Hsz Hlen eq_refl)
    as (s1 & E & [m Hm] & _ & Hl1 & Hst & Hel).
  exists s1. split_and!; [done|done|]. intros c' h' Hc.
  assert (num_pages (buffer s1) = num_pages b /\ size_ (buffer s1) = size_ b /\ page_size_ (buffer s1) = page_size_ b /\
    buffer_type_ (buffer s1) = buffer_type_ b) as (En & Es & Ep & Et) by (rewrite Hm; done).
  pose proof (num_pages_range b). destruct (laid_out_apart _ _ _ _ _ _ Hl) as [Hps _].
  assert (page_size_ b < 2 ^ 32) as Hps' by (destruct Hl as [? ? ? ? [[] _]|? ? ? ? ? ? (_ & _ & [])]; pow2; lia).
  apply (read_all dev a dram worker (buffer s1) place data width); rewrite ?En, ?Es, ?Ep, ?Et; try done.
  - by intros E'; rewrite E' in Ht; set_unfold in Ht; naive_solver.
  - rewrite Hsz. change (2 ^ 64) with (2 ^ 32 * 2 ^ 32). apply Z.mul_lt_mono_nonneg; lia.
  - intros p Hp. rewrite <- (Hst p Hp). apply read_mem_ext. intros x Hx. apply Hc; [done|]. lia.
Qed.

Definition demo_worker (c : CoreCoord) : CoreCoord := mkCoord (cx c + 1) (cy c + 1).
Definition demo_dram (channel : Z) : CoreCoord := mkCoord 0 channel.

Lemma demo_rows_laid_out : exists place, laid_out demo_alloc demo_alloc demo_dram demo_worker demo_rows place.
Proof.
  eexists. apply (sharded_at _ _ _ _ demo_rows demo_rows_spec (fun c => if cx c =? 0 then 3 else 2)
    (fun k => if k =? 3 then mkCoord 1 1 else mkCoord 2 1) (fun _ => 0)).
  - apply demo_rows_fit.
  - done.
  - split_and!.
    + intros core H. assert (core = mkCoord 0 0 \/ core = mkCoord 1 0) as [-> | ->]; [|exists []; vm_compute; reflexivity..].
      vm_compute in H. set_unfold in H. naive_solver.
    + intros core core' H H'. vm_compute in H, H'. set_unfold in H. set_unfold in H'. naive_solver.
    + assert (forall k, (exists core, core ∈ enumerate_set (grid (tensor_shard_spec demo_rows_spec)) true /\
        k = (if cx core =? 0 then 3 else 2)) -> k = 3 \/ k = 2) as Hk by (intros k (core & _ & ->); case_match; auto).
      constructor.
      * split_and!; vm_compute; reflexivity.
      * split; vm_compute; congruence.
      * intros k [-> | ->]%Hk; vm_compute; reflexivity.
      * intros k [-> | ->]%Hk; vm_compute; reflexivity.
      * intros k _. split; vm_compute; congruence.
      * intros k k' [-> | ->]%Hk [-> | ->]%Hk Hne; by try (left; vm_compute; congruence).
  - vm_compute. reflexivity.
Qed.

Definition demo_data (n : Z) : list Z := map (fun i => i mod 251) (zrange 0 n).

Lemma write_read_roundtrip_witness :
  exists s1 s2, WriteToBuffer demo_alloc demo_alloc demo_dram demo_worker (demo_data 192) (mkStorage demo_rows (fun _ _ => 0) []) = (s1, Ok tt) /\
    chip s1 (mkCoord 2 1) 2048 = 128 /\
    ReadFromBuffer_vector demo_alloc demo_alloc demo_dram demo_worker 4 false s1 = (s2, Ok tt) /\ host_array s2 = demo_data 192.
Proof.
  destruct demo_rows_laid_out as [place Hl].
  destruct (write_read_roundtrip demo_alloc demo_alloc demo_dram demo_worker demo_rows place (demo_data 192) 4 (fun _ _ => 0) [] Hl)
    as (s1 & E & _ & H); [by right; left|vm_compute; reflexivity..|].
  destruct (H (chip s1) (host_array s1) ltac:(done)) as (s2 & E2 & Hd & _). exists s1, s2. split; [exact E|].
  split; [vm_compute in E; injection E as <-; vm_compute; reflexivity|]. split; [|exact Hd].
  destruct s1; exact E2.
Defined.

(** [WriteToBuffer] accepts an array that does not fill an interleaved buffer, and
    one of more than [2 ^ 31] bytes, and then reads outside the array.  All pages are
    written, whatever the length of the array: at the first page the array does not
    cover, or whose first byte the signed index of the loop cannot say, the copy is
    undefined, with the pages before it on the chip. *)
Theorem write_leaves_the_array dev a dram worker b nb core_of off_of data c h m
  (Hd : dealt_ok dev a dram worker b nb core_of off_of) (Hlay : buffer_layout_ b ∈ [INTERLEAVED; SINGLE_BANK])
  (Ht : buffer_type_ b ∈ [DRAM; L1; L1_SMALL]) (Hfit : Z.of_nat (length data) <= size_ b)
  (Hm : 0 <= m < num_pages b) (Hin : m * page_size_ b <= Z.of_nat (length data)) (H31 : (m - 1) * page_size_ b < 2 ^ 31)
  (H32 : m * page_size_ b < 2 ^ 32) (Hout : Z.of_nat (length data) < (m + 1) * page_size_ b \/ 2 ^ 31 <= m * page_size_ b) :
  exists s1, WriteToBuffer dev a dram worker data (mkStorage b c h) = (s1, Err Undefined) /\
    forall p, 0 <= p < m -> chip_read (chip s1) (dealt a b nb core_of off_of p).1 (dealt a b nb core_of off_of p).2 (page_size_ b) =
      page_at (page_size_ b) data p.
Proof.
  pose proof Hd as (Hba & _ & Hdev & Hnb & _). destruct (ba_page _ _ _ _ _ _ _ _ Hba) as (Hps & Hal & Hps').
  unfold WriteToBuffer. erewrite M_bind_ok by reflexivity. cbn [buffer]. rewrite to_writable by done.
  unfold WriteToDevice. erewrite M_bind_ok by reflexivity. cbn [buffer]. rewrite to_interleaved by done.
  unfold WriteToDeviceInterleavedContiguous. erewrite M_bind_ok by reflexivity. cbn [buffer].
  assert (u32 (Z.of_nat (length data)) <= size_ b) as Hle by (etrans; [apply Z.mod_le|]; lia).
  erewrite M_bind_ok by (apply require_true; by apply Z.leb_le).
  erewrite M_bind_ok by (unfold lift; by rewrite Hdev). rewrite u32_small by lia.
  destruct (write_run dev a dram worker b nb core_of off_of Hd data c 0 m (mkStorage b c h)) as (s1 & E & Hb & _ & Hst);
    [lia|lia|done|done|done|done|split; [lia|done]|].
  exists s1. split; [|apply Hst]. rewrite Z.mod_0_l in E by lia. change (data_index (page_size_ b) 0) with 0 in E. rewrite E.
  by apply (write_overrun dev a dram worker b nb core_of off_of).
Qed.

Lemma demo_dealt : dealt_ok demo_alloc demo_alloc demo_dram demo_worker demo_interleaved 4
  (fun k => if k <? 2 then mkCoord 3 1 else if k =? 2 then mkCoord 2 1 else mkCoord 1 1) (fun k => if k =? 1 then -4096 else 0).
Proof.
  assert (forall k, 0 <= k < 4 -> k = 0 \/ k = 1 \/ k = 2 \/ k = 3) as Hk by lia.
  split_and!; try (vm_compute; congruence). constructor.
  - split_and!; vm_compute; reflexivity.
  - split; vm_compute; congruence.
  - intros k [-> | [-> | [-> | ->]]]%Hk; vm_compute; reflexivity.
  - intros k [-> | [-> | [-> | ->]]]%Hk; vm_compute; reflexivity.
  - intros k [-> | [-> | [-> | ->]]]%Hk; split; vm_compute; congruence.
  - intros k k' [-> | [-> | [-> | ->]]]%Hk [-> | [-> | [-> | ->]]]%Hk Hne;
      first [done | left; vm_compute; congruence | right; left; vm_compute; congruence | right; right; vm_compute; congruence].
Qed.

Lemma write_leaves_the_array_witness :
  exists s1, WriteToBuffer demo_alloc demo_alloc demo_dram demo_worker (demo_data 200) (mkStorage demo_interleaved (fun _ _ => 0) []) =
    (s1, Err Undefined) /\ chip_read (chip s1) (mkCoord 3 1) 1024 64 = page_at 64 (demo_data 200) 1.
Proof.
  destruct (write_leaves_the_array demo_alloc demo_alloc demo_dram demo_worker demo_interleaved 4 _ _ (demo_data 200) (fun _ _ => 0) [] 3 demo_dealt)
    as (s1 & E & H); try (vm_compute; congruence); [by left|by right; left|split; vm_compute; congruence|left; vm_compute; reflexivity|].
  exists s1. split; [exact E|]. exact (H 1 ltac:(lia)).
Defined.

(** The array [ReadFromBuffer] resizes has the buffer's pages, but in shard order a page
    goes where it lies on the device, and the pages that pad a shard push the others
    past the end. *)
Example shard_order_overruns :
  let wide := demo_sharded WIDTH_SHARDED
    (mkShardSpecBuffer (ShardSpec_new [mkRange (mkCoord 0 0) (mkCoord 1 0)] (2, 2) ROW_MAJOR false PHYSICAL) (1, 1) (2, 3)) (6 * 64) in
  (ReadFromBuffer_vector demo_alloc demo_alloc demo_dram demo_worker 4 false (mkStorage wide (fun _ _ => 0) [])).2 = Ok tt /\
  (ReadFromBuffer_vector demo_alloc demo_alloc demo_dram demo_worker 4 true (mkStorage wide (fun _ _ => 0) [])).2 = Err Undefined.
Proof. split; vm_compute; reflexivity. Qed.
