(* ===== verification/WorkQueue.v ===== *)
(** * The worker thread of a device and its queue
    (tt_metal/impl/dispatch/{lock_free_queue.hpp,work_executor.hpp})

    A client thread hands functions to a worker thread through a ring of nodes that
    neither thread locks.  Each constructor of [client_pc] and [worker_pc] is a place
    between two accesses to what the threads share: the atomics [head] and [tail], the
    data of a node, and the state of the worker; [client_step] and [worker_step] make
    one access.  The atomics are sequentially consistent; that no node is accessed by
    both threads at once is a claim, and makes the interleaving of the accesses a sound
    reading of the program.

    One thread pushes at a time: in lock-free mode by the contract of the queue, in
    lock-based mode since [lock_func] is held from before the loop of [push] until the
    tail has been stored.  The condition variable only delays the worker's test. *)

From S2P Require Import Prelude.

Inductive WorkExecutorMode := SYNCHRONOUS | ASYNCHRONOUS.
Inductive WorkerState := RUNNING | TERMINATE | IDLE.

#[export] Instance WorkExecutorMode_eq_dec : EqDecision WorkExecutorMode.
Proof. solve_decision. Defined.
#[export] Instance WorkerState_eq_dec : EqDecision WorkerState.
Proof. solve_decision. Defined.

Definition ring_buffer_size : Z := 8192.

(** The node after a node: the last one points to the first. *)
Definition node_next (i : Z) : Z := if i <? ring_buffer_size - 1 then i + 1 else 0.

Section Executor.
(** The functions pushed; [flush] is the empty one [synchronize] pushes. *)
Context {T : Type} (flush : T).

(** What a call does after its push. *)
Inductive after := then_return | then_poll | then_synchronize.

Inductive client_pc :=
  | CIdle
  | CLoop (v : T) (a : after)
  | CLoopHead (v : T) (a : after) (next : Z)
  | CStore (v : T) (a : after)
  | CStoreAt (v : T) (a : after) (node : Z)
  | CAdvance (v : T) (a : after)
  | CAdvanceTo (v : T) (a : after) (next : Z)
  | CPoll
  | CPollTail (h : Z)
  | CJoin.

Inductive worker_pc :=
  | WWait
  | WWaitTail (h : Z)
  | WState
  | WEmpty
  | WEmptyTail (h : Z)
  | WPop
  | WPopTail (h : Z)
  | WAdvanceHead (h : Z)
  | WRead (h : Z)
  | WReset (h : Z) (result : option T)
  | WRun (result : option T)
  | WExit.

(** The queue and the executor, where the two threads are, and two logs: the functions
    the client has asked for and the ones that have run. *)
Record Executor := mkExecutor {
  ring_buffer : list (option T);
  head : Z;
  tail : Z;
  work_executor_mode : WorkExecutorMode;
  worker_state : WorkerState;
  client : client_pc;
  worker : worker_pc;
  issued : list T;
  executed : list T;
}.

Definition set_client (c : client_pc) (s : Executor) : Executor :=
  mkExecutor (ring_buffer s) (head s) (tail s) (work_executor_mode s) (worker_state s) c (worker s) (issued s) (executed s).
Definition set_worker (w : worker_pc) (s : Executor) : Executor :=
  mkExecutor (ring_buffer s) (head s) (tail s) (work_executor_mode s) (worker_state s) (client s) w (issued s) (executed s).
Definition set_node (i : Z) (v : option T) (s : Executor) : Executor :=
  mkExecutor (update (ring_buffer s) i v) (head s) (tail s) (work_executor_mode s) (worker_state s) (client s) (worker s)
    (issued s) (executed s).
Definition set_head (h : Z) (s : Executor) : Executor :=
  mkExecutor (ring_buffer s) h (tail s) (work_executor_mode s) (worker_state s) (client s) (worker s) (issued s) (executed s).
Definition set_tail (t : Z) (s : Executor) : Executor :=
  mkExecutor (ring_buffer s) (head s) t (work_executor_mode s) (worker_state s) (client s) (worker s) (issued s) (executed s).
Definition set_mode (m : WorkExecutorMode) (st : WorkerState) (s : Executor) : Executor :=
  mkExecutor (ring_buffer s) (head s) (tail s) m st (client s) (worker s) (issued s) (executed s).
Definition issue (v : T) (s : Executor) : Executor :=
  mkExecutor (ring_buffer s) (head s) (tail s) (work_executor_mode s) (worker_state s) (client s) (worker s) (issued s ++ [v]) (executed s).
Definition execute (v : T) (s : Executor) : Executor :=
  mkExecutor (ring_buffer s) (head s) (tail s) (work_executor_mode s) (worker_state s) (client s) (worker s) (issued s) (executed s ++ [v]).

(** [LockFreeQueue()] and [initialize] of an executor in synchronous mode. *)
Definition executor_new : Executor :=
  mkExecutor (replicate (Z.to_nat ring_buffer_size) None) 0 0 SYNCHRONOUS IDLE CIdle WExit [] [].

(** ** The client's calls *)

Inductive call := call_push_work (work : T) (blocking : bool) | call_synchronize | call_set_worker_mode (mode : WorkExecutorMode) | call_reset.

(** [by_worker]: the calling thread is the worker, in a function it runs.  What such a
    function pushes is run in place, as part of the function, and leaves the queue alone;
    the calls of the client below are made by another thread. *)
Definition use_passthrough (by_worker : bool) (s : Executor) : bool := by_worker || negb (bool_decide (worker_state s = RUNNING)).

Definition begin_push (v : T) (a : after) (s : Executor) : Executor := set_client (CLoop v a) (issue v s).

Definition push_work (by_worker : bool) (v : T) (blocking : bool) (s : Executor) : Executor :=
  if use_passthrough by_worker s then execute v (issue v s)
  else begin_push v (if blocking then then_synchronize else then_return) s.

Definition synchronize (by_worker : bool) (s : Executor) : Executor :=
  if bool_decide (work_executor_mode s = ASYNCHRONOUS) && negb by_worker then begin_push flush then_poll s else s.

Definition start_worker (s : Executor) : Executor := set_worker WWait (set_mode (work_executor_mode s) RUNNING s).

Definition stop_worker (s : Executor) : Executor :=
  if bool_decide (worker_state s = IDLE) then s else set_client CJoin (set_mode (work_executor_mode s) TERMINATE s).

(** The mode is set first, and the [synchronize] before [stop_worker] sees it. *)
Definition set_worker_mode (mode : WorkExecutorMode) (s : Executor) : Executor :=
  if bool_decide (work_executor_mode s = mode) then s
  else
    let s := set_mode mode (worker_state s) s in
    match mode with
    | ASYNCHRONOUS => start_worker s
    | SYNCHRONOUS => stop_worker (synchronize false s)
    end.

(** [reset] sets the mode when [stop_worker] has returned: see [client_step]. *)
Definition reset (s : Executor) : Executor :=
  if bool_decide (work_executor_mode s = ASYNCHRONOUS) then stop_worker s else s.

Definition begin_call (c : call) (s : Executor) : Executor :=
  match c with
  | call_push_work v blocking => push_work false v blocking s
  | call_synchronize => synchronize false s
  | call_set_worker_mode m => set_worker_mode m s
  | call_reset => reset s
  end.

(** One access of the client; none when it has no call to make progress with, or waits
    for the worker to end. *)
Definition client_step (s : Executor) : option Executor :=
  match client s with
  | CIdle => None
  | CLoop v a => Some (set_client (CLoopHead v a (node_next (tail s))) s)
  | CLoopHead v a next => Some (set_client (if next =? head s then CLoop v a else CStore v a) s)
  | CStore v a => Some (set_client (CStoreAt v a (tail s)) s)
  | CStoreAt v a node => Some (set_client (CAdvance v a) (set_node node (Some v) s))
  | CAdvance v a => Some (set_client (CAdvanceTo v a (node_next (tail s))) s)
  | CAdvanceTo v a next =>
      let s := set_client CIdle (set_tail next s) in
      Some match a with
           | then_return => s
           | then_poll => set_client CPoll s
           | then_synchronize => synchronize false s
           end
  | CPoll => Some (set_client (CPollTail (head s)) s)
  | CPollTail h => Some (set_client (if h =? tail s then CIdle else CPoll) s)
  | CJoin =>
      match worker s with
      | WExit => Some (set_client CIdle (set_mode SYNCHRONOUS IDLE s))
      | _ => None
      end
  end.

(** ** The worker *)

(** One access of [run_worker], or the run of a function; none when the thread has
    ended. *)
Definition worker_step (s : Executor) : option (res Executor) :=
  match worker s with
  | WWait => Some (Ok (set_worker (WWaitTail (head s)) s))
  | WWaitTail h =>
      Some (Ok (set_worker (if negb (h =? tail s) || bool_decide (worker_state s = TERMINATE) then WState else WWait) s))
  | WState => Some (Ok (set_worker (if bool_decide (worker_state s = TERMINATE) then WEmpty else WPop) s))
  | WEmpty => Some (Ok (set_worker (WEmptyTail (head s)) s))
  | WEmptyTail h => Some (Ok (set_worker (if h =? tail s then WExit else WPop) s))
  | WPop => Some (Ok (set_worker (WPopTail (head s)) s))
  | WPopTail h => Some (if h =? tail s then Err Undefined else Ok (set_worker (WAdvanceHead h) s))
  | WAdvanceHead h => Some (Ok (set_worker (WRead h) (set_head (node_next h) s)))
  | WRead h => Some (v ← at_ (ring_buffer s) h; Ok (set_worker (WReset h v) s))
  | WReset h r => Some (Ok (set_worker (WRun r) (set_node h None s)))
  | WRun r => Some (v ← opt_res Undefined r; Ok (set_worker WWait (execute v s)))
  | WExit => None
  end.

(** ** The two threads *)

Inductive thread_step : Executor -> Executor -> Prop :=
  | step_client s s' : client_step s = Some s' -> thread_step s s'
  | step_worker s s' : worker_step s = Some (Ok s') -> thread_step s s'.

Inductive step : Executor -> Executor -> Prop :=
  | step_call c s : client s = CIdle -> step s (begin_call c s)
  | step_thread s s' : thread_step s s' -> step s s'.

Definition reachable : Executor -> Prop := rtc step executor_new.
End Executor.
Arguments Executor T : clear implicits.
Arguments client_pc T : clear implicits.
Arguments worker_pc T : clear implicits.
