(* ===== verification/WorkQueueProps.v ===== *)
(** * The worker thread runs what it is given, once and in order: lemmas and claims *)

From Stdlib Require Import Lia.
From S2P Require Import Prelude WorkQueue.

Local Abbreviation N := ring_buffer_size.

Local Ltac nlia := unfold ring_buffer_size in *; lia.

Lemma node_next_mod c : node_next (c mod N) = (c + 1) mod N.
Proof.
  unfold node_next, N. pose proof (Z.mod_pos_bound c 8192 ltac:(done)). pose proof (Z.div_mod c 8192 ltac:(done)).
  destruct (Z.ltb_spec (c mod 8192) (8192 - 1)).
  - apply (Z.mod_unique _ _ (c / 8192)); lia.
  - apply (Z.mod_unique _ _ (c / 8192 + 1)); lia.
Qed.

(** Places less than a turn of the ring apart are the same node only if they are equal. *)
Lemma node_eq c d : c <= d < c + N -> c mod N = d mod N -> c = d.
Proof.
  unfold N. intros H E. pose proof (Z.div_mod c 8192 ltac:(done)). pose proof (Z.div_mod d 8192 ltac:(done)). lia.
Qed.

Section Executor.
Context {T : Type} (flush : T).

Local Abbreviation Ex := (Executor T).

(** The node the worker has taken is one behind the head until its function has run. *)
Definition taken (w : worker_pc T) : Z := match w with WRead _ | WReset _ _ | WRun _ => 1 | _ => 0 end.

(** The function of a push that has not been published. *)
Definition unpublished (c : client_pc T) : list T :=
  match c with CLoop v _ | CLoopHead v _ _ | CStore v _ | CStoreAt v _ _ | CAdvance v _ | CAdvanceTo v _ _ => [v] | _ => [] end.

(** The client has seen that there is room. *)
Definition has_room (c : client_pc T) : Z :=
  match c with CStore _ _ | CStoreAt _ _ _ | CAdvance _ _ | CAdvanceTo _ _ _ => 1 | _ => 0 end.

Definition client_ok (s : Ex) (hc tc : Z) (p : list T) : Prop :=
  match client s with
  | CIdle | CJoin => True
  | CLoop v a | CStore v a => a = then_poll -> v = flush
  | CLoopHead v a t => t = node_next (tail s) /\ (a = then_poll -> v = flush)
  | CStoreAt v a t => t = tail s /\ (a = then_poll -> v = flush)
  | CAdvance v a => ring_buffer s !! Z.to_nat (tail s) = Some (Some v) /\ (a = then_poll -> v = flush)
  | CAdvanceTo v a t => t = node_next (tail s) /\ ring_buffer s !! Z.to_nat (tail s) = Some (Some v) /\ (a = then_poll -> v = flush)
  | CPoll => last (issued s) = Some flush
  | CPollTail h => last (issued s) = Some flush /\ exists c, h = c mod N /\ c <= hc /\ tc <= c + N - 1
  end.

Definition worker_ok (s : Ex) (hc tc : Z) (p : list T) : Prop :=
  match worker s with
  | WWait => True
  | WWaitTail h => h = head s
  | WState => hc < tc \/ worker_state s = TERMINATE
  | WEmpty => worker_state s = TERMINATE
  | WEmptyTail h => h = head s /\ worker_state s = TERMINATE
  | WPop => hc < tc
  | WPopTail h | WAdvanceHead h => h = head s /\ hc < tc
  | WRead h => h = (hc - 1) mod N
  | WReset h r => h = (hc - 1) mod N /\ exists v p', r = Some v /\ p = v :: p'
  | WRun r => exists v p', r = Some v /\ p = v :: p'
  | WExit => p = [] /\ worker_state s <> RUNNING
  end.

(** Who is where in each state of the worker. *)
Definition state_ok (s : Ex) : Prop :=
  match worker_state s with
  | RUNNING => worker s <> WExit /\ client s <> CJoin /\ work_executor_mode s = ASYNCHRONOUS
  | TERMINATE => client s = CJoin
  | IDLE => worker s = WExit /\ client s = CIdle /\ work_executor_mode s = SYNCHRONOUS
  end.

(** [hc] and [tc] count the moves of the head and the tail; [p] is what waits between
    them, with the function at hand first. *)
Record inv (s : Ex) (hc tc : Z) (p : list T) : Prop := mkInv {
  inv_ring : length (ring_buffer s) = Z.to_nat N;
  inv_head : head s = hc mod N;
  inv_tail : tail s = tc mod N;
  inv_start : taken (worker s) <= hc;
  inv_pending : Z.of_nat (length p) = tc - hc + taken (worker s);
  inv_room : hc <= tc <= hc + N - 1 - has_room (client s);
  inv_log : issued s = executed s ++ p ++ unpublished (client s);
  inv_nodes : forall i v, p !! i = Some v -> (forall r, worker s = WRun r -> i <> O) ->
    ring_buffer s !! Z.to_nat ((hc - taken (worker s) + Z.of_nat i) mod N) = Some (Some v);
  inv_client : client_ok s hc tc p;
  inv_worker : worker_ok s hc tc p;
  inv_state : state_ok s;
}.

Lemma inv_new : inv executor_new 0 0 [].
Proof. constructor; cbn; try done; nlia. Qed.

(** *** The worker *)

(** A step of the worker that only moves it on. *)
Lemma inv_set_worker s hc tc p w :
  inv s hc tc p -> taken w = taken (worker s) -> (forall r, worker s = WRun r -> exists r', w = WRun r') ->
  worker_ok (set_worker w s) hc tc p -> state_ok (set_worker w s) -> inv (set_worker w s) hc tc p.
Proof.
  intros [] Ht Hr Hw Hs. constructor; cbn in *; rewrite ?Ht; auto.
  intros i v Hi Hne. apply inv_nodes0; [done|]. intros r E. by destruct (Hr r E) as [r' ->]; eapply Hne.
Qed.

(** What the steps of the worker preserve besides. *)
Definition same_work (s s' : Ex) (p p' : list T) : Prop :=
  client s' = client s /\ worker_state s' = worker_state s /\ issued s' = issued s /\ executed s' ++ p' = executed s ++ p.

Definition moves (w : worker_pc T) : bool :=
  match w with WAdvanceHead _ | WRead _ | WReset _ _ | WRun _ | WExit => false | _ => true end.

Lemma worker_moves s hc tc p :
  inv s hc tc p -> moves (worker s) = true -> exists w, worker_step s = Some (Ok (set_worker w s)) /\ inv (set_worker w s) hc tc p.
Proof.
  intros H Hm. pose proof H as [_ H2 H3 _ H5 H6 _ _ _ H10 H11]. unfold worker_ok in H10. unfold worker_step, state_ok in *.
  assert (forall h, h = head s -> (h =? tail s) = (hc =? tc)) as Hempty.
  { intros h ->. destruct (Z.eqb_spec (head s) (tail s)) as [E|E], (Z.eqb_spec hc tc) as [E'|E']; try done; [|congruence].
    exfalso. apply E', node_eq; [destruct (client s); cbn in H6; nlia|congruence]. }
  assert (forall w, moves w = true \/ (exists h, w = WAdvanceHead h) \/ w = WExit /\ worker_state s = TERMINATE ->
    worker_ok (set_worker w s) hc tc p -> inv (set_worker w s) hc tc p) as go.
  { intros w Hw Hok. apply inv_set_worker; [done| | |done|].
    - destruct Hw as [Hw|[[h ->]|[-> _]]]; destruct (worker s); try done; by destruct w.
    - intros r E. by rewrite E in Hm.
    - unfold state_ok. cbn. destruct (worker_state s); try done; [destruct H11 as (_ & ? & ?)|destruct H11 as (E & _); by rewrite E in Hm].
      split_and!; try done. by destruct Hw as [Hw|[[h ->]|[-> ?]]]; [intros ->| |]. }
  destruct (worker s) as [|h| | |h| |h|h|h|h r|r|] eqn:Ew; try done; eexists; (split; [|apply go; [|unfold worker_ok; cbn]]).
  - reflexivity.
  - by left.
  - done.
  - reflexivity.
  - left. by destruct (negb (h =? tail s) || _).
  - rewrite Hempty by done. destruct (Z.eqb_spec hc tc); cbn [negb orb]; [|left; lia].
    case_bool_decide; cbn; auto.
  - reflexivity.
  - left. by case_bool_decide.
  - case_bool_decide; [done|]. by destruct H10.
  - reflexivity.
  - by left.
  - done.
  - reflexivity.
  - destruct H10 as [-> Ht]. destruct (head s =? tail s); [by right; right|by left].
  - destruct H10 as [E Ht]. rewrite Hempty by done. destruct (Z.eqb_spec hc tc); [|lia].
    rewrite Ht. split; [|done]. apply nil_length_inv. cbn in H5. lia.
  - reflexivity.
  - by left.
  - done.
  - destruct H10 as [E Ht]. rewrite Hempty by done. by rewrite (proj2 (Z.eqb_neq hc tc)) by lia.
  - right. left. by eexists.
  - done.
Qed.

Lemma worker_takes s hc tc p h :
  inv s hc tc p -> worker s = WAdvanceHead h ->
  exists s', worker_step s = Some (Ok s') /\ inv s' (hc + 1) tc p /\ same_work s s' p p /\ worker s' = WRead h.
Proof.
  intros [] E. unfold worker_step, worker_ok, state_ok, client_ok in *. rewrite E in *. cbn [taken] in *. destruct inv_worker0 as [-> Hlt].
  eexists. split; [reflexivity|]. split; [|done]. constructor; cbn; try done; try lia.
  - by rewrite inv_head0, node_next_mod.
  - intros i v Hi _. replace (hc + 1 - 1 + Z.of_nat i) with (hc - 0 + Z.of_nat i) by lia. by apply inv_nodes0.
  - unfold client_ok in *. cbn. destruct (client s); try done. destruct inv_client0 as (? & c & ? & ? & ?). split; [done|]. exists c. split_and!; auto; lia.
  - unfold worker_ok. cbn. rewrite inv_head0. f_equal. lia.
  - unfold state_ok in *. cbn. destruct (worker_state s); [|done|]; naive_solver.
Qed.

(** The node taken holds the first function that waits. *)
Lemma taken_node s hc tc p :
  inv s hc tc p -> taken (worker s) = 1 -> (forall r, worker s <> WRun r) ->
  exists v p', p = v :: p' /\ ring_buffer s !! Z.to_nat ((hc - 1) mod N) = Some (Some v).
Proof.
  intros [] Ht Hr. destruct p as [|v p']; [cbn in inv_pending0; lia|]. exists v, p'. split; [done|].
  specialize (inv_nodes0 O v eq_refl). rewrite Ht, Z.add_0_r in inv_nodes0. apply inv_nodes0. by intros r E; destruct (Hr r).
Qed.

Lemma worker_reads s hc tc p h :
  inv s hc tc p -> worker s = WRead h ->
  exists s' v, worker_step s = Some (Ok s') /\ inv s' hc tc p /\ same_work s s' p p /\ worker s' = WReset h (Some v).
Proof.
  intros Hi E. destruct (taken_node s hc tc p Hi) as (v & p' & -> & Hv); [by rewrite E|by rewrite E|].
  pose proof Hi as []. unfold worker_ok in *. rewrite E in inv_worker0. unfold worker_step, at_. rewrite E, inv_worker0, Hv. cbn.
  eexists _, v. split; [reflexivity|]. split; [|done]. rewrite <- inv_worker0. apply inv_set_worker; [done|by rewrite E|by rewrite E| |].
  - split; [done|]. by exists v, p'.
  - unfold state_ok in *. cbn. destruct (worker_state s); rewrite E in *; naive_solver.
Qed.

Lemma worker_resets s hc tc p h r :
  inv s hc tc p -> worker s = WReset h r ->
  exists s', worker_step s = Some (Ok s') /\ inv s' hc tc p /\ same_work s s' p p /\ worker s' = WRun r.
Proof.
  intros [] E. unfold worker_step, worker_ok, state_ok, client_ok in *. rewrite E in *. cbn [taken] in *. destruct inv_worker0 as [-> Hp].
  assert (forall c, hc <= c < hc - 1 + N -> (hc - 1) mod N <> c mod N) as Hother
    by (intros c Hc Heq%node_eq; nlia).
  assert (forall c, hc <= c < hc - 1 + N -> forall x, update (ring_buffer s) ((hc - 1) mod N) x !! Z.to_nat (c mod N) = ring_buffer s !! Z.to_nat (c mod N)) as Hkeep.
  { intros c Hc x. unfold update. apply list_lookup_insert_ne. specialize (Hother c Hc).
    pose proof (Z.mod_pos_bound (hc - 1) N ltac:(done)). pose proof (Z.mod_pos_bound c N ltac:(done)). lia. }
  eexists. split; [reflexivity|]. split; [|done]. constructor; cbn; try done; try lia.
  - by rewrite length_update.
  - intros i v Hi Hne. assert (i <> O) by (by eapply Hne). pose proof (lookup_lt_Some _ _ _ Hi).
    rewrite Hkeep by (destruct (client s); cbn in inv_room0; nlia). by apply inv_nodes0.
  - unfold client_ok in *. cbn. destruct (client s) eqn:Ec; try done; cbn in inv_room0.
    + rewrite inv_tail0, Hkeep by nlia. by rewrite <- inv_tail0.
    + rewrite inv_tail0, Hkeep by nlia. by rewrite <- inv_tail0.
  - unfold state_ok in *. cbn. destruct (worker_state s); naive_solver.
Qed.

Lemma worker_runs s hc tc p r :
  inv s hc tc p -> worker s = WRun r ->
  exists v p', p = v :: p' /\ worker_step s = Some (Ok (set_worker WWait (execute v s))) /\
    inv (set_worker WWait (execute v s)) hc tc p' /\ same_work s (set_worker WWait (execute v s)) p p'.
Proof.
  intros [] E. unfold worker_step, worker_ok, state_ok, client_ok in *. rewrite E in *. cbn [taken] in *. destruct inv_worker0 as (v & p' & -> & ->).
  exists v, p'. split; [done|]. split; [done|]. split.
  2: { unfold same_work. cbn. by rewrite <- app_assoc. }
  constructor; cbn in *; try done; try lia.
  - by rewrite <- app_assoc.
  - intros i w Hi _. specialize (inv_nodes0 (S i) w Hi). rewrite <- inv_nodes0 by done. do 3 f_equal. lia.
  - unfold state_ok in *. cbn. destruct (worker_state s); naive_solver.
Qed.

(** Every step of the worker. *)
Lemma worker_ready s hc tc p :
  inv s hc tc p -> worker s <> WExit ->
  exists s' hc' p', worker_step s = Some (Ok s') /\ inv s' hc' tc p' /\ same_work s s' p p'.
Proof.
  intros H Hx. destruct (moves (worker s)) eqn:Em.
  - destruct (worker_moves s hc tc p H Em) as (w & E & Hi). by exists (set_worker w s), hc, p.
  - destruct (worker s) as [|h| | |h| |h|h|h|h r|r|] eqn:Ew; try done.
    + destruct (worker_takes s hc tc p h H Ew) as (s' & E & Hi & Hs & _). by exists s', (hc + 1), p.
    + destruct (worker_reads s hc tc p h H Ew) as (s' & v & E & Hi & Hs & _). by exists s', hc, p.
    + destruct (worker_resets s hc tc p h r H Ew) as (s' & E & Hi & Hs & _). by exists s', hc, p.
    + destruct (worker_runs s hc tc p r H Ew) as (v & p' & _ & E & Hi & Hs). by exists (set_worker WWait (execute v s)), hc, p'.
Qed.

(** *** The client *)

Lemma push_state s : state_ok s -> client s <> CIdle -> client s <> CJoin -> worker_state s = RUNNING.
Proof. unfold state_ok. destruct (worker_state s); naive_solver. Qed.

(** A step of the client that only moves it on. *)
Lemma inv_set_client s hc tc p c :
  inv s hc tc p -> has_room c <= has_room (client s) \/ tc <= hc + N - 2 -> unpublished c = unpublished (client s) ->
  c <> CJoin -> client s <> CIdle -> client s <> CJoin -> client_ok (set_client c s) hc tc p -> inv (set_client c s) hc tc p.
Proof.
  intros [] Hr Hu Hc Hi Hj Hok. pose proof (push_state s inv_state0 Hi Hj) as Hrun. constructor; cbn in *; rewrite ?Hu; auto.
  - destruct Hr; [lia|]. destruct c; cbn; lia.
  - unfold state_ok in *. cbn. by rewrite Hrun in *; naive_solver.
Qed.

(** Where the head was when the client looked: the queue is full, or there is room. *)
Lemma room_seen s hc tc p v a :
  inv s hc tc p -> client s = CLoopHead v a (node_next (tail s)) -> node_next (tail s) <> head s -> tc <= hc + N - 2.
Proof.
  intros [] Ec Hne. rewrite Ec in *. cbn in inv_room0. destruct (Z.eq_dec tc (hc + N - 1)) as [->|]; [|lia].
  exfalso. apply Hne. rewrite inv_tail0, node_next_mod, inv_head0. replace (hc + N - 1 + 1) with (hc + 1 * N) by lia.
  by rewrite Z.mod_add.
Qed.

(** The calls and accesses of the client add what they issue to what waits or runs. *)
Definition client_keeps (s s' : Ex) : Prop := exists hc tc p, inv s' hc tc p.

Lemma begin_push_ok s hc tc p v a :
  inv s hc tc p -> client s = CIdle -> worker_state s = RUNNING -> (a = then_poll -> v = flush) -> inv (begin_push v a s) hc tc p.
Proof.
  intros [] Ec Hrun Ha. rewrite Ec in *. constructor; cbn in *; auto.
  - by rewrite inv_log0, !app_nil_r, app_assoc.
  - unfold state_ok in *. cbn. rewrite Hrun in *. naive_solver.
Qed.

Lemma synchronize_ok s hc tc p : inv s hc tc p -> client s = CIdle -> inv (synchronize flush false s) hc tc p.
Proof.
  intros H Ec. unfold synchronize. case_bool_decide as Hm; [|done]. cbn [negb andb]. apply begin_push_ok; [done..| |done].
  pose proof (inv_state s hc tc p H) as Hs. unfold state_ok in Hs. destruct (worker_state s); naive_solver congruence.
Qed.

Lemma publish s hc tc p v a next :
  inv s hc tc p -> client s = CAdvanceTo v a next -> inv (set_client CIdle (set_tail next s)) hc (tc + 1) (p ++ [v]).
Proof.
  intros H Ec. pose proof (push_state s (inv_state _ _ _ _ H)) as Hrun. rewrite Ec in Hrun. specialize (Hrun ltac:(done) ltac:(done)).
  destruct H. unfold client_ok in inv_client0. rewrite Ec in *. cbn [has_room unpublished] in *. destruct inv_client0 as (-> & Hv & _).
  constructor; cbn; try done; try lia.
  - by rewrite inv_tail0, node_next_mod.
  - rewrite length_app. cbn. lia.
  - by rewrite inv_log0, app_nil_r.
  - intros i x Hi Hne. apply lookup_app_Some in Hi as [Hi|[Hle Hi]]; [by apply inv_nodes0|].
    apply list_lookup_singleton_Some in Hi as [Hi <-]. rewrite <- Hv, inv_tail0. do 3 f_equal. lia.
  - unfold worker_ok in *. cbn. destruct (worker s); try done; try (by naive_solver lia).
  - unfold state_ok in *. cbn. rewrite Hrun in *. naive_solver.
Qed.

Lemma client_ready s hc tc p s' :
  inv s hc tc p -> client_step flush s = Some s' -> exists tc' p', inv s' hc tc' p'.
Proof.
  intros H E. pose proof H as [_ H2 H3 _ _ H6 _ _ H9 _ H11]. unfold client_step in E. unfold client_ok in H9.
  destruct (client s) as [|v a|v a next|v a|v a node|v a|v a next| |h|] eqn:Ec; simplify_eq.
  - exists tc, p. apply inv_set_client; rewrite ?Ec; auto; [by left|by split].
  - destruct H9 as [-> Ha]. exists tc, p. destruct (Z.eqb_spec (node_next (tail s)) (head s)).
    + apply inv_set_client; rewrite ?Ec; auto. by left.
    + apply inv_set_client; rewrite ?Ec; auto. right. by eapply room_seen.
  - exists tc, p. apply inv_set_client; rewrite ?Ec; auto; [by left|]. by split.
  - destruct H9 as [-> Ha]. exists tc, p. pose proof (push_state s H11) as Hrun. rewrite Ec in Hrun. specialize (Hrun ltac:(done) ltac:(done)).
    destruct H. rewrite Ec in *. cbn [has_room unpublished] in *. constructor; cbn; try done.
    + by rewrite length_update.
    + intros i x Hi Hne. pose proof (lookup_lt_Some _ _ _ Hi). unfold update. rewrite list_lookup_insert_ne; [by apply inv_nodes0|].
      rewrite H3. intros Hn. pose proof (Z.mod_pos_bound tc N ltac:(done)).
      pose proof (Z.mod_pos_bound (hc - taken (worker s) + Z.of_nat i) N ltac:(done)).
      assert (hc - taken (worker s) + Z.of_nat i = tc); [apply node_eq; [destruct (worker s); cbn in *; nlia|lia]|lia].
    + split; [|done]. unfold update. apply list_lookup_insert_eq. rewrite inv_ring0, H3. pose proof (Z.mod_pos_bound tc N ltac:(done)). nlia.
    + unfold state_ok in *. cbn. rewrite Hrun in *. naive_solver.
  - destruct H9 as [Hv Ha]. exists tc, p. apply inv_set_client; rewrite ?Ec; auto; [by left|]. by split.
  - pose proof (publish s hc tc p v a next H Ec) as Hp. destruct H9 as (-> & Hv & Ha). exists (tc + 1), (p ++ [v]).
    pose proof (push_state s H11) as Hrun. rewrite Ec in Hrun. specialize (Hrun ltac:(done) ltac:(done)).
    destruct a; [done| |by apply synchronize_ok]. specialize (Ha eq_refl) as ->.
    destruct Hp. constructor; cbn in *; auto.
    + unfold client_ok. cbn. rewrite inv_log0, app_nil_r, app_assoc, last_snoc. done.
    + unfold state_ok in *. cbn in *. rewrite Hrun in *. naive_solver.
  - exists tc, p. apply inv_set_client; rewrite ?Ec; auto; [by left|]. split; [done|]. exists hc. cbn in H6. split_and!; [done|lia|lia].
  - exists tc, p. destruct (h =? tail s).
    + apply inv_set_client; rewrite ?Ec; auto; [by left|done].
    + apply inv_set_client; rewrite ?Ec; auto; [by left|]. apply H9.
  - destruct (worker s) eqn:Ew; simplify_eq. exists tc, p. destruct H. rewrite Ec, Ew in *. constructor; cbn in *; rewrite ?Ew; auto. unfold worker_ok in *. cbn in *. rewrite Ew in *. naive_solver.
Qed.

Lemma join_ok s hc tc p m :
  inv s hc tc p -> client s = CIdle -> worker_state s = RUNNING -> inv (set_client CJoin (set_mode m TERMINATE s)) hc tc p.
Proof.
  intros [] Ec Hr. rewrite Ec in *. constructor; cbn in *; auto; try done.
  unfold worker_ok, state_ok in *. cbn. rewrite Hr in *. destruct (worker s); try done; naive_solver.
Qed.

Lemma begin_call_ok s hc tc p c :
  inv s hc tc p -> client s = CIdle -> exists hc' tc' p', inv (begin_call flush c s) hc' tc' p'.
Proof.
  intros H Ec. pose proof (inv_state _ _ _ _ H) as Hs. unfold state_ok in Hs. destruct c as [v blocking| |m|]; cbn [begin_call].
  - unfold push_work, use_passthrough. case_bool_decide as Hr; cbn [negb orb].
    + exists hc, tc, p. apply begin_push_ok; [done..|]. by destruct blocking.
    + assert (worker_state s = IDLE) as Hi by (destruct (worker_state s); congruence). rewrite Hi in Hs. destruct Hs as (Hw & _ & Hm).
      exists hc, tc, p. destruct H. unfold worker_ok in inv_worker0. rewrite Hw, Ec in *. destruct inv_worker0 as [-> _].
      constructor; cbn in *; rewrite ?Hw, ?Ec; auto; try done.
      * cbn in inv_log0. by rewrite inv_log0, !app_nil_r.
      * unfold client_ok. cbn. by rewrite Ec.
      * unfold worker_ok. cbn. rewrite Hw. by split.
  - exists hc, tc, p. by apply synchronize_ok.
  - unfold set_worker_mode. case_bool_decide as Hm; [by exists hc, tc, p|]. destruct m.
    + unfold synchronize. rewrite bool_decide_false by done. unfold stop_worker. case_bool_decide as Hi.
      { cbn in Hi. rewrite Hi in Hs. naive_solver. }
      assert (worker_state s = RUNNING) as Hr by (cbn in Hi; destruct (worker_state s); congruence). rewrite Hr in Hs.
      exists hc, tc, p. exact (join_ok s hc tc p SYNCHRONOUS H Ec Hr).
    + assert (worker_state s = IDLE) as Hi by (destruct (worker_state s); naive_solver congruence). rewrite Hi in Hs. destruct Hs as (Hw & _ & _).
      exists hc, tc, p. unfold start_worker. destruct H. unfold worker_ok in inv_worker0. rewrite Hw, Ec in *. destruct inv_worker0 as [-> _].
      constructor; cbn in *; rewrite ?Ec; auto; try done.
  - unfold reset. case_bool_decide as Hm; [|by exists hc, tc, p].
    assert (worker_state s = RUNNING) as Hr by (destruct (worker_state s); naive_solver congruence).
    unfold stop_worker. rewrite Hr. cbn. exists hc, tc, p. exact (join_ok s hc tc p _ H Ec Hr).
Qed.

Lemma thread_inv s s' hc tc p : inv s hc tc p -> thread_step flush s s' -> exists hc' tc' p', inv s' hc' tc' p'.
Proof.
  intros H Hs. inversion Hs as [? ? E|? ? E]; subst; [destruct (client_ready _ _ _ _ _ H E) as (? & ? & ?); eauto|].
  destruct (worker_ready _ _ _ _ H) as (s1 & hc' & p' & E1 & H1 & _); [by intros Ew; unfold worker_step in E; rewrite Ew in E|].
  rewrite E in E1. injection E1 as <-. eauto.
Qed.

Lemma reachable_inv s : reachable flush s -> exists hc tc p, inv s hc tc p.
Proof.
  unfold reachable. revert s. apply (rtc_ind_r (fun s => exists hc tc p, inv s hc tc p)).
  - exists 0, 0, []. apply inv_new.
  - intros s s' _ H (hc & tc & p & Hi). destruct H as [c s Ec|s s' H]; [by eapply begin_call_ok|by eapply thread_inv].
Qed.

(** *** Progress *)

Local Abbreviation runs := (rtc (thread_step flush)).

(** The accesses the worker has before it runs a function. *)
Definition worker_rank (w : worker_pc T) : nat :=
  match w with
  | WWait => 10 | WWaitTail _ => 9 | WState => 8 | WEmpty => 7 | WEmptyTail _ => 6 | WPop => 5 | WPopTail _ => 4
  | WAdvanceHead _ => 3 | WRead _ => 2 | WReset _ _ => 1 | WRun _ => 0 | WExit => 0
  end%nat.

Lemma worker_rank_step s hc tc p w :
  inv s hc tc p -> moves (worker s) = true -> hc < tc \/ worker_state s = TERMINATE ->
  worker_step s = Some (Ok (set_worker w s)) -> (worker_rank w < worker_rank (worker s))%nat.
Proof.
  intros H Hm Hw E. pose proof H as [_ H2 H3 _ _ H6 _ _ _ H10 _]. unfold worker_step, worker_ok in *.
  assert (hc < tc -> head s <> tail s) as Hne.
  { intros Hlt Heq. rewrite H2, H3 in Heq. apply node_eq in Heq; [lia|]. destruct (client s); cbn in H6; nlia. }
  assert (forall w', Some (Ok (set_worker w' s)) = Some (Ok (set_worker w s)) -> w' = w) as Hinj by (intros w' [= ->]; done).
  destruct (worker s) as [|h| | |h| |h|h|h|h r|r|] eqn:Ew; try done.
  - apply Hinj in E as <-. cbn. lia.
  - apply Hinj in E as <-. subst h. destruct Hw as [Hlt|Ht].
    + specialize (Hne Hlt). apply Z.eqb_neq in Hne as ->. cbn. lia.
    + rewrite bool_decide_true, orb_true_r by done. cbn. lia.
  - apply Hinj in E as <-. case_bool_decide; cbn; lia.
  - apply Hinj in E as <-. cbn. lia.
  - apply Hinj in E as <-. destruct (h =? tail s); cbn; lia.
  - apply Hinj in E as <-. cbn. lia.
  - destruct (h =? tail s); [done|]. apply Hinj in E as <-. cbn. lia.
Qed.

(** The worker alone: it runs what waits, and ends when it is told to. *)
Lemma worker_drains s hc tc p :
  inv s hc tc p -> exists s' hc', runs s s' /\ inv s' hc' tc [] /\ client s' = client s /\
    (worker_state s = TERMINATE -> worker s' = WExit).
Proof.
  remember (11 * length p + worker_rank (worker s))%nat as k eqn:Hk. revert s hc p Hk.
  induction k as [k IH] using (well_founded_induction lt_wf). intros s hc p Hk H.
  assert (worker s = WExit \/ worker s <> WExit) as [Ex|Ex] by (destruct (worker s); by (left + right)).
  { pose proof (inv_worker _ _ _ _ H) as Hw. unfold worker_ok in Hw. rewrite Ex in Hw. destruct Hw as [-> _]. by exists s, hc. }
  assert (forall s' hc' p', worker_step s = Some (Ok s') -> inv s' hc' tc p' -> client s' = client s -> worker_state s' = worker_state s ->
    (11 * length p' + worker_rank (worker s') < k)%nat -> exists s'' hc'', runs s s'' /\ inv s'' hc'' tc [] /\ client s'' = client s /\
    (worker_state s = TERMINATE -> worker s'' = WExit)) as go.
  { intros s' hc' p' E Hi Hc Hs Hlt. destruct (IH _ Hlt s' hc' p' eq_refl Hi) as (s2 & hc2 & R & I & C & W).
    exists s2, hc2. split_and!; [|done|congruence|by rewrite <- Hs]. eapply rtc_l; [by apply step_worker|done]. }
  destruct (moves (worker s)) eqn:Em.
  - destruct (worker_moves s hc tc p H Em) as (w & E & Hi).
    destruct (decide (hc < tc \/ worker_state s = TERMINATE)) as [Hw|Hw].
    + pose proof (worker_rank_step s hc tc p w H Em Hw E). eapply (go _ hc p E Hi); [done|done|cbn; lia].
    + exists s, hc. destruct H. assert (taken (worker s) = 0) as Ht by (by destruct (worker s)).
      assert (p = []) as -> by (apply nil_length_inv; lia). split_and!; [reflexivity|by constructor|done|by intros ?; destruct Hw; right].
  - destruct (worker s) as [|h| | |h| |h|h|h|h r|r|] eqn:Ew; try done.
    + destruct (worker_takes s hc tc p h H Ew) as (s' & E & Hi & (Hc & Hs & _) & Hw). eapply (go _ _ _ E Hi); auto. rewrite Hw. cbn in *. lia.
    + destruct (worker_reads s hc tc p h H Ew) as (s' & v & E & Hi & (Hc & Hs & _) & Hw). eapply (go _ _ _ E Hi); auto. rewrite Hw. cbn in *. lia.
    + destruct (worker_resets s hc tc p h r H Ew) as (s' & E & Hi & (Hc & Hs & _) & Hw). eapply (go _ _ _ E Hi); auto. rewrite Hw. cbn in *. lia.
    + destruct (worker_runs s hc tc p r H Ew) as (v & p' & -> & E & Hi & (Hc & Hs & _)). eapply (go _ _ _ E Hi); auto. cbn in *. lia.
Qed.

(** The accesses the client has left when nothing waits in the queue. *)
Definition after_rank (a : after) : nat := match a with then_return => 0 | then_poll => 3 | then_synchronize => 20 end.

Definition client_rank (s : Ex) : nat :=
  match client s with
  | CIdle => 0 | CLoop _ a => 6 + after_rank a | CLoopHead _ a _ => 5 + after_rank a | CStore _ a => 4 + after_rank a
  | CStoreAt _ a _ => 3 + after_rank a | CAdvance _ a => 2 + after_rank a | CAdvanceTo _ a _ => 1 + after_rank a
  | CPoll => 2 | CPollTail h => if (h =? tail s)%Z then 1 else 3 | CJoin => 1
  end%nat.

Lemma client_rank_step s hc tc :
  inv s hc tc [] -> (client s = CJoin -> worker s = WExit) -> client s <> CIdle ->
  exists s', client_step flush s = Some s' /\ (client_rank s' < client_rank s)%nat.
Proof.
  intros [] Hj Hi. cbn in inv_pending0. assert (hc = tc) as -> by (destruct (worker s); cbn in *; lia).
  unfold client_step, client_ok, client_rank in *. destruct (client s) as [|v a|v a next|v a|v a node|v a|v a next| |h|] eqn:Ec; try done.
  - eexists. split; [reflexivity|cbn; lia].
  - destruct inv_client0 as [-> _]. rewrite (proj2 (Z.eqb_neq _ _)).
    + eexists. split; [reflexivity|cbn; lia].
    + rewrite inv_head0, inv_tail0, node_next_mod. intros E. symmetry in E. apply node_eq in E; nlia.
  - eexists. split; [reflexivity|cbn; lia].
  - eexists. split; [reflexivity|cbn; lia].
  - eexists. split; [reflexivity|cbn; lia].
  - eexists. split; [reflexivity|]. destruct a; cbn; try lia. unfold synchronize. case_bool_decide; cbn; lia.
  - eexists. split; [reflexivity|]. cbn. rewrite inv_head0, inv_tail0, Z.eqb_refl. lia.
  - eexists. split; [reflexivity|]. destruct (h =? tail s); cbn; lia.
  - rewrite Hj by done. eexists. split; [reflexivity|cbn; lia].
Qed.

Lemma call_returns s hc tc p :
  inv s hc tc p -> exists s', runs s s' /\ client s' = CIdle /\ executed s' = issued s'.
Proof.
  remember (client_rank s) as k eqn:Hk. revert s hc tc p Hk.
  induction k as [k IH] using (well_founded_induction lt_wf). intros s hc tc p Hk H.
  destruct (worker_drains s hc tc p H) as (s1 & hc1 & R1 & H1 & C1 & W1).
  assert (client s1 = CIdle \/ client s1 <> CIdle) as [Ec|Ec] by (destruct (client s1); by (left + right)).
  { exists s1. split_and!; [done|done|]. rewrite (inv_log _ _ _ _ H1), Ec. by rewrite !app_nil_r. }
  destruct (client_rank_step s1 hc1 tc H1) as (s2 & E & Hlt); [|done|].
  { intros Hj. apply W1. pose proof (inv_state _ _ _ _ H) as Hs. unfold state_ok in Hs. rewrite C1 in Hj.
    destruct (worker_state s); naive_solver congruence. }
  assert (client_rank s1 = client_rank s) as Hr.
  { unfold client_rank. rewrite C1. rewrite (inv_tail _ _ _ _ H1), (inv_tail _ _ _ _ H). done. }
  destruct (client_ready s1 hc1 tc [] s2 H1 E) as (tc2 & p2 & H2).
  destruct (IH (client_rank s2) ltac:(lia) s2 hc1 tc2 p2 eq_refl H2) as (s3 & R3 & C3 & X3).
  exists s3. split; [|done]. etrans; [exact R1|]. eapply rtc_l; [by apply step_client|done].
Qed.

(** *** Schedules *)

Inductive actor := do_call (c : call (T := T)) | do_client | do_worker.

Definition act (x : actor) (s : Ex) : option Ex :=
  match x with
  | do_call c => match client s with CIdle => Some (begin_call flush c s) | _ => None end
  | do_client => client_step flush s
  | do_worker => match worker_step s with Some (Ok s') => Some s' | _ => None end
  end.

Definition schedule (l : list actor) : option Ex := foldl (fun o x => o ≫= act x) (Some executor_new) l.

Lemma schedule_reachable l s : schedule l = Some s -> reachable flush s.
Proof.
  unfold schedule, reachable. revert s. induction l as [|x l IH] using rev_ind; intros s; [by intros [= <-]|].
  rewrite foldl_snoc. destruct (foldl _ _ l) as [s1|]; [|done]. cbn. intros E. eapply rtc_r; [by apply IH|].
  destruct x as [c| |]; cbn in E.
  - destruct (client s1) eqn:Ec; try done. injection E as <-. by apply step_call.
  - by apply step_thread, step_client.
  - destruct (worker_step s1) as [[s2|]|] eqn:Ew; try done. injection E as <-. by apply step_thread, step_worker.
Qed.

(** ** Claims *)

(** C17: The worker runs every function it is handed once and in the order the client
    pushed them, through turns of the ring, modes and restarts: at any time what has run
    is a beginning of what has been issued, and no access of the worker fails: it never
    pops from an empty queue and never finds a node without a function. *)
Theorem work_runs_once_in_order s :
  reachable flush s -> (exists rest, issued s = executed s ++ rest) /\ forall e, worker_step s <> Some (Err e).
Proof.
  intros (hc & tc & p & H)%reachable_inv. split; [by eexists; apply (inv_log _ _ _ _ H)|]. intros e E.
  destruct (worker_ready s hc tc p H) as (s' & hc' & p' & E' & _); [|congruence]. intros Ew. unfold worker_step in E. by rewrite Ew in E.
Qed.

(** No node is accessed by both threads at once: while the client is about to store
    a function in a node, the worker is not about to read or to clear that node. *)
Theorem nodes_not_shared s v a node node' r :
  reachable flush s -> client s = CStoreAt v a node -> worker s = WRead node' \/ worker s = WReset node' r -> node <> node'.
Proof.
  intros (hc & tc & p & [])%reachable_inv Ec Ew ->. unfold client_ok in inv_client0. rewrite Ec in inv_client0, inv_room0. cbn in inv_room0.
  destruct inv_client0 as [-> _].
  assert (tail s = (hc - 1) mod N) as E by (unfold worker_ok in inv_worker0; destruct Ew as [Ew|Ew]; rewrite Ew in inv_worker0; naive_solver).
  rewrite inv_tail0 in E. symmetry in E. apply node_eq in E; nlia.
Qed.

(** C18: [synchronize] and [stop_worker] are barriers.  When the client's test finds the
    queue empty after its flush, everything issued before the flush has run; when it has
    joined the worker, everything issued has run. *)
Theorem barriers_wait s s' :
  reachable flush s -> client_step flush s = Some s' -> client s' = CIdle ->
  (forall h, client s = CPollTail h -> issued s' = executed s' \/ issued s' = executed s' ++ [flush]) /\
  (client s = CJoin -> issued s' = executed s' /\ worker_state s' = IDLE).
Proof.
  intros (hc & tc & p & H)%reachable_inv E Ei. pose proof H as []. unfold client_step, client_ok in *. split.
  - intros h Ec. rewrite Ec in *. injection E as <-. destruct inv_client0 as (Hl & c & -> & Hc1 & Hc2).
    cbn in Ei. destruct (Z.eqb_spec (c mod N) (tail s)) as [Et|Et]; [|done]. rewrite inv_tail0 in Et. cbn in *.
    apply node_eq in Et; [|nlia]. assert (hc = tc) as -> by lia. rewrite inv_log0, app_nil_r in *.
    destruct p as [|x [|y p]]; cbn in inv_pending0; [left; by rewrite app_nil_r| |destruct (worker s); cbn in *; lia].
    right. rewrite last_snoc in Hl. by injection Hl as ->.
  - intros Ec. rewrite Ec in *. destruct (worker s) eqn:Ew; try done. injection E as <-. cbn in *. unfold worker_ok in inv_worker0. rewrite Ew in inv_worker0.
    destruct inv_worker0 as [-> _]. by rewrite inv_log0, !app_nil_r.
Qed.

(** No call blocks for ever: from every state the two threads can reach, they can go
    on, without another call, to a state where the call has returned and all that was
    issued has run. *)
Theorem calls_return s :
  reachable flush s -> exists s', rtc (thread_step flush) s s' /\ client s' = CIdle /\ executed s' = issued s'.
Proof. intros (hc & tc & p & H)%reachable_inv. by eapply call_returns. Qed.
End Executor.

(** ** Schedules of a client that pushes numbers, with 0 for the empty function *)

Definition started : list (actor (T := nat)) := [do_call (call_set_worker_mode ASYNCHRONOUS)].
Definition pushed (v : nat) : list (actor (T := nat)) := do_call (call_push_work v false) :: replicate 6 do_client.

Lemma work_runs_once_in_order_witness :
  exists s, schedule 0%nat (started ++ pushed 5 ++ pushed 6 ++ replicate 9 do_worker) = Some s /\ executed s = [5%nat] /\
    (exists rest, issued s = executed s ++ rest) /\ forall e, worker_step s <> Some (Err e).
Proof.
  destruct (schedule 0%nat (started ++ pushed 5 ++ pushed 6 ++ replicate 9 do_worker)) as [s|] eqn:E; [|exfalso; revert E; vm_compute; congruence].
  exists s. split; [reflexivity|]. split; [|apply (work_runs_once_in_order 0%nat s); eapply schedule_reachable; exact E].
  transitivity (default [] (executed <$> schedule 0%nat (started ++ pushed 5 ++ pushed 6 ++ replicate 9 do_worker))).
  - rewrite E. reflexivity.
  - vm_compute. reflexivity.
Defined.

Lemma nodes_not_shared_witness :
  exists s, schedule 0%nat (started ++ pushed 5 ++ replicate 6 do_worker ++ do_call (call_push_work 6%nat false) :: replicate 3 do_client) = Some s /\
    client s = CStoreAt 6%nat then_return 1 /\ worker s = WRead 0 /\ 1 <> 0.
Proof.
  destruct (schedule 0%nat (started ++ pushed 5 ++ replicate 6 do_worker ++ do_call (call_push_work 6%nat false) :: replicate 3 do_client))
    as [s|] eqn:E; [|exfalso; revert E; vm_compute; congruence].
  assert (client s = CStoreAt 6%nat then_return 1 /\ worker s = WRead 0) as [Hc Hw] by (vm_compute in E; injection E as <-; by split).
  exists s. split; [reflexivity|]. split; [exact Hc|]. split; [exact Hw|].
  eapply (nodes_not_shared 0%nat s 6%nat then_return 1 0 None); [eapply schedule_reachable; exact E|exact Hc|left; exact Hw].
Defined.

Lemma barriers_wait_witness :
  exists s s', schedule 0%nat (started ++ pushed 5 ++ do_call call_synchronize :: replicate 6 do_client ++ replicate 16 do_worker ++ [do_client]) = Some s /\
    client_step 0%nat s = Some s' /\ (issued s' = executed s' \/ issued s' = executed s' ++ [0%nat]) /\ executed s' = [5%nat].
Proof.
  destruct (schedule 0%nat (started ++ pushed 5 ++ do_call call_synchronize :: replicate 6 do_client ++ replicate 16 do_worker ++ [do_client]))
    as [s|] eqn:E; [|exfalso; revert E; vm_compute; congruence].
  destruct (client_step 0%nat s) as [s'|] eqn:E'; [|exfalso; vm_compute in E; injection E as <-; vm_compute in E'; congruence].
  exists s, s'. split; [reflexivity|]. split; [exact E'|].
  assert (client s = CPollTail 2 /\ client s' = CIdle /\ executed s' = [5%nat]) as (Hc & Hc' & Hx).
  { vm_compute in E. injection E as <-. vm_compute in E'. injection E' as <-. repeat split. }
  split; [|exact Hx]. destruct (barriers_wait 0%nat s s') as [H _]; [eapply schedule_reachable; exact E|exact E'|exact Hc'|].
  exact (H 2 Hc).
Defined.

Lemma calls_return_witness :
  exists s s', schedule 0%nat (started ++ pushed 5 ++ [do_call (call_push_work 6%nat true)]) = Some s /\ rtc (thread_step 0%nat) s s' /\
    client s' = CIdle /\ executed s' = issued s'.
Proof.
  destruct (schedule 0%nat (started ++ pushed 5 ++ [do_call (call_push_work 6%nat true)])) as [s|] eqn:E; [|exfalso; revert E; vm_compute; congruence].
  destruct (calls_return 0%nat s) as (s' & H); [eapply schedule_reachable; exact E|]. exists s, s'. split; [reflexivity|exact H].
Defined.
