(* ===== verification/AllocatorLive.v ===== *)
(** * The ranges an allocator has given out

    [serves a m] says that each manager of the allocator holds the memory map [m] gives
    for its type; allocation and deallocation of a buffer are described by what they do
    to the allocated ranges of [m], on every path. *)

From Stdlib Require Import Lia.
From S2P Require Import Prelude CoreCoord FreeList FreeListSpec FreeListTheorems WorkSplit Allocator AllocatorProps.

(** What [init] makes of a bank without space (that of a region that is not configured):
    one block of size zero. *)
Definition no_room (f : FreeList) : Prop :=
  config_ok f /\ max_size_bytes f = 0 /\ heap f = {[0%nat := mkBlock 0 0 None None None None]} /\ next_id f = 1%nat /\
  free_block_head f = Some 0%nat /\ free_block_tail f = Some 0%nat.

(** A free list and the map of its bank; the alignment is not absurdly large. *)
Definition region (f : FreeList) (m : list range) : Prop :=
  alignment f <= 2 ^ 63 /\ (holds f m \/ no_room f /\ m = []).

(** Each manager of the allocator has its map. *)
Definition serves (a : Allocator) (m : BufferType -> list range) : Prop :=
  forall t bm, manager_of t a = Ok bm -> exists f, allocator_ bm = Some f /\ region f (m t).

Lemma region_allocated f m y z : region f m -> (y, z, true) ∈ m -> holds f m /\ alignment f <= 2 ^ 63.
Proof. intros [Ha [Hh|[_ ->]]] Hy; [done|by apply elem_of_nil in Hy]. Qed.

Lemma no_room_new offset min_alloc al policy :
  0 <= offset < 2 ^ 64 -> 0 < al -> 0 < min_alloc <= 2 ^ 64 - al -> offset mod al = 0 ->
  exists f, FreeList_new 0 offset min_alloc al policy = (f, Ok tt) /\ no_room f /\ alignment f = al.
Proof.
  intros H1 H2 H3 H4. unfold FreeList_new. rewrite H4, Z.eqb_refl. erewrite M_bind_ok by reflexivity.
  eexists. split; [reflexivity|]. split; [|done]. split_and!; try done. constructor; cbn; lia.
Qed.

(** Nothing fits. *)
Lemma no_room_allocate f size bu limit :
  no_room f -> 0 <= size -> size + alignment f <= 2 ^ 64 -> allocate size bu limit f = (f, Ok None).
Proof.
  intros (Hc & _ & Hheap & Hnext & Hhead & Htail) H0 H1. destruct (alloc_size_ok f size Hc H0 H1) as (_ & [Hpos _] & _).
  unfold allocate. erewrite M_bind_ok by reflexivity. cbv zeta. rewrite (M_bind_ok _ _ f f None); [done|].
  set (sz := alloc_size_of f size) in *. assert ((sz <=? 0) = false) as E by lia. assert ((0 =? sz) = false) as E' by lia.
  assert (forall A (k : Block -> F A), (b ← deref (Some 0%nat); k b) f = k (mkBlock 0 0 None None None None) f) as Hd.
  { intros A k. apply M_bind_ok. unfold deref. by rewrite Hheap, lookup_singleton_eq. }
  unfold search, search_best, search_first, walk_fuel, gets. erewrite M_bind_ok by reflexivity.
  destruct (search_policy f); erewrite M_bind_ok by reflexivity; erewrite M_bind_ok by reflexivity; rewrite Hnext, Hhead, Htail;
    destruct bu; cbn [search_best_go search_first_go]; rewrite Hd; cbn [FreeList.size]; rewrite ?E, ?E'; reflexivity.
Qed.

Definition offset_of (a : Allocator) (t : BufferType) : Z :=
  match manager_of t a with
  | Ok bm => match allocator_ bm with Some f => offset_bytes f | None => 0 end
  | Err _ => 0
  end.

(** The banks of a type and their alignment. *)
Definition banks_of (a : Allocator) (t : BufferType) : Z * Z :=
  match manager_of t a with Ok bm => (BankManager_num_banks bm, alignment_bytes_ bm) | Err _ => (0, 0) end.

(** A buffer's share of each bank. *)
Definition share_of (a : Allocator) (i : BufferInfo) (per : Z) : Prop :=
  SizeBytesPerBank (aligned_size i) (aligned_page_size i) (default (banks_of a (buffer_type i)).1 (buffer_num_cores i))
    (banks_of a (buffer_type i)).2 = Ok per.

(** The share is not so large that rounding it overflows. *)
Definition small_request (a : Allocator) (i : BufferInfo) : Prop := forall per, share_of a i per -> per <= 2 ^ 63.

Lemma manager_of_set t t' bm a :
  t <> SYSTEM_MEMORY -> manager_of t' (set_manager t bm a) = if decide (t' = t) then Ok bm else manager_of t' a.
Proof. by destruct t, t'. Qed.

Lemma manager_of_live t s a : manager_of t (set_live s a) = manager_of t a.
Proof. by destruct t. Qed.

Lemma manager_exists t a : t <> SYSTEM_MEMORY -> exists bm, manager_of t a = Ok bm.
Proof. destruct t; try done; intros _; by eexists. Qed.

Lemma serves_update a m t bm f m' s :
  serves a m -> t <> SYSTEM_MEMORY -> allocator_ bm = Some f -> region f m' ->
  serves (set_live s (set_manager t bm a)) (fun t' => if decide (t' = t) then m' else m t').
Proof.
  intros H Ht Hf Hm t' bm'. rewrite manager_of_live, manager_of_set by done. case_decide as E; [|apply H].
  intros [= <-]. by exists f.
Qed.

(** What no operation on buffers changes. *)
Definition keeps_offsets (a a' : Allocator) : Prop :=
  config_ a' = config_ a /\ forall t, offset_of a' t = offset_of a t /\ banks_of a' t = banks_of a t.

(** A manager is put back with another free list. *)
Lemma keeps_update a t b0 f bm f' s :
  manager_of t a = Ok b0 -> allocator_ b0 = Some f -> allocator_ bm = Some f' -> offset_bytes f' = offset_bytes f ->
  BankManager_num_banks bm = BankManager_num_banks b0 -> alignment_bytes_ bm = alignment_bytes_ b0 ->
  keeps_offsets a (set_live s (set_manager t bm a)) /\ keeps_offsets a (set_manager t bm a).
Proof.
  intros H0 Hf0 Hf Ho Hn Hal. assert (t <> SYSTEM_MEMORY) as Ht by (by intros ->).
  assert (forall t', offset_of (set_manager t bm a) t' = offset_of a t' /\ banks_of (set_manager t bm a) t' = banks_of a t') as H.
  { intros t'. unfold offset_of, banks_of. rewrite manager_of_set by done. case_decide as E; [|done]. subst t'. rewrite H0, Hf0, Hf, Hn, Hal. done. }
  split; (split; [by destruct t|]); intros t'; [|apply H]. destruct (H t') as [<- <-]. unfold offset_of, banks_of. by rewrite manager_of_live.
Qed.

Lemma size_per_bank_nonneg size page n al per : SizeBytesPerBank size page n al = Ok per -> 0 <= per.
Proof. unfold SizeBytesPerBank. intros H. res_inv. subst. apply u64_range. Qed.

(** What a manager's allocation does to its map [m], on every path: a new range, apart
    from the others in its start, or what a failure leaves taken. *)
Definition allocates (bm : BankManager) (f : FreeList) (m : list range) (size page : Z) (shards : option Z) (op : BankManager * res Z) : Prop :=
  exists f' m', allocator_ op.1 = Some f' /\ region f' m' /\ config f' = config f /\
    BankManager_num_banks op.1 = BankManager_num_banks bm /\ alignment_bytes_ op.1 = alignment_bytes_ bm /\
    match op.2 with
    | Ok addr => exists sz per, SizeBytesPerBank size page (default (BankManager_num_banks bm) shards) (alignment_bytes_ bm) = Ok per /\ per <= sz /\
        (forall z, (addr - offset_bytes f, z, true) ∉ m) /\
        forall y z, (y, z, true) ∈ m' <-> (y, z, true) ∈ m \/ (y, z) = (addr - offset_bytes f, sz)
    | Err _ => forall y z, (y, z, true) ∈ m -> (y, z, true) ∈ m'
    end.

Lemma bank_allocate_cases bm f m size page bu grid shards :
  allocator_ bm = Some f -> region f m ->
  (forall per, SizeBytesPerBank size page (default (BankManager_num_banks bm) shards) (alignment_bytes_ bm) = Ok per -> per <= 2 ^ 63) ->
  allocates bm f m size page shards (BankManager_allocate_buffer size page bu grid shards bm).
Proof.
  intros Hf Hreg Hsm. pose proof Hreg as [Hal Hhold].
  assert (forall e, BankManager_allocate_buffer size page bu grid shards bm = (bm, Err e) ->
    allocates bm f m size page shards (BankManager_allocate_buffer size page bu grid shards bm)) as fails by (intros e E; rewrite E; exists f, m; split_and!; cbn; auto).
  assert (forall n limit per, request bm grid shards n limit -> SizeBytesPerBank size page n (alignment_bytes_ bm) = Ok per ->
    allocates bm f m size page shards (BankManager_allocate_buffer size page bu grid shards bm)) as runs.
  { intros n limit per Hreq Hper. pose proof (size_per_bank_nonneg _ _ _ _ _ Hper).
    assert (default (BankManager_num_banks bm) shards = n) as En by (destruct shards as [k'|]; cbn in *; by destruct Hreq as [-> _]).
    rewrite En in Hsm. pose proof (Hsm _ Hper).
    destruct Hhold as [Hh|[Hn _]].
    2: { apply (fails Throw). erewrite BankManager_allocate_run by done. unfold on_allocator, mbind, M_bind.
         rewrite Hf, no_room_allocate by (done || lia). unfold fail. by rewrite set_bank_allocator_same. }
    destruct (BankManager_allocate_ok bm f m size page bu grid shards n per limit Hf Hh Hreq Hper ltac:(done) ltac:(lia))
      as [[He _]|(l & r & k & f' & -> & Hfit & Hc & Hh' & He)]; [by apply (fails Throw)|].
    destruct (carve_safe f l r k bu _ Hh Hfit) as (_ & _ & Hap & Hall). set (start := place bu _ r) in *.
    assert (region f' (l ++ carve r start (alloc_size_of f per) ++ k)) as Hreg' by (split; [unfold config in Hc; injection Hc; congruence|by left]).
    rewrite He. destruct (_ <? limit).
    - exists f', (l ++ carve r start (alloc_size_of f per) ++ k). split_and!; [done|exact Hreg'|done..|]. intros y z Hy. apply Hall. by left.
    - exists f', (l ++ carve r start (alloc_size_of f per) ++ k). split_and!; [done|exact Hreg'|done..|]. exists (alloc_size_of f per), per.
      replace (start + offset_bytes f - offset_bytes f) with start by lia. split_and!; [|by destruct (alloc_size_ok f per (holds_config _ _ Hh) ltac:(done) ltac:(lia)) as (_ & _ & ?)| |exact Hall].
      { by rewrite En. }
      intros z Hz. pose proof (tiles_bounds _ _ _ _ _ _ (holds_tiles _ _ Hh) Hz). apply Hap in Hz. 
      pose proof (tiles_bounds _ _ _ _ _ _ (holds_tiles _ _ Hh') (proj2 (Hall start (alloc_size_of f per)) (or_intror eq_refl))). lia. }
  destruct shards as [k|].
  - destruct (Z.leb_spec k (CoreRangeSet_num_cores grid)) as [Hk|Hk].
    + destruct (SizeBytesPerBank size page k (alignment_bytes_ bm)) as [per|e] eqn:Hper; [eapply runs; [|exact Hper]; by split_and!|].
      apply (fails e). unfold BankManager_allocate_buffer. erewrite M_bind_ok by reflexivity. cbv beta.
      rewrite (proj2 (Z.leb_le _ _) Hk). cbn [check]. rewrite res_bind_ret. erewrite M_bind_ok by reflexivity. apply M_bind_err. unfold lift. by rewrite Hper.
    + apply (fails Fatal). unfold BankManager_allocate_buffer. erewrite M_bind_ok by reflexivity. cbv beta.
      apply M_bind_err. unfold lift. by rewrite (proj2 (Z.leb_gt _ _) Hk).
  - destruct (SizeBytesPerBank size page (BankManager_num_banks bm) (alignment_bytes_ bm)) as [per|e] eqn:Hper.
    + destruct (decide (Allocator.buffer_type_ bm = L1)) as [Ht|Ht].
      * destruct (Z.lt_ge_cases 0 (interleaved_address_limit_ bm)) as [Hl|Hl].
        -- eapply (runs _ (interleaved_address_limit_ bm)); [|exact Hper]. split; [done|]. by rewrite decide_True.
        -- apply (fails Fatal). unfold BankManager_allocate_buffer. erewrite M_bind_ok by reflexivity. cbv beta.
           erewrite M_bind_ok by reflexivity. erewrite M_bind_ok by (unfold lift; by rewrite Hper). apply M_bind_err.
           rewrite (bool_decide_true _ Ht), (proj2 (Z.ltb_ge _ _) Hl). done.
      * eapply (runs _ 0); [|exact Hper]. split; [done|]. by rewrite decide_False.
    + apply (fails e). unfold BankManager_allocate_buffer. erewrite M_bind_ok by reflexivity. cbv beta.
      erewrite M_bind_ok by reflexivity. apply M_bind_err. unfold lift. by rewrite Hper.
Qed.

(** ** Buffers *)

Lemma config_offset f f' : config f' = config f -> offset_bytes f' = offset_bytes f /\ alignment f' = alignment f.
Proof. unfold config. intros [=]. by split. Qed.

Lemma offset_of_manager a t bm f : manager_of t a = Ok bm -> allocator_ bm = Some f -> offset_of a t = offset_bytes f.
Proof. intros H1 H2. unfold offset_of. by rewrite H1, H2. Qed.

Lemma set_live_same a : set_live (allocated_buffers a) a = a.
Proof. by destruct a. Qed.

Lemma allocate_buffer_eq i a :
  allocate_buffer i a =
  if (disable_interleaved (config_ a) || bool_decide (buffer_type i = L1_SMALL)) && bool_decide (buffer_num_cores i = None)
  then (a, Err Fatal)
  else (address ← on_manager (buffer_type i) (base_alloc (config_ a) (aligned_size i) (aligned_page_size i) (buffer_bottom_up i) (buffer_num_cores i));
        modify (fun a => set_live ({[buffer_id i]} ∪ allocated_buffers a) a);; mret address) a.
Proof.
  unfold allocate_buffer. erewrite M_bind_ok by reflexivity. cbv beta zeta. unfold when, require.
  destruct (disable_interleaved (config_ a)), (bool_decide (buffer_type i = L1_SMALL)), (buffer_num_cores i); reflexivity.
Qed.

(** What [allocate_buffer] does to the ranges, on every path. *)
Definition allocates_buffer (i : BufferInfo) (a : Allocator) (m : BufferType -> list range) (op : Allocator * res Z) : Prop :=
  exists m', serves op.1 m' /\ keeps_offsets a op.1 /\
    match op.2 with
    | Ok addr => let t := buffer_type i in let start := addr - offset_of a t in
        t <> SYSTEM_MEMORY /\ exists sz per, share_of a i per /\ per <= sz /\ (forall z, (start, z, true) ∉ m t) /\
        forall t' y z, (y, z, true) ∈ m' t' <-> (y, z, true) ∈ m t' \/ t' = t /\ (y, z) = (start, sz)
    | Err _ => forall t y z, (y, z, true) ∈ m t -> (y, z, true) ∈ m' t
    end.

Lemma allocate_buffer_cases i a m : serves a m -> small_request a i -> allocates_buffer i a m (allocate_buffer i a).
Proof.
  intros Hs Hsm. set (t := buffer_type i).
  assert (forall e, allocate_buffer i a = (a, Err e) -> allocates_buffer i a m (allocate_buffer i a)) as fails.
  { intros e ->. exists m. split; [exact Hs|]. split; [by split|]. cbn. auto. }
  rewrite allocate_buffer_eq in *. fold t in fails |- *. destruct (_ && _); [by apply (fails Fatal)|].
  destruct (decide (t = SYSTEM_MEMORY)) as [Et|Et]; [apply (fails Throw); apply M_bind_err; unfold on_manager; by rewrite Et|]. clear fails.
  destruct (manager_exists t a Et) as [bm Hm]. destruct (Hs t bm Hm) as (f & Hf & Hreg).
  pose proof Hsm as Hsm'. unfold small_request, share_of, banks_of in Hsm'. fold t in Hsm'. rewrite Hm in Hsm'.
  destruct (bank_allocate_cases bm f (m t) (aligned_size i) (aligned_page_size i) (buffer_bottom_up i) (compute_grid (config_ a)) (buffer_num_cores i) Hf Hreg Hsm')
    as (f' & m' & Hf' & Hh' & Hc & Hn' & Hal' & Hx). unfold on_manager, base_alloc, mbind, M_bind. rewrite Hm.
  destruct (BankManager_allocate_buffer _ _ _ _ _ bm) as [bm' [addr|e]]; cbn [fst snd] in *; destruct (config_offset _ _ Hc) as [Ho Half];
    exists (fun t' => if decide (t' = t) then m' else m t').
  - split; [by eapply serves_update|]. split; [exact (proj1 (keeps_update a t bm f bm' f' _ Hm Hf Hf' Ho Hn' Hal'))|]. cbn. fold t. split; [done|].
    rewrite (offset_of_manager a t bm f Hm Hf). destruct Hx as (sz & per & Hper & Hle & Hfresh & Hx). exists sz, per.
    split; [unfold share_of, banks_of; fold t; by rewrite Hm|]. split_and!; [done|done|].
    intros t' y z. case_decide as E; [subst; rewrite Hx; naive_solver|naive_solver].
  - pose proof (serves_update a m t bm' f' m' (allocated_buffers (set_manager t bm' a)) Hs Et Hf' Hh') as Hsv.
    split; [|split; [exact (proj2 (keeps_update a t bm f bm' f' ∅ Hm Hf Hf' Ho Hn' Hal'))|]].
    + intros t1 b1 H1. apply (Hsv t1 b1). by rewrite manager_of_live.
    + intros t' y z Hy. case_decide as E; [subst; by apply Hx|done].
Qed.

(** [deallocate_buffer]: it does not fail for a type that has a manager. *)
Lemma deallocate_buffer_cases i addr a m :
  serves a m -> buffer_type i <> SYSTEM_MEMORY -> (exists y z, (y, z, true) ∈ m (buffer_type i)) ->
  exists a' m', deallocate_buffer i addr a = (a', Ok tt) /\ serves a' m' /\ keeps_offsets a a' /\
    forall t y z, (y, z, true) ∈ m' t <-> (y, z, true) ∈ m t /\ (t = buffer_type i -> y <> u64 (addr - offset_of a t)).
Proof.
  intros Hs Ht (y0 & z0 & Hy0). set (t := buffer_type i) in *. destruct (manager_exists t a Ht) as [bm Hm]. destruct (Hs t bm Hm) as (f & Hf & Hreg).
  destruct (region_allocated f _ _ _ Hreg Hy0) as [(bl & Hr & Hl & Hbl) Hal].
  destruct (deallocate_ok f bl addr Hr Hl) as (f' & bl' & He & Hr' & Hl' & Hc & Hm'). destruct (config_offset _ _ Hc) as [Ho Hal'].
  eexists _, (fun t' => if decide (t' = t) then map_of bl' else m t'). split_and!.
  - unfold deallocate_buffer. erewrite M_bind_ok; [reflexivity|]. unfold on_manager, BankManager_deallocate_buffer. fold t. rewrite Hm.
    by rewrite (on_allocator_ok _ _ _ _ _ Hf He).
  - eapply serves_update; [done|done|done|split; [congruence|left; by exists bl']].
  - eapply (keeps_update a t bm f _ f' ∅ Hm Hf); [|exact Ho|..]; reflexivity.
  - intros t' y z. case_decide as E; [|naive_solver]. subst t'. rewrite Hm', allocated_release, (offset_of_manager a t bm f Hm Hf), <- Hbl. naive_solver.
Qed.
