(* ===== verification/BufferLife.v ===== *)
(** * The life of a buffer
    (tt_metal/impl/buffers/buffer.cpp, tt_metal/tt_metal.cpp)

    Buffers are made by the client and held through shared pointers; their memory is
    allocated and freed by work that is pushed to the device's worker thread, which runs
    it in the order pushed (WorkQueue.v), or at once when there is no such thread.  A
    function pushed holds a pointer to its buffer; when the last pointer goes, the
    custom deleter of an owning buffer pushes the work that frees and destroys it.

    A buffer object is named by its unique id.  The graph tracker's hooks, which a
    program can install, are parameters; so are the cores of a sub-device, and the
    sub-device managers, which are fixed. *)

From S2P Require Import Prelude CoreCoord FreeList WorkSplit Allocator Buffers.

(** A function pushed to the worker. *)
Inductive Work := work_allocate (id : Z) | work_deallocate (id : Z) | work_delete (id : Z).

Definition work_target (w : Work) : Z := match w with work_allocate id | work_deallocate id | work_delete id => id end.

(** Whether the function holds a shared pointer: the deleter's has a plain one. *)
Definition work_holds (id : Z) (w : Work) : bool :=
  match w with work_allocate i | work_deallocate i => i =? id | work_delete _ => false end.

(** The buffers that have not been destroyed, the shared pointers the client holds to
    each, the work that waits, the allocators by sub-device manager and sub-device, and the
    device's flag. *)
Record Runtime := mkRuntime {
  objects : gmap Z Buffer;
  handles : gmap Z Z;
  queue : list Work;
  allocators : gmap (Z * Z) Allocator;
  next_unique_id : Z;
  initialized_ : bool;
}.

Abbreviation RM := (M Runtime).

Definition set_objects (o : gmap Z Buffer) (r : Runtime) : Runtime :=
  mkRuntime o (handles r) (queue r) (allocators r) (next_unique_id r) (initialized_ r).
Definition set_handles (h : gmap Z Z) (r : Runtime) : Runtime :=
  mkRuntime (objects r) h (queue r) (allocators r) (next_unique_id r) (initialized_ r).
Definition set_queue (q : list Work) (r : Runtime) : Runtime :=
  mkRuntime (objects r) (handles r) q (allocators r) (next_unique_id r) (initialized_ r).
Definition set_allocator (k : Z * Z) (a : Allocator) (r : Runtime) : Runtime :=
  mkRuntime (objects r) (handles r) (queue r) (<[k := a]> (allocators r)) (next_unique_id r) (initialized_ r).
Definition set_next_id (n : Z) (r : Runtime) : Runtime :=
  mkRuntime (objects r) (handles r) (queue r) (allocators r) n (initialized_ r).

Definition held (r : Runtime) (id : Z) : Z := default 0 (handles r !! id).

(** The shared pointers to a buffer. *)
Definition references (r : Runtime) (id : Z) : Z := held r id + Z.of_nat (length (filter (fun w => work_holds id w = true) (queue r))).

Definition set_status (st : AllocationStatus) (b : Buffer) : Buffer :=
  mkBuf (size_ b) (buffer_type_ b) (buffer_layout_ b) (bottom_up_ b) (sub_device_id_ b) (owns_data_ b)
    (sub_device_manager_id_ b) st (address_ b) (deallocation_requested_ b) (page_size_ b) (shard_parameters_ b)
    (buffer_page_mapping_ b) (unique_id_ b).
Definition set_address (a : Z) (b : Buffer) : Buffer :=
  mkBuf (size_ b) (buffer_type_ b) (buffer_layout_ b) (bottom_up_ b) (sub_device_id_ b) (owns_data_ b)
    (sub_device_manager_id_ b) (allocation_status_ b) a (deallocation_requested_ b) (page_size_ b) (shard_parameters_ b)
    (buffer_page_mapping_ b) (unique_id_ b).
Definition request_deallocation (b : Buffer) : Buffer :=
  mkBuf (size_ b) (buffer_type_ b) (buffer_layout_ b) (bottom_up_ b) (sub_device_id_ b) (owns_data_ b)
    (sub_device_manager_id_ b) (allocation_status_ b) (address_ b) true (page_size_ b) (shard_parameters_ b)
    (buffer_page_mapping_ b) (unique_id_ b).

(** A buffer through a pointer: to a destroyed one it is undefined behaviour. *)
Definition object (id : Z) : RM Buffer := r ← get; lift (opt_res Undefined (objects r !! id)).
Definition on_object (id : Z) (f : Buffer -> Buffer) : RM unit :=
  b ← object id; modify (fun r => set_objects (<[id := f b]> (objects r)) r).

(** The arguments of [Buffer::create]. *)
Record BufferArgs := mkArgs {
  arg_size : Z;
  arg_page_size : Z;
  arg_type : BufferType;
  arg_layout : TensorMemoryLayout;
  arg_shards : option ShardSpecBuffer;
  arg_bottom_up : option bool;
  arg_sub_device : option Z;
}.

Section Life.
(** The cores of a sub-device, the default sub-device manager and the one in use, the hooks of the graph
    tracker, and whether work runs at once. *)
Context (worker_cores : Z -> res CoreRangeSet) (default_sub_device_manager_id active_sub_device_manager_id : Z).
Context (hook_allocate hook_deallocate : Z -> bool) (passthrough : bool).

Definition validate_sub_device_id (sub_device_id : option Z) (t : BufferType) (shards : option ShardSpecBuffer) : res unit :=
  match sub_device_id with
  | None => mret tt
  | Some id =>
      s ← opt_res Fatal shards;
      check Fatal (is_l1_type t);;
      cores ← worker_cores id;
      check Fatal (CoreRangeSet_contains_set cores (grid (tensor_shard_spec s)))
  end.

(** Where [Device::get_initialized_allocator] looks: the allocator of the whole device is
    that of the first sub-device of the default manager. *)
Definition allocator_key (sub_device_id : option Z) : Z * Z :=
  match sub_device_id with
  | None => (default_sub_device_manager_id, 0)
  | Some id => (active_sub_device_manager_id, id)
  end.

Definition get_initialized_allocator (sub_device_id : option Z) : RM Allocator :=
  r ← get; lift (opt_res Fatal (allocators r !! allocator_key sub_device_id)).

(** [Buffer::Buffer] *)
Definition Buffer_new (x : BufferArgs) (owns_data : bool) : RM Buffer :=
  lift (validate_sub_device_id (arg_sub_device x) (arg_type x) (arg_shards x));;
  get_initialized_allocator (arg_sub_device x);;
  lift (if arg_size x =? 0 then mret tt
        else validate_buffer_size_and_page_size (arg_size x) (arg_page_size x) (arg_layout x) (arg_shards x));;
  r ← get;
  let id := next_unique_id r in
  put (set_next_id (id + 1) r);;
  let is_dram := match arg_type x with DRAM | TRACE => true | _ => false end in
  mret (mkBuf (arg_size x) (arg_type x) (arg_layout x) (default is_dram (arg_bottom_up x)) (arg_sub_device x) owns_data
    (match arg_sub_device x with Some _ => Some active_sub_device_manager_id | None => None end)
    ALLOCATION_REQUESTED 0 false (arg_page_size x) (arg_shards x) None id).

Definition check_sub_device_manager (b : Buffer) : res unit :=
  match sub_device_manager_id_ b with Some m => check Fatal (m =? active_sub_device_manager_id) | None => mret tt end.

(** What [allocate_buffer] asks of a buffer. *)
Definition buffer_info (id : Z) (a : Allocator) (b : Buffer) : res BufferInfo :=
  size ← Buffers.aligned_size a b;
  shards ← num_cores b;
  mret (mkBuffer id size (Buffers.aligned_page_size a b) (buffer_type_ b) (bottom_up_ b) shards).

(** Through the pointer [allocator_], taken from the table when the buffer was made. *)
Definition on_allocator_of {A} (b : Buffer) (m : Allocator -> Allocator * res A) : RM A :=
  fun r =>
    match allocators r !! allocator_key (sub_device_id_ b) with
    | Some a => let '(a, x) := m a in (set_allocator (allocator_key (sub_device_id_ b)) a r, x)
    | None => (r, Err Undefined)
    end.

(** [detail::AllocateBuffer] *)
Definition AllocateBuffer (id : Z) : RM Z :=
  b ← object id;
  if hook_allocate id then mret 0
  else
    lift (check_sub_device_manager b);;
    addr ← on_allocator_of b (fun a => match buffer_info id a b with Ok i => allocate_buffer i a | Err e => (a, Err e) end);
    require Assert (addr <=? 2 ^ 32 - 1);;
    mret addr.

(** [detail::DeallocateBuffer] *)
Definition DeallocateBuffer (id : Z) : RM unit :=
  b ← object id;
  if hook_deallocate id then mret tt
  else
    lift (check_sub_device_manager b);;
    on_allocator_of b (deallocate_buffer (mkBuffer id 0 0 (buffer_type_ b) (bottom_up_ b) None) (u32 (address_ b))).

Definition deallocate_impl (id : Z) : RM unit :=
  b ← object id;
  if bool_decide (allocation_status_ b = ALLOCATED) then
    r ← get;
    when (initialized_ r && negb (size_ b =? 0)) (DeallocateBuffer id);;
    on_object id (set_status DEALLOCATED)
  else mret tt.

Definition destroy (id : Z) : RM unit := modify (fun r => set_objects (delete id (objects r)) r).

(** The body of each function pushed.  The one of [create] catches what [AllocateBuffer]
    throws, and throws it again; the one of the deleter destroys the buffer even then. *)
Definition run_work (w : Work) : RM unit :=
  match w with
  | work_allocate id => fun r =>
      match AllocateBuffer id r with
      | (r, Ok addr) => (on_object id (set_address addr);; on_object id (set_status ALLOCATED)) r
      | (r, Err e) => (on_object id (set_status ALLOCATION_FAILED);; fail e) r
      end
  | work_deallocate id => deallocate_impl id
  | work_delete id => fun r => let '(r, x) := deallocate_impl id r in let '(r, _) := destroy id r in (r, x)
  end.

Definition push_work (w : Work) : RM unit :=
  if passthrough then run_work w else modify (fun r => set_queue (queue r ++ [w]) r).

(** A shared pointer goes; [push] says how its thread pushes. *)
Definition when_last (id : Z) (push : Work -> RM unit) : RM unit :=
  r ← get;
  match objects r !! id with
  | Some b => if references r id =? 0 then (if owns_data_ b then push (work_delete id) else destroy id) else mret tt
  | None => mret tt
  end.

(** ** The client *)

Definition drop_handle (id : Z) : RM unit :=
  modify (fun r => set_handles (<[id := held r id - 1]> (handles r)) r);; when_last id push_work.

Definition copy_handle (id : Z) : RM unit := modify (fun r => set_handles (<[id := held r id + 1]> (handles r)) r).

(** [Buffer::create] *)
Definition create (x : BufferArgs) : RM Z :=
  b ← Buffer_new x true;
  let id := unique_id_ b in
  modify (fun r => set_objects (<[id := b]> (objects r)) (set_handles (<[id := 1]> (handles r)) r));;
  if size_ b =? 0 then on_object id (set_status ALLOCATED);; mret id
  else fun r =>
    match push_work (work_allocate id) r with
    | (r, Ok _) => (r, Ok id)
    | (r, Err e) => (drop_handle id;; fail e) r
    end.

(** [Buffer::create] at an address: the buffer does not own the memory. *)
Definition create_at (address : Z) (x : BufferArgs) : RM Z :=
  b ← Buffer_new x false;
  let id := unique_id_ b in
  modify (fun r => set_objects (<[id := b]> (objects r)) (set_handles (<[id := 1]> (handles r)) r));;
  on_object id (set_address address);;
  on_object id (set_status ALLOCATED);;
  mret id.

(** [Buffer::deallocate] *)
Definition deallocate (id : Z) : RM unit :=
  on_object id request_deallocation;;
  b ← object id;
  if owns_data_ b then push_work (work_deallocate id) else mret tt.

Definition is_allocated (b : Buffer) : bool :=
  if passthrough then bool_decide (allocation_status_ b = ALLOCATED)
  else (bool_decide (allocation_status_ b = ALLOCATION_REQUESTED) || bool_decide (allocation_status_ b = ALLOCATED)) &&
    negb (deallocation_requested_ b).

(** ** The worker *)

(** The next function runs and is destroyed, and its pointer with it; a deleter that
    this calls runs at once, being on the worker's thread. *)
Definition worker_turn : RM unit :=
  r ← get;
  match queue r with
  | [] => mret tt
  | w :: q =>
      put (set_queue q r);;
      run_work w;;
      match w with work_delete _ => mret tt | _ => when_last (work_target w) run_work end
  end.
End Life.
