(* ===== verification/BufferLifeProps.v ===== *)
(** * Buffers keep clear of each other and give their memory back: lemmas and claims *)

From Stdlib Require Import Lia.
From S2P Require Import Prelude CoreCoord FreeList FreeListSpec FreeListTheorems WorkSplit Allocator AllocatorProps AllocatorLive Buffers BufferLife.

Abbreviation Maps := (Z * Z -> BufferType -> list range).

Section Life.
Context (dflt active : Z) (passthrough : bool).

(** Where the allocator of a buffer is found. *)
Abbreviation key b := (allocator_key dflt active (sub_device_id_ b)).

(** ** Memory *)

(** The buffer owns a range of its allocator. *)
Definition has_memory (b : Buffer) : Prop := owns_data_ b = true /\ allocation_status_ b = ALLOCATED /\ size_ b <> 0.

#[export] Instance has_memory_dec b : Decision (has_memory b).
Proof. unfold has_memory. apply _. Defined.

(** A range of [sz] bytes holds the buffer's share of each bank. *)
Definition large_enough (a : Allocator) (b : Buffer) (sz : Z) : Prop :=
  exists id i per, buffer_info id a b = Ok i /\ share_of a i per /\ per <= sz.

(** The buffers and the maps [m] of the allocators agree: each buffer with memory has a
    range that starts at its address, no two the same one; when [clean], no allocation
    has failed, and every range is some buffer's. *)
Record mem_ok (clean : bool) (objs : gmap Z Buffer) (allocs : gmap (Z * Z) Allocator) (m : Maps) : Prop := mkMem {
  mem_serves : forall k a, allocs !! k = Some a -> serves a (m k);
  mem_range : forall id b, objs !! id = Some b -> has_memory b ->
    exists a sz, allocs !! key b = Some a /\ buffer_type_ b <> SYSTEM_MEMORY /\ 0 <= address_ b < 2 ^ 32 /\ large_enough a b sz /\
      (address_ b - offset_of a (buffer_type_ b), sz, true) ∈ m (key b) (buffer_type_ b);
  mem_apart : forall id id' b b', objs !! id = Some b -> objs !! id' = Some b' -> has_memory b -> has_memory b' ->
    id <> id' -> key b = key b' -> buffer_type_ b = buffer_type_ b' -> address_ b <> address_ b';
  mem_exact : clean = true -> forall k t y z, (y, z, true) ∈ m k t ->
    exists id b a, objs !! id = Some b /\ has_memory b /\ key b = k /\ buffer_type_ b = t /\
      allocs !! k = Some a /\ y = address_ b - offset_of a t;
}.

Lemma range_bounds a m t y z : serves a m -> (y, z, true) ∈ m t -> t <> SYSTEM_MEMORY -> 0 <= y /\ 0 < z /\ 0 <= offset_of a t /\ y + z + offset_of a t < 2 ^ 64.
Proof.
  intros Hs Hy Ht. destruct (manager_exists t a Ht) as [bm Hm]. destruct (Hs t bm Hm) as (f & Hf & Hreg).
  destruct (region_allocated f _ _ _ Hreg Hy) as [Hh _].
  rewrite (offset_of_manager a t bm f Hm Hf). pose proof (holds_config _ _ Hh) as []. pose proof (tiles_bounds _ _ _ _ _ _ (holds_tiles _ _ Hh) Hy). lia.
Qed.

Lemma large_enough_keeps a a' b sz : keeps_offsets a a' -> large_enough a b sz -> large_enough a' b sz.
Proof.
  intros [Hc Hk] (id & i & per & Hi & Hs & Hle). exists id, i, per. split_and!; [|by unfold share_of; rewrite (proj2 (Hk _))|done].
  revert Hi. unfold buffer_info, Buffers.aligned_size, Buffers.aligned_page_size, alignment. by rewrite Hc.
Qed.

Lemma large_enough_same a b b' sz :
  (forall id, buffer_info id a b' = buffer_info id a b) -> large_enough a b sz -> large_enough a b' sz.
Proof. intros E (id & i & per & Hi & H). exists id, i, per. by rewrite E. Qed.

(** Changes of an object without memory. *)
Lemma mem_ok_insert clean objs allocs m id b :
  mem_ok clean objs allocs m -> ~ has_memory b -> (forall b0, objs !! id = Some b0 -> ~ has_memory b0) -> mem_ok clean (<[id := b]> objs) allocs m.
Proof.
  intros [H1 H2 H3 H4] Hb Hb0. constructor; [done| | |].
  - intros i x [[<- <-]|[Hne Hi]]%lookup_insert_Some Hx; [done|]. by eapply H2.
  - intros i i' x x' [[<- <-]|[Hne Hi]]%lookup_insert_Some [[<- <-]|[Hne' Hi']]%lookup_insert_Some Hx Hx'; try done. by eapply H3.
  - intros Hc k t y z Hy. destruct (H4 Hc k t y z Hy) as (i & x & a & Hi & Hx & Hr). exists i, x, a. split; [|done].
    rewrite lookup_insert_ne; [done|]. intros <-. by apply (Hb0 x).
Qed.

Lemma mem_ok_delete clean objs allocs m id :
  mem_ok clean objs allocs m -> (forall b0, objs !! id = Some b0 -> ~ has_memory b0) -> mem_ok clean (delete id objs) allocs m.
Proof.
  intros [H1 H2 H3 H4] Hb0. constructor; [done| | |].
  - intros i x [Hne Hi]%lookup_delete_Some Hx. by eapply H2.
  - intros i i' x x' [Hne Hi]%lookup_delete_Some [Hne' Hi']%lookup_delete_Some Hx Hx'. by eapply H3.
  - intros Hc k t y z Hy. destruct (H4 Hc k t y z Hy) as (i & x & a & Hi & Hx & Hr). exists i, x, a. split; [|done].
    rewrite lookup_delete_ne; [done|]. intros <-. by apply (Hb0 x).
Qed.

(** The same object up to what its memory depends on. *)
Lemma mem_ok_same clean objs allocs m id b b' :
  mem_ok clean objs allocs m -> objs !! id = Some b -> (has_memory b' <-> has_memory b) ->
  key b' = key b -> buffer_type_ b' = buffer_type_ b -> address_ b' = address_ b ->
  (forall i a, buffer_info i a b' = buffer_info i a b) -> mem_ok clean (<[id := b']> objs) allocs m.
Proof.
  intros [H1 H2 H3 H4] Hb Hm Es Et Ea Ei. constructor; [done| | |].
  - intros i x [[<- <-]|[Hne Hi]]%lookup_insert_Some Hx; [|by eapply H2]. rewrite Es, Et, Ea. destruct (H2 id b Hb) as (a & sz & ? & ? & ? & ? & ?); [by apply Hm|].
    exists a, sz. split_and!; try done; try lia. by apply (large_enough_same a b).
  - intros i i' x x' [[<- <-]|[Hne Hi]]%lookup_insert_Some [[<- <-]|[Hne' Hi']]%lookup_insert_Some Hx Hx'; rewrite ?Es, ?Et, ?Ea; try done.
    + apply (H3 id i'); [done|done|by apply Hm|done].
    + apply (H3 i id); [done|done|done|by apply Hm].
    + by apply (H3 i i').
  - intros Hc k t y z Hy. destruct (H4 Hc k t y z Hy) as (i & x & a & Hi & Hx & Hr). destruct (Z.eq_dec i id) as [->|Hne].
    + assert (x = b) as -> by congruence. exists id, b', a. rewrite lookup_insert_eq, Es, Et, Ea. split_and!; try apply Hr; [done|by apply Hm].
    + exists i, x, a. rewrite lookup_insert_ne by done. done.
Qed.

(** The maps after an operation of the allocator [k]. *)
Definition with_map (k : Z * Z) (mk : BufferType -> list range) (m : Maps) : Maps := fun k' => if decide (k' = k) then mk else m k'.

Lemma mem_serves_map clean objs allocs m k a a' mk :
  mem_ok clean objs allocs m -> allocs !! k = Some a -> serves a' mk ->
  forall k' x, <[k := a']> allocs !! k' = Some x -> serves x (with_map k mk m k').
Proof.
  intros H Ha Hs k' x [[<- <-]|[Hne Hk]]%lookup_insert_Some; unfold with_map; [by rewrite decide_True|]. rewrite decide_False by done. by apply H.
Qed.

(** Buffers keep their ranges through an operation on an allocator that keeps them. *)
Lemma mem_range_map clean objs allocs m k a a' mk id b :
  mem_ok clean objs allocs m -> allocs !! k = Some a -> keeps_offsets a a' ->
  (forall sz, key b = k -> (address_ b - offset_of a (buffer_type_ b), sz, true) ∈ m k (buffer_type_ b) ->
    (address_ b - offset_of a (buffer_type_ b), sz, true) ∈ mk (buffer_type_ b)) ->
  objs !! id = Some b -> has_memory b ->
  exists x sz, <[k := a']> allocs !! key b = Some x /\ buffer_type_ b <> SYSTEM_MEMORY /\ 0 <= address_ b < 2 ^ 32 /\ large_enough x b sz /\
    (address_ b - offset_of x (buffer_type_ b), sz, true) ∈ with_map k mk m (key b) (buffer_type_ b).
Proof.
  intros H Ha Ho Hk Hb Hm. destruct (mem_range _ _ _ _ H id b Hb Hm) as (x & sz & Hx & Ht & Hr & Hl & Hin). unfold with_map.
  case_decide as E.
  - exists a', sz. rewrite E, lookup_insert_eq, (proj1 (proj2 Ho (buffer_type_ b))). rewrite E in Hin, Hx. assert (x = a) as -> by congruence. split_and!; [done|done|lia|lia|by eapply large_enough_keeps|auto].
  - exists x, sz. rewrite lookup_insert_ne by done. split_and!; auto; lia.
Qed.

Lemma mem_alloc clean objs allocs m id b a i addr a' :
  mem_ok clean objs allocs m -> objs !! id = Some b -> ~ has_memory b -> owns_data_ b = true -> size_ b <> 0 ->
  allocs !! key b = Some a -> buffer_info id a b = Ok i -> addr <= 2 ^ 32 - 1 ->
  allocates_buffer i a (m (key b)) (a', Ok addr) ->
  exists m', mem_ok clean (<[id := set_status ALLOCATED (set_address addr b)]> objs) (<[key b := a']> allocs) m'.
Proof.
  intros H Hb Hn Hown Hsz Ha Hi Haddr (mk & Hs & Ho & Hx). cbn in Hs, Ho, Hx.
  assert (buffer_type i = buffer_type_ b) as Ei by (unfold buffer_info in Hi; res_inv; by subst). rewrite Ei in Hx. destruct Hx as (Ht & sz & per & Hper & Hle & Hfresh & Hx).
  set (k := key b) in *. set (t := buffer_type_ b) in *.
  assert ((addr - offset_of a t, sz, true) ∈ mk t) as Hnew by (apply Hx; by right).
  pose proof (range_bounds a' mk t _ _ Hs Hnew Ht) as Hrb. rewrite (proj1 (proj2 Ho t)) in Hrb.
  assert (forall i x, i <> id -> objs !! i = Some x -> has_memory x -> (key x) = k -> buffer_type_ x = t -> address_ x <> addr) as Hother.
  { intros j x Hne Hj Hm Es Et Ea. destruct (mem_range _ _ _ _ H j x Hj Hm) as (a0 & z & Ha0 & _ & _ & _ & Hin). rewrite Es, Et, Ea in *.
    assert (a0 = a) as -> by congruence. by apply (Hfresh z). }
  exists (with_map k mk m). constructor.
  - by eapply mem_serves_map.
  - intros j x [[<- <-]|[Hne Hj]]%lookup_insert_Some Hm.
    + exists a', sz. cbn. fold k t. rewrite lookup_insert_eq, (proj1 (proj2 Ho t)). unfold with_map. rewrite decide_True by done.
      split_and!; [done|done|lia|lia| |done]. apply (large_enough_keeps a a' _ _ Ho). by exists id, i, per.
    + eapply mem_range_map; eauto. intros z Ek Hin. apply Hx. left. done.
  - intros j j' x x' [[<- <-]|[Hne Hj]]%lookup_insert_Some [[<- <-]|[Hne' Hj']]%lookup_insert_Some Hm Hm'; cbn; try done.
    + intros _ Es Et E. by eapply (Hother j' x').
    + intros _ Es Et. by apply (Hother j x).
    + by apply (mem_apart _ _ _ _ H).
  - intros Hc k' t' y z Hy. unfold with_map in Hy. case_decide as E.
    + subst k'. apply Hx in Hy as [Hy|[-> [= -> ->]]].
      * destruct (mem_exact _ _ _ _ H Hc k t' y z Hy) as (j & x & a0 & Hj & Hm & Es & Et & Ha0 & ->). assert (a0 = a) as -> by congruence.
        exists j, x, a'. rewrite lookup_insert_ne by congruence. rewrite lookup_insert_eq, (proj1 (proj2 Ho t')). done.
      * exists id, (set_status ALLOCATED (set_address addr b)), a'. rewrite !lookup_insert_eq, (proj1 (proj2 Ho t)). done.
    + destruct (mem_exact _ _ _ _ H Hc k' t' y z Hy) as (j & x & a0 & Hj & Hm & Es & Et & Ha0 & ->).
      exists j, x, a0. rewrite lookup_insert_ne by congruence. rewrite lookup_insert_ne by done. done.
Qed.

Lemma mem_alloc_fails clean objs allocs m k a i a' e :
  mem_ok clean objs allocs m -> allocs !! k = Some a -> allocates_buffer i a (m k) (a', Err e) ->
  exists m', mem_ok false objs (<[k := a']> allocs) m'.
Proof.
  intros H Ha (mk & Hs & Ho & Hx). cbn in Hs, Ho, Hx. exists (with_map k mk m). constructor; [by eapply mem_serves_map| | |done].
  - intros j x Hj Hm. eapply mem_range_map; eauto.
  - apply (mem_apart _ _ _ _ H).
Qed.

(** A range that was given out, but whose address the buffer cannot keep. *)
Lemma mem_alloc_lost clean objs allocs m k a i a' addr :
  mem_ok clean objs allocs m -> allocs !! k = Some a -> allocates_buffer i a (m k) (a', Ok addr) ->
  exists m', mem_ok false objs (<[k := a']> allocs) m'.
Proof.
  intros H Ha (mk & Hs & Ho & _ & sz & per & _ & _ & _ & Hx). eapply (mem_alloc_fails clean objs allocs m k a i a' Throw H Ha).
  exists mk. cbn in *. split_and!; [done|done|]. intros. apply Hx. by left.
Qed.

Lemma mem_free clean objs allocs m id b a :
  mem_ok clean objs allocs m -> objs !! id = Some b -> has_memory b -> allocs !! key b = Some a ->
  exists a' m', deallocate_buffer (mkBuffer id 0 0 (buffer_type_ b) (bottom_up_ b) None) (u32 (address_ b)) a = (a', Ok tt) /\ keeps_offsets a a' /\
    mem_ok clean (<[id := set_status DEALLOCATED b]> objs) (<[key b := a']> allocs) m'.
Proof.
  intros H Hb Hm Ha. destruct (mem_range _ _ _ _ H id b Hb Hm) as (a0 & sz & Ha0 & Ht & Hr & _ & Hin). assert (a0 = a) as -> by congruence. clear Ha0.
  set (k := key b) in *. set (t := buffer_type_ b) in *.
  destruct (deallocate_buffer_cases (mkBuffer id 0 0 t (bottom_up_ b) None) (u32 (address_ b)) a (m k) (mem_serves _ _ _ _ H k a Ha) Ht ltac:(by eexists _, _))
    as (a' & mk & E & Hs & Ho & Hx). cbn [buffer_type] in Hx.
  pose proof (range_bounds a (m k) t _ _ (mem_serves _ _ _ _ H k a Ha) Hin Ht) as Hrb.
  assert (u64 (u32 (address_ b) - offset_of a t) = address_ b - offset_of a t) as Hu by (rewrite (u32_small (address_ b)) by lia; apply u64_small; pow2; lia).
  assert (~ has_memory (set_status DEALLOCATED b)) as Hno by (by intros (_ & ? & _)).
  exists a', (with_map k mk m). split; [exact E|]. split; [exact Ho|]. constructor.
  - by eapply mem_serves_map.
  - intros j x [[<- <-]|[Hne Hj]]%lookup_insert_Some Hmx; [done|]. eapply mem_range_map; eauto. intros z Ek Hin'. apply Hx. split; [done|].
    intros Et. rewrite Et, Hu. assert (address_ x <> address_ b); [|lia]. by apply (mem_apart _ _ _ _ H j id).
  - intros j j' x x' [[<- <-]|[Hne Hj]]%lookup_insert_Some [[<- <-]|[Hne' Hj']]%lookup_insert_Some Hmx Hmx'; try done. by apply (mem_apart _ _ _ _ H).
  - intros Hc k' t' y z Hy. unfold with_map in Hy. case_decide as E'.
    + subst k'. apply Hx in Hy as [Hy Hne]. destruct (mem_exact _ _ _ _ H Hc k t' y z Hy) as (j & x & a0 & Hj & Hmx & Es & Et & Ha0 & ->).
      assert (a0 = a) as -> by congruence. exists j, x, a'. rewrite lookup_insert_eq, (proj1 (proj2 Ho t')). rewrite lookup_insert_ne; [done|].
      intros <-. assert (x = b) as -> by congruence. apply Hne; [done|]. rewrite <- Et. fold t. by rewrite Hu.
    + destruct (mem_exact _ _ _ _ H Hc k' t' y z Hy) as (j & x & a0 & Hj & Hmx & Es & Et & Ha0 & ->).
      exists j, x, a0. rewrite (lookup_insert_ne allocs) by done. rewrite lookup_insert_ne; [done|]. intros <-.
      assert (x = b) as -> by congruence. by apply E'.
Qed.

(** ** The runtime *)

(** What a buffer asks of its allocator does not overflow. *)
Definition small_buffer (allocs : gmap (Z * Z) Allocator) (b : Buffer) : Prop :=
  forall id a i, allocs !! key b = Some a -> buffer_info id a b = Ok i -> small_request a i.

(** The allocators stay, and keep what no operation changes. *)
Definition allocs_keep (allocs allocs' : gmap (Z * Z) Allocator) : Prop :=
  forall k a, allocs !! k = Some a -> exists a', allocs' !! k = Some a' /\ keeps_offsets a a'.

Lemma allocs_keep_same allocs : allocs_keep allocs allocs.
Proof. intros k a Ha. by exists a. Qed.

Lemma allocs_keep_insert allocs k a a' : allocs !! k = Some a -> keeps_offsets a a' -> allocs_keep allocs (<[k := a']> allocs).
Proof.
  intros Ha Hk k' x Hx. destruct (decide (k' = k)) as [->|]; [|exists x; by rewrite lookup_insert_ne].
  exists a'. rewrite lookup_insert_eq. split; [done|]. by replace x with a by congruence.
Qed.

Lemma small_keep allocs allocs' b :
  allocs_keep allocs allocs' -> is_Some (allocs !! key b) -> small_buffer allocs b -> small_buffer allocs' b.
Proof.
  intros Hk [a Ha] Hs id x i Hx Hi. destruct (Hk _ _ Ha) as (a' & Ha' & Hc & Ho). assert (x = a') as -> by congruence.
  assert (buffer_info id a b = Ok i) as Hi' by (rewrite <- Hi; unfold buffer_info, Buffers.aligned_size, Buffers.aligned_page_size, alignment; by rewrite Hc).
  unfold small_request, share_of. rewrite (proj2 (Ho _)). exact (Hs id a i Ha Hi').
Qed.

(** No graph capture takes allocations over. *)
Abbreviation no_hook := (fun _ : Z => false).
Abbreviation run_work := (run_work dflt active no_hook no_hook).
Abbreviation push_work := (push_work dflt active no_hook no_hook passthrough).
Abbreviation deallocate_impl := (deallocate_impl dflt active no_hook).

Record object_ok (r : Runtime) (id : Z) (b : Buffer) : Prop := mkObjectOk {
  object_id : unique_id_ b = id;
  object_old : id < next_unique_id r;
  object_allocator : is_Some (allocators r !! key b);
  object_manager : check_sub_device_manager active b = Ok tt;
  object_small : small_buffer (allocators r) b;
}.

(** A buffer whose work waits exists and owns its data; one that waits to be allocated
    waits once and has not been; one that waits to be deleted waits for nothing else and
    nobody holds it. *)
Record ok (clean : bool) (r : Runtime) : Prop := mkOk {
  ok_mem : exists m, mem_ok clean (objects r) (allocators r) m;
  ok_init : initialized_ r = true;
  ok_object : forall id b, objects r !! id = Some b -> object_ok r id b;
  ok_held : forall id, 0 <= held r id /\ (0 < held r id -> is_Some (objects r !! id));
  ok_queue : forall w, w ∈ queue r -> exists b, objects r !! work_target w = Some b /\ owns_data_ b = true;
  ok_requested : forall id b, work_allocate id ∈ queue r -> objects r !! id = Some b -> allocation_status_ b = ALLOCATION_REQUESTED /\ size_ b <> 0;
  ok_once : forall i j id, queue r !! i = Some (work_allocate id) -> queue r !! j = Some (work_allocate id) -> i = j;
  ok_unheld : forall id, work_delete id ∈ queue r -> held r id = 0;
  ok_last : forall i j id w, queue r !! i = Some (work_delete id) -> queue r !! j = Some w -> work_target w = id -> i = j;
}.

(** Another state of one object, and of its allocator. *)
Definition replace (id : Z) (b : Buffer) (allocs : gmap (Z * Z) Allocator) (r : Runtime) : Runtime :=
  mkRuntime (<[id := b]> (objects r)) (handles r) (queue r) allocs (next_unique_id r) (initialized_ r).

Lemma replace_twice id b b' allocs allocs' r : replace id b' allocs' (replace id b allocs r) = replace id b' allocs' r.
Proof. unfold replace. cbn. by rewrite insert_insert_eq. Qed.

Definition same_object (b b' : Buffer) : Prop :=
  unique_id_ b' = unique_id_ b /\ sub_device_id_ b' = sub_device_id_ b /\ sub_device_manager_id_ b' = sub_device_manager_id_ b /\
  owns_data_ b' = owns_data_ b /\ size_ b' = size_ b /\ buffer_type_ b' = buffer_type_ b /\ (forall allocs, small_buffer allocs b -> small_buffer allocs b').

Lemma ok_replace clean clean' r id b b' allocs m :
  ok clean r -> objects r !! id = Some b -> same_object b b' ->
  (work_allocate id ∈ queue r -> allocation_status_ b' = ALLOCATION_REQUESTED) ->
  allocs_keep (allocators r) allocs ->
  mem_ok clean' (<[id := b']> (objects r)) allocs m -> ok clean' (replace id b' allocs r).
Proof.
  intros [] Hb (E1 & E2 & E3 & E4 & E5 & E6 & E7) Hreq Hal Hm. constructor; cbn; [by exists m|done| | | | |done|done|done].
  - intros i x [[<- <-]|[Hne Hi]]%lookup_insert_Some.
    + destruct (ok_object0 _ _ Hb) as [? ? [a Ha] ? ?]. destruct (Hal _ _ Ha) as (a' & Ha' & _).
      constructor; cbn; [congruence|done|rewrite E2; by eexists|unfold check_sub_device_manager; by rewrite E3|].
      apply E7. by eapply small_keep.
    + destruct (ok_object0 _ _ Hi) as [? ? [a Ha] ? ?]. destruct (Hal _ _ Ha) as (a' & Ha' & _). constructor; cbn; [done..|by eexists|done|by eapply small_keep].
  - intros i. destruct (ok_held0 i) as [H1 H2]. split; [done|]. intros Hh. destruct (Z.eq_dec i id) as [->|Hne]; [by rewrite lookup_insert_eq|].
    rewrite lookup_insert_ne by done. by apply H2.
  - intros w Hw. destruct (ok_queue0 w Hw) as (x & Hx & Ho). destruct (Z.eq_dec (work_target w) id) as [E|Hne].
    + rewrite E, lookup_insert_eq. exists b'. split; [done|]. rewrite E in Hx. congruence.
    + rewrite lookup_insert_ne by done. by exists x.
  - intros i x Hw [[<- <-]|[Hne Hi]]%lookup_insert_Some; [|by eapply ok_requested0]. split; [by apply Hreq|]. rewrite E5. by eapply ok_requested0.
Qed.

Lemma same_status st b : same_object b (set_status st b).
Proof. by split_and!. Qed.

Lemma same_allocated addr b : same_object b (set_status ALLOCATED (set_address addr b)).
Proof. by split_and!. Qed.

Lemma same_requested b : same_object b (request_deallocation b).
Proof. by split_and!. Qed.

#[local] Hint Resolve allocs_keep_same same_status same_allocated same_requested : core.

Lemma object_run r id b : objects r !! id = Some b -> object id r = (r, Ok b).
Proof. intros H. unfold object. erewrite M_bind_ok by reflexivity. unfold lift. by rewrite H. Qed.

Lemma on_object_run r id b f : objects r !! id = Some b -> on_object id f r = (replace id (f b) (allocators r) r, Ok tt).
Proof. intros H. unfold on_object. by erewrite M_bind_ok by (by apply object_run). Qed.

(** *** Who refers to a buffer *)

Definition referenced (r : Runtime) (id : Z) : Prop := 0 < held r id \/ exists w, w ∈ queue r /\ work_target w = id.

(** Every buffer but [x] has a pointer or waits in the queue. *)
Definition kept (x : option Z) (r : Runtime) : Prop := forall id, is_Some (objects r !! id) -> Some id <> x -> referenced r id.

Lemma kept_weaken x y r r' :
  kept x r -> (forall id, is_Some (objects r' !! id) -> Some id <> y -> is_Some (objects r !! id) /\ Some id <> x) ->
  (forall id, Some id <> y -> referenced r id -> referenced r' id) -> kept y r'.
Proof. intros Hk Ho Hr id Hi Hy. destruct (Ho id Hi Hy). by apply Hr, Hk. Qed.

Lemma kept_replace x id b b' allocs r : objects r !! id = Some b -> kept x r -> kept x (replace id b' allocs r).
Proof.
  intros Hb Hk. eapply kept_weaken; [exact Hk| |done]. intros i Hi Hx. split; [|done]. cbn in Hi.
  destruct (decide (i = id)) as [->|Hne]; [by exists b|by rewrite lookup_insert_ne in Hi].
Qed.

Lemma kept_enqueue w r : kept (Some (work_target w)) r -> kept None (set_queue (queue r ++ [w]) r).
Proof.
  intros Hk i Hi _. destruct (decide (i = work_target w)) as [->|Hne].
  - right. exists w. split; [|done]. cbn. apply elem_of_app. right. by apply list_elem_of_singleton.
  - destruct (Hk i Hi) as [?|(v & ? & ?)]; [congruence|by left|]. right. exists v. split; [|done]. cbn. apply elem_of_app. by left.
Qed.

Lemma kept_destroy id r r' : kept (Some id) r -> objects r' = delete id (objects r) -> queue r' = queue r -> handles r' = handles r -> kept None r'.
Proof.
  intros Hk Ho Hq Hh. eapply kept_weaken; [exact Hk| |intros i _; unfold referenced, held; by rewrite Hq, Hh].
  intros i [b Hb] _. rewrite Ho in Hb. apply lookup_delete_Some in Hb as [Hne Hb]. split; [by exists b|congruence].
Qed.

(** *** The functions pushed *)

Lemma deallocate_impl_ok clean r id b :
  ok clean r -> objects r !! id = Some b -> owns_data_ b = true ->
  exists b' allocs, deallocate_impl id r = (replace id b' allocs r, Ok tt) /\ ok clean (replace id b' allocs r) /\ ~ has_memory b' /\ same_object b b' /\
    (allocation_status_ b' = ALLOCATED -> False).
Proof.
  intros H Hb Hown. pose proof H as []. destruct ok_mem0 as [m Hm]. unfold BufferLife.deallocate_impl.
  erewrite M_bind_ok by (by apply object_run). case_bool_decide as Hst.
  2: { exists b, (allocators r). assert (replace id b (allocators r) r = r) as -> by (destruct r; unfold replace; cbn in *; by rewrite insert_id).
       split_and!; try done. by intros (_ & ? & _). }
  erewrite M_bind_ok by reflexivity. cbv beta. rewrite ok_init0. cbn [andb].
  destruct (Z.eqb_spec (size_ b) 0) as [Hz|Hz]; cbn [negb when].
  - exists (set_status DEALLOCATED b), (allocators r). erewrite M_bind_ok by reflexivity.
    split; [by apply on_object_run|]. assert (~ has_memory b) as Hno by (by intros (_ & _ & ?)).
    assert (~ has_memory (set_status DEALLOCATED b)) as Hno' by (by intros (_ & ? & _)).
    split_and!; [|done|apply same_status|done]. eapply ok_replace; [done|done|apply same_status| |done|].
    + intros Hw. by destruct (ok_requested0 id b Hw Hb) as [E _]; rewrite Hst in E.
    + apply mem_ok_insert; [done|done|]. intros b0 E. by replace b0 with b by congruence.
  - assert (has_memory b) as Hhas by done. destruct (ok_object0 _ _ Hb) as [_ _ [a Ha] Hman _].
    destruct (mem_free clean _ _ m id b a Hm Hb Hhas Ha) as (a' & m' & E & Hk & Hm').
    exists (set_status DEALLOCATED b), (<[key b := a']> (allocators r)).
    erewrite M_bind_ok with (s' := set_allocator (key b) a' r) (a := tt).
    2: { unfold DeallocateBuffer. erewrite M_bind_ok by (by apply object_run). erewrite M_bind_ok by (unfold lift; by rewrite Hman).
         unfold on_allocator_of. by rewrite Ha, E. }
    split; [exact (on_object_run (set_allocator (key b) a' r) id b (set_status DEALLOCATED) Hb)|]. split_and!; [|by intros (_ & ? & _)|apply same_status|done].
    eapply ok_replace; [done|done|apply same_status| | |exact Hm'].
    + intros Hw. by destruct (ok_requested0 id b Hw Hb) as [E' _]; rewrite Hst in E'.
    + by eapply allocs_keep_insert.
Qed.

(** An object nobody refers to goes. *)
Lemma ok_destroy clean r id b :
  ok clean r -> objects r !! id = Some b -> ~ has_memory b -> held r id = 0 -> (forall w, w ∈ queue r -> work_target w <> id) ->
  ok clean (set_objects (delete id (objects r)) r).
Proof.
  intros [] Hb Hno Hh Hq. destruct ok_mem0 as [m Hm]. constructor; cbn; try done.
  - exists m. apply mem_ok_delete; [done|]. intros b0 E. by replace b0 with b by congruence.
  - intros i x [Hne Hi]%lookup_delete_Some. by destruct (ok_object0 _ _ Hi).
  - intros i. destruct (ok_held0 i) as [H1 H2]. split; [done|]. intros Hp. change (0 < held r i) in Hp. rewrite lookup_delete_ne; [by apply H2|]. intros <-. lia.
  - intros w Hw. destruct (ok_queue0 w Hw) as (x & Hx & Ho). exists x. split; [|done]. rewrite lookup_delete_ne; [done|]. intros E. by apply (Hq w).
  - intros i x Hw [Hne Hi]%lookup_delete_Some. by apply (ok_requested0 i).
Qed.

Lemma run_delete_ok clean r id b :
  ok clean r -> objects r !! id = Some b -> owns_data_ b = true -> held r id = 0 -> (forall w, w ∈ queue r -> work_target w <> id) ->
  exists r', run_work (work_delete id) r = (r', Ok tt) /\ ok clean r' /\ queue r' = queue r /\ handles r' = handles r /\ objects r' = delete id (objects r).
Proof.
  intros H Hb Hown Hh Hq. destruct (deallocate_impl_ok clean r id b H Hb Hown) as (b' & allocs & E & Hok & Hno & _).
  eexists. cbn [BufferLife.run_work]. rewrite E. split; [reflexivity|]. split; [|split_and!; try done; apply delete_insert_eq].
  eapply ok_destroy; [exact Hok|by cbn; rewrite lookup_insert_eq|done|done|done].
Qed.

Lemma references_zero clean r id : ok clean r -> references r id = 0 -> held r id = 0 /\ forall w, w ∈ queue r -> work_holds id w = false.
Proof.
  intros H E. pose proof (ok_held _ _ H id) as [Hh _]. unfold references in E. split; [lia|].
  intros w Hw. destruct (work_holds id w) eqn:Ew; [|done]. exfalso.
  assert (w ∈ filter (fun w => work_holds id w = true) (queue r)) as Hin by (by apply list_elem_of_filter).
  destruct (filter _ (queue r)); [by apply elem_of_nil in Hin|cbn in E; lia].
Qed.

Lemma unreferenced clean r id :
  ok clean r -> references r id = 0 -> (forall w, w ∈ queue r -> w <> work_delete id) -> forall w, w ∈ queue r -> work_target w <> id.
Proof.
  intros H E Hd w Hw Et. destruct (references_zero clean r id H E) as [_ Hn]. specialize (Hn w Hw). destruct w as [i|i|i]; cbn in *; subst.
  - by rewrite Z.eqb_refl in Hn.
  - by rewrite Z.eqb_refl in Hn.
  - by apply (Hd (work_delete id)).
Qed.

Lemma kept_gone r id : objects r !! id = None -> kept (Some id) r -> kept None r.
Proof. intros Hb Hk. eapply kept_weaken; [exact Hk| |done]. intros i [b Hi] _. split; [by exists b|congruence]. Qed.

(** Another pointer is left. *)
Lemma kept_shared clean r id : ok clean r -> references r id <> 0 -> kept (Some id) r -> kept None r.
Proof.
  intros H E Hk i Hi _. destruct (decide (i = id)) as [->|Hne]; [|apply Hk; [done|congruence]].
  destruct (filter (fun w => work_holds id w = true) (queue r)) as [|w l] eqn:Ef.
  - left. unfold references in E. rewrite Ef in E. cbn in E. pose proof (ok_held _ _ H id). lia.
  - right. exists w. assert (w ∈ filter (fun w => work_holds id w = true) (queue r)) as Hw by (rewrite Ef; by left).
    apply list_elem_of_filter in Hw as [Hw Hq]. split; [done|]. destruct w; cbn in *; try done; by apply Z.eqb_eq.
Qed.

(** The last pointer goes on the worker's thread, or where work runs at once. *)
Lemma when_last_runs clean r id :
  ok clean r -> (forall w, w ∈ queue r -> w <> work_delete id) ->
  exists r', when_last id run_work r = (r', Ok tt) /\ ok clean r' /\ queue r' = queue r /\ (kept (Some id) r -> kept None r').
Proof.
  intros H Hd. unfold when_last. erewrite M_bind_ok by reflexivity.
  destruct (objects r !! id) as [b|] eqn:Hb; [|exists r; split_and!; [done..|by apply kept_gone]].
  destruct (Z.eqb_spec (references r id) 0) as [E|]; [|exists r; split_and!; [done..|by eapply kept_shared]].
  destruct (references_zero clean r id H E) as [Hh _]. pose proof (unreferenced clean r id H E Hd) as Hq. destruct (owns_data_ b) eqn:Ho.
  - destruct (run_delete_ok clean r id b H Hb Ho Hh Hq) as (r' & E' & Hok & Hqq & Hhh & Hoo).
    exists r'. split_and!; [done..|]. intros Hk. by eapply kept_destroy.
  - eexists. split; [reflexivity|]. split_and!; [eapply ok_destroy; [done|done|by intros (? & _); congruence|done|done]|done|].
    intros Hk. by eapply kept_destroy.
Qed.

Lemma ok_enqueue clean r w b :
  ok clean r -> objects r !! work_target w = Some b -> owns_data_ b = true ->
  match w with
  | work_allocate id => allocation_status_ b = ALLOCATION_REQUESTED /\ size_ b <> 0 /\ forall w', w' ∈ queue r -> work_target w' <> id
  | work_deallocate id => forall w', w' ∈ queue r -> w' <> work_delete id
  | work_delete id => held r id = 0 /\ forall w', w' ∈ queue r -> work_target w' <> id
  end -> ok clean (set_queue (queue r ++ [w]) r).
Proof.
  intros [] Hb Hown Hw. constructor; cbn; try done.
  - intros i x Hi. by destruct (ok_object0 i x Hi).
  - intros w' [Hw'|Hw']%elem_of_app; [by apply ok_queue0|]. apply list_elem_of_singleton in Hw' as ->. by exists b.
  - intros i x [Hi|Hi]%elem_of_app Hx; [by eapply ok_requested0|]. apply list_elem_of_singleton in Hi as <-. cbn in Hb.
    assert (x = b) as -> by congruence. naive_solver.
  - intros i j id Hi Hj. apply lookup_snoc_Some in Hi as [[Hil Hi]|[-> Ei]]; apply lookup_snoc_Some in Hj as [[Hjl Hj]|[-> Ej]]; [exact (ok_once0 i j id Hi Hj)| | |done].
    + subst w. destruct Hw as (_ & _ & Hw). exfalso. apply (Hw (work_allocate id)); [by eapply list_elem_of_lookup_2|done].
    + subst w. destruct Hw as (_ & _ & Hw). exfalso. apply (Hw (work_allocate id)); [by eapply list_elem_of_lookup_2|done].
  - intros id [Hi|Hi]%elem_of_app; [by apply ok_unheld0|]. apply list_elem_of_singleton in Hi as <-. apply Hw.
  - intros i j id w' Hi Hj Ht. apply lookup_snoc_Some in Hi as [[Hil Hi]|[-> Ei]]; apply lookup_snoc_Some in Hj as [[Hjl Hj]|[-> Ej]]; [exact (ok_last0 i j id w' Hi Hj Ht)| | |done].
    + subst w'. apply list_elem_of_lookup_2 in Hi. exfalso. destruct w as [i'|i'|i']; cbn in Ht; subst i'; [by apply (proj2 (proj2 Hw) _ Hi)|by apply (Hw _ Hi)|by apply (proj2 Hw _ Hi)].
    + subst w. apply list_elem_of_lookup_2 in Hj. exfalso. by apply (proj2 Hw _ Hj).
Qed.

Lemma ok_dequeue clean r w q : ok clean r -> queue r = w :: q -> ok clean (set_queue q r).
Proof.
  intros [] E. rewrite E in *. constructor; cbn; try done.
  - intros i x Hi. by destruct (ok_object0 i x Hi).
  - intros w' Hw'. apply ok_queue0. by right.
  - intros i x Hi Hx. eapply ok_requested0; [by right|done].
  - intros i j id Hi Hj. by injection (ok_once0 (S i) (S j) id Hi Hj).
  - intros id Hi. apply ok_unheld0. by right.
  - intros i j id w' Hi Hj Ht. by injection (ok_last0 (S i) (S j) id w' Hi Hj Ht).
Qed.

Definition fine {A} (x : res A) : bool := match x with Ok _ => true | Err _ => false end.

Lemma AllocateBuffer_run r id b a :
  objects r !! id = Some b -> check_sub_device_manager active b = Ok tt -> allocators r !! key b = Some a ->
  let op := match buffer_info id a b with Ok i => allocate_buffer i a | Err e => (a, Err e) end in
  AllocateBuffer dflt active no_hook id r =
    (set_allocator (key b) op.1 r, addr ← op.2; check Assert (addr <=? 2 ^ 32 - 1);; Ok addr).
Proof.
  intros Hb Hman Ha op. unfold AllocateBuffer. erewrite M_bind_ok by (by apply object_run). erewrite M_bind_ok by (unfold lift; by rewrite Hman).
  unfold on_allocator_of, mbind, M_bind. rewrite Ha. fold op. destruct op as [a' [addr|e]]; [|done].
  unfold require. cbn [fst snd mbind res_bind]. by destruct (addr <=? 2 ^ 32 - 1).
Qed.

(** A failed allocation; the allocator may have changed. *)
Lemma mark_failed clean r id b a a' m e :
  ok clean r -> objects r !! id = Some b -> allocators r !! key b = Some a -> keeps_offsets a a' -> ~ has_memory b -> work_allocate id ∉ queue r ->
  let allocs := <[(key b) := a']> (allocators r) in mem_ok false (objects r) allocs m ->
  let b' := set_status ALLOCATION_FAILED b in
  (on_object id (set_status ALLOCATION_FAILED);; fail e) (set_allocator (key b) a' r) = (replace id b' allocs r, @Err unit e) /\
  same_object b b' /\ ok false (replace id b' allocs r).
Proof.
  intros H Hb Ha Hk Hno Hnq allocs Hm b'. split_and!; try done.
  - by erewrite M_bind_ok by exact (on_object_run (set_allocator (key b) a' r) id b _ Hb).
  - eapply ok_replace; [exact H|done|apply same_status|done|by eapply allocs_keep_insert|].
    apply mem_ok_insert; [exact Hm|by intros (_ & ? & _)|]. intros b0 E0. by replace b0 with b by congruence.
Qed.

(** The function of [create]: the buffer is allocated, or marked as failed. *)
Lemma run_allocate_ok clean r id b :
  ok clean r -> objects r !! id = Some b -> owns_data_ b = true -> allocation_status_ b = ALLOCATION_REQUESTED -> size_ b <> 0 ->
  work_allocate id ∉ queue r ->
  exists b' allocs x, run_work (work_allocate id) r = (replace id b' allocs r, x) /\ same_object b b' /\
    ok (clean && fine x) (replace id b' allocs r) /\ (x = Ok tt -> has_memory b').
Proof.
  intros H Hb Hown Hst Hsz Hnq. pose proof H as []. destruct ok_mem0 as [m Hm]. destruct (ok_object0 _ _ Hb) as [_ _ [a Ha] Hman Hsmall].
  set (k := key b) in *. assert (~ has_memory b) as Hno by (intros (_ & E & _); congruence).
  pose proof (AllocateBuffer_run r id b a Hb Hman Ha) as E. cbv zeta in E. fold k in E.
  set (op := match buffer_info id a b with Ok i => allocate_buffer i a | Err e => (a, Err e) end) in E.
  assert (exists i, (fine op.2 = true -> buffer_info id a b = Ok i) /\ allocates_buffer i a (m k) op) as (i & Hi & Hop).
  { subst op. destruct (buffer_info id a b) as [i|e] eqn:Ei.
    - exists i. split; [done|]. apply allocate_buffer_cases; [by apply (mem_serves _ _ _ _ Hm)|by eapply Hsmall].
    - exists (mkBuffer id 0 0 (buffer_type_ b) true None). split; [done|]. exists (m k). split; [by apply (mem_serves _ _ _ _ Hm)|]. split; [by split|]. cbn. auto. }
  cbn [BufferLife.run_work]. rewrite E. assert (keeps_offsets a op.1) as Hkeep by (by destruct Hop as (? & _ & ? & _)).
  destruct op as [a' [addr|e]]; cbn [fst snd mbind res_bind]; [destruct (Z.leb_spec addr (2 ^ 32 - 1)) as [Hle|Hgt]|].
  - destruct (mem_alloc clean _ _ m id b a i addr a' Hm Hb Hno Hown Hsz Ha (Hi eq_refl) Hle Hop) as [m' Hm'].
    exists (set_status ALLOCATED (set_address addr b)), (<[k := a']> (allocators r)), (Ok tt). cbn [check mbind res_bind mret res_ret]. split_and!.
    + erewrite M_bind_ok by exact (on_object_run (set_allocator k a' r) id b _ Hb). rewrite (on_object_run _ id (set_address addr b)) by (cbn; by rewrite lookup_insert_eq).
      by rewrite (replace_twice id _ _ _ (allocators (set_allocator k a' r)) (set_allocator k a' r)).
    + apply same_allocated.
    + rewrite andb_true_r. eapply ok_replace; [exact H|done|apply same_allocated|done|by eapply allocs_keep_insert|exact Hm'].
    + done.
  - destruct (mem_alloc_lost clean _ _ m k a i a' addr Hm Ha Hop) as [m' Hm'].
    destruct (mark_failed clean r id b a a' m' Assert H Hb Ha Hkeep Hno Hnq Hm') as (Er & Hsame & Hok). eexists _, _, (Err Assert). cbn [fine]. rewrite andb_false_r. by split_and!.
  - destruct (mem_alloc_fails clean _ _ m k a i a' e Hm Ha Hop) as [m' Hm'].
    destruct (mark_failed clean r id b a a' m' e H Hb Ha Hkeep Hno Hnq Hm') as (Er & Hsame & Hok). eexists _, _, (Err e). cbn [fine]. rewrite andb_false_r. by split_and!.
Qed.

(** *** Handles *)

Lemma ok_weaken clean c r : ok clean r -> ok (clean && c) r.
Proof.
  intros []. constructor; auto. destruct ok_mem0 as [m []]. exists m. constructor; auto. intros Hc. apply mem_exact0. by destruct clean.
Qed.

Lemma held_set r id n i : held (set_handles (<[id := n]> (handles r)) r) i = if decide (i = id) then n else held r i.
Proof. unfold held. cbn. case_decide as E; [by rewrite E, lookup_insert_eq|by rewrite lookup_insert_ne]. Qed.

Lemma ok_handle clean r id n :
  ok clean r -> 0 < held r id -> 0 <= n -> ok clean (set_handles (<[id := n]> (handles r)) r).
Proof.
  intros [] Hh Hn. constructor; try done.
  - intros i x Hi. by destruct (ok_object0 i x Hi).
  - intros i. rewrite held_set. case_decide as E; [|apply ok_held0]. subst. split; [done|]. intros _. by apply ok_held0.
  - intros i Hi. rewrite held_set. case_decide as E; [|by apply ok_unheld0]. subst. specialize (ok_unheld0 id Hi). lia.
Qed.

Lemma held_no_delete clean r id : ok clean r -> 0 < held r id -> forall w, w ∈ queue r -> w <> work_delete id.
Proof. intros H Hh w Hw ->. pose proof (ok_unheld _ _ H id Hw). lia. Qed.

(** The client gives a pointer up, or the deleter runs where work runs at once. *)
Lemma drop_handle_ok clean r id :
  ok clean r -> 0 < held r id -> exists r', drop_handle dflt active no_hook no_hook passthrough id r = (r', Ok tt) /\ ok clean r' /\ (kept None r -> kept None r').
Proof.
   intros H Hh. unfold drop_handle. erewrite M_bind_ok by reflexivity. set (r1 := set_handles _ r).
  assert (ok clean r1) as H1 by (apply ok_handle; [done|done|lia]). assert (forall w, w ∈ queue r1 -> w <> work_delete id) as Hd by exact (held_no_delete clean r id H Hh).
  assert (kept None r -> kept (Some id) r1) as Hk1.
  { intros Hk. eapply kept_weaken; [exact Hk|done|]. intros i Hi. unfold referenced, r1. rewrite held_set, decide_False by congruence. done. }
  unfold BufferLife.push_work. destruct passthrough; [destruct (when_last_runs clean r1 id H1 Hd) as (r' & E & Hok & _ & Hk); exists r'; split_and!; [exact E|done|auto]|].
  unfold when_last. erewrite M_bind_ok by reflexivity.
  destruct (objects r1 !! id) as [b|] eqn:Hb; [|exists r1; split_and!; [done..|intros; apply (kept_gone r1 id); auto]].
  destruct (Z.eqb_spec (references r1 id) 0) as [E|]; [|exists r1; split_and!; [done..|intros; eapply (kept_shared clean r1 id); auto]].
  destruct (references_zero clean r1 id H1 E) as [Hz _]. pose proof (unreferenced clean r1 id H1 E Hd) as Hq.
  destruct (owns_data_ b) eqn:Ho; eexists; (split; [reflexivity|]).
  - split; [by apply (ok_enqueue clean r1 (work_delete id) b)|]. intros Hk. by apply (kept_enqueue (work_delete id) r1), Hk1.
  - split; [eapply ok_destroy; [done|done|by intros (? & _); congruence|done|done]|]. intros Hk. by eapply (kept_destroy id r1); [apply Hk1|..].
Qed.

(** *** Creation *)

Section Creation.
Context (worker_cores : Z -> res CoreRangeSet).

(** The sizes of the buffer asked for, and what it would ask of any allocator. *)
Definition small_args (allocs : gmap (Z * Z) Allocator) (x : BufferArgs) : Prop :=
  forall b, size_ b = arg_size x -> page_size_ b = arg_page_size x -> buffer_type_ b = arg_type x -> buffer_layout_ b = arg_layout x ->
    shard_parameters_ b = arg_shards x -> sub_device_id_ b = arg_sub_device x -> small_buffer allocs b.

Lemma Buffer_new_cases x owns r :
  (exists e, Buffer_new worker_cores dflt active x owns r = (r, Err e)) \/
  exists b, Buffer_new worker_cores dflt active x owns r = (set_next_id (next_unique_id r + 1) r, Ok b) /\
    unique_id_ b = next_unique_id r /\ owns_data_ b = owns /\ allocation_status_ b = ALLOCATION_REQUESTED /\
    is_Some (allocators r !! key b) /\ check_sub_device_manager active b = Ok tt /\ (small_args (allocators r) x -> small_buffer (allocators r) b).
Proof.
  unfold Buffer_new. destruct (validate_sub_device_id _ _ _ _) as [[]|e]; [|left; by exists e]. erewrite M_bind_ok by reflexivity.
  destruct (allocators r !! allocator_key dflt active (arg_sub_device x)) as [a|] eqn:Ha.
  2: { left. exists Fatal. apply M_bind_err. unfold get_initialized_allocator. erewrite M_bind_ok by reflexivity. unfold lift. by rewrite Ha. }
  erewrite M_bind_ok by (unfold get_initialized_allocator; erewrite M_bind_ok by reflexivity; unfold lift; by rewrite Ha).
  destruct (if arg_size x =? 0 then _ else _) as [[]|e]; [|left; by exists e]. erewrite M_bind_ok by reflexivity.
  right. eexists. split; [reflexivity|]. cbn. split_and!; try done.
  - unfold check_sub_device_manager. cbn. destruct (arg_sub_device x); [by rewrite Z.eqb_refl|done].
  - intros Hs. by apply Hs.
Qed.

Definition with_object (b : Buffer) (r : Runtime) : Runtime :=
  set_objects (<[unique_id_ b := b]> (objects r)) (set_handles (<[unique_id_ b := 1]> (handles r)) r).

Lemma ok_new clean r b :
  ok clean r -> unique_id_ b = next_unique_id r -> ~ has_memory b -> is_Some (allocators r !! key b) ->
  check_sub_device_manager active b = Ok tt -> small_buffer (allocators r) b ->
  let r' := with_object b (set_next_id (next_unique_id r + 1) r) in
  ok clean r' /\ held r' (unique_id_ b) = 1 /\ (forall w, w ∈ queue r' -> work_target w <> unique_id_ b) /\ (kept None r -> kept None r').
Proof.
  intros [] Hid Hno Ha Hman Hs r'.
  assert (objects r !! unique_id_ b = None) as Hnone.
  { destruct (objects r !! unique_id_ b) as [x|] eqn:Hx; [|done]. pose proof (object_old _ _ _ (ok_object0 _ _ Hx)). lia. }
  assert (forall w, w ∈ queue r -> work_target w <> unique_id_ b) as Hq by (intros w Hw E; destruct (ok_queue0 w Hw) as (x & Hx & _); congruence).
  assert (forall i, held r' i = if decide (i = unique_id_ b) then 1 else held r i) as Hheld by (intros i; apply (held_set (set_next_id _ r))).
  split; [|split; [rewrite Hheld; by rewrite decide_True|split; [done|]]]; [constructor; try done|].
  - destruct ok_mem0 as [m Hm]. exists m. apply mem_ok_insert; [done|done|]. intros b0 E. cbn in E. congruence.
  - intros i x Hi. change (<[unique_id_ b := b]> (objects r) !! i = Some x) in Hi. apply lookup_insert_Some in Hi as [[<- <-]|[Hne Hi]].
    + constructor; cbn; auto; lia.
    + destruct (ok_object0 i x Hi). constructor; cbn; auto; lia.
  - intros i. rewrite Hheld. cbn. case_decide as E; [subst; split; [lia|by rewrite lookup_insert_eq]|]. rewrite lookup_insert_ne by done. apply ok_held0.
  - intros w Hw. destruct (ok_queue0 w Hw) as (x & Hx & Ho). exists x. split; [|done]. cbn. rewrite lookup_insert_ne; [done|]. intros E. by apply (Hq w).
  - intros i x Hw Hi. change (<[unique_id_ b := b]> (objects r) !! i = Some x) in Hi. apply lookup_insert_Some in Hi as [[<- <-]|[Hne Hi]].
    + by destruct (Hq _ Hw).
    + by eapply ok_requested0.
  - intros i Hi. rewrite Hheld. case_decide as E; [subst; by destruct (Hq _ Hi)|by apply ok_unheld0].
  - intros Hk i [x Hi] _. unfold referenced. rewrite Hheld. case_decide as E; [left; lia|]. cbn in Hi. rewrite lookup_insert_ne in Hi by done.
    apply (Hk i); [by exists x|done].
Qed.

Lemma create_ok clean r x :
  ok clean r -> small_args (allocators r) x ->
  exists r' y, create worker_cores dflt active no_hook no_hook passthrough x r = (r', y) /\ ok (clean && fine y) r' /\ (fine y = true -> kept None r -> kept None r').
Proof.
  intros H Hx. unfold create. destruct (Buffer_new_cases x true r) as [[e E]|(b & E & Hid & Hown & Hst & Ha & Hman & Hs)].
  { erewrite M_bind_err by exact E. exists r, (Err e). split_and!; [done|by apply ok_weaken|done]. }
  erewrite M_bind_ok by exact E. cbv zeta. erewrite M_bind_ok by reflexivity. fold (with_object b (set_next_id (next_unique_id r + 1) r)).
  set (r2 := with_object b _). assert (~ has_memory b) as Hno by (intros (_ & E' & _); congruence).
  destruct (ok_new clean r b H Hid Hno Ha Hman (Hs Hx)) as (H2 & Hh & Hq & Hk). fold r2 in H2, Hh, Hq, Hk.
  assert (objects r2 !! unique_id_ b = Some b) as Hb by (subst r2; cbn; apply lookup_insert_eq).
  assert (work_allocate (unique_id_ b) ∉ queue r2) as Hnq by (intros Hw; by apply (Hq _ Hw)).
  destruct (Z.eqb_spec (size_ b) 0) as [Hz|Hz].
  - erewrite M_bind_ok by (by apply on_object_run). eexists _, (Ok _). split; [reflexivity|]. cbn [fine]. rewrite andb_true_r.
    split; [|intros _ Hk0; eapply kept_replace; [exact Hb|auto]]. destruct (ok_mem _ _ H2) as [m Hm].
    assert (~ has_memory (set_status ALLOCATED b)) as Hno' by (by intros (_ & _ & ?)).
    eapply ok_replace; [done|exact Hb|apply same_status|done|done|]. apply mem_ok_insert; [exact Hm|done|]. intros b0 E0. by replace b0 with b by congruence.
  - unfold BufferLife.push_work. destruct passthrough eqn:Ep.
    + destruct (run_allocate_ok clean r2 (unique_id_ b) b H2 Hb Hown Hst Hz Hnq) as (b' & allocs & [[]|e] & E' & Hsame & Hok & _); rewrite E'; cbn [fine] in Hok.
      * eexists _, (Ok _). split_and!; [reflexivity|exact Hok|]. intros _ Hk0. eapply kept_replace; [exact Hb|auto].
      * destruct (drop_handle_ok _ _ (unique_id_ b) Hok) as (r' & Ed & Hok' & _); [change (0 < held r2 (unique_id_ b)); lia|].
        rewrite Ep in Ed. erewrite M_bind_ok by exact Ed. by exists r', (Err e).
    + eexists _, (Ok _). split; [reflexivity|]. cbn [fine]. rewrite andb_true_r.
      split; [by apply (ok_enqueue clean r2 (work_allocate (unique_id_ b)) b)|]. intros _ Hk0. apply kept_enqueue. intros i Hi _. by apply Hk.
Qed.

Lemma create_at_ok clean r addr x :
  ok clean r -> small_args (allocators r) x -> exists r' y, create_at worker_cores dflt active addr x r = (r', y) /\ ok (clean && fine y) r' /\ (fine y = true -> kept None r -> kept None r').
Proof.
  intros H Hx. unfold create_at. destruct (Buffer_new_cases x false r) as [[e E]|(b & E & Hid & Hown & Hst & Ha & Hman & Hs)].
  { erewrite M_bind_err by exact E. exists r, (Err e). split_and!; [done|by apply ok_weaken|done]. }
  erewrite M_bind_ok by exact E. cbv zeta. erewrite M_bind_ok by reflexivity. fold (with_object b (set_next_id (next_unique_id r + 1) r)).
  set (r2 := with_object b _). assert (~ has_memory b) as Hno by (intros (E' & _); congruence).
  destruct (ok_new clean r b H Hid Hno Ha Hman (Hs Hx)) as (H2 & Hh & Hq & Hk). fold r2 in H2, Hh, Hq, Hk.
  assert (objects r2 !! unique_id_ b = Some b) as Hb by (subst r2; cbn; apply lookup_insert_eq).
  erewrite M_bind_ok by (by apply on_object_run). erewrite M_bind_ok.
  2: { apply (on_object_run _ (unique_id_ b) (set_address addr b)). cbn. by rewrite lookup_insert_eq. }
  eexists _, (Ok _). split; [reflexivity|]. cbn [fine]. rewrite andb_true_r, replace_twice.
  split; [|intros _ Hk0; eapply kept_replace; [exact Hb|auto]]. destruct (ok_mem _ _ H2) as [m Hm].
  eapply ok_replace; [done|exact Hb|apply same_allocated|by intros Hw; destruct (Hq _ Hw)|done|].
  apply mem_ok_insert; [exact Hm|by intros (E' & _); cbn in E'; congruence|]. intros b0 E0. by replace b0 with b by congruence.
Qed.

End Creation.

(** *** The client's other calls, and the worker *)

Lemma client_deallocate_ok clean r id :
  ok clean r -> 0 < held r id ->
  exists r', deallocate dflt active no_hook no_hook passthrough id r = (r', Ok tt) /\ ok clean r' /\ (kept None r -> kept None r').
Proof.
   intros H Hh. destruct (proj2 (ok_held _ _ H id) Hh) as [b Hb]. unfold deallocate.
  erewrite M_bind_ok by (by apply on_object_run). set (b' := request_deallocation b). set (r1 := replace id b' _ r).
  assert (objects r1 !! id = Some b') as Hb' by (cbn; apply lookup_insert_eq). erewrite M_bind_ok by (by apply object_run).
  assert (ok clean r1) as H1.
  { destruct (ok_mem _ _ H) as [m Hm]. eapply ok_replace; [exact H|done|apply same_requested|by intros Hw; apply (ok_requested _ _ H id b Hw Hb)|done|].
    eapply mem_ok_same; [exact Hm|done|done..]. }
  assert (kept None r -> kept None r1) as Hk by (by intros; eapply kept_replace).
  destruct (owns_data_ b') eqn:Ho; [|by exists r1]. unfold BufferLife.push_work. destruct passthrough.
  - destruct (deallocate_impl_ok clean r1 id b' H1 Hb' Ho) as (b2 & allocs & E & Hok & _). eexists. split_and!; [exact E|exact Hok|].
    intros Hk0. eapply kept_replace; [exact Hb'|auto].
  - eexists. split; [reflexivity|]. split; [by apply (ok_enqueue clean r1 (work_deallocate id) b'); [..|exact (held_no_delete clean r id H Hh)]|].
    intros Hk0. apply kept_enqueue. intros i Hi _. by apply Hk.
Qed.

Lemma copy_handle_ok clean r id :
  ok clean r -> 0 < held r id -> ok clean (copy_handle id r).1 /\ (kept None r -> kept None (copy_handle id r).1).
Proof.
  intros H Hh. split; [apply ok_handle; [done|done|lia]|]. intros Hk i Hi _. destruct (Hk i Hi) as [Hr|Hr]; [done| |by right].
  left. unfold copy_handle, modify. cbn. rewrite held_set. case_decide; [lia|done].
Qed.

(** The work that waits behind [w]. *)
Lemma behind clean r w q :
  ok clean r -> queue r = w :: q ->
  (forall w', w' ∈ q -> w' <> work_delete (work_target w)) /\
  match w with
  | work_allocate id => work_allocate id ∉ q
  | work_deallocate _ => True
  | work_delete id => forall w', w' ∈ q -> work_target w' <> id
  end.
Proof.
  intros [] E. rewrite E in *. split.
  - intros w' [j Hj]%list_elem_of_lookup_1 ->. by discriminate (ok_last0 (S j) 0%nat _ w Hj eq_refl eq_refl).
  - destruct w as [id| |id]; [|done|].
    + intros [j Hj]%list_elem_of_lookup_1. by discriminate (ok_once0 0%nat (S j) id eq_refl Hj).
    + intros w' [j Hj]%list_elem_of_lookup_1 Et. by discriminate (ok_last0 0%nat (S j) id w' eq_refl Hj Et).
Qed.

(** The worker fails only when it allocates. *)
Lemma worker_turn_ok clean r :
  ok clean r ->
  exists r' y, worker_turn dflt active no_hook no_hook r = (r', y) /\ ok (clean && fine y) r' /\ (fine y = true -> kept None r -> kept None r') /\
    (fine y = false -> exists id, head (queue r) = Some (work_allocate id)).
Proof.
  intros H. unfold worker_turn. erewrite M_bind_ok by reflexivity. destruct (queue r) as [|w q] eqn:Eq.
  { exists r, (Ok tt). rewrite andb_true_r. by split_and!. }
  erewrite M_bind_ok by reflexivity. set (r1 := set_queue q r). pose proof (ok_dequeue clean r w q H Eq : ok clean r1) as H1.
  destruct (behind clean r w q H Eq) as [Hnd Hw]. destruct (ok_queue _ _ H w) as (b & Hb & Ho); [rewrite Eq; by left|].
  assert (kept None r -> kept (Some (work_target w)) r1) as Hk.
  { intros Hk i Hi Hne. destruct (Hk i Hi) as [?|(v & Hv & Et)]; [done|by left|]. right. exists v. split; [|done].
    rewrite Eq in Hv. apply elem_of_cons in Hv as [->|Hv]; [congruence|done]. }
  destruct w as [id|id|id]; cbn in Hb, Hnd, Hw, Hk.
  - destruct (ok_requested _ _ H id b) as [Hst Hsz]; [rewrite Eq; by left|done|].
    destruct (run_allocate_ok clean r1 id b H1 Hb Ho Hst Hsz Hw) as (b' & allocs & [[]|e] & E & _ & Hok & _); cbn [fine] in Hok.
    + erewrite M_bind_ok by exact E. cbn [work_target]. destruct (when_last_runs _ _ id Hok Hnd) as (r' & E' & Hok' & _ & Hk').
      exists r', (Ok tt). split_and!; try done. intros _ Hk0. apply Hk'. eapply kept_replace; [exact Hb|auto].
    + erewrite M_bind_err by exact E. eexists _, (Err e). split_and!; [done|exact Hok|done|by exists id].
  - destruct (deallocate_impl_ok clean r1 id b H1 Hb Ho) as (b' & allocs & E & Hok & _).
    erewrite M_bind_ok by exact E. cbn [work_target]. destruct (when_last_runs _ _ id Hok Hnd) as (r' & E' & Hok' & _ & Hk').
    exists r', (Ok tt). rewrite andb_true_r. split_and!; try done. intros _ Hk0. apply Hk'. eapply kept_replace; [exact Hb|auto].
  - destruct (run_delete_ok clean r1 id b H1 Hb Ho) as (r' & E & Hok & Hqq & Hhh & Hoo); [apply (ok_unheld _ _ H); rewrite Eq; by left|exact Hw|].
    erewrite M_bind_ok by exact E. exists r', (Ok tt). rewrite andb_true_r. split_and!; try done. intros _ Hk0. eapply kept_destroy; [apply Hk|..]; done.
Qed.
End Life.
