(* ===== verification/BufferLifeTheorems.v ===== *)
(** * What holds through the life of a device's buffers: claims

    A run interleaves the client's calls with the turns of the worker, in any order; a
    client may catch what a call throws and go on, while an exception on the worker's
    thread ends the program. *)

From Stdlib Require Import Lia.
From S2P Require Import Prelude CoreCoord FreeList FreeListSpec FreeListTheorems WorkSplit Allocator AllocatorProps AllocatorLive Buffers BufferLife BufferLifeProps.

Inductive event :=
  | ev_create (x : BufferArgs)
  | ev_create_at (address : Z) (x : BufferArgs)
  | ev_copy (id : Z)
  | ev_drop (id : Z)
  | ev_deallocate (id : Z)
  | ev_worker.

Section Runs.
Context (worker_cores : Z -> res CoreRangeSet) (dflt active : Z) (passthrough : bool).

Abbreviation no_hook := (fun _ : Z => false).
Abbreviation key b := (allocator_key dflt active (sub_device_id_ b)).

Definition run_event (e : event) : RM unit :=
  match e with
  | ev_create x => create worker_cores dflt active no_hook no_hook passthrough x;; mret tt
  | ev_create_at address x => create_at worker_cores dflt active address x;; mret tt
  | ev_copy id => copy_handle id
  | ev_drop id => drop_handle dflt active no_hook no_hook passthrough id
  | ev_deallocate id => deallocate dflt active no_hook no_hook passthrough id
  | ev_worker => worker_turn dflt active no_hook no_hook
  end.

(** A client uses the pointers it holds, and asks for sizes that do not overflow. *)
Definition permitted (r : Runtime) (e : event) : Prop :=
  match e with
  | ev_create x | ev_create_at _ x => small_args dflt active (allocators r) x
  | ev_copy id | ev_drop id | ev_deallocate id => 0 < held r id
  | ev_worker => True
  end.

(** No buffers yet, and nothing allocated. *)
Definition starts (r : Runtime) : Prop :=
  objects r = ∅ /\ handles r = ∅ /\ queue r = [] /\ initialized_ r = true /\
  exists m : Maps, (forall k a, allocators r !! k = Some a -> serves a (m k)) /\ forall k t y z, (y, z, true) ∉ m k t.

(** The states a run reaches; [clean] says that no call that makes a buffer has failed. *)
Inductive lives (r0 : Runtime) : bool -> Runtime -> Prop :=
  | lives_start : lives r0 true r0
  | lives_step clean r e r' y :
      lives r0 clean r -> permitted r e -> run_event e r = (r', y) -> (e = ev_worker -> y = Ok tt) -> lives r0 (clean && fine y) r'.

Lemma lives_next r0 clean r e :
  lives r0 clean r -> permitted r e -> (run_event e r).2 = Ok tt -> lives r0 clean (run_event e r).1.
Proof.
  intros Hl Hp E. rewrite <- (andb_true_r clean). eapply (lives_step r0 clean r e _ (Ok tt)); [done|done| |done].
  rewrite <- E. apply surjective_pairing.
Qed.

(** An event whose call fails is one that makes a buffer, or allocates it. *)
Definition may_fail (r : Runtime) (e : event) : Prop :=
  match e with
  | ev_create _ | ev_create_at _ _ => True
  | ev_worker => exists id, head (queue r) = Some (work_allocate id)
  | _ => False
  end.

Lemma event_ok clean r e :
  ok dflt active clean r -> permitted r e ->
  exists r' y, run_event e r = (r', y) /\ ok dflt active (clean && fine y) r' /\ (fine y = true -> kept None r -> kept None r') /\
    (fine y = false -> may_fail r e).
Proof.
  intros H Hp. destruct e as [x|address x|id|id|id|]; cbn [run_event permitted may_fail] in *.
  - destruct (create_ok dflt active passthrough worker_cores clean r x H Hp) as (r' & y & E & Hok & Hk). exists r', (y;; mret tt).
    unfold mbind at 1, M_bind. rewrite E. by destruct y.
  - destruct (create_at_ok dflt active worker_cores clean r address x H Hp) as (r' & y & E & Hok & Hk). exists r', (y;; mret tt).
    unfold mbind at 1, M_bind. rewrite E. by destruct y.
  - destruct (copy_handle_ok dflt active clean r id H Hp) as [Hok Hk]. exists (copy_handle id r).1, (Ok tt). rewrite andb_true_r. by split_and!.
  - destruct (drop_handle_ok dflt active passthrough clean r id H Hp) as (r' & E & Hok & Hk). exists r', (Ok tt). rewrite andb_true_r. by split_and!.
  - destruct (client_deallocate_ok dflt active passthrough clean r id H Hp) as (r' & E & Hok & Hk). exists r', (Ok tt). rewrite andb_true_r. by split_and!.
  - destruct (worker_turn_ok dflt active clean r H) as (r' & y & E & Hok & Hk & Hf). by exists r', y.
Qed.

Lemma starts_ok r0 :
  starts r0 -> (forall id b, objects r0 !! id = Some b -> False) /\ ok dflt active true r0.
Proof.
  intros (Ho & Hh & Hq & Hi & m & Hs & Hn). rewrite Ho. split; [intros id b; by rewrite lookup_empty|].
  constructor; try done; unfold held; rewrite ?Ho, ?Hh, ?Hq.
  - exists m. constructor; [done|intros id b; by rewrite lookup_empty..|]. intros _ k t y z Hy. by destruct (Hn k t y z).
  - intros id b. by rewrite lookup_empty.
  - intros id. rewrite lookup_empty. cbn. lia.
  - by intros w ?%elem_of_nil.
  - by intros id b ?%elem_of_nil.
  - by intros i j id.
  - by intros id ?%elem_of_nil.
  - by intros i j id w.
Qed.

Lemma lives_ok r0 clean r : starts r0 -> lives r0 clean r -> ok dflt active clean r /\ (clean = true -> kept None r).
Proof.
  intros H0. induction 1 as [|clean r e r' y Hl [IH Hk] Hp E _].
  - destruct (starts_ok r0 H0) as [Hn Hok]. split; [done|]. intros _ id [b Hb]. by destruct (Hn id b).
  - destruct (event_ok clean r e IH Hp) as (r1 & y1 & E1 & Hok & Hk1 & _). assert (r1 = r' /\ y1 = y) as [-> ->] by (split; congruence).
    split; [done|]. intros [Hc Hf]%andb_true_iff. auto.
Qed.

(** The range of a bank that a buffer owns. *)
Definition owns_range (r : Runtime) (m : Maps) (b : Buffer) (sz : Z) : Prop :=
  exists a, allocators r !! key b = Some a /\ large_enough a b sz /\
    (address_ b - offset_of a (buffer_type_ b), sz, true) ∈ m (key b) (buffer_type_ b).

Lemma ranges_apart a m t y y' z z' :
  serves a m -> t <> SYSTEM_MEMORY -> (y, z, true) ∈ m t -> (y', z', true) ∈ m t -> y <> y' -> y + z <= y' \/ y' + z' <= y.
Proof.
  intros Hs Ht Hy Hy' Hne. destruct (manager_exists t a Ht) as [bm Hm]. destruct (Hs t bm Hm) as (f & _ & Hreg).
  destruct (region_allocated f _ _ _ Hreg Hy) as [Hh _].   apply holds_tiles in Hh. apply list_elem_of_split in Hy as (l & k & E). rewrite E in Hh, Hy'.
  apply elem_of_app in Hy' as [Hy'|[Hy'|Hy']%elem_of_cons]; [|congruence|].
  - right. by eapply (tiles_before _ l (y, z, true)).
  - left. by eapply (tiles_after _ l (y, z, true)).
Qed.

(** C11: Whatever the client and the worker do, in whatever order and whatever fails, the
    buffers keep clear of each other: each buffer with memory owns an allocated range of
    its allocator, that starts at its address and holds its share of every bank, and the
    ranges of two buffers of the same type and allocator do not meet. *)
Theorem buffers_keep_apart r0 clean r :
  starts r0 -> lives r0 clean r ->
  exists m, (forall k a, allocators r !! k = Some a -> serves a (m k)) /\
    (forall id b, objects r !! id = Some b -> has_memory b -> exists sz, owns_range r m b sz) /\
    forall id id' b b' sz sz', id <> id' -> objects r !! id = Some b -> objects r !! id' = Some b' -> has_memory b -> has_memory b' ->
      key b = key b' -> buffer_type_ b = buffer_type_ b' -> owns_range r m b sz -> owns_range r m b' sz' ->
      address_ b + sz <= address_ b' \/ address_ b' + sz' <= address_ b.
Proof.
  intros H0 Hl. destruct (lives_ok r0 clean r H0 Hl) as [[[m Hm]] _]. exists m. split_and!; [apply Hm| |].
  - intros id b Hb Hmem. destruct (mem_range _ _ _ _ _ _ Hm id b Hb Hmem) as (a & sz & Ha & _ & _ & Hlarge & Hin). by exists sz, a.
  - intros id id' b b' sz sz' Hne Hb Hb' Hmem Hmem' Es Et (a & Ha & _ & Hin) (a' & Ha' & _ & Hin'). rewrite <- Es, <- Et in *.
    assert (a' = a) as -> by congruence. pose proof (mem_apart _ _ _ _ _ _ Hm id id' b b' Hb Hb' Hmem Hmem' Hne Es Et) as Hd.
    destruct (mem_range _ _ _ _ _ _ Hm id b Hb Hmem) as (_ & _ & _ & Ht & _).
    destruct (ranges_apart a _ _ _ _ _ _ (mem_serves _ _ _ _ _ _ Hm _ a Ha) Ht Hin Hin'); [lia|left; lia|right; lia].
Qed.

(** C13: No call goes to a destroyed buffer, frees what is not allocated or fails midway:
    whatever has happened, the client's calls on the pointers it holds succeed, and so
    does every function the worker runs, except that making a buffer may fail, and the
    allocation that it asks of the worker. *)
Theorem only_allocation_fails r0 clean r e :
  starts r0 -> lives r0 clean r -> permitted r e ->
  exists r' y, run_event e r = (r', y) /\ (y = Ok tt \/ may_fail r e).
Proof.
  intros H0 Hl Hp. destruct (lives_ok r0 clean r H0 Hl) as [Hok _]. destruct (event_ok clean r e Hok Hp) as (r' & y & E & _ & _ & Hf).
  exists r', y. split; [done|]. destruct y as [[]|er]; [by left|right; by apply Hf].
Qed.

(** C12: Memory is given back exactly once and none leaks: when no allocation has failed,
    the client has given up its pointers and the worker has run everything, no buffer is
    left, and every bank of every allocator is one free block. *)
Theorem memory_returned r0 r :
  starts r0 -> lives r0 true r -> (forall id, held r id = 0) -> queue r = [] ->
  objects r = ∅ /\
  forall k a t bm f, allocators r !! k = Some a -> manager_of t a = Ok bm -> allocator_ bm = Some f -> 0 < max_size_bytes f ->
    holds f [(shrink_size_ f, max_size_bytes f, false)].
Proof.
  intros H0 Hl Hh Hq. destruct (lives_ok r0 true r H0 Hl) as [[[m Hm]] Hk]. specialize (Hk eq_refl).
  assert (objects r = ∅) as Ho.
  { apply map_empty. intros id. destruct (objects r !! id) as [b|] eqn:Hb; [|done]. exfalso.
    destruct (Hk id) as [Hp|(w & Hw & _)]; [by exists b|done|rewrite Hh in Hp; lia|]. rewrite Hq in Hw. by apply elem_of_nil in Hw. }
  split; [done|]. intros k a t bm f Ha Hbm Hf Hpos. destruct (mem_serves _ _ _ _ _ _ Hm k a Ha t bm Hbm) as (f' & Hf' & _ & [Hhold|[(_ & Hz & _) _]]).
  2: { assert (f' = f) as -> by congruence. lia. }
  assert (f' = f) as -> by congruence. rewrite (all_free (shrink_size_ f) (m k t) (shrink_size_ f + max_size_bytes f)) in Hhold.
  - by replace (shrink_size_ f + max_size_bytes f - shrink_size_ f) with (max_size_bytes f) in Hhold by lia.
  - by apply holds_tiles.
  - by eapply holds_coalesced.
  - lia.
  - intros y z Hy. destruct (mem_exact _ _ _ _ _ _ Hm eq_refl k t y z Hy) as (id & b & _ & Hb & _). by rewrite Ho, lookup_empty in Hb.
Qed.
End Runs.

(** ** On the chip of [demo_alloc] *)

Definition demo_runtime : Runtime := mkRuntime ∅ ∅ [] {[(0, 0) := demo_alloc]} 0 true.

(** Four pages of 64 bytes over the L1 banks, no sub-device. *)
Definition demo_args : BufferArgs := mkArgs 256 64 L1 INTERLEAVED None None None.

Definition demo_cores : Z -> res CoreRangeSet := fun _ => Ok [].

Definition demo_turn : event -> Runtime -> Runtime * res unit := run_event demo_cores 0 0 false.

Definition demo_bank (t : BufferType) : Z * Z :=
  match t with DRAM => (60416, 1024) | L1 => (6144, 1024) | L1_SMALL => (1024, 7168) | _ => (4096, 61440) end.

Lemma demo_serves : serves demo_alloc (fun t => fresh_region (demo_bank t).1).
Proof.
  intros t bm H. assert (t <> SYSTEM_MEMORY) as Ht by (by intros ->).
  assert ((bm' ← manager_of t demo_alloc; mret (allocator_ bm')) = Ok (Some (FreeList_new (demo_bank t).1 (demo_bank t).2 32 32 FIRST).1)) as Hf
    by (destruct t; [| |by destruct Ht| |]; vm_compute; reflexivity).
  rewrite H in Hf. injection Hf as Hf. clear H Ht.
  destruct (FreeList_new_ok (demo_bank t).1 (demo_bank t).2 32 32 FIRST) as (s & He & Hh & Hc); try (by destruct t).
  exists s. rewrite Hf, He. split; [done|]. split; [|by left]. unfold config in Hc. injection Hc as _ _ _ _ -> _. done.
Qed.

Lemma demo_starts : starts demo_runtime.
Proof.
  split_and!; try done. exists (fun _ t => fresh_region (demo_bank t).1). split.
  - intros k a Hk. apply (lookup_singleton_Some (0, 0) k demo_alloc a) in Hk as [<- <-]. apply demo_serves.
  - by intros k t y z ?%list_elem_of_singleton.
Qed.

Lemma demo_small allocs :
  (forall a, allocs !! (0, 0) = Some a -> config_ a = demo_config /\ banks_of a L1 = (4, 32)) -> small_args 0 0 allocs demo_args.
Proof.
  intros H [] E1 E2 E3 E4 E5 E6 id a i Ha Hi. cbn in E1, E2, E3, E4, E5, E6, Ha. subst. destruct (H a Ha) as [Hc Hb]. intros per Hs.
  unfold buffer_info, Buffers.aligned_size, num_cores, num_dev_pages, Buffers.aligned_page_size, alignment in Hi. rewrite Hc in Hi.
  vm_compute in Hi. injection Hi as <-. change (SizeBytesPerBank 256 64 (banks_of a L1).1 (banks_of a L1).2 = Ok per) in Hs. rewrite Hb in Hs. vm_compute in Hs. by injection Hs as <-.
Qed.

(** Two buffers are asked for, and the worker allocates them. *)
Definition demo_two : Runtime :=
  (demo_turn ev_worker (demo_turn ev_worker (demo_turn (ev_create demo_args) (demo_turn (ev_create demo_args) demo_runtime).1).1).1).1.

Lemma demo_small_start r : allocators r = {[(0, 0) := demo_alloc]} -> small_args 0 0 (allocators r) demo_args.
Proof.
  intros E. apply demo_small. intros a Ha. rewrite E, lookup_singleton_eq in Ha. apply (inj Some) in Ha as <-. split; vm_compute; reflexivity.
Qed.

Lemma demo_two_lives : lives demo_cores 0 0 false demo_runtime true demo_two.
Proof.
  unfold demo_two, demo_turn.
  apply (lives_next demo_cores 0 0 false demo_runtime true _ ev_worker); [|exact I|vm_compute; reflexivity].
  apply (lives_next demo_cores 0 0 false demo_runtime true _ ev_worker); [|exact I|vm_compute; reflexivity].
  apply (lives_next demo_cores 0 0 false demo_runtime true _ (ev_create demo_args)); [|apply demo_small_start|]; [|vm_compute; reflexivity..].
  apply (lives_next demo_cores 0 0 false demo_runtime true _ (ev_create demo_args)); [apply lives_start|by apply demo_small_start|vm_compute; reflexivity].
Qed.

Lemma demo_two_buffers :
  exists b b', objects demo_two !! 0 = Some b /\ objects demo_two !! 1 = Some b' /\ has_memory b /\ has_memory b' /\
    allocator_key 0 0 (sub_device_id_ b) = allocator_key 0 0 (sub_device_id_ b') /\ buffer_type_ b = buffer_type_ b'.
Proof.
  destruct (objects demo_two !! 0) as [b|] eqn:Hb; vm_compute in Hb; [|discriminate].
  destruct (objects demo_two !! 1) as [b'|] eqn:Hb'; vm_compute in Hb'; [|discriminate].
  injection Hb as <-. injection Hb' as <-. eexists _, _. by split_and!.
Qed.

Lemma buffers_keep_apart_witness :
  exists b b' sz sz', objects demo_two !! 0 = Some b /\ objects demo_two !! 1 = Some b' /\ address_ b <> address_ b' /\
    (address_ b + sz <= address_ b' \/ address_ b' + sz' <= address_ b).
Proof.
  destruct (buffers_keep_apart demo_cores 0 0 false demo_runtime true demo_two demo_starts demo_two_lives) as (m & Hs & Hr & Hd).
  destruct demo_two_buffers as (b & b' & Hb & Hb' & Hm & Hm' & Es & Et).
  destruct (Hr 0 b Hb Hm) as [sz Hsz]. destruct (Hr 1 b' Hb' Hm') as [sz' Hsz']. exists b, b', sz, sz'.
  split_and!; [done|done| |by apply (Hd 0 1 b b' sz sz')]. vm_compute in Hb, Hb'. by injection Hb as <-; injection Hb' as <-.
Defined.

Lemma only_allocation_fails_witness :
  (exists r' y, run_event demo_cores 0 0 false (ev_drop 0) demo_two = (r', y) /\ (y = Ok tt \/ may_fail demo_two (ev_drop 0))) /\
  (run_event demo_cores 0 0 false (ev_drop 0) demo_two).2 = Ok tt.
Proof.
  split; [|vm_compute; reflexivity].
  apply (only_allocation_fails demo_cores 0 0 false demo_runtime true demo_two (ev_drop 0) demo_starts demo_two_lives).
  vm_compute. reflexivity.
Defined.

(** The client gives both buffers up, and the worker runs their deleters. *)
Definition demo_end : Runtime :=
  (demo_turn ev_worker (demo_turn ev_worker (demo_turn (ev_drop 1) (demo_turn (ev_drop 0) demo_two).1).1).1).1.

Lemma demo_end_lives : lives demo_cores 0 0 false demo_runtime true demo_end.
Proof.
  unfold demo_end, demo_turn.
  apply (lives_next demo_cores 0 0 false demo_runtime true _ ev_worker); [|exact I|vm_compute; reflexivity].
  apply (lives_next demo_cores 0 0 false demo_runtime true _ ev_worker); [|exact I|vm_compute; reflexivity].
  apply (lives_next demo_cores 0 0 false demo_runtime true _ (ev_drop 1)); [|vm_compute; reflexivity..].
  apply (lives_next demo_cores 0 0 false demo_runtime true _ (ev_drop 0)); [apply demo_two_lives|vm_compute; reflexivity..].
Qed.

Lemma memory_returned_witness :
  objects demo_end = ∅ /\
  exists a bm f, allocators demo_end !! (0, 0) = Some a /\ manager_of L1 a = Ok bm /\ allocator_ bm = Some f /\ holds f [(0, 6144, false)].
Proof.
  destruct (memory_returned demo_cores 0 0 false demo_runtime demo_end demo_starts demo_end_lives) as [Ho H].
  - assert (handles demo_end = <[1 := 0]> {[0 := 0]}) as E by (vm_compute; reflexivity).
    intros id. unfold held. rewrite E. destruct (decide (id = 1)) as [->|]; [by rewrite lookup_insert_eq|]. rewrite lookup_insert_ne by done.
    destruct (decide (id = 0)) as [->|]; [by rewrite lookup_singleton_eq|]. by rewrite lookup_singleton_ne.
  - vm_compute. reflexivity.
  - split; [exact Ho|]. set (a := match allocators demo_end !! (0, 0) with Some a => a | None => demo_alloc end).
    set (bm := l1_manager a). set (f := match allocator_ bm with Some f => f | None => (FreeList_new 0 0 0 0 FIRST).1 end).
    exists a, bm, f. assert (allocators demo_end !! (0, 0) = Some a) as Ha by (vm_compute; reflexivity).
    assert (allocator_ bm = Some f) as Hf by (vm_compute; reflexivity). split_and!; [exact Ha|reflexivity|exact Hf|].
    exact (H (0, 0) a L1 bm f Ha eq_refl Hf ltac:(vm_compute; reflexivity)).
Defined.
