(* ===== verification/BlockFloat.v ===== *)
(** * Block floating point
    (tt_metal/common/blockfloat_common.hpp, tt_metal/common/bfloat8.hpp,
    tt_metal/common/bfloat4.hpp, tt_metal/common/bfloat16.hpp)

    Sixteen numbers share one exponent; each keeps a sign and a mantissa of one, three
    or seven bits, whose leading one is explicit.  A [float] is its 32-bit pattern.

    This file converts single numbers and words; Tiles.v packs whole tiles. *)

From S2P Require Import Prelude.

(** tt_metal/common/tt_backend_api_types.hpp *)
Inductive DataFormat :=
  | Float32 | Float16 | Bfp8 | Bfp4 | Bfp2 | Float16_b | Bfp8_b | Bfp4_b | Bfp2_b | Lf8 | Fp8_e4m3 | Int8 | Tf32
  | UInt8 | UInt16 | Int32 | UInt32 | RawUInt8 | RawUInt16 | RawUInt32 | Invalid.

#[export] Instance DataFormat_eq_dec : EqDecision DataFormat.
Proof. solve_decision. Defined.

Definition is_bfp2 (f : DataFormat) : bool := match f with Bfp2 | Bfp2_b => true | _ => false end.
Definition is_bfp4 (f : DataFormat) : bool := match f with Bfp4 | Bfp4_b => true | _ => false end.
Definition is_bfp8 (f : DataFormat) : bool := match f with Bfp8 | Bfp8_b => true | _ => false end.
Definition is_bfp (f : DataFormat) : bool := is_bfp2 f || is_bfp4 f || is_bfp8 f.

Definition MANTISSA_BFP_WIDTH (f : DataFormat) : Z := if is_bfp2 f then 1 else if is_bfp4 f then 3 else 7.
Definition nums_in_dword (f : DataFormat) : Z := if is_bfp2 f then 16 else if is_bfp4 f then 8 else 4.

Definition u8 (z : Z) : Z := z mod 2 ^ 8.

(** ** The fields of a number *)

Definition float_exp (x : Z) : Z := Z.shiftr (Z.land x 0x7f800000) 23.
Definition float_man (x : Z) : Z := Z.land x 0x007fffff.
Definition float_sign (x : Z) : Z := Z.shiftr (Z.land x 0x80000000) 31.

(** The bias of 127 becomes one of 15, with saturation. *)
Definition rebias (exp : Z) : Z :=
  let se := exp - 127 + 15 in
  if 31 <? se then 31 else if se <? 0 then 0 else se.

(** ** Exponents *)

Definition get_max_exp (vec : list Z) (is_exp_a : bool) : res Z :=
  check Assert (Z.of_nat (length vec) =? 16);;
  mret (u8 (foldl (fun max x =>
    let exp := if is_exp_a then rebias (float_exp x) else float_exp x in
    if max <? exp then exp else max) 0 vec)).

Definition get_exp_dword (vec : list Z) : res Z :=
  check Assert (Z.of_nat (length vec) =? 4);;
  fold_res (fun i tmp => x ← at_ vec i; mret (Z.lor tmp (Z.shiftl (Z.land x 0xff) (i * 8)))) (zrange 0 4) 0.

Definition pack_exponents (exponents : list Z) (num_elements_in_dword : Z) : res (list Z) :=
  let size := Z.of_nat (length exponents) in
  check Fatal (size mod num_elements_in_dword =? 0);;
  fold_res (fun k packed_result =>
    packed_value ← fold_res (fun j packed_value =>
      e ← at_ exponents (k * num_elements_in_dword + j);
      mret (Z.lor packed_value (Z.shiftl (Z.land e 0xff) (8 * j)))) (zrange 0 num_elements_in_dword) 0;
    mret (packed_result ++ [packed_value])) (zrange 0 (size / num_elements_in_dword)) [].

Definition get_byte (word index : Z) : res Z :=
  check Assert (index <? 4);;
  let mask := u32 (Z.shiftl 0xff (8 * index)) in
  mret (Z.shiftr (Z.land word mask) (8 * index)).

(** ** Conversion to the format *)

(** A shift by 32 or more is undefined, so the code shifts by 31 while it can. *)
Fixpoint shift_down (fuel : nat) (mantissa exp_diff : Z) : res Z :=
  if 31 <? exp_diff then
    match fuel with
    | O => Err OutOfFuel
    | S fuel => shift_down fuel (Z.shiftr mantissa 31) (exp_diff - 31)
    end
  else mret (Z.shiftr mantissa exp_diff).

Definition convert_u32_to_bfp (f : DataFormat) (truncate_bfp_mantissa : bool) (input shared_exp : Z) (is_exp_a : bool) : res Z :=
  check Assert (is_bfp f);;
  let MANTISSA_BFP_SHIFT := 24 - MANTISSA_BFP_WIDTH f in
  let MANTISSA_BFP_MAX_VAL := Z.shiftl 1 (MANTISSA_BFP_WIDTH f) - 1 in
  if Z.land input (Z.shiftl 1 31 - 1) =? 0 then mret 0
  else
    let mantissa := float_man input in
    let exp := float_exp input in
    let sign := float_sign input in
    let '(exp, mantissa) :=
      if is_exp_a then
        let se := exp - 127 + 15 in
        if 31 <? se then (31, 0x007fffff) else if se <? 0 then (0, 0) else (se, mantissa)
      else (exp, mantissa) in
    let mantissa := Z.lor (Z.shiftl 1 23) mantissa in
    mantissa ← (if exp <=? shared_exp
                then let exp_diff := i32 (shared_exp - exp) in shift_down (Z.to_nat exp_diff) mantissa exp_diff
                else mret mantissa);
    let mantissa :=
      if truncate_bfp_mantissa then Z.shiftr mantissa MANTISSA_BFP_SHIFT
      else
        let mantissa := Z.shiftr (u32 (mantissa + Z.shiftl 1 (MANTISSA_BFP_SHIFT - 1))) MANTISSA_BFP_SHIFT in
        if MANTISSA_BFP_MAX_VAL <? mantissa then MANTISSA_BFP_MAX_VAL else mantissa in
    let sign := if 0 =? mantissa then 0 else sign in
    mret (u8 (Z.lor (u32 (Z.shiftl sign (MANTISSA_BFP_WIDTH f))) mantissa)).

(** [convert_u32_to_bfp8] of bfloat8.hpp. *)
Definition convert_u32_to_bfp8 (truncate_bfp_mantissa : bool) (input shared_exp : Z) (is_exp_a : bool) : res Z :=
  if Z.land input (Z.shiftl 1 31 - 1) =? 0 then mret 0
  else
    let mantissa := float_man input in
    let exp := float_exp input in
    let sign := float_sign input in
    let '(exp, mantissa) :=
      if is_exp_a then
        let se := exp - 127 + 15 in
        if 31 <? se then (31, 0x007fffff) else if se <? 0 then (0, 0) else (se, mantissa)
      else (exp, mantissa) in
    let mantissa := Z.lor (Z.shiftl 1 23) mantissa in
    mantissa ← (if exp <=? shared_exp
                then let exp_diff := i32 (shared_exp - exp) in shift_down (Z.to_nat exp_diff) mantissa exp_diff
                else mret mantissa);
    let mantissa :=
      if truncate_bfp_mantissa then Z.shiftr mantissa 17
      else
        let mantissa := Z.shiftr (u32 (mantissa + Z.shiftl 1 16)) 17 in
        if 127 <? mantissa then 127 else mantissa in
    let sign := if 0 =? mantissa then 0 else sign in
    mret (u8 (Z.lor (u32 (Z.shiftl sign 7)) mantissa)).

(** The words that hold the mantissas of consecutive numbers, the first lowest. *)
Definition create_packed_bfp_packed_as_u32 (f : DataFormat) (u32_vec : list Z) (shared_exp : Z) (is_exp_a : bool) : res Z :=
  check Assert (is_bfp f);;
  let n := nums_in_dword f in
  let mask := Z.shiftl 1 (32 / n) - 1 in
  fold_res (fun i tmp_o =>
    x ← at_ u32_vec i;
    conv_num ← convert_u32_to_bfp f false x shared_exp is_exp_a;
    mret (Z.lor (u32 (Z.shiftl tmp_o (32 / n))) (Z.land conv_num mask))) (reverse (zrange 0 n)) 0.

Definition create_packed_bfp8_packed_as_u32 (u32_vec : list Z) (shared_exp : Z) (is_exp_a : bool) : res Z :=
  let mask := Z.shiftl 1 (32 / 4) - 1 in
  fold_res (fun i tmp_o =>
    x ← at_ u32_vec i;
    conv_num ← convert_u32_to_bfp8 false x shared_exp is_exp_a;
    mret (Z.lor (u32 (Z.shiftl tmp_o (32 / 4))) (Z.land conv_num mask))) (reverse (zrange 0 4)) 0.

(** ** Conversion from the format *)

(** Shifts the mantissa up until the bit [top] is set. *)
Fixpoint shift_up (fuel : nat) (top man shift_cnt : Z) : res (Z * Z) :=
  if Z.land man top =? 0 then
    match fuel with
    | O => Err OutOfFuel
    | S fuel => shift_up fuel top (u32 (Z.shiftl man 1)) (shift_cnt + 1)
    end
  else mret (man, shift_cnt).

Definition convert_bfp_to_u32 (bfp_format : DataFormat) (data shared_exp : Z) (is_exp_a : bool) : res Z :=
  let adjust exp shift_cnt :=
    check Assert (shift_cnt <=? exp);;
    let exp := u32 (exp - shift_cnt) in
    mret (if is_exp_a then u32 (exp - 15 + 127) else exp) in
  let put sign exp man shift := Z.lor (Z.lor (u32 (Z.shiftl sign 31)) (u32 (Z.shiftl exp 23))) (u32 (Z.shiftl man shift)) in
  if is_bfp2 bfp_format then
    let sign := Z.shiftr data 1 in
    let man := Z.land data 0x1 in
    '(man, exp) ← (if man =? 0 then mret (0, 0)
                   else let man := Z.land (Z.shiftl man 1) 0x1 in exp ← adjust shared_exp 0; mret (man, exp));
    mret (put sign exp man 22)
  else if is_bfp4 bfp_format then
    let sign := Z.shiftr data 3 in
    let man := Z.land data 0x7 in
    '(man, exp) ← (if man =? 0 then mret (0, 0)
                   else '(man, shift_cnt) ← shift_up 3 0x04 man 0;
                        let man := Z.land (Z.shiftl man 1) 0x7 in exp ← adjust shared_exp shift_cnt; mret (man, exp));
    mret (put sign exp man 20)
  else if is_bfp8 bfp_format then
    let sign := Z.shiftr data 7 in
    let man := Z.land data 0x7f in
    '(man, exp) ← (if man =? 0 then mret (0, 0)
                   else '(man, shift_cnt) ← shift_up 7 0x40 man 0;
                        let man := Z.land (Z.shiftl man 1) 0x7f in exp ← adjust shared_exp shift_cnt; mret (man, exp));
    mret (put sign exp man 16)
  else mret 0.

(** ** bfloat16 *)

Definition bfloat16_of_float (float_num : Z) : Z := Z.shiftr float_num 16.
Definition bfloat16_of_u32 (uint32_data : Z) : Z := uint32_data mod 2 ^ 16.
Definition to_float (uint16_data : Z) : Z := u32 (Z.shiftl uint16_data 16).

Definition pack_two_bfloat16_into_uint32 (two_bfloats : Z * Z) : Z := Z.lor two_bfloats.1 (u32 (Z.shiftl two_bfloats.2 16)).
Definition unpack_two_bfloat16_from_uint32 (uint32_data : Z) : Z * Z :=
  (bfloat16_of_u32 (Z.land uint32_data 0xffff), bfloat16_of_u32 (Z.shiftr uint32_data 16)).

Definition u16_from_u32_vector (v : list Z) : list Z :=
  flat_map (fun x => let '(a, b) := unpack_two_bfloat16_from_uint32 x in [a; b]) v.

Definition u32_from_u16_vector (v : list Z) : res (list Z) :=
  check Assert (Z.of_nat (length v) mod 2 =? 0);;
  mapM (fun i => a ← opt_res StdException (v !! Z.to_nat (2 * i)); b ← opt_res StdException (v !! Z.to_nat (2 * i + 1));
    mret (pack_two_bfloat16_into_uint32 (bfloat16_of_u32 a, bfloat16_of_u32 b))) (zrange 0 (Z.of_nat (length v) / 2)).

Definition unpack_uint32_vec_into_bfloat16_vec (data : list Z) (transform : Z -> Z) : list Z :=
  foldl (fun result x => let '(a, b) := unpack_two_bfloat16_from_uint32 x in result ++ [transform a; transform b]) [] data.

(** A copy of the bytes, which are little-endian. *)
Definition pack_bfloat16_vec_into_uint32_vec (data : list Z) : res (list Z) :=
  check Assert (Z.of_nat (length data) mod 2 =? 0);;
  mapM (fun i => a ← at_ data (2 * i); b ← at_ data (2 * i + 1); mret (a + b * 2 ^ 16)) (zrange 0 (Z.of_nat (length data) / 2)).
