(* ===== verification/BlockFloatProps.v ===== *)
(** * Block floating point: lemmas and claims on single numbers *)

From Stdlib Require Import Lia.
From S2P Require Import Prelude BlockFloat.

(** ** Fields *)

Lemma land_ones_mod a n : 0 <= n -> Z.land a (Z.ones n) = a mod 2 ^ n.
Proof. apply Z.land_ones. Qed.

Lemma float_man_mod x : float_man x = x mod 2 ^ 23.
Proof. unfold float_man. change 0x007fffff with (Z.ones 23). by apply Z.land_ones. Qed.

Lemma field_div x n k : 0 <= n -> 0 <= k -> Z.shiftr (Z.land x (Z.shiftl (Z.ones k) n)) n = (x / 2 ^ n) mod 2 ^ k.
Proof. intros. rewrite Z.shiftr_land, Z.shiftr_shiftl_l, Z.sub_diag, Z.shiftl_0_r, Z.land_ones, Z.shiftr_div_pow2 by lia. done. Qed.

Lemma float_exp_div x : float_exp x = (x / 2 ^ 23) mod 2 ^ 8.
Proof. apply (field_div x 23 8); lia. Qed.

Lemma float_sign_div x : is_u32 x -> float_sign x = x / 2 ^ 31.
Proof.
  intros Hx. unfold is_u32 in Hx. change (Z.shiftr (Z.land x (Z.shiftl (Z.ones 1) 31)) 31 = x / 2 ^ 31). rewrite (field_div x 31 1) by lia.
  apply Z.mod_small. split; [apply Z.div_pos; lia|apply Z.div_lt_upper_bound; lia].
Qed.

(** A number put together from its fields. *)
Lemma fields_of s e m : 0 <= s < 2 -> 0 <= e < 2 ^ 8 -> 0 <= m < 2 ^ 23 ->
  let x := s * 2 ^ 31 + e * 2 ^ 23 + m in is_u32 x /\ float_sign x = s /\ float_exp x = e /\ float_man x = m /\ x mod 2 ^ 31 = e * 2 ^ 23 + m.
Proof.
  intros Hs He Hm x.
  assert (x = (s * 2 ^ 8 + e) * 2 ^ 23 + m) as E by (unfold x; lia). assert (is_u32 x) as Hx by (unfold is_u32, x; lia).
  assert (x / 2 ^ 23 = s * 2 ^ 8 + e) as E1 by (rewrite E; symmetry; apply (Z.div_unique _ _ _ m); lia).
  split_and!; [done| | | |].
  - rewrite float_sign_div by done. symmetry. apply (Z.div_unique _ _ _ (e * 2 ^ 23 + m)); unfold x; lia.
  - rewrite float_exp_div, E1. symmetry. apply (Z.mod_unique _ _ s); lia.
  - rewrite float_man_mod. symmetry. apply (Z.mod_unique _ _ (s * 2 ^ 8 + e)); lia.
  - symmetry. apply (Z.mod_unique _ _ s); unfold x; lia.
Qed.

(** ** Values *)

(** The absolute value of the number, in units of 2^-150; every number but zero is taken
    to be normal. *)
Definition magnitude (x : Z) : Z := if x mod 2 ^ 31 =? 0 then 0 else (2 ^ 23 + float_man x) * 2 ^ float_exp x.

Definition normal (x : Z) : Prop := is_u32 x /\ 1 <= float_exp x.

(** The mantissa of [x] in the format: rounded to the nearest, halves up, or the largest. *)
Definition rounded (f : DataFormat) (x s : Z) : Z :=
  let w := MANTISSA_BFP_WIDTH f in
  Z.min (2 ^ w - 1) (((2 ^ 23 + float_man x) / 2 ^ (s - float_exp x) + 2 ^ (23 - w)) / 2 ^ (24 - w)).

Lemma width_cases f : MANTISSA_BFP_WIDTH f = 1 \/ MANTISSA_BFP_WIDTH f = 3 \/ MANTISSA_BFP_WIDTH f = 7.
Proof. destruct f; cbn; tauto. Qed.

Ltac by_width f := let E := fresh "E" in destruct (width_cases f) as [E|[E|E]]; rewrite ?E in *; lia.

Lemma shift_down_ok fuel m d : 0 <= d <= Z.of_nat fuel * 31 + 31 -> shift_down fuel m d = Ok (Z.shiftr m d).
Proof.
  revert m d. induction fuel as [|fuel IH]; intros m d H; cbn [shift_down]; destruct (Z.ltb_spec 31 d); try done; [lia|].
  rewrite IH by lia. f_equal. rewrite Z.shiftr_shiftr by lia. f_equal. lia.
Qed.

Lemma fields_range x : 0 <= float_exp x < 2 ^ 8 /\ 0 <= float_man x < 2 ^ 23.
Proof. rewrite float_exp_div, float_man_mod. split; apply Z.mod_pos_bound; lia. Qed.

Lemma zero_test x : Z.land x (Z.shiftl 1 31 - 1) = x mod 2 ^ 31.
Proof. change (Z.shiftl 1 31 - 1) with (Z.ones 31). by apply Z.land_ones. Qed.

Lemma rounded_range f x s : float_exp x <= s -> 0 <= rounded f x s < 2 ^ MANTISSA_BFP_WIDTH f.
Proof.
  intros Hs. unfold rounded. destruct (fields_range x) as [He Hm]. set (M := 2 ^ 23 + float_man x).
  assert (0 <= (M / 2 ^ (s - float_exp x) + 2 ^ (23 - MANTISSA_BFP_WIDTH f)) / 2 ^ (24 - MANTISSA_BFP_WIDTH f)).
  { apply Z.div_pos; [|apply Z.pow_pos_nonneg; by_width f].
    apply Z.add_nonneg_nonneg; [apply Z.div_pos; [lia|apply Z.pow_pos_nonneg; lia]|apply Z.pow_nonneg; lia]. }
  by_width f.
Qed.

(** What the conversion to the format computes. *)
Lemma convert_ok f x s :
  is_bfp f = true -> is_u32 x -> x mod 2 ^ 31 <> 0 -> float_exp x <= s < 2 ^ 8 ->
  let q := rounded f x s in
  convert_u32_to_bfp f false x s false = Ok ((if q =? 0 then 0 else float_sign x) * 2 ^ MANTISSA_BFP_WIDTH f + q).
Proof.
  intros Hf Hx Hnz Hs q. destruct (fields_range x) as [He Hm]. pose proof (rounded_range f x s ltac:(lia)) as Hq. fold q in Hq.
  unfold convert_u32_to_bfp. rewrite Hf. cbn [check]. rewrite res_bind_ret. rewrite zero_test.
  rewrite (proj2 (Z.eqb_neq _ _) Hnz). cbv zeta. rewrite (proj2 (Z.leb_le _ _)) by lia.
  rewrite i32_small by (pow2; lia). rewrite shift_down_ok by lia. rewrite res_bind_ret.
  assert (Z.lor (Z.shiftl 1 23) (float_man x) = 2 ^ 23 + float_man x) as -> by (rewrite Z.shiftl_mul_pow2 by lia; rewrite lor_add by lia; lia).
  rewrite !Z.shiftr_div_pow2 by (by_width f).
  set (M := 2 ^ 23 + float_man x). set (D := M / 2 ^ (s - float_exp x)).
  assert (0 <= D <= M) as HD.
  { unfold D. split; [apply Z.div_pos; [lia|apply Z.pow_pos_nonneg; lia]|]. apply Z.div_le_upper_bound; [apply Z.pow_pos_nonneg; lia|].
    assert (0 < 2 ^ (s - float_exp x)) by (apply Z.pow_pos_nonneg; lia). nia. }
  assert (float_sign x = 0 \/ float_sign x = 1) as Hsign.
  { rewrite float_sign_div by done. unfold is_u32 in Hx. assert (0 <= x / 2 ^ 31 < 2); [|lia].
    split; [apply Z.div_pos; lia|apply Z.div_lt_upper_bound; lia]. }
  assert (q = if 2 ^ MANTISSA_BFP_WIDTH f - 1 <? (D + 2 ^ (23 - MANTISSA_BFP_WIDTH f)) / 2 ^ (24 - MANTISSA_BFP_WIDTH f)
              then 2 ^ MANTISSA_BFP_WIDTH f - 1 else (D + 2 ^ (23 - MANTISSA_BFP_WIDTH f)) / 2 ^ (24 - MANTISSA_BFP_WIDTH f)) as Eq.
  { unfold q, rounded. fold M. fold D. destruct (Z.ltb_spec (2 ^ MANTISSA_BFP_WIDTH f - 1) ((D + 2 ^ (23 - MANTISSA_BFP_WIDTH f)) / 2 ^ (24 - MANTISSA_BFP_WIDTH f))); lia. }
  rewrite !Z.shiftl_mul_pow2 by (by_width f). rewrite !Z.mul_1_l.
  replace (24 - MANTISSA_BFP_WIDTH f - 1) with (23 - MANTISSA_BFP_WIDTH f) by lia.
  rewrite (u32_small (D + _)) by (pow2; by_width f).
  rewrite <- Eq. clearbody q. clear Eq D HD. rewrite (Z.eqb_sym 0 q).
  assert (0 <= (if q =? 0 then 0 else float_sign x) <= 1) as Hs' by (destruct (q =? 0); lia).
  rewrite u32_small by (pow2; by_width f).
  rewrite lor_add by (by_width f). unfold u8. unfold mret, res_ret. f_equal.
  apply Z.mod_small. by_width f.
Qed.

(** ** Back to floats *)

(** How far the leading one of a mantissa is from the top. *)
Definition shift_count (f : DataFormat) (q : Z) : Z := MANTISSA_BFP_WIDTH f - 1 - Z.log2 q.

Definition shifts_up (w : Z) : bool :=
  forallb (fun q => bool_decide (shift_up (Z.to_nat w) (2 ^ (w - 1)) q 0 = Ok (q * 2 ^ (w - 1 - Z.log2 q), w - 1 - Z.log2 q) /\
    2 ^ (w - 1) <= q * 2 ^ (w - 1 - Z.log2 q) < 2 ^ w /\ 0 <= w - 1 - Z.log2 q < w)) (zrange 1 (2 ^ w)).

Lemma shift_up_ok f q :
  1 <= q < 2 ^ MANTISSA_BFP_WIDTH f -> let w := MANTISSA_BFP_WIDTH f in
  shift_up (Z.to_nat w) (2 ^ (w - 1)) q 0 = Ok (q * 2 ^ shift_count f q, shift_count f q) /\
  2 ^ (w - 1) <= q * 2 ^ shift_count f q < 2 ^ w /\ 0 <= shift_count f q < w.
Proof.
  intros Hq w. assert (shifts_up w = true) as H by (unfold w; destruct (width_cases f) as [-> |[-> | ->]]; vm_compute; reflexivity).
  unfold shifts_up in H. rewrite forallb_forall in H. specialize (H q). apply bool_decide_eq_true in H; [done|].
  apply list_elem_of_In, elem_of_zrange. done.
Qed.

(** A datum: a sign above a mantissa. *)
Lemma datum_fields sg q w : 0 <= w -> 0 <= sg <= 1 -> 0 <= q < 2 ^ w -> let d := sg * 2 ^ w + q in Z.shiftr d w = sg /\ Z.land d (Z.ones w) = q.
Proof.
  intros Hw Hs Hq d. rewrite Z.shiftr_div_pow2, Z.land_ones by lia. unfold d. split.
  - symmetry. apply (Z.div_unique _ _ _ q); lia.
  - symmetry. apply (Z.mod_unique _ _ sg); lia.
Qed.

(** The mantissa without its leading one, in the place of a float's. *)
Definition normalized (f : DataFormat) (q : Z) : Z := (q * 2 ^ shift_count f q * 2 - 2 ^ MANTISSA_BFP_WIDTH f) * 2 ^ (23 - MANTISSA_BFP_WIDTH f).

Lemma put_fields sg e m k : 0 <= sg <= 1 -> 0 <= e < 2 ^ 8 -> 0 <= k < 23 -> 0 <= m < 2 ^ (23 - k) ->
  Z.lor (Z.lor (u32 (Z.shiftl sg 31)) (u32 (Z.shiftl e 23))) (u32 (Z.shiftl m k)) = sg * 2 ^ 31 + e * 2 ^ 23 + m * 2 ^ k.
Proof.
  intros Hs He Hk Hm. assert (0 <= m * 2 ^ k < 2 ^ 23).
  { split; [apply Z.mul_nonneg_nonneg; [lia|apply Z.pow_nonneg; lia]|]. replace (2 ^ 23) with (2 ^ (23 - k) * 2 ^ k) by (rewrite <- Z.pow_add_r by lia; f_equal; lia).
    apply Z.mul_lt_mono_pos_r; [apply Z.pow_pos_nonneg; lia|lia]. }
  rewrite !Z.shiftl_mul_pow2, !u32_small by (rewrite ?pow2_32; lia).
  rewrite (lor_add (e * 2 ^ 23)) by lia. replace (sg * 2 ^ 31 + e * 2 ^ 23) with ((sg * 2 ^ 8 + e) * 2 ^ 23) by lia. by rewrite lor_add by lia.
Qed.

Lemma double_mantissa w q c : 1 <= w -> 2 ^ (w - 1) <= q * 2 ^ c < 2 ^ w -> Z.land (Z.shiftl (q * 2 ^ c) 1) (Z.ones w) = q * 2 ^ c * 2 - 2 ^ w.
Proof.
  intros Hw H. rewrite Z.shiftl_mul_pow2, Z.land_ones by lia. change (2 ^ 1) with 2.
  assert (2 ^ w = 2 * 2 ^ (w - 1)) as Ew by (rewrite <- Z.pow_succ_r by lia; f_equal; lia). symmetry. apply (Z.mod_unique _ _ 1); lia.
Qed.

Lemma decode_ok f sg q s :
  is_bfp f = true -> 0 <= sg <= 1 -> 1 <= q < 2 ^ MANTISSA_BFP_WIDTH f -> shift_count f q <= s < 2 ^ 8 ->
  convert_bfp_to_u32 f (sg * 2 ^ MANTISSA_BFP_WIDTH f + q) s false = Ok (sg * 2 ^ 31 + (s - shift_count f q) * 2 ^ 23 + normalized f q).
Proof.
  intros Hf Hs Hq Hc. destruct (datum_fields sg q (MANTISSA_BFP_WIDTH f) ltac:(by_width f) Hs ltac:(lia)) as [E1 E2].
  destruct (shift_up_ok f q Hq) as (E3 & Hr & Hn). unfold convert_bfp_to_u32, normalized.
  destruct (is_bfp2 f) eqn:F2; [|destruct (is_bfp4 f) eqn:F4; [|destruct (is_bfp8 f) eqn:F8; [|unfold is_bfp in Hf; rewrite F2, F4, F8 in Hf; done]]].
  - assert (MANTISSA_BFP_WIDTH f = 1) as Ew by (unfold MANTISSA_BFP_WIDTH; by rewrite F2). rewrite Ew in *.
    assert (q = 1) as -> by lia. change (Z.ones 1) with 1 in E2. rewrite E1, E2. change (1 =? 0) with false. cbv iota.
    assert (shift_count f 1 = 0) as -> by (unfold shift_count; by rewrite Ew). rewrite (proj2 (Z.leb_le 0 s)) by lia.
    cbn [check]. rewrite !res_bind_ret. rewrite Z.sub_0_r, (u32_small s) by (pow2; lia). cbn [mbind res_bind mret res_ret].
    change (Z.land (Z.shiftl 1 1) 1) with 0. by rewrite put_fields by lia.
  - assert (MANTISSA_BFP_WIDTH f = 3) as Ew by (unfold MANTISSA_BFP_WIDTH; by rewrite F2, F4). rewrite Ew in *.
    change 0x7 with (Z.ones 3). rewrite E1, E2. rewrite (proj2 (Z.eqb_neq q 0)) by lia. cbv iota.
    change (shift_up 3 0x04 q 0) with (shift_up (Z.to_nat 3) (2 ^ (3 - 1)) q 0). rewrite E3, res_bind_ret. cbv beta iota.
    rewrite (proj2 (Z.leb_le (shift_count f q) s)) by lia. cbn [check]. rewrite !res_bind_ret. rewrite (u32_small (s - shift_count f q)) by (pow2; lia). cbn [mbind res_bind mret res_ret].
    rewrite (double_mantissa 3) by lia. by rewrite put_fields by lia.
  - assert (MANTISSA_BFP_WIDTH f = 7) as Ew by (unfold MANTISSA_BFP_WIDTH; by rewrite F2, F4). rewrite Ew in *.
    change 0x7f with (Z.ones 7). rewrite E1, E2. rewrite (proj2 (Z.eqb_neq q 0)) by lia. cbv iota.
    change (shift_up 7 0x40 q 0) with (shift_up (Z.to_nat 7) (2 ^ (7 - 1)) q 0). rewrite E3, res_bind_ret. cbv beta iota.
    rewrite (proj2 (Z.leb_le (shift_count f q) s)) by lia. cbn [check]. rewrite !res_bind_ret. rewrite (u32_small (s - shift_count f q)) by (pow2; lia). cbn [mbind res_bind mret res_ret].
    rewrite (double_mantissa 7) by lia. by rewrite put_fields by lia.
Qed.

Lemma decode_zero f s : is_bfp f = true -> convert_bfp_to_u32 f 0 s false = Ok 0.
Proof. by destruct f. Qed.

(** ** The error of a conversion *)

(** To the nearest, in two steps. *)
Lemma nearest M P H : 0 < P -> 0 < H -> let q := (M / P + H) / (2 * H) in - (H * P) <= q * (2 * H) * P - M <= H * P.
Proof.
  intros HP HH q. pose proof (Z.div_mod M P ltac:(lia)). pose proof (Z.mod_pos_bound M P HP). set (m := M / P) in *.
  pose proof (Z.div_mod (m + H) (2 * H) ltac:(lia)). pose proof (Z.mod_pos_bound (m + H) (2 * H) ltac:(lia)). fold q in H2.
  assert (q * (2 * H) <= m + H) as U by lia. assert (m + 1 <= q * (2 * H) + H) as L by lia.
  pose proof (Z.mul_le_mono_nonneg_r _ _ P ltac:(lia) U). pose proof (Z.mul_le_mono_nonneg_r _ _ P ltac:(lia) L). nia.
Qed.

(** One unit in the last place of the format, where the shared exponent is [s]. *)
Definition unit_of (f : DataFormat) (s : Z) : Z := 2 ^ (24 - MANTISSA_BFP_WIDTH f + s).

Lemma unit_split f d e : 0 <= d -> 0 <= e -> unit_of f (d + e) = 2 * 2 ^ (23 - MANTISSA_BFP_WIDTH f) * 2 ^ d * 2 ^ e.
Proof.
  intros Hd He. unfold unit_of. rewrite <- Z.pow_succ_r by by_width f. rewrite <- !Z.pow_add_r by by_width f. f_equal. lia.
Qed.

Lemma rounded_error f x s :
  float_exp x <= s -> let q := rounded f x s in let mag := (2 ^ 23 + float_man x) * 2 ^ float_exp x in
  2 * Z.abs (q * unit_of f s - mag) <= unit_of f s \/
  q = 2 ^ MANTISSA_BFP_WIDTH f - 1 /\ q * unit_of f s < mag < 2 ^ MANTISSA_BFP_WIDTH f * unit_of f s.
Proof.
  intros Hs q mag. destruct (fields_range x) as [He Hm]. subst q. unfold rounded. set (w := MANTISSA_BFP_WIDTH f). set (d := s - float_exp x).
  replace s with (d + float_exp x) by (unfold d; lia). rewrite unit_split by lia. fold w. subst mag.
  set (M := 2 ^ 23 + float_man x) in *. set (P := 2 ^ d). set (H := 2 ^ (23 - w)). set (E := 2 ^ float_exp x).
  assert (0 < P) as HP by (apply Z.pow_pos_nonneg; lia). assert (0 < E) as HE by (apply Z.pow_pos_nonneg; lia).
  assert (0 < H) as HH by (apply Z.pow_pos_nonneg; by_width f).
  assert (2 ^ (24 - w) = 2 * H) as -> by (unfold H; rewrite <- Z.pow_succ_r by by_width f; f_equal; lia).
  pose proof (nearest M P H HP HH) as Hn. cbv zeta in Hn. set (q0 := (M / P + H) / (2 * H)) in *.
  assert (2 ^ w * (2 * H) = 2 ^ 24) as Ew by (unfold H; rewrite <- Z.pow_succ_r, <- Z.pow_add_r by by_width f; f_equal; lia).
  destruct (Z.le_gt_cases q0 (2 ^ w - 1)) as [Hq|Hq].
  - left. rewrite Z.min_r by done. nia.
  - right. rewrite Z.min_l by lia. split; [done|].
    assert (M < 2 ^ w * (2 * H) * P) by nia. assert (q0 * (2 * H) * P <= M + H * P) by lia.
    assert ((2 ^ w - 1) * (2 * H) * P < M) by nia. nia.
Qed.

Lemma rounded_leading f x s :
  float_exp x <= s -> 1 <= rounded f x s -> shift_count f (rounded f x s) <= s - float_exp x.
Proof.
  intros Hs Hq. destruct (fields_range x) as [He Hm]. unfold shift_count. set (q := rounded f x s) in *. set (d := s - float_exp x).
  pose proof (Z.log2_nonneg q). destruct (Z.le_gt_cases d (MANTISSA_BFP_WIDTH f - 1)) as [Hd|Hd]; [|lia].
  enough (MANTISSA_BFP_WIDTH f - 1 - d <= Z.log2 q) by lia. apply Z.log2_le_pow2; [lia|].
  unfold q, rounded. fold d. set (w := MANTISSA_BFP_WIDTH f) in *.
  assert (2 ^ (23 - d) <= (2 ^ 23 + float_man x) / 2 ^ d) as H1.
  { apply Z.div_le_lower_bound; [apply Z.pow_pos_nonneg; lia|]. rewrite <- Z.pow_add_r by by_width f. replace (d + (23 - d)) with 23 by lia. lia. }
  apply Z.min_glb.
  - assert (2 ^ (w - 1 - d) <= 2 ^ (w - 1)) by (apply Z.pow_le_mono_r; lia).
    assert (2 ^ w = 2 * 2 ^ (w - 1)) by (rewrite <- Z.pow_succ_r by by_width f; f_equal; lia). assert (0 < 2 ^ (w - 1)) by (apply Z.pow_pos_nonneg; by_width f). lia.
  - apply Z.div_le_lower_bound; [apply Z.pow_pos_nonneg; by_width f|]. rewrite <- Z.pow_add_r by by_width f.
    replace (24 - w + (w - 1 - d)) with (23 - d) by lia. assert (0 < 2 ^ (23 - w)) by (apply Z.pow_pos_nonneg; by_width f). lia.
Qed.

(** The number that is read back, with sign [sg] and mantissa [q]. *)
Lemma decoded_magnitude f sg q s :
  0 <= sg <= 1 -> 1 <= q < 2 ^ MANTISSA_BFP_WIDTH f -> shift_count f q < s < 2 ^ 8 ->
  let y := sg * 2 ^ 31 + (s - shift_count f q) * 2 ^ 23 + normalized f q in
  is_u32 y /\ float_sign y = sg /\ magnitude y = q * unit_of f s.
Proof.
  intros Hs Hq Hc y. destruct (shift_up_ok f q Hq) as (_ & Hr & Hn). set (w := MANTISSA_BFP_WIDTH f) in *. set (c := shift_count f q) in *.
  assert (2 ^ w = 2 * 2 ^ (w - 1)) as Ew by (rewrite <- Z.pow_succ_r by by_width f; f_equal; lia).
  assert (2 ^ w * 2 ^ (23 - w) = 2 ^ 23) as E23 by (rewrite <- Z.pow_add_r by by_width f; f_equal; lia).
  assert (0 < 2 ^ (23 - w)) as Hp by (apply Z.pow_pos_nonneg; by_width f).
  assert (0 <= normalized f q < 2 ^ 23) as Hnm by (unfold normalized; fold w c; nia).
  destruct (fields_of sg (s - c) (normalized f q) ltac:(lia) ltac:(lia) Hnm) as (H1 & H2 & H3 & H4 & H5). fold y in H1, H2, H3, H4, H5.
  split_and!; [done|done|]. unfold magnitude. rewrite H5, H3, H4. rewrite (proj2 (Z.eqb_neq _ _)) by lia.
  unfold normalized, unit_of. fold w c. replace (2 ^ 23 + (q * 2 ^ c * 2 - 2 ^ w) * 2 ^ (23 - w)) with (q * 2 ^ c * 2 * 2 ^ (23 - w)) by lia.
  transitivity (q * (2 * 2 ^ (23 - w)) * (2 ^ c * 2 ^ (s - c))); [lia|]. rewrite <- Z.pow_succ_r, <- Z.pow_add_r by by_width f.
  rewrite <- Z.mul_assoc, <- Z.pow_add_r by by_width f. do 2 f_equal. lia.
Qed.

(** What a float becomes in the format and back. *)
Definition quantize (f : DataFormat) (x s : Z) : res Z := b ← convert_u32_to_bfp f false x s false; convert_bfp_to_u32 f b s false.

(** C10: A number that is converted to a block format and back, where the shared exponent is
    no smaller than its own, is off by at most half a unit of the format's last place;
    only a number above the largest of the format becomes that largest, and is then off
    by less than one unit.  Its sign is kept, unless it becomes zero.  No conversion
    fails. *)
Theorem quantize_error f x s :
  is_bfp f = true -> normal x -> float_exp x <= s < 2 ^ 8 ->
  exists y, quantize f x s = Ok y /\ is_u32 y /\ (float_sign y = float_sign x \/ y = 0) /\
    (2 * Z.abs (magnitude y - magnitude x) <= unit_of f s \/
     magnitude y = (2 ^ MANTISSA_BFP_WIDTH f - 1) * unit_of f s /\ magnitude y < magnitude x < 2 ^ MANTISSA_BFP_WIDTH f * unit_of f s).
Proof.
  intros Hf [Hx Hn] Hs. destruct (fields_range x) as [He Hm].
  assert (x mod 2 ^ 31 <> 0) as Hnz.
  { intros E. enough (float_exp x = 0) by lia. rewrite float_exp_div. apply Z.mod_divide in E as [k ->]; [|lia].
    replace (k * 2 ^ 31) with (k * 2 ^ 8 * 2 ^ 23) by lia. by rewrite Z.div_mul, Z.mod_mul by lia. }
  assert (magnitude x = (2 ^ 23 + float_man x) * 2 ^ float_exp x) as Emag by (unfold magnitude; by rewrite (proj2 (Z.eqb_neq _ _) Hnz)).
  pose proof (rounded_range f x s ltac:(lia)) as Hq. pose proof (rounded_error f x s ltac:(lia)) as Herr. cbv zeta in Herr. rewrite <- Emag in Herr.
  unfold quantize. rewrite convert_ok by done. rewrite res_bind_ret.
  destruct (Z.eqb_spec (rounded f x s) 0) as [Eq|Eq].
  - exists 0. rewrite Eq in *. rewrite Z.mul_0_l, Z.add_0_l, decode_zero by done. split_and!; [done|done|by right|].
    change (magnitude 0) with 0. destruct Herr as [Herr|[Ew Herr]]; [left; lia|right]. rewrite <- Ew. lia.
  - pose proof (rounded_leading f x s ltac:(lia) ltac:(lia)) as Hc.
    assert (0 <= float_sign x <= 1) as Hsg.
    { rewrite float_sign_div by done. unfold is_u32 in Hx. assert (0 <= x / 2 ^ 31 < 2); [|lia]. split; [apply Z.div_pos; lia|apply Z.div_lt_upper_bound; lia]. }
    destruct (decoded_magnitude f (float_sign x) (rounded f x s) s Hsg ltac:(lia) ltac:(lia)) as (H1 & H2 & H3).
    eexists. rewrite decode_ok by (done || lia). split_and!; [done|exact H1|by left|]. rewrite H3.
    destruct Herr as [?|[Ew ?]]; [by left|right]. rewrite <- Ew at 1. done.
Qed.

(** One in eight bits, with the exponent of two. *)
Lemma quantize_error_witness : exists y, quantize Bfp8_b 0x3f800000 128 = Ok y /\ float_sign y = 0.
Proof.
  destruct (quantize_error Bfp8_b 0x3f800000 128) as (y & E & _ & Hs & _).
  - reflexivity.
  - split; [split; [discriminate|reflexivity]|vm_compute; discriminate].
  - vm_compute; split; [discriminate|reflexivity].
  - exists y. split; [exact E|]. destruct Hs as [Hs | ->]; [rewrite Hs|]; reflexivity.
Defined.

(** ** The conversions of bfloat8.hpp are the general ones *)

Lemma convert_u32_to_bfp8_general truncate x s a : convert_u32_to_bfp8 truncate x s a = convert_u32_to_bfp Bfp8_b truncate x s a.
Proof. reflexivity. Qed.

Lemma create_packed_bfp8_general xs s a : create_packed_bfp8_packed_as_u32 xs s a = create_packed_bfp_packed_as_u32 Bfp8_b xs s a.
Proof. reflexivity. Qed.

(** ** bfloat16 *)

Lemma unpack_two_div x : is_u32 x -> unpack_two_bfloat16_from_uint32 x = (x mod 2 ^ 16, x / 2 ^ 16).
Proof.
  intros Hx. unfold unpack_two_bfloat16_from_uint32, bfloat16_of_u32. change 0xffff with (Z.ones 16). rewrite land_ones_mod, Z.shiftr_div_pow2, Z.mod_mod by lia.
  f_equal. apply Z.mod_small. unfold is_u32 in Hx. split; [apply Z.div_pos; lia|apply Z.div_lt_upper_bound; lia].
Qed.

Lemma pack_unpack_two x : is_u32 x -> pack_two_bfloat16_into_uint32 (unpack_two_bfloat16_from_uint32 x) = x.
Proof.
  intros Hx. rewrite unpack_two_div by done. unfold pack_two_bfloat16_into_uint32. cbn [fst snd]. unfold is_u32 in Hx. pose proof (Z.div_mod x (2 ^ 16) ltac:(lia)).
  pose proof (Z.mod_pos_bound x (2 ^ 16) ltac:(lia)). rewrite Z.shiftl_mul_pow2, u32_small by lia. rewrite lor_add' by lia. lia.
Qed.

Lemma unpack_pack_two a b : 0 <= a < 2 ^ 16 -> 0 <= b < 2 ^ 16 -> unpack_two_bfloat16_from_uint32 (pack_two_bfloat16_into_uint32 (a, b)) = (a, b).
Proof.
  intros Ha Hb. unfold pack_two_bfloat16_into_uint32. cbn [fst snd]. rewrite Z.shiftl_mul_pow2, u32_small by lia. rewrite lor_add' by lia.
  rewrite unpack_two_div by (unfold is_u32; lia). f_equal.
  - symmetry. apply (Z.mod_unique _ _ b); lia.
  - symmetry. apply (Z.div_unique _ _ _ a); lia.
Qed.

(** A vector of words that is split into halves and put together again is the same. *)
Lemma u16_lookup v i x : Forall is_u32 v -> v !! i = Some x ->
  u16_from_u32_vector v !! (i * 2)%nat = Some (x mod 2 ^ 16) /\ u16_from_u32_vector v !! (i * 2 + 1)%nat = Some (x / 2 ^ 16).
Proof.
  intros Hv Hx. assert (is_u32 x) as Hu by (rewrite Forall_forall in Hv; apply Hv; by eapply list_elem_of_lookup_2).
  pose proof (fun y => lookup_flat_map_const (fun x => let '(a, b) := unpack_two_bfloat16_from_uint32 x in [a; b]) v 2 i x y (fun _ _ => eq_refl) Hx) as H.
  pose proof (H 0%nat ltac:(lia)) as H0. pose proof (H 1%nat ltac:(lia)) as H1. cbv beta in H0, H1. rewrite (unpack_two_div x Hu) in H0, H1. rewrite Nat.add_0_r in H0. split; [exact H0|exact H1].
Qed.

Lemma u32_u16_roundtrip v : Forall is_u32 v -> u32_from_u16_vector (u16_from_u32_vector v) = Ok v.
Proof.
  intros Hv. assert (length (u16_from_u32_vector v) = (length v * 2)%nat) as Hl by (unfold u16_from_u32_vector; by apply length_flat_map_const).
  unfold u32_from_u16_vector. rewrite Hl. replace (Z.of_nat (length v * 2)) with (Z.of_nat (length v) * 2) by lia. rewrite Z.mod_mul, Z.div_mul by lia. cbn [Z.eqb check]. rewrite res_bind_ret.
  apply mapM_res_lookup; [rewrite length_zrange; lia|]. intros i k x Hk Hx. pose proof (lookup_lt_Some _ _ _ Hx) as Hi. rewrite lookup_zrange in Hk by lia. injection Hk as <-.
  destruct (u16_lookup v i x Hv Hx) as [E1 E2]. replace (Z.to_nat (2 * (0 + Z.of_nat i))) with (i * 2)%nat by lia. replace (Z.to_nat (2 * (0 + Z.of_nat i) + 1)) with (i * 2 + 1)%nat by lia.
  rewrite E1, E2. cbn [opt_res]. rewrite !res_bind_ret. assert (is_u32 x) as Hu by (rewrite Forall_forall in Hv; apply Hv; by eapply list_elem_of_lookup_2).
  assert (0 <= x / 2 ^ 16 < 2 ^ 16) as Hh by (unfold is_u32 in Hu; split; [apply Z.div_pos; lia|apply Z.div_lt_upper_bound; lia]).
  unfold mret, res_ret, bfloat16_of_u32. f_equal. rewrite Z.mod_mod, (Z.mod_small (x / _)) by lia.
  rewrite <- unpack_two_div by done. by apply pack_unpack_two.
Qed.
