(* ===== verification/Tiles.v ===== *)
(** * Tiles
    (tt_metal/impl/tile/tile.hpp, tt_metal/common/blockfloat_common.hpp,
    tt_metal/common/bfloat8.hpp, tt_metal/common/bfloat4.hpp,
    tt_metal/common/tilize_untilize.hpp)

    Tiles of numbers in block formats, packed and unpacked: the exponents of the rows of
    all faces, padded to the alignment of L1, then the mantissas face by face; and the
    order of the elements of tiles in memory.

    The unpackers are written with vector instructions on eight 32-bit lanes, which are
    modelled on lists of lanes.  Products and sums that the code stores in an [int] are
    taken modulo 2^32. *)

From S2P Require Import Prelude WorkSplit BlockFloat.

(** ** Vector instructions (immintrin.h) *)

Module Simd.
Definition lanes := list Z.

Definition set1 (n : nat) (x : Z) : lanes := replicate n (u32 x).
Definition and_ : lanes -> lanes -> lanes := zip_with Z.land.
Definition or_ : lanes -> lanes -> lanes := zip_with Z.lor.
Definition add (a b : lanes) : lanes := zip_with (fun x y => u32 (x + y)) a b.
Definition sub (a b : lanes) : lanes := zip_with (fun x y => u32 (x - y)) a b.
(** [_mm256_srl_epi32] and [_mm256_sll_epi32]: one count for all lanes. *)
Definition srl (a : lanes) (n : Z) : lanes := map (fun x => if 31 <? n then 0 else Z.shiftr x n) a.
Definition sll (a : lanes) (n : Z) : lanes := map (fun x => if 31 <? n then 0 else u32 (Z.shiftl x n)) a.
(** [_mm_srlv_epi32]: a count for each lane. *)
Definition srlv (a n : lanes) : lanes := zip_with (fun x n => if 31 <? n then 0 else Z.shiftr x n) a n.
Definition cmpeq (a b : lanes) : lanes := zip_with (fun x y => if x =? y then 0xffffffff else 0) a b.
Definition cmpgt (a b : lanes) : lanes := zip_with (fun x y => if i32 y <? i32 x then 0xffffffff else 0) a b.
(** [_mm256_blendv_epi8]: each byte of [b] whose mask byte has its top bit set. *)
Definition blend_byte (a b mask i : Z) : Z := Z.shiftl (Z.land (Z.shiftr (if Z.testbit mask (8 * i + 7) then b else a) (8 * i)) 0xff) (8 * i).
Definition blend_lane (a b mask : Z) : Z :=
  Z.lor (Z.lor (blend_byte a b mask 0) (blend_byte a b mask 1)) (Z.lor (blend_byte a b mask 2) (blend_byte a b mask 3)).
Definition blendv (a b mask : lanes) : lanes := zip_with (fun ab m => blend_lane ab.1 ab.2 m) (zip a b) mask.
(** [_mm256_movemask_ps]: the top bits of the lanes. *)
Fixpoint movemask (a : lanes) : Z := match a with [] => 0 | x :: a => Z.b2z (Z.testbit x 31) + 2 * movemask a end.
End Simd.

(** ** Tile *)

Definition TILE_FACE_HW_CHOICES : list ((Z * Z) * (Z * Z)) :=
  [((32, 32), (16, 16)); ((16, 32), (16, 16)); ((32, 16), (16, 16)); ((16, 16), (16, 16));
   ((8, 32), (8, 16)); ((4, 32), (4, 16)); ((2, 32), (2, 16)); ((1, 32), (1, 16));
   ((8, 16), (8, 16)); ((4, 16), (4, 16)); ((2, 16), (2, 16)); ((1, 16), (1, 16))].

Record Tile := mkTile {
  tile_shape : Z * Z;
  face_shape : Z * Z;
  tile_hw : Z;
  face_hw : Z;
  num_faces : Z;
  partial_face : Z;
  narrow_tile : Z;
  transpose_within_face : bool;
  transpose_of_faces : bool;
}.

Definition Tile_new (shape : Z * Z) (transpose_tile : bool) : res Tile :=
  match find (fun choice => bool_decide (choice.1 = shape)) TILE_FACE_HW_CHOICES with
  | None => Err Throw
  | Some choice =>
      let face := choice.2 in
      check Fatal (negb transpose_tile || (shape.1 =? 16) || (shape.1 =? 32));;
      let hw := u32 (shape.1 * shape.2) in
      let fhw := u32 (face.1 * face.2) in
      mret (mkTile shape face hw fhw (hw / fhw) (Z.b2z (shape.1 <? 32)) (Z.b2z (shape.2 <? 32)) transpose_tile transpose_tile)
  end.

Section Tiles.
(** The alignment of L1, from the hardware abstraction layer. *)
Context (l1_alignment : Z).

Definition get_tile_size (t : Tile) (format : DataFormat) : res Z :=
  aligned_exp_size ← round_up (u32 ((face_shape t).1 * num_faces t)) l1_alignment;
  match format with
  | Bfp2 | Bfp2_b => mret (u32 (tile_hw t / 4 + aligned_exp_size))
  | Bfp4 | Bfp4_b => mret (u32 (tile_hw t / 2 + aligned_exp_size))
  | Bfp8 | Bfp8_b => mret (u32 (tile_hw t + aligned_exp_size))
  | Float16 | Float16_b => mret (u32 (tile_hw t * 2))
  | Float32 => mret (u32 (tile_hw t * 4))
  | Int8 | Lf8 | UInt8 => mret (tile_hw t)
  | UInt16 => mret (u32 (tile_hw t * 2))
  | UInt32 => mret (u32 (tile_hw t * 4))
  | RawUInt8 => mret (tile_hw t)
  | RawUInt16 => mret (u32 (tile_hw t * 2))
  | Int32 | RawUInt32 => mret (u32 (tile_hw t * 4))
  | Tf32 | Fp8_e4m3 | Invalid => Err StdException
  end.

(** The sizes for the tile of 32 by 32. *)
Definition datum_size (format : DataFormat) : res Z :=
  match format with
  | Float16 | Float16_b | UInt16 | RawUInt16 => mret 2
  | Float32 | Int32 | UInt32 | RawUInt32 => mret 4
  | Int8 | Lf8 | UInt8 | RawUInt8 => mret 1
  | _ => Err StdException
  end.

Definition tile_size (format : DataFormat) : res Z :=
  match format with
  | Bfp2 | Bfp2_b => mret (64 * 4 + 16 * 4)
  | Bfp4 | Bfp4_b => mret (128 * 4 + 16 * 4)
  | Bfp8 | Bfp8_b => mret (256 * 4 + 16 * 4)
  | Float16 | Float16_b | UInt16 | RawUInt16 => mret (1024 * 2)
  | Float32 | Int32 | UInt32 | RawUInt32 => mret (1024 * 4)
  | Int8 | Lf8 | UInt8 | RawUInt8 => mret 1024
  | Tf32 | Fp8_e4m3 | Invalid => Err StdException
  end.

(** The shapes of the optional tile: height and width of the tile and of a face. *)
Record shapes := mkShapes { tile_H : Z; tile_W : Z; face_H : Z; face_W : Z }.
Definition shapes_of (tile : option Tile) : shapes :=
  match tile with
  | Some t => mkShapes (tile_shape t).1 (tile_shape t).2 (face_shape t).1 (face_shape t).2
  | None => mkShapes 32 32 16 16
  end.

(** [v.at(i)], where [i] is an [int] or a [uint32_t]. *)
Definition vec_at {A} (v : list A) (i : Z) : res A := opt_res StdException (if i <? 0 then None else v !! Z.to_nat i).

(** The values of [j] in [for (j = 0; j < hi; j += step)]. *)
Definition steps (hi step : Z) : list Z := map (Z.mul step) (zrange 0 ((hi + step - 1) / step)).

(** *** Packing *)

Record Packer := mkPacker {
  packed_result : list Z;
  exponents : list Z;
  data : list Z;
  packed_data : list Z;
  exponents_with_padding : list Z;
  fp32_element_index : Z;
}.

Section Packing.
Context (f : DataFormat) (fp32_vec : list Z) (row_major_input is_exp_a : bool) (sh : shapes) (exponent_padding : bool).

Definition pack_element (tile_index tr tc i j : Z) (st : Z * list Z) : res (Z * list Z) :=
  let '(fp32_element_index, single_row) := st in
  let num_float_in_tile := i32 (tile_H sh * tile_W sh) in
  let '(data_index, fp32_element_index) :=
    if row_major_input
    then (i32 ((tr * face_H sh + i) * tile_W sh + (tc * face_W sh + j) + num_float_in_tile * tile_index), fp32_element_index)
    else (fp32_element_index, i32 (fp32_element_index + 1)) in
  x ← vec_at fp32_vec data_index;
  mret (fp32_element_index, single_row ++ [x]).

Definition push_exponent (exp : Z) (p : Packer) : res Packer :=
  if exponent_padding then
    mret (mkPacker (packed_result p) (exponents p) (data p) (packed_data p) (exponents_with_padding p ++ [exp]) (fp32_element_index p))
  else
    let exponents := exponents p ++ [exp] in
    if Z.of_nat (length exponents) mod 4 =? 0 then
      w ← get_exp_dword exponents;
      mret (mkPacker (packed_result p ++ [w]) [] (data p) (packed_data p) (exponents_with_padding p) (fp32_element_index p))
    else mret (mkPacker (packed_result p) exponents (data p) (packed_data p) (exponents_with_padding p) (fp32_element_index p)).

Definition push_datum (exp u32_datum : Z) (p : Packer) : res Packer :=
  let data := data p ++ [u32_datum] in
  if Z.of_nat (length data) mod nums_in_dword f =? 0 then
    datum ← create_packed_bfp_packed_as_u32 f data exp is_exp_a;
    mret (mkPacker (packed_result p) (exponents p) [] (packed_data p ++ [datum]) (exponents_with_padding p) (fp32_element_index p))
  else mret (mkPacker (packed_result p) (exponents p) data (packed_data p) (exponents_with_padding p) (fp32_element_index p)).

Definition set_element_index (n : Z) (p : Packer) : Packer :=
  mkPacker (packed_result p) (exponents p) (data p) (packed_data p) (exponents_with_padding p) n.

Definition pack_row (tile_index tr tc i : Z) (p : Packer) : res Packer :=
  '(n, single_row) ← fold_res (pack_element tile_index tr tc i) (zrange 0 (face_W sh)) (fp32_element_index p, []);
  exp ← get_max_exp single_row is_exp_a;
  p ← push_exponent exp (set_element_index n p);
  fold_res (push_datum exp) single_row p.

Definition pack_tile (tile_index : Z) (p : Packer) : res Packer :=
  let p := mkPacker (packed_result p) (exponents p) (data p) [] [] (fp32_element_index p) in
  p ← fold_res (fun tr => fold_res (fun tc => fold_res (pack_row tile_index tr tc) (zrange 0 (face_H sh)))
        (zrange 0 (tile_W sh / face_W sh))) (zrange 0 (tile_H sh / face_H sh)) p;
  packed ← (if exponent_padding then
              let size := Z.of_nat (length (exponents_with_padding p)) in
              padded ← round_up (u32 size) l1_alignment;
              pack_exponents (exponents_with_padding p ++ replicate (Z.to_nat (padded - size)) 0) 4
            else mret []);
  mret (mkPacker (packed_result p ++ packed ++ packed_data p) (exponents p) (data p) (packed_data p) (exponents_with_padding p) (fp32_element_index p)).
End Packing.

Definition pack_fp32_vec_as_bfp_tiles (f : DataFormat) (fp32_vec : list Z) (row_major_input is_exp_a : bool) (tile : option Tile) : res (list Z) :=
  check Assert (is_bfp f);;
  let sh := shapes_of tile in
  let exponent_padding := u32 (face_H sh * (tile_W sh / face_W sh) * (tile_H sh / face_H sh)) <? l1_alignment in
  let num_float_in_tile := i32 (tile_H sh * tile_W sh) in
  let size := Z.of_nat (length fp32_vec) in
  check Assert (size mod num_float_in_tile =? 0);;
  let num_tiles := u32 (size / num_float_in_tile) in
  p ← fold_res (pack_tile f fp32_vec row_major_input is_exp_a sh exponent_padding) (zrange 0 num_tiles) (mkPacker [] [] [] [] [] 0);
  mret (packed_result p).

Definition pack_fp32_vec_as_bfp8_tiles := pack_fp32_vec_as_bfp_tiles Bfp8_b.
Definition pack_fp32_vec_as_bfp4_tiles := pack_fp32_vec_as_bfp_tiles Bfp4_b.

(** *** Unpacking *)

Import Simd.

(** What both unpackers do to eight data that share an exponent: [w] bits of mantissa.
    The result is the patterns of the floats. *)
Definition normalize_step (w : Z) (n shift_val : nat) (st : lanes * lanes) : lanes * lanes :=
  let '(man_shifted, shift_cnt) := st in
  let top := set1 n (2 ^ (w - 1)) in
  let shift_mask := or_ (cmpgt man_shifted top) (cmpeq man_shifted top) in
  (blendv (sll man_shifted 1) man_shifted shift_mask, blendv (set1 n (Z.of_nat shift_val + 1)) shift_cnt shift_mask).

Definition unpack_lanes (w : Z) (is_exp_a : bool) (combined exp_vector : lanes) : res lanes :=
  let n := 8%nat in
  let rebias_offset := if is_exp_a then set1 n (-112) else set1 n 0 in
  let sign := srl combined w in
  let man := and_ combined (set1 n (2 ^ w - 1)) in
  let shift_cnt := set1 n 0 in
  let select_mask := cmpeq man shift_cnt in
  let '(man_shifted, shift_cnt) := foldl (fun st v => normalize_step w n v st) (man, shift_cnt) (seq 0 (Z.to_nat w)) in
  let man_shifted := and_ (sll man_shifted 1) (set1 n (2 ^ w - 1)) in
  let man := blendv man_shifted man select_mask in
  check Assert (negb (negb (Z.land (Z.land (movemask (cmpgt exp_vector (set1 n 0))) (movemask (cmpgt shift_cnt exp_vector)))
                                   (Z.b2z (movemask select_mask =? 0)) =? 0)));;
  let exp_vector := blendv (sub exp_vector (add rebias_offset shift_cnt)) (set1 n 0) select_mask in
  let sign := sll sign 31 in
  let exp_vector := sll exp_vector 23 in
  let man := sll man (23 - w) in
  mret (or_ sign (or_ exp_vector man)).

(** [_mm256_storeu_ps] to an element and the seven behind it. *)
Definition storeu (float_data_index : Z) (v : lanes) (float_vec : list Z) : res (list Z) :=
  check Undefined (float_data_index + 8 <=? Z.of_nat (length float_vec));;
  mret (take (Z.to_nat float_data_index) float_vec ++ v ++ drop (Z.to_nat float_data_index + 8) float_vec).

Definition exp_bit_mask (tile_HW : Z) : Z := if tile_HW =? 16 then 0 else if tile_HW =? 32 then 1 else 3.

Section Unpacking8.
Context (bfp8_tiles : list Z) (row_major_output is_exp_a : bool) (sh : shapes) (num_exp_words : Z).

Definition tile_HW : Z := tile_H sh * tile_W sh.
Definition face_HW : Z := face_H sh * face_W sh.
Definition num_bfp8_in_tile : Z := u32 (tile_HW / 4 + num_exp_words).
Definition num_float_in_tile : Z := u32 ((tile_H sh / face_H sh) * (tile_W sh / face_W sh) * face_H sh * face_W sh).

(** The four bytes of a word, a lane each. *)
Definition bytes_of (word : Z) : lanes := srlv (and_ (set1 4 word) [0xff; 0xff00; 0xff0000; 0xff000000]) [0; 8; 16; 24].

Definition unpack8_step (tile_index tr tc i j : Z) (st : Z * list Z) : res (Z * list Z) :=
  let '(fp32_element_index, float_vec) := st in
  let subtile_r := i32 (tr * face_H sh + i) in
  let subtile_c := i32 (tc * face_W sh + j) in
  let data_index := i32 (tr * ((tile_W sh / face_W sh) * face_HW / 4) + tc * (face_HW / 4) + i * (face_W sh / 4) + j / 4) in
  let tile_and_data_index := i32 (data_index + num_bfp8_in_tile * tile_index) in
  let exponent_index := i32 (Z.shiftr data_index 4 + num_bfp8_in_tile * tile_index) in
  exp_word ← vec_at bfp8_tiles exponent_index;
  let num_exponent_words_skip := i32 (tile_index * num_exp_words) in
  let sub_word_index := Z.land (u32 (Z.shiftr (tile_and_data_index - num_exponent_words_skip) 2)) (exp_bit_mask tile_HW) in
  exp ← get_byte exp_word sub_word_index;
  first ← vec_at bfp8_tiles (u32 (num_exp_words + tile_and_data_index));
  second ← vec_at bfp8_tiles (u32 (num_exp_words + tile_and_data_index + 1));
  man ← unpack_lanes 7 is_exp_a (bytes_of first ++ bytes_of second) (set1 8 exp);
  let '(float_data_index, fp32_element_index) :=
    if row_major_output then (u32 (subtile_c + tile_W sh * subtile_r + tile_index * num_float_in_tile), fp32_element_index)
    else (fp32_element_index, u32 (fp32_element_index + 8)) in
  float_vec ← storeu float_data_index man float_vec;
  mret (fp32_element_index, float_vec).
End Unpacking8.

Definition unpack_bfp8_tiles_into_float_vec (bfp8_tiles : list Z) (row_major_output is_exp_a : bool) (tile : option Tile) : res (list Z) :=
  let sh := shapes_of tile in
  exp_bytes ← round_up (u32 (tile_HW sh / face_HW sh * face_H sh)) l1_alignment;
  let num_exp_words := exp_bytes / 4 in
  let size_bytes := u32 (Z.of_nat (length bfp8_tiles) * 4) in
  single_bfp8_tile_size ← match tile with Some t => get_tile_size t Bfp8_b | None => tile_size Bfp8_b end;
  check Assert (size_bytes mod single_bfp8_tile_size =? 0);;
  let num_tiles := size_bytes / single_bfp8_tile_size in
  let float_vec := replicate (Z.to_nat (u32 (num_tiles * num_float_in_tile sh))) 0 in
  '(_, float_vec) ← fold_res (fun tile_index => fold_res (fun tr => fold_res (fun tc => fold_res (fun i =>
      fold_res (unpack8_step bfp8_tiles row_major_output is_exp_a sh num_exp_words tile_index tr tc i) (steps (face_W sh) 8))
      (zrange 0 (face_H sh))) (zrange 0 (tile_W sh / face_W sh))) (zrange 0 (tile_H sh / face_H sh)))
    (zrange 0 num_tiles) (0, float_vec);
  mret float_vec.

(** [log2] of bfloat4.hpp, for a positive number. *)
Fixpoint log2_go (fuel : nat) (n log : Z) : Z :=
  let n := Z.shiftr n 1 in
  if n =? 0 then log else match fuel with O => log | S fuel => log2_go fuel n (log + 1) end.
Definition log2 (n : Z) : Z := log2_go 32 n 0.

Section Unpacking4.
Context (bfp_tiles : list Z) (row_major_output is_exp_a : bool) (sh : shapes) (num_exp_words : Z).

Definition num_bfp_dwords_in_tile : Z := i32 (tile_HW sh / 8 + num_exp_words).

(** The eight halves of the bytes of a word, a lane each. *)
Definition nibbles_of (word : Z) : lanes :=
  srlv (and_ (set1 4 word) [0xf; 0xf0; 0xf00; 0xf000]) [0; 4; 8; 12] ++
  srlv (and_ (set1 4 word) [0xf0000; 0xf00000; 0xf000000; 0xf0000000]) [16; 20; 24; 28].

Definition unpack4_step (tile_index tr tc i j : Z) (st : Z * list Z) : res (Z * list Z) :=
  let '(fp32_element_index, float_vec) := st in
  let data_dwords_per_exp := i32 (face_W sh / 8) in
  let data_dwords_per_exp_dword_log2 := log2 (data_dwords_per_exp * 4) in
  let data_dwords_per_exp_log2 := log2 data_dwords_per_exp in
  let num_dwords_per_row := i32 (face_W sh / 8) in
  let subtile_r := i32 (tr * face_H sh + i) in
  let subtile_c := i32 (tc * face_W sh + j) in
  let data_index := i32 (tr * ((tile_W sh / face_W sh) * face_HW sh / 8) + tc * (face_HW sh / 8) + i * num_dwords_per_row + j / 8) in
  let tile_and_data_index := i32 (data_index + num_bfp_dwords_in_tile * tile_index) in
  let exponent_index := i32 (Z.shiftr data_index data_dwords_per_exp_dword_log2 + num_bfp_dwords_in_tile * tile_index) in
  exp_word ← vec_at bfp_tiles exponent_index;
  let num_exponent_words_skip := i32 (tile_index * num_exp_words) in
  let sub_word_index := Z.land (u32 (Z.shiftr (tile_and_data_index - num_exponent_words_skip) data_dwords_per_exp_log2)) (exp_bit_mask (tile_HW sh)) in
  exp ← get_byte exp_word sub_word_index;
  first_val ← vec_at bfp_tiles (u32 (num_exp_words + tile_and_data_index));
  second_val ← vec_at bfp_tiles (u32 (num_exp_words + tile_and_data_index + 1));
  man0 ← unpack_lanes 3 is_exp_a (nibbles_of first_val) (set1 8 exp);
  man1 ← unpack_lanes 3 is_exp_a (nibbles_of second_val) (set1 8 exp);
  let '(float_data_index, fp32_element_index) :=
    if row_major_output then (u32 (subtile_c + tile_W sh * subtile_r + tile_index * num_float_in_tile sh), fp32_element_index)
    else (fp32_element_index, u32 (fp32_element_index + 2 * 8)) in
  float_vec ← storeu float_data_index man0 float_vec;
  float_vec ← storeu (u32 (float_data_index + 8)) man1 float_vec;
  mret (fp32_element_index, float_vec).
End Unpacking4.

Definition unpack_bfp4_tiles_into_float_vec (bfp_tiles : list Z) (row_major_output is_exp_a : bool) (tile : option Tile) : res (list Z) :=
  let sh := shapes_of tile in
  let size_bytes := u32 (Z.of_nat (length bfp_tiles) * 4) in
  single_bfp_tile_size ← match tile with Some t => get_tile_size t Bfp4_b | None => tile_size Bfp4_b end;
  check Assert (size_bytes mod single_bfp_tile_size =? 0);;
  let num_tiles := size_bytes / single_bfp_tile_size in
  exp_bytes ← round_up (u32 (tile_HW sh / face_HW sh * face_H sh)) l1_alignment;
  let num_exp_words := exp_bytes / 4 in
  let float_vec := replicate (Z.to_nat (u32 (num_tiles * num_float_in_tile sh))) 0 in
  '(_, float_vec) ← fold_res (fun tile_index => fold_res (fun tr => fold_res (fun tc => fold_res (fun i =>
      fold_res (unpack4_step bfp_tiles row_major_output is_exp_a sh num_exp_words tile_index tr tc i) (steps (face_W sh) 16))
      (zrange 0 (face_H sh))) (zrange 0 (tile_W sh / face_W sh))) (zrange 0 (tile_H sh / face_H sh)))
    (zrange 0 num_tiles) (0, float_vec);
  mret float_vec.
End Tiles.
