(* ===== verification/TileLanes.v ===== *)
(** * The words and lanes of packed tiles: lemmas

    Words that hold small digits, and the unpackers' vector code against the conversion
    of one number. *)

From Stdlib Require Import Lia.
From S2P Require Import Prelude BlockFloat BlockFloatProps WorkSplit Tiles.
Import Simd.

(** ** Digits of a word *)

(** The word whose digits, of [k] bits each, are [cs], the first lowest. *)
Definition word_of (k : Z) (cs : list Z) : Z := foldr (fun c acc => c + 2 ^ k * acc) 0 cs.

Definition digits (k : Z) (cs : list Z) : Prop := Forall (fun c => 0 <= c < 2 ^ k) cs.

Lemma word_of_range k cs : 0 <= k -> digits k cs -> 0 <= word_of k cs < 2 ^ (k * Z.of_nat (length cs)).
Proof.
  intros Hk. induction 1 as [|c cs Hc _ IH]; cbn [word_of foldr length]; [by rewrite Z.mul_0_r|]. fold (word_of k cs).
  rewrite Nat2Z.inj_succ, Z.mul_succ_r, Z.pow_add_r by lia. assert (0 < 2 ^ k) by (apply Z.pow_pos_nonneg; lia). nia.
Qed.

Lemma word_digit k cs i c : 0 <= k -> digits k cs -> cs !! i = Some c -> (word_of k cs / 2 ^ (k * Z.of_nat i)) mod 2 ^ k = c.
Proof.
  intros Hk H. assert (0 < 2 ^ k) as Hp by (apply Z.pow_pos_nonneg; lia). revert i. induction H as [|a cs Ha Hcs IH]; intros [|i] E; cbn in E; try done.
  - injection E as <-. cbn [word_of foldr]. fold (word_of k cs). rewrite Z.mul_0_r, Z.div_1_r. symmetry. apply (Z.mod_unique _ _ (word_of k cs)); lia.
  - cbn [word_of foldr]. fold (word_of k cs). replace (k * Z.of_nat (S i)) with (k + k * Z.of_nat i) by lia.
    rewrite Z.pow_add_r, <- Z.div_div by (try apply Z.pow_nonzero; try apply Z.pow_pos_nonneg; lia).
    replace ((a + 2 ^ k * word_of k cs) / 2 ^ k) with (word_of k cs); [by apply IH|]. apply (Z.div_unique _ _ _ a); lia.
Qed.

(** A field of a word is masked and shifted down. *)
Lemma field_digit k cs i c :
  0 <= k -> digits k cs -> cs !! i = Some c ->
  Z.shiftr (Z.land (word_of k cs) (Z.shiftl (Z.ones k) (k * Z.of_nat i))) (k * Z.of_nat i) = c.
Proof. intros Hk H E. rewrite field_div by lia. by apply word_digit. Qed.

(** A digit is put above the others. *)
Lemma lor_digit k c acc n : 0 < k -> 0 <= n -> 0 <= c < 2 ^ k -> 0 <= acc < 2 ^ n -> k + n <= 32 ->
  Z.lor (u32 (Z.shiftl acc k)) (Z.land c (Z.shiftl 1 k - 1)) = c + 2 ^ k * acc.
Proof.
  intros Hk Hn Hc Ha Hb. rewrite !Z.shiftl_mul_pow2, Z.mul_1_l by lia. replace (2 ^ k - 1) with (Z.ones k) by (rewrite Z.ones_equiv; lia). rewrite Z.land_ones, Z.mod_small by lia.
  rewrite u32_small; [rewrite lor_add by lia; lia|]. assert (2 ^ k * 2 ^ n <= 2 ^ 32) by (rewrite <- Z.pow_add_r by lia; apply Z.pow_le_mono_r; lia). nia.
Qed.

(** ** The word of consecutive numbers *)

Lemma word_of_drop k cs (m : nat) c : cs !! m = Some c -> word_of k (drop m cs) = c + 2 ^ k * word_of k (drop (S m) cs).
Proof. intros H. by rewrite (drop_S _ _ _ H). Qed.

Lemma packed_from f s a xs cs m :
  let n := nums_in_dword f in let k := 32 / n in
  is_bfp f = true -> Z.of_nat (length xs) = n ->
  Forall2 (fun x c => convert_u32_to_bfp f false x s a = Ok c /\ 0 <= c < 2 ^ k) xs cs -> (m <= length xs)%nat ->
  fold_res (fun i tmp_o =>
    x ← at_ xs i; conv_num ← convert_u32_to_bfp f false x s a;
    mret (Z.lor (u32 (Z.shiftl tmp_o k)) (Z.land conv_num (Z.shiftl 1 k - 1)))) (reverse (zrange (Z.of_nat m) n)) 0 = Ok (word_of k (drop m cs)).
Proof.
  intros n k Hf Hlen Hc Hm. pose proof (Forall2_length _ _ _ Hc) as Hl.
  assert (digits k cs) as Hd by (clear -Hc; induction Hc as [|x c xs' cs' [_ H]]; by constructor).
  assert (0 < k /\ k * n = 32) as [Hk Hkn] by (unfold k, n, nums_in_dword; destruct (is_bfp2 f); [done|destruct (is_bfp4 f); done]).
  remember (length xs - m)%nat as d eqn:Ed. revert m Hm Ed. induction d as [|d IH]; intros m Hm Ed.
  - rewrite zrange_nil by lia. by rewrite drop_ge by lia.
  - rewrite zrange_cons, reverse_cons, fold_res_app by lia. replace (Z.of_nat m + 1) with (Z.of_nat (S m)) by lia. rewrite IH by lia.
    destruct (lookup_lt_is_Some_2 xs m ltac:(lia)) as [x Hx]. destruct (lookup_lt_is_Some_2 cs m ltac:(lia)) as [c Hcm].
    destruct (Forall2_lookup_lr _ _ _ _ _ _ Hc Hx Hcm) as [Hconv Hrc].
    rewrite res_bind_ret. cbn [fold_res]. unfold at_. rewrite Nat2Z.id, Hx. cbn [opt_res]. rewrite res_bind_ret, Hconv, res_bind_ret.
    cbn [mbind res_bind mret res_ret]. f_equal. rewrite (word_of_drop k cs m c Hcm).
    pose proof (word_of_range k (drop (S m) cs) ltac:(lia) ltac:(by apply Forall_drop)) as Hw. rewrite length_drop in Hw.
    apply (lor_digit k c _ (k * Z.of_nat (length cs - S m))); try lia; [nia|]. assert (k * Z.of_nat (S (length cs - S m)) <= k * n) by (apply Z.mul_le_mono_nonneg_l; lia). lia.
Qed.

Lemma create_packed_ok f s a xs cs :
  let k := 32 / nums_in_dword f in
  is_bfp f = true -> Z.of_nat (length xs) = nums_in_dword f ->
  Forall2 (fun x c => convert_u32_to_bfp f false x s a = Ok c /\ 0 <= c < 2 ^ k) xs cs ->
  create_packed_bfp_packed_as_u32 f xs s a = Ok (word_of k cs).
Proof.
  intros k Hf Hlen Hc. unfold create_packed_bfp_packed_as_u32. rewrite Hf. cbn [check]. rewrite res_bind_ret.
  apply (packed_from f s a xs cs 0 Hf Hlen Hc). lia.
Qed.

(** ** Bytes and nibbles *)

Lemma u32_word k cs : 0 <= k -> k * Z.of_nat (length cs) <= 32 -> digits k cs -> u32 (word_of k cs) = word_of k cs.
Proof.
  intros Hk Hl H. apply u32_small. pose proof (word_of_range k cs Hk H). assert (2 ^ (k * Z.of_nat (length cs)) <= 2 ^ 32) by (apply Z.pow_le_mono_r; lia). lia.
Qed.

Lemma bytes_of_word cs : length cs = 4%nat -> digits 8 cs -> bytes_of (word_of 8 cs) = cs.
Proof.
  intros Hl H. unfold bytes_of, srlv, and_, set1. rewrite u32_word by (rewrite ?Hl; done || lia).
  assert (forall (i : nat) c, cs !! i = Some c -> Z.shiftr (Z.land (word_of 8 cs) (Z.shiftl (Z.ones 8) (8 * Z.of_nat i))) (8 * Z.of_nat i) = c) as E
    by (intros i c; by apply field_digit).
  destruct cs as [|c0 [|c1 [|c2 [|c3 [|]]]]]; try done. set (w := word_of 8 _) in *.
  pose proof (E 0%nat c0 eq_refl) as E0. pose proof (E 1%nat c1 eq_refl) as E1. pose proof (E 2%nat c2 eq_refl) as E2. pose proof (E 3%nat c3 eq_refl) as E3.
  clearbody w. cbn [replicate zip_with]. f_equal; [exact E0|]. f_equal; [exact E1|]. f_equal; [exact E2|]. f_equal. exact E3.
Qed.

Lemma nibbles_of_word cs : length cs = 8%nat -> digits 4 cs -> nibbles_of (word_of 4 cs) = cs.
Proof.
  intros Hl H. unfold nibbles_of, srlv, and_, set1. rewrite u32_word by (rewrite ?Hl; done || lia).
  assert (forall (i : nat) c, cs !! i = Some c -> Z.shiftr (Z.land (word_of 4 cs) (Z.shiftl (Z.ones 4) (4 * Z.of_nat i))) (4 * Z.of_nat i) = c) as E
    by (intros i c; by apply field_digit).
  destruct cs as [|c0 [|c1 [|c2 [|c3 [|c4 [|c5 [|c6 [|c7 [|]]]]]]]]]; try done. set (w := word_of 4 _) in *.
  pose proof (E 0%nat c0 eq_refl) as E0. pose proof (E 1%nat c1 eq_refl) as E1. pose proof (E 2%nat c2 eq_refl) as E2. pose proof (E 3%nat c3 eq_refl) as E3.
  pose proof (E 4%nat c4 eq_refl) as E4. pose proof (E 5%nat c5 eq_refl) as E5. pose proof (E 6%nat c6 eq_refl) as E6. pose proof (E 7%nat c7 eq_refl) as E7.
  clearbody w. cbn [replicate zip_with app].
  f_equal; [exact E0|]. f_equal; [exact E1|]. f_equal; [exact E2|]. f_equal; [exact E3|]. f_equal; [exact E4|]. f_equal; [exact E5|]. f_equal; [exact E6|]. f_equal. exact E7.
Qed.

(** The exponents of four rows. *)
Lemma get_exp_dword_ok cs : length cs = 4%nat -> digits 8 cs -> get_exp_dword cs = Ok (word_of 8 cs).
Proof.
  intros Hl H. destruct cs as [|c0 [|c1 [|c2 [|c3 [|]]]]]; try done. unfold get_exp_dword. change (zrange 0 4) with [0; 1; 2; 3].
  transitivity (Ok (Z.lor (Z.lor (Z.lor (Z.lor 0 (Z.shiftl (Z.land c0 0xff) (0 * 8))) (Z.shiftl (Z.land c1 0xff) (1 * 8))) (Z.shiftl (Z.land c2 0xff) (2 * 8))) (Z.shiftl (Z.land c3 0xff) (3 * 8)))); [reflexivity|].
  unfold digits in H. rewrite !Forall_cons in H. destruct H as (H0 & H1 & H2 & H3 & _). change 0xff with (Z.ones 8). rewrite !Z.land_ones, !Z.mod_small, !Z.shiftl_mul_pow2 by lia.
  f_equal. cbn [word_of foldr]. rewrite Z.lor_0_l. rewrite Z.mul_0_l, Z.pow_0_r, Z.mul_1_r. rewrite (lor_add' _ c1) by lia. rewrite (lor_add' _ c2) by lia. rewrite (lor_add' _ c3) by lia. lia.
Qed.

Lemma get_byte_ok cs (i : nat) c : length cs = 4%nat -> digits 8 cs -> cs !! i = Some c -> get_byte (word_of 8 cs) (Z.of_nat i) = Ok c.
Proof.
  intros Hl H E. pose proof (lookup_lt_Some _ _ _ E) as Hi. unfold get_byte. rewrite (proj2 (Z.ltb_lt _ _)) by lia. cbn [check]. rewrite res_bind_ret.
  unfold mret, res_ret. f_equal. rewrite u32_small.
  - change 0xff with (Z.ones 8). by apply field_digit.
  - rewrite Z.shiftl_mul_pow2 by lia. assert (0 < 2 ^ (8 * Z.of_nat i) <= 2 ^ 24) by (split; [apply Z.pow_pos_nonneg; lia|apply Z.pow_le_mono_r; lia]). lia.
Qed.

(** ** Lanes *)

Lemma zip_map {A B C D} (op : B -> C -> D) (g : A -> B) (h : A -> C) l : zip_with op (map g l) (map h l) = map (fun x => op (g x) (h x)) l.
Proof. induction l as [|x l IH]; cbn; [done|]. by rewrite IH. Qed.

Lemma zip_map_r {A C D} (op : A -> C -> D) (h : A -> C) l : zip_with op l (map h l) = map (fun x => op x (h x)) l.
Proof. rewrite <- (map_id l) at 1. apply zip_map. Qed.

Lemma set1_map {A} n x (l : list A) : length l = n -> set1 n x = map (fun _ => u32 x) l.
Proof. intros <-. unfold set1. induction l as [|y l IH]; cbn; [done|]. by rewrite IH. Qed.

Definition all_ones : Z := 0xffffffff.

Lemma byte_bit a i n : 0 <= i -> 0 <= n ->
  Z.testbit (Z.shiftl (Z.land (Z.shiftr a (8 * i)) 0xff) (8 * i)) n = (8 * i <=? n) && (n <? 8 * i + 8) && Z.testbit a n.
Proof.
  intros Hi Hn. rewrite Z.shiftl_spec by done. destruct (Z.leb_spec (8 * i) n) as [H|H]; [|by rewrite Z.testbit_neg_r by lia].
  rewrite Z.land_spec, Z.shiftr_spec by lia. change 0xff with (Z.ones 8). rewrite Z.testbit_ones_nonneg by lia.
  replace (n - 8 * i + 8 * i) with n by lia. cbn [andb]. destruct (Z.ltb_spec (n - 8 * i) 8), (Z.ltb_spec n (8 * i + 8)); try lia; by rewrite ?andb_true_r, ?andb_false_r.
Qed.

(** With all bytes from one side. *)
Lemma lane_bytes_join a : is_u32 a ->
  let byte i := Z.shiftl (Z.land (Z.shiftr a (8 * i)) 0xff) (8 * i) in Z.lor (Z.lor (byte 0) (byte 1)) (Z.lor (byte 2) (byte 3)) = a.
Proof.
  intros Ha byte. apply Z.bits_inj'. intros n Hn. rewrite !Z.lor_spec. unfold byte. rewrite !byte_bit by lia.
  destruct (Z.lt_ge_cases n 32) as [H|H].
  - destruct (Z.testbit a n); [|by rewrite !andb_false_r]. rewrite !andb_true_r.
    destruct (Z.leb_spec (8 * 0) n), (Z.ltb_spec n (8 * 0 + 8)), (Z.leb_spec (8 * 1) n), (Z.ltb_spec n (8 * 1 + 8)), (Z.leb_spec (8 * 2) n),
      (Z.ltb_spec n (8 * 2 + 8)), (Z.leb_spec (8 * 3) n), (Z.ltb_spec n (8 * 3 + 8)); try reflexivity; lia.
  - assert (Z.testbit a n = false) as ->; [|by rewrite !andb_false_r].
    destruct (Z.eq_dec a 0) as [->|Hne]; [apply Z.testbit_0_l|]. unfold is_u32 in Ha. apply Z.bits_above_log2; [lia|]. apply Z.log2_lt_pow2; [lia|].
    eapply Z.lt_le_trans; [apply Ha|]. apply Z.pow_le_mono_r; lia.
Qed.

Lemma blend_all a b (c : bool) : is_u32 a -> is_u32 b -> blend_lane a b (if c then all_ones else 0) = if c then b else a.
Proof. intros Ha Hb. unfold blend_lane, blend_byte. destruct c; cbn -[Z.shiftl Z.shiftr Z.land Z.lor Z.mul]; by apply lane_bytes_join. Qed.

(** What a lane goes through. *)
Definition lane_step (w : Z) (st : Z * Z) (v : nat) : Z * Z :=
  let mask := Z.lor (if i32 (u32 (2 ^ (w - 1))) <? i32 st.1 then all_ones else 0) (if st.1 =? u32 (2 ^ (w - 1)) then all_ones else 0) in
  (blend_lane (u32 (Z.shiftl st.1 1)) st.1 mask, blend_lane (u32 (Z.of_nat v + 1)) st.2 mask).

Definition lane_norm (w b : Z) : Z * Z := foldl (lane_step w) (Z.land b (u32 (2 ^ w - 1)), u32 0) (seq 0 (Z.to_nat w)).

Definition lane_select (w b : Z) : Z := if Z.land b (u32 (2 ^ w - 1)) =? u32 0 then all_ones else 0.

Definition lane_man (w b : Z) : Z :=
  blend_lane (Z.land (u32 (Z.shiftl (lane_norm w b).1 1)) (u32 (2 ^ w - 1))) (Z.land b (u32 (2 ^ w - 1))) (lane_select w b).

Definition lane_exp (w : Z) (is_exp_a : bool) (e b : Z) : Z :=
  blend_lane (u32 (u32 e - u32 (u32 (if is_exp_a then -112 else 0) + (lane_norm w b).2))) (u32 0) (lane_select w b).

Definition lane (w : Z) (is_exp_a : bool) (e b : Z) : Z :=
  Z.lor (u32 (Z.shiftl (Z.shiftr b w) 31)) (Z.lor (u32 (Z.shiftl (lane_exp w is_exp_a e b) 23)) (u32 (Z.shiftl (lane_man w b) (23 - w)))).

Lemma normalize_map w v l (g h : Z -> Z) :
  length l = 8%nat ->
  normalize_step w 8 v (map g l, map h l) = (map (fun b => (lane_step w (g b, h b) v).1) l, map (fun b => (lane_step w (g b, h b) v).2) l).
Proof.
  intros Hl. unfold normalize_step, lane_step, blendv, or_, cmpgt, cmpeq, sll. rewrite !(set1_map 8 _ l) by done.
  rewrite !map_map, !zip_map. done.
Qed.

Lemma normalize_all w vs l (g h : Z -> Z) :
  length l = 8%nat ->
  foldl (fun st v => normalize_step w 8 v st) (map g l, map h l) vs =
    (map (fun b => (foldl (lane_step w) (g b, h b) vs).1) l, map (fun b => (foldl (lane_step w) (g b, h b) vs).2) l).
Proof.
  intros Hl. revert g h. induction vs as [|v vs IH]; intros g h; cbn [foldl]; [done|]. rewrite normalize_map by done. rewrite IH.
  f_equal; apply map_ext; intros b; by rewrite <- surjective_pairing.
Qed.

Lemma unpack_lanes_map w a e l : length l = 8%nat -> 1 <= w <= 23 ->
  unpack_lanes w a l (set1 8 e) =
    (check Assert (negb (negb (Z.land (Z.land (movemask (map (fun _ => if i32 (u32 0) <? i32 (u32 e) then all_ones else 0) l))
      (movemask (map (fun b => if i32 (u32 e) <? i32 (lane_norm w b).2 then all_ones else 0) l)))
      (Z.b2z (movemask (map (lane_select w) l) =? 0)) =? 0)));; Ok (map (lane w a e) l)).
Proof.
  intros Hl Hw. unfold unpack_lanes. rewrite (set1_map 8 (2 ^ w - 1) l), !(set1_map 8 0 l) by done. unfold and_ at 1 2.
  rewrite zip_map_r, normalize_all by done. fold (lane_norm w).
  rewrite !(set1_map 8 e l) by done. unfold blendv, and_, cmpeq, cmpgt, or_, sub, add, sll, srl.
  replace (if a then set1 8 (-112) else map (fun _ => u32 0) l) with (map (fun _ : Z => u32 (if a then -112 else 0)) l) by (destruct a; [by rewrite (set1_map 8 (-112) l)|done]).
  repeat first [rewrite map_map | rewrite zip_map_r | rewrite zip_map]. rewrite (proj2 (Z.ltb_ge 31 w)), (proj2 (Z.ltb_ge 31 (23 - w))) by lia. done.
Qed.

(** ** Lanes against the conversion of one number *)

Definition lane_ok (f : DataFormat) (b : Z) : bool :=
  let w := MANTISSA_BFP_WIDTH f in
  let q := b mod 2 ^ w in
  if q =? 0 then (lane_select w b =? all_ones) && (lane_man w b =? 0) && (0 <=? (lane_norm w b).2) && ((lane_norm w b).2 <? 2 ^ 8)
  else (lane_select w b =? 0) && ((lane_norm w b).2 =? shift_count f q) && (lane_man w b * 2 ^ (23 - w) =? normalized f q).

(** Of four or eight bits. *)
Definition short (f : DataFormat) : bool := is_bfp4 f || is_bfp8 f.

Lemma lanes_ok f b : short f = true -> 0 <= b < 2 ^ (MANTISSA_BFP_WIDTH f + 1) -> lane_ok f b = true.
Proof.
  intros Hf Hb. assert (forallb (lane_ok f) (zrange 0 (2 ^ (MANTISSA_BFP_WIDTH f + 1))) = true) as H by (destruct f; try discriminate Hf; vm_compute; reflexivity).
  rewrite forallb_forall in H. apply H. apply list_elem_of_In, elem_of_zrange. done.
Qed.

(** The sign and the mantissa of a datum. *)
Lemma datum_split w b : 0 <= w -> 0 <= b < 2 ^ (w + 1) -> b = (b / 2 ^ w) * 2 ^ w + b mod 2 ^ w /\ 0 <= b / 2 ^ w <= 1 /\ 0 <= b mod 2 ^ w < 2 ^ w.
Proof.
  intros Hw Hb. assert (0 < 2 ^ w) by (apply Z.pow_pos_nonneg; lia). rewrite Z.pow_add_r in Hb by lia.
  pose proof (Z.div_mod b (2 ^ w) ltac:(lia)). pose proof (Z.mod_pos_bound b (2 ^ w) ltac:(lia)). split_and!; try lia; [apply Z.div_pos; lia|].
  apply Z.lt_succ_r. apply Z.div_lt_upper_bound; lia.
Qed.

(** A lane can be brought back to a float: its exponent is not too small. *)
Definition readable (f : DataFormat) (e b : Z) : Prop :=
  0 <= b < 2 ^ (MANTISSA_BFP_WIDTH f + 1) /\ let q := b mod 2 ^ MANTISSA_BFP_WIDTH f in q = 0 \/ shift_count f q <= e.

Lemma decode_signed_zero f sg e : short f = true -> 0 <= sg <= 1 -> convert_bfp_to_u32 f (sg * 2 ^ MANTISSA_BFP_WIDTH f) e false = Ok (sg * 2 ^ 31).
Proof. intros Hf Hs. assert (sg = 0 \/ sg = 1) as [-> | ->] by lia; by destruct f. Qed.

Lemma short_facts f : short f = true -> is_bfp f = true /\ 3 <= MANTISSA_BFP_WIDTH f <= 7 /\ 32 / nums_in_dword f = MANTISSA_BFP_WIDTH f + 1.
Proof. by destruct f. Qed.

Lemma lane_decodes f e b :
  short f = true -> 0 <= e < 2 ^ 8 -> readable f e b -> convert_bfp_to_u32 f b e false = Ok (lane (MANTISSA_BFP_WIDTH f) false e b).
Proof.
  intros Hf He [Hb Hq]. destruct (short_facts f Hf) as (Hbf & Hw & _). set (w := MANTISSA_BFP_WIDTH f) in *.
  destruct (datum_split w b ltac:(lia) Hb) as (Eb & Hsg & Hqr). set (sg := b / 2 ^ w) in *. set (q := b mod 2 ^ w) in *.
  pose proof (lanes_ok f b Hf Hb) as Hok. unfold lane_ok in Hok. fold w q in Hok. unfold lane, lane_exp.
  assert (Z.shiftr b w = sg) as -> by (rewrite Z.shiftr_div_pow2 by lia; done).
  destruct (Z.eqb_spec q 0) as [E|E].
  - rewrite !andb_true_iff in Hok. destruct Hok as [[[H1 H2] _] _]. apply Z.eqb_eq in H1, H2. rewrite H1, H2.
    rewrite (blend_all _ _ true) by apply u32_range. rewrite Eb, E, Z.add_0_r. rewrite decode_signed_zero by done. f_equal.
    change (u32 0) with 0. rewrite !Z.shiftl_0_l. change (u32 0) with 0. rewrite !Z.lor_0_r. rewrite Z.shiftl_mul_pow2, u32_small by (rewrite ?pow2_32; lia). done.
  - rewrite !andb_true_iff in Hok. destruct Hok as [[H1 H2] H3]. apply Z.eqb_eq in H1, H2, H3. destruct Hq as [Hq|Hq]; [done|].
    rewrite H1, H2. rewrite (blend_all _ _ false) by apply u32_range. change (u32 0) with 0.
    pose proof (shift_up_ok f q ltac:(fold w; lia)) as (_ & Hr & Hn). fold w in Hr, Hn. rewrite Z.add_0_l.
    rewrite (u32_small (shift_count f q)), (u32_small e), (u32_small (e - _)) by (pow2; lia).
    assert (0 <= lane_man w b < 2 ^ (23 - (23 - w))) as Hm.
    { replace (23 - (23 - w)) with w by lia. unfold normalized in H3. fold w in H3. apply Z.mul_cancel_r in H3; [|apply Z.pow_nonzero; lia].
      assert (2 ^ w = 2 * 2 ^ (w - 1)) by (rewrite <- Z.pow_succ_r by lia; f_equal; lia). lia. }
    rewrite Z.lor_assoc, put_fields by lia. rewrite H3. rewrite Eb at 1. apply decode_ok; [done|lia|fold w; lia|lia].
Qed.

(** ** The assertion of the unpackers *)

Lemma movemask_nonneg l : 0 <= movemask l.
Proof. induction l as [|x l IH]; cbn [movemask]; [done|]. destruct (Z.testbit x 31); cbn; lia. Qed.

Lemma movemask_zero {A} (c : A -> bool) l : (forall b, b ∈ l -> c b = false) -> movemask (map (fun b => if c b then all_ones else 0) l) = 0.
Proof.
  induction l as [|b l IH]; intros H; cbn [map movemask]; [done|]. rewrite (H b) by left. rewrite IH by (intros; apply H; by right). done.
Qed.

Lemma movemask_some l : all_ones ∈ l -> movemask l <> 0.
Proof.
  induction l as [|y l IH]; [by intros ?%elem_of_nil|]. cbn [movemask]. pose proof (movemask_nonneg l).
  intros [<-|Hl]%elem_of_cons; [change (Z.testbit all_ones 31) with true; cbn; lia|]. specialize (IH Hl). destruct (Z.testbit y 31); cbn; lia.
Qed.

(** Eight data are read back, each as if alone. *)
Lemma unpack_lanes_ok f e l :
  short f = true -> length l = 8%nat -> 0 <= e < 2 ^ 8 -> (forall b, b ∈ l -> readable f e b) ->
  unpack_lanes (MANTISSA_BFP_WIDTH f) false l (set1 8 e) = Ok (map (lane (MANTISSA_BFP_WIDTH f) false e) l).
Proof.
  intros Hf Hl He Hr. destruct (short_facts f Hf) as (_ & Hw & _). rewrite unpack_lanes_map by (done || lia).
  destruct (decide (Exists (fun b => b mod 2 ^ MANTISSA_BFP_WIDTH f = 0) l)) as [(b & Hb & Eb)%list.Exists_exists|Hno].
  - rewrite (proj2 (Z.eqb_neq (movemask (map (lane_select _) l)) 0)); [by rewrite Z.land_0_r|].
    apply movemask_some. apply elem_of_map. exists b. split; [|done]. pose proof (lanes_ok f b Hf (proj1 (Hr b Hb))) as Hok. unfold lane_ok in Hok.
    rewrite (proj2 (Z.eqb_eq _ _) Eb) in Hok. rewrite !andb_true_iff in Hok. destruct Hok as [[[H1 _] _] _]. by apply Z.eqb_eq in H1.
  - rewrite (movemask_zero (fun b => i32 (u32 e) <? i32 (lane_norm _ b).2)); [by rewrite Z.land_0_r|]. intros b Hb.
    destruct (Hr b Hb) as [Hb1 Hb2]. pose proof (lanes_ok f b Hf Hb1) as Hok. unfold lane_ok in Hok. set (q := b mod _) in *.
    destruct (Z.eqb_spec q 0) as [E|E]; [exfalso; apply Hno, list.Exists_exists; by exists b|]. destruct Hb2 as [?|Hc]; [done|].
    rewrite !andb_true_iff in Hok. destruct Hok as [[_ H2] _]. apply Z.eqb_eq in H2. rewrite H2.
    assert (0 <= q < 2 ^ MANTISSA_BFP_WIDTH f) by (apply Z.mod_pos_bound, Z.pow_pos_nonneg; lia).
    destruct (shift_up_ok f q ltac:(lia)) as (_ & _ & Hn). rewrite (u32_small e), !i32_small by (pow2; lia). lia.
Qed.
