(* ===== verification/TilePack.v ===== *)
(** * What the packing of tiles writes: lemmas *)

From Stdlib Require Import Lia.
From S2P Require Import Prelude BlockFloat BlockFloatProps WorkSplit Tiles TileLanes.

(** ** The data of a block *)

(** A number in the format. *)
Definition enc (f : DataFormat) (s x : Z) : Z :=
  if x mod 2 ^ 31 =? 0 then 0
  else (if rounded f x s =? 0 then 0 else float_sign x) * 2 ^ MANTISSA_BFP_WIDTH f + rounded f x s.

Lemma sign_range x : is_u32 x -> 0 <= float_sign x <= 1.
Proof.
  intros Hx. rewrite float_sign_div by done. unfold is_u32 in Hx.
  assert (0 <= x / 2 ^ 31 < 2); [|lia]. split; [apply Z.div_pos; lia|apply Z.div_lt_upper_bound; lia].
Qed.

Lemma convert_enc f x s :
  is_bfp f = true -> is_u32 x -> float_exp x <= s < 2 ^ 8 ->
  convert_u32_to_bfp f false x s false = Ok (enc f s x) /\ readable f s (enc f s x).
Proof.
  intros Hf Hx Hs. destruct (fields_range x) as [He _]. pose proof (sign_range x Hx) as Hsg. unfold enc, readable. set (w := MANTISSA_BFP_WIDTH f).
  assert (0 < 2 ^ w /\ 2 ^ (w + 1) = 2 * 2 ^ w) as [Hp Ew] by (split; [apply Z.pow_pos_nonneg|rewrite Z.add_1_r, Z.pow_succ_r]; by_width f).
  destruct (Z.eqb_spec (x mod 2 ^ 31) 0) as [E|E].
  - split; [|rewrite Z.mod_0_l by lia; split; [lia|by left]]. unfold convert_u32_to_bfp. rewrite Hf. cbn [check]. rewrite res_bind_ret, zero_test, E. done.
  - split; [by apply convert_ok|]. pose proof (rounded_range f x s ltac:(lia)) as Hq. fold w in Hq.
    set (sg := if rounded f x s =? 0 then 0 else float_sign x). assert (0 <= sg <= 1) by (subst sg; destruct (_ =? 0); lia). split; [nia|].
    replace ((sg * 2 ^ w + rounded f x s) mod 2 ^ w) with (rounded f x s) by (apply (Z.mod_unique _ _ sg); lia).
    destruct (Z.eq_dec (rounded f x s) 0) as [?|Hne]; [by left|right]. pose proof (rounded_leading f x s ltac:(lia) ltac:(lia)). lia.
Qed.

(** ** Exponents *)

Definition max_exp (l : list Z) : Z := foldl (fun max x => if max <? float_exp x then float_exp x else max) 0 l.

Lemma max_exp_from l m : 0 <= m < 2 ^ 8 ->
  let r := foldl (fun max x => if max <? float_exp x then float_exp x else max) m l in m <= r < 2 ^ 8 /\ forall x, x ∈ l -> float_exp x <= r.
Proof.
  revert m. induction l as [|x l IH]; intros m Hm; cbn [foldl]; [split; [lia|by intros x ?%elem_of_nil]|]. destruct (fields_range x) as [He _].
  destruct (Z.ltb_spec m (float_exp x)) as [H|H].
  - destruct (IH (float_exp x) He) as [H1 H2]. split; [lia|]. intros y [->|Hy]%elem_of_cons; [lia|by apply H2].
  - destruct (IH m Hm) as [H1 H2]. split; [lia|]. intros y [->|Hy]%elem_of_cons; [lia|by apply H2].
Qed.

Lemma max_exp_ok l : 0 <= max_exp l < 2 ^ 8 /\ forall x, x ∈ l -> float_exp x <= max_exp l.
Proof. by apply (max_exp_from l 0). Qed.

Lemma get_max_exp_ok l : length l = 16%nat -> get_max_exp l false = Ok (max_exp l).
Proof.
  intros Hl. unfold get_max_exp. rewrite Hl. cbn [check Z.of_nat]. rewrite (proj2 (Z.eqb_eq _ _) eq_refl). cbn [check]. rewrite res_bind_ret.
  unfold mret, res_ret, u8. f_equal. apply Z.mod_small, max_exp_ok.
Qed.

(** ** Lists in groups *)

Definition group {A} (n : nat) (l : list A) (g : nat) : list A := take n (drop (n * g) l).
Definition groups {A} (n : nat) (l : list A) : list (list A) := map (group n l) (seq 0 (length l / n)).

Lemma length_group {A} n (l : list A) g : (n * S g <= length l)%nat -> length (group n l g) = n.
Proof. intros H. unfold group. rewrite length_take, length_drop. lia. Qed.

Lemma lookup_group {A} n (l : list A) g i : (i < n)%nat -> group n l g !! i = l !! (n * g + i)%nat.
Proof. intros H. unfold group. by rewrite lookup_take_lt, lookup_drop by done. Qed.

Lemma group_forall {A} (P : A -> Prop) n l g : Forall P l -> Forall P (group n l g).
Proof. intros H. by apply Forall_take, Forall_drop. Qed.

Lemma length_groups {A} n (l : list A) : length (groups n l) = (length l / n)%nat.
Proof. unfold groups. by rewrite length_map, length_seq. Qed.

Lemma groups_app {A} n (l k : list A) : (0 < n)%nat -> (n | length l)%nat -> length k = n -> groups n (l ++ k) = groups n l ++ [k].
Proof.
  intros Hn [m Hm] Hk. unfold groups. rewrite length_app, Hk, Hm. replace (m * n + n)%nat with (S m * n)%nat by lia. rewrite !Nat.div_mul by lia.
  rewrite seq_S, map_app. cbn [map]. f_equal.
  - apply map_ext_in. intros g Hg%in_seq. unfold group. rewrite drop_app_le by nia. rewrite take_app_le by (rewrite length_drop; nia). done.
  - unfold group. rewrite drop_app_ge by lia. replace (n * (0 + m) - length l)%nat with 0%nat by lia. rewrite drop_0, take_ge by lia. done.
Qed.

Lemma groups_partial {A} n (l k : list A) : (0 < n)%nat -> (n | length l)%nat -> (length k < n)%nat -> groups n (l ++ k) = groups n l.
Proof.
  intros Hn [m Hm] Hk. unfold groups. rewrite length_app, Hm. rewrite (Nat.add_comm (m * n)), Nat.div_add, Nat.div_small, Nat.div_mul by lia. cbn [Nat.add].
  apply map_ext_in. intros g Hg%in_seq. unfold group. rewrite drop_app_le by nia. rewrite take_app_le by (rewrite length_drop; nia). done.
Qed.

(** The words of bytes, four each. *)
Definition exp_words (l : list Z) : list Z := map (word_of 8) (groups 4 l).

Lemma pack_exponents_ok l : (4 | length l)%nat -> digits 8 l -> pack_exponents l 4 = Ok (exp_words l).
Proof.
  intros [m Hm] Hd. unfold pack_exponents. rewrite Hm. replace (Z.of_nat (m * 4)) with (Z.of_nat m * 4) by lia.
  rewrite Z.mod_mul, Z.div_mul by lia. cbn [check Z.eqb]. rewrite res_bind_ret.
  destruct (fold_res_zrange (fun k r => r = map (word_of 8) (map (group 4 l) (seq 0 (Z.to_nat k)))) (fun k packed_result =>
    packed_value ← fold_res (fun j packed_value => e ← at_ l (k * 4 + j); mret (Z.lor packed_value (Z.shiftl (Z.land e 0xff) (8 * j)))) (zrange 0 4) 0;
    mret (packed_result ++ [packed_value])) 0 (Z.of_nat m) []) as (r & E & Hr); [lia|done| |].
  - intros k r Hk ->. eexists. split; [|reflexivity]. replace (Z.to_nat (k + 1)) with (S (Z.to_nat k)) by lia. rewrite seq_S, !map_app. cbn [map Nat.add].
    set (g := group 4 l (Z.to_nat k)). assert (length g = 4%nat) as Hg by (apply length_group; lia).
    assert (forall i : nat, (i < 4)%nat -> at_ l (k * 4 + Z.of_nat i) = opt_res Undefined (g !! i)) as Hat.
    { intros i Hi. unfold at_, g. rewrite lookup_group by done. do 2 f_equal. lia. }
    pose proof (get_exp_dword_ok g Hg ltac:(by apply group_forall)) as Ew. unfold get_exp_dword in Ew. rewrite Hg in Ew.
    change (check Assert (Z.of_nat 4 =? 4)) with (@Ok unit tt) in Ew. rewrite res_bind_ret in Ew.
    assert (fold_res (fun j packed_value => e ← at_ l (k * 4 + j); mret (Z.lor packed_value (Z.shiftl (Z.land e 0xff) (8 * j)))) (zrange 0 4) 0 = Ok (word_of 8 g)) as ->; [|done].
    rewrite <- Ew. change (zrange 0 4) with [0; 1; 2; 3]. cbn [fold_res].
    pose proof (Hat 0%nat ltac:(lia) : at_ l (k * 4 + 0) = _) as A0. pose proof (Hat 1%nat ltac:(lia) : at_ l (k * 4 + 1) = _) as A1.
    pose proof (Hat 2%nat ltac:(lia) : at_ l (k * 4 + 2) = _) as A2. pose proof (Hat 3%nat ltac:(lia) : at_ l (k * 4 + 3) = _) as A3.
    rewrite A0, A1, A2, A3. done.
  - rewrite E, Hr. f_equal. unfold exp_words, groups. rewrite Hm, Nat.div_mul, Nat2Z.id by lia. done.
Qed.

Lemma lookup_exp_words l q : (4 * S q <= length l)%nat -> exp_words l !! q = Some (word_of 8 (group 4 l q)).
Proof.
  intros H. unfold exp_words, groups. rewrite !list_lookup_fmap. rewrite lookup_seq_lt; [done|]. apply Nat.div_le_lower_bound; lia.
Qed.

(** What is left behind the last whole group. *)
Definition rest {A} (n : nat) (l : list A) : list A := drop (n * (length l / n)) l.

(** An element is added to the last group, which may be full then. *)
Lemma push_group {A} n (l : list A) x : (0 < n)%nat ->
  let buf := rest n l ++ [x] in
  length buf = n /\ groups n (l ++ [x]) = groups n l ++ [buf] /\ rest n (l ++ [x]) = [] \/
  (0 < length buf < n)%nat /\ groups n (l ++ [x]) = groups n l /\ rest n (l ++ [x]) = buf.
Proof.
  intros Hn buf. set (m := (length l / n)%nat). set (a := take (n * m) l).
  pose proof (Nat.div_mod (length l) n ltac:(lia)) as Hdm. pose proof (Nat.mod_upper_bound (length l) n ltac:(lia)) as Hlt. fold m in Hdm.
  assert (length a = (n * m)%nat) as Ha by (unfold a; rewrite length_take; lia).
  assert (l = a ++ rest n l) as El by (unfold a, rest; fold m; by rewrite take_drop).
  assert (length (rest n l) = length l mod n)%nat as Hr by (unfold rest; rewrite length_drop; fold m; lia).
  assert (length buf = S (length l mod n)) as Hb by (unfold buf; rewrite length_app, Hr; cbn; lia).
  assert (l ++ [x] = a ++ buf) as E by (unfold buf; rewrite app_assoc; congruence).
  assert (n | length a)%nat as Hda by (exists m; lia).
  assert (groups n l = groups n a) as Eg by (rewrite El at 1; apply groups_partial; [done|done|lia]).
  rewrite E, Eg. destruct (Nat.eq_dec (length buf) n) as [Hf|Hf].
  - left. split; [done|]. split; [by apply groups_app|]. unfold rest. rewrite length_app, Ha, Hf. replace (n * m + n)%nat with (S m * n)%nat by lia.
    rewrite Nat.div_mul by lia. apply drop_ge. rewrite length_app. lia.
  - right. split; [lia|]. split; [apply groups_partial; [done|done|lia]|]. unfold rest. rewrite length_app, Ha.
    replace (n * m + length buf)%nat with (length buf + m * n)%nat by lia. rewrite Nat.div_add, Nat.div_small by lia. cbn [Nat.add].
    rewrite <- Ha. apply drop_app_length.
Qed.

Lemma groups_nil {A} n : groups n (@nil A) = [].
Proof. unfold groups. cbn [length]. by rewrite Nat.Div0.div_0_l. Qed.

Lemma rest_full {A} n (l : list A) : (0 < n)%nat -> (n | length l)%nat -> rest n l = [].
Proof. intros Hn [m Hm]. unfold rest. rewrite Hm, Nat.div_mul by lia. apply drop_ge. lia. Qed.

(** ** One row *)

(** The words of a row. *)
Definition row_words (f : DataFormat) (row : list Z) : list Z :=
  map (fun g => word_of (32 / nums_in_dword f) (map (enc f (max_exp row)) g)) (groups (Z.to_nat (nums_in_dword f)) row).

Definition with_data (d w : list Z) (p : Packer) : Packer :=
  mkPacker (packed_result p) (exponents p) d (packed_data p ++ w) (exponents_with_padding p) (fp32_element_index p).

Lemma push_data_ok f s row p :
  short f = true -> 0 <= s < 2 ^ 8 -> (forall x, x ∈ row -> is_u32 x /\ float_exp x <= s) -> data p = [] ->
  (Z.to_nat (nums_in_dword f) | length row)%nat ->
  fold_res (push_datum f false s) row p =
    Ok (with_data [] (map (fun g => word_of (32 / nums_in_dword f) (map (enc f s) g)) (groups (Z.to_nat (nums_in_dword f)) row)) p).
Proof.
  intros Hf Hs Hrow Hd Hdiv. destruct (short_facts f Hf) as (Hbf & _ & Hk). set (n := Z.to_nat (nums_in_dword f)) in *.
  assert (0 < n)%nat as Hn by (unfold n, nums_in_dword; destruct (is_bfp2 f), (is_bfp4 f); cbn; lia).
  assert (Z.of_nat n = nums_in_dword f) as En by (unfold n, nums_in_dword; destruct (is_bfp2 f), (is_bfp4 f); done).
  set (word := fun g => word_of (32 / nums_in_dword f) (map (enc f s) g)).
  destruct (fold_res_lookup (fun m q => q = with_data (rest n (take m row)) (map word (groups n (take m row))) p) (push_datum f false s) row p)
    as (q & E & Hq).
  - rewrite take_0, groups_nil. unfold rest. rewrite drop_nil. unfold with_data. cbn [map]. rewrite app_nil_r, <- Hd. by destruct p.
  - intros m x q Hx ->. rewrite (take_S_r _ _ _ Hx). eexists. split; [|reflexivity]. unfold push_datum. cbn [data with_data].
    destruct (push_group n (take m row) x Hn) as [(Hl & Eg & Er)|(Hl & Eg & Er)]; rewrite Eg, Er.
    + rewrite Hl, En, Z.mod_same by lia. cbn [Z.eqb].
      rewrite (create_packed_ok f s false _ (map (enc f s) (rest n (take m row) ++ [x])) Hbf ltac:(by rewrite Hl)).
      * rewrite res_bind_ret. unfold with_data. cbn [packed_result exponents data packed_data exponents_with_padding fp32_element_index]. rewrite (map_app word), <- app_assoc. done.
      * rewrite Hk. apply Forall2_fmap_r, Forall_Forall2_diag, Forall_forall. intros y Hy. destruct (Hrow y) as [H1 H2].
        { apply elem_of_app in Hy as [Hy|Hy%list_elem_of_singleton]; [|subst y; by eapply list_elem_of_lookup_2].
          unfold rest in Hy. apply list_elem_of_lookup_1 in Hy as [j Hj]. rewrite lookup_drop in Hj. apply lookup_take_Some in Hj as [Hj _].
          by eapply list_elem_of_lookup_2. }
        destruct (convert_enc f y s Hbf H1 ltac:(lia)) as [? [? _]]. done.
    + rewrite Z.mod_small by lia. rewrite (proj2 (Z.eqb_neq _ _)) by lia. done.
  - rewrite E, Hq. rewrite take_ge by done. by rewrite rest_full.
Qed.

Lemma round_up_16 a : 0 <= a <= 64 -> round_up a 16 = Ok (16 * ((a + 15) / 16)).
Proof.
  intros Ha. assert (forallb (fun a => bool_decide (round_up a 16 = Ok (16 * ((a + 15) / 16)))) (zrange 0 65) = true) as H by (vm_compute; reflexivity).
  rewrite forallb_forall in H. specialize (H a). apply bool_decide_eq_true in H; [done|]. apply list_elem_of_In, elem_of_zrange. lia.
Qed.

(** ** Rows of a tile *)

Definition valid_shapes : list shapes := map (fun c => mkShapes c.1.1 c.1.2 c.2.1 c.2.2) TILE_FACE_HW_CHOICES.

(** The rows in the order of the loops: the face's row and column, and the row in it. *)
Definition places (sh : shapes) : list (Z * Z * Z) :=
  flat_map (fun tr => flat_map (fun tc => map (fun i => (tr, tc, i)) (zrange 0 (face_H sh))) (zrange 0 (tile_W sh / face_W sh)))
    (zrange 0 (tile_H sh / face_H sh)).

(** The rows of sixteen of a tile, and the place of one in the row-major tile. *)
Definition rows (sh : shapes) : nat := Z.to_nat (tile_H sh * tile_W sh / 16).
Definition row_block (sh : shapes) (p : Z * Z * Z) : nat := Z.to_nat ((p.1.1 * face_H sh + p.2) * (tile_W sh / 16) + p.1.2).

Definition place_ok (sh : shapes) (k : nat) : bool :=
  match places sh !! k with
  | None => false
  | Some (tr, tc, i) =>
      let b := Z.of_nat (row_block sh (tr, tc, i)) in
      let data n := tr * ((tile_W sh / face_W sh) * face_HW sh / n) + tc * (face_HW sh / n) + i * (face_W sh / n) in
      (0 <=? tr) && (0 <=? tc) && (0 <=? tr * face_H sh + i) && (tr * face_H sh + i <? 32) && (tc * 16 <? 32) &&
      ((tr * face_H sh + i) * tile_W sh + tc * 16 =? 16 * b) && (b <? Z.of_nat (rows sh)) &&
      (data 4 =? 4 * Z.of_nat k) && (data 8 =? 2 * Z.of_nat k)
  end.

Definition shape_ok (sh : shapes) : bool :=
  bool_decide (length (places sh) = rows sh) && (face_W sh =? 16) && (tile_H sh * tile_W sh =? 16 * Z.of_nat (rows sh)) &&
  bool_decide (0 < rows sh <= 64)%nat &&
  (bool_decide (rows sh < 16)%nat || bool_decide (rows sh mod 16 = 0)%nat) && bool_decide (rows sh = 1 \/ rows sh = 2 \/ rows sh mod 4 = 0)%nat &&
  (face_H sh * (tile_W sh / face_W sh) * (tile_H sh / face_H sh) =? Z.of_nat (rows sh)) &&
  ((tile_H sh / face_H sh) * (tile_W sh / face_W sh) * face_H sh * face_W sh =? 16 * Z.of_nat (rows sh)) &&
  (tile_HW sh / face_HW sh * face_H sh =? Z.of_nat (rows sh)) &&
  forallb (place_ok sh) (seq 0 (rows sh)) && bool_decide (NoDup (map (row_block sh) (places sh))) &&
  forallb (fun b => bool_decide (b ∈ map (row_block sh) (places sh))) (seq 0 (rows sh)).

Lemma shapes_ok sh : sh ∈ valid_shapes -> shape_ok sh = true.
Proof.
  intros H. assert (forallb shape_ok valid_shapes = true) as E by (vm_compute; reflexivity). rewrite forallb_forall in E.
  apply E, list_elem_of_In, H.
Qed.

Record shape_facts (sh : shapes) : Prop := mkFacts {
  sf_places : length (places sh) = rows sh;
  sf_face : face_W sh = 16;
  sf_hw : tile_H sh * tile_W sh = 16 * Z.of_nat (rows sh);
  sf_rows : (0 < rows sh <= 64)%nat;
  sf_group : (rows sh < 16 \/ rows sh mod 16 = 0)%nat;
  sf_mask : (rows sh = 1 \/ rows sh = 2 \/ rows sh mod 4 = 0)%nat;
  sf_padding : face_H sh * (tile_W sh / face_W sh) * (tile_H sh / face_H sh) = Z.of_nat (rows sh);
  sf_floats : (tile_H sh / face_H sh) * (tile_W sh / face_W sh) * face_H sh * face_W sh = 16 * Z.of_nat (rows sh);
  sf_exps : tile_HW sh / face_HW sh * face_H sh = Z.of_nat (rows sh);
  sf_place : forall k, (k < rows sh)%nat -> place_ok sh k = true;
  sf_distinct : NoDup (map (row_block sh) (places sh));
  sf_all : forall b, (b < rows sh)%nat -> b ∈ map (row_block sh) (places sh);
}.

Lemma shape_facts_of sh : sh ∈ valid_shapes -> shape_facts sh.
Proof.
  intros H%shapes_ok. unfold shape_ok in H. rewrite !andb_true_iff, orb_true_iff in H.
  destruct H as [[[[[[[[[[[H1 H2] H3] H4] H5] H6] H7] H8] H9] H10] H11] H12].
  constructor; try by apply Z.eqb_eq; try by apply bool_decide_eq_true in H1.
  - by apply bool_decide_eq_true in H1.
  - by apply bool_decide_eq_true in H4.
  - destruct H5 as [H5|H5]; apply bool_decide_eq_true in H5; auto.
  - by apply bool_decide_eq_true in H6.
  - rewrite forallb_forall in H10. intros k Hk. apply H10, in_seq. lia.
  - by apply bool_decide_eq_true in H11.
  - rewrite forallb_forall in H12. intros b Hb. eapply bool_decide_eq_true, H12, in_seq. lia.
Qed.

Record place_facts (sh : shapes) (k : nat) (tr tc i : Z) : Prop := mkPlace {
  pf_lookup : places sh !! k = Some (tr, tc, i);
  pf_range : 0 <= tr /\ 0 <= tc /\ 0 <= tr * face_H sh + i /\ tr * face_H sh + i < 32 /\ tc * 16 < 32;
  pf_block : (tr * face_H sh + i) * tile_W sh + tc * 16 = 16 * Z.of_nat (row_block sh (tr, tc, i));
  pf_inside : (row_block sh (tr, tc, i) < rows sh)%nat;
  pf_data4 : tr * ((tile_W sh / face_W sh) * face_HW sh / 4) + tc * (face_HW sh / 4) + i * (face_W sh / 4) = 4 * Z.of_nat k;
  pf_data8 : tr * ((tile_W sh / face_W sh) * face_HW sh / 8) + tc * (face_HW sh / 8) + i * (face_W sh / 8) = 2 * Z.of_nat k;
}.

Lemma place_facts_of sh k tr tc i : shape_facts sh -> places sh !! k = Some (tr, tc, i) -> place_facts sh k tr tc i.
Proof.
  intros Hsh Hk. pose proof (lookup_lt_Some _ _ _ Hk) as Hlt. rewrite (sf_places _ Hsh) in Hlt. pose proof (sf_place _ Hsh k Hlt) as H.
  unfold place_ok in H. rewrite Hk in H. rewrite !andb_true_iff in H. destruct H as [[[[[[[[H1 H2] H3] H4] H5] H6] H7] H8] H9].
  apply Z.leb_le in H1, H2, H3. apply Z.ltb_lt in H4, H5, H7. apply Z.eqb_eq in H6, H8, H9. constructor; try done; lia.
Qed.

(** The sixteen numbers that share an exponent: row [k] of the tile [ti]. *)
Definition block_of (sh : shapes) (row_major : bool) (ti k : nat) : nat :=
  (ti * rows sh + if row_major then match places sh !! k with Some p => row_block sh p | None => 0 end else k)%nat.

Section Packing.
Context (f : DataFormat) (v : list Z) (row_major : bool) (sh : shapes).
Hypotheses (Hf : short f = true) (Hsh : shape_facts sh) (Hv : Forall is_u32 v) (Hlen : Z.of_nat (length v) < 2 ^ 30).

Definition row (ti k : nat) : list Z := group 16 v (block_of sh row_major ti k).

Definition tile_fits (ti : nat) : Prop := (16 * rows sh * S ti <= length v)%nat.

Lemma block_inside ti k : (k < rows sh)%nat -> (ti * rows sh <= block_of sh row_major ti k < S ti * rows sh)%nat.
Proof.
  intros Hk. unfold block_of. destruct row_major; [|lia].
  destruct (lookup_lt_is_Some_2 (places sh) k ltac:(rewrite (sf_places _ Hsh); done)) as [[[tr tc] i] Hp]. rewrite Hp.
  pose proof (pf_inside _ _ _ _ _ (place_facts_of sh k tr tc i Hsh Hp)). lia.
Qed.

Lemma length_row ti k : tile_fits ti -> (k < rows sh)%nat -> length (row ti k) = 16%nat.
Proof. intros Ht Hk. apply length_group. pose proof (block_inside ti k Hk). unfold tile_fits in Ht. nia. Qed.

Definition index_of (ti k : nat) : Z := if row_major then 0 else 16 * Z.of_nat (ti * rows sh + k).

Lemma pack_elements_ok ti k tr tc i :
  tile_fits ti -> places sh !! k = Some (tr, tc, i) ->
  fold_res (pack_element v row_major sh (Z.of_nat ti) tr tc i) (zrange 0 (face_W sh)) (index_of ti k, []) = Ok (index_of ti (S k), row ti k).
Proof.
  intros Ht Hp. pose proof (place_facts_of sh k tr tc i Hsh Hp) as Hpl. pose proof (lookup_lt_Some _ _ _ Hp) as Hk. rewrite (sf_places _ Hsh) in Hk.
  pose proof (block_inside ti k Hk) as Hb. unfold tile_fits in Ht. rewrite (sf_face _ Hsh).
  destruct (fold_res_zrange (fun j st => st = (if row_major then 0 else 16 * Z.of_nat (ti * rows sh + k) + j, take (Z.to_nat j) (row ti k)))
    (pack_element v row_major sh (Z.of_nat ti) tr tc i) 0 16 (index_of ti k, [])) as (st & E & Hst); [lia|unfold index_of; destruct row_major; do 2 f_equal; lia| |].
  - intros j st Hj ->. eexists. split; [|reflexivity]. unfold pack_element.
    assert (exists x, row ti k !! Z.to_nat j = Some x /\ v !! (16 * block_of sh row_major ti k + Z.to_nat j)%nat = Some x) as (x & Hx & Hvx).
    { destruct (lookup_lt_is_Some_2 (row ti k) (Z.to_nat j)) as [x Hx]; [rewrite length_row by done; lia|]. exists x. split; [done|].
      rewrite <- Hx. unfold row. rewrite lookup_group by lia. done. }
    replace (Z.to_nat (j + 1)) with (S (Z.to_nat j)) by lia. rewrite (take_S_r _ _ _ Hx).
    assert (forall d, d = 16 * Z.of_nat (block_of sh row_major ti k) + j -> vec_at v d = Ok x) as Hat.
    { intros d ->. unfold vec_at. rewrite (proj2 (Z.ltb_ge _ _)) by lia. replace (Z.to_nat _) with (16 * block_of sh row_major ti k + Z.to_nat j)%nat by lia. by rewrite Hvx. }
    unfold block_of in Hat, Hb. destruct row_major.
    + rewrite Hp in Hat, Hb. rewrite (i32_small (tile_H sh * tile_W sh)) by (rewrite (sf_hw _ Hsh); pose proof (sf_rows _ Hsh); pow2; lia).
      rewrite Hat; [done|]. rewrite (sf_hw _ Hsh). pose proof (pf_block _ _ _ _ _ Hpl). rewrite (sf_face _ Hsh).
      rewrite i32_small; [lia|]. pow2. lia.
    + rewrite Hat by lia. rewrite (i32_small (_ + 1)) by (pow2; lia). cbn [mbind res_bind mret res_ret]. do 2 f_equal. lia.
  - rewrite E, Hst. rewrite take_ge by (rewrite length_row by done; lia). unfold index_of. destruct row_major; do 2 f_equal. lia.
Qed.
(** ** Tiles *)

Definition pad : bool := Z.of_nat (rows sh) <? 16.
Definition exps (ti k : nat) : list Z := map (fun k => max_exp (row ti k)) (seq 0 k).

(** The state between rows; [pre] has been written before this tile. *)
Definition packing (pre : list Z) (ti k : nat) (p : Packer) : Prop :=
  data p = [] /\ packed_data p = flat_map (fun k => row_words f (row ti k)) (seq 0 k) /\ fp32_element_index p = index_of ti k /\
  if pad then exponents p = [] /\ packed_result p = pre /\ exponents_with_padding p = exps ti k
  else exponents_with_padding p = [] /\ packed_result p = pre ++ exp_words (exps ti k) /\ exponents p = rest 4 (exps ti k).

Lemma exps_digits ti k : digits 8 (exps ti k).
Proof. apply Forall_fmap, Forall_forall. intros j _. apply max_exp_ok. Qed.

Lemma row_elements ti k x : x ∈ row ti k -> is_u32 x /\ float_exp x <= max_exp (row ti k).
Proof.
  intros Hx. split; [|by apply max_exp_ok]. assert (Forall is_u32 (row ti k)) as H by (by apply group_forall).
  rewrite Forall_forall in H. by apply H.
Qed.

Lemma nums_divide : (Z.to_nat (nums_in_dword f) | 16)%nat.
Proof. destruct f; cbn; try done; [by exists 4%nat|by exists 2%nat|by exists 4%nat|by exists 2%nat]. Qed.

Lemma push_exponent_ok e l p :
  digits 8 (l ++ [e]) ->
  (if pad then exponents_with_padding p = l else exponents p = rest 4 l) ->
  push_exponent pad e p = Ok (mkPacker
    (if pad then packed_result p else packed_result p ++ drop (length (exp_words l)) (exp_words (l ++ [e])))
    (if pad then exponents p else rest 4 (l ++ [e])) (data p) (packed_data p)
    (if pad then l ++ [e] else exponents_with_padding p) (fp32_element_index p)).
Proof.
  intros Hd Hp. unfold push_exponent. destruct pad; [by rewrite Hp|]. rewrite Hp. unfold exp_words. rewrite length_map.
  destruct (push_group 4 l e ltac:(lia)) as [(Hl & Eg & Er)|(Hl & Eg & Er)]; rewrite Eg, Er.
  - rewrite Hl. rewrite get_exp_dword_ok; [|done|].
    + cbn [mbind res_bind mret res_ret Z.of_nat]. rewrite map_app, <- (length_map (word_of 8)), drop_app_length. done.
    + apply Forall_app in Hd as [H1 H2]. apply Forall_app. split; [by apply Forall_drop|done].
  - rewrite Z.mod_small by lia. rewrite (proj2 (Z.eqb_neq _ _)) by lia. rewrite <- (length_map (word_of 8)), drop_all, app_nil_r. done.
Qed.

Lemma exp_words_snoc l e : exp_words l ++ drop (length (exp_words l)) (exp_words (l ++ [e])) = exp_words (l ++ [e]).
Proof.
  unfold exp_words. destruct (push_group 4 l e ltac:(lia)) as [(_ & -> & _)|(_ & -> & _)].
  - by rewrite map_app, drop_app_length.
  - by rewrite drop_all, app_nil_r.
Qed.

Lemma pack_row_ok pre ti k tr tc i p :
  tile_fits ti -> places sh !! k = Some (tr, tc, i) -> packing pre ti k p ->
  exists p', pack_row f v row_major false sh pad (Z.of_nat ti) tr tc i p = Ok p' /\ packing pre ti (S k) p'.
Proof.
  intros Ht Hp (Hd & Hpd & Hi & Hx). pose proof (lookup_lt_Some _ _ _ Hp) as Hk. rewrite (sf_places _ Hsh) in Hk.
  pose proof (length_row ti k Ht Hk) as Hl. unfold pack_row. rewrite Hi, (pack_elements_ok ti k tr tc i Ht Hp), res_bind_ret.
  cbv beta iota. rewrite get_max_exp_ok by done. rewrite res_bind_ret. set (e := max_exp (row ti k)).
  assert (exps ti (S k) = exps ti k ++ [e]) as Ee by (unfold exps; rewrite seq_S, map_app; done).
  rewrite (push_exponent_ok e (exps ti k)); [|rewrite <- Ee; apply exps_digits|by destruct pad; cbn; tauto]. rewrite res_bind_ret.
  rewrite push_data_ok; [|done|apply max_exp_ok|apply row_elements|done|rewrite Hl; apply nums_divide]. eexists. split; [reflexivity|].
  unfold packing, with_data. cbn [packed_result exponents data packed_data exponents_with_padding fp32_element_index set_element_index].
  split_and!; [done| |done|].
  - rewrite Hpd, seq_S, flat_map_app. cbn [flat_map Nat.add]. by rewrite app_nil_r.
  - rewrite <- Ee. destruct pad; [tauto|]. destruct Hx as (H1 & H2 & H3). split_and!; [done| |done]. rewrite H2, <- app_assoc. rewrite Ee. by rewrite exp_words_snoc.
Qed.

Definition exp_section (ti : nat) : list Z := exps ti (rows sh) ++ replicate (16 - rows sh) 0.
Definition tile_words (ti : nat) : list Z := exp_words (exp_section ti) ++ flat_map (fun k => row_words f (row ti k)) (seq 0 (rows sh)).

Lemma exp_section_ok ti : (4 | length (exp_section ti))%nat /\ digits 8 (exp_section ti).
Proof.
  unfold exp_section. split.
  - rewrite length_app, length_replicate. unfold exps. rewrite length_map, length_seq.
    destruct (sf_group _ Hsh) as [H|H]; [exists 4%nat; lia|]. apply Nat.Lcm0.mod_divide in H as [m Hm]. destruct (decide (rows sh < 16)%nat); [exists 4%nat; lia|exists (4 * m)%nat; lia].
  - apply Forall_app. split; [apply exps_digits|]. apply Forall_replicate. lia.
Qed.

(** The nested loops over the rows. *)
Lemma rows_loop {B} (g : Z -> Z -> Z -> B -> res B) p :
  fold_res (fun tr => fold_res (fun tc => fold_res (g tr tc) (zrange 0 (face_H sh))) (zrange 0 (tile_W sh / face_W sh))) (zrange 0 (tile_H sh / face_H sh)) p =
  fold_res (fun '(tr, tc, i) => g tr tc i) (places sh) p.
Proof.
  unfold places. rewrite fold_res_flat_map. apply fold_res_ext. intros tr q. rewrite fold_res_flat_map. apply fold_res_ext. intros tc q'.
  by rewrite fold_res_map.
Qed.

Lemma pack_tile_ok ti p :
  tile_fits ti -> data p = [] -> exponents p = [] -> fp32_element_index p = index_of ti 0 ->
  exists p', pack_tile 16 f v row_major false sh pad (Z.of_nat ti) p = Ok p' /\
    packed_result p' = packed_result p ++ tile_words ti /\ data p' = [] /\ exponents p' = [] /\ fp32_element_index p' = index_of (S ti) 0.
Proof.
  intros Ht Hd He Hi. unfold pack_tile. rewrite (rows_loop (fun tr tc i => pack_row f v row_major false sh pad (Z.of_nat ti) tr tc i)).
  set (p0 := mkPacker _ _ _ [] [] _). assert (packing (packed_result p) ti 0 p0) as H0.
  { unfold packing, p0. cbn [data packed_data fp32_element_index exponents packed_result exponents_with_padding]. split_and!; try done.
    destruct pad; [done|]. change (exp_words (exps ti 0)) with (@nil Z). change (rest 4 (exps ti 0)) with (@nil Z). by rewrite app_nil_r. }
  destruct (fold_res_lookup (packing (packed_result p) ti) (fun '(tr, tc, i) => pack_row f v row_major false sh pad (Z.of_nat ti) tr tc i) (places sh) p0 H0)
    as (p1 & E & H1); [intros k [[tr tc] i] q Hk Hq; by apply pack_row_ok|]. rewrite E, res_bind_ret. rewrite (sf_places _ Hsh) in H1.
  destruct H1 as (D1 & D2 & D3 & D4). destruct (exp_section_ok ti) as [Hdiv Hdig].
  assert (index_of ti (rows sh) = index_of (S ti) 0) as Ei by (unfold index_of; destruct row_major; lia).
  assert (length (exps ti (rows sh)) = rows sh) as Hle by (unfold exps; by rewrite length_map, length_seq). pose proof (sf_rows _ Hsh) as Hr.
  destruct pad eqn:Epad; unfold pad in Epad.
  - apply Z.ltb_lt in Epad. destruct D4 as (D4 & D5 & D6). rewrite D6, Hle. rewrite (u32_small (Z.of_nat (rows sh))) by (pow2; lia).
    assert (round_up (Z.of_nat (rows sh)) 16 = Ok 16) as ->.
    { rewrite round_up_16 by lia. f_equal. enough ((Z.of_nat (rows sh) + 15) / 16 = 1) by lia. symmetry. apply (Z.div_unique _ _ _ (Z.of_nat (rows sh) - 1)); lia. }
    rewrite res_bind_ret. replace (Z.to_nat (16 - Z.of_nat (rows sh))) with (16 - rows sh)%nat by lia.
    fold (exp_section ti). rewrite pack_exponents_ok by done. rewrite res_bind_ret. eexists. split; [reflexivity|]. cbn. rewrite D5, D2, D3. split_and!; done.
  - apply Z.ltb_ge in Epad. destruct D4 as (D4 & D5 & D6). rewrite res_bind_ret. eexists. split; [reflexivity|]. cbn. rewrite D5, D2, D3, D6.
    assert (exp_section ti = exps ti (rows sh)) as Es by (unfold exp_section; replace (16 - rows sh)%nat with 0%nat by lia; apply app_nil_r).
    unfold tile_words. rewrite Es in *. split_and!; [by rewrite <- app_assoc|done| |done]. by apply rest_full; [lia|].
Qed.
End Packing.
