(* ===== verification/TileRoundtrip.v ===== *)
(** * Tiles packed and read back: lemmas

    What the packer writes for all tiles, where the unpackers look for a row in it, and
    what they store. *)

From Stdlib Require Import Lia.
From S2P Require Import Prelude BlockFloat BlockFloatProps WorkSplit Tiles TileLanes TilePack.
Import Simd.

(** ** Tiles *)

(** The optional tile has been built by its constructor. *)
Definition tile_valid (tile : option Tile) : Prop :=
  match tile with Some t => exists shape transpose_tile, Tile_new shape transpose_tile = Ok t | None => True end.

Lemma Tile_new_ok shape b t : Tile_new shape b = Ok t -> exists c, c ∈ TILE_FACE_HW_CHOICES /\
  t = mkTile c.1 c.2 (u32 (c.1.1 * c.1.2)) (u32 (c.2.1 * c.2.2)) (u32 (c.1.1 * c.1.2) / u32 (c.2.1 * c.2.2)) (Z.b2z (c.1.1 <? 32)) (Z.b2z (c.1.2 <? 32)) b b.
Proof.
  unfold Tile_new. destruct (find _ _) as [c|] eqn:E; [|done]. apply find_some in E as [Hc E]. apply bool_decide_eq_true in E. subst shape.
  destruct (negb b || _ || _); cbn [check mbind res_bind]; [|done]. intros [= <-]. exists c. split; [by apply list_elem_of_In|done].
Qed.

(** The words of the exponents and the words of a row. *)
Definition exp_room (sh : shapes) : nat := (if pad sh then 4 else rows sh / 4)%nat.
Definition row_room (f : DataFormat) : nat := Z.to_nat (16 / nums_in_dword f).
Definition tile_room (f : DataFormat) (sh : shapes) : nat := (exp_room sh + row_room f * rows sh)%nat.

Definition choice_sh (c : (Z * Z) * (Z * Z)) : shapes := mkShapes c.1.1 c.1.2 c.2.1 c.2.2.

Lemma choice_size f c b : c ∈ TILE_FACE_HW_CHOICES -> short f = true ->
  get_tile_size 16 (mkTile c.1 c.2 (u32 (c.1.1 * c.1.2)) (u32 (c.2.1 * c.2.2)) (u32 (c.1.1 * c.1.2) / u32 (c.2.1 * c.2.2)) (Z.b2z (c.1.1 <? 32)) (Z.b2z (c.1.2 <? 32)) b b) f =
    Ok (4 * Z.of_nat (tile_room f (choice_sh c))).
Proof.
  intros Hc Hf. unfold TILE_FACE_HW_CHOICES in Hc. repeat (apply elem_of_cons in Hc as [->|Hc]; [destruct f; try discriminate Hf; vm_compute; reflexivity|]).
  by apply elem_of_nil in Hc.
Qed.

Lemma tile_valid_ok f tile : tile_valid tile -> short f = true ->
  shapes_of tile ∈ valid_shapes /\
  match tile with Some t => get_tile_size 16 t f | None => tile_size f end = Ok (4 * Z.of_nat (tile_room f (shapes_of tile))).
Proof.
  destruct tile as [t|]; intros Ht Hf.
  - destruct Ht as (shape & b & (c & Hc & ->)%Tile_new_ok). split.
    + unfold valid_shapes. apply elem_of_map. exists c. split; [done|]. exact Hc.
    + by apply choice_size.
  - split; [|destruct f; try discriminate Hf; vm_compute; reflexivity]. unfold valid_shapes. apply elem_of_map. exists ((32, 32), (16, 16)). split; [done|]. left.
Qed.

(** ** All tiles are packed *)

Section AllTiles.
Context (f : DataFormat) (v : list Z) (row_major : bool) (sh : shapes) (nt : nat).
Hypotheses (Hf : short f = true) (Hsh : shape_facts sh) (Hv : Forall is_u32 v) (Hlen : length v = (16 * rows sh * nt)%nat) (Hmax : Z.of_nat (length v) < 2 ^ 30).

Definition packed_words : list Z := flat_map (tile_words f v row_major sh) (seq 0 nt).

Lemma fits ti : (ti < nt)%nat -> tile_fits v sh ti.
Proof using Hlen. unfold tile_fits. rewrite Hlen. nia. Qed.

Lemma pack_tiles_ok tile : shapes_of tile = sh -> pack_fp32_vec_as_bfp_tiles 16 f v row_major false tile = Ok packed_words.
Proof using All.
  intros Es. pose proof (sf_rows _ Hsh) as Hr. unfold pack_fp32_vec_as_bfp_tiles. destruct (short_facts f Hf) as (Hbf & _ & _). rewrite Hbf, Es.
  cbn [check]. rewrite res_bind_ret. rewrite (sf_hw _ Hsh), (sf_padding _ Hsh), (u32_small (Z.of_nat (rows sh))) by (pow2; lia). fold (pad sh).
  rewrite i32_small by (pow2; lia). rewrite Hlen. replace (Z.of_nat (16 * rows sh * nt)) with (Z.of_nat nt * (16 * Z.of_nat (rows sh))) by lia.
  rewrite Z.mod_mul, Z.div_mul by lia. cbn [check Z.eqb]. rewrite res_bind_ret. rewrite u32_small by (pow2; nia).
  destruct (fold_res_zrange (fun m p => data p = [] /\ exponents p = [] /\ fp32_element_index p = index_of row_major sh (Z.to_nat m) 0 /\
      packed_result p = flat_map (tile_words f v row_major sh) (seq 0 (Z.to_nat m)))
    (pack_tile 16 f v row_major false sh (pad sh)) 0 (Z.of_nat nt) (mkPacker [] [] [] [] [] 0)) as (p & E & Hp).
  - lia.
  - split_and!; try done. unfold index_of. by destruct row_major.
  - intros m p Hm (H1 & H2 & H3 & H4). destruct (pack_tile_ok f v row_major sh Hf Hsh Hv Hmax (Z.to_nat m) p) as (p' & E & H5 & H6 & H7 & H8); try done; [apply fits; lia|].
    rewrite Z2Nat.id in E by lia. exists p'. rewrite E. replace (Z.to_nat (m + 1)) with (S (Z.to_nat m)) by lia. split_and!; try done.
    rewrite H5, H4, seq_S, flat_map_app. cbn [flat_map Nat.add]. by rewrite app_nil_r.
  - rewrite E, res_bind_ret. destruct Hp as (_ & _ & _ & ->). by rewrite Nat2Z.id.
Qed.

(** *** Where the words of a row are *)

Lemma length_row_words ti k : (ti < nt)%nat -> (k < rows sh)%nat -> length (row_words f (row v row_major sh ti k)) = row_room f.
Proof using Hf Hsh Hlen Hmax Hv.
  intros Ht Hk. unfold row_words. rewrite length_map, length_groups, (length_row v row_major sh Hsh) by (done || by apply fits). by destruct f.
Qed.

Lemma length_exp_section ti : length (exp_section v row_major sh ti) = (4 * exp_room sh)%nat.
Proof using Hsh Hlen.
  unfold exp_section, exps, exp_room, pad. rewrite length_app, length_map, length_seq, length_replicate. pose proof (sf_group _ Hsh) as H.
  destruct (Z.ltb_spec (Z.of_nat (rows sh)) 16); [lia|]. destruct H as [?|[m Hm]%Nat.Lcm0.mod_divide]; [lia|]. rewrite Hm. replace (m * 16)%nat with (4 * m * 4)%nat by lia.
  rewrite Nat.div_mul by lia. lia.
Qed.

Lemma length_exp_words ti : length (exp_words (exp_section v row_major sh ti)) = exp_room sh.
Proof using Hsh Hlen. unfold exp_words. rewrite length_map, length_groups, length_exp_section. by rewrite Nat.mul_comm, Nat.div_mul by lia. Qed.

Lemma length_tile_words ti : (ti < nt)%nat -> length (tile_words f v row_major sh ti) = tile_room f sh.
Proof using Hf Hsh Hlen Hmax Hv.
  intros Ht. unfold tile_words, tile_room. rewrite length_app, length_exp_words. f_equal.
  rewrite (length_flat_map_const _ (row_room f) _), length_seq; [lia|]. intros k Hk%list_elem_of_In%in_seq. apply length_row_words; lia.
Qed.

Lemma tile_word ti y : (ti < nt)%nat -> (y < tile_room f sh)%nat -> packed_words !! (ti * tile_room f sh + y)%nat = tile_words f v row_major sh ti !! y.
Proof using Hf Hsh Hlen Hmax Hv.
  intros Ht Hy. unfold packed_words. apply lookup_flat_map_const; [|by rewrite lookup_seq_lt|done].
  intros a Ha%list_elem_of_In%in_seq. apply length_tile_words. lia.
Qed.

Lemma length_packed : length packed_words = (nt * tile_room f sh)%nat.
Proof using Hf Hsh Hlen Hmax Hv.
  unfold packed_words. rewrite (length_flat_map_const _ (tile_room f sh) _), length_seq; [done|]. intros k Hk%list_elem_of_In%in_seq. apply length_tile_words; lia.
Qed.

Lemma data_word ti k m : (ti < nt)%nat -> (k < rows sh)%nat -> (m < row_room f)%nat ->
  packed_words !! (ti * tile_room f sh + (exp_room sh + (k * row_room f + m)))%nat =
    Some (word_of (32 / nums_in_dword f) (map (enc f (max_exp (row v row_major sh ti k))) (group (Z.to_nat (nums_in_dword f)) (row v row_major sh ti k) m))).
Proof using Hf Hsh Hlen Hmax Hv.
  intros Ht Hk Hm. rewrite tile_word by (unfold tile_room; done || nia). unfold tile_words. rewrite lookup_app_r by (rewrite length_exp_words; lia).
  rewrite length_exp_words. replace (_ + _ - exp_room sh)%nat with (k * row_room f + m)%nat by lia.
  rewrite (lookup_flat_map_const _ _ (row_room f) k k m); [|intros a Ha%list_elem_of_In%in_seq; apply length_row_words; lia|by rewrite lookup_seq_lt|done].
  unfold row_words, groups. rewrite !list_lookup_fmap. rewrite lookup_seq_lt; [done|]. rewrite (length_row v row_major sh Hsh) by (done || by apply fits).
  clear -Hm Hf. by destruct f.
Qed.

Lemma exp_word ti k : (ti < nt)%nat -> (k < rows sh)%nat ->
  exists w, packed_words !! (ti * tile_room f sh + k / 4)%nat = Some w /\ get_byte w (Z.of_nat (k mod 4)) = Ok (max_exp (row v row_major sh ti k)).
Proof using Hf Hsh Hlen Hmax Hv.
  intros Ht Hk. pose proof (length_exp_section ti) as Hl. pose proof (Nat.div_mod k 4 ltac:(lia)) as Hdm. pose proof (Nat.mod_upper_bound k 4 ltac:(lia)) as Hlt.
  set (q := (k / 4)%nat) in *. set (r := (k mod 4)%nat) in *.
  assert (length (exp_section v row_major sh ti) >= rows sh)%nat as Hge by (unfold exp_section, exps; rewrite length_app, length_map, length_seq; lia).
  assert (q < exp_room sh)%nat as Hq by lia.
  exists (word_of 8 (group 4 (exp_section v row_major sh ti) q)). split.
  - rewrite tile_word by (unfold tile_room; lia). unfold tile_words. rewrite lookup_app_l by (rewrite length_exp_words; done).
    apply lookup_exp_words. lia.
  - destruct (exp_section_ok v row_major sh Hsh ti) as [_ Hd]. apply get_byte_ok.
    + apply length_group. lia.
    + by apply group_forall.
    + rewrite lookup_group by done. replace (4 * q + r)%nat with k by lia. unfold exp_section, exps. rewrite lookup_app_l by (by rewrite length_map, length_seq).
      rewrite list_lookup_fmap, lookup_seq_lt by done. done.
Qed.
End AllTiles.
