(* ===== verification/TileUnpack.v ===== *)
(** * Tiles read back: lemmas

    The unpackers find the exponent and the data of each row in packed words, and store
    the decoded numbers in the row's place. *)

From Stdlib Require Import Lia.
From S2P Require Import Prelude BlockFloat BlockFloatProps WorkSplit Tiles TileLanes TilePack TileRoundtrip.
Import Simd.

(** ** A number that has been converted and is read back *)

Definition dec (f : DataFormat) (e x : Z) : Z := lane (MANTISSA_BFP_WIDTH f) false e (enc f e x).

Lemma quantize_dec f x e : short f = true -> is_u32 x -> float_exp x <= e < 2 ^ 8 -> quantize f x e = Ok (dec f e x).
Proof.
  intros Hf Hx He. destruct (short_facts f Hf) as (Hbf & _ & _). destruct (convert_enc f x e Hbf Hx He) as [E Hr]. pose proof (fields_range x).
  unfold quantize. rewrite E, res_bind_ret. apply lane_decodes; [done|lia|done].
Qed.

(** ** Lists *)

Lemma vec_at_ok {A} (l : list A) (n : nat) z x : l !! n = Some x -> z = Z.of_nat n -> vec_at l z = Ok x.
Proof. intros H ->. unfold vec_at. rewrite (proj2 (Z.ltb_ge _ _)), Nat2Z.id, H by lia. done. Qed.

Lemma group_join {A} n (l : list A) h : group n l (2 * h) ++ group n l (2 * h + 1) = group (2 * n) l h.
Proof.
  unfold group. replace (n * (2 * h))%nat with (2 * n * h)%nat by lia. replace (n * (2 * h + 1))%nat with (2 * n * h + n)%nat by lia.
  rewrite <- drop_drop, take_take_drop. f_equal. lia.
Qed.

Lemma storeu_ok (n : nat) z r out : length r = 8%nat -> (n + 8 <= length out)%nat -> z = Z.of_nat n ->
  exists out', storeu z r out = Ok out' /\ length out' = length out /\
    forall i, out' !! i = if decide (n <= i < n + 8)%nat then r !! (i - n)%nat else out !! i.
Proof.
  intros Hr Hn ->. unfold storeu. rewrite (proj2 (Z.leb_le _ _)) by lia. cbn [check]. rewrite res_bind_ret, Nat2Z.id. eexists. split; [reflexivity|]. split.
  - rewrite !length_app, length_take, length_drop. lia.
  - intros i. assert (length (take n out) = n) as Ht by (rewrite length_take; lia). destruct (decide _) as [Hi|Hi].
    + rewrite lookup_app_r, Ht by lia. by rewrite lookup_app_l by lia.
    + destruct (decide (i < n)%nat) as [?|?]; [by rewrite lookup_app_l, lookup_take_lt by lia|].
      rewrite lookup_app_r, Ht by lia. rewrite lookup_app_r, Hr by lia. rewrite lookup_drop. f_equal. lia.
Qed.

(** Two stores fill a row of sixteen and leave the others. *)
Lemma store_row b r out z z' : length r = 16%nat -> (16 * S b <= length out)%nat -> z = 16 * Z.of_nat b -> z' = z + 8 ->
  exists out1 out', storeu z (group 8 r 0) out = Ok out1 /\ storeu z' (group 8 r 1) out1 = Ok out' /\ length out' = length out /\
    group 16 out' b = r /\ forall c, c <> b -> group 16 out' c = group 16 out c.
Proof.
  intros Hr Hb Hz Hz'.
  destruct (storeu_ok (16 * b) z (group 8 r 0) out) as (o1 & E1 & L1 & H1); [apply length_group; lia|lia|lia|].
  destruct (storeu_ok (16 * b + 8) z' (group 8 r 1) o1) as (o2 & E2 & L2 & H2); [apply length_group; lia|lia|lia|].
  exists o1, o2. split_and!; try done; [by rewrite L2|..].
  - apply list_eq. intros i. destruct (decide (i < 16)%nat) as [Hi|Hi].
    + rewrite lookup_group by done. rewrite H2, H1. destruct (decide _) as [?|?]; [rewrite lookup_group by lia; f_equal; lia|].
      rewrite decide_True by lia. rewrite lookup_group by lia. f_equal. lia.
    + rewrite !lookup_ge_None_2; [done|lia|rewrite length_group; lia].
  - intros c Hc. apply list_eq. intros i. destruct (decide (i < 16)%nat) as [Hi|Hi].
    + rewrite !lookup_group by done. rewrite H2, H1. rewrite !decide_False by lia. done.
    + rewrite !lookup_ge_None_2; [done|unfold group; rewrite length_take; lia..].
Qed.

Lemma group_subset {A} n (l : list A) g : group n l g ⊆ l.
Proof.
  intros x Hx%list_elem_of_lookup_1. destruct Hx as [i Hi]. unfold group in Hi. apply lookup_take_Some in Hi as [Hi _]. rewrite lookup_drop in Hi.
  by eapply list_elem_of_lookup_2.
Qed.

Lemma map_group {A B} (g : A -> B) n l i : map g (group n l i) = group n (map g l) i.
Proof. unfold group. by rewrite fmap_take, fmap_drop. Qed.

(** The rows of sixteen make up the list. *)
Lemma concat_groups {A} n (l : list A) : (0 < n)%nat -> (n | length l)%nat -> concat (groups n l) = l.
Proof.
  intros Hn [m Hm]. revert l Hm. induction m as [|m IH]; intros l Hm; [destruct l; [by rewrite groups_nil|done]|].
  rewrite <- (take_drop (m * n) l) at 1. rewrite groups_app; [|done|exists m; rewrite length_take; lia|rewrite length_drop; lia].
  rewrite concat_app, IH by (rewrite length_take; lia). cbn [concat]. rewrite app_nil_r. apply take_drop.
Qed.

(** ** Indices *)

Lemma mask_ok sh k ti : shape_facts sh -> (k < rows sh)%nat ->
  Z.land (Z.of_nat k + Z.of_nat (rows sh) * Z.of_nat ti) (exp_bit_mask (16 * Z.of_nat (rows sh))) = Z.of_nat (k mod 4).
Proof.
  intros Hsh Hk. rewrite Nat2Z.inj_mod. unfold exp_bit_mask. destruct (sf_mask _ Hsh) as [E|[E|E]].
  - rewrite E in *. replace k with 0%nat by lia. cbn. apply Z.land_0_r.
  - rewrite E in *. change (Z.land ?a _) with (Z.land a (Z.ones 1)). rewrite Z.land_ones by lia. change (2 ^ 1) with 2.
    rewrite Z.mul_comm, Z.mod_add by lia. rewrite !Z.mod_small by lia. done.
  - apply Nat.Lcm0.mod_divide in E as [m E]. rewrite (proj2 (Z.eqb_neq _ _)), (proj2 (Z.eqb_neq _ _)) by lia.
    change 3 with (Z.ones 2). rewrite Z.land_ones by lia. change (2 ^ 2) with 4. rewrite E.
    replace (Z.of_nat k + Z.of_nat (m * 4) * Z.of_nat ti) with (Z.of_nat k + Z.of_nat m * Z.of_nat ti * 4) by lia. by rewrite Z.mod_add by lia.
Qed.

(** ** Rows *)

Section Rows.
Context (f : DataFormat) (v : list Z) (row_major : bool) (sh : shapes) (nt : nat).
Hypotheses (Hf : short f = true) (Hsh : shape_facts sh) (Hv : Forall is_u32 v) (Hlen : length v = (16 * rows sh * nt)%nat) (Hmax : Z.of_nat (length v) < 2 ^ 30).

Local Abbreviation words := (packed_words f v row_major sh nt).
Local Abbreviation row := (row v row_major sh).
Local Abbreviation Ew := (Z.of_nat (exp_room sh)).
Local Abbreviation Lw := (Z.of_nat (tile_room f sh)).

Definition read_row (ti k : nat) : list Z := map (dec f (max_exp (row ti k))) (row ti k).

Lemma room_bounds : (exp_room sh <= 4 * rows sh)%nat /\ (2 <= row_room f <= 4)%nat /\ (nt * tile_room f sh <= 8 * rows sh * nt)%nat /\ Z.of_nat (rows sh) * Z.of_nat nt < 2 ^ 26.
Proof using All.
  pose proof (sf_rows _ Hsh) as Hr. assert (exp_room sh <= 4 * rows sh)%nat as H1.
  { unfold exp_room. pose proof (Nat.Div0.div_le_upper_bound (rows sh) 4 (rows sh)). destruct (pad sh); lia. }
  assert (2 <= row_room f <= 4)%nat as H2 by (clear -Hf; destruct f; try discriminate Hf; cbv; lia).
  split_and!; try lia; try (pow2; lia). unfold tile_room. nia.
Qed.

Lemma row_length ti k : (ti < nt)%nat -> (k < rows sh)%nat -> length (row ti k) = 16%nat.
Proof using Hsh Hlen. intros Ht Hk. apply length_row; [done| |done]. eapply fits; done. Qed.

Lemma data_lanes ti k c : (ti < nt)%nat -> (k < rows sh)%nat -> c = max_exp (row ti k) -> forall g, g ⊆ row ti k -> length g = 8%nat ->
  unpack_lanes (MANTISSA_BFP_WIDTH f) false (map (enc f c) g) (set1 8 c) = Ok (map (dec f c) g).
Proof using All.
  intros Ht Hk -> g Hg Hl. destruct (short_facts f Hf) as (Hbf & _ & _). pose proof (max_exp_ok (row ti k)) as [Hm _].
  rewrite unpack_lanes_ok; [by rewrite map_map|done|by rewrite length_map|done|].
  intros b (x & -> & Hx)%elem_of_map. destruct (row_elements v row_major sh Hv ti k x (Hg _ Hx)) as [H1 H2]. apply convert_enc; [done|done|lia].
Qed.

Lemma enc_digits ti k g : (ti < nt)%nat -> (k < rows sh)%nat -> g ⊆ row ti k -> digits (32 / nums_in_dword f) (map (enc f (max_exp (row ti k))) g).
Proof using All.
  intros Ht Hk Hg. destruct (short_facts f Hf) as (Hbf & _ & ->). pose proof (max_exp_ok (row ti k)) as [Hm _].
  apply Forall_fmap, Forall_forall. intros x Hx. destruct (row_elements v row_major sh Hv ti k x (Hg _ Hx)) as [H1 H2].
  apply (convert_enc f x); [done|done|lia].
Qed.

(** The exponent of a row. *)
Lemma exp_index ti k x d n lg :
  (ti < nt)%nat -> (k < rows sh)%nat -> (x < d)%nat -> d = row_room f -> Z.of_nat d = 2 ^ lg -> 0 <= lg ->
  n = Z.of_nat (d * k + x) ->
  Z.shiftr n (lg + 2) + Lw * Z.of_nat ti = Z.of_nat (ti * tile_room f sh + k / 4) /\
  Z.shiftr (n + Lw * Z.of_nat ti - Z.of_nat ti * Ew) lg = Z.of_nat k + Z.of_nat (rows sh) * Z.of_nat ti.
Proof using All.
  intros Ht Hk Hx Hd Hlg Hlg0 ->. rewrite !Z.shiftr_div_pow2, Z.pow_add_r, <- Hlg by lia. change (2 ^ 2) with 4. split.
  - rewrite <- Z.div_div by lia. replace (Z.of_nat (d * k + x)) with (Z.of_nat k * Z.of_nat d + Z.of_nat x) by lia.
    rewrite Z.div_add_l, (Z.div_small (Z.of_nat x)), Z.add_0_r by lia. rewrite Nat2Z.inj_add, Nat2Z.inj_div. lia.
  - unfold tile_room. rewrite <- Hd.
    replace (Z.of_nat (d * k + x) + _ - _) with ((Z.of_nat k + Z.of_nat (rows sh) * Z.of_nat ti) * Z.of_nat d + Z.of_nat x) by nia.
    rewrite Z.div_add_l, (Z.div_small (Z.of_nat x)) by lia. lia.
Qed.

Lemma index_bounds ti : (ti < nt)%nat ->
  0 <= Z.of_nat (rows sh) * Z.of_nat ti /\ Z.of_nat (rows sh) * Z.of_nat ti + Z.of_nat (rows sh) < 2 ^ 26 /\
  0 <= Z.of_nat ti * Ew <= Lw * Z.of_nat ti /\ Lw * Z.of_nat ti + Lw < 2 ^ 29.
Proof using All.
  intros Ht. destruct room_bounds as (He & Hrr & Hw & Hb).
  assert (Z.of_nat (rows sh) * (Z.of_nat ti + 1) <= Z.of_nat (rows sh) * Z.of_nat nt) by (apply Z.mul_le_mono_nonneg_l; lia).
  assert (Lw * (Z.of_nat ti + 1) <= Lw * Z.of_nat nt) by (apply Z.mul_le_mono_nonneg_l; lia).
  assert (Z.of_nat (exp_room sh) * Z.of_nat ti <= Lw * Z.of_nat ti) by (apply Z.mul_le_mono_nonneg_r; unfold tile_room; lia).
  assert (0 <= Z.of_nat (exp_room sh) * Z.of_nat ti) by (apply Z.mul_nonneg_nonneg; lia). pow2. lia.
Qed.

(** Where the two halves of a row go. *)
Lemma row_place ti k tr tc i h :
  (ti < nt)%nat -> places sh !! k = Some (tr, tc, i) -> 0 <= h < 16 ->
  (if row_major then u32 (i32 (tc * 16 + h) + tile_W sh * i32 (tr * face_H sh + i) + Z.of_nat ti * (16 * Z.of_nat (rows sh))) else index_of row_major sh ti k + h) =
    16 * Z.of_nat (block_of sh row_major ti k) + h.
Proof using All.
  intros Ht Hp Hh. pose proof (place_facts_of sh k tr tc i Hsh Hp) as Hpl. pose proof (lookup_lt_Some _ _ _ Hp) as Hk. rewrite (sf_places _ Hsh) in Hk.
  pose proof (block_inside v row_major sh Hsh ti k Hk) as Hb. destruct room_bounds as (_ & _ & _ & Hbound). pose proof (pf_range _ _ _ _ _ Hpl) as Hrg.
  unfold block_of, index_of in *. destruct row_major; cbv beta iota in *; [|lia]. rewrite Hp in *. pose proof (pf_block _ _ _ _ _ Hpl) as E.
  rewrite !i32_small by (pow2; lia). rewrite u32_small; [nia|]. pow2. nia.
Qed.

(** The state of the unpackers between rows: those before row [k] of tile [ti] are read. *)
Definition unpacking (ti k : nat) (st : Z * list Z) : Prop :=
  st.1 = index_of row_major sh ti k /\ length (st.2) = length v /\
  forall t j, (j < rows sh)%nat -> (t * rows sh + j < ti * rows sh + k)%nat -> group 16 st.2 (block_of sh row_major t j) = read_row t j.

(** The words and the exponent that the unpacker of bytes reads for half a row. *)
Lemma reads8 ti k tr tc i (h : nat) :
  f = Bfp8_b -> (ti < nt)%nat -> places sh !! k = Some (tr, tc, i) -> (h < 2)%nat ->
  forall idx out, unpack8_step words row_major false sh Ew (Z.of_nat ti) tr tc i (8 * Z.of_nat h) (idx, out) =
    (let '(at_, idx') := if row_major then (16 * Z.of_nat (block_of sh row_major ti k) + 8 * Z.of_nat h, idx) else (idx, u32 (idx + 8)) in
     out' ← storeu at_ (group 8 (read_row ti k) h) out; Ok (idx', out')).
Proof using All.
  intros Ef Ht Hp Hh idx out. pose proof (place_facts_of sh k tr tc i Hsh Hp) as Hpl. pose proof (lookup_lt_Some _ _ _ Hp) as Hk. rewrite (sf_places _ Hsh) in Hk.
  destruct room_bounds as (He & _ & Hw & Hb). pose proof (pf_data4 _ _ _ _ _ Hpl) as Hd4. pose proof (pf_range _ _ _ _ _ Hpl) as Hrg. pose proof (sf_rows _ Hsh) as Hr.
  assert (row_room f = 4%nat) as Erm by (rewrite Ef; done). assert (tile_room f sh = exp_room sh + 4 * rows sh)%nat as Etr by (unfold tile_room; by rewrite Erm).
  unfold unpack8_step, num_bfp8_in_tile, num_float_in_tile, tile_HW. rewrite (sf_floats _ Hsh), (sf_hw _ Hsh), (sf_face _ Hsh) in *.
  replace (16 * Z.of_nat (rows sh) / 4) with (4 * Z.of_nat (rows sh)) by (apply Z.div_unique_exact; lia).
  replace (8 * Z.of_nat h / 4) with (2 * Z.of_nat h) by (apply Z.div_unique_exact; lia).
  rewrite Hd4, (u32_small (16 * _)) by (pow2; lia). rewrite (u32_small (4 * _ + _)) by (pow2; lia).
  replace (4 * Z.of_nat (rows sh) + Ew) with Lw by lia.
  destruct (index_bounds ti Ht) as (B1 & B2 & B3 & B4). pow2.
  rewrite (i32_small (4 * Z.of_nat k + _)) by lia.
  destruct (exp_index ti k (2 * h) 4 (4 * Z.of_nat k + 2 * Z.of_nat h) 2) as [H1 H2]; try done; try lia. change (2 + 2) with 4 in H1.
  pose proof (Nat.Div0.div_le_upper_bound k 4 k ltac:(lia)) as Hk4.
  rewrite H1, !(i32_small (4 * _ + _ + _)), (i32_small (Z.of_nat (ti * _ + _))), (i32_small (Z.of_nat ti * _)) by lia.
  destruct (exp_word f v row_major sh nt Hf Hsh Hv Hlen Hmax ti k Ht Hk) as (w & Hw1 & Hw2). rewrite (vec_at_ok words _ (Z.of_nat _) _ Hw1 eq_refl). rewrite res_bind_ret.
  rewrite H2, (u32_small (Z.of_nat k + _)), (mask_ok sh k ti Hsh Hk), Hw2, res_bind_ret by (pow2; lia).
  assert (forall m : nat, (m < 4)%nat -> vec_at words (u32 (Ew + (4 * Z.of_nat k + 2 * Z.of_nat h + Lw * Z.of_nat ti) + (Z.of_nat m - 2 * Z.of_nat h))) =
    Ok (word_of 8 (map (enc f (max_exp (row ti k))) (group 4 (row ti k) m)))) as Hat.
  { intros m Hm. eapply vec_at_ok; [|rewrite u32_small by (pow2; nia)].
    - rewrite (data_word f v row_major sh nt Hf Hsh Hv Hlen Hmax ti k m Ht Hk ltac:(lia)), Ef. done.
    - rewrite Erm. nia. }
  pose proof (Hat (2 * h)%nat ltac:(lia)) as A0. pose proof (Hat (2 * h + 1)%nat ltac:(lia)) as A1.
  replace (Z.of_nat (2 * h) - 2 * Z.of_nat h) with 0 in A0 by lia. replace (Z.of_nat (2 * h + 1) - 2 * Z.of_nat h) with 1 in A1 by lia. rewrite Z.add_0_r in A0.
  rewrite A0, res_bind_ret, A1, res_bind_ret.
  assert (forall m, digits 8 (map (enc f (max_exp (row ti k))) (group 4 (row ti k) m))) as Hdig.
  { intros m. pose proof (enc_digits ti k (group 4 (row ti k) m) Ht Hk (group_subset 4 (row ti k) m)) as Hd. by rewrite Ef in Hd |- *. }
  rewrite !bytes_of_word by (done || (rewrite length_map, length_group; [done|rewrite row_length by done; lia])).
  rewrite <- map_app, group_join. change 7 with (MANTISSA_BFP_WIDTH Bfp8_b). rewrite <- Ef.
  rewrite (data_lanes ti k _ Ht Hk eq_refl) by (apply group_subset || (rewrite length_group; [done|rewrite row_length by done; lia])). rewrite res_bind_ret.
  pose proof (row_place ti k tr tc i (8 * Z.of_nat h) Ht Hp ltac:(lia)) as Hpl'. change (2 * 4)%nat with 8%nat. rewrite map_group. fold (read_row ti k).
  destruct row_major; [|done]. by rewrite Hpl'.
Qed.

(** The words that the unpacker of halves of bytes reads for a row. *)
Lemma reads4 ti k tr tc i :
  f = Bfp4_b -> (ti < nt)%nat -> places sh !! k = Some (tr, tc, i) ->
  forall idx out, unpack4_step words row_major false sh Ew (Z.of_nat ti) tr tc i 0 (idx, out) =
    (let '(at_, idx') := if row_major then (16 * Z.of_nat (block_of sh row_major ti k), idx) else (idx, u32 (idx + 16)) in
     out1 ← storeu at_ (group 8 (read_row ti k) 0) out; out' ← storeu (u32 (at_ + 8)) (group 8 (read_row ti k) 1) out1; Ok (idx', out')).
Proof using All.
  intros Ef Ht Hp idx out. pose proof (place_facts_of sh k tr tc i Hsh Hp) as Hpl. pose proof (lookup_lt_Some _ _ _ Hp) as Hk. rewrite (sf_places _ Hsh) in Hk.
  destruct room_bounds as (He & _ & Hw & Hb). pose proof (pf_data8 _ _ _ _ _ Hpl) as Hd8. pose proof (pf_range _ _ _ _ _ Hpl) as Hrg. pose proof (sf_rows _ Hsh) as Hr.
  assert (row_room f = 2%nat) as Erm by (rewrite Ef; done). assert (tile_room f sh = exp_room sh + 2 * rows sh)%nat as Etr by (unfold tile_room; by rewrite Erm).
  unfold unpack4_step, num_bfp_dwords_in_tile, num_float_in_tile, tile_HW. rewrite (sf_floats _ Hsh), (sf_hw _ Hsh), (sf_face _ Hsh) in *.
  replace (16 * Z.of_nat (rows sh) / 8) with (2 * Z.of_nat (rows sh)) by (apply Z.div_unique_exact; lia).
  change (i32 (16 / 8)) with 2. change (log2 (2 * 4)) with 3. change (log2 2) with 1. change (0 / 8) with 0. change (16 / 8) with 2 in Hd8. rewrite Hd8, !Z.add_0_r.
  rewrite (u32_small (16 * _)), !(i32_small (2 * _ + Ew)) by (pow2; lia). replace (2 * Z.of_nat (rows sh) + Ew) with Lw by lia.
  destruct (index_bounds ti Ht) as (B1 & B2 & B3 & B4). pow2. rewrite (i32_small (2 * Z.of_nat k)) by lia.
  destruct (exp_index ti k 0 2 (2 * Z.of_nat k) 1) as [H1 H2]; try done; try lia. change (1 + 2) with 3 in H1.
  pose proof (Nat.Div0.div_le_upper_bound k 4 k ltac:(lia)) as Hk4.
  rewrite H1, !(i32_small (2 * _ + _)), (i32_small (Z.of_nat (ti * _ + _))), (i32_small (Z.of_nat ti * _)) by lia.
  destruct (exp_word f v row_major sh nt Hf Hsh Hv Hlen Hmax ti k Ht Hk) as (w & Hw1 & Hw2). rewrite (vec_at_ok words _ (Z.of_nat _) _ Hw1 eq_refl). rewrite res_bind_ret.
  rewrite H2, (u32_small (Z.of_nat k + _)), (mask_ok sh k ti Hsh Hk), Hw2, res_bind_ret by (pow2; lia).
  assert (forall m : nat, (m < 2)%nat -> vec_at words (u32 (Ew + (2 * Z.of_nat k + Lw * Z.of_nat ti) + Z.of_nat m)) =
    Ok (word_of 4 (map (enc f (max_exp (row ti k))) (group 8 (row ti k) m)))) as Hat.
  { intros m Hm. eapply vec_at_ok; [|rewrite u32_small by (pow2; nia)].
    - rewrite (data_word f v row_major sh nt Hf Hsh Hv Hlen Hmax ti k m Ht Hk ltac:(lia)), Ef. done.
    - rewrite Erm. nia. }
  pose proof (Hat 0%nat ltac:(lia)) as A0. pose proof (Hat 1%nat ltac:(lia)) as A1. rewrite Z.add_0_r in A0. change (Z.of_nat 1) with 1 in A1.
  rewrite A0, res_bind_ret, A1, res_bind_ret.
  assert (forall m, digits 4 (map (enc f (max_exp (row ti k))) (group 8 (row ti k) m))) as Hdig.
  { intros m. pose proof (enc_digits ti k (group 8 (row ti k) m) Ht Hk (group_subset 8 (row ti k) m)) as Hd. by rewrite Ef in Hd |- *. }
  rewrite !nibbles_of_word by (done || (rewrite length_map, length_group; [done|rewrite row_length by done; lia])).
  change 3 with (MANTISSA_BFP_WIDTH Bfp4_b). rewrite <- Ef.
  rewrite !(data_lanes ti k _ Ht Hk eq_refl) by (apply group_subset || (rewrite length_group; [done|rewrite row_length by done; lia])). rewrite !res_bind_ret.
  pose proof (row_place ti k tr tc i 0 Ht Hp ltac:(lia)) as Hpl'. rewrite !map_group. fold (read_row ti k). rewrite !Z.add_0_r in Hpl'.
  destruct row_major; [|done]. by rewrite Hpl'.
Qed.

(** ** The rows, one after the other *)

Lemma block_inj t j t' j' : (j < rows sh)%nat -> (j' < rows sh)%nat -> block_of sh row_major t j = block_of sh row_major t' j' -> t = t' /\ j = j'.
Proof using All.
  intros Hj Hj' E. pose proof (block_inside v row_major sh Hsh t j Hj) as H1. pose proof (block_inside v row_major sh Hsh t' j' Hj') as H2.
  assert (t = t') as -> by nia. split; [done|]. unfold block_of in E. destruct row_major; [|lia].
  destruct (lookup_lt_is_Some_2 (places sh) j ltac:(rewrite (sf_places _ Hsh); done)) as [p Hp].
  destruct (lookup_lt_is_Some_2 (places sh) j' ltac:(rewrite (sf_places _ Hsh); done)) as [p' Hp']. rewrite Hp, Hp' in E.
  eapply (NoDup_lookup _ _ _ (row_block sh p) (sf_distinct _ Hsh)); rewrite list_lookup_fmap; [by rewrite Hp|rewrite Hp'; cbn; f_equal; lia].
Qed.

Lemma unpacking_row ti k tr tc i st :
  (ti < nt)%nat -> places sh !! k = Some (tr, tc, i) -> unpacking ti k st ->
  exists out1 out', storeu (16 * Z.of_nat (block_of sh row_major ti k)) (group 8 (read_row ti k) 0) st.2 = Ok out1 /\
    storeu (16 * Z.of_nat (block_of sh row_major ti k) + 8) (group 8 (read_row ti k) 1) out1 = Ok out' /\ unpacking ti (S k) (index_of row_major sh ti (S k), out').
Proof using All.
  intros Ht Hp (Hi & Hl & Hd). pose proof (lookup_lt_Some _ _ _ Hp) as Hk. rewrite (sf_places _ Hsh) in Hk.
  pose proof (block_inside v row_major sh Hsh ti k Hk) as Hb.
  destruct (store_row (block_of sh row_major ti k) (read_row ti k) st.2 _ _ ltac:(unfold read_row; rewrite length_map; by apply row_length) ltac:(rewrite Hl, Hlen; nia) eq_refl eq_refl)
    as (o1 & o2 & E1 & E2 & L2 & Hg & Ho). exists o1, o2. split_and!; try done. split_and!; [done|cbn; congruence|].
  intros t j Hj Hlt. cbn [snd]. destruct (decide (t = ti /\ j = k)) as [[-> ->]|Hne]; [done|]. rewrite Ho.
  - apply Hd; [done|]. assert (t * rows sh + j <> ti * rows sh + k)%nat; [|lia]. intros E. apply Hne.
    assert (t = ti) as -> by nia. split; [done|lia].
  - intros E. apply Hne. by apply block_inj.
Qed.

End Rows.
