(* ===== verification/TileProps.v ===== *)
(** * Tiles packed and read back: theorems *)

From Stdlib Require Import Lia.
From S2P Require Import Prelude BlockFloat BlockFloatProps WorkSplit Tiles TileLanes TilePack TileRoundtrip TileUnpack.

(** Every aligned sixteen numbers are brought into the format with the greatest of their
    exponents, and back. *)
Definition quantize_blocks (f : DataFormat) (v : list Z) : res (list Z) :=
  blocks ← mapM (fun block => mapM (fun x => quantize f x (max_exp block)) block) (groups 16 v);
  mret (concat blocks).

Section Loops.
Context (f : DataFormat) (v : list Z) (row_major : bool) (sh : shapes) (nt : nat).
Hypotheses (Hf : short f = true) (Hsh : shape_facts sh) (Hv : Forall is_u32 v) (Hlen : length v = (16 * rows sh * nt)%nat) (Hmax : Z.of_nat (length v) < 2 ^ 30).

Lemma index_next ti : index_of row_major sh ti (rows sh) = index_of row_major sh (S ti) 0.
Proof using All. unfold index_of. destruct row_major; lia. Qed.

(** The loops of the unpackers, given what they do to one row. *)
Lemma unpack_loops (g : Z -> Z -> Z -> Z -> Z * list Z -> res (Z * list Z)) :
  (forall ti k tr tc i st, (ti < nt)%nat -> places sh !! k = Some (tr, tc, i) -> unpacking f v row_major sh ti k st ->
    exists st', g (Z.of_nat ti) tr tc i st = Ok st' /\ unpacking f v row_major sh ti (S k) st') ->
  exists n out, fold_res (fun tile_index => fold_res (fun tr => fold_res (fun tc => fold_res (g tile_index tr tc) (zrange 0 (face_H sh)))
      (zrange 0 (tile_W sh / face_W sh))) (zrange 0 (tile_H sh / face_H sh))) (zrange 0 (Z.of_nat nt)) (0, replicate (length v) 0) = Ok (n, out) /\
    unpacking f v row_major sh nt 0 (n, out).
Proof using All.
  intros Hg. destruct (fold_res_zrange (fun ti => unpacking f v row_major sh (Z.to_nat ti) 0) (fun tile_index => fold_res (fun tr => fold_res (fun tc =>
      fold_res (g tile_index tr tc) (zrange 0 (face_H sh))) (zrange 0 (tile_W sh / face_W sh))) (zrange 0 (tile_H sh / face_H sh)))
    0 (Z.of_nat nt) (0, replicate (length v) 0)) as ([n out] & E & H); [lia| | |exists n, out; split; [exact E|by rewrite Nat2Z.id in H]].
  - split_and!; [unfold index_of; destruct row_major; cbn; lia|apply length_replicate|lia].
  - intros ti st Hti Hst. rewrite (rows_loop sh (g ti)).
    destruct (fold_res_lookup (fun k => unpacking f v row_major sh (Z.to_nat ti) k) (fun '(tr, tc, i) => g ti tr tc i) (places sh) st Hst) as (st' & E & H').
    + intros k [[tr tc] i] q Hk Hq. pose proof (Hg (Z.to_nat ti) k tr tc i q ltac:(lia) Hk Hq) as G. rewrite Z2Nat.id in G by lia. exact G.
    + exists st'. split; [exact E|]. rewrite (sf_places _ Hsh) in H'. destruct H' as (H1 & H2 & H3). replace (Z.to_nat (ti + 1)) with (S (Z.to_nat ti)) by lia.
      split_and!; [by rewrite H1, index_next|done|]. intros t j Hj Hlt. apply H3; [done|lia].
Qed.

Lemma row8 : f = Bfp8_b -> forall ti k tr tc i st, (ti < nt)%nat -> places sh !! k = Some (tr, tc, i) -> unpacking f v row_major sh ti k st ->
  exists st', fold_res (unpack8_step (packed_words f v row_major sh nt) row_major false sh (Z.of_nat (exp_room sh)) (Z.of_nat ti) tr tc i) (steps (face_W sh) 8) st = Ok st' /\
    unpacking f v row_major sh ti (S k) st'.
Proof using All.
  intros Ef ti k tr tc i [idx out] Ht Hp Hst. destruct (unpacking_row f v row_major sh nt Hf Hsh Hv Hlen Hmax ti k tr tc i _ Ht Hp Hst) as (o1 & o2 & E1 & E2 & H).
  eexists. split; [|exact H]. destruct Hst as (Hidx & _ & _). cbn [fst snd] in *. subst idx.
  pose proof (lookup_lt_Some _ _ _ Hp) as Hk. rewrite (sf_places _ Hsh) in Hk.
  pose proof (block_inside v row_major sh Hsh ti k Hk) as Hb. destruct (index_bounds f v row_major sh nt Hf Hsh Hv Hlen Hmax ti Ht) as (_ & B2 & _). pose proof (sf_rows _ Hsh).
  rewrite (sf_face _ Hsh). change (steps 16 8) with [8 * Z.of_nat 0; 8 * Z.of_nat 1]. cbn [fold_res].
  rewrite (reads8 f v row_major sh nt Hf Hsh Hv Hlen Hmax ti k tr tc i 0 Ef Ht Hp) by lia.
  assert (index_of row_major sh ti (S k) = if row_major then index_of row_major sh ti k else u32 (u32 (index_of row_major sh ti k + 8) + 8)) as ->
    by (unfold index_of; destruct row_major; [done|rewrite (u32_small (16 * Z.of_nat (ti * rows sh + k) + 8)), u32_small by (pow2; lia); lia]).
  unfold block_of, index_of in *. destruct row_major; cbv beta iota zeta in *.
  - change (8 * Z.of_nat 0) with 0. rewrite Z.add_0_r, E1, !res_bind_ret. rewrite (reads8 f v true sh nt Hf Hsh Hv Hlen Hmax ti k tr tc i 1 Ef Ht Hp) by lia.
    unfold block_of. cbv beta iota zeta. change (8 * Z.of_nat 1) with 8. by rewrite E2, !res_bind_ret.
  - rewrite E1, !res_bind_ret. rewrite (reads8 f v false sh nt Hf Hsh Hv Hlen Hmax ti k tr tc i 1 Ef Ht Hp) by lia.
    cbv beta iota zeta. rewrite !(u32_small (16 * Z.of_nat (ti * rows sh + k) + 8)) by (pow2; lia). by rewrite E2, !res_bind_ret.
Qed.

Lemma row4 : f = Bfp4_b -> forall ti k tr tc i st, (ti < nt)%nat -> places sh !! k = Some (tr, tc, i) -> unpacking f v row_major sh ti k st ->
  exists st', fold_res (unpack4_step (packed_words f v row_major sh nt) row_major false sh (Z.of_nat (exp_room sh)) (Z.of_nat ti) tr tc i) (steps (face_W sh) 16) st = Ok st' /\
    unpacking f v row_major sh ti (S k) st'.
Proof using All.
  intros Ef ti k tr tc i [idx out] Ht Hp Hst. destruct (unpacking_row f v row_major sh nt Hf Hsh Hv Hlen Hmax ti k tr tc i _ Ht Hp Hst) as (o1 & o2 & E1 & E2 & H).
  eexists. split; [|exact H]. destruct Hst as (Hidx & _ & _). cbn [fst snd] in *. subst idx.
  pose proof (lookup_lt_Some _ _ _ Hp) as Hk. rewrite (sf_places _ Hsh) in Hk.
  pose proof (block_inside v row_major sh Hsh ti k Hk) as Hb. destruct (index_bounds f v row_major sh nt Hf Hsh Hv Hlen Hmax ti Ht) as (_ & B2 & _). pose proof (sf_rows _ Hsh).
  rewrite (sf_face _ Hsh). change (steps 16 16) with [0]. cbn [fold_res].
  rewrite (reads4 f v row_major sh nt Hf Hsh Hv Hlen Hmax ti k tr tc i Ef Ht Hp) by lia.
  assert (u32 (16 * Z.of_nat (block_of sh row_major ti k) + 8) = 16 * Z.of_nat (block_of sh row_major ti k) + 8) as Eu by (apply u32_small; pow2; nia).
  assert (index_of row_major sh ti (S k) = if row_major then index_of row_major sh ti k else u32 (index_of row_major sh ti k + 16)) as ->
    by (unfold index_of; destruct row_major; [done|rewrite u32_small by (pow2; lia); lia]).
  unfold block_of, index_of in *. destruct row_major; cbv beta iota zeta in *; by rewrite E1, !res_bind_ret, Eu, E2, !res_bind_ret.
Qed.

(** Every group of sixteen is the block of one row. *)
Lemma block_all b : (b < nt * rows sh)%nat -> exists ti k, (ti < nt)%nat /\ (k < rows sh)%nat /\ block_of sh row_major ti k = b.
Proof using All.
  intros Hb. pose proof (sf_rows _ Hsh) as Hr. set (ti := (b / rows sh)%nat). set (c := (b mod rows sh)%nat).
  pose proof (Nat.div_mod b (rows sh) ltac:(lia)) as E. fold ti c in E. pose proof (Nat.mod_upper_bound b (rows sh) ltac:(lia)) as Hc. fold c in Hc.
  assert (ti < nt)%nat as Ht by (apply Nat.Div0.div_lt_upper_bound; lia). exists ti. unfold block_of. destruct row_major; [|exists c; split_and!; lia].
  pose proof (sf_all _ Hsh c Hc) as (p & Ec & Hp)%elem_of_map. apply list_elem_of_lookup_1 in Hp as [k Hk]. pose proof (lookup_lt_Some _ _ _ Hk) as Hlt.
  rewrite (sf_places _ Hsh) in Hlt. exists k. rewrite Hk. split_and!; lia.
Qed.

Lemma mapM_ok {A B} (g : A -> res B) (h : A -> B) l : (forall x, x ∈ l -> g x = Ok (h x)) -> mapM g l = Ok (map h l).
Proof using.
  intros H. apply mapM_res_lookup; [by rewrite length_map|]. intros i a b Ha Hb. rewrite list_lookup_fmap, Ha in Hb. injection Hb as <-. apply H. by eapply list_elem_of_lookup_2.
Qed.

(** What all rows hold makes up the result. *)
Lemma unpacked_ok n out : unpacking f v row_major sh nt 0 (n, out) -> quantize_blocks f v = Ok out.
Proof using All.
  intros (_ & Hl & Hg). cbn [snd] in *. pose proof (sf_rows _ Hsh) as Hr. assert (length v = nt * rows sh * 16)%nat as Hl' by lia.
  set (h := fun block => map (dec f (max_exp block)) block).
  assert (groups 16 out = map h (groups 16 v)) as E.
  { unfold groups. rewrite Hl, map_map. apply map_ext_in. intros b Hb%in_seq. rewrite Hl', Nat.div_mul in Hb by lia.
    destruct (block_all b ltac:(lia)) as (ti & k & Ht & Hk & <-). apply Hg; [done|]. nia. }
  rewrite <- (concat_groups 16 out) by (lia || (exists (nt * rows sh)%nat; lia)). rewrite E.
  unfold quantize_blocks. rewrite (mapM_ok _ h); [by rewrite res_bind_ret|].
  intros b Hb. unfold h. apply mapM_ok. intros x Hx. apply list_elem_of_In, in_map_iff in Hb as (i & <- & Hi%in_seq).
  assert (Forall is_u32 (group 16 v i)) as Hu by (by apply group_forall). rewrite Forall_forall in Hu. apply quantize_dec; [done|by apply Hu|].
  split; [by apply max_exp_ok|apply max_exp_ok].
Qed.
End Loops.

Lemma exp_room_ok sh : shape_facts sh -> round_up (u32 (tile_HW sh / face_HW sh * face_H sh)) 16 = Ok (4 * Z.of_nat (exp_room sh)).
Proof.
  intros Hsh. pose proof (sf_rows _ Hsh) as Hr. rewrite (sf_exps _ Hsh), u32_small by (pow2; lia). rewrite round_up_16 by lia. f_equal. unfold exp_room, pad.
  destruct (Z.ltb_spec (Z.of_nat (rows sh)) 16) as [H|H].
  - rewrite <- (Z.div_unique (Z.of_nat (rows sh) + 15) 16 1 (Z.of_nat (rows sh) - 1)) by lia. done.
  - destruct (sf_group _ Hsh) as [?|[m Hm]%Nat.Lcm0.mod_divide]; [lia|]. rewrite Hm. replace (m * 16)%nat with (4 * m * 4)%nat by lia. rewrite Nat.div_mul by lia.
    rewrite <- (Z.div_unique (Z.of_nat (4 * m * 4) + 15) 16 (Z.of_nat m) 15) by lia. lia.
Qed.

(** ** Theorems *)

Section Theorems.
Context (v : list Z) (row_major : bool) (tile : option Tile).
Hypotheses (Htile : tile_valid tile) (Hv : Forall is_u32 v) (Hmax : Z.of_nat (length v) < 2 ^ 30)
  (Hdiv : Z.of_nat (length v) mod (tile_H (shapes_of tile) * tile_W (shapes_of tile)) = 0).

Lemma tile_shape_facts : shape_facts (shapes_of tile).
Proof using Htile. by apply shape_facts_of, (tile_valid_ok Bfp8_b). Qed.

Lemma whole_tiles : exists nt, length v = (16 * rows (shapes_of tile) * nt)%nat.
Proof using All.
  pose proof tile_shape_facts as Hsh. pose proof (sf_rows _ Hsh) as Hr. rewrite (sf_hw _ Hsh) in Hdiv. apply Z.mod_divide in Hdiv as [m Hm]; [|lia].
  exists (Z.to_nat m). assert (0 <= m) by nia. nia.
Qed.

(** What the unpackers compute before their loops. *)
Lemma unpack_sizes f nt : short f = true -> length v = (16 * rows (shapes_of tile) * nt)%nat ->
  let sh := shapes_of tile in let words := packed_words f v row_major sh nt in
  u32 (Z.of_nat (length words) * 4) = Z.of_nat nt * (4 * Z.of_nat (tile_room f sh)) /\ 0 < 4 * Z.of_nat (tile_room f sh) /\
  Z.to_nat (u32 (Z.of_nat nt * num_float_in_tile sh)) = length v.
Proof using All.
  intros Hf Hlen sh words. pose proof tile_shape_facts as Hsh. fold sh in Hsh, Hlen. pose proof (sf_rows _ Hsh) as Hr.
  destruct (room_bounds f v row_major sh nt Hf Hsh Hv Hlen Hmax) as (_ & Hrr & Hw & Hb). unfold words. rewrite (length_packed f v row_major sh nt Hf Hsh Hv Hlen Hmax).
  assert (0 < tile_room f sh)%nat by (unfold tile_room; nia).
  split_and!; [rewrite u32_small by (pow2; nia); lia|lia|]. unfold num_float_in_tile. rewrite (sf_floats _ Hsh), (u32_small (16 * _)), u32_small by (pow2; nia). lia.
Qed.

Lemma unpack8_ok nt : length v = (16 * rows (shapes_of tile) * nt)%nat ->
  exists out, quantize_blocks Bfp8_b v = Ok out /\
    unpack_bfp8_tiles_into_float_vec 16 (packed_words Bfp8_b v row_major (shapes_of tile) nt) row_major false tile = Ok out.
Proof using All.
  intros Hlen. pose proof tile_shape_facts as Hsh. destruct (unpack_sizes Bfp8_b nt eq_refl Hlen) as (H1 & H2 & H3). unfold unpack_bfp8_tiles_into_float_vec.
  rewrite exp_room_ok, res_bind_ret, H1 by done. destruct (tile_valid_ok Bfp8_b tile Htile eq_refl) as [_ ->]. rewrite res_bind_ret, Z.mod_mul, Z.div_mul, H3 by lia.
  cbn [check Z.eqb]. rewrite res_bind_ret. rewrite (Z.mul_comm 4), Z.div_mul by lia.
  destruct (unpack_loops Bfp8_b v row_major (shapes_of tile) nt eq_refl Hsh Hv Hlen Hmax
    (fun ti tr tc i => fold_res (unpack8_step (packed_words Bfp8_b v row_major (shapes_of tile) nt) row_major false (shapes_of tile) (Z.of_nat (exp_room (shapes_of tile))) ti tr tc i) (steps (face_W (shapes_of tile)) 8))
    (row8 Bfp8_b v row_major (shapes_of tile) nt eq_refl Hsh Hv Hlen Hmax eq_refl)) as (n & out & E & H).
  exists out. split; [by apply (unpacked_ok Bfp8_b v row_major (shapes_of tile) nt eq_refl Hsh Hv Hlen Hmax n)|]. by rewrite E, res_bind_ret.
Qed.

Lemma unpack4_ok nt : length v = (16 * rows (shapes_of tile) * nt)%nat ->
  exists out, quantize_blocks Bfp4_b v = Ok out /\
    unpack_bfp4_tiles_into_float_vec 16 (packed_words Bfp4_b v row_major (shapes_of tile) nt) row_major false tile = Ok out.
Proof using All.
  intros Hlen. pose proof tile_shape_facts as Hsh. destruct (unpack_sizes Bfp4_b nt eq_refl Hlen) as (H1 & H2 & H3). unfold unpack_bfp4_tiles_into_float_vec.
  rewrite H1. destruct (tile_valid_ok Bfp4_b tile Htile eq_refl) as [_ ->]. rewrite res_bind_ret, Z.mod_mul, Z.div_mul, H3 by lia.
  cbn [check Z.eqb]. rewrite res_bind_ret, exp_room_ok, res_bind_ret by done. rewrite (Z.mul_comm 4), Z.div_mul by lia.
  destruct (unpack_loops Bfp4_b v row_major (shapes_of tile) nt eq_refl Hsh Hv Hlen Hmax
    (fun ti tr tc i => fold_res (unpack4_step (packed_words Bfp4_b v row_major (shapes_of tile) nt) row_major false (shapes_of tile) (Z.of_nat (exp_room (shapes_of tile))) ti tr tc i) (steps (face_W (shapes_of tile)) 16))
    (row4 Bfp4_b v row_major (shapes_of tile) nt eq_refl Hsh Hv Hlen Hmax eq_refl)) as (n & out & E & H).
  exists out. split; [by apply (unpacked_ok Bfp4_b v row_major (shapes_of tile) nt eq_refl Hsh Hv Hlen Hmax n)|]. by rewrite E, res_bind_ret.
Qed.

(** C9: Numbers packed into tiles of a block format and unpacked with the same order of
    elements and the same tile come back in their places: the result of the packer, the
    bit fields, the padded exponents and the vector code of the unpackers is exactly
    that every aligned group of sixteen numbers goes through the format with the
    greatest exponent of the group.  No step fails. *)
Theorem unpack_pack :
  (exists out, quantize_blocks Bfp8_b v = Ok out /\
     (words ← pack_fp32_vec_as_bfp8_tiles 16 v row_major false tile; unpack_bfp8_tiles_into_float_vec 16 words row_major false tile) = Ok out) /\
  (exists out, quantize_blocks Bfp4_b v = Ok out /\
     (words ← pack_fp32_vec_as_bfp4_tiles 16 v row_major false tile; unpack_bfp4_tiles_into_float_vec 16 words row_major false tile) = Ok out).
Proof using All.
  destruct whole_tiles as [nt Hlen]. pose proof tile_shape_facts as Hsh. unfold pack_fp32_vec_as_bfp8_tiles, pack_fp32_vec_as_bfp4_tiles.
  split; rewrite (pack_tiles_ok _ v row_major (shapes_of tile) nt) by done; rewrite res_bind_ret; [by apply unpack8_ok|by apply unpack4_ok].
Qed.

(** The packer writes, for every tile, exactly the bytes that the tile's size in the
    format announces. *)
Theorem pack_size f : short f = true ->
  exists words size, pack_fp32_vec_as_bfp_tiles 16 f v row_major false tile = Ok words /\
    match tile with Some t => get_tile_size 16 t f | None => tile_size f end = Ok size /\
    4 * Z.of_nat (length words) = Z.of_nat (length v) / (tile_H (shapes_of tile) * tile_W (shapes_of tile)) * size.
Proof using All.
  intros Hf. destruct whole_tiles as [nt Hlen]. pose proof tile_shape_facts as Hsh. destruct (tile_valid_ok f tile Htile Hf) as [_ Es]. pose proof (sf_rows _ Hsh) as Hr.
  do 2 eexists. split; [by apply (pack_tiles_ok f v row_major (shapes_of tile) nt)|]. split; [exact Es|].
  rewrite (length_packed f v row_major _ nt Hf Hsh Hv Hlen Hmax), (sf_hw _ Hsh), Hlen.
  replace (Z.of_nat (16 * rows (shapes_of tile) * nt)) with (Z.of_nat nt * (16 * Z.of_nat (rows (shapes_of tile)))) by lia. rewrite Z.div_mul by lia. lia.
Qed.
End Theorems.

(** ** Examples *)

(** 1, 2, 3, ..., with alternating signs, in a tile of one row. *)
Definition sample_row : list Z :=
  [0x3f800000; 0xc0000000; 0x40400000; 0xc0800000; 0x40a00000; 0xc0c00000; 0x40e00000; 0xc1000000;
   0x41100000; 0xc1200000; 0x41300000; 0xc1400000; 0x41500000; 0xc1600000; 0x41700000; 0xc1800000].
Definition sample_tile : option Tile := match Tile_new (1, 16) false with Ok t => Some t | Err _ => None end.

Lemma unpack_pack_witness :
  (words ← pack_fp32_vec_as_bfp8_tiles 16 sample_row true false sample_tile; unpack_bfp8_tiles_into_float_vec 16 words true false sample_tile) = Ok sample_row /\
  (words ← pack_fp32_vec_as_bfp4_tiles 16 sample_row true false sample_tile; unpack_bfp4_tiles_into_float_vec 16 words true false sample_tile) <> Ok sample_row.
Proof.
  destruct (unpack_pack sample_row true sample_tile) as [(out8 & Q8 & ->) (out4 & Q4 & ->)].
  - exists (1, 16), false. reflexivity.
  - repeat (apply Forall_cons; split; [split; [discriminate|reflexivity]|]). apply Forall_nil. exact I.
  - reflexivity.
  - reflexivity.
  - vm_compute in Q8. vm_compute in Q4. split; [symmetry; exact Q8|]. rewrite <- Q4. vm_compute. discriminate.
Defined.

Lemma pack_size_witness : exists words, pack_fp32_vec_as_bfp_tiles 16 Bfp8_b sample_row false false sample_tile = Ok words /\ 4 * Z.of_nat (length words) = 32.
Proof.
  destruct (pack_size sample_row false sample_tile) with (f := Bfp8_b) as (words & size & E & Es & H).
  - exists (1, 16), false. reflexivity.
  - repeat (apply Forall_cons; split; [split; [discriminate|reflexivity]|]). apply Forall_nil. exact I.
  - reflexivity.
  - reflexivity.
  - reflexivity.
  - exists words. split; [exact E|]. vm_compute in Es. injection Es as <-. rewrite H. vm_compute. reflexivity.
Defined.
