(* ===== verification/Tilize.v ===== *)
(** * The order of elements in tiles (tt_metal/common/tilize_untilize.hpp)

    Matrices of [m] by [n] bfloat16 numbers, one after the other, between row-major order
    and tiles of 32 by 32, each of which is stored as four faces of 16 by 16. *)

From S2P Require Import Prelude.

Definition TILE_HEIGHT : Z := 32.
Definition TILE_WIDTH : Z := 32.
Definition FACE_HEIGHT : Z := 16.
Definition FACE_WIDTH : Z := 16.

(** [result.push_back(input[i])]. *)
Definition push_from (input : list Z) (i : Z) (result : list Z) : res (list Z) := x ← at_ input i; mret (result ++ [x]).

(** What both functions check first; the result is the number of matrices. *)
Definition block_checks (input : list Z) (m n : Z) : res Z :=
  check Fatal ((0 <? Z.of_nat (length input)) && (0 <? m) && (0 <? n));;
  check Undefined (negb (u32 (m * n) =? 0));;
  check Fatal (Z.of_nat (length input) mod u32 (m * n) =? 0);;
  mret (u32 (Z.of_nat (length input) / u32 (m * n))).

(** *** tilize *)

Definition write_face (input : list Z) (face_height face_width face_idx n : Z) (tilized_input : list Z) : res (list Z) :=
  '(_, tilized_input) ← fold_res (fun _ '(face_idx, tilized_input) =>
    tilized_input ← fold_res (fun j => push_from input (u32 (face_idx + j))) (zrange 0 face_width) tilized_input;
    mret (u32 (face_idx + n), tilized_input)) (zrange 0 face_height) (face_idx, tilized_input);
  mret tilized_input.

Definition write_tile (input : list Z) (n row_tile_start : Z) (tilized_input : list Z) : res (list Z) :=
  let face0_id := row_tile_start in
  let face1_id := u32 (face0_id + FACE_WIDTH) in
  let face2_id := u32 (face0_id + n * FACE_HEIGHT) in
  let face3_id := u32 (face2_id + FACE_WIDTH) in
  tilized_input ← write_face input FACE_HEIGHT FACE_WIDTH face0_id n tilized_input;
  tilized_input ← write_face input FACE_HEIGHT FACE_WIDTH face1_id n tilized_input;
  tilized_input ← write_face input FACE_HEIGHT FACE_WIDTH face2_id n tilized_input;
  write_face input FACE_HEIGHT FACE_WIDTH face3_id n tilized_input.

Definition tilize_row_of_tiles (input : list Z) (n tile_start : Z) (out : list Z) : res (list Z) :=
  '(_, out) ← fold_res (fun _ '(row_tile_start, out) =>
    out ← write_tile input n row_tile_start out;
    mret (u32 (row_tile_start + TILE_WIDTH), out)) (zrange 0 (n / TILE_WIDTH)) (tile_start, out);
  mret out.

Definition tilize_block (input : list Z) (m n block_start : Z) (out : list Z) : res (list Z) :=
  '(_, out) ← fold_res (fun _ '(tile_start, out) =>
    out ← tilize_row_of_tiles input n tile_start out;
    mret (u32 (tile_start + u32 (TILE_HEIGHT * n)), out)) (zrange 0 (m / TILE_HEIGHT)) (block_start, out);
  mret out.

Definition tilize (input : list Z) (m n : Z) : res (list Z) :=
  num_blocks ← block_checks input m n;
  check Fatal ((m mod TILE_HEIGHT =? 0) && (n mod TILE_WIDTH =? 0));;
  '(_, tilized_input) ← fold_res (fun _ '(block_start, out) =>
    out ← tilize_block input m n block_start out;
    mret (u32 (block_start + u32 (m * n)), out)) (zrange 0 num_blocks) (0, []);
  mret tilized_input.

(** *** untilize *)

(** Sixteen elements of each of two faces of every tile of the row. *)
Definition untilize_line (input : list Z) (face_height face_width col_tiles row_start : Z) (out : list Z) : res (list Z) :=
  '(_, out) ← fold_res (fun _ '(row_start, out) =>
    out ← fold_res (fun k => push_from input (u32 (row_start + k))) (zrange 0 face_width) out;
    let row_start := u32 (row_start + face_height * face_width) in
    out ← fold_res (fun k => push_from input (u32 (row_start + k))) (zrange 0 face_width) out;
    mret (u32 (row_start + face_height * face_width * 3), out)) (zrange 0 col_tiles) (row_start, out);
  mret out.

Definition untilize_row (input : list Z) (face_height face_width tile_idx tile_width n : Z) (untilized_input : list Z) : res (list Z) :=
  '(_, out) ← fold_res (fun _ '(face_start, out) =>
    out ← fold_res (fun i => untilize_line input face_height face_width (n / tile_width) (u32 (face_start + i * face_width))) (zrange 0 face_height) out;
    mret (u32 (face_start + face_height * face_width * 2), out)) (zrange 0 2) (tile_idx, untilized_input);
  mret out.

Definition untilize_block (input : list Z) (m n block_start : Z) (out : list Z) : res (list Z) :=
  '(_, out) ← fold_res (fun _ '(row_tile_start, out) =>
    out ← untilize_row input FACE_HEIGHT FACE_WIDTH row_tile_start TILE_WIDTH n out;
    mret (u32 (row_tile_start + u32 (TILE_HEIGHT * n)), out)) (zrange 0 (m / TILE_HEIGHT)) (block_start, out);
  mret out.

Definition untilize (input : list Z) (m n : Z) : res (list Z) :=
  num_blocks ← block_checks input m n;
  check Fatal ((m mod TILE_HEIGHT =? 0) && (n mod TILE_WIDTH =? 0));;
  '(_, untilized_input) ← fold_res (fun _ '(block_start, out) =>
    out ← untilize_block input m n block_start out;
    mret (u32 (block_start + u32 (m * n)), out)) (zrange 0 num_blocks) (0, []);
  mret untilized_input.
