(* ===== verification/TilizeProps.v ===== *)
(** * The order of elements in tiles: theorems *)

From Stdlib Require Import Lia.
From S2P Require Import Prelude Tilize.

(** ** Loops that push elements *)

Section Loops.
Context (v : list Z).
Hypothesis Hmax : Z.of_nat (length v) < 2 ^ 32.

(** [w] elements from [s] on. *)
Definition seg (s w : nat) : list Z := take w (drop s v).

Lemma push_seg (s w : nat) out : (s + w <= length v)%nat ->
  fold_res (fun j => push_from v (u32 (Z.of_nat s + j))) (zrange 0 (Z.of_nat w)) out = Ok (out ++ seg s w).
Proof.
  intros H. destruct (fold_res_zrange (fun j o => o = out ++ seg s (Z.to_nat j)) (fun j => push_from v (u32 (Z.of_nat s + j))) 0 (Z.of_nat w) out)
    as (o & E & Ho); [lia|by rewrite app_nil_r| |rewrite E, Ho; by rewrite Nat2Z.id].
  intros j o Hj ->. eexists. split; [|reflexivity]. unfold push_from, at_. rewrite u32_small by (pow2; lia).
  destruct (lookup_lt_is_Some_2 v (s + Z.to_nat j)) as [x Hx]; [lia|]. replace (Z.to_nat (Z.of_nat s + j)) with (s + Z.to_nat j)%nat by lia. rewrite Hx.
  cbn [opt_res]. rewrite res_bind_ret. unfold mret, res_ret. f_equal. replace (Z.to_nat (j + 1)) with (S (Z.to_nat j)) by lia. unfold seg.
  rewrite (take_S_r _ _ x) by (by rewrite lookup_drop). by rewrite app_assoc.
Qed.

(** A loop that moves on by [step]; where it ends does not matter. *)
Lemma carry_loop (body : Z -> list Z -> res (list Z)) (blk : nat -> list Z) (next : Z -> Z) (s0 step n : nat) out :
  (forall i out, (i < n)%nat -> body (Z.of_nat (s0 + i * step)) out = Ok (out ++ blk i)) ->
  (forall i, (S i < n)%nat -> next (Z.of_nat (s0 + i * step)) = Z.of_nat (s0 + S i * step)) ->
  ('(_, out) ← fold_res (fun _ '(s, out) => out ← body s out; mret (next s, out)) (zrange 0 (Z.of_nat n)) (Z.of_nat s0, out); mret out) =
    Ok (out ++ flat_map blk (seq 0 n)).
Proof.
  intros Hb Hn. destruct (fold_res_zrange (fun i st => (i < Z.of_nat n -> st.1 = Z.of_nat (s0 + Z.to_nat i * step)) /\ st.2 = out ++ flat_map blk (seq 0 (Z.to_nat i)))
    (fun _ '(s, out) => out ← body s out; mret (next s, out)) 0 (Z.of_nat n) (Z.of_nat s0, out)) as ([s o] & E & _ & Ho).
  - lia.
  - split; [intros _; cbn; lia|cbn; by rewrite app_nil_r].
  - intros i [s o] Hi [Hs Ho]. cbn [fst snd] in *. rewrite (Hs ltac:(lia)), Hb by lia. rewrite res_bind_ret. eexists. split; [reflexivity|]. cbn [fst snd].
    replace (Z.to_nat (i + 1)) with (S (Z.to_nat i)) by lia. split; [intros ?; apply Hn; lia|].
    rewrite seq_S, flat_map_app, Ho. cbn [flat_map Nat.add]. by rewrite app_nil_r, app_assoc.
  - rewrite E, res_bind_ret. cbn [snd] in Ho. by rewrite Ho, Nat2Z.id.
Qed.

(** ** What the functions write *)

Definition face (n s : nat) : list Z := flat_map (fun i => seg (s + i * n) 16) (seq 0 16).
Definition tile (n s : nat) : list Z := flat_map (fun p => flat_map (fun q => face n (s + p * (16 * n) + q * 16)) (seq 0 2)) (seq 0 2).
Definition tilized (nb rt ct : nat) : list Z :=
  let n := (32 * ct)%nat in let m := (32 * rt)%nat in
  flat_map (fun b => flat_map (fun r => flat_map (fun c => tile n (b * (m * n) + r * (32 * n) + c * 32)) (seq 0 ct)) (seq 0 rt)) (seq 0 nb).

Lemma write_face_ok (n s : nat) out : (s + 15 * n + 16 <= length v)%nat ->
  write_face v FACE_HEIGHT FACE_WIDTH (Z.of_nat s) (Z.of_nat n) out = Ok (out ++ face n s).
Proof using Hmax.
  intros H. unfold write_face, FACE_HEIGHT, FACE_WIDTH. change 16 with (Z.of_nat 16).
  rewrite <- (Nat.add_0_r s) at 1. rewrite <- (Nat.mul_0_l n).
  rewrite (carry_loop (fun s => fold_res (fun j => push_from v (u32 (s + j))) (zrange 0 (Z.of_nat 16))) (fun i => seg (s + i * n) 16) (fun s => u32 (s + Z.of_nat n)) (s + 0 * n) n 16); [done|..].
  - intros i o Hi. rewrite push_seg by nia. do 3 f_equal. lia.
  - intros i Hi. rewrite u32_small by (pow2; nia). lia.
Qed.

Lemma write_tile_ok (n s : nat) out : (16 <= n)%nat -> (s + 31 * n + 32 <= length v)%nat -> write_tile v (Z.of_nat n) (Z.of_nat s) out = Ok (out ++ tile n s).
Proof using Hmax.
  intros Hn H. unfold write_tile, FACE_HEIGHT, FACE_WIDTH in *. rewrite !(u32_small (Z.of_nat s + _)) by (pow2; nia). rewrite u32_small by (pow2; nia).
  replace (Z.of_nat s + Z.of_nat n * 16 + 16) with (Z.of_nat (s + 1 * (16 * n) + 1 * 16)) by lia. replace (Z.of_nat s + Z.of_nat n * 16) with (Z.of_nat (s + 1 * (16 * n) + 0 * 16)) by lia.
  replace (Z.of_nat s + 16) with (Z.of_nat (s + 0 * (16 * n) + 1 * 16)) by lia. replace (Z.of_nat s) with (Z.of_nat (s + 0 * (16 * n) + 0 * 16)) by lia.
  rewrite write_face_ok, res_bind_ret by lia. rewrite write_face_ok, res_bind_ret by lia. rewrite write_face_ok, res_bind_ret by lia. rewrite write_face_ok by lia.
  unfold tile. cbn [flat_map seq]. by rewrite !app_nil_r, <- !app_assoc.
Qed.

Lemma row_of_tiles_ok (ct s : nat) out : let n := (32 * ct)%nat in (s + 32 * n <= length v)%nat ->
  tilize_row_of_tiles v (Z.of_nat n) (Z.of_nat s) out = Ok (out ++ flat_map (fun c => tile n (s + c * 32)) (seq 0 ct)).
Proof using Hmax.
  intros n H. unfold tilize_row_of_tiles, TILE_WIDTH. replace (Z.of_nat n / 32) with (Z.of_nat ct) by (apply Z.div_unique_exact; lia).
  apply (carry_loop (write_tile v (Z.of_nat n)) (fun c => tile n (s + c * 32)) (fun s => u32 (s + 32)) s 32 ct).
  - intros c o Hc. apply write_tile_ok; nia.
  - intros c Hc. rewrite u32_small by (pow2; nia). lia.
Qed.

Lemma tilize_block_ok (rt ct s : nat) out : let n := (32 * ct)%nat in (s + rt * (32 * n) <= length v)%nat ->
  tilize_block v (Z.of_nat (32 * rt)) (Z.of_nat n) (Z.of_nat s) out =
    Ok (out ++ flat_map (fun r => flat_map (fun c => tile n (s + r * (32 * n) + c * 32)) (seq 0 ct)) (seq 0 rt)).
Proof using Hmax.
  intros n H. unfold tilize_block, TILE_HEIGHT. replace (Z.of_nat (32 * rt) / 32) with (Z.of_nat rt) by (apply Z.div_unique_exact; lia).
  apply (carry_loop (tilize_row_of_tiles v (Z.of_nat n)) (fun r => flat_map (fun c => tile n (s + r * (32 * n) + c * 32)) (seq 0 ct)) (fun s => u32 (s + u32 (32 * Z.of_nat n))) s (32 * n) rt).
  - intros r o Hr. apply row_of_tiles_ok. nia.
  - intros r Hr. assert (S r * (32 * n) <= rt * (32 * n))%nat by nia. rewrite (u32_small (32 * _)), u32_small by (pow2; nia). lia.
Qed.

Lemma blocks_ok nb rt ct : (0 < length v)%nat -> length v = (nb * (32 * rt * (32 * ct)))%nat -> block_checks v (Z.of_nat (32 * rt)) (Z.of_nat (32 * ct)) = Ok (Z.of_nat nb) /\
  u32 (Z.of_nat (32 * rt) * Z.of_nat (32 * ct)) = Z.of_nat (32 * rt * (32 * ct)).
Proof using Hmax.
  intros H0 Hl. set (b := (32 * rt * (32 * ct))%nat) in *. assert (1 <= nb)%nat by (destruct nb; lia). assert (0 < b)%nat by (destruct b; lia). assert (0 < rt /\ 0 < ct)%nat as [Hrt Hct] by nia.
  assert (u32 (Z.of_nat (32 * rt) * Z.of_nat (32 * ct)) = Z.of_nat b) as E by (rewrite u32_small by (pow2; nia); lia). split; [|done].
  unfold block_checks. rewrite E. rewrite !(proj2 (Z.ltb_lt _ _)) by lia. rewrite (proj2 (Z.eqb_neq (Z.of_nat b) 0)) by lia. cbn [andb negb check]. rewrite !res_bind_ret.
  rewrite Hl, Nat2Z.inj_mul, Z.mod_mul, Z.div_mul by lia. cbn [Z.eqb check]. rewrite res_bind_ret. by rewrite u32_small by (pow2; nia).
Qed.

Lemma tilize_ok nb rt ct : (0 < length v)%nat -> length v = (nb * (32 * rt * (32 * ct)))%nat -> tilize v (Z.of_nat (32 * rt)) (Z.of_nat (32 * ct)) = Ok (tilized nb rt ct).
Proof using Hmax.
  intros H0 Hl. destruct (blocks_ok nb rt ct H0 Hl) as [E1 E2]. unfold tilize. rewrite E1, res_bind_ret, E2. unfold TILE_HEIGHT, TILE_WIDTH.
  rewrite !Nat2Z.inj_mul, !(Z.mul_comm (Z.of_nat 32)), !Z.mod_mul by lia. cbn [Z.eqb andb check]. rewrite res_bind_ret. rewrite !(Z.mul_comm _ (Z.of_nat 32)), <- !Nat2Z.inj_mul.
  rewrite <- (app_nil_l (tilized _ _ _)).
  apply (carry_loop (tilize_block v (Z.of_nat (32 * rt)) (Z.of_nat (32 * ct))) _ (fun s => u32 (s + Z.of_nat (32 * rt * (32 * ct)))) 0 (32 * rt * (32 * ct)) nb).
  - intros b o Hb. apply tilize_block_ok. nia.
  - intros b Hb. rewrite u32_small by (pow2; nia). lia.
Qed.

(** ** Back *)

Definition line (s ct : nat) : list Z := flat_map (fun c => flat_map (fun q => seg (s + c * 1024 + q * 256) 16) (seq 0 2)) (seq 0 ct).
Definition untilized (nb rt ct : nat) : list Z :=
  let n := (32 * ct)%nat in let m := (32 * rt)%nat in
  flat_map (fun b => flat_map (fun r => flat_map (fun p => flat_map (fun i => line (b * (m * n) + r * (32 * n) + p * 512 + i * 16) ct) (seq 0 16)) (seq 0 2)) (seq 0 rt)) (seq 0 nb).

Lemma untilize_line_ok (ct s : nat) out : (s + 1024 * ct <= length v + 752)%nat ->
  untilize_line v FACE_HEIGHT FACE_WIDTH (Z.of_nat ct) (Z.of_nat s) out = Ok (out ++ line s ct).
Proof using Hmax.
  intros H. unfold untilize_line, FACE_HEIGHT, FACE_WIDTH. rewrite (fold_res_ext _ (fun _ '(s, out) =>
    out ← (out ← fold_res (fun k => push_from v (u32 (s + k))) (zrange 0 (Z.of_nat 16)) out; fold_res (fun k => push_from v (u32 (u32 (s + 16 * 16) + k))) (zrange 0 (Z.of_nat 16)) out);
    mret (u32 (u32 (s + 16 * 16) + 16 * 16 * 3), out))).
  - apply (carry_loop _ (fun c => flat_map (fun q => seg (s + c * 1024 + q * 256) 16) (seq 0 2)) (fun s => u32 (u32 (s + 16 * 16) + 16 * 16 * 3)) s 1024 ct).
    + intros c o Hc. rewrite push_seg, res_bind_ret by nia. rewrite u32_small by (pow2; nia). replace (Z.of_nat (s + c * 1024) + 16 * 16) with (Z.of_nat (s + c * 1024 + 1 * 256)) by lia.
      rewrite push_seg by nia. cbn [flat_map seq]. by rewrite app_nil_r, <- app_assoc, Nat.mul_0_l, Nat.add_0_r.
    + intros c Hc. rewrite (u32_small (_ + 16 * 16)), u32_small by (pow2; nia). lia.
  - intros _ [s' o]. change (Z.of_nat 16) with 16. destruct (fold_res _ _ o); [|done]. rewrite !res_bind_ret. done.
Qed.

Lemma lines_ok (ct s : nat) out : (0 < ct)%nat -> (s + 1024 * ct <= length v + 512)%nat ->
  fold_res (fun i => untilize_line v FACE_HEIGHT FACE_WIDTH (Z.of_nat ct) (u32 (Z.of_nat s + i * FACE_WIDTH))) (zrange 0 FACE_HEIGHT) out =
    Ok (out ++ flat_map (fun i => line (s + i * 16) ct) (seq 0 16)).
Proof using Hmax.
  intros Hct H. destruct (fold_res_zrange (fun i o => o = out ++ flat_map (fun i => line (s + i * 16) ct) (seq 0 (Z.to_nat i)))
    (fun i => untilize_line v FACE_HEIGHT FACE_WIDTH (Z.of_nat ct) (u32 (Z.of_nat s + i * FACE_WIDTH))) 0 16 out) as (o & E & ->); [lia|by rewrite app_nil_r| |exact E].
  intros i o Hi ->. eexists. split; [|reflexivity]. unfold FACE_WIDTH at 2. replace (Z.of_nat s + i * 16) with (Z.of_nat (s + Z.to_nat i * 16)) by lia.
  rewrite u32_small by (pow2; lia). rewrite untilize_line_ok by lia.
  replace (Z.to_nat (i + 1)) with (S (Z.to_nat i)) by lia. rewrite seq_S, flat_map_app. cbn [flat_map Nat.add]. by rewrite app_nil_r, app_assoc.
Qed.

Lemma untilize_row_ok (ct s : nat) out : let n := (32 * ct)%nat in (0 < ct)%nat -> (s + 32 * n <= length v)%nat ->
  untilize_row v FACE_HEIGHT FACE_WIDTH (Z.of_nat s) TILE_WIDTH (Z.of_nat n) out =
    Ok (out ++ flat_map (fun p => flat_map (fun i => line (s + p * 512 + i * 16) ct) (seq 0 16)) (seq 0 2)).
Proof using Hmax.
  intros n Hct H. unfold untilize_row. replace (Z.of_nat n / TILE_WIDTH) with (Z.of_nat ct) by (unfold TILE_WIDTH; apply Z.div_unique_exact; lia).
  apply (carry_loop (fun s => fold_res (fun i => untilize_line v FACE_HEIGHT FACE_WIDTH (Z.of_nat ct) (u32 (s + i * FACE_WIDTH))) (zrange 0 FACE_HEIGHT))
    (fun p => flat_map (fun i => line (s + p * 512 + i * 16) ct) (seq 0 16)) (fun s => u32 (s + FACE_HEIGHT * FACE_WIDTH * 2)) s 512 2).
  - intros p o Hp. apply lines_ok; lia.
  - intros p Hp. unfold FACE_HEIGHT, FACE_WIDTH. rewrite u32_small by (pow2; lia). lia.
Qed.

Lemma untilize_block_ok (rt ct s : nat) out : let n := (32 * ct)%nat in (0 < ct)%nat -> (s + rt * (32 * n) <= length v)%nat ->
  untilize_block v (Z.of_nat (32 * rt)) (Z.of_nat n) (Z.of_nat s) out =
    Ok (out ++ flat_map (fun r => flat_map (fun p => flat_map (fun i => line (s + r * (32 * n) + p * 512 + i * 16) ct) (seq 0 16)) (seq 0 2)) (seq 0 rt)).
Proof using Hmax.
  intros n Hct H. unfold untilize_block, TILE_HEIGHT. replace (Z.of_nat (32 * rt) / 32) with (Z.of_nat rt) by (apply Z.div_unique_exact; lia).
  apply (carry_loop (fun s => untilize_row v FACE_HEIGHT FACE_WIDTH s TILE_WIDTH (Z.of_nat n))
    (fun r => flat_map (fun p => flat_map (fun i => line (s + r * (32 * n) + p * 512 + i * 16) ct) (seq 0 16)) (seq 0 2)) (fun s => u32 (s + u32 (32 * Z.of_nat n))) s (32 * n) rt).
  - intros r o Hr. apply untilize_row_ok; [done|nia].
  - intros r Hr. assert (S r * (32 * n) <= rt * (32 * n))%nat by nia. rewrite (u32_small (32 * _)), u32_small by (pow2; nia). lia.
Qed.

Lemma untilize_ok nb rt ct : (0 < length v)%nat -> length v = (nb * (32 * rt * (32 * ct)))%nat -> untilize v (Z.of_nat (32 * rt)) (Z.of_nat (32 * ct)) = Ok (untilized nb rt ct).
Proof using Hmax.
  intros H0 Hl. destruct (blocks_ok nb rt ct H0 Hl) as [E1 E2]. assert (0 < ct)%nat as Hct by (destruct ct; lia). unfold untilize. rewrite E1, res_bind_ret, E2. unfold TILE_HEIGHT, TILE_WIDTH.
  rewrite !Nat2Z.inj_mul, !(Z.mul_comm (Z.of_nat 32)), !Z.mod_mul by lia. cbn [Z.eqb andb check]. rewrite res_bind_ret. rewrite !(Z.mul_comm _ (Z.of_nat 32)), <- !Nat2Z.inj_mul.
  rewrite <- (app_nil_l (untilized _ _ _)).
  apply (carry_loop (untilize_block v (Z.of_nat (32 * rt)) (Z.of_nat (32 * ct))) _ (fun s => u32 (s + Z.of_nat (32 * rt * (32 * ct)))) 0 (32 * rt * (32 * ct)) nb).
  - intros b o Hb. apply untilize_block_ok; [done|nia].
  - intros b Hb. rewrite u32_small by (pow2; nia). lia.
Qed.

(** ** The contents *)

Lemma seg_ok s : (s + 16 <= length v)%nat -> length (seg s 16) = 16%nat /\ forall j, (j < 16)%nat -> seg s 16 !! j = v !! (s + j)%nat.
Proof using Hmax. intros H. unfold seg. split; [rewrite length_take, length_drop; lia|]. intros j Hj. by rewrite lookup_take_lt, lookup_drop. Qed.

Lemma flat_seq (f : nat -> list Z) A B : (forall a, (a < A)%nat -> length (f a) = B) ->
  length (flat_map f (seq 0 A)) = (A * B)%nat /\ forall i y, (i < A)%nat -> (y < B)%nat -> flat_map f (seq 0 A) !! (i * B + y)%nat = f i !! y.
Proof using Hmax.
  intros H. assert (forall a, a ∈ seq 0 A -> length (f a) = B) as Hs by (intros a Ha%list_elem_of_In%in_seq; apply H; lia). split.
  - by rewrite (length_flat_map_const f B), length_seq.
  - intros i y Hi Hy. apply lookup_flat_map_const; [done|by rewrite lookup_seq_lt|done].
Qed.

Lemma face_ok n s : (s + 15 * n + 16 <= length v)%nat ->
  length (face n s) = 256%nat /\ forall i j, (i < 16)%nat -> (j < 16)%nat -> face n s !! (i * 16 + j)%nat = v !! (s + i * n + j)%nat.
Proof using Hmax.
  intros H. destruct (flat_seq (fun i => seg (s + i * n) 16) 16 16) as [L E]; [intros i Hi; apply seg_ok; nia|]. split; [exact L|].
  intros i j Hi Hj. unfold face. rewrite E by done. apply seg_ok; nia.
Qed.

Lemma tile_ok n s : (16 <= n)%nat -> (s + 31 * n + 32 <= length v)%nat ->
  length (tile n s) = 1024%nat /\ forall p q i j, (p < 2)%nat -> (q < 2)%nat -> (i < 16)%nat -> (j < 16)%nat ->
    tile n s !! (p * 512 + (q * 256 + (i * 16 + j)))%nat = v !! (s + p * (16 * n) + q * 16 + i * n + j)%nat.
Proof using Hmax.
  intros Hn H. assert (forall p q, (p < 2)%nat -> (q < 2)%nat -> (s + p * (16 * n) + q * 16 + 15 * n + 16 <= length v)%nat) as Hb by (intros; nia).
  assert (forall p, (p < 2)%nat -> length (flat_map (fun q => face n (s + p * (16 * n) + q * 16)) (seq 0 2)) = 512%nat /\
    forall q y, (q < 2)%nat -> (y < 256)%nat -> flat_map (fun q => face n (s + p * (16 * n) + q * 16)) (seq 0 2) !! (q * 256 + y)%nat = face n (s + p * (16 * n) + q * 16) !! y) as Hp
    by (intros p Hp; apply (flat_seq _ 2 256); intros q Hq; apply face_ok, Hb; done).
  destruct (flat_seq (fun p => flat_map (fun q => face n (s + p * (16 * n) + q * 16)) (seq 0 2)) 2 512) as [L E]; [intros p ?; by apply Hp|]. split; [exact L|].
  intros p q i j ? ? ? ?. unfold tile. rewrite E by lia. rewrite (proj2 (Hp p ltac:(done))) by lia. apply face_ok; [by apply Hb|done|done].
Qed.
(** ** Places *)

(** A place in the matrices: matrix [b], tile [r, c], face [p, q], row and column [i, j]
    of the face. *)
Record place := mkPlace { pb : nat; pr : nat; pc : nat; pp : nat; pq : nat; pi : nat; pj : nat }.
Definition place_in (nb rt ct : nat) (x : place) : Prop :=
  (pb x < nb /\ pr x < rt /\ pc x < ct /\ pp x < 2 /\ pq x < 2 /\ pi x < 16 /\ pj x < 16)%nat.

(** Its index in row-major order and in tiles. *)
Definition row_index (rt ct : nat) (x : place) : nat :=
  ((((((pb x * rt + pr x) * 2 + pp x) * 16 + pi x) * ct + pc x) * 2 + pq x) * 16 + pj x)%nat.
Definition tile_index (rt ct : nat) (x : place) : nat :=
  ((((((pb x * rt + pr x) * ct + pc x) * 2 + pp x) * 2 + pq x) * 16 + pi x) * 16 + pj x)%nat.

Lemma tilized_ok nb rt ct : length v = (nb * (32 * rt * (32 * ct)))%nat ->
  length (tilized nb rt ct) = length v /\ forall x, place_in nb rt ct x -> tilized nb rt ct !! tile_index rt ct x = v !! row_index rt ct x.
Proof using Hmax.
  intros Hl. set (n := (32 * ct)%nat). set (base := fun b r => (b * (32 * rt * n) + r * (32 * n))%nat).
  assert (forall b r, (b < nb)%nat -> (r < rt)%nat -> (base b r + 32 * n <= length v)%nat) as Hb.
  { intros b r H1 H2. unfold base. rewrite Hl. fold n. assert (S r * (32 * n) <= rt * (32 * n))%nat by nia. assert (S b * (32 * rt * n) <= nb * (32 * rt * n))%nat by nia. lia. }
  assert (forall b r, (b < nb)%nat -> (r < rt)%nat -> forall c, (c < ct)%nat -> (16 <= n)%nat /\ (base b r + c * 32 + 31 * n + 32 <= length v)%nat) as Hc
    by (intros b r H1 H2 c H3; specialize (Hb b r H1 H2); unfold n in *; lia).
  pose proof (fun b r H1 H2 => flat_seq (fun c => tile n (base b r + c * 32)) ct 1024 (fun c H3 => proj1 (tile_ok n _ (proj1 (Hc b r H1 H2 c H3)) (proj2 (Hc b r H1 H2 c H3))))) as F1.
  pose proof (fun b H1 => flat_seq (fun r => flat_map (fun c => tile n (base b r + c * 32)) (seq 0 ct)) rt (ct * 1024) (fun r H2 => proj1 (F1 b r H1 H2))) as F2.
  destruct (flat_seq (fun b => flat_map (fun r => flat_map (fun c => tile n (base b r + c * 32)) (seq 0 ct)) (seq 0 rt)) nb (rt * (ct * 1024)) (fun b H1 => proj1 (F2 b H1))) as [L E].
  split; [etransitivity; [exact L|rewrite Hl; lia]|]. intros x (H1 & H2 & H3 & H4 & H5 & H6 & H7).
  destruct x as [b r c p q i j]. cbn [pb pr pc pp pq pi pj] in *. unfold tile_index, row_index. cbn [pb pr pc pp pq pi pj].
  replace (((((((b * rt + r) * ct + c) * 2 + p) * 2 + q) * 16 + i) * 16 + j))%nat with (b * (rt * (ct * 1024)) + (r * (ct * 1024) + (c * 1024 + (p * 512 + (q * 256 + (i * 16 + j))))))%nat by lia.
  assert (p * 512 + (q * 256 + (i * 16 + j)) < 1024)%nat as B1 by lia. assert (c * 1024 + (p * 512 + (q * 256 + (i * 16 + j))) < ct * 1024)%nat as B2 by nia.
  assert (r * (ct * 1024) + (c * 1024 + (p * 512 + (q * 256 + (i * 16 + j)))) < rt * (ct * 1024))%nat as B3 by nia.
  etransitivity; [exact (E b _ H1 B3)|]. etransitivity; [exact (proj2 (F2 b H1) r _ H2 B2)|]. etransitivity; [exact (proj2 (F1 b r H1 H2) c _ H3 B1)|].
  destruct (Hc b r H1 H2 c H3) as [C1 C2]. rewrite (proj2 (tile_ok n _ C1 C2)) by done. f_equal. unfold base, n. lia.
Qed.

Lemma line_ok ct s : (s + 1024 * ct <= length v + 752)%nat ->
  length (line s ct) = (ct * 32)%nat /\ forall c q j, (c < ct)%nat -> (q < 2)%nat -> (j < 16)%nat -> line s ct !! (c * 32 + (q * 16 + j))%nat = v !! (s + c * 1024 + q * 256 + j)%nat.
Proof using Hmax.
  intros H. pose proof (fun c (H1 : (c < ct)%nat) => flat_seq (fun q => seg (s + c * 1024 + q * 256) 16) 2 16 (fun q (H2 : (q < 2)%nat) => proj1 (seg_ok (s + c * 1024 + q * 256) ltac:(lia)))) as F1.
  destruct (flat_seq (fun c => flat_map (fun q => seg (s + c * 1024 + q * 256) 16) (seq 0 2)) ct 32 (fun c H1 => proj1 (F1 c H1))) as [L E]. split; [exact L|].
  intros c q j H1 H2 H3. etransitivity; [exact (E c (q * 16 + j)%nat H1 ltac:(lia))|]. etransitivity; [exact (proj2 (F1 c H1) q j H2 H3)|]. apply seg_ok; lia.
Qed.

Lemma untilized_ok nb rt ct : length v = (nb * (32 * rt * (32 * ct)))%nat ->
  length (untilized nb rt ct) = length v /\ forall x, place_in nb rt ct x -> untilized nb rt ct !! row_index rt ct x = v !! tile_index rt ct x.
Proof using Hmax.
  intros Hl. set (n := (32 * ct)%nat). set (base := fun b r => (b * (32 * rt * n) + r * (32 * n))%nat).
  assert (forall b r, (b < nb)%nat -> (r < rt)%nat -> (base b r + 32 * n <= length v)%nat) as Hb.
  { intros b r H1 H2. unfold base. rewrite Hl. fold n. assert (S r * (32 * n) <= rt * (32 * n))%nat by nia. assert (S b * (32 * rt * n) <= nb * (32 * rt * n))%nat by nia. lia. }
  assert (forall b r, (b < nb)%nat -> (r < rt)%nat -> forall p, (p < 2)%nat -> forall i, (i < 16)%nat -> (base b r + p * 512 + i * 16 + 1024 * ct <= length v + 752)%nat) as Hc
    by (intros b r H1 H2 p H3 i H4; specialize (Hb b r H1 H2); unfold n in *; lia).
  pose proof (fun b r H1 H2 p H3 => flat_seq (fun i => line (base b r + p * 512 + i * 16) ct) 16 (ct * 32) (fun i H4 => proj1 (line_ok ct _ (Hc b r H1 H2 p H3 i H4)))) as F0.
  pose proof (fun b r H1 H2 => flat_seq (fun p => flat_map (fun i => line (base b r + p * 512 + i * 16) ct) (seq 0 16)) 2 (16 * (ct * 32)) (fun p H3 => proj1 (F0 b r H1 H2 p H3))) as F1.
  pose proof (fun b H1 => flat_seq (fun r => flat_map (fun p => flat_map (fun i => line (base b r + p * 512 + i * 16) ct) (seq 0 16)) (seq 0 2)) rt (2 * (16 * (ct * 32))) (fun r H2 => proj1 (F1 b r H1 H2))) as F2.
  destruct (flat_seq (fun b => flat_map (fun r => flat_map (fun p => flat_map (fun i => line (base b r + p * 512 + i * 16) ct) (seq 0 16)) (seq 0 2)) (seq 0 rt)) nb
    (rt * (2 * (16 * (ct * 32)))) (fun b H1 => proj1 (F2 b H1))) as [L E].
  split; [etransitivity; [exact L|rewrite Hl; lia]|]. intros x (H1 & H2 & H3 & H4 & H5 & H6 & H7).
  destruct x as [b r c p q i j]. cbn [pb pr pc pp pq pi pj] in *. unfold tile_index, row_index. cbn [pb pr pc pp pq pi pj].
  replace ((((((b * rt + r) * 2 + p) * 16 + i) * ct + c) * 2 + q) * 16 + j)%nat
    with (b * (rt * (2 * (16 * (ct * 32)))) + (r * (2 * (16 * (ct * 32))) + (p * (16 * (ct * 32)) + (i * (ct * 32) + (c * 32 + (q * 16 + j))))))%nat by lia.
  assert (c * 32 + (q * 16 + j) < ct * 32)%nat as B0 by nia. assert (i * (ct * 32) + (c * 32 + (q * 16 + j)) < 16 * (ct * 32))%nat as B1 by nia.
  assert (p * (16 * (ct * 32)) + (i * (ct * 32) + (c * 32 + (q * 16 + j))) < 2 * (16 * (ct * 32)))%nat as B2 by nia.
  assert (r * (2 * (16 * (ct * 32))) + (p * (16 * (ct * 32)) + (i * (ct * 32) + (c * 32 + (q * 16 + j)))) < rt * (2 * (16 * (ct * 32))))%nat as B3 by nia.
  etransitivity; [exact (E b _ H1 B3)|]. etransitivity; [exact (proj2 (F2 b H1) r _ H2 B2)|]. etransitivity; [exact (proj2 (F1 b r H1 H2) p _ H4 B1)|].
  etransitivity; [exact (proj2 (F0 b r H1 H2 p H4) i _ H6 B0)|]. rewrite (proj2 (line_ok ct _ (Hc b r H1 H2 p H4 i H6))) by done. f_equal. unfold base, n. lia.
Qed.
End Loops.

(** Every index is one of a place. *)
Lemma split_index k A B : (k < A * B)%nat -> exists a b, (a < A)%nat /\ (b < B)%nat /\ k = (a * B + b)%nat.
Proof.
  intros H. assert (B <> 0)%nat by lia. exists (k / B)%nat, (k mod B)%nat. split_and!.
  - by apply Nat.Div0.div_lt_upper_bound; lia.
  - by apply Nat.mod_upper_bound.
  - rewrite Nat.mul_comm. by apply Nat.div_mod.
Qed.

Lemma row_index_all nb rt ct k : (k < nb * (32 * rt * (32 * ct)))%nat -> exists x, place_in nb rt ct x /\ k = row_index rt ct x.
Proof.
  intros H. destruct (split_index k (nb * rt * 2 * 16 * ct * 2) 16 ltac:(lia)) as (k1 & j & Hk1 & Hj & ->). destruct (split_index k1 _ _ Hk1) as (k2 & q & Hk2 & Hq & ->).
  destruct (split_index k2 _ _ Hk2) as (k3 & c & Hk3 & Hc & ->). destruct (split_index k3 _ _ Hk3) as (k4 & i & Hk4 & Hi & ->).
  destruct (split_index k4 _ _ Hk4) as (k5 & p & Hk5 & Hp & ->). destruct (split_index k5 _ _ Hk5) as (b & r & Hb & Hr & ->). by exists (mkPlace b r c p q i j).
Qed.

Lemma tile_index_all nb rt ct k : (k < nb * (32 * rt * (32 * ct)))%nat -> exists x, place_in nb rt ct x /\ k = tile_index rt ct x.
Proof.
  intros H. destruct (split_index k (nb * rt * ct * 2 * 2 * 16) 16 ltac:(lia)) as (k1 & j & Hk1 & Hj & ->). destruct (split_index k1 _ _ Hk1) as (k2 & i & Hk2 & Hi & ->).
  destruct (split_index k2 _ _ Hk2) as (k3 & q & Hk3 & Hq & ->). destruct (split_index k3 _ _ Hk3) as (k4 & p & Hk4 & Hp & ->).
  destruct (split_index k4 _ _ Hk4) as (k5 & c & Hk5 & Hc & ->). destruct (split_index k5 _ _ Hk5) as (b & r & Hb & Hr & ->). by exists (mkPlace b r c p q i j).
Qed.

(** ** Theorems *)

(** C33: [tilize] and [untilize] are inverse to each other on matrices whose sides are
    multiples of 32, and [tilize] puts the element of row [i] and column [j] of face
    [p, q] of tile [r, c] of a matrix where tiles have it; neither fails. *)
Theorem tilize_untilize v nb rt ct :
  (0 < length v)%nat -> length v = (nb * (32 * rt * (32 * ct)))%nat -> Z.of_nat (length v) < 2 ^ 32 ->
  let m := Z.of_nat (32 * rt) in let n := Z.of_nat (32 * ct) in
  (exists t, tilize v m n = Ok t /\ untilize t m n = Ok v /\ forall x, place_in nb rt ct x -> t !! tile_index rt ct x = v !! row_index rt ct x) /\
  (exists u, untilize v m n = Ok u /\ tilize u m n = Ok v).
Proof.
  intros H0 Hl Hmax m n. destruct (tilized_ok v Hmax nb rt ct Hl) as [Lt Et]. destruct (untilized_ok v Hmax nb rt ct Hl) as [Lu Eu]. split.
  - exists (tilized v nb rt ct). split; [by apply tilize_ok|]. split; [|exact Et]. unfold m, n. rewrite (untilize_ok (tilized v nb rt ct) ltac:(by rewrite Lt) nb) by congruence. f_equal.
    destruct (untilized_ok (tilized v nb rt ct) ltac:(by rewrite Lt) nb rt ct ltac:(congruence)) as [L E]. apply (list_eq_same_length _ _ (length v)); [done|congruence|].
    intros k x y Hk Hx Hy. rewrite Hl in Hk. destruct (row_index_all nb rt ct k Hk) as (z & Hz & ->). rewrite E, Et, Hy in Hx by done. congruence.
  - exists (untilized v nb rt ct). split; [by apply untilize_ok|]. unfold m, n. rewrite (tilize_ok (untilized v nb rt ct) ltac:(by rewrite Lu) nb) by congruence. f_equal.
    destruct (tilized_ok (untilized v nb rt ct) ltac:(by rewrite Lu) nb rt ct ltac:(congruence)) as [L E]. apply (list_eq_same_length _ _ (length v)); [done|congruence|].
    intros k x y Hk Hx Hy. rewrite Hl in Hk. destruct (tile_index_all nb rt ct k Hk) as (z & Hz & ->). rewrite E, Eu, Hy in Hx by done. congruence.
Qed.

(** One tile that counts its elements. *)
Lemma tilize_untilize_witness : exists t, tilize (map Z.of_nat (seq 0 1024)) 32 32 = Ok t /\ untilize t 32 32 = Ok (map Z.of_nat (seq 0 1024)) /\ t !! 256%nat = Some 16.
Proof.
  destruct (tilize_untilize (map Z.of_nat (seq 0 1024)) 1 1 1) as [(t & E1 & E2 & E3) _].
  - vm_compute. apply le_n_S, Nat.le_0_l.
  - vm_compute. reflexivity.
  - vm_compute. reflexivity.
  - exists t. split; [exact E1|]. split; [exact E2|]. transitivity (t !! tile_index 1 1 (mkPlace 0 0 0 0 1 0 0)); [reflexivity|].
    rewrite E3 by (unfold place_in; cbn [pb pr pc pp pq pi pj]; lia). vm_compute. reflexivity.
Defined.
