(* ===== verification/CompletionCopy.v ===== *)
(** * Reading the completion queue into user memory
    (HWCommandQueue::copy_into_user_space, tt_metal/impl/dispatch/command_queue.cpp)

    The device sends the pages of a buffer behind the command that asked for them, in
    transfer pages.  The reader thread takes whatever part has arrived: a page of the
    buffer may start in one part and end in a later one, and the padding behind it may
    be cut as well. *)

From S2P Require Import Prelude Memory WorkSplit SystemMemory Buffers BufferIO.

(** sizeof(CQDispatchCmd): the command precedes the data. *)
Definition sizeof_CQDispatchCmd : Z := 16.

Record ReadBufferDescriptor := mkReadBuffer {
  rb_page_size : Z;
  rb_padded_page_size : Z;
  rb_mapping : option BufferPageMapping;
  rb_dst_offset : Z;
  rb_num_pages_read : Z;
  rb_cur_dev_page_id : Z;
}.

(** The local variables of the function, and the user's memory from [dst] on. *)
Record Reader := mkReader {
  contig_dst_offset : Z;
  remaining_bytes_to_read : Z;
  dev_page_id : Z;
  remaining_bytes_of_nonaligned_page : Z;
  host_page_id : option Z;
  offset_in_completion_q_data : Z;
  user : list Z;
}.

Definition Reader_new (d : ReadBufferDescriptor) (user : list Z) : Reader :=
  mkReader (rb_dst_offset d) (u32 (rb_num_pages_read d * rb_padded_page_size d + sizeof_CQDispatchCmd)) (rb_cur_dev_page_id d) 0 None
    sizeof_CQDispatchCmd user.

Definition set_contig (v : Z) (r : Reader) : Reader :=
  mkReader v (remaining_bytes_to_read r) (dev_page_id r) (remaining_bytes_of_nonaligned_page r) (host_page_id r) (offset_in_completion_q_data r) (user r).
Definition set_to_read (v : Z) (r : Reader) : Reader :=
  mkReader (contig_dst_offset r) v (dev_page_id r) (remaining_bytes_of_nonaligned_page r) (host_page_id r) (offset_in_completion_q_data r) (user r).
Definition set_dev_page (v : Z) (r : Reader) : Reader :=
  mkReader (contig_dst_offset r) (remaining_bytes_to_read r) v (remaining_bytes_of_nonaligned_page r) (host_page_id r) (offset_in_completion_q_data r) (user r).
Definition set_rest (v : Z) (r : Reader) : Reader :=
  mkReader (contig_dst_offset r) (remaining_bytes_to_read r) (dev_page_id r) v (host_page_id r) (offset_in_completion_q_data r) (user r).
Definition set_host_page (v : option Z) (r : Reader) : Reader :=
  mkReader (contig_dst_offset r) (remaining_bytes_to_read r) (dev_page_id r) (remaining_bytes_of_nonaligned_page r) v (offset_in_completion_q_data r) (user r).
Definition set_offset (v : Z) (r : Reader) : Reader :=
  mkReader (contig_dst_offset r) (remaining_bytes_to_read r) (dev_page_id r) (remaining_bytes_of_nonaligned_page r) (host_page_id r) v (user r).
Definition set_user (v : list Z) (r : Reader) : Reader :=
  mkReader (contig_dst_offset r) (remaining_bytes_to_read r) (dev_page_id r) (remaining_bytes_of_nonaligned_page r) (host_page_id r) (offset_in_completion_q_data r) v.

(** [while (cond) body]. *)
Fixpoint while_res {S} (fuel : nat) (cond : S -> bool) (body : S -> res S) (s : S) : res S :=
  if cond s then match fuel with O => Err OutOfFuel | S fuel => s ← body s; while_res fuel cond body s end else mret s.

Section Copy.
(** Host memory (Cluster::read_sysmem), what is read, and where the part at hand is. *)
Context (sysmem : Z -> Z) (d : ReadBufferDescriptor) (completion_q_read_ptr bytes_xfered : Z).

Abbreviation page_size := (rb_page_size d).
Abbreviation padded_page_size := (rb_padded_page_size d).

Definition pad_size_bytes : Z := u32 (padded_page_size - page_size).

Definition read_queue (offset n : Z) : list Z := read_mem sysmem (u32 (completion_q_read_ptr + offset)) n.

(** *** Pages without padding, all in a row *)

Definition copy_contiguous (r : Reader) : res Reader :=
  let data_bytes_xfered := u32 (bytes_xfered - offset_in_completion_q_data r) in
  user ← host_store (contig_dst_offset r) (read_queue (offset_in_completion_q_data r) data_bytes_xfered) (user r);
  mret (set_contig (u32 (contig_dst_offset r + data_bytes_xfered)) (set_offset 0 (set_user user r))).

(** *** Padded pages, all in a row *)

(** What the three cases of the loops have in common: the bytes to copy, the step in the
    queue, and what is left of the page. *)
Definition next_bytes (src_offset_bytes : Z) (r : Reader) : Z * Z * Reader :=
  let num_bytes_remaining := u32 (bytes_xfered - src_offset_bytes) in
  if 0 <? remaining_bytes_of_nonaligned_page r then
    let num_bytes_to_copy := Z.min (remaining_bytes_of_nonaligned_page r) num_bytes_remaining in
    let r := set_rest (remaining_bytes_of_nonaligned_page r - num_bytes_to_copy) r in
    if remaining_bytes_of_nonaligned_page r =? 0 then
      let rem_bytes_in_cq := num_bytes_remaining - num_bytes_to_copy in
      if pad_size_bytes <=? rem_bytes_in_cq
      then (num_bytes_to_copy, u32 (num_bytes_to_copy + pad_size_bytes), r)
      else (num_bytes_to_copy, num_bytes_to_copy, set_offset (pad_size_bytes - rem_bytes_in_cq) r)
    else (num_bytes_to_copy, num_bytes_to_copy, r)
  else if bytes_xfered <=? u32 (src_offset_bytes + padded_page_size) then
    let num_bytes_to_copy := Z.min num_bytes_remaining page_size in
    let r := set_rest (page_size - num_bytes_to_copy) r in
    (num_bytes_to_copy, padded_page_size,
      if remaining_bytes_of_nonaligned_page r =? 0 then set_offset (u32 (padded_page_size - num_bytes_remaining)) r else r)
  else (page_size, padded_page_size, r).

Record Ragged := mkRagged { src_offset : Z; dst_offset : Z; ragged : Reader }.

Definition ragged_step (contiguous_dst : Z) (st : Ragged) : res Ragged :=
  let '(num_bytes_to_copy, src_offset_increment, r) := next_bytes (src_offset st) (ragged st) in
  user ← host_store (contiguous_dst + dst_offset st) (read_queue (src_offset st) num_bytes_to_copy) (user r);
  mret (mkRagged (u32 (src_offset st + src_offset_increment)) (u32 (dst_offset st + num_bytes_to_copy))
    (set_contig (u32 (contig_dst_offset r + num_bytes_to_copy)) (set_user user r))).

Definition copy_ragged (r : Reader) : res Reader :=
  st ← while_res (Z.to_nat bytes_xfered) (fun st => src_offset st <? bytes_xfered) (ragged_step (contig_dst_offset r))
    (mkRagged (offset_in_completion_q_data r) 0 (set_offset 0 r));
  mret (ragged st).

(** *** Pages of a shard, each to its place *)

Record Mapped := mkMapped { m_src_offset : Z; dst_offset_bytes : Z; num_bytes_to_copy : Z; mapped : Reader }.

Definition mapped_step (m : BufferPageMapping) (st : Mapped) : res Mapped :=
  let src := m_src_offset st in let r := mapped st in
  let '(num, increment, r') := next_bytes src r in
  (** Where the page goes: a page at hand goes on, a new one is looked up. *)
  '(r', dst) ← (if 0 <? remaining_bytes_of_nonaligned_page r then
      let r' := if remaining_bytes_of_nonaligned_page r' =? 0 then set_dev_page (u32 (dev_page_id r' + 1)) r' else r' in
      let r' := if (remaining_bytes_of_nonaligned_page r' =? 0) && (pad_size_bytes <=? u32 (bytes_xfered - src) - num) then set_offset 0 r' else r' in
      mret (r', dst_offset_bytes st)
    else
      host ← at_ (dev_page_to_host_page_mapping_ m) (dev_page_id r);
      let r' := set_host_page host r' in
      let r' := if remaining_bytes_of_nonaligned_page r' =? 0 then set_dev_page (u32 (dev_page_id r' + 1)) r' else r' in
      mret (r', match host with Some h => u32 (h * page_size) | None => dst_offset_bytes st end));
  match host_page_id r' with
  | None => mret (mkMapped (u32 (src + increment)) dst num r')
  | Some _ =>
      user ← host_store dst (read_queue src num) (user r');
      mret (mkMapped (u32 (src + increment)) dst num (set_user user r'))
  end.

Definition copy_mapped (m : BufferPageMapping) (r : Reader) : res Reader :=
  st ← while_res (Z.to_nat bytes_xfered) (fun st => m_src_offset st <? bytes_xfered) (mapped_step m)
    (mkMapped (offset_in_completion_q_data r) (contig_dst_offset r) 0 (set_offset 0 r));
  mret (set_contig (u32 (dst_offset_bytes st + num_bytes_to_copy st)) (mapped st)).

(** The copies of one turn of the outer loop. *)
Definition copy_part (r : Reader) : res Reader :=
  match rb_mapping d with
  | None => if page_size =? padded_page_size then copy_contiguous r else copy_ragged r
  | Some m => copy_mapped m r
  end.
End Copy.

(** How much of what is still to come has arrived: up to the write pointer, or to the end
    of the queue where the device has gone on at its start. *)
Definition bytes_avail_in_completion_queue (limit write_ptr_and_toggle read_ptr read_toggle : Z) : Z :=
  let completion_q_write_ptr := u32 (Z.shiftl (Z.land write_ptr_and_toggle 0x7fffffff) 4) in
  let completion_q_write_toggle := Z.shiftr write_ptr_and_toggle 31 in
  if (read_ptr <? completion_q_write_ptr) && (completion_q_write_toggle =? read_toggle)
  then completion_q_write_ptr - read_ptr
  else u32 (limit - read_ptr).

(** One turn of the outer loop, and the pages that are popped after it. *)
Definition copy_turn (sysmem : Z -> Z) (d : ReadBufferDescriptor) (read_ptr avail : Z) (r : Reader) : res (Z * Reader) :=
  let bytes_xfered := Z.min (remaining_bytes_to_read r) avail in
  num_pages_xfered ← div_up bytes_xfered TRANSFER_PAGE_SIZE;
  r ← copy_part sysmem d read_ptr bytes_xfered (set_to_read (remaining_bytes_to_read r - bytes_xfered) r);
  mret (num_pages_xfered, r).
