(* ===== verification/CompletionCopyProps.v ===== *)
(** * Reading the completion queue into user memory: lemmas

    One turn of copy_into_user_space, whatever part of the data has arrived. *)

From Stdlib Require Import Lia.
From S2P Require Import Prelude Memory WorkSplit SystemMemory Buffers BufferIO CompletionCopy.

(** ** Loops *)

Lemma while_res_ok {S} (I : S -> Prop) (mu : S -> Z) (cond : S -> bool) (body : S -> res S) fuel s :
  I s -> (forall s, I s -> cond s = true -> exists s', body s = Ok s' /\ I s' /\ 0 <= mu s' < mu s) -> mu s <= Z.of_nat fuel ->
  exists s', while_res fuel cond body s = Ok s' /\ I s' /\ cond s' = false.
Proof.
  intros Hi Hb. revert s Hi. induction fuel as [|fuel IH]; intros s Hi Hf; cbn [while_res]; destruct (cond s) eqn:Ec; try by exists s.
  - destruct (Hb s Hi Ec) as (s' & _ & _ & H). lia.
  - destruct (Hb s Hi Ec) as (s' & E & Hi' & H). rewrite E, res_bind_ret. apply IH; [done|lia].
Qed.

(** ** User memory *)

Definition put (a : Z) (bytes l : list Z) : list Z := take (Z.to_nat a) l ++ bytes ++ drop (Z.to_nat a + length bytes) l.

Lemma host_store_put a bytes l : 0 <= a -> a + Z.of_nat (length bytes) <= Z.of_nat (length l) -> host_store a bytes l = Ok (put a bytes l).
Proof.
  intros H1 H2. unfold host_store. rewrite (proj2 (Z.leb_le 0 a)), (proj2 (Z.leb_le _ _)) by done. cbn [andb check]. by rewrite res_bind_ret.
Qed.

Lemma length_put a bytes l : 0 <= a -> a + Z.of_nat (length bytes) <= Z.of_nat (length l) -> length (put a bytes l) = length l.
Proof. intros H1 H2. unfold put. rewrite !length_app, length_take, length_drop. lia. Qed.

Lemma put_nil a l : 0 <= a -> put a [] l = l.
Proof. intros H. unfold put. cbn [length app]. rewrite Nat.add_0_r. apply take_drop. Qed.

(** A store right behind another. *)
Lemma put_put a x y l : 0 <= a -> a + Z.of_nat (length x) + Z.of_nat (length y) <= Z.of_nat (length l) -> put (a + Z.of_nat (length x)) y (put a x l) = put a (x ++ y) l.
Proof.
  intros H1 H2. unfold put. replace (Z.to_nat (a + Z.of_nat (length x))) with (Z.to_nat a + length x)%nat by lia. set (n := Z.to_nat a) in *.
  assert (length (take n l) = n) as Hn by (rewrite length_take; lia).
  rewrite (app_assoc (take n l) x (drop _ l)). rewrite take_app_le, (take_ge (take n l ++ x)) by (rewrite length_app; lia). rewrite <- (app_assoc _ x), <- (app_assoc x). do 3 f_equal.
  rewrite drop_app_ge by (rewrite length_app; lia). rewrite drop_drop. f_equal. rewrite !length_app. lia.
Qed.

(** ** What is to arrive *)

Section Pages.
(** The descriptor; the stream of the command and the padded pages; the user's memory. *)
Context (d : ReadBufferDescriptor) (stream user0 : list Z).

Abbreviation page := (rb_page_size d).
Abbreviation padded := (rb_padded_page_size d).
Abbreviation N := (rb_num_pages_read d).

Definition seg (pos n : Z) : list Z := take (Z.to_nat n) (drop (Z.to_nat pos) stream).
Definition page_data (k : Z) : list Z := seg (sizeof_CQDispatchCmd + k * padded) page.

(** Where the bytes of page [k] go. *)
Definition place (k : Z) : option Z :=
  match rb_mapping d with
  | None => Some (rb_dst_offset d + k * page)
  | Some m => match dev_page_to_host_page_mapping_ m !! Z.to_nat (rb_cur_dev_page_id d + k) with Some (Some h) => Some (h * page) | _ => None end
  end.

Definition put_page (k n : Z) (l : list Z) : list Z := match place k with Some a => put a (take (Z.to_nat n) (page_data k)) l | None => l end.

(** The user's memory with the first [k] pages, and [n] bytes of the next one. *)
Definition delivered (k : Z) : list Z := foldl (fun l k => put_page k page l) user0 (zrange 0 k).
Definition partly (k n : Z) : list Z := put_page k n (delivered k).

Record stream_ok : Prop := mkStream {
  so_page : 0 < page <= padded;
  so_pages : 0 < N;
  so_length : Z.of_nat (length stream) = sizeof_CQDispatchCmd + N * padded;
  so_small : sizeof_CQDispatchCmd + (N + 2) * padded < 2 ^ 32;
  so_user : Z.of_nat (length user0) < 2 ^ 32;
  so_fits : forall k a, 0 <= k < N -> place k = Some a -> 0 <= a /\ a + page <= Z.of_nat (length user0);
  so_mapped : forall m, rb_mapping d = Some m -> 0 <= rb_cur_dev_page_id d /\ rb_cur_dev_page_id d + N < 2 ^ 32 /\
    forall k, 0 <= k < N -> exists o, dev_page_to_host_page_mapping_ m !! Z.to_nat (rb_cur_dev_page_id d + k) = Some o /\ forall h, o = Some h -> 0 <= h;
}.
Hypothesis Hok : stream_ok.

Lemma length_seg pos n : 0 <= pos -> 0 <= n -> pos + n <= Z.of_nat (length stream) -> length (seg pos n) = Z.to_nat n.
Proof using. intros. unfold seg. rewrite length_take, length_drop. lia. Qed.

Lemma stream_seg_app pos a b : 0 <= pos -> 0 <= a -> 0 <= b -> seg pos a ++ seg (pos + a) b = seg pos (a + b).
Proof using.
  intros. unfold seg. rewrite Z2Nat.inj_add, <- drop_drop by lia. rewrite take_take_drop. f_equal. lia.
Qed.

Lemma page_prefix k n : 0 <= k -> 0 <= n <= page -> take (Z.to_nat n) (page_data k) = seg (sizeof_CQDispatchCmd + k * padded) n.
Proof using. intros Hk Hn. unfold page_data, seg. rewrite take_take. f_equal. lia. Qed.

Lemma page_range k : 0 <= k < N -> 0 <= k * padded /\ k * padded + padded <= N * padded.
Proof using Hok. destruct Hok as [[? ?] ? ? ? ? ? ?]. intros. nia. Qed.

Lemma length_put_page k n l : 0 <= k < N -> 0 <= n <= page -> length l = length user0 -> length (put_page k n l) = length user0.
Proof using Hok.
  intros Hk Hn Hl. unfold put_page. destruct (place k) as [a|] eqn:E; [|done]. destruct (so_fits Hok k a Hk E) as [H1 H2]. pose proof (page_range k Hk). pose proof (so_length Hok).
  pose proof (so_page Hok). rewrite page_prefix by lia. rewrite length_put; [done|lia|]. rewrite length_seg by (unfold sizeof_CQDispatchCmd in *; lia). lia.
Qed.

Lemma delivered_S k : 0 <= k -> delivered (k + 1) = put_page k page (delivered k).
Proof using. intros Hk. unfold delivered. rewrite zrange_snoc, foldl_app by lia. done. Qed.

Lemma length_delivered k : 0 <= k <= N -> length (delivered k) = length user0.
Proof using Hok.
  intros [H1 H2]. revert H2. pattern k. apply natlike_ind; [done| |done]. intros x Hx IH Hle. rewrite <- Z.add_1_r, delivered_S by done. apply length_put_page; [lia|pose proof (so_page Hok); lia|apply IH; lia].
Qed.

Lemma length_partly k n : 0 <= k < N -> 0 <= n <= page -> length (partly k n) = length user0.
Proof using Hok. intros. apply length_put_page; [done|done|]. apply length_delivered. lia. Qed.

Lemma partly_0 k : 0 <= k < N -> partly k 0 = delivered k.
Proof using Hok. intros Hk. unfold partly, put_page. destruct (place k) as [a|] eqn:E; [|done]. destruct (so_fits Hok k a Hk E). by rewrite take_0, put_nil. Qed.

(** More of a page that has been begun. *)
Lemma partly_more k n b a : 0 <= k < N -> 0 <= n -> 0 <= b -> n + b <= page -> place k = Some a ->
  host_store (a + n) (seg (sizeof_CQDispatchCmd + k * padded + n) b) (partly k n) = Ok (partly k (n + b)).
Proof using Hok.
  intros Hk Hn Hb Hle E. destruct (so_fits Hok k a Hk E) as [H1 H2]. pose proof (page_range k Hk). pose proof (so_length Hok). pose proof (so_page Hok).
  assert (length (seg (sizeof_CQDispatchCmd + k * padded + n) b) = Z.to_nat b) as Lb by (apply length_seg; unfold sizeof_CQDispatchCmd in *; lia).
  assert (length (seg (sizeof_CQDispatchCmd + k * padded) n) = Z.to_nat n) as Ln by (apply length_seg; unfold sizeof_CQDispatchCmd in *; lia).
  rewrite host_store_put; [|lia|rewrite length_partly by lia; lia]. f_equal. unfold partly, put_page. rewrite E, !page_prefix by lia.
  rewrite <- (stream_seg_app _ n b) by (unfold sizeof_CQDispatchCmd; lia). rewrite <- put_put; [rewrite Ln; do 2 f_equal; lia|lia|]. rewrite length_delivered by lia. lia.
Qed.

Lemma partly_page k : 0 <= k -> partly k page = delivered (k + 1).
Proof using. intros. by rewrite delivered_S. Qed.

(** ** One part of the stream *)

Section Part.
(** The part of [bytes] bytes from [pos] on is in host memory. *)
Context (sysmem : Z -> Z) (rd_ptr pos bytes : Z).
Hypothesis Hmem : forall off n, 0 <= off -> 0 <= n -> off + n <= bytes -> read_queue sysmem rd_ptr off n = seg (pos + off) n.
Hypotheses (Hpos : 0 <= pos) (Hbytes : 0 < bytes) (Hend : pos + bytes <= sizeof_CQDispatchCmd + N * padded).

Abbreviation start k := (sizeof_CQDispatchCmd + k * padded).
Abbreviation rest := remaining_bytes_of_nonaligned_page.

(** The rest of a page that began in an earlier part. *)
Lemma next_half r off : 0 < off < page -> rest r = page - off -> offset_in_completion_q_data r = 0 -> ~ (page - off < bytes < padded - off) ->
  next_bytes d bytes 0 r =
    if decide (bytes < page - off) then (bytes, bytes, set_rest (page - off - bytes) r)
    else if decide (bytes = page - off) then (bytes, bytes, set_offset (padded - page) (set_rest 0 r))
    else (page - off, padded - off, set_rest 0 r).
Proof using Hok Hbytes Hend Hpos.
  intros Hoff Hr Ho Hx. pose proof (so_page Hok). pose proof (so_small Hok). pose proof (so_pages Hok). unfold sizeof_CQDispatchCmd in *. unfold next_bytes, pad_size_bytes.
  rewrite Z.sub_0_r, (u32_small bytes), (u32_small (padded - page)) by (pow2; nia). rewrite (proj2 (Z.ltb_lt _ _)) by lia.
  destruct (decide (bytes < page - off)).
  - rewrite Hr, Z.min_r by lia. cbn [remaining_bytes_of_nonaligned_page set_rest]. by rewrite (proj2 (Z.eqb_neq _ _)) by lia.
  - rewrite Hr, Z.min_l, Z.sub_diag by lia. cbn [remaining_bytes_of_nonaligned_page set_rest Z.eqb]. destruct (decide (bytes = page - off)) as [E|E].
    + rewrite E, Z.sub_diag, Z.sub_0_r. destruct (Z.leb_spec (padded - page) 0); [|done].
      replace (padded - page) with 0 by lia. rewrite Z.add_0_r, u32_small by (pow2; nia). f_equal. destruct r. cbn in Ho |- *. by rewrite Ho.
    + rewrite (proj2 (Z.leb_le _ _)) by lia. rewrite u32_small by (pow2; nia). do 2 f_equal. lia.
Qed.

(** A new page, whole or cut. *)
Lemma next_page r src : rest r = 0 -> 0 <= src < bytes ->
  next_bytes d bytes src r =
    if decide (bytes - src < page) then (bytes - src, padded, set_rest (page - (bytes - src)) r)
    else if decide (bytes - src <= padded) then (page, padded, set_offset (padded - (bytes - src)) (set_rest 0 r))
    else (page, padded, r).
Proof using Hok Hbytes Hend Hpos.
  intros Hr Hsrc. pose proof (so_page Hok). pose proof (so_small Hok). pose proof (so_pages Hok). unfold sizeof_CQDispatchCmd in *. unfold next_bytes.
  rewrite (u32_small (bytes - src)), (u32_small (src + padded)) by (pow2; nia). rewrite Hr. cbn [Z.ltb Z.compare].
  destruct (decide (bytes - src < page)); [|destruct (decide (bytes - src <= padded))].
  - rewrite (proj2 (Z.leb_le _ _)), Z.min_l by lia. cbn [remaining_bytes_of_nonaligned_page set_rest]. by rewrite (proj2 (Z.eqb_neq _ _)) by lia.
  - rewrite (proj2 (Z.leb_le _ _)), Z.min_r, Z.sub_diag by lia. cbn [remaining_bytes_of_nonaligned_page set_rest Z.eqb]. by rewrite u32_small by (pow2; nia).
  - by rewrite (proj2 (Z.leb_gt _ _)) by lia.
Qed.

(** *** Between parts *)

(** The reader between two pages, and within one. *)
Definition boundary (k : Z) (r : Reader) : Prop :=
  0 <= k <= N /\ rest r = 0 /\ user r = delivered k /\
  match rb_mapping d with None => contig_dst_offset r = rb_dst_offset d + k * page | Some _ => dev_page_id r = rb_cur_dev_page_id d + k end.
Definition halfway (k off : Z) (r : Reader) : Prop :=
  0 <= k < N /\ 0 < off < page /\ rest r = page - off /\ offset_in_completion_q_data r = 0 /\ user r = partly k off /\
  match rb_mapping d with
  | None => contig_dst_offset r = rb_dst_offset d + k * page + off
  | Some _ => dev_page_id r = rb_cur_dev_page_id d + k /\
      match place k with Some a => contig_dst_offset r = a + off /\ host_page_id r <> None | None => host_page_id r = None end
  end.

(** What the next part finds when it starts at [p]. *)
Definition ready (p : Z) (r : Reader) : Prop :=
  (exists k, boundary k r /\ 0 <= offset_in_completion_q_data r <= Z.max sizeof_CQDispatchCmd (padded - page) /\ p + offset_in_completion_q_data r = start k) \/
  (exists k off, halfway k off r /\ p = start k + off).

(** The transfer page does not end within the padding behind a page that began in an
    earlier part. *)
Definition padding_uncut (r : Reader) : Prop := forall k off, halfway k off r -> ~ (page - off < bytes < padded - off).

Lemma more k n b p a r :
  0 <= k < N -> 0 <= n -> 0 <= b -> n + b <= page -> place k = Some a -> p = start k + n -> 0 <= p - pos -> p - pos + b <= bytes -> user r = partly k n ->
  host_store (a + n) (read_queue sysmem rd_ptr (p - pos) b) (user r) = Ok (partly k (n + b)) /\ 0 <= a /\ a + page < 2 ^ 32.
Proof using All.
  intros Hk Hn Hb Hle E -> Hp1 Hp2 Hu. destruct (so_fits Hok k a Hk E). pose proof (so_user Hok). split; [|lia].
  rewrite Hmem, Hu by lia. replace (pos + (start k + n - pos)) with (start k + n) by lia. by apply partly_more.
Qed.

Section Ragged.
Hypothesis Hmap : rb_mapping d = None.

Lemma place_row k : place k = Some (rb_dst_offset d + k * page).
Proof using Hmap. unfold place. by rewrite Hmap. Qed.

Definition ragged_inv (base : Z) (st : Ragged) : Prop :=
  let r := ragged st in
  contig_dst_offset r = base + dst_offset st /\ 0 <= src_offset st /\ 0 <= base /\ 0 <= dst_offset st /\
  ((src_offset st <= bytes /\ exists k, boundary k r /\ offset_in_completion_q_data r = 0 /\ pos + src_offset st = start k) \/
   (src_offset st = 0 /\ exists k off, halfway k off r /\ pos = start k + off /\ ~ (page - off < bytes < padded - off)) \/
   (bytes <= src_offset st /\ ready (pos + bytes) r)).

(** The store of [b] bytes, [n] bytes into page [k]. *)
Lemma row_store k n b base dst r src :
  0 <= k < N -> 0 <= n -> 0 <= b -> n + b <= page -> contig_dst_offset r = base + dst -> contig_dst_offset r = rb_dst_offset d + k * page + n -> user r = partly k n ->
  pos + src = start k + n -> 0 <= src -> src + b <= bytes ->
  host_store (base + dst) (read_queue sysmem rd_ptr src b) (user r) = Ok (partly k (n + b)) /\ 0 <= rb_dst_offset d + k * page /\ rb_dst_offset d + k * page + page < 2 ^ 32.
Proof using All.
  intros Hk Hn Hb Hle Hc Hr Hu Hp Hs Hsb. destruct (more k n b (pos + src) _ r Hk Hn Hb Hle (place_row k) Hp) as (E & H); [lia|lia|done|]. split; [|done].
  rewrite <- E. f_equal; [lia|]. f_equal. lia.
Qed.

Lemma boundary_row k r : boundary k r <-> 0 <= k <= N /\ rest r = 0 /\ user r = delivered k /\ contig_dst_offset r = rb_dst_offset d + k * page.
Proof using Hmap. unfold boundary. by rewrite Hmap. Qed.
Lemma halfway_row k off r : halfway k off r <->
  0 <= k < N /\ 0 < off < page /\ rest r = page - off /\ offset_in_completion_q_data r = 0 /\ user r = partly k off /\ contig_dst_offset r = rb_dst_offset d + k * page + off.
Proof using Hmap. unfold halfway. by rewrite Hmap. Qed.

Ltac ragged_fields := cbn [src_offset dst_offset ragged contig_dst_offset set_contig set_user set_rest set_offset user remaining_bytes_of_nonaligned_page offset_in_completion_q_data] in *.
Ltac ragged_next E := ragged_fields; rewrite E, res_bind_ret; eexists; split; [reflexivity|]; ragged_fields; rewrite !u32_small by (pow2; nia); split; [|lia]; split_and!; try lia.

Lemma ragged_step_page base st k :
  ragged_inv base st -> src_offset st < bytes -> boundary k (ragged st) -> offset_in_completion_q_data (ragged st) = 0 -> pos + src_offset st = start k ->
  exists st', ragged_step sysmem d rd_ptr bytes base st = Ok st' /\ ragged_inv base st' /\ src_offset st < src_offset st'.
Proof using All.
  intros (Hc & Hs & Hb0 & Hd0 & _) Hlt (Hk & Hr & Hu & Hcont)%boundary_row Ho Hp. destruct st as [src dst r]. unfold ragged_step, ragged_inv. ragged_fields.
  pose proof (so_page Hok) as Hpg. pose proof (so_small Hok) as Hsm. pose proof (so_pages Hok) as HN. unfold sizeof_CQDispatchCmd in *. assert (0 <= k < N) as Hk' by nia.
  rewrite <- (partly_0 k Hk') in Hu. assert (k * padded + padded <= N * padded) as Hkp by nia. rewrite next_page by lia.
  destruct (decide (bytes - src < page)); [|destruct (decide (bytes - src <= padded))].
  - destruct (row_store k 0 (bytes - src) base dst r src) as (E & H1 & H2); try (unfold sizeof_CQDispatchCmd; lia); [done|]. ragged_next E.
    right; right. split; [lia|]. right. exists k, (bytes - src). rewrite halfway_row. ragged_fields. split_and!; try (unfold sizeof_CQDispatchCmd; lia); done.
  - destruct (row_store k 0 page base dst r src) as (E & H1 & H2); try (unfold sizeof_CQDispatchCmd; lia); [done|]. ragged_next E.
    right; right. split; [lia|]. left. exists (k + 1). rewrite boundary_row. ragged_fields. split_and!; try (unfold sizeof_CQDispatchCmd; lia). by apply partly_page; lia.
  - destruct (row_store k 0 page base dst r src) as (E & H1 & H2); try (unfold sizeof_CQDispatchCmd; lia); [done|]. ragged_next E.
    left. split; [lia|]. exists (k + 1). rewrite boundary_row. ragged_fields. split_and!; try (unfold sizeof_CQDispatchCmd; lia). by apply partly_page; lia.
Qed.

Lemma ragged_step_half base st k off :
  ragged_inv base st -> src_offset st = 0 -> halfway k off (ragged st) -> pos = start k + off -> ~ (page - off < bytes < padded - off) ->
  exists st', ragged_step sysmem d rd_ptr bytes base st = Ok st' /\ ragged_inv base st' /\ src_offset st < src_offset st'.
Proof using All.
  intros (Hc & Hs & Hb0 & Hd0 & _) H0 (Hk & Hoff & Hr & Ho & Hu & Hcont)%halfway_row Hp Hx. destruct st as [src dst r]. unfold ragged_step, ragged_inv. ragged_fields. subst src.
  pose proof (so_page Hok) as Hpg. pose proof (so_small Hok) as Hsm. pose proof (so_pages Hok) as HN. unfold sizeof_CQDispatchCmd in *.
  assert (k * padded + padded <= N * padded) as Hkp by nia. rewrite (next_half r off) by done.
  destruct (decide (bytes < page - off)); [|destruct (decide (bytes = page - off))].
  - destruct (row_store k off bytes base dst r 0) as (E & H1 & H2); try (unfold sizeof_CQDispatchCmd; lia); [done|]. ragged_next E.
    right; right. split; [lia|]. right. exists k, (off + bytes). rewrite halfway_row. ragged_fields. split_and!; try (unfold sizeof_CQDispatchCmd; lia); done.
  - destruct (row_store k off bytes base dst r 0) as (E & H1 & H2); try (unfold sizeof_CQDispatchCmd; lia); [done|]. ragged_next E.
    right; right. split; [lia|]. left. exists (k + 1). rewrite boundary_row. ragged_fields. split_and!; try (unfold sizeof_CQDispatchCmd; lia). replace (off + bytes) with page by lia. by apply partly_page; lia.
  - destruct (row_store k off (page - off) base dst r 0) as (E & H1 & H2); try (unfold sizeof_CQDispatchCmd; lia); [done|]. ragged_next E.
    left. split; [lia|]. exists (k + 1). rewrite boundary_row. ragged_fields. split_and!; try (unfold sizeof_CQDispatchCmd; lia). replace (off + (page - off)) with page by lia. by apply partly_page; lia.
Qed.

Lemma copy_ragged_ok r : ready pos r -> 0 <= contig_dst_offset r -> offset_in_completion_q_data r <= bytes -> padding_uncut r ->
  exists r', copy_ragged sysmem d rd_ptr bytes r = Ok r' /\ ready (pos + bytes) r'.
Proof using All.
  intros Hr Hc Ho Hx. unfold copy_ragged.
  assert (0 <= offset_in_completion_q_data r) as Hnn by (destruct Hr as [(k & _ & H & _)|(k & off & (_ & _ & _ & -> & _) & _)]; lia).
  destruct (while_res_ok (ragged_inv (contig_dst_offset r)) (fun st => Z.max 0 (bytes - src_offset st)) (fun st => src_offset st <? bytes)
    (ragged_step sysmem d rd_ptr bytes (contig_dst_offset r)) (Z.to_nat bytes) (mkRagged (offset_in_completion_q_data r) 0 (set_offset 0 r))) as (st & E & (Hc' & Hs & _ & _ & H) & Hf).
  - unfold ragged_inv. ragged_fields. destruct Hr as [(k & Hk & Ho' & Hp)|(k & off & Hk & Hp)].
    + split_and!; try lia. left. split; [done|]. exists k. split; [|done]. rewrite boundary_row in Hk |- *. done.
    + pose proof Hk as Hh. rewrite halfway_row in Hk. destruct Hk as (H1 & H2 & H3 & H4 & H5 & H6). rewrite H4. split_and!; try lia. right; left. split; [done|]. exists k, off.
      split; [|split; [done|exact (Hx k off Hh)]]. rewrite halfway_row. ragged_fields. split_and!; done || lia.
  - intros st Hst Hlt%Z.ltb_lt. assert (exists st', ragged_step sysmem d rd_ptr bytes (contig_dst_offset r) st = Ok st' /\ ragged_inv (contig_dst_offset r) st' /\ src_offset st < src_offset st') as (st' & E & Hi & Hg).
    { pose proof Hst as (_ & _ & _ & _ & [[_ (k & Hk & Ho' & Hp)]|[[H0 (k & off & Hk & Hp & Hu)]|[? _]]]); [by apply (ragged_step_page _ _ k)|by apply (ragged_step_half _ _ k off)|lia]. }
    exists st'. split_and!; try done; lia.
  - ragged_fields. lia.
  - rewrite E, res_bind_ret. exists (ragged st). split; [done|]. apply Z.ltb_ge in Hf. destruct H as [[Hle (k & Hk & Ho' & Hp)]|[[H0 _]|[_ H]]]; [|lia|done].
    left. exists k. rewrite Ho'. split; [done|]. unfold sizeof_CQDispatchCmd in *. lia.
Qed.
End Ragged.

Section Mapped.
Context (m : BufferPageMapping).
Hypothesis Hmap : rb_mapping d = Some m.

(** The place where the loop stores next, against the place of the page. *)
Definition at_place (k n dst : Z) (host : option Z) : Prop :=
  match place k with Some a => dst = a + n /\ host <> None | None => host = None end.

Lemma page_place k : 0 <= k < N -> exists host, at_ (dev_page_to_host_page_mapping_ m) (rb_cur_dev_page_id d + k) = Ok host /\
  (forall dst, at_place k 0 (match host with Some h => u32 (h * page) | None => dst end) host).
Proof using Hok Hmap.
  intros Hk. destruct (so_mapped Hok m Hmap) as (_ & _ & H). destruct (H k Hk) as (o & E & Ho). unfold at_, at_place, place. rewrite Hmap, E. exists o. split; [done|]. intros dst.
  destruct o as [h|]; [|done]. destruct (so_fits Hok k (h * page) Hk) as [H1 H2]; [unfold place; by rewrite Hmap, E|]. pose proof (so_user Hok). pose proof (so_page Hok).
  split; [|done]. rewrite u32_small by (pow2; lia). lia.
Qed.

Lemma mapped_store k n b dst src s r :
  0 <= k < N -> 0 <= n -> 0 <= b -> n + b <= page -> at_place k n dst (host_page_id r) -> user r = partly k n -> pos + src = start k + n -> 0 <= src -> src + b <= bytes ->
  match host_page_id r with
  | None => mret (mkMapped s dst b r)
  | Some _ => user ← host_store dst (read_queue sysmem rd_ptr src b) (user r); mret (mkMapped s dst b (set_user user r))
  end = Ok (mkMapped s dst b (set_user (partly k (n + b)) r)).
Proof using All.
  intros Hk Hn Hb Hle Hd Hu Hp Hs Hsb. unfold at_place in Hd. destruct (place k) as [a|] eqn:E.
  - destruct Hd as [-> Hh]. destruct (host_page_id r); [|done]. destruct (more k n b (pos + src) a r Hk Hn Hb Hle E Hp) as (Es & _); [lia|lia|done|].
    replace (pos + src - pos) with src in Es by lia. by rewrite Es, res_bind_ret.
  - rewrite Hd. unfold mret, res_ret. do 2 f_equal. unfold partly, put_page in *. rewrite E in *. rewrite <- Hu. by destruct r.
Qed.

(** The state of the loop, whose next place counts as the reader's. *)
Definition mapped_inv (st : Mapped) : Prop :=
  let r := mapped st in
  0 <= m_src_offset st /\
  ((m_src_offset st <= bytes /\ exists k, boundary k r /\ offset_in_completion_q_data r = 0 /\ pos + m_src_offset st = start k) \/
   (m_src_offset st = 0 /\ exists k off, halfway k off (set_contig (dst_offset_bytes st) r) /\ pos = start k + off /\ ~ (page - off < bytes < padded - off)) \/
   (bytes <= m_src_offset st /\ ready (pos + bytes) (set_contig (u32 (dst_offset_bytes st + num_bytes_to_copy st)) r))).

Lemma boundary_map k r : boundary k r <-> 0 <= k <= N /\ rest r = 0 /\ user r = delivered k /\ dev_page_id r = rb_cur_dev_page_id d + k.
Proof using Hmap. unfold boundary. by rewrite Hmap. Qed.
Lemma halfway_map k off r : halfway k off r <->
  0 <= k < N /\ 0 < off < page /\ rest r = page - off /\ offset_in_completion_q_data r = 0 /\ user r = partly k off /\
  dev_page_id r = rb_cur_dev_page_id d + k /\ at_place k off (contig_dst_offset r) (host_page_id r).
Proof using Hmap. unfold halfway, at_place. by rewrite Hmap. Qed.

Lemma at_place_small k n b dst host : 0 <= k < N -> 0 <= n -> 0 <= b -> n + b <= page -> at_place k n dst host -> at_place k (n + b) (u32 (dst + b)) host.
Proof using Hok.
  intros Hk Hn Hb Hle. unfold at_place. destruct (place k) as [a|] eqn:E; [|done]. intros [-> H]. split; [|done].
  destruct (so_fits Hok k a Hk E). pose proof (so_user Hok). rewrite u32_small by (pow2; lia). lia.
Qed.

Ltac mapped_fields := cbn [m_src_offset dst_offset_bytes num_bytes_to_copy mapped contig_dst_offset set_contig set_user set_rest set_offset set_dev_page set_host_page user
  remaining_bytes_of_nonaligned_page offset_in_completion_q_data dev_page_id host_page_id] in *.
Ltac mapped_next Hdev k n b := rewrite (mapped_store k n b) by (mapped_fields; done || lia || (unfold sizeof_CQDispatchCmd; lia));
  eexists; split; [reflexivity|]; mapped_fields; rewrite ?Hdev, ?(u32_small (0 + _)), ?(u32_small (_ + padded)), ?(u32_small (rb_cur_dev_page_id d + k + 1)) by (pow2; nia); split; [|lia]; split; [lia|].

Lemma mapped_step_page st k :
  mapped_inv st -> m_src_offset st < bytes -> boundary k (mapped st) -> offset_in_completion_q_data (mapped st) = 0 -> pos + m_src_offset st = start k ->
  exists st', mapped_step sysmem d rd_ptr bytes m st = Ok st' /\ mapped_inv st' /\ m_src_offset st < m_src_offset st'.
Proof using All.
  intros (Hs & _) Hlt (Hk & Hr & Hu & Hdev)%boundary_map Ho Hp. destruct st as [src dst num r]. unfold mapped_step, mapped_inv. mapped_fields.
  pose proof (so_page Hok) as Hpg. pose proof (so_small Hok) as Hsm. pose proof (so_pages Hok) as HN. unfold sizeof_CQDispatchCmd in *. assert (0 <= k < N) as Hk' by nia.
  destruct (so_mapped Hok m Hmap) as (Hc1 & Hc2 & _). rewrite <- (partly_0 k Hk') in Hu. assert (k * padded + padded <= N * padded) as Hkp by nia.
  destruct (page_place k Hk') as (host & Eh & Hpl). specialize (Hpl dst). rewrite Hr. cbn [Z.ltb Z.compare]. rewrite Hdev, Eh, next_page by lia.
  destruct (decide (bytes - src < page)); [|destruct (decide (bytes - src <= padded))]; cbv iota zeta; rewrite !res_bind_ret; mapped_fields.
  - rewrite (proj2 (Z.eqb_neq (page - _) 0)) by lia. cbn [mret res_ret mbind res_bind]. mapped_next Hdev k 0 (bytes - src). right; right. split; [lia|]. right. exists k, (bytes - src). rewrite halfway_map. mapped_fields.
    split; [split_and!; try (done || lia)|unfold sizeof_CQDispatchCmd; lia]. rewrite <- (Z.add_0_l (bytes - src)) at 1. by apply at_place_small; try lia.
  - cbn [Z.eqb mret res_ret mbind res_bind]. mapped_next Hdev k 0 (rb_page_size d). right; right. split; [lia|]. left. exists (k + 1). rewrite boundary_map. mapped_fields.
    split; [split_and!; try (done || lia); by apply partly_page; lia|unfold sizeof_CQDispatchCmd; lia].
  - rewrite Hr. cbn [Z.eqb mret res_ret mbind res_bind]. mapped_next Hdev k 0 (rb_page_size d). left. split; [lia|]. exists (k + 1). rewrite boundary_map. mapped_fields.
    split; [split_and!; try (done || lia); by apply partly_page; lia|unfold sizeof_CQDispatchCmd; lia].
Qed.

Lemma mapped_step_half st k off :
  mapped_inv st -> m_src_offset st = 0 -> halfway k off (set_contig (dst_offset_bytes st) (mapped st)) -> pos = start k + off -> ~ (page - off < bytes < padded - off) ->
  exists st', mapped_step sysmem d rd_ptr bytes m st = Ok st' /\ mapped_inv st' /\ m_src_offset st < m_src_offset st'.
Proof using All.
  intros (Hs & _) H0 (Hk & Hoff & Hr & Ho & Hu & Hdev & Hpl)%halfway_map Hp Hx. destruct st as [src dst num r]. unfold mapped_step, mapped_inv. mapped_fields. subst src.
  pose proof (so_page Hok) as Hpg. pose proof (so_small Hok) as Hsm. pose proof (so_pages Hok) as HN. unfold sizeof_CQDispatchCmd in *.
  destruct (so_mapped Hok m Hmap) as (Hc1 & Hc2 & _). assert (k * padded + padded <= N * padded) as Hkp by nia.
  rewrite (next_half r off) by done. rewrite (proj2 (Z.ltb_lt 0 (rest r))) by lia. unfold pad_size_bytes. rewrite (u32_small (padded - page)), (u32_small (bytes - 0)), Z.sub_0_r by (pow2; nia).
  destruct (decide (bytes < page - off)); [|destruct (decide (bytes = page - off))]; cbv iota zeta; cbn [mret res_ret mbind res_bind]; mapped_fields.
  - repeat (rewrite (proj2 (Z.eqb_neq (page - off - bytes) 0)) by lia; mapped_fields). cbn [andb]. mapped_next Hdev k off bytes. right; right. split; [lia|]. right. exists k, (off + bytes). rewrite halfway_map. mapped_fields.
    split; [split_and!; try (done || lia)|unfold sizeof_CQDispatchCmd; lia]. by apply at_place_small; try lia.
  - cbn [Z.eqb]. mapped_fields. cbn [Z.eqb]. mapped_fields. rewrite Z.sub_diag. cbn [andb]. destruct (Z.leb_spec (padded - page) 0).
    + mapped_next Hdev k off bytes. right; right. split; [lia|]. left. exists (k + 1). rewrite boundary_map. mapped_fields. split; [split_and!; try (done || lia)|unfold sizeof_CQDispatchCmd; lia].
      replace (off + bytes) with page by lia. by apply partly_page; lia.
    + mapped_next Hdev k off bytes. right; right. split; [lia|]. left. exists (k + 1). rewrite boundary_map. mapped_fields. split; [split_and!; try (done || lia)|unfold sizeof_CQDispatchCmd; lia].
      replace (off + bytes) with page by lia. by apply partly_page; lia.
  - cbn [Z.eqb]. mapped_fields. cbn [Z.eqb]. mapped_fields. rewrite (proj2 (Z.leb_le (padded - page) _)) by lia. cbn [andb].
    mapped_next Hdev k off (rb_page_size d - off). left. split; [lia|]. exists (k + 1). rewrite boundary_map. mapped_fields. split; [split_and!; try (done || lia)|unfold sizeof_CQDispatchCmd; lia].
    replace (off + (page - off)) with page by lia. by apply partly_page; lia.
Qed.

Lemma copy_mapped_ok r : ready pos r -> offset_in_completion_q_data r <= bytes -> padding_uncut r ->
  exists r', copy_mapped sysmem d rd_ptr bytes m r = Ok r' /\ ready (pos + bytes) r'.
Proof using All.
  intros Hr Ho Hx. unfold copy_mapped.
  assert (0 <= offset_in_completion_q_data r) as Hnn by (destruct Hr as [(k & _ & H & _)|(k & off & (_ & _ & _ & -> & _) & _)]; lia).
  destruct (while_res_ok mapped_inv (fun st => Z.max 0 (bytes - m_src_offset st)) (fun st => m_src_offset st <? bytes)
    (mapped_step sysmem d rd_ptr bytes m) (Z.to_nat bytes) (mkMapped (offset_in_completion_q_data r) (contig_dst_offset r) 0 (set_offset 0 r))) as (st & E & (Hs & H) & Hf).
  - unfold mapped_inv. mapped_fields. split; [done|]. destruct Hr as [(k & Hk & Ho' & Hp)|(k & off & Hk & Hp)].
    + left. split; [done|]. exists k. split; [|done]. rewrite boundary_map in Hk |- *. done.
    + pose proof Hk as Hh. rewrite halfway_map in Hk. destruct Hk as (H1 & H2 & H3 & H4 & H5 & H6 & H7). right; left. split; [done|]. exists k, off.
      split; [|split; [done|exact (Hx k off Hh)]]. rewrite halfway_map. mapped_fields. split_and!; done || lia.
  - intros st Hst Hlt%Z.ltb_lt. assert (exists st', mapped_step sysmem d rd_ptr bytes m st = Ok st' /\ mapped_inv st' /\ m_src_offset st < m_src_offset st') as (st' & E & Hi & Hg).
    { pose proof Hst as (_ & [[_ (k & Hk & Ho' & Hp)]|[[H0 (k & off & Hk & Hp & Hu)]|[? _]]]); [by apply (mapped_step_page _ k)|by apply (mapped_step_half _ k off)|lia]. }
    exists st'. split_and!; try done; lia.
  - mapped_fields. lia.
  - rewrite E, res_bind_ret. eexists. split; [done|]. apply Z.ltb_ge in Hf. destruct H as [[Hle (k & Hk & Ho' & Hp)]|[[H0 _]|[_ H]]]; [|lia|done].
    left. exists k. mapped_fields. rewrite Ho'. split; [rewrite boundary_map in Hk |- *; done|]. unfold sizeof_CQDispatchCmd in *. lia.
Qed.
End Mapped.

Section Contiguous.
Hypotheses (Hmap : rb_mapping d = None) (Hpad : page = padded).

Definition running (p : Z) (r : Reader) : Prop :=
  p = 0 /\ offset_in_completion_q_data r = sizeof_CQDispatchCmd /\ contig_dst_offset r = rb_dst_offset d /\ user r = user0 \/
  sizeof_CQDispatchCmd <= p /\ offset_in_completion_q_data r = 0 /\ contig_dst_offset r = rb_dst_offset d + (p - sizeof_CQDispatchCmd) /\
    user r = put (rb_dst_offset d) (seg sizeof_CQDispatchCmd (p - sizeof_CQDispatchCmd)) user0.

Lemma row_fits : 0 <= rb_dst_offset d /\ rb_dst_offset d + N * page <= Z.of_nat (length user0).
Proof using Hok Hmap.
  clear Hmem Hpos Hbytes Hend Hpad. pose proof (so_pages Hok). destruct (so_fits Hok 0 (rb_dst_offset d + 0 * page)) as [H1 _]; [lia|unfold place; by rewrite Hmap|].
  destruct (so_fits Hok (N - 1) (rb_dst_offset d + (N - 1) * page)) as [_ H2]; [lia|unfold place; by rewrite Hmap|]. lia.
Qed.

Lemma delivered_row k : 0 <= k <= N -> delivered k = put (rb_dst_offset d) (seg sizeof_CQDispatchCmd (k * page)) user0.
Proof using Hok Hmap Hpad.
  clear Hmem Hpos Hbytes Hend. destruct row_fits as [F1 F2]. pose proof (so_page Hok) as Hpg. pose proof (so_length Hok) as HL. unfold sizeof_CQDispatchCmd in *.
  intros [H1 H2]. revert H2. pattern k. apply natlike_ind; [intros _; unfold seg; cbn; by rewrite put_nil|intros x Hx IH Hle|done]. rewrite <- Z.add_1_r, delivered_S, IH by lia.
  unfold put_page, place. rewrite Hmap, page_prefix by lia. unfold sizeof_CQDispatchCmd. rewrite <- Hpad in *. assert (0 <= x * page /\ x * page + page <= N * page) as Hm by nia.
  replace ((x + 1) * page) with (x * page + page) by lia. rewrite <- (stream_seg_app 16 (x * page) page) by lia.
  assert (length (seg 16 (x * page)) = Z.to_nat (x * page)) as Ls by (apply length_seg; lia). rewrite <- put_put; [|lia|rewrite Ls, length_seg; lia].
  rewrite Ls, Z2Nat.id by lia. done.
Qed.

Lemma copy_contiguous_ok r : running pos r -> offset_in_completion_q_data r <= bytes ->
  exists r', copy_contiguous sysmem rd_ptr bytes r = Ok r' /\ running (pos + bytes) r'.
Proof using All.
  destruct row_fits as [F1 F2]. pose proof (so_page Hok) as Hpg. pose proof (so_length Hok) as HL. pose proof (so_small Hok) as Hsm. pose proof (so_user Hok) as Hus. pose proof (so_pages Hok) as HN.
  unfold running, sizeof_CQDispatchCmd in *. rewrite <- Hpad in *. intros [(-> & Ho & Hc & Hu)|(Hp & Ho & Hc & Hu)] Hle; unfold copy_contiguous; rewrite Ho, Hc, Hu in *.
  - rewrite (u32_small (bytes - 16)), Hmem by (pow2; nia). rewrite host_store_put; [|lia|rewrite length_seg by lia; lia]. rewrite res_bind_ret. eexists. split; [reflexivity|]. cbn. right.
    rewrite u32_small by (pow2; lia). replace (bytes - 16) with (0 + bytes - 16) by lia. split_and!; lia || done.
  - rewrite Z.sub_0_r, (u32_small bytes), Hmem, Z.add_0_r by (pow2; nia). assert (length (seg 16 (pos - 16)) = Z.to_nat (pos - 16)) as Ls by (apply length_seg; lia).
    rewrite host_store_put; [|lia|rewrite length_put, length_seg by (rewrite ?Ls; lia); lia]. rewrite res_bind_ret. eexists. split; [reflexivity|]. cbn. right.
    rewrite u32_small by (pow2; lia). split_and!; try lia. replace (pos + bytes - 16) with (pos - 16 + bytes) by lia. rewrite <- (stream_seg_app 16 (pos - 16) bytes) by lia.
    rewrite <- put_put; [|lia|rewrite Ls, length_seg; lia]. rewrite Ls. do 2 f_equal; [lia|]. f_equal. lia.
Qed.
End Contiguous.

(** *** The copies of a turn leave the count of what is to be read alone *)

Lemma while_res_pres {S} (P : S -> Prop) cond body fuel s s' :
  (forall s s', P s -> body s = Ok s' -> P s') -> P s -> while_res fuel cond body s = Ok s' -> P s'.
Proof using.
  intros Hb. revert s. induction fuel as [|fuel IH]; intros s Hs; cbn [while_res]; destruct (cond s); intros E; try (injection E as <-; done); [done|].
  apply bind_ok in E as (s1 & E1 & E). by eauto.
Qed.

Lemma next_bytes_to_read src r : remaining_bytes_to_read (next_bytes d bytes src r).2 = remaining_bytes_to_read r.
Proof using. unfold next_bytes. by repeat case_match. Qed.

Lemma ragged_step_to_read base st st' :
  ragged_step sysmem d rd_ptr bytes base st = Ok st' -> remaining_bytes_to_read (ragged st') = remaining_bytes_to_read (ragged st).
Proof using.
  unfold ragged_step. pose proof (next_bytes_to_read (src_offset st) (ragged st)) as H. destruct (next_bytes _ _ _ _) as [[n i] r]. intros (u & _ & E)%bind_ok. by injection E as <-.
Qed.

Lemma mapped_step_to_read m st st' :
  mapped_step sysmem d rd_ptr bytes m st = Ok st' -> remaining_bytes_to_read (mapped st') = remaining_bytes_to_read (mapped st).
Proof using.
  unfold mapped_step. pose proof (next_bytes_to_read (m_src_offset st) (mapped st)) as H. destruct (next_bytes _ _ _ _) as [[n i] r]. cbn in H. intros ([r' dst] & E1 & E)%bind_ok.
  rewrite <- H. clear H. trans (remaining_bytes_to_read r').
  - clear E1. destruct (host_page_id r'); [apply bind_ok in E as (u & _ & E)|]; by injection E as <-.
  - clear E. destruct (0 <? rest (mapped st)); [|apply bind_ok in E1 as (h & _ & E1)]; injection E1 as <- _; by repeat case_match.
Qed.

Lemma copy_part_to_read r r' : copy_part sysmem d rd_ptr bytes r = Ok r' -> remaining_bytes_to_read r' = remaining_bytes_to_read r.
Proof using.
  unfold copy_part, copy_mapped, copy_contiguous, copy_ragged. case_match; [|case_match].
  - intros (st & E%(while_res_pres (fun st => remaining_bytes_to_read (mapped st) = remaining_bytes_to_read r)) & H0)%bind_ok; [by injection H0 as <-| |done].
    intros s s' Hs E1%mapped_step_to_read. by rewrite E1.
  - intros (u & _ & E)%bind_ok. by injection E as <-.
  - intros (st & E%(while_res_pres (fun st => remaining_bytes_to_read (ragged st) = remaining_bytes_to_read r)) & H1)%bind_ok; [by injection H1 as <-| |done].
    intros s s' Hs E1%ragged_step_to_read. by rewrite E1.
Qed.

End Part.
End Pages.
#[global] Arguments so_page {d stream user0} _.
#[global] Arguments so_pages {d stream user0} _.
#[global] Arguments so_length {d stream user0} _.
#[global] Arguments so_small {d stream user0} _.
#[global] Arguments so_user {d stream user0} _.
#[global] Arguments so_fits {d stream user0} _.
#[global] Arguments so_mapped {d stream user0} _.
