(* ===== verification/CompletionTurn.v ===== *)
(** * Reading the completion queue into user memory: a turn of the loop

    Where the reader stands between two turns of the loop of copy_into_user_space, and
    that a turn takes it from there to the end of what has arrived. *)

From Stdlib Require Import Lia.
From S2P Require Import Prelude Memory WorkSplit SystemMemory Buffers BufferIO CompletionCopy CompletionCopyProps.

#[local] Ltac Zify.zify_post_hook ::= Z.to_euclidean_division_equations.

Lemma pages_div_up pages : 0 <= pages -> pages * TRANSFER_PAGE_SIZE + TRANSFER_PAGE_SIZE < 2 ^ 32 -> div_up (pages * TRANSFER_PAGE_SIZE) TRANSFER_PAGE_SIZE = Ok pages.
Proof.
  change TRANSFER_PAGE_SIZE with 4096. intros H1 H2. unfold div_up. cbn [Z.ltb Z.compare check]. rewrite res_bind_ret. rewrite (u32_small (_ - _)) by (pow2; lia).
  replace (pages * 4096 + 4096 - 1) with (4095 + pages * 4096) by lia. rewrite Z.div_add by lia. change (4095 / 4096) with 0. rewrite Z.add_0_l, u32_small by (pow2; lia). done.
Qed.

Section Turns.
Context (d : ReadBufferDescriptor) (stream user0 : list Z).

Abbreviation page := (rb_page_size d).
Abbreviation padded := (rb_padded_page_size d).
Abbreviation N := (rb_num_pages_read d).

Hypothesis Hok : stream_ok d stream user0.

Definition total : Z := sizeof_CQDispatchCmd + N * padded.

(** The padding of a page is what the alignment to 16 bytes asks for at most, or a page
    with its padding fits a transfer page: then no transfer page ends strictly within the
    padding of a page that began in an earlier one. *)
Definition padding_fits : Prop := padded <= TRANSFER_PAGE_SIZE \/ padded mod 16 = 0 /\ padded - page <= 16.

(** Pages without padding that lie in a row are not looked at one by one. *)
Definition progress (p : Z) (r : Reader) : Prop :=
  match rb_mapping d with
  | None => if page =? padded then running d stream user0 p r else ready d stream user0 p r
  | Some _ => ready d stream user0 p r
  end.

(** Between two turns, [p] bytes of the stream have been read. *)
Definition stage (p : Z) (r : Reader) : Prop :=
  0 <= p <= total /\ (p mod TRANSFER_PAGE_SIZE = 0 \/ p = total) /\ remaining_bytes_to_read r = total - p /\ progress p r.

(** The part of the stream that a turn takes from [p] on, when so much has arrived. *)
Definition turn_bytes (p avail : Z) : Z := Z.min (total - p) avail.

Lemma total_small : 0 < total < 2 ^ 32.
Proof using Hok. unfold total, sizeof_CQDispatchCmd. pose proof (so_page Hok). pose proof (so_pages Hok). pose proof (so_small Hok) as H2. unfold sizeof_CQDispatchCmd in H2. nia. Qed.

Lemma progress_to_read p v r : progress p (set_to_read v r) <-> progress p r.
Proof using. unfold progress. by destruct (rb_mapping d), (page =? padded). Qed.

Lemma ready_offset p r : padding_fits -> ready d stream user0 p r -> p <= total ->
  0 <= offset_in_completion_q_data r <= TRANSFER_PAGE_SIZE /\ offset_in_completion_q_data r <= total - p.
Proof using Hok.
  unfold padding_fits, total, sizeof_CQDispatchCmd. change TRANSFER_PAGE_SIZE with 4096. pose proof (so_page Hok). pose proof (so_pages Hok).
  intros Hpad [(k & (Hk & _) & Ho & Hp)|(k & off & (Hk & _ & _ & Ho & _) & Hp)] Hle; unfold sizeof_CQDispatchCmd in *; [|lia].
  assert (k * padded <= N * padded) by nia. lia.
Qed.

(** Where in a page the reader is can be told from its state. *)
Lemma halfway_place p k off r : ready d stream user0 p r -> halfway d stream user0 k off r -> p = sizeof_CQDispatchCmd + k * padded + off.
Proof using Hok.
  pose proof (so_page Hok). intros [(k' & (_ & H0 & _) & _)|(k' & off' & (Hk' & Hoff' & Hr' & _ & _ & H') & ->)] (Hk & Hoff & Hr & _ & _ & H2); [lia|].
  assert (off' = off) as -> by lia. destruct (rb_mapping d); [|nia]. destruct H' as [H' _], H2 as [H2 _]. assert (k' = k) as -> by lia. done.
Qed.

Lemma turn_uncut p bytes r :
  padding_fits -> ready d stream user0 p r -> p mod TRANSFER_PAGE_SIZE = 0 -> 0 < bytes -> bytes mod TRANSFER_PAGE_SIZE = 0 \/ p + bytes = total ->
  padding_uncut d stream user0 bytes r.
Proof using Hok.
  unfold padding_fits, total. change TRANSFER_PAGE_SIZE with 4096. intros Hpad Hr Hp Hb He k off Hk [H1 H2]. pose proof (halfway_place p k off r Hr Hk) as Hpos.
  destruct Hk as (Hk & Hoff & _). pose proof (so_page Hok). assert (k * padded + padded <= N * padded) by nia. unfold sizeof_CQDispatchCmd in *.
  destruct He as [He|He]; [|lia]. destruct Hpad as [Hpad|[H16 Hpad]]; [lia|].
  apply Z.mod_divide in H16 as [q Hq]; [|lia]. assert (k * padded = 16 * (k * q)) as Hkq by (rewrite Hq; ring). generalize dependent (k * q). intros kq Hkq. lia.
Qed.

Lemma copy_part_ok sysmem rd_ptr p bytes r :
  padding_fits -> progress p r -> 0 <= p -> p mod TRANSFER_PAGE_SIZE = 0 -> 0 < bytes -> p + bytes <= total -> bytes mod TRANSFER_PAGE_SIZE = 0 \/ p + bytes = total ->
  (forall off n, 0 <= off -> 0 <= n -> off + n <= bytes -> read_queue sysmem rd_ptr off n = seg stream (p + off) n) ->
  exists r', copy_part sysmem d rd_ptr bytes r = Ok r' /\ progress (p + bytes) r'.
Proof using Hok.
  intros Hpad Hr Hp0 Hp Hb Hle He Hmem. assert (TRANSFER_PAGE_SIZE <= bytes \/ bytes = total - p) as Hb' by (change TRANSFER_PAGE_SIZE with 4096 in *; lia).
  unfold copy_part, progress in *. destruct (rb_mapping d) as [m|] eqn:Em.
  - pose proof (ready_offset p r Hpad Hr ltac:(lia)). eapply copy_mapped_ok; eauto; [lia|by apply (turn_uncut p)].
  - destruct (Z.eqb_spec page padded).
    + eapply copy_contiguous_ok; eauto. unfold running, total, sizeof_CQDispatchCmd in *. change TRANSFER_PAGE_SIZE with 4096 in *. pose proof (so_page Hok). pose proof (so_pages Hok). nia.
    + pose proof (ready_offset p r Hpad Hr ltac:(lia)). eapply copy_ragged_ok; eauto; [|lia|by apply (turn_uncut p)].
      pose proof (so_page Hok). destruct (so_fits Hok 0 (rb_dst_offset d + 0 * page)) as [Hd _]; [pose proof (so_pages Hok); lia|unfold place; by rewrite Em|].
      destruct Hr as [(k & (Hk & _ & _ & H2) & _)|(k & off & (Hk & Ho & _ & _ & _ & H2) & _)]; rewrite Em in H2; nia.
Qed.

(** A turn takes the reader to the end of what has arrived. *)
Lemma copy_turn_ok sysmem rd_ptr avail p r :
  padding_fits -> stage p r -> p < total -> 0 < avail -> avail mod TRANSFER_PAGE_SIZE = 0 ->
  (forall off n, 0 <= off -> 0 <= n -> off + n <= turn_bytes p avail -> read_queue sysmem rd_ptr off n = seg stream (p + off) n) ->
  exists pages r', copy_turn sysmem d rd_ptr avail r = Ok (pages, r') /\ div_up (turn_bytes p avail) TRANSFER_PAGE_SIZE = Ok pages /\
    stage (p + turn_bytes p avail) r'.
Proof using Hok.
  intros Hpad (Hp & Hm & Hrem & Hr) Hlt Ha Hd Hmem. unfold copy_turn. rewrite Hrem. fold (turn_bytes p avail). set (b := turn_bytes p avail) in *.
  assert (0 < b /\ p + b <= total /\ (b mod TRANSFER_PAGE_SIZE = 0 \/ p + b = total)) as (H1 & H2 & H3) by (unfold b, turn_bytes; change TRANSFER_PAGE_SIZE with 4096 in *; lia).
  assert (p mod TRANSFER_PAGE_SIZE = 0) as Hm' by lia. destruct (copy_part_ok sysmem rd_ptr p b (set_to_read (total - p - b) r)) as (r' & E & Hr'); [done|by apply progress_to_read|lia|done..|].
  assert (div_up b TRANSFER_PAGE_SIZE = Ok (u32 (u32 (b + TRANSFER_PAGE_SIZE - 1) / TRANSFER_PAGE_SIZE))) as Ed by done.
  eexists _, r'. rewrite Ed, res_bind_ret, E, res_bind_ret. split_and!; [done|done|]. split_and!; [lia|lia|change TRANSFER_PAGE_SIZE with 4096 in *; lia| |done]. rewrite (copy_part_to_read _ _ _ _ _ _ E). cbn. lia.
Qed.

(** What has been read when nothing is left to read. *)
Lemma progress_done r : progress total r -> user r = delivered d stream user0 N.
Proof using Hok.
  pose proof (so_page Hok). pose proof (so_pages Hok). unfold progress. intros H1.
  assert (forall r, ready d stream user0 total r -> user r = delivered d stream user0 N) as Hready.
  { unfold total. intros r' [(k & (Hk & _ & Hu & _) & Ho & Hp)|(k & off & (Hk & Ho & _) & Hp)]; [|nia]. rewrite Hu. f_equal. nia. }
  destruct (rb_mapping d) eqn:Em; [by apply Hready|]. destruct (Z.eqb_spec page padded) as [Hpp|]; [|by apply Hready].
  unfold running, total, sizeof_CQDispatchCmd in *. destruct H1 as [(? & _)|(_ & _ & _ & ->)]; [nia|]. rewrite (delivered_row d stream user0 Hok Em Hpp) by lia.
  unfold sizeof_CQDispatchCmd. do 2 f_equal. lia.
Qed.

(** The reader at the start. *)
Lemma stage_new : stage 0 (Reader_new d user0).
Proof using Hok.
  pose proof (so_page Hok). pose proof (so_pages Hok). pose proof total_small as Ht. unfold stage, progress. split_and!; [lia|lia|by left|..].
  - cbn. unfold total in *. rewrite u32_small by lia. lia.
  - assert (ready d stream user0 0 (Reader_new d user0)) as Hr.
    { left. exists 0. unfold boundary, Reader_new, sizeof_CQDispatchCmd. cbn. split_and!; try lia; try done. destruct (rb_mapping d); lia. }
    destruct (rb_mapping d); [done|]. destruct (page =? padded); [|done]. left. done.
Qed.
End Turns.
