(* ===== verification/CompletionCut.v ===== *)
(** * Reading the completion queue into user memory: padding that is cut

    What copy_into_user_space does outside of the layouts for which a turn is right. *)

From Stdlib Require Import Lia.
From S2P Require Import Prelude Memory WorkSplit SystemMemory Buffers BufferIO CompletionCopy CompletionCopyProps.

(** Both stores are of the queue's bytes as they come. *)
Lemma put_next sysmem a rd m n l : 0 <= a -> 0 <= m -> 0 <= n -> a + m + n <= Z.of_nat (length l) ->
  put (a + m) (read_mem sysmem (rd + m) n) (put a (read_mem sysmem rd m) l) = put a (read_mem sysmem rd (m + n)) l.
Proof.
  intros Ha Hm Hn Hl. replace (a + m) with (a + Z.of_nat (length (read_mem sysmem rd m))) by (rewrite length_read_mem; lia).
  rewrite put_put by (rewrite ?length_read_mem; lia). by rewrite read_mem_app.
Qed.

Section Cut.
Context (d : ReadBufferDescriptor).
Abbreviation page := (rb_page_size d).
Abbreviation padded := (rb_padded_page_size d).
Abbreviation rest := remaining_bytes_of_nonaligned_page.
Hypotheses (Hrow : rb_mapping d = None) (Hpage : 0 < page < padded) (Hbound : 2 * padded < 2 ^ 32).

Lemma pad_size : pad_size_bytes d = padded - page.
Proof using Hpage Hbound. unfold pad_size_bytes. by rewrite u32_small by lia. Qed.

(** The step that takes what is left of a page, when only a part of its padding is behind it. *)
Lemma step_rest sysmem rd bytes base src dst r :
  0 <= src -> 0 <= rd -> rd + bytes < 2 ^ 32 -> 0 < rest r -> src + rest r < bytes -> bytes - src - rest r < padded - page ->
  0 <= dst -> dst + rest r < 2 ^ 32 -> 0 <= contig_dst_offset r -> contig_dst_offset r + rest r < 2 ^ 32 -> 0 <= base ->
  base + dst + rest r <= Z.of_nat (length (user r)) ->
  ragged_step sysmem d rd bytes base (mkRagged src dst r) =
    Ok (mkRagged (src + rest r) (dst + rest r) (set_contig (contig_dst_offset r + rest r) (set_user (put (base + dst) (read_mem sysmem (rd + src) (rest r)) (user r))
          (set_offset (padded - page - (bytes - src - rest r)) (set_rest 0 r))))).
Proof using Hpage Hbound.
  intros Hs Hrd Hb Hr1 Hr2 Hc Hd1 Hd2 Hg1 Hg2 Hbase Hl. unfold ragged_step, next_bytes. cbn [src_offset dst_offset ragged].
  rewrite pad_size, (u32_small (bytes - src)), (proj2 (Z.ltb_lt 0 _)), Z.min_l, Z.sub_diag by lia. cbn [remaining_bytes_of_nonaligned_page set_rest]. rewrite Z.eqb_refl, (proj2 (Z.leb_gt _ _)) by lia.
  unfold read_queue. cbn [user set_offset set_rest contig_dst_offset]. rewrite (u32_small (rd + src)), host_store_put by (rewrite ?length_read_mem; lia). rewrite res_bind_ret. rewrite !u32_small by lia. done.
Qed.

(** The step at what is taken for the start of a page, of which [n] bytes have arrived. *)
Lemma step_start sysmem rd bytes base src dst n r :
  0 <= src -> 0 <= rd -> rd + bytes < 2 ^ 32 -> rest r = 0 -> n = bytes - src -> 0 < n < page -> src + padded < 2 ^ 32 ->
  0 <= dst -> dst + n < 2 ^ 32 -> 0 <= contig_dst_offset r -> contig_dst_offset r + n < 2 ^ 32 -> 0 <= base ->
  ragged_step sysmem d rd bytes base (mkRagged src dst r) =
    (user ← host_store (base + dst) (read_mem sysmem (rd + src) n) (user r);
     mret (mkRagged (src + padded) (dst + n) (set_contig (contig_dst_offset r + n) (set_user user (set_rest (page - n) r))))).
Proof using Hpage Hbound.
  intros Hs Hrd Hb Hr -> Hn Hp Hd1 Hd2 Hg1 Hg2 Hbase. unfold ragged_step, next_bytes. cbn [src_offset dst_offset ragged].
  rewrite Hr, (u32_small (bytes - src)), (u32_small (src + padded)) by lia. change (0 <? 0) with false. cbn iota. rewrite (proj2 (Z.leb_le bytes (src + padded))) by lia. rewrite (Z.min_l (bytes - src)) by lia. cbn [remaining_bytes_of_nonaligned_page set_rest Z.ltb Z.compare]. rewrite (proj2 (Z.eqb_neq _ 0)) by lia.
  unfold read_queue. cbn [user set_rest contig_dst_offset]. rewrite (u32_small (rd + src)) by lia. destruct (host_store _ _ _); cbn; rewrite ?u32_small by lia; done.
Qed.

(** What the parts of a turn have in common. *)
Lemma copy_turn_row sysmem rd avail r :
  copy_turn sysmem d rd avail r =
    (n ← div_up (Z.min (remaining_bytes_to_read r) avail) TRANSFER_PAGE_SIZE;
     r' ← copy_ragged sysmem d rd (Z.min (remaining_bytes_to_read r) avail) (set_to_read (remaining_bytes_to_read r - Z.min (remaining_bytes_to_read r) avail) r);
     mret (n, r')).
Proof using Hrow Hpage. unfold copy_turn, copy_part. rewrite Hrow, (proj2 (Z.eqb_neq page padded)) by lia. done. Qed.

(** The turn that ends within the padding: both its stores, and what it leaves. *)
Lemma copy_cut sysmem rd bytes n r :
  offset_in_completion_q_data r = 0 -> 0 < rest r -> n = bytes - rest r -> 0 < n < padded - page -> n < page -> rest r <= page ->
  0 <= rd -> rd + bytes < 2 ^ 32 -> 0 <= contig_dst_offset r -> contig_dst_offset r + bytes < 2 ^ 32 -> contig_dst_offset r + rest r <= Z.of_nat (length (user r)) ->
  copy_ragged sysmem d rd bytes r =
    (user ← host_store (contig_dst_offset r + rest r) (read_mem sysmem (rd + rest r) n) (put (contig_dst_offset r) (read_mem sysmem rd (rest r)) (user r));
     mret (set_contig (contig_dst_offset r + bytes) (set_user user (set_offset (padded - page - n) (set_rest (page - n) r))))).
Proof using Hpage Hbound.
  intros Ho Hr Hn Hcut Hp Hrp Hrd Hb Hc1 Hc2 Hl. unfold copy_ragged. rewrite Ho. replace (Z.to_nat bytes) with (S (S (Z.to_nat bytes - 2))) by lia. cbn [while_res src_offset].
  rewrite (proj2 (Z.ltb_lt 0 bytes)) by lia. rewrite step_rest by (cbn; lia). rewrite res_bind_ret. cbn [while_res src_offset].
  cbn [remaining_bytes_of_nonaligned_page contig_dst_offset user set_offset]. rewrite !Z.add_0_l, !Z.add_0_r, (proj2 (Z.ltb_lt (rest r) bytes)) by lia.
  rewrite (step_start _ _ _ _ _ _ n) by (cbn; lia). cbn [user set_contig set_user set_offset set_rest contig_dst_offset]. replace (contig_dst_offset r + bytes) with (contig_dst_offset r + rest r + n) by lia.
  destruct (host_store _ _ _) as [u|e]; cbn; [|done]. destruct (Z.to_nat bytes - 2)%nat; cbn [while_res src_offset]; rewrite (proj2 (Z.ltb_ge (rest r + padded) bytes)) by lia; rewrite ?res_bind_ret; cbn [ragged]; replace (bytes - 0 - rest r) with n by lia; done.
Qed.

(** The step that takes a part of what is left of a page. *)
Lemma step_half sysmem rd bytes base src dst n r :
  0 <= src -> 0 <= rd -> rd + bytes < 2 ^ 32 -> n = bytes - src -> 0 < n < rest r -> 0 <= dst -> dst + n < 2 ^ 32 ->
  0 <= contig_dst_offset r -> contig_dst_offset r + n < 2 ^ 32 -> 0 <= base -> base + dst + n <= Z.of_nat (length (user r)) ->
  ragged_step sysmem d rd bytes base (mkRagged src dst r) =
    Ok (mkRagged bytes (dst + n) (set_contig (contig_dst_offset r + n) (set_user (put (base + dst) (read_mem sysmem (rd + src) n) (user r)) (set_rest (rest r - n) r)))).
Proof using Hpage Hbound.
  intros Hs Hrd Hb Hn Hr Hd1 Hd2 Hc1 Hc2 Hbase Hl. unfold ragged_step, next_bytes. cbn [src_offset dst_offset ragged].
  rewrite (u32_small (bytes - src)), (proj2 (Z.ltb_lt 0 _)), Z.min_r by lia. rewrite <- Hn. cbn [remaining_bytes_of_nonaligned_page set_rest]. rewrite (proj2 (Z.eqb_neq _ 0)) by lia.
  unfold read_queue. cbn [user set_rest contig_dst_offset]. rewrite (u32_small (rd + src)), host_store_put by (rewrite ?length_read_mem; lia). rewrite res_bind_ret, !u32_small by lia. by replace (src + n) with bytes by lia.
Qed.

(** The turn after it, when it takes less than the rest of the page. *)
Lemma copy_half sysmem rd bytes n r :
  0 <= offset_in_completion_q_data r -> n = bytes - offset_in_completion_q_data r -> 0 < n < rest r ->
  0 <= rd -> rd + bytes < 2 ^ 32 -> 0 <= contig_dst_offset r -> contig_dst_offset r + n < 2 ^ 32 -> contig_dst_offset r + n <= Z.of_nat (length (user r)) ->
  exists r', copy_ragged sysmem d rd bytes r = Ok r' /\ user r' = put (contig_dst_offset r) (read_mem sysmem (rd + offset_in_completion_q_data r) n) (user r).
Proof using Hpage Hbound.
  intros Ho Hn Hr Hrd Hb Hc1 Hc2 Hl. unfold copy_ragged. replace (Z.to_nat bytes) with (S (Z.to_nat bytes - 1)) by lia. cbn [while_res src_offset]. rewrite (proj2 (Z.ltb_lt _ bytes)) by lia.
  rewrite (step_half _ _ _ _ _ _ n) by (cbn; lia). rewrite res_bind_ret. destruct (Z.to_nat bytes - 1)%nat; cbn [while_res src_offset]; rewrite Z.ltb_irrefl, res_bind_ret; eexists; (split; [reflexivity|]); cbn; by rewrite Z.add_0_r.
Qed.
End Cut.

(** C34: A transfer that ends within the padding of a page shifts the pages behind it.
    For a row of padded pages, a page of which some bytes are still to come, and a turn
    that brings these and a part of the padding, though not all of it: the loop stores the
    padding that has arrived behind the page, as if the next page began with it, and the
    next turn stores the beginning of that page so many bytes too far on.  Where the user's
    memory ends with the page, the store of the padding lies outside of it. *)
Theorem cut_padding_shifts_page d sysmem rd avail cut r :
  rb_mapping d = None -> 0 < rb_page_size d < rb_padded_page_size d -> 2 * rb_padded_page_size d < 2 ^ 32 ->
  0 < remaining_bytes_of_nonaligned_page r <= rb_page_size d -> offset_in_completion_q_data r = 0 ->
  Z.min (remaining_bytes_to_read r) avail = remaining_bytes_of_nonaligned_page r + cut -> 0 < cut < rb_padded_page_size d - rb_page_size d -> cut < rb_page_size d ->
  0 <= rd -> rd + 2 * rb_padded_page_size d + TRANSFER_PAGE_SIZE < 2 ^ 32 -> 0 <= contig_dst_offset r -> contig_dst_offset r + 2 * rb_padded_page_size d < 2 ^ 32 ->
  let next := contig_dst_offset r + remaining_bytes_of_nonaligned_page r in
  next <= Z.of_nat (length (user r)) ->
  (Z.of_nat (length (user r)) < next + cut -> copy_turn sysmem d rd avail r = Err Undefined) /\
  (next + cut <= Z.of_nat (length (user r)) ->
    exists n r', copy_turn sysmem d rd avail r = Ok (n, r') /\
      user r' = put (contig_dst_offset r) (read_mem sysmem rd (remaining_bytes_of_nonaligned_page r + cut)) (user r) /\
      forall sysmem' rd' avail' got,
        Z.min (remaining_bytes_to_read r') avail' = rb_padded_page_size d - rb_page_size d - cut + got -> 0 < got < rb_page_size d - cut ->
        0 <= rd' -> rd' + 2 * rb_padded_page_size d + TRANSFER_PAGE_SIZE < 2 ^ 32 -> next + cut + got <= Z.of_nat (length (user r)) ->
        exists n' r'', copy_turn sysmem' d rd' avail' r' = Ok (n', r'') /\
          user r'' = put (next + cut) (read_mem sysmem' (rd' + (rb_padded_page_size d - rb_page_size d - cut)) got) (user r')).
Proof.
  intros Hrow Hpage Hbd Hr Ho Hm Hcut Hcp Hrd Hb Hc1 Hc2 next Hl. pose proof (eq_refl : TRANSFER_PAGE_SIZE = 4096) as Htp. assert (forall sysmem rd avail r, copy_turn sysmem d rd avail r = _) as Et by exact (copy_turn_row d Hrow Hpage).
  pose proof (copy_cut d Hpage Hbd sysmem rd (remaining_bytes_of_nonaligned_page r + cut) cut
    (set_to_read (remaining_bytes_to_read r - (remaining_bytes_of_nonaligned_page r + cut)) r) Ho ltac:(cbn; lia) ltac:(cbn; lia) ltac:(lia) Hcp ltac:(cbn; lia) Hrd
    ltac:(lia) ltac:(cbn; lia) ltac:(cbn; lia) ltac:(cbn; lia)) as E.
  assert (length (put (contig_dst_offset r) (read_mem sysmem rd (remaining_bytes_of_nonaligned_page r)) (user r)) = length (user r)) as Elen by (apply length_put; rewrite ?length_read_mem; lia).
  cbn [user set_to_read contig_dst_offset remaining_bytes_of_nonaligned_page] in E. fold next in E. split.
  - intros Hs. rewrite Et, Hm, E. unfold host_store. rewrite Elen, length_read_mem, (proj2 (Z.leb_gt _ (Z.of_nat (length (user r))))) by lia. by rewrite andb_false_r.
  - intros Hs. rewrite Et, Hm, E, host_store_put by (rewrite ?Elen, ?length_read_mem; lia). eexists _, _. split; [reflexivity|].
    cbn [user set_contig set_user]. split; [apply put_next; lia|]. intros sysmem' rd' avail' got Hm' Hg Hrd' Hb' Hl'. rewrite Et. cbn in Hm'.
    match goal with |- context [copy_ragged sysmem' d rd' ?b ?c] => destruct (copy_half d Hpage Hbd sysmem' rd' b got c) as (r'' & E'' & H'');
      [cbn; (lia || (rewrite length_put, Elen; rewrite ?Elen, ?length_read_mem; lia))..|] end.
    rewrite E''. eexists _, r''. split; [reflexivity|]. rewrite H''. cbn. f_equal; lia.
Qed.

(** Two pages of 8170 bytes that take 8192 with their padding: a command of sevens, the
    pages of ones and twos, padding of zeros. *)
Definition cut_descriptor : ReadBufferDescriptor := mkReadBuffer 8170 8192 None 0 2 0.
Definition cut_memory (x : Z) : Z := if x <? 16 then 7 else if (x - 16) mod 8192 <? 8170 then 1 + (x - 16) / 8192 else 0.

Definition bytes_of (n b : Z) : list Z := replicate (Z.to_nat n) b.
Definition cut_read (n : Z) : res (list Z) :=
  '(_, r) ← copy_turn cut_memory cut_descriptor 0 4096 (Reader_new cut_descriptor (bytes_of n 9));
  '(_, r) ← copy_turn cut_memory cut_descriptor 4096 4096 r;
  '(_, r) ← copy_turn cut_memory cut_descriptor 8192 12288 r;
  mret (user r).

(** A list as its runs: a byte and how often it comes. *)
Fixpoint runs (l : list Z) : list (Z * Z) :=
  match l with
  | [] => []
  | b :: l => match runs l with (b', n) :: rs => if b =? b' then (b, n + 1) :: rs else (b, 1) :: (b', n) :: rs | [] => [(b, 1)] end
  end.

(** The reader once the first 4096 bytes have come: 4090 bytes of the first page are still to come. *)
Definition cut_reader (n : Z) : Reader :=
  match copy_turn cut_memory cut_descriptor 0 4096 (Reader_new cut_descriptor (bytes_of n 9)) with Ok (_, r) => r | Err _ => Reader_new cut_descriptor [] end.

(** All of the read: the second page is six bytes out of place and loses its last six, and
    the last turn stores six bytes past the two pages. *)
Example cut_read_runs :
  runs (delivered cut_descriptor (map cut_memory (seqZ 0 16400)) (bytes_of 16346 9) 2) = [(1, 8170); (2, 8170); (9, 6)] /\
  runs <$> cut_read 16346 = Ok [(1, 8170); (0, 6); (2, 8164); (0, 6)] /\
  cut_read 16340 = Err Undefined.
Proof. split_and!; vm_compute; reflexivity. Qed.

Lemma cut_padding_shifts_page_witness :
  (exists n r', copy_turn cut_memory cut_descriptor 4096 4096 (cut_reader 16346) = Ok (n, r') /\ runs (take (Z.to_nat 8176) (user r')) = [(1, 8170); (0, 6)]) /\
  copy_turn cut_memory cut_descriptor 4096 4096 (cut_reader 8170) = Err Undefined.
Proof.
  split.
  - destruct (cut_padding_shifts_page cut_descriptor cut_memory 4096 4096 6 (cut_reader 16346)) as [_ H]; [vm_compute; intuition congruence..|].
    destruct (H ltac:(vm_compute; congruence)) as (n & r' & E & Hu & _). exists n, r'. split; [exact E|]. rewrite Hu. vm_compute. reflexivity.
  - destruct (cut_padding_shifts_page cut_descriptor cut_memory 4096 4096 6 (cut_reader 8170)) as [H _]; [vm_compute; intuition congruence..|]. apply H. vm_compute. reflexivity.
Defined.
