(* ===== verification/CompletionQueue.v ===== *)
(** * The completion queue between the dispatcher and the host

    The dispatcher kernel writes the data of a command to host memory, page by page
    around a ring, and tells the host its write pointer; the reader thread of the
    command queue takes what has arrived, and tells the dispatcher its read pointer
    (tt_metal/impl/dispatch/kernels/cq_dispatch.cpp, process_write_host_h and the
    functions it calls; command_queue.cpp, copy_into_user_space;
    command_queue_interface.hpp, completion_queue_wait_front and
    completion_queue_pop_front).  Writes in either direction arrive in their order, some
    time later. *)

From S2P Require Import Prelude Memory WorkSplit SystemMemory Buffers BufferIO CompletionCopy.

(** ** The dispatcher *)

(** The fields of CQWriteInterface the dispatcher uses. *)
Record CQWriteInterface := mkCQWrite {
  completion_fifo_wr_ptr : Z;
  completion_fifo_wr_toggle : Z;
}.

(** Compile-time arguments of the kernel. *)
Record DispatchArgs := mkDispatchArgs {
  completion_queue_base_addr : Z;
  completion_queue_size : Z;
  dispatch_cb_log_page_size : Z;
}.

(** A write to host memory on its way: bytes of the queue, or the write pointer. *)
Inductive Post :=
  | Bytes (addr : Z) (data : list Z)
  | WritePtr (ptr_and_toggle : Z).

Section Dispatcher.
Context (a : DispatchArgs).

Definition completion_queue_page_size : Z := u32 (Z.shiftl 1 (dispatch_cb_log_page_size a)).
Definition completion_queue_end_addr : Z := u32 (completion_queue_base_addr a + completion_queue_size a).
Definition completion_queue_size_16B : Z := Z.shiftr (completion_queue_size a) 4.
Definition completion_queue_page_size_16B : Z := Z.shiftr completion_queue_page_size 4.
Definition completion_queue_end_addr_16B : Z := Z.shiftr completion_queue_end_addr 4.
Definition completion_queue_base_addr_16B : Z := Z.shiftr (completion_queue_base_addr a) 4.

(** The loop of completion_queue_reserve_back ends on a word of the read pointer that
    leaves room for the pages. *)
Definition has_space (num_pages completion_rd_ptr_and_toggle : Z) (w : CQWriteInterface) : bool :=
  let data_size_16B := u32 (num_pages * completion_queue_page_size_16B) in
  let completion_rd_ptr := Z.land completion_rd_ptr_and_toggle 0x7fffffff in
  let completion_rd_toggle := Z.shiftr completion_rd_ptr_and_toggle 31 in
  let available_space :=
    if negb (completion_rd_toggle =? completion_fifo_wr_toggle w)
    then u32 (completion_rd_ptr - completion_fifo_wr_ptr w)
    else u32 (completion_queue_size_16B - u32 (completion_fifo_wr_ptr w - completion_rd_ptr)) in
  negb (available_space <? data_size_16B).

Definition completion_wr_ptr_and_toggle (w : CQWriteInterface) : Z :=
  u32 (Z.lor (completion_fifo_wr_ptr w) (Z.shiftl (completion_fifo_wr_toggle w) 31)).

Definition notify_host_of_completion_queue_write_pointer (w : CQWriteInterface) : list Post := [WritePtr (completion_wr_ptr_and_toggle w)].

Definition completion_queue_push_back (num_pages : Z) (w : CQWriteInterface) : CQWriteInterface * list Post :=
  let push_size_16B := u32 (num_pages * completion_queue_page_size_16B) in
  let ptr := u32 (completion_fifo_wr_ptr w + push_size_16B) in
  let w :=
    if completion_queue_end_addr_16B <=? ptr
    then mkCQWrite (u32 (ptr - completion_queue_end_addr_16B + completion_queue_base_addr_16B)) (Z.b2z (completion_fifo_wr_toggle w =? 0))
    else mkCQWrite ptr (completion_fifo_wr_toggle w) in
  (w, notify_host_of_completion_queue_write_pointer w).

(** One turn of the loop of process_write_host_h, once there is data: [data] is what is
    left of the command, [available_data] how much of it the dispatch buffer holds.
    [None]: the reservation still waits. *)
Definition write_host (available_data completion_rd_ptr_and_toggle : Z) (data : list Z) (w : CQWriteInterface) : option (CQWriteInterface * list Post * list Z) :=
  let length := Z.of_nat (length data) in
  let xfer_size := if available_data <? length then available_data else length in
  let npages := u32 (xfer_size + completion_queue_page_size - 1) / completion_queue_page_size in
  if has_space npages completion_rd_ptr_and_toggle w then
    let completion_queue_write_addr := u32 (Z.shiftl (completion_fifo_wr_ptr w) 4) in
    let xfer := take (Z.to_nat xfer_size) data in
    let writes :=
      if completion_queue_end_addr <? u32 (completion_queue_write_addr + xfer_size) then
        let last_chunk_size := Z.to_nat (u32 (completion_queue_end_addr - completion_queue_write_addr)) in
        [Bytes completion_queue_write_addr (take last_chunk_size xfer); Bytes (completion_queue_base_addr a) (drop last_chunk_size xfer)]
      else [Bytes completion_queue_write_addr xfer] in
    let '(w, notify) := completion_queue_push_back npages w in
    Some (w, writes ++ notify, drop (Z.to_nat xfer_size) data)
  else None.
End Dispatcher.

(** ** As the driver sets the queue up

    The compile-time arguments of the kernel, the word that both pointers start from
    (Device::compile_command_queue_programs, Device::configure_command_queue_programs),
    and what the kernel makes of it. *)

Definition dispatch_hd_args (channel cq_id cq_size cq_start : Z) (c : SystemMemoryCQInterface) : DispatchArgs :=
  let command_queue_start_addr := get_absolute_cq_offset channel cq_id cq_size in
  let issue_queue_start_addr := u32 (command_queue_start_addr + cq_start) in
  mkDispatchArgs (u32 (issue_queue_start_addr + issue_queue_size_of c)) (u32 (Z.shiftl (completion_fifo_size c) 4)) DISPATCH_BUFFER_LOG_PAGE_SIZE.

Definition completion_queue_start_addr_16B (channel cq_id cq_size cq_start : Z) (c : SystemMemoryCQInterface) : Z :=
  let completion_queue_start_addr := u32 (u32 (cq_start + issue_queue_size_of c) + get_absolute_cq_offset channel cq_id cq_size) in
  Z.shiftr completion_queue_start_addr 4.

Definition start_dispatcher (completion_queue_wr_ptr_and_toggle : Z) : CQWriteInterface :=
  mkCQWrite (Z.land completion_queue_wr_ptr_and_toggle 0x7fffffff) (Z.shiftr completion_queue_wr_ptr_and_toggle 31).

(** ** Dispatcher and reader together *)

Record CompletionSystem := mkCompletion {
  (** the dispatcher: its write pointer, what is left of its command and how much of it
      is in the dispatch buffer, and the word of its memory the host's read pointer goes to *)
  dispatcher : CQWriteInterface;
  command : list Z;
  available : Z;
  read_word : Z;
  (** on the way to the host, and to the dispatcher *)
  to_host : list Post;
  to_device : list Z;
  (** the host: its memory, the word the write pointer goes to, the queue's interface and
      the reader *)
  host_memory : Z -> Z;
  write_word : Z;
  interface : SystemMemoryCQInterface;
  reader : Reader;
}.

(** completion_queue_wait_front goes on. *)
Definition front_ready (write_ptr_and_toggle : Z) (c : SystemMemoryCQInterface) : bool :=
  negb ((completion_fifo_rd_ptr c =? Z.land write_ptr_and_toggle 0x7fffffff) && (Z.b2z (completion_fifo_rd_toggle c) =? Z.shiftr write_ptr_and_toggle 31)).

(** One turn of the loop of copy_into_user_space: wait for data, copy it, pop its pages.
    [None]: it still waits. *)
Definition read_turn (d : ReadBufferDescriptor) (s : CompletionSystem) : option (res (SystemMemoryCQInterface * Z * Reader)) :=
  let c := interface s in
  if front_ready (write_word s) c then
    let read_ptr := u32 (Z.shiftl (completion_fifo_rd_ptr c) 4) in
    let avail := bytes_avail_in_completion_queue (u32 (Z.shiftl (completion_fifo_limit c) 4)) (write_word s) read_ptr (Z.b2z (completion_fifo_rd_toggle c)) in
    Some ('(num_pages_xfered, r) ← copy_turn (host_memory s) d read_ptr avail (reader s);
      let c := pop_completion num_pages_xfered c in
      mret (c, rd_ptr_and_toggle c, r))
  else None.

Definition arrive (m : Post) (mem : Z -> Z) (word : Z) : (Z -> Z) * Z :=
  match m with Bytes addr data => (write_mem addr data mem, word) | WritePtr v => (mem, v) end.

Section System.
Context (a : DispatchArgs) (d : ReadBufferDescriptor) (pages_per_block : Z).

(** [None]: the exception, or worse, of the reader. *)
Inductive step : CompletionSystem -> option CompletionSystem -> Prop :=
  (** cb_acquire_pages: pages of the dispatch buffer, at most to the end of a block *)
  | step_acquire w data rd th td mem wr c r pages :
      data <> [] -> 1 <= pages <= pages_per_block ->
      step (mkCompletion w data 0 rd th td mem wr c r) (Some (mkCompletion w data (pages * completion_queue_page_size a) rd th td mem wr c r))
  | step_write w w' data data' av rd th td mem wr c r posts :
      data <> [] -> 0 < av -> write_host a av rd data w = Some (w', posts, data') ->
      step (mkCompletion w data av rd th td mem wr c r)
        (Some (mkCompletion w' data' (av - Z.of_nat (length data - length data')) rd (th ++ posts) td mem wr c r))
  | step_arrive w data av rd m th td mem wr c r :
      step (mkCompletion w data av rd (m :: th) td mem wr c r)
        (Some (mkCompletion w data av rd th td (arrive m mem wr).1 (arrive m mem wr).2 c r))
  | step_credit w data av rd th v td mem wr c r :
      step (mkCompletion w data av rd th (v :: td) mem wr c r) (Some (mkCompletion w data av v th td mem wr c r))
  | step_read s c v r :
      remaining_bytes_to_read (reader s) <> 0 -> read_turn d s = Some (Ok (c, v, r)) ->
      step s (Some (mkCompletion (dispatcher s) (command s) (available s) (read_word s) (to_host s) (to_device s ++ [v]) (host_memory s) (write_word s) c r))
  | step_fail s f :
      remaining_bytes_to_read (reader s) <> 0 -> read_turn d s = Some (Err f) -> step s None.

(** Runs, and those that have come to their end. *)
Inductive run : CompletionSystem -> option CompletionSystem -> Prop :=
  | run_done s : run s (Some s)
  | run_step s s1 s2 : step s (Some s1) -> run s1 s2 -> run s s2
  | run_fail s : step s None -> run s None.
Definition stuck (s : CompletionSystem) : Prop := forall s', ~ step s s'.
End System.
