(* ===== verification/CompletionRing.v ===== *)
(** * The completion queue: pointers and toggles

    Both sides keep a pointer into the ring and a toggle.  Here the two stand for the
    number of pages that have gone through the queue, and the tests of either side are
    tests of such numbers. *)

From Stdlib Require Import Lia.
From S2P Require Import Prelude Memory WorkSplit SystemMemory Buffers BufferIO CompletionCopy CompletionQueue.

#[local] Ltac Zify.zify_post_hook ::= Z.to_euclidean_division_equations.

(** The queue as both sides are configured: [pages] pages of 4096 bytes from word [base] on. *)
Record ring_ok (a : DispatchArgs) (base pages : Z) : Prop := mkRing {
  ro_pages : 0 < pages;
  ro_base : 0 <= base;
  ro_end : base * 16 + pages * 4096 < 2 ^ 32;
  ro_addr : completion_queue_base_addr a = base * 16;
  ro_size : completion_queue_size a = pages * 4096;
  ro_log : dispatch_cb_log_page_size a = DISPATCH_BUFFER_LOG_PAGE_SIZE;
}.
#[global] Arguments ro_pages {a base pages} _.
#[global] Arguments ro_base {a base pages} _.
#[global] Arguments ro_end {a base pages} _.
#[global] Arguments ro_addr {a base pages} _.
#[global] Arguments ro_size {a base pages} _.
#[global] Arguments ro_log {a base pages} _.

Section Ring.
Context (a : DispatchArgs) (base pages : Z).
Hypothesis Hr : ring_ok a base pages.

(** The pointer, in words of 16 bytes, the toggle and the word of both, [c] pages on. *)
Definition slot (c : Z) : Z := base + c mod pages * 256.
Definition lap (c : Z) : Z := (c / pages) mod 2.
Definition word (c : Z) : Z := slot c + lap c * 2 ^ 31.

Definition device_at (c : Z) : CQWriteInterface := mkCQWrite (slot c) (lap c).
Definition host_at (c : Z) (i : SystemMemoryCQInterface) : Prop :=
  issue_fifo_limit i = base /\ completion_fifo_limit i = base + pages * 256 /\ completion_fifo_rd_ptr i = slot c /\ Z.b2z (completion_fifo_rd_toggle i) = lap c.

Lemma ring_slot_range c : 0 <= base <= slot c /\ slot c + 256 <= base + pages * 256 /\ base + pages * 256 < 2 ^ 28.
Proof using Hr. pose proof (ro_pages Hr). pose proof (ro_base Hr). pose proof (ro_end Hr) as He. pose proof (Z.mod_pos_bound c pages ltac:(lia)). unfold slot. pow2. change (2 ^ 28) with 268435456. lia. Qed.

Lemma lap_range c : 0 <= lap c <= 1.
Proof using. pose proof (Z.mod_pos_bound (c / pages) 2 ltac:(lia)). unfold lap. lia. Qed.

Lemma lor_word c : u32 (Z.lor (slot c) (Z.shiftl (lap c) 31)) = word c.
Proof using Hr.
  pose proof (ring_slot_range c) as H. pose proof (lap_range c). change (2 ^ 28) with 268435456 in H. rewrite Z.shiftl_mul_pow2, lor_add' by (pow2; lia). rewrite u32_small by (pow2; lia). unfold word. lia.
Qed.

Lemma word_ptr c : Z.land (word c) 0x7fffffff = slot c.
Proof using Hr.
  pose proof (ring_slot_range c) as H. change (2 ^ 28) with 268435456 in H. change 0x7fffffff with (Z.ones 31). rewrite Z.land_ones by lia. unfold word.
  rewrite Z.mod_add by lia. apply Z.mod_small. pow2. lia.
Qed.

Lemma word_toggle c : Z.shiftr (word c) 31 = lap c.
Proof using Hr.
  pose proof (ring_slot_range c) as H. change (2 ^ 28) with 268435456 in H. rewrite Z.shiftr_div_pow2 by lia. unfold word. rewrite Z.div_add by lia. rewrite Z.div_small by (pow2; lia). lia.
Qed.

(** [k] pages on, within the ring's length. *)
Lemma slot_add c k : 0 <= k <= pages -> slot (c + k) = if c mod pages + k <? pages then slot c + k * 256 else slot c + k * 256 - pages * 256.
Proof using Hr. pose proof (ro_pages Hr). intros Hk. unfold slot. rewrite ring_mod by lia. case_match; lia. Qed.

Lemma lap_add c k : 0 <= k <= pages -> lap (c + k) = if c mod pages + k <? pages then lap c else 1 - lap c.
Proof using Hr.
  pose proof (ro_pages Hr). intros Hk. unfold lap. rewrite ring_div by lia. case_match; [done|]. pose proof (Z.div_mod (c / pages) 2 ltac:(lia)). pose proof (Z.mod_pos_bound (c / pages) 2 ltac:(lia)).
  destruct (decide ((c / pages) mod 2 = 0)); symmetry; [apply (Z.mod_unique _ _ (c / pages / 2))|apply (Z.mod_unique _ _ (c / pages / 2 + 1))]; lia.
Qed.

Lemma page_size_16B : completion_queue_page_size a = 4096 /\ completion_queue_page_size_16B a = 256.
Proof using Hr. unfold completion_queue_page_size_16B, completion_queue_page_size. by rewrite (ro_log Hr). Qed.

Lemma end_addr : completion_queue_end_addr a = base * 16 + pages * 4096.
Proof using Hr. pose proof (ro_pages Hr). pose proof (ro_base Hr). pose proof (ro_end Hr). unfold completion_queue_end_addr. rewrite (ro_addr Hr), (ro_size Hr). apply u32_small. lia. Qed.

(** ** The dispatcher's side *)

Lemma push_back_at c n : 0 <= n <= pages -> completion_queue_push_back a n (device_at c) = (device_at (c + n), [WritePtr (word (c + n))]).
Proof using Hr.
  intros Hn. pose proof (ring_slot_range c) as H. pose proof (ring_slot_range (c + n)) as H2. change (2 ^ 28) with 268435456 in *. pose proof (ro_end Hr). pose proof (lap_range c).
  unfold completion_queue_push_back, device_at, notify_host_of_completion_queue_write_pointer, completion_wr_ptr_and_toggle, completion_queue_end_addr_16B, completion_queue_base_addr_16B.
  rewrite (proj2 page_size_16B), end_addr, (ro_addr Hr), !Z.shiftr_div_pow2 by lia. change (2 ^ 4) with 16.
  replace ((base * 16 + pages * 4096) / 16) with (base + pages * 256) by (replace (base * 16 + pages * 4096) with ((base + pages * 256) * 16) by lia; by rewrite Z.div_mul).
  rewrite Z.div_mul by lia. cbn [completion_fifo_wr_ptr completion_fifo_wr_toggle]. rewrite (u32_small (n * 256)), (u32_small (slot c + _)) by (pow2; lia).
  pose proof (slot_add c n Hn) as Hs. pose proof (lap_add c n Hn) as Hl. unfold slot in Hs at 2 3. destruct (Z.ltb_spec (c mod pages + n) pages).
  - rewrite (proj2 (Z.leb_gt _ _)) by (unfold slot; lia). cbn [completion_fifo_wr_ptr completion_fifo_wr_toggle].
    replace (slot c + n * 256) with (slot (c + n)) by (unfold slot in *; lia). rewrite <- Hl, lor_word. done.
  - rewrite (proj2 (Z.leb_le _ _)) by (unfold slot; lia). cbn [completion_fifo_wr_ptr completion_fifo_wr_toggle].
    assert (Z.b2z (lap c =? 0) = lap (c + n)) as -> by (rewrite Hl; destruct (Z.eqb_spec (lap c) 0); cbn; lia).
    replace (slot c + n * 256 - (base + pages * 256) + base) with (slot (c + n)) by (unfold slot in *; lia). rewrite u32_small by (pow2; lia). by rewrite lor_word.
Qed.

Lemma has_space_at c k n : 0 <= k <= pages -> 0 <= n <= pages -> has_space a n (word c) (device_at (c + k)) = (n <=? pages - k).
Proof using Hr.
  intros Hk Hn. pose proof (ring_slot_range c) as H. pose proof (ring_slot_range (c + k)) as H2. change (2 ^ 28) with 268435456 in *. pose proof (lap_range c). pose proof (ro_pages Hr).
  unfold has_space, device_at, completion_queue_size_16B. rewrite word_ptr, word_toggle, (proj2 page_size_16B), (ro_size Hr), Z.shiftr_div_pow2 by lia. change (2 ^ 4) with 16.
  replace (pages * 4096 / 16) with (pages * 256) by (replace (pages * 4096) with (pages * 256 * 16) by lia; by rewrite Z.div_mul). cbn [completion_fifo_wr_ptr completion_fifo_wr_toggle].
  rewrite (u32_small (n * 256)) by (pow2; lia). rewrite lap_add, slot_add by lia. destruct (Z.ltb_spec (c mod pages + k) pages).
  - rewrite Z.eqb_refl. cbn [negb]. rewrite (u32_small (slot c + _ - _)), (u32_small (pages * 256 - _)) by (pow2; lia).
    destruct (Z.leb_spec n (pages - k)); [rewrite (proj2 (Z.ltb_ge _ _)) by lia|rewrite (proj2 (Z.ltb_lt _ _)) by lia]; done.
  - rewrite (proj2 (Z.eqb_neq (lap c) _)) by lia. cbn [negb]. rewrite u32_small by (pow2; lia).
    destruct (Z.leb_spec n (pages - k)); [rewrite (proj2 (Z.ltb_ge _ _)) by lia|rewrite (proj2 (Z.ltb_lt _ _)) by lia]; done.
Qed.

(** ** The host's side *)

Lemma front_ready_at i c k : host_at c i -> 0 <= k <= pages -> front_ready (word (c + k)) i = (0 <? k).
Proof using Hr.
  intros (_ & _ & Hp & Ht) Hk. unfold front_ready. rewrite Hp, Ht, word_ptr, word_toggle, slot_add, lap_add by lia. pose proof (lap_range c). pose proof (ro_pages Hr).
  destruct (Z.ltb_spec (c mod pages + k) pages).
  - rewrite Z.eqb_refl, andb_true_r. destruct (Z.ltb_spec 0 k); [by rewrite (proj2 (Z.eqb_neq _ _)) by lia|]. by rewrite (proj2 (Z.eqb_eq _ _)) by lia.
  - rewrite (proj2 (Z.eqb_neq (lap c) _)) by lia. rewrite andb_false_r. symmetry. pose proof (Z.mod_pos_bound c pages ltac:(lia)). apply Z.ltb_lt. lia.
Qed.

Lemma read_ptr_at i c : host_at c i -> u32 (Z.shiftl (completion_fifo_rd_ptr i) 4) = slot c * 16.
Proof using Hr.
  intros (_ & _ & Hp & _). rewrite Hp, Z.shiftl_mul_pow2 by lia. change (2 ^ 4) with 16. pose proof (ring_slot_range c) as H. change (2 ^ 28) with 268435456 in *. apply u32_small. pow2. lia.
Qed.

(** What is there in one piece. *)
Lemma bytes_avail_at i c k : host_at c i -> 0 < k <= pages ->
  bytes_avail_in_completion_queue (u32 (Z.shiftl (completion_fifo_limit i) 4)) (word (c + k)) (slot c * 16) (Z.b2z (completion_fifo_rd_toggle i))
  = Z.min k (pages - c mod pages) * 4096.
Proof using Hr.
  intros (_ & Hl & _ & Ht) Hk. unfold bytes_avail_in_completion_queue. pose proof (ring_slot_range c) as H. pose proof (ring_slot_range (c + k)) as H2. change (2 ^ 28) with 268435456 in *. pose proof (lap_range c). pose proof (ro_pages Hr).
  pose proof (ro_end Hr). rewrite word_ptr, word_toggle, Hl, Ht, !Z.shiftl_mul_pow2 by lia. change (2 ^ 4) with 16. rewrite !(u32_small (_ * 16)) by (pow2; lia).
  rewrite lap_add, slot_add by lia. unfold slot in *. destruct (Z.ltb_spec (c mod pages + k) pages).
  - rewrite (proj2 (Z.ltb_lt _ _)), Z.eqb_refl by lia. cbn [andb]. lia.
  - rewrite (proj2 (Z.eqb_neq _ (lap c))) by lia. rewrite andb_false_r. rewrite u32_small by (pow2; lia). lia.
Qed.

Lemma pop_at i c n : host_at c i -> 0 <= n -> c mod pages + n <= pages -> host_at (c + n) (pop_completion n i) /\ rd_ptr_and_toggle (pop_completion n i) = word (c + n).
Proof using Hr.
  intros (Hb & Hl & Hp & Ht) Hn Hle. pose proof (ring_slot_range c) as H. change (2 ^ 28) with 268435456 in *. pose proof (lap_range c). pose proof (ro_pages Hr). pose proof (Z.mod_pos_bound c pages ltac:(lia)).
  assert (host_at (c + n) (pop_completion n i)) as Hat.
  { unfold pop_completion, host_at. change TRANSFER_PAGE_SIZE with 4096. rewrite Z.shiftr_div_pow2 by lia. change (2 ^ 4) with 16. pose proof (ro_end Hr).
    rewrite (u32_small (n * 4096)) by (pow2; lia). replace (n * 4096 / 16) with (n * 256) by (replace (n * 4096) with (n * 256 * 16) by lia; by rewrite Z.div_mul).
    cbn [completion_fifo_rd_ptr completion_fifo_limit set_completion_rd completion_fifo_rd_toggle issue_fifo_limit]. rewrite Hp, Hl, u32_small by (pow2; lia). rewrite slot_add, lap_add by lia.
    unfold slot in *. destruct (Z.ltb_spec (c mod pages + n) pages).
    - rewrite (proj2 (Z.leb_gt _ _)) by lia. cbn. done.
    - rewrite (proj2 (Z.leb_le _ _)) by lia. cbn. split_and!; [done|done|lia|]. destruct (completion_fifo_rd_toggle i); cbn in *; lia. }
  split; [done|]. destruct Hat as (_ & _ & E1 & E2). unfold rd_ptr_and_toggle. by rewrite E1, E2, lor_word.
Qed.
End Ring.

(** ** The queue as it is set up *)

Record placed (channel cq_id cq_size cq_start : Z) : Prop := mkPlaced {
  pl_start : 0 <= cq_start <= cq_size;
  pl_room : 4 * TRANSFER_PAGE_SIZE <= cq_size - cq_start;
  pl_end : get_absolute_cq_offset channel cq_id cq_size + cq_size < 2 ^ 32;
  pl_aligned : get_absolute_cq_offset channel cq_id cq_size mod 16 = 0 /\ cq_start mod 16 = 0 /\ cq_size mod 16 = 0;
}.

Lemma new_queue p channel cq_id cq_size cq_start c :
  placed channel cq_id cq_size cq_start -> SystemMemoryCQInterface_new p channel cq_id cq_size cq_start = Ok c ->
  let a := dispatch_hd_args channel cq_id cq_size cq_start c in
  let base := issue_fifo_limit c in let pages := command_completion_region_size c / TRANSFER_PAGE_SIZE in
  let start := completion_queue_start_addr_16B channel cq_id cq_size cq_start c in
  ring_ok a base pages /\ host_at base pages 0 c /\ start = word base pages 0 /\ start_dispatcher start = device_at base pages 0.
Proof.
  intros [Hs Hroom Hend (Ho & Hs16 & Hz16)] H. unfold SystemMemoryCQInterface_new in H. unfold dispatch_hd_args, completion_queue_start_addr_16B, issue_queue_size_of.
  set (off := get_absolute_cq_offset channel cq_id cq_size) in *. assert (0 <= off) as Hoff by (apply u32_range). change TRANSFER_PAGE_SIZE with 4096 in *.
  rewrite (u32_small (cq_size - cq_start)) in H by lia. set (x := cq_size - cq_start) in *. set (n := x / 4096 / 4) in *. assert (1 <= n /\ n * 4096 * 4 <= x) as Hn by (unfold n; lia).
  rewrite (u32_small (n * 4096)) in H by lia. rewrite (u32_small (x - n * 4096)) in H by lia. set (region := x - n * 4096) in *. rewrite (u32_small (cq_start + region)) in H by lia.
  rewrite (u32_small (cq_start + region + off)), (u32_small (cq_start + off)) in H by lia. cbv zeta in H. res_inv. subst c. cbn [completion_fifo_size issue_fifo_size issue_fifo_limit command_completion_region_size].
  assert (x mod 16 = 0) as Hx16 by (unfold x; lia). assert (region mod 16 = 0) as Hr16 by (unfold region; lia).
  rewrite !Z.shiftr_div_pow2, !Z.shiftl_mul_pow2 by lia. change (2 ^ 4) with 16. replace (region / 16 * 16) with region by lia.
  replace (n * 4096 / 16 * 16) with (n * 4096) by lia. rewrite Z.div_mul by lia. rewrite (u32_small region), (u32_small (n * 4096)), (u32_small (off + cq_start)), (u32_small (off + cq_start + region)) by lia.
  rewrite (u32_small (cq_start + region)), (u32_small (cq_start + region + off)) by lia. set (base := (cq_start + region + off) / 16).
  assert (base * 16 = cq_start + region + off) as Hb by (unfold base; lia). assert (ring_ok (mkDispatchArgs (off + cq_start + region) (n * 4096) DISPATCH_BUFFER_LOG_PAGE_SIZE) base n) as Hring.
  { split; cbn; try done; unfold region, x in *; lia. }
  assert (word base n 0 = base) as Hw by (unfold word, slot, lap; rewrite Z.div_0_l, !Z.mod_0_l by lia; lia). pose proof (ring_slot_range _ _ _ Hring 0).
  split; [done|]. split; [|split; [done|]].
  - unfold host_at. cbn. fold base. unfold slot, lap. rewrite Z.div_0_l, !Z.mod_0_l by lia. split_and!; [done| |lia|done]. rewrite u32_small by (unfold base, region in *; lia). lia.
  - unfold start_dispatcher, device_at. rewrite <- Hw at 1 2. by rewrite (word_ptr _ _ _ Hring), (word_toggle _ _ _ Hring).
Qed.
