(* ===== verification/CompletionFlight.v ===== *)
(** * The completion queue: what is in host memory, and on its way there

    The bytes of a command from the first unread one on lie in the ring as far as the
    host has been told, and are there whenever it is told more. *)

From Stdlib Require Import Lia.
From S2P Require Import Prelude Memory WorkSplit SystemMemory Buffers BufferIO CompletionCopy CompletionCopyProps CompletionTurn CompletionQueue CompletionRing.

(** Pages up to a position of the stream. *)
Definition pg (p : Z) : Z := (p + 4095) / 4096.

#[local] Ltac Zify.zify_post_hook ::= Z.to_euclidean_division_equations.

Lemma pg_mul j : pg (j * 4096) = j.
Proof. unfold pg. rewrite Z.add_comm, Z.div_add by lia. change (4095 / 4096) with 0. lia. Qed.
Lemma pg_le p q : p <= q -> pg p <= pg q.
Proof. intros. unfold pg. apply Z.div_le_mono; lia. Qed.
Lemma pg_bounds p : p <= pg p * 4096 < p + 4096.
Proof. unfold pg. pose proof (Z.div_mod (p + 4095) 4096 ltac:(lia)). pose proof (Z.mod_pos_bound (p + 4095) 4096 ltac:(lia)). lia. Qed.
Lemma pg_nonneg p : 0 <= p -> 0 <= pg p.
Proof. pose proof (pg_bounds p). lia. Qed.

Section Flight.
Context (a : DispatchArgs) (base pages : Z) (stream : list Z) (c0 : Z).
Hypotheses (Hr : ring_ok a base pages) (Hc0 : 0 <= c0).

Abbreviation size := (pages * 4096).
Abbreviation wordp p := (word base pages (c0 + pg p)).
Abbreviation devicep p := (device_at base pages (c0 + pg p)).

(** Where the byte [q] of the stream lies, when the stream starts [c0] pages on. *)
Definition addr (q : Z) : Z := base * 16 + (c0 * 4096 + q) mod size.
Definition holds (mem : Z -> Z) (lo hi : Z) : Prop := forall q, lo <= q < hi -> mem (addr q) = stream !!! Z.to_nat q.

Lemma addr_add q k : 0 <= k <= size -> addr (q + k) = if addr q + k <? base * 16 + size then addr q + k else addr q + k - size.
Proof using Hr.
  intros Hk. pose proof (ro_pages Hr). unfold addr. rewrite Z.add_assoc, ring_mod by lia. destruct (Z.ltb_spec ((c0 * 4096 + q) mod size + k) size).
  - rewrite (proj2 (Z.ltb_lt _ _)) by lia. lia.
  - rewrite (proj2 (Z.ltb_ge _ _)) by lia. lia.
Qed.

Lemma addr_range q : base * 16 <= addr q < base * 16 + size.
Proof using Hr. pose proof (ro_pages Hr). pose proof (Z.mod_pos_bound (c0 * 4096 + q) size ltac:(lia)). unfold addr. lia. Qed.

(** The first byte of a page lies where the pointer says. *)
Lemma addr_page p : p mod 4096 = 0 -> addr p = slot base pages (c0 + pg p) * 16.
Proof using Hr.
  intros Hp. pose proof (ro_pages Hr). unfold addr, slot. apply Z.mod_divide in Hp as [j ->]; [|lia]. rewrite pg_mul, <- Z.mul_add_distr_r, Z.mul_mod_distr_r by lia. lia.
Qed.

(** A piece of the stream, written where it belongs. *)
Lemma queue_holds_write mem lo p m :
  0 <= lo <= p -> 0 <= m -> p + m <= Z.of_nat (length stream) -> addr p + m <= base * 16 + size -> p + m <= lo + size ->
  holds mem lo p -> holds (write_mem (addr p) (seg stream p m) mem) lo (p + m).
Proof using Hr.
  intros Hlo Hm Hlen Hpiece Hring H q Hq. assert (length (seg stream p m) = Z.to_nat m) as Hl by (apply length_seg; lia). pose proof (ro_pages Hr).
  destruct (Z.lt_ge_cases q p) as [Hqp|Hqp].
  - rewrite write_mem_out; [apply H; lia|]. rewrite Hl. pose proof (addr_add q (p - q) ltac:(lia)) as Ha. replace (q + (p - q)) with p in Ha by lia.
    destruct (Z.ltb_spec (addr q + (p - q)) (base * 16 + size)); lia.
  - replace q with (p + (q - p)) at 1 by lia. rewrite addr_add, (proj2 (Z.ltb_lt _ _)) by lia. rewrite <- (Z2Nat.id (q - p)) by lia. rewrite write_mem_in by lia.
    unfold seg. rewrite lookup_total_take_lt, lookup_total_drop by lia. f_equal. lia.
Qed.

Lemma holds_le mem lo lo' hi hi' : lo <= lo' -> hi' <= hi -> holds mem lo hi -> holds mem lo' hi'.
Proof using. intros H1 H2 H q Hq. apply H. lia. Qed.

(** What has arrived in one piece is what the reader takes. *)
Lemma holds_read mem p bytes : 0 <= p -> p + bytes <= Z.of_nat (length stream) -> addr p + bytes <= base * 16 + size -> holds mem p (p + bytes) ->
  forall off n, 0 <= off -> 0 <= n -> off + n <= bytes -> read_queue mem (addr p) off n = seg stream (p + off) n.
Proof using Hr.
  intros Hp Hlen Hpiece H off n Ho Hn Hle. pose proof (addr_range p). pose proof (ro_end Hr). pose proof (ro_base Hr). unfold read_queue. rewrite u32_small by lia.
  assert (length (seg stream (p + off) n) = Z.to_nat n) as Hl by (apply length_seg; lia).
  apply list_eq_same_length with (n := Z.to_nat n); [done|by rewrite length_read_mem|]. intros i x y Hi. rewrite read_mem_lookup by lia. intros [= <-].
  unfold seg. rewrite lookup_take_lt, lookup_drop by lia. intros Hy. replace (addr p + off + Z.of_nat i) with (addr (p + (off + Z.of_nat i)))
    by (rewrite addr_add, (proj2 (Z.ltb_lt _ _)) by (pose proof (ro_pages Hr); lia); lia).
  rewrite H by lia. apply list_lookup_total_correct. rewrite <- Hy. f_equal. lia.
Qed.

(** ** In flight

    The host has been told of [told] bytes; the writes on their way tell it of all up to
    [hi], and the bytes from [lo] on are there by then. *)
Fixpoint flight (lo hi : Z) (mem : Z -> Z) (told : Z) (posts : list Post) : Prop :=
  holds mem lo told /\
  match posts with
  | [] => told = hi
  | Bytes addr data :: posts => flight lo hi (write_mem addr data mem) told posts
  | WritePtr v :: posts => exists told', told <= told' <= hi /\ (told' mod 4096 = 0 \/ told' = Z.of_nat (length stream)) /\ v = wordp told' /\ flight lo hi mem told' posts
  end.

Lemma flight_holds lo hi mem told posts : flight lo hi mem told posts -> holds mem lo told.
Proof using. by destruct posts as [|[] ?]; intros [? _]. Qed.

Lemma flight_le lo lo' hi mem told posts : lo <= lo' -> flight lo hi mem told posts -> flight lo' hi mem told posts.
Proof using.
  intros Hle. revert mem told. induction posts as [|[] posts IH]; intros mem told [H1 H2]; (split; [by eapply holds_le; [done|reflexivity|done]|]); [done|by apply IH|].
  destruct H2 as (told' & ? & ? & ? & ?). exists told'. by auto.
Qed.

Lemma flight_app lo hi hi' mem told posts posts' :
  hi <= hi' -> flight lo hi mem told posts -> (forall mem, holds mem lo hi -> flight lo hi' mem hi posts') -> flight lo hi' mem told (posts ++ posts').
Proof using.
  intros Hle H Hk. revert mem told H. induction posts as [|[] posts IH]; intros mem told [H1 H2]; cbn [app].
  - subst told. by apply Hk.
  - split; [done|]. by apply IH.
  - split; [done|]. destruct H2 as (told' & ? & ? & ? & ?). exists told'. split_and!; [lia|lia|done|done|by apply IH].
Qed.

(** ** The turn of the dispatcher *)

Lemma pages_moved p n : p mod 4096 = 0 -> 0 <= n <= size -> pg (p + n) - pg p = pg n /\ 0 <= pg n <= pages.
Proof using.
  intros [j ->]%Z.mod_divide Hn; [|lia]. rewrite pg_mul. unfold pg. replace (j * 4096 + n + 4095) with (n + 4095 + j * 4096) by lia. rewrite Z.div_add by lia. split; [lia|].
  split; [apply Z.div_pos; lia|]. assert ((n + 4095) / 4096 < pages + 1) by (apply Z.div_lt_upper_bound; lia). lia.
Qed.

Lemma flight_told lo p q mem : p <= q -> (q mod 4096 = 0 \/ q = Z.of_nat (length stream)) -> holds mem lo q -> flight lo q mem p [WritePtr (wordp q)].
Proof using. intros Hle Hq H. cbn [flight]. split; [by eapply holds_le; [reflexivity| |exact H]; lia|]. exists q. done. Qed.

(** The dispatcher writes what it has, as soon as the pages are free. *)
Lemma write_host_at cd av p :
  p mod 4096 = 0 -> 0 <= p < Z.of_nat (length stream) -> Z.of_nat (length stream) + 4096 < 2 ^ 32 -> 0 < av <= size -> av mod 4096 = 0 -> base * 16 + size + av <= 2 ^ 32 ->
  cd <= c0 + pg p <= cd + pages ->
  let n := Z.min av (Z.of_nat (length stream) - p) in
  if pg (p + n) <=? cd + pages - c0 then
    exists posts, write_host a av (word base pages cd) (drop (Z.to_nat p) stream) (devicep p) = Some (devicep (p + n), posts, drop (Z.to_nat (p + n)) stream) /\
      (length posts <= 3)%nat /\
      forall lo mem, 0 <= lo <= p -> p + n <= lo + size -> holds mem lo p -> flight lo (p + n) mem p posts
  else write_host a av (word base pages cd) (drop (Z.to_nat p) stream) (devicep p) = None.
Proof using Hr Hc0.
  intros Hp HpL HL Hav Hav4 Hend Hcd n. pose proof (ro_pages Hr). pose proof (ro_base Hr). pose proof (ro_end Hr). pose proof (addr_range p). pose proof (addr_page p Hp) as Ha.
  assert (n <= av /\ 0 < n /\ p + n <= Z.of_nat (length stream)) as (Hn1 & Hn2 & Hn3) by (unfold n; lia).
  destruct (pages_moved p n Hp ltac:(lia)) as [Hpg Hpgn]. unfold write_host. rewrite length_drop, (proj1 (page_size_16B a base pages Hr)).
  assert ((if av <? Z.of_nat (length stream - Z.to_nat p) then av else Z.of_nat (length stream - Z.to_nat p)) = n) as -> by (unfold n; destruct (Z.ltb_spec av (Z.of_nat (length stream - Z.to_nat p))); lia).
  rewrite u32_small by (pow2; lia). replace ((n + 4096 - 1) / 4096) with (pg (p + n) - pg p) by (rewrite Hpg; unfold pg; f_equal; f_equal; lia).
  pose proof (has_space_at a base pages Hr cd (c0 + pg p - cd) (pg (p + n) - pg p) ltac:(lia) ltac:(lia)) as Hs. replace (cd + (c0 + pg p - cd)) with (c0 + pg p) in Hs by lia. rewrite Hs.
  destruct (Z.leb_spec (pg (p + n)) (cd + pages - c0)) as [Hsp|Hsp].
  - rewrite (proj2 (Z.leb_le _ _)) by lia. rewrite (push_back_at a base pages Hr) by lia. replace (c0 + pg p + (pg (p + n) - pg p)) with (c0 + pg (p + n)) by lia.
    rewrite drop_drop, <- Z2Nat.inj_add by lia. eexists. split; [reflexivity|]. cbn [device_at completion_fifo_wr_ptr]. rewrite (end_addr a base pages Hr), (ro_addr Hr).
    rewrite Z.shiftl_mul_pow2 by lia. change (2 ^ 4) with 16. rewrite <- Ha, (u32_small (addr p)), (u32_small (addr p + n)) by (pow2; lia).
    destruct (Z.ltb_spec (base * 16 + size) (addr p + n)) as [Hw|Hw]; (split; [cbn; lia|]); intros lo mem Hlo Hring Hmem; assert ((p + n) mod 4096 = 0 \/ p + n = Z.of_nat (length stream)) as Hpos by (unfold n; lia).
    + rewrite u32_small by (pow2; lia). set (m := base * 16 + size - addr p) in *. fold (seg stream p n). assert (seg stream p n = seg stream p m ++ seg stream (p + m) (n - m)) as -> by (rewrite stream_seg_app by lia; f_equal; lia).
      assert (length (seg stream p m) = Z.to_nat m) as Hm by (apply length_seg; lia). rewrite take_app_length', drop_app_length' by done.
      assert (base * 16 = addr (p + m)) as Eb by (rewrite addr_add by lia; rewrite (proj2 (Z.ltb_ge _ _)); lia).
      assert (holds (write_mem (addr p) (seg stream p m) mem) lo (p + m)) as Hm1 by (apply queue_holds_write; done || lia).
      assert (holds (write_mem (base * 16) (seg stream (p + m) (n - m)) (write_mem (addr p) (seg stream p m) mem)) lo (p + n)) as Hm2.
      { rewrite Eb. replace (p + n) with (p + m + (n - m)) by lia. apply queue_holds_write; try done; try lia. }
      cbn [app flight]. split; [done|]. split; [eapply holds_le; [reflexivity| |exact Hm1]; lia|]. apply flight_told; [lia|done..].
    + fold (seg stream p n). assert (holds (write_mem (addr p) (seg stream p n) mem) lo (p + n)) as Hm1 by (apply queue_holds_write; done || lia).
      cbn [app flight]. split; [done|]. apply flight_told; [lia|done..].
  - by rewrite (proj2 (Z.leb_gt _ _)) by lia.
Qed.
End Flight.
