(* ===== verification/CompletionQueueProps.v ===== *)
(** * The completion queue: a read, from the dispatcher to user memory

    Whatever the interleaving of the dispatcher's writes, their arrival, the reader's
    turns and the return of its credits, the reader stores the pages of the buffer where
    they belong, and comes to the end. *)

From Stdlib Require Import Lia.
From S2P Require Import Prelude Memory WorkSplit SystemMemory Buffers BufferIO CompletionCopy CompletionCopyProps CompletionTurn CompletionQueue CompletionRing CompletionFlight.

#[local] Ltac Zify.zify_post_hook ::= Z.to_euclidean_division_equations.

Section Queue.
Context (a : DispatchArgs) (base pages pages_per_block c0 : Z) (d : ReadBufferDescriptor) (stream user0 : list Z).

Abbreviation L := (Z.of_nat (length stream)).
Abbreviation size := (pages * 4096).
Abbreviation wordp p := (word base pages (c0 + pg p)).
Abbreviation step := (step a d pages_per_block).

(** The queue and its users: a block of the dispatch buffer fits the queue, the queue with
    a block behind it ends below 4 GB, [c0] pages have gone through it before. *)
Record setting : Prop := mkSetting {
  st_ring : ring_ok a base pages;
  st_count : 0 <= c0;
  st_block : 1 <= pages_per_block <= pages;
  st_end : base * 16 + size + pages_per_block * 4096 <= 2 ^ 32;
  st_stream : stream_ok d stream user0;
  st_padding : padding_fits d;
  st_length : L + 4096 < 2 ^ 32;
}.
Hypothesis Hset : setting.

(** A read whose command the dispatcher has just come to, and whose descriptor the reader
    has just taken. *)
Record fresh (s : CompletionSystem) : Prop := mkFresh {
  fr_dispatcher : dispatcher s = device_at base pages c0;
  fr_command : command s = stream;
  fr_available : 0 <= available s <= pages_per_block * 4096 /\ available s mod 4096 = 0;
  fr_words : read_word s = word base pages c0 /\ write_word s = word base pages c0;
  fr_flight : to_host s = [] /\ to_device s = [];
  fr_interface : host_at base pages c0 (interface s);
  fr_reader : reader s = Reader_new d user0;
}.

Definition position (p : Z) : Prop := 0 <= p <= L /\ (p mod 4096 = 0 \/ p = L).

Fixpoint credits (lo hi : Z) (words : list Z) : Prop :=
  match words with [] => lo = hi | v :: words => exists lo', lo <= lo' <= hi /\ v = wordp lo' /\ credits lo' hi words end.

(** [credited <= read <= told <= written]: bytes the dispatcher knows to be read, the
    reader has read, the host has been told of, the dispatcher has written. *)
Record inv_at (credited read told written : Z) (s : CompletionSystem) : Prop := mkInv {
  in_order : credited <= read <= told /\ told <= written;
  in_position : position read /\ position told /\ position written;
  in_space : pg written <= pg credited + pages;
  in_dispatcher : dispatcher s = device_at base pages (c0 + pg written);
  in_command : command s = drop (Z.to_nat written) stream;
  in_available : 0 <= available s <= pages_per_block * 4096 /\ (command s <> [] -> available s mod 4096 = 0);
  in_words : read_word s = wordp credited /\ write_word s = wordp told;
  in_credits : credits credited read (to_device s);
  in_flight : flight base pages stream c0 read written (host_memory s) told (to_host s);
  in_host : host_at base pages (c0 + pg read) (interface s);
  in_reader : stage d stream user0 read (reader s);
}.
Definition inv (s : CompletionSystem) : Prop := exists credited read told written, inv_at credited read told written s.

Lemma credits_le lo hi words : credits lo hi words -> lo <= hi.
Proof using. destruct words; [intros ->; lia|]. intros (? & ? & _). lia. Qed.

Lemma credits_snoc lo hi hi' words : hi <= hi' -> credits lo hi words -> credits lo hi' (words ++ [wordp hi']).
Proof using.
  intros Hle. revert lo. induction words as [|v words IH]; cbn.
  - intros lo ->. exists hi'. done.
  - intros lo (lo' & H1 & H2 & H3). exists lo'. split_and!; [lia|lia|done|by apply IH].
Qed.

Lemma fresh_inv s : fresh s -> inv s.
Proof using Hset.
  intros [H1 H2 H3 [H4 H5] [H6 H7] H8 H9]. exists 0, 0, 0, 0. split; change (pg 0) with 0; rewrite ?Z.add_0_r, ?H1, ?H2, ?H6, ?H7, ?H9; try done.
  - unfold position. split_and!; lia.
  - pose proof (ro_pages (st_ring Hset)). lia.
  - split; [lia|by intros; apply H3].
  - split; [|done]. intros q Hq. lia.
  - apply stage_new. apply (st_stream Hset).
Qed.

(** A drop that leaves something. *)
Lemma more_to_write p : position p -> drop (Z.to_nat p) stream <> [] -> p < L /\ p mod 4096 = 0.
Proof using. intros [Hp Hm] H. destruct (Z.eq_dec p L) as [->|]; [|split; [lia|by destruct Hm]]. rewrite Nat2Z.id, drop_all in H. done. Qed.

(** ** The dispatcher *)

Lemma inv_write cr rd td wr s w posts data :
  inv_at cr rd td wr s -> command s <> [] -> 0 < available s -> write_host a (available s) (read_word s) (command s) (dispatcher s) = Some (w, posts, data) ->
  exists n, 0 < n /\ (length posts <= 3)%nat /\ Z.of_nat (length (command s) - length data) = n /\ Z.of_nat (length data) = Z.of_nat (length (command s)) - n /\
    inv_at cr rd td (wr + n) (mkCompletion w data (available s - n) (read_word s) (to_host s ++ posts) (to_device s) (host_memory s) (write_word s) (interface s) (reader s)).
Proof using Hset.
  intros [Ho (Hp1 & Hp2 & Hp3) Hsp Hd Hc [Hav Hav4] [Hw1 Hw2] Hcr Hfl Hh Hre] Hne Hpos E. specialize (Hav4 Hne). rewrite Hw1, Hd, Hc in E. rewrite Hc in Hne. destruct (more_to_write wr Hp3 Hne) as [Hlt Hm].
  pose proof (st_length Hset). pose proof (st_block Hset). pose proof (st_end Hset). pose proof (ro_pages (st_ring Hset)). pose proof (credits_le _ _ _ Hcr). pose proof (st_count Hset) as Hc0.
  pose proof (pg_le cr wr ltac:(lia)). unfold position in *.
  pose proof (write_host_at a base pages stream c0 (st_ring Hset) Hc0 (c0 + pg cr) (available s) wr Hm ltac:(lia) ltac:(lia) ltac:(nia) Hav4 ltac:(nia) ltac:(lia)) as Hwh.
  cbv zeta in Hwh. set (n := Z.min (available s) (L - wr)) in *. destruct (Z.leb_spec (pg (wr + n)) (c0 + pg cr + pages - c0)) as [Hle|_]; [|congruence].
  destruct Hwh as (posts' & E' & Hlen & Hflight). rewrite E' in E. injection E as <- <- <-. exists n. rewrite Hc, !length_drop. split_and!; try (unfold n; lia).
  assert (position (wr + n)) as Hpn by (unfold position, n; lia). split; cbn; try done.
  - unfold n. lia.
  - lia.
  - split; [unfold n; lia|]. intros Hne'. destruct (more_to_write _ Hpn Hne'). unfold n in *. lia.
  - eapply flight_app; [|exact Hfl|]; [unfold n; lia|]. intros mem Hmem. apply Hflight; [lia| |done].
    pose proof (pg_bounds (wr + n)). pose proof (pg_le cr rd ltac:(lia)). assert (rd mod 4096 = 0) as Hrd by lia. apply Z.mod_divide in Hrd as [j Hj]; [|lia]. rewrite Hj, pg_mul in *. lia.
Qed.

(** ** The reader *)

Lemma read_turn_at cr rd td wr s :
  inv_at cr rd td wr s -> rd < L -> 
  if rd <? td then
    exists c r n, read_turn d s = Some (Ok (c, wordp (rd + n), r)) /\ 0 < n /\ rd + n <= td /\ position (rd + n) /\ host_at base pages (c0 + pg (rd + n)) c /\ stage d stream user0 (rd + n) r
  else read_turn d s = None.
Proof using Hset.
  intros [Ho (Hp1 & Hp2 & Hp3) Hsp Hd Hc [Hav Hav4] [Hw1 Hw2] Hcr Hfl Hh Hre] Hlt. pose proof (st_ring Hset) as Hr. pose proof (ro_pages Hr) as Hpg. pose proof (credits_le _ _ _ Hcr).
  assert (rd mod 4096 = 0) as Hm by (unfold position in *; lia). pose proof (pg_le cr rd ltac:(lia)). pose proof (pg_le rd td ltac:(lia)). pose proof (pg_le td wr ltac:(lia)).
  pose proof Hm as Hj. apply Z.mod_divide in Hj as [j Hj]; [|lia]. assert (pg rd * 4096 = rd) as Hrd by (rewrite Hj, pg_mul; lia). set (k := pg td - pg rd).
  unfold read_turn. rewrite Hw2. replace (c0 + pg td) with (c0 + pg rd + k) by (unfold k; lia). rewrite (front_ready_at a base pages Hr _ _ k Hh) by lia.
  pose proof (pg_bounds td). destruct (Z.ltb_spec rd td) as [Hlt'|]; [rewrite (proj2 (Z.ltb_lt 0 k)) by lia|by rewrite (proj2 (Z.ltb_ge 0 k)) by lia].
  rewrite (read_ptr_at a base pages Hr _ _ Hh), (bytes_avail_at a base pages Hr _ _ k Hh) by lia. set (avail := Z.min k _ * 4096). pose proof (Z.mod_pos_bound (c0 + pg rd) pages ltac:(lia)).
  pose proof (st_stream Hset) as Hok. pose proof (so_length Hok) as HL. fold (total d) in HL.
  assert (0 < avail /\ avail mod 4096 = 0 /\ rd + turn_bytes d rd avail <= td /\ 0 < turn_bytes d rd avail <= avail) as (Ha1 & Ha2 & Ha3 & Ha4).
  { unfold avail, turn_bytes, position in *. split_and!; lia. }
  pose proof (flight_holds _ _ _ _ _ _ _ _ _ Hfl) as Hmem. rewrite <- (addr_page a base pages c0 Hr rd Hm). pose proof (addr_page a base pages c0 Hr rd Hm) as Haddr.
  destruct (copy_turn_ok d stream user0 Hok (host_memory s) (addr base pages c0 rd) avail rd (reader s)) as (n & r & E & En & Hst); try done; [apply (st_padding Hset)|lia| |].
  { apply (holds_read a base pages stream c0 Hr (host_memory s) rd (turn_bytes d rd avail)); [unfold position in *; lia|unfold position in *; lia| |by eapply holds_le; [reflexivity| |exact Hmem]].
    rewrite Haddr. unfold slot, avail in *. lia. }
  rewrite E, res_bind_ret. set (b := turn_bytes d rd avail) in *. pose proof (st_length Hset).
  assert (b <= size) as Hb by (unfold avail in *; nia). destruct (pages_moved pages rd b Hm ltac:(lia)) as [Hmv Hmv2].
  assert (n = pg (rd + b) - pg rd) as ->.
  { unfold div_up in En. change TRANSFER_PAGE_SIZE with 4096 in En. cbn [Z.ltb Z.compare check] in En. rewrite res_bind_ret in En. injection En as <-. rewrite Hmv. rewrite (u32_small (b + 4096 - 1)) by (pow2; unfold position in *; lia).
    unfold pg. rewrite u32_small by (pow2; unfold position in *; lia). f_equal. lia. }
  destruct (pop_at a base pages Hr (interface s) (c0 + pg rd) (pg (rd + b) - pg rd) Hh) as [Hh' Hword]; [lia| |].
  { rewrite Hmv. assert (pg b <= pg avail) as Hb2 by (apply pg_le; lia). unfold avail in Hb2. rewrite pg_mul in Hb2. lia. }
  replace (c0 + pg rd + (pg (rd + b) - pg rd)) with (c0 + pg (rd + b)) in Hh', Hword by lia. eexists _, _, b. cbv zeta. rewrite Hword. split; [reflexivity|].
  split_and!; try done; try lia. destruct Hst as (Hs1 & Hs2 & _). unfold position. rewrite HL. split; [lia|]. change TRANSFER_PAGE_SIZE with 4096 in Hs2. lia.
Qed.

(** ** Steps *)

Definition measure (s : CompletionSystem) : Z :=
  6 * Z.of_nat (length (command s)) + Z.b2z (available s =? 0) + 2 * Z.max 0 (remaining_bytes_to_read (reader s)) + Z.of_nat (length (to_host s)) + Z.of_nat (length (to_device s)).

Lemma measure_nonneg s : 0 <= measure s.
Proof using. unfold measure. destruct (available s =? 0); cbn; lia. Qed.

(** A reader that is not done has not read it all. *)
Lemma still_reading rd r : stage d stream user0 rd r -> remaining_bytes_to_read r <> 0 -> rd < L.
Proof using Hset. intros (H1 & _ & H2 & _) H. rewrite (so_length (st_stream Hset)). fold (total d). lia. Qed.

Lemma inv_read s o : inv s -> remaining_bytes_to_read (reader s) <> 0 -> read_turn d s = Some o ->
  exists c v r, o = Ok (c, v, r) /\
    let s' := mkCompletion (dispatcher s) (command s) (available s) (read_word s) (to_host s) (to_device s ++ [v]) (host_memory s) (write_word s) c r in inv s' /\ measure s' < measure s.
Proof using Hset.
  intros (cr & rd & td & wr & Hi) Hrem E. pose proof (still_reading rd _ (in_reader _ _ _ _ _ Hi) Hrem) as Hlt. pose proof (read_turn_at cr rd td wr s Hi Hlt) as H. destruct (Z.ltb_spec rd td) as [Hlt'|]; [|congruence].
  destruct H as (c & r & n & E' & Hn & Hle & Hpos & Hc & Hst). rewrite E' in E. injection E as <-. eexists c, _, r. split; [done|]. cbv zeta. split.
  - destruct Hi as [Ho (Hp1 & Hp2 & Hp3) Hsp Hd Hcm Hav Hw Hcr Hfl Hh Hre]. exists cr, (rd + n), td, wr. split; cbn; try done; [lia| |eapply flight_le; [|exact Hfl]; lia].
    apply credits_snoc with (hi := rd); [lia|done].
  - pose proof (in_reader _ _ _ _ _ Hi) as (H1 & _ & H2 & _). destruct Hst as (H3 & _ & H4 & _). unfold measure. cbn. rewrite length_app. cbn [length]. lia.
Qed.

Lemma step_inv s o : inv s -> step s o -> exists s', o = Some s' /\ inv s' /\ measure s' < measure s.
Proof using Hset.
  intros Hi Hs. destruct Hs as [w data rd th td mem wr c r k Hne Hk|w w' data data' av rd th td mem wr c r posts Hne Hav E|w data av rd m th td mem wr c r|w data av rd th v td mem wr c r|s c v r Hrem E|s f Hrem E].
  - eexists. split; [done|]. destruct Hi as (cr & p & tl & wt & [Ho Hp Hsp Hd Hcm Hav Hw Hcr Hfl Hh Hre]). cbn in *. rewrite (proj1 (page_size_16B a base pages (st_ring Hset))). split.
    + exists cr, p, tl, wt. split; cbn; try done. split; [lia|]. intros _. by rewrite Z.mod_mul.
    + unfold measure. cbn [available command reader to_host to_device]. rewrite (proj2 (Z.eqb_neq (k * 4096) 0)) by lia. cbn [Z.b2z Z.eqb]. lia.
  - eexists. split; [done|]. destruct Hi as (cr & p & tl & wt & Hi). destruct (inv_write cr p tl wt _ w' posts data' Hi Hne Hav E) as (n & Hn & Hl & H1 & H2 & Hi'). cbn in *. rewrite H1. split; [by eexists _, _, _, _|].
    unfold measure. cbn [available command reader to_host to_device]. rewrite length_app, H2. destruct (av - n =? 0), (av =? 0); cbn [Z.b2z]; lia.
  - eexists. split; [done|]. destruct Hi as (cr & p & tl & wt & [Ho (Hp1 & Hp2 & Hp3) Hsp Hd Hcm Hav [Hw1 Hw2] Hcr Hfl Hh Hre]). cbn in *. split; [|unfold measure; cbn [available command reader to_host to_device length]; lia].
    destruct Hfl as [Hm Hfl]. destruct m as [ad by'|v].
    + exists cr, p, tl, wt. split; cbn; done.
    + destruct Hfl as (tl' & Hle & Hpt & -> & Hfl). exists cr, p, tl', wt. split; cbn; try done; [lia|]. unfold position in *. split_and!; try done; lia.
  - eexists. split; [done|]. destruct Hi as (cr & p & tl & wt & [Ho (Hp1 & Hp2 & Hp3) Hsp Hd Hcm Hav [Hw1 Hw2] Hcr Hfl Hh Hre]). cbn in *. split; [|unfold measure; cbn [available command reader to_host to_device length]; lia].
    destruct Hcr as (cr' & Hle & -> & Hcr). exists cr', p, tl, wt. split; cbn; try done; [lia|]. pose proof (pg_le cr cr' ltac:(lia)). lia.
  - destruct (inv_read s _ Hi Hrem E) as (c' & v' & r' & [= -> -> ->] & Hi' & Hm). by eexists.
  - destruct (inv_read s _ Hi Hrem E) as (c' & v' & r' & Ho & _). done.
Qed.

Lemma run_inv s o : inv s -> run a d pages_per_block s o -> exists s', o = Some s' /\ inv s'.
Proof using Hset.
  intros Hi H. revert Hi. induction H as [s|s s1 o Hs _ IH|s Hs]; intros Hi; [by eexists| |].
  - destruct (step_inv s _ Hi Hs) as (s' & [= ->] & Hi' & _). by apply IH.
  - by destruct (step_inv s _ Hi Hs) as (s' & ? & _).
Qed.

Lemma steps_end s : inv s -> Acc (fun s' s => step s (Some s')) s.
Proof using Hset.
  remember (Z.to_nat (measure s)) as n eqn:En. revert s En. induction (lt_wf n) as [n _ IH]. intros s -> Hi. constructor. intros s' Hs.
  destruct (step_inv s _ Hi Hs) as (s1 & [= ->] & Hi' & Hm). pose proof (measure_nonneg s1). eapply IH; [|done|done]. lia.
Qed.

(** As long as the reader is not done, someone can go on. *)
Lemma not_stuck s : inv s -> remaining_bytes_to_read (reader s) <> 0 -> ~ stuck a d pages_per_block s.
Proof using Hset.
  intros (cr & rd & tl & wr & Hi) Hrem Hst. pose proof (still_reading rd _ (in_reader _ _ _ _ _ Hi) Hrem) as Hlt. pose proof (read_turn_at cr rd tl wr s Hi Hlt) as Hread.
  destruct (Z.ltb_spec rd tl) as [Hlt'|Hge]; [destruct Hread as (c & r & n & E & _); by apply (Hst _ (step_read a d pages_per_block s c _ r Hrem E))|].
  destruct s as [w data av rw th td mem ww c r]. destruct th as [|m th]; [|by eapply Hst, step_arrive]. destruct td as [|v td]; [|by eapply Hst, step_credit].
  destruct Hi as [Ho (Hp1 & Hp2 & Hp3) Hsp Hd Hc [Hav Hav4] [Hw1 Hw2] Hcr [Hmem Hfl] Hh Hre]. cbn in *. subst wr cr data w rw. assert (rd = tl) as -> by lia. pose proof (st_block Hset).
  assert (drop (Z.to_nat tl) stream <> []) as Hne by (intros E%(f_equal length); rewrite length_drop in E; cbn in E; unfold position in *; lia). specialize (Hav4 Hne).
  destruct (Z.eq_dec av 0) as [->|Hav0]; [by eapply Hst, (step_acquire a d pages_per_block _ _ _ _ _ _ _ _ _ 1); [|lia]|].
  destruct (more_to_write tl Hp2 Hne) as [_ Hm]. pose proof (st_length Hset). pose proof (st_end Hset). pose proof (st_ring Hset) as Hr. pose proof (ro_pages Hr). pose proof (st_count Hset) as Hc0.
  pose proof (write_host_at a base pages stream c0 Hr Hc0 (c0 + pg tl) av tl Hm ltac:(unfold position in *; lia) ltac:(lia) ltac:(nia) Hav4 ltac:(nia) ltac:(lia)) as Hwh.
  cbv zeta in Hwh. set (n := Z.min av (L - tl)) in *. destruct (pages_moved pages tl n Hm ltac:(unfold n, position in *; nia)) as [Hmv1 Hmv2].
  rewrite (proj2 (Z.leb_le (pg (tl + n)) _)) in Hwh by lia. destruct Hwh as (posts & E & _). eapply Hst, step_write; [done| |exact E]. lia.
Qed.
End Queue.

(** ** The read as a whole *)

Section Read.
Context (a : DispatchArgs) (base pages pages_per_block c0 : Z) (d : ReadBufferDescriptor) (stream user0 : list Z).
Hypothesis Hset : setting a base pages pages_per_block c0 d stream user0.

Lemma inv_delivered s : inv base pages pages_per_block c0 d stream user0 s -> remaining_bytes_to_read (reader s) = 0 -> user (reader s) = delivered d stream user0 (rb_num_pages_read d).
Proof using Hset.
  intros (cr & rd & tl & wr & Hi) Hrem. destruct (in_reader _ _ _ _ _ _ _ _ _ _ _ _ Hi) as (H1 & _ & H2 & Hp). apply progress_done; [apply (st_stream _ _ _ _ _ _ _ _ Hset)|].
  by replace (total d) with rd by lia.
Qed.
End Read.

(** ** A queue as it is set up: three pages *)

Definition small_platform : Platform := mkPlatform false 64 16 0 0 0 0 0.
Definition small_interface : SystemMemoryCQInterface :=
  match SystemMemoryCQInterface_new small_platform 0 0 65536 256 with Ok c => c | Err _ => mkCQ 0 0 0 0 0 0 0 0 false 0 0 0 false end.
Definition small_args : DispatchArgs := dispatch_hd_args 0 0 65536 256 small_interface.
Definition small_descriptor : ReadBufferDescriptor := mkReadBuffer 3000 3008 None 0 3 0.
Definition small_stream : list Z := map (fun x => x mod 256) (seqZ 0 9040).
Definition small_state : CompletionSystem :=
  let w := completion_queue_start_addr_16B 0 0 65536 256 small_interface in
  mkCompletion (start_dispatcher w) small_stream 4096 w [] [] (fun _ => 0) w small_interface (Reader_new small_descriptor (replicate (Z.to_nat 9000) 0)).

Lemma small_queue :
  ring_ok small_args (issue_fifo_limit small_interface) 3 /\ host_at (issue_fifo_limit small_interface) 3 0 small_interface /\
  completion_queue_start_addr_16B 0 0 65536 256 small_interface = word (issue_fifo_limit small_interface) 3 0 /\
  start_dispatcher (completion_queue_start_addr_16B 0 0 65536 256 small_interface) = device_at (issue_fifo_limit small_interface) 3 0.
Proof. apply (new_queue small_platform 0 0 65536 256 small_interface); [by split|reflexivity]. Qed.

Lemma small_setting : setting small_args (issue_fifo_limit small_interface) 3 2 0 small_descriptor small_stream (replicate (Z.to_nat 9000) 0).
Proof.
  split; [apply small_queue|done|done|done| |by left|done]. split; try done; cbn [rb_page_size rb_padded_page_size rb_num_pages_read small_descriptor].
  intros k x Hk [= <-]. rewrite length_replicate. cbn. lia.
Qed.

Lemma small_fresh : fresh (issue_fifo_limit small_interface) 3 2 0 small_descriptor small_stream (replicate (Z.to_nat 9000) 0) small_state.
Proof. destruct small_queue as (_ & H2 & H3 & H4). by split. Qed.

(** C3: whatever the interleaving of the dispatcher, the writes on their way and the
    reader, a turn of the reader never fails, and when the reader has counted down what it
    is to read, user memory holds all pages of the buffer, each in its place, and is
    otherwise as it was: no page is lost, taken twice, read before it has arrived or
    overwritten before it is read. *)
Theorem read_delivers_pages a base pages pages_per_block c0 d stream user0 s o
  (Hset : setting a base pages pages_per_block c0 d stream user0) (Hs : fresh base pages pages_per_block c0 d stream user0 s) (Hrun : run a d pages_per_block s o) :
  exists s', o = Some s' /\ (remaining_bytes_to_read (reader s') = 0 -> user (reader s') = delivered d stream user0 (rb_num_pages_read d)).
Proof.
  destruct (run_inv _ _ _ _ _ _ _ _ Hset s o (fresh_inv _ _ _ _ _ _ _ _ Hset s Hs) Hrun) as (s' & -> & Hi). exists s'. split; [done|]. by apply (inv_delivered a base pages pages_per_block c0).
Qed.

(** C4: every run of the dispatcher and the reader comes to an end, and it ends only when
    the reader is done: neither waits for the other for ever. *)
Theorem read_comes_to_end a base pages pages_per_block c0 d stream user0 s
  (Hset : setting a base pages pages_per_block c0 d stream user0) (Hs : fresh base pages pages_per_block c0 d stream user0 s) :
  Acc (fun s' s => step a d pages_per_block s (Some s')) s /\
  forall s', run a d pages_per_block s (Some s') -> stuck a d pages_per_block s' -> remaining_bytes_to_read (reader s') = 0 /\ user (reader s') = delivered d stream user0 (rb_num_pages_read d).
Proof.
  pose proof (fresh_inv _ _ _ _ _ _ _ _ Hset s Hs) as Hi. split; [by apply (steps_end a base pages pages_per_block c0 d stream user0)|]. intros s' Hrun Hst.
  destruct (run_inv _ _ _ _ _ _ _ _ Hset s _ Hi Hrun) as (s1 & [= <-] & Hi'). assert (remaining_bytes_to_read (reader s') = 0) as Hrem.
  { destruct (Z.eq_dec (remaining_bytes_to_read (reader s')) 0); [done|]. by destruct (not_stuck _ _ _ _ _ _ _ _ Hset s' Hi'). }
  split; [done|]. by apply (inv_delivered a base pages pages_per_block c0 d stream user0 Hset).
Qed.

Lemma read_delivers_pages_witness : exists s', Some small_state = Some s' /\
  (remaining_bytes_to_read (reader s') = 0 -> user (reader s') = delivered small_descriptor small_stream (replicate (Z.to_nat 9000) 0) (rb_num_pages_read small_descriptor)).
Proof. apply (read_delivers_pages _ _ _ _ _ _ _ _ small_state _ small_setting small_fresh). apply run_done. Defined.

Lemma read_comes_to_end_witness :
  Acc (fun s' s => step small_args small_descriptor 2 s (Some s')) small_state /\
  forall s', run small_args small_descriptor 2 small_state (Some s') -> stuck small_args small_descriptor 2 s' ->
    remaining_bytes_to_read (reader s') = 0 /\ user (reader s') = delivered small_descriptor small_stream (replicate (Z.to_nat 9000) 0) (rb_num_pages_read small_descriptor).
Proof. exact (read_comes_to_end _ _ _ _ _ _ _ _ small_state small_setting small_fresh). Defined.
