(* ===== verification/CircularBuffer.v ===== *)
(** * Circular buffers of a program
    (tt_metal/impl/buffers/circular_buffer_types.cpp and circular_buffer.cpp, and the
    circular buffers of Program_ in tt_metal/impl/program/program.cpp)

    A circular buffer is configured for some of 32 indices and placed on a set of cores,
    either over a buffer of the allocator or at an address the program assigns.  The
    program keeps, for each range of cores that a circular buffer was placed on, the
    regions of L1 taken there, and places one circular buffer after another behind them. *)

From S2P Require Import Prelude CoreCoord FreeList Allocator Buffers BlockFloat Tiles.

Definition NUM_CIRCULAR_BUFFERS : Z := 32.

(** ** CircularBufferConfig *)

(** Arrays of optional values are maps from the index. *)
Record CircularBufferConfig := mkCBConfig {
  total_size_ : Z;
  globally_allocated_address_of_config : option Z;
  data_formats_ : gmap Z DataFormat;
  page_sizes_ : gmap Z Z;
  tiles_ : gmap Z Tile;
  buffer_indices_ : gset Z;
  local_buffer_indices_ : gset Z;
  remote_buffer_indices_ : gset Z;
  dynamic_cb_ : bool;
  max_size_ : Z;
  buffer_size_ : Z;
  (** the buffer pointed to *)
  shadow_global_buffer : option Z;
}.

Definition CM := M CircularBufferConfig.

Definition set_size (n : Z) (c : CircularBufferConfig) : CircularBufferConfig :=
  mkCBConfig n (globally_allocated_address_of_config c) (data_formats_ c) (page_sizes_ c) (tiles_ c) (buffer_indices_ c) (local_buffer_indices_ c) (remote_buffer_indices_ c)
    (dynamic_cb_ c) (max_size_ c) (buffer_size_ c) (shadow_global_buffer c).
Definition set_formats (f : gmap Z DataFormat) (p : gmap Z Z) (t : gmap Z Tile) (c : CircularBufferConfig) : CircularBufferConfig :=
  mkCBConfig (total_size_ c) (globally_allocated_address_of_config c) f p t (buffer_indices_ c) (local_buffer_indices_ c) (remote_buffer_indices_ c)
    (dynamic_cb_ c) (max_size_ c) (buffer_size_ c) (shadow_global_buffer c).
Definition set_indices (i l r : gset Z) (c : CircularBufferConfig) : CircularBufferConfig :=
  mkCBConfig (total_size_ c) (globally_allocated_address_of_config c) (data_formats_ c) (page_sizes_ c) (tiles_ c) i l r
    (dynamic_cb_ c) (max_size_ c) (buffer_size_ c) (shadow_global_buffer c).
Definition set_dynamic (address max_size buffer_size shadow : Z) (c : CircularBufferConfig) : CircularBufferConfig :=
  mkCBConfig (total_size_ c) (Some address) (data_formats_ c) (page_sizes_ c) (tiles_ c) (buffer_indices_ c) (local_buffer_indices_ c) (remote_buffer_indices_ c)
    true max_size buffer_size (Some shadow).

Definition empty_config (total_size : Z) : CircularBufferConfig := mkCBConfig total_size None ∅ ∅ ∅ ∅ ∅ ∅ false 0 0 None.

Definition set_page_size (buffer_index page_size : Z) : CM unit :=
  c ← get;
  require Throw (buffer_index <=? NUM_CIRCULAR_BUFFERS - 1);;
  require Throw (bool_decide (buffer_index ∈ buffer_indices_ c));;
  require Undefined (negb (page_size =? 0));;
  require Throw (total_size_ c mod page_size =? 0);;
  modify (set_formats (data_formats_ c) (<[buffer_index := page_size]> (page_sizes_ c)) (tiles_ c)).

(** A size that the buffer behind the circular buffer does not have: an assertion in a
    debug build, otherwise a warning, or an exception when the whole buffer is smaller. *)
Definition check_size (debug : bool) (total_size : Z) : CM unit :=
  c ← get;
  when (max_size_ c <? total_size) (require Assert (negb debug);; require Throw (total_size <=? buffer_size_ c)).

Definition set_total_size (debug : bool) (total_size : Z) : CM unit :=
  c ← get;
  when (dynamic_cb_ c) (check_size debug total_size);;
  require Throw (negb (total_size =? 0));;
  modify (set_size total_size).

Section OnBuffers.
(** The build, the buffers there are, and the allocator and banks of their device. *)
Context (debug : bool) (buffer_of : Z -> Buffer) (alloc : Allocator) (num_device_banks : Z).

(** Buffer::address, once it is allocated. *)
Definition buffer_address (id : Z) : Z := u32 (address_ (buffer_of id)).

Definition set_globally_allocated_address_and_total_size (id total_size : Z) : CM unit :=
  let buffer := buffer_of id in
  require Throw (is_l1 buffer);;
  per_bank ← lift (aligned_size_per_bank alloc num_device_banks buffer);
  size ← lift (aligned_size alloc buffer);
  modify (set_dynamic (buffer_address id) (u32 per_bank) (u32 size) id);;
  check_size debug total_size;;
  require Throw (negb (total_size =? 0));;
  modify (set_size total_size).

Definition set_globally_allocated_address (id : Z) : CM unit :=
  c ← get; set_globally_allocated_address_and_total_size id (total_size_ c).

Definition set_tile_dims (buffer_index : Z) (tile : Tile) : CM unit :=
  require Undefined (buffer_index <? NUM_CIRCULAR_BUFFERS);;
  modify (fun c => set_formats (data_formats_ c) (page_sizes_ c) (<[buffer_index := tile]> (tiles_ c)) c).

(** The entries of the format specification in the order of the map. *)
Definition set_config (data_format_spec : list (Z * DataFormat)) : CM unit :=
  require Throw (Z.of_nat (length data_format_spec) <=? NUM_CIRCULAR_BUFFERS);;
  mapM_ (fun '(buffer_index, data_format) =>
    require Throw (buffer_index <=? NUM_CIRCULAR_BUFFERS - 1);;
    modify (fun c => set_indices ({[buffer_index]} ∪ buffer_indices_ c) ({[buffer_index]} ∪ local_buffer_indices_ c) (remote_buffer_indices_ c)
      (set_formats (<[buffer_index := data_format]> (data_formats_ c)) (page_sizes_ c) (tiles_ c) c))) data_format_spec.

(** The constructors. *)
Definition CircularBufferConfig_static (total_size : Z) (data_format_spec : list (Z * DataFormat)) : res CircularBufferConfig :=
  let '(c, r) := set_config data_format_spec (empty_config total_size) in r;; mret c.
Definition CircularBufferConfig_dynamic (total_size : Z) (data_format_spec : list (Z * DataFormat)) (buffer : Z) : res CircularBufferConfig :=
  let '(c, r) := (set_globally_allocated_address buffer;; set_config data_format_spec) (empty_config total_size) in r;; mret c.

(** The builders: the index they work on is entered when they are made. *)
Definition Builder (buffer_index : Z) : CM unit :=
  require Throw (buffer_index <=? NUM_CIRCULAR_BUFFERS - 1);;
  modify (fun c => set_indices ({[buffer_index]} ∪ buffer_indices_ c) (local_buffer_indices_ c) (remote_buffer_indices_ c) c).

Definition LocalBuilder (buffer_index : Z) : CM unit :=
  c ← get;
  require Throw (negb (bool_decide (buffer_index ∈ remote_buffer_indices_ c)));;
  Builder buffer_index;;
  modify (fun c => set_indices (buffer_indices_ c) ({[buffer_index]} ∪ local_buffer_indices_ c) (remote_buffer_indices_ c) c).

Definition RemoteBuilder (buffer_index : Z) : CM unit :=
  c ← get;
  require Throw (negb (bool_decide (buffer_index ∈ local_buffer_indices_ c)));;
  when (negb (bool_decide (buffer_index ∈ remote_buffer_indices_ c))) (require Fatal (bool_decide (remote_buffer_indices_ c = ∅)));;
  Builder buffer_index;;
  modify (fun c => set_indices (buffer_indices_ c) (local_buffer_indices_ c) ({[buffer_index]} ∪ remote_buffer_indices_ c) c).

Definition Builder_set_data_format (buffer_index : Z) (f : DataFormat) : CM unit :=
  modify (fun c => set_formats (<[buffer_index := f]> (data_formats_ c)) (page_sizes_ c) (tiles_ c) c).

(** ** CircularBuffer *)

(** A GlobalCircularBuffer, as far as it is looked at. *)
Record GlobalCircularBuffer := mkGlobalCB {
  all_cores : CoreRangeSet;
  cb_buffer : Z;
  cb_config_buffer : Z;
}.

Record CircularBuffer := mkCB {
  cb_id : Z;
  core_ranges_ : CoreRangeSet;
  config_cb : CircularBufferConfig;
  locally_allocated_address_ : option Z;
  globally_allocated_address_ : Z;
  global_circular_buffer_config_address_ : Z;
  shadow_global_circular_buffer_ : option GlobalCircularBuffer;
}.

Definition set_cb_config (c : CircularBufferConfig) (b : CircularBuffer) : CircularBuffer :=
  mkCB (cb_id b) (core_ranges_ b) c (locally_allocated_address_ b) (globally_allocated_address_ b) (global_circular_buffer_config_address_ b) (shadow_global_circular_buffer_ b).
Definition set_locally_allocated_address (address : Z) (b : CircularBuffer) : CircularBuffer :=
  mkCB (cb_id b) (core_ranges_ b) (config_cb b) (Some (u32 address)) (globally_allocated_address_ b) (global_circular_buffer_config_address_ b) (shadow_global_circular_buffer_ b).
Definition set_global_address (address : Z) (b : CircularBuffer) : CircularBuffer :=
  mkCB (cb_id b) (core_ranges_ b) (config_cb b) (locally_allocated_address_ b) address (global_circular_buffer_config_address_ b) (shadow_global_circular_buffer_ b).
Definition set_shadow (address config_address : Z) (g : GlobalCircularBuffer) (b : CircularBuffer) : CircularBuffer :=
  mkCB (cb_id b) (core_ranges_ b) (config_cb b) (locally_allocated_address_ b) address config_address (Some g).

Definition globally_allocated (b : CircularBuffer) : bool := bool_decide (is_Some (globally_allocated_address_of_config (config_cb b))).
Definition is_global_circular_buffer (b : CircularBuffer) : bool := bool_decide (is_Some (shadow_global_circular_buffer_ b)).
Definition cb_size (b : CircularBuffer) : Z := total_size_ (config_cb b).

Definition has {A} (m : gmap Z A) (i : Z) : bool := bool_decide (is_Some (m !! i)).

Definition validate_set_config_attributes (c : CircularBufferConfig) : res unit :=
  check Throw (forallb (fun i => eqb (has (data_formats_ c) i) (has (page_sizes_ c) i)) (zrange 0 NUM_CIRCULAR_BUFFERS)).

Definition CircularBuffer_new (id : Z) (core_ranges : CoreRangeSet) (c : CircularBufferConfig) : res CircularBuffer :=
  validate_set_config_attributes c;;
  check Fatal (bool_decide (remote_buffer_indices_ c = ∅));;
  mret (mkCB id core_ranges c None (default 0 (globally_allocated_address_of_config c)) 0 None).

Definition set_global_circular_buffer (g : GlobalCircularBuffer) (b : CircularBuffer) : res CircularBuffer :=
  check Fatal (CoreRangeSet_contains_set (all_cores g) (core_ranges_ b));;
  let '(c, r) := set_globally_allocated_address (cb_buffer g) (config_cb b) in
  r;; mret (set_shadow (buffer_address (cb_buffer g)) (buffer_address (cb_config_buffer g)) g (set_cb_config c b)).

Definition CircularBuffer_new_global (id : Z) (core_ranges : CoreRangeSet) (c : CircularBufferConfig) (g : GlobalCircularBuffer) : res CircularBuffer :=
  validate_set_config_attributes c;;
  check Fatal (negb (bool_decide (is_Some (globally_allocated_address_of_config c))));;
  check Fatal (negb (bool_decide (remote_buffer_indices_ c = ∅)));;
  set_global_circular_buffer g (mkCB id core_ranges c None 0 0 None).

Definition is_on_logical_corerange (logical_cr : CoreRange) (b : CircularBuffer) : bool := CoreRangeSet_intersects (core_ranges_ b) logical_cr.
Definition is_on_logical_core (logical_core : CoreCoord) (b : CircularBuffer) : bool := CoreRangeSet_contains (core_ranges_ b) logical_core.
Definition uses_buffer_index (buffer_index : Z) (b : CircularBuffer) : bool := bool_decide (buffer_index ∈ buffer_indices_ (config_cb b)).

Definition page_size (buffer_index : Z) (b : CircularBuffer) : res Z :=
  check Throw (uses_buffer_index buffer_index b);;
  page_size ← opt_res StdException (page_sizes_ (config_cb b) !! buffer_index);
  check Undefined (negb (page_size =? 0));;
  check Throw (cb_size b mod page_size =? 0);;
  mret page_size.

Definition cb_num_pages (buffer_index : Z) (b : CircularBuffer) : res Z := p ← page_size buffer_index b; mret (cb_size b / p).

Definition cb_data_format (buffer_index : Z) (b : CircularBuffer) : res DataFormat :=
  check Throw (uses_buffer_index buffer_index b);; opt_res StdException (data_formats_ (config_cb b) !! buffer_index).

Definition cb_tile (buffer_index : Z) (b : CircularBuffer) : res (option Tile) :=
  check Throw (uses_buffer_index buffer_index b);; mret (tiles_ (config_cb b) !! buffer_index).

Definition cb_address (b : CircularBuffer) : res Z :=
  if globally_allocated b then mret (globally_allocated_address_ b) else opt_res Throw (locally_allocated_address_ b).

(** The queue stores the address of the buffer behind it. *)
Definition assign_global_address (b : CircularBuffer) : res CircularBuffer :=
  id ← opt_res Undefined (shadow_global_buffer (config_cb b)); mret (set_global_address (buffer_address id) b).
End OnBuffers.
