(* ===== verification/ProgramBuffers.v ===== *)
(** * Circular buffers of a program: placing them
    (Program_ in tt_metal/impl/program/program.cpp, and the calls of the host API on
    circular buffers in tt_metal/tt_metal.cpp)

    The program's list of circular buffers holds the objects that its map by handle
    refers to; a handle is looked up in the list. *)

From S2P Require Import Prelude CoreCoord FreeList Allocator Buffers BlockFloat Tiles CircularBuffer.

(** ** CircularBufferAllocator *)

Record CircularBufferAllocator := mkCBAllocator {
  core_range : CoreRange;
  l1_regions : list (Z * Z);
}.

Definition set_regions (l : list (Z * Z)) (a : CircularBufferAllocator) : CircularBufferAllocator := mkCBAllocator (core_range a) l.

Definition get_cb_region_end (a : CircularBufferAllocator) : Z := match last (l1_regions a) with Some (_, e) => e | None => 0 end.

Definition mark_address (address size base_address : Z) : M CircularBufferAllocator unit :=
  modify (fun a => if decide (l1_regions a = []) then set_regions [(base_address, base_address)] a else a);;
  a ← get;
  '(s, e) ← lift (opt_res Undefined (last (l1_regions a)));
  require Throw (e <=? address);;
  if address =? e then modify (set_regions (removelast (l1_regions a) ++ [(s, u64 (e + size))]))
  else modify (set_regions (l1_regions a ++ [(address, u64 (address + size))])).

Definition reset_available_addresses (a : CircularBufferAllocator) : CircularBufferAllocator := set_regions [] a.

(** ** Program_ *)

Record ProgramBuffers := mkProgramBuffers {
  circular_buffers : list CircularBuffer;
  per_core_cb_indices : gmap CoreCoord (gset Z);
  per_core_local_cb_indices : gmap CoreCoord (gset Z);
  per_core_remote_cb_indices : gmap CoreCoord (gset Z);
  cb_allocators : list CircularBufferAllocator;
  local_circular_buffer_allocation_needed : bool;
  (** the program has been compiled for some device *)
  compiled : bool;
}.

Definition set_circular_buffers (l : list CircularBuffer) (p : ProgramBuffers) : ProgramBuffers :=
  mkProgramBuffers l (per_core_cb_indices p) (per_core_local_cb_indices p) (per_core_remote_cb_indices p) (cb_allocators p) (local_circular_buffer_allocation_needed p) (compiled p).
Definition set_per_core (a l r : gmap CoreCoord (gset Z)) (p : ProgramBuffers) : ProgramBuffers :=
  mkProgramBuffers (circular_buffers p) a l r (cb_allocators p) (local_circular_buffer_allocation_needed p) (compiled p).
Definition set_cb_allocators (l : list CircularBufferAllocator) (p : ProgramBuffers) : ProgramBuffers :=
  mkProgramBuffers (circular_buffers p) (per_core_cb_indices p) (per_core_local_cb_indices p) (per_core_remote_cb_indices p) l (local_circular_buffer_allocation_needed p) (compiled p).
Definition set_needed (b : bool) (p : ProgramBuffers) : ProgramBuffers :=
  mkProgramBuffers (circular_buffers p) (per_core_cb_indices p) (per_core_local_cb_indices p) (per_core_remote_cb_indices p) (cb_allocators p) b (compiled p).

Definition empty_program : ProgramBuffers := mkProgramBuffers [] ∅ ∅ ∅ [] false false.

Definition PM := M ProgramBuffers.

Definition invalidate_circular_buffer_allocation : PM unit :=
  modify (fun p => if local_circular_buffer_allocation_needed p then p
    else set_needed true (set_cb_allocators (map reset_available_addresses (cb_allocators p)) p)).

(** *** Adding *)

(** The loops over a range: down each column. *)
Definition cores_of (r : CoreRange) : list CoreCoord :=
  flat_map (fun x => map (mkCoord x) (zrange (cy (start_coord r)) (cy (end_coord r) + 1))) (zrange (cx (start_coord r)) (cx (end_coord r) + 1)).

Definition indices_at (m : gmap CoreCoord (gset Z)) (c : CoreCoord) : gset Z := default ∅ (m !! c).

(** One turn of [add_buffer_indices], for a local or a remote index. *)
Definition add_buffer_index (local : bool) (logical_core : CoreCoord) (buffer_index : Z) : PM unit :=
  p ← get;
  require Assert (buffer_index <? NUM_CIRCULAR_BUFFERS);;
  let cb_indices := indices_at (per_core_cb_indices p) logical_core in
  require Throw (negb (bool_decide (buffer_index ∈ cb_indices)));;
  let enter (m : gmap CoreCoord (gset Z)) := <[logical_core := {[buffer_index]} ∪ indices_at m logical_core]> m in
  modify (set_per_core (enter (per_core_cb_indices p))
    (if local then enter (per_core_local_cb_indices p) else per_core_local_cb_indices p)
    (if local then per_core_remote_cb_indices p else enter (per_core_remote_cb_indices p))).

(** The indices of a set, in some order. *)
Definition add_buffer_indices (local : bool) (logical_core : CoreCoord) (buffer_indices : gset Z) : PM unit :=
  mapM_ (add_buffer_index local logical_core) (elements buffer_indices).

(** A core that gets no entry here for want of indices has an empty one in the code. *)
Definition mark_core (c : CircularBufferConfig) (logical_core : CoreCoord) : PM unit :=
  add_buffer_indices true logical_core (local_buffer_indices_ c);;
  add_buffer_indices false logical_core (remote_buffer_indices_ c).

Definition allocator_for (r : CoreRange) (a : CircularBufferAllocator) : bool := bool_decide (core_range a = r).

Definition add_allocator (r : CoreRange) : PM unit :=
  modify (fun p => if existsb (allocator_for r) (cb_allocators p) then p else set_cb_allocators (cb_allocators p ++ [mkCBAllocator r []]) p).

Section OnBuffers.
(** As for the circular buffers themselves. *)
Context (debug : bool) (buffer_of : Z -> Buffer) (alloc : Allocator) (num_device_banks : Z).

Definition add_circular_buffer_ (core_range_set : CoreRangeSet) (circular_buffer : CircularBuffer) : PM Z :=
  circular_buffer ← (if globally_allocated circular_buffer then lift (assign_global_address buffer_of circular_buffer)
    else invalidate_circular_buffer_allocation;; mret circular_buffer);
  mapM_ (fun r => mapM_ (mark_core (config_cb circular_buffer)) (cores_of r);; add_allocator r) core_range_set;;
  modify (fun p => set_circular_buffers (circular_buffers p ++ [circular_buffer]) p);;
  mret (cb_id circular_buffer).

(** [id]: the address of the new object. *)
Definition add_circular_buffer (id : Z) (core_range_set : CoreRangeSet) (c : CircularBufferConfig) : PM Z :=
  p ← get;
  require Fatal (negb (compiled p));;
  b ← lift (CircularBuffer_new id core_range_set c);
  add_circular_buffer_ core_range_set b.

Definition add_circular_buffer_global (id : Z) (core_range_set : CoreRangeSet) (c : CircularBufferConfig) (g : GlobalCircularBuffer) : PM Z :=
  p ← get;
  require Fatal (negb (compiled p));;
  b ← lift (CircularBuffer_new_global debug buffer_of alloc num_device_banks id core_range_set c g);
  add_circular_buffer_ core_range_set b.

(** *** Looking up *)

Definition get_circular_buffer (id : Z) : PM (nat * CircularBuffer) :=
  p ← get; lift (opt_res Throw (list_find (fun b => cb_id b = id) (circular_buffers p))).

Definition circular_buffers_on_core (core : CoreCoord) (p : ProgramBuffers) : list CircularBuffer :=
  filter (fun b => is_on_logical_core core b = true) (circular_buffers p).
Definition circular_buffers_on_corerange (cr : CoreRange) (p : ProgramBuffers) : list CircularBuffer :=
  filter (fun b => is_on_logical_corerange cr b = true) (circular_buffers p).
Definition circular_buffers_unique_coreranges (p : ProgramBuffers) : list CoreRange :=
  fold_left (fun l r => if decide (r ∈ l) then l else l ++ [r]) (flat_map core_ranges_ (circular_buffers p)) [].

(** *** Changing *)

Definition replace_circular_buffer (i : nat) (b : CircularBuffer) : PM unit := modify (fun p => set_circular_buffers (<[i := b]> (circular_buffers p)) p).

(** An operation on the configuration of a circular buffer. *)
Definition on_config (i : nat) (b : CircularBuffer) (m : CM unit) : PM CircularBuffer :=
  let '(c, r) := m (config_cb b) in
  let b := set_cb_config c b in
  replace_circular_buffer i b;; lift r;; mret b.

Definition UpdateCircularBufferTotalSize (id total_size : Z) : PM unit :=
  '(i, b) ← get_circular_buffer id;
  when (negb (globally_allocated b)) invalidate_circular_buffer_allocation;;
  on_config i b (set_total_size debug total_size);; mret tt.

Definition UpdateCircularBufferPageSize (id buffer_index page_size : Z) : PM unit :=
  '(i, b) ← get_circular_buffer id;
  on_config i b (CircularBuffer.set_page_size buffer_index page_size);; mret tt.

Definition UpdateDynamicCircularBufferAddress (id buffer : Z) : PM unit :=
  '(i, b) ← get_circular_buffer id;
  require Fatal (negb (is_global_circular_buffer b));;
  b ← on_config i b (set_globally_allocated_address debug buffer_of alloc num_device_banks buffer);
  b ← lift (assign_global_address buffer_of b);
  replace_circular_buffer i b.

Definition UpdateDynamicCircularBufferAddressAndTotalSize (id buffer total_size : Z) : PM unit :=
  '(i, b) ← get_circular_buffer id;
  b ← on_config i b (set_globally_allocated_address_and_total_size debug buffer_of alloc num_device_banks buffer total_size);
  b ← lift (assign_global_address buffer_of b);
  replace_circular_buffer i b.
End OnBuffers.

(** *** Placing *)

Definition region_end_of (als : list CircularBufferAllocator) (addr : Z) (r : CoreRange) : Z :=
  match list_find (fun a => core_range a = r) als with Some (_, a) => Z.max addr (get_cb_region_end a) | None => addr end.

(** The loop over the allocators for one range of the circular buffer. *)
Fixpoint mark_allocators (r : CoreRange) (computed_addr size base_cb_address : Z) (als : list CircularBufferAllocator) : list CircularBufferAllocator * res unit :=
  match als with
  | [] => ([], Ok tt)
  | a :: als =>
      if CoreRange_intersects (core_range a) r && negb (negb (allocator_for r a) && (computed_addr <? get_cb_region_end a)) then
        match mark_address computed_addr size base_cb_address a with
        | (a, Ok _) => let '(als, res) := mark_allocators r computed_addr size base_cb_address als in (a :: als, res)
        | (a, Err e) => (a :: als, Err e)
        end
      else let '(als, res) := mark_allocators r computed_addr size base_cb_address als in (a :: als, res)
  end.

Definition place (base_cb_address allocator_alignment : Z) (b : CircularBuffer) : M (list CircularBufferAllocator) Z :=
  als ← get;
  let computed_addr := fold_left (region_end_of als) (core_ranges_ b) base_cb_address in
  let computed_addr := Buffers.align (u32 computed_addr) (u32 allocator_alignment) in
  mapM_ (fun r => mark_allocators r computed_addr (cb_size b) base_cb_address) (core_ranges_ b);;
  mret computed_addr.

(** [base_cb_address], [allocator_alignment]: of the device. *)
Definition allocate_circular_buffer (base_cb_address allocator_alignment : Z) (i : nat) : PM unit :=
  p ← get;
  b ← lift (opt_res Undefined (circular_buffers p !! i));
  when (negb (globally_allocated b))
    (computed_addr ← zoom cb_allocators set_cb_allocators (place base_cb_address allocator_alignment b);
     replace_circular_buffer i (set_locally_allocated_address computed_addr b)).

Definition allocate_circular_buffers (base_cb_address allocator_alignment : Z) : PM unit :=
  p ← get;
  when (local_circular_buffer_allocation_needed p)
    (mapM_ (allocate_circular_buffer base_cb_address allocator_alignment) (seq 0 (length (circular_buffers p)));;
     modify (set_needed false)).

(** [lowest_address]: the lowest address of the L1 buffers on the program's sub-devices. *)
Definition validate_circular_buffer_region (lowest_address : option Z) (max_l1_size : Z) (p : ProgramBuffers) : res unit :=
  fold_res (fun a _ =>
    match last (l1_regions a) with
    | None => mret tt
    | Some (_, cb_region_end) =>
        check Throw (cb_region_end <=? max_l1_size);;
        check Throw (negb (match lowest_address with Some l => l <? cb_region_end | None => false end))
    end) (cb_allocators p) tt.
