(* ===== verification/ProgramBuffersProps.v ===== *)
(** * Circular buffers of a program: lemmas

    What marking a region does to an allocator, and what the placing of one circular
    buffer does to all of them. *)

From Stdlib Require Import Lia.
From S2P Require Import Prelude CoreCoord FreeList Allocator Buffers BlockFloat Tiles CircularBuffer ProgramBuffers.

Section Marks.
Context (base : Z).

(** Where the next circular buffer may start. *)
Definition next_free (a : CircularBufferAllocator) : Z := match last (l1_regions a) with Some (_, e) => e | None => base end.

(** An allocator before and after marks: its range stays, and where it is free grows. *)
Definition grown (a a' : CircularBufferAllocator) : Prop :=
  core_range a' = core_range a /\ next_free a <= next_free a' /\ (l1_regions a' = [] -> l1_regions a = []).
#[export] Instance grown_pre : PreOrder grown.
Proof. split; [done|]. intros a b c (H1 & H2 & H3) (H4 & H5 & H6). split_and!; [congruence|lia|auto]. Qed.

Definition all_grown (l l' : list CircularBufferAllocator) : Prop := Forall2 grown l l'.
#[export] Instance all_grown_pre : PreOrder all_grown.
Proof.
  split; [intros l; unfold all_grown; by induction l; constructor|]. intros l1 l2 l3 H. revert l3. induction H as [|a b l1 l2 Hab _ IH]; intros l3 H'; inversion H' as [|? c ? ? Hbc H2]; subst; constructor; [by trans b|by apply IH].
Qed.

Lemma all_grown_lookup l l' i a : all_grown l l' -> l !! i = Some a -> exists a', l' !! i = Some a' /\ grown a a'.
Proof. intros H E. by eapply Forall2_lookup_l in H as (a' & ? & ?); [exists a'|]. Qed.

Lemma all_grown_ranges l l' : all_grown l l' -> map core_range l' = map core_range l.
Proof. induction 1 as [|a a' l l' (H & _) _ IH]; [done|]. cbn. by rewrite H, IH. Qed.

(** A mark goes to free space, and takes it up to its end. *)
Lemma mark_address_cases address size a :
  0 <= address -> 0 <= size -> address + size < 2 ^ 64 ->
  if next_free a <=? address then
    exists a', mark_address address size base a = (a', Ok tt) /\ grown a a' /\ next_free a' = address + size /\ l1_regions a' <> []
  else exists a', mark_address address size base a = (a', Err Throw).
Proof.
  intros Ha Hs Hb. unfold mark_address, modify, get, require, lift, mbind, M_bind. cbn. set (a1 := if decide (l1_regions a = []) then _ else a).
  assert (core_range a1 = core_range a /\ exists s, last (l1_regions a1) = Some (s, next_free a)) as (Hc & s & Hl).
  { unfold a1, next_free. destruct (decide (l1_regions a = [])) as [E|E]; [rewrite E; cbn; eauto|]. split; [done|]. destruct (last (l1_regions a)) as [[s e]|] eqn:El; [eauto|]. by apply last_None in El. }
  rewrite Hl. cbn. destruct (Z.leb_spec (next_free a) address); cbn [check]; [|eauto].
  assert (forall l s e, e = address + size -> l1_regions a <> [] \/ next_free a = base -> grown a (set_regions (l ++ [(s, e)]) a1) /\ next_free (set_regions (l ++ [(s, e)]) a1) = address + size /\ l ++ [(s, e)] <> []) as Hg.
  { intros l s' e -> _. assert (next_free (set_regions (l ++ [(s', address + size)]) a1) = address + size) as En by (unfold next_free; cbn; by rewrite last_snoc).
    split_and!; [|done|by destruct l]. split_and!; [done|rewrite En; lia|]. intros E. by destruct l. }
  assert (l1_regions a <> [] \/ next_free a = base) as Hne by (destruct (decide (l1_regions a = [])) as [E|E]; [right; unfold next_free; by rewrite E|by left]).
  destruct (Z.eqb_spec address (next_free a)) as [E|E]; eexists; (split; [reflexivity|]); cbn [l1_regions set_regions]; apply Hg; try done; rewrite u64_small; lia.
Qed.

(** One range of a circular buffer. *)
Lemma mark_allocators_ok r address size als als' :
  0 <= address -> 0 <= size -> address + size < 2 ^ 64 -> range_wf r -> mark_allocators r address size base als = (als', Ok tt) ->
  all_grown als als' /\ forall i a a', als !! i = Some a -> als' !! i = Some a' -> core_range a = r -> next_free a <= address /\ address + size <= next_free a' /\ l1_regions a' <> [].
Proof.
  intros Ha Hs Hb Hwf. revert als'. induction als as [|a als IH]; intros als'; cbn [mark_allocators]; [intros [= <-]; split; [done|]; intros i; by rewrite lookup_nil|].
  assert (CoreRange_intersects r r = true) as Hself by (unfold CoreRange_intersects, range_wf in *; bool_lia).
  destruct (CoreRange_intersects (core_range a) r && _) eqn:Em.
  - pose proof (mark_address_cases address size a Ha Hs Hb) as Hm. destruct (Z.leb_spec (next_free a) address); [|by destruct Hm as (a1 & ->)]. destruct Hm as (a1 & -> & Hm).
    destruct Hm as (Hg & Hn & Hne). destruct (mark_allocators r address size base als) as [als1 [[]|]] eqn:El; [|done]. intros [= <-]. destruct (IH als1 eq_refl) as [Hgs Hat].
    split; [by constructor|]. intros [|i] b b' Hb1 Hb2 Hr; [|by eapply Hat]. cbn in *. injection Hb1 as <-. injection Hb2 as <-. split_and!; [lia|lia|done].
  - destruct (mark_allocators r address size base als) as [als1 res] eqn:El. intros [= <- ->]. destruct (IH als1 eq_refl) as [Hgs Hat].
    split; [by constructor|]. intros [|i] b b' Hb1 Hb2 Hr; [|by eapply Hat]. cbn in *. injection Hb1 as <-. exfalso. unfold allocator_for in Em. rewrite Hr, Hself, bool_decide_true in Em by done. done.
Qed.

(** All its ranges. *)
Lemma mark_ranges_ok ranges address size als als' :
  0 <= address -> 0 <= size -> address + size < 2 ^ 64 -> Forall range_wf ranges ->
  mapM_ (fun r => mark_allocators r address size base) ranges als = (als', Ok tt) ->
  all_grown als als' /\ forall i a a', als !! i = Some a -> als' !! i = Some a' -> core_range a ∈ ranges -> next_free a <= address /\ address + size <= next_free a' /\ l1_regions a' <> [].
Proof.
  intros Ha Hs Hb Hwf. revert als. induction Hwf as [|r ranges Hr _ IH]; intros als; cbn [mapM_].
  - intros [= <-]. split; [done|]. intros i a a' _ _ H. by apply not_elem_of_nil in H.
  - intros (als1 & [] & E1 & E2)%M_bind_inv. destruct (mark_allocators_ok r address size als als1 Ha Hs Hb Hr E1) as [Hg1 Hat1]. destruct (IH als1 E2) as [Hg2 Hat2].
    split; [by trans als1|]. intros i a a' Hi Hi' Hin. destruct (all_grown_lookup als als1 i a Hg1 Hi) as (a1 & Hi1 & Hga). destruct (all_grown_lookup als1 als' i a1 Hg2 Hi1) as (a2 & Hi2 & Hga').
    rewrite Hi' in Hi2. injection Hi2 as <-. apply elem_of_cons in Hin as [Hin|Hin].
    + destruct (Hat1 i a a1 Hi Hi1 Hin) as (H1 & H2 & H3). destruct Hga' as (_ & H4 & H5). split_and!; [lia|lia|auto].
    + destruct (Hat2 i a1 a' Hi1 Hi') as (H1 & H2 & H3); [by rewrite (proj1 Hga)|]. destruct Hga as (_ & H4 & _). split_and!; [lia|lia|done].
Qed.
End Marks.

(** ** Placing one circular buffer *)

Lemma align_mod x k : 0 <= k <= 31 -> 0 <= x < 2 ^ 32 -> Buffers.align x (2 ^ k) mod 2 ^ k = 0 /\ 0 <= Buffers.align x (2 ^ k) < 2 ^ 32.
Proof.
  intros Hk Hx. unfold Buffers.align. assert (0 < 2 ^ k <= 2 ^ 31) by (split; [apply Z.pow_pos_nonneg; lia|apply Z.pow_le_mono_r; lia]).
  split; [|apply u32_range]. rewrite (u32_small (2 ^ k - 1)) by (pow2; lia). set (y := u32 (x - 1)). unfold u32.
  assert ((Z.lor y (2 ^ k - 1) + 1) mod 2 ^ k = 0) as E.
  { replace (2 ^ k - 1) with (Z.ones k) by (rewrite Z.ones_equiv; lia). assert (Z.lor y (Z.ones k) = y / 2 ^ k * 2 ^ k + Z.ones k) as ->.
    - rewrite <- lor_add by (rewrite ?Z.ones_equiv; lia). apply Z.bits_inj'. intros n Hn. rewrite !Z.lor_spec. destruct (Z.lt_ge_cases n k).
      + by rewrite Z.ones_spec_low, !orb_true_r by lia.
      + rewrite Z.ones_spec_high, !orb_false_r by lia. rewrite Z.mul_pow2_bits by lia. rewrite <- Z.shiftr_div_pow2, Z.shiftr_spec by lia. f_equal. lia.
    - rewrite Z.ones_equiv. replace (y / 2 ^ k * 2 ^ k + Z.pred (2 ^ k) + 1) with ((y / 2 ^ k + 1) * 2 ^ k) by lia. by rewrite Z.mod_mul by lia. }
  rewrite Z.mod_mod_divide; [done|]. exists (2 ^ (32 - k)). rewrite <- Z.pow_add_r by lia. f_equal. lia.
Qed.

Lemma place_ok base k b als als' a :
  0 <= k <= 31 -> Forall range_wf (core_ranges_ b) -> is_u32 (cb_size b) -> place base (2 ^ k) b als = (als', Ok a) ->
  all_grown base als als' /\ 0 <= a < 2 ^ 32 /\ a mod 2 ^ k = 0 /\
  forall i A A', als !! i = Some A -> als' !! i = Some A' -> core_range A ∈ core_ranges_ b -> next_free base A <= a /\ a + cb_size b <= next_free base A' /\ l1_regions A' <> [].
Proof.
  intros Hk Hwf Hsz (als0 & als0' & E0 & E)%M_bind_inv. injection E0 as <- <-. cbv zeta in E. apply M_bind_inv in E as (als1 & [] & E1 & E2). injection E2 as <- <-.
  assert (0 < 2 ^ k < 2 ^ 32) by (split; [apply Z.pow_pos_nonneg; lia|apply Z.pow_lt_mono_r; lia]). rewrite (u32_small (2 ^ k)) in * by lia.
  destruct (align_mod (u32 (fold_left (region_end_of als) (core_ranges_ b) base)) k Hk (u32_range _)) as [Hm Hr]. unfold is_u32 in *.
  destruct (mark_ranges_ok base _ _ _ _ _ (proj1 Hr) (proj1 Hsz) ltac:(change (2 ^ 64) with (2 ^ 32 * 2 ^ 32); lia) Hwf E1) as [Hg Hat]. done.
Qed.
