(* ===== verification/ProgramBuffersInv.v ===== *)
(** * Circular buffers of a program: the invariant

    What holds of a program whatever was added to it, changed and placed, and that the
    placing of all circular buffers establishes their places. *)

From Stdlib Require Import Lia.
From S2P Require Import Prelude CoreCoord FreeList Allocator Buffers BlockFloat Tiles CircularBuffer ProgramBuffers ProgramBuffersProps.

Section Program.
Context (base k : Z).

Definition cb_indices (b : CircularBuffer) : gset Z := local_buffer_indices_ (config_cb b) ∪ remote_buffer_indices_ (config_cb b).
Definition on_core (c : CoreCoord) (b : CircularBuffer) : Prop := cell_in_set c (core_ranges_ b).

(** The circular buffers, the marks of their indices, and an allocator for each range. *)
Record program_ok (p : ProgramBuffers) : Prop := mkProgramOk {
  pr_valid : forall b, b ∈ circular_buffers p -> set_wf (core_ranges_ b) /\ is_u32 (cb_size b);
  pr_covered : forall b r, b ∈ circular_buffers p -> r ∈ core_ranges_ b -> exists a, a ∈ cb_allocators p /\ core_range a = r;
  pr_unique : NoDup (map core_range (cb_allocators p));
  pr_floor : forall a, a ∈ cb_allocators p -> base <= next_free base a;
  pr_marked : forall b c i, b ∈ circular_buffers p -> on_core c b -> i ∈ cb_indices b -> i ∈ indices_at (per_core_cb_indices p) c;
  pr_exclusive : forall n m b b' c i, circular_buffers p !! n = Some b -> circular_buffers p !! m = Some b' -> on_core c b -> on_core c b' -> i ∈ cb_indices b -> i ∈ cb_indices b' -> n = m;
}.

(** The first [n] circular buffers have their places: behind those before them on each
    range they share, and in what their allocators have marked. *)
Definition has_place (als : list CircularBufferAllocator) (b : CircularBuffer) (a : Z) : Prop :=
  locally_allocated_address_ b = Some a /\ 0 <= a < 2 ^ 32 /\ a mod 2 ^ k = 0 /\
  forall A, A ∈ als -> core_range A ∈ core_ranges_ b -> base <= a /\ a + cb_size b <= next_free base A /\ l1_regions A <> [].

Definition placed (n : nat) (p : ProgramBuffers) : Prop :=
  forall i b, (i < n)%nat -> circular_buffers p !! i = Some b -> globally_allocated b = false ->
    exists a, has_place (cb_allocators p) b a /\
      forall j b' r, (j < i)%nat -> circular_buffers p !! j = Some b' -> globally_allocated b' = false -> r ∈ core_ranges_ b -> r ∈ core_ranges_ b' ->
        exists a', locally_allocated_address_ b' = Some a' /\ a' + cb_size b' <= a.

Definition state_ok (p : ProgramBuffers) : Prop :=
  if local_circular_buffer_allocation_needed p then forall a, a ∈ cb_allocators p -> l1_regions a = [] else placed (length (circular_buffers p)) p.

(** ** The loop of allocate_circular_buffers *)

Lemma elem_of_all_grown als als' A' : all_grown base als als' -> A' ∈ als' -> exists A, A ∈ als /\ grown base A A'.
Proof using.
  unfold all_grown. intros H (i & Hi)%list_elem_of_lookup. eapply Forall2_lookup_r in H as (A & HA & Hg); [|exact Hi]. exists A. split; [|done]. by apply list_elem_of_lookup_2 in HA.
Qed.

(** Marks do not hurt. *)
Lemma program_ok_grown p als : program_ok p -> all_grown base (cb_allocators p) als -> program_ok (set_cb_allocators als p).
Proof using.
  intros [H1 H2 H3 H4 H5 H6] Hg. split; cbn; try done.
  - intros b r Hb Hr. destruct (H2 b r Hb Hr) as (A & (i & Hi)%list_elem_of_lookup & HA). destruct (all_grown_lookup base _ _ i A Hg Hi) as (A' & Hi' & Hgr).
    exists A'. split; [by apply list_elem_of_lookup_2 in Hi'|]. destruct Hgr as [-> _]. done.
  - by rewrite (all_grown_ranges base _ _ Hg).
  - intros A' HA'. destruct (elem_of_all_grown _ _ _ Hg HA') as (A & HA & (_ & Hle & _)). specialize (H4 A HA). lia.
Qed.

Lemma has_place_grown als als' b a : all_grown base als als' -> has_place als b a -> has_place als' b a.
Proof using.
  unfold has_place. intros Hg (H1 & H2 & H3 & H4). split_and!; try (done || lia). intros A' HA' Hr. destruct (elem_of_all_grown _ _ _ Hg HA') as (A & HA & (Hc & Hle & He)). rewrite Hc in Hr.
  destruct (H4 A HA Hr) as (H5 & H6 & H7). split_and!; [lia|lia|auto].
Qed.

Lemma placed_grown n p als : all_grown base (cb_allocators p) als -> placed n p -> placed n (set_cb_allocators als p).
Proof using. intros Hg H i b Hi Hb Hl. destruct (H i b Hi Hb Hl) as (a & Ha & Hj). exists a. split; [by eapply has_place_grown|done]. Qed.

(** A change of a circular buffer's address, or of what the rest does not look at. *)
Definition same_shape (b b' : CircularBuffer) : Prop :=
  core_ranges_ b' = core_ranges_ b /\ cb_indices b' = cb_indices b /\ is_u32 (cb_size b').

Lemma elem_of_replaced (l : list CircularBuffer) n b b' x : l !! n = Some b -> x ∈ <[n := b']> l -> x = b' \/ x ∈ l.
Proof using.
  intros Hn (m & Hm)%list_elem_of_lookup. destruct (decide (n = m)) as [<-|Hne].
  - rewrite list_lookup_insert_eq in Hm by (by eapply lookup_lt_Some). injection Hm as <-. by left.
  - rewrite list_lookup_insert_ne in Hm by done. right. by apply list_elem_of_lookup_2 in Hm.
Qed.

Lemma replaced_lookup (l : list CircularBuffer) n b b' m x : l !! n = Some b -> <[n := b']> l !! m = Some x -> exists y, l !! m = Some y /\ (m = n /\ y = b /\ x = b' \/ m <> n /\ x = y).
Proof using.
  intros Hn Hm. destruct (decide (n = m)) as [<-|Hne].
  - rewrite list_lookup_insert_eq in Hm by (by eapply lookup_lt_Some). injection Hm as <-. exists b. auto.
  - rewrite list_lookup_insert_ne in Hm by done. exists x. auto.
Qed.

Lemma program_ok_replace p n b b' : program_ok p -> circular_buffers p !! n = Some b -> same_shape b b' -> program_ok (set_circular_buffers (<[n := b']> (circular_buffers p)) p).
Proof using.
  intros [H1 H2 H3 H4 H5 H6] Hn (Hr & Hi & Hs). pose proof (list_elem_of_lookup_2 _ _ _ Hn) as Hb. unfold on_core in *. split; cbn; try done.
  - intros x [->|Hx]%(elem_of_replaced _ _ _ _ _ Hn); [|by apply H1]. rewrite Hr. split; [by apply H1|done].
  - intros x r [->|Hx]%(elem_of_replaced _ _ _ _ _ Hn); [|by apply H2]. rewrite Hr. by apply H2.
  - intros x c i [->|Hx]%(elem_of_replaced _ _ _ _ _ Hn); [|by apply H5]. unfold on_core. rewrite Hr, Hi. by apply H5.
  - assert (forall m x, <[n := b']> (circular_buffers p) !! m = Some x -> exists y, circular_buffers p !! m = Some y /\ core_ranges_ x = core_ranges_ y /\ cb_indices x = cb_indices y) as Hlk.
    { intros m x Hm. destruct (replaced_lookup _ _ _ _ _ _ Hn Hm) as (y & Hy & [(-> & -> & ->)|(_ & ->)]); eauto. }
    unfold on_core. intros m m' x x' c i Hm Hm'. destruct (Hlk m x Hm) as (y & Hy & -> & ->). destruct (Hlk m' x' Hm') as (y' & Hy' & -> & ->). by apply H6.
Qed.

(** One turn: the [n]-th circular buffer gets its place. *)
Hypothesis Hk : 0 <= k <= 31.

Abbreviation turn := (allocate_circular_buffer base (2 ^ k)).

Lemma placed_skip n p b : placed n p -> circular_buffers p !! n = Some b -> globally_allocated b = true -> placed (S n) p.
Proof using. intros H Hb Hg i x Hi Hx Hl. apply H; [|done|done]. destruct (decide (i = n)) as [->|]; [congruence|lia]. Qed.

Lemma turn_ok n p p' b :
  program_ok p -> placed n p -> circular_buffers p !! n = Some b -> globally_allocated b = false -> turn n p = (p', Ok tt) ->
  program_ok p' /\ placed (S n) p' /\ length (circular_buffers p') = length (circular_buffers p) /\ local_circular_buffer_allocation_needed p' = local_circular_buffer_allocation_needed p.
Proof using Hk.
  intros Hp Hpl Hn Hl. pose proof (list_elem_of_lookup_2 _ _ _ Hn) as Hb. destruct (pr_valid p Hp b Hb) as [[Hwf _] Hsz].
  intros (p1 & p1' & E1 & E)%M_bind_inv. injection E1 as <- <-. apply M_bind_inv in E as (p2 & b' & E2 & E). unfold lift in E2. rewrite Hn in E2. injection E2 as <- <-. rewrite Hl in E. cbn [negb when] in E.
  apply M_bind_inv in E as (p3 & a & E3 & E4). unfold zoom in E3. destruct (place base (2 ^ k) b (cb_allocators p)) as [als res] eqn:Epl. injection E3 as <- ->. injection E4 as <-.
  destruct (place_ok base k b _ _ a Hk Hwf Hsz Epl) as (Hg & Ha & Hm & Hat). set (b' := set_locally_allocated_address a b).
  pose proof (program_ok_grown p als Hp Hg) as Hp1. pose proof (placed_grown n p als Hg Hpl) as Hpl1.
  assert (program_ok (set_circular_buffers (<[n := b']> (circular_buffers p)) (set_cb_allocators als p))) as Hp2 by (by apply (program_ok_replace (set_cb_allocators als p) n b)).
  split; [done|]. split; [|split; [apply length_insert|done]]. intros i x Hi Hx Hgl. cbn in *. assert (forall j y, j <> n -> <[n := b']> (circular_buffers p) !! j = Some y -> circular_buffers p !! j = Some y) as Hother by (intros j y Hj; by rewrite list_lookup_insert_ne).
  destruct (decide (i = n)) as [->|Hne].
  - rewrite list_lookup_insert_eq in Hx by (by eapply lookup_lt_Some). injection Hx as <-. exists a. split.
    + split; [cbn; by rewrite u32_small|]. split_and!; try (done || lia). intros A HA HAr. apply list_elem_of_lookup in HA as (m & HA). unfold all_grown in Hg. eapply Forall2_lookup_r in Hg as Hg'; [|exact HA]. destruct Hg' as (A0 & HA0 & Hgr).
      destruct (Hat m A0 A HA0 HA) as (H1 & H2 & H3); [by rewrite <- (proj1 Hgr)|]. pose proof (pr_floor p Hp A0 (list_elem_of_lookup_2 _ _ _ HA0)). split_and!; [lia|done|done].
    + intros j y r Hj Hy Hly Hr Hr'. apply Hother in Hy; [|lia]. destruct (Hpl j y Hj Hy Hly) as (a' & (Hloc & _ & _ & Hin) & _). exists a'. split; [done|].
      destruct (pr_covered p Hp b r Hb Hr) as (A & HA & HAr). destruct (Hin A HA) as (_ & H1 & _); [by rewrite HAr|]. apply list_elem_of_lookup in HA as (m & HA).
      destruct (all_grown_lookup base _ _ m A Hg HA) as (A' & HA' & _). destruct (Hat m A A' HA HA') as (H2 & _); [by rewrite HAr|]. lia.
  - apply Hother in Hx; [|done]. destruct (Hpl1 i x ltac:(lia) Hx Hgl) as (a' & H1 & H2). exists a'. split; [done|]. intros j y r Hj Hy. apply Hother in Hy; [|lia]. by apply (H2 j y r).
Qed.

Lemma turns_ok m n p p' :
  program_ok p -> placed n p -> length (circular_buffers p) = (n + m)%nat -> mapM_ turn (seq n m) p = (p', Ok tt) ->
  program_ok p' /\ placed (n + m) p' /\ length (circular_buffers p') = (n + m)%nat.
Proof using Hk.
  revert n p. induction m as [|m IH]; intros n p Hp Hpl Hlen; cbn [seq mapM_]; [intros [= <-]; by rewrite Nat.add_0_r in *|].
  intros (p1 & [] & E1 & E)%M_bind_inv. destruct (lookup_lt_is_Some_2 (circular_buffers p) n) as (b & Hb); [lia|]. destruct (globally_allocated b) eqn:Hg.
  - assert (p1 = p) as -> by (apply M_bind_inv in E1 as (? & ? & E0 & E1); injection E0 as <- <-; apply M_bind_inv in E1 as (? & ? & E0 & E1); unfold lift in E0; rewrite Hb in E0; injection E0 as <- <-; rewrite Hg in E1; by injection E1).
    rewrite <- Nat.add_succ_comm. apply (IH (S n) p); [done|by eapply placed_skip|lia|done].
  - destruct (turn_ok n p p1 b Hp Hpl Hb Hg E1) as (Hp1 & Hpl1 & Hl1 & _). rewrite <- Nat.add_succ_comm. apply (IH (S n) p1); [done|done|lia|done].
Qed.

(** Placing all of them. *)
Lemma placing_ok p p' : program_ok p -> state_ok p -> allocate_circular_buffers base (2 ^ k) p = (p', Ok tt) ->
  program_ok p' /\ state_ok p' /\ local_circular_buffer_allocation_needed p' = false.
Proof using Hk.
  intros Hp Hst (p0 & p0' & E0 & E)%M_bind_inv. injection E0 as <- <-. unfold when in E. destruct (local_circular_buffer_allocation_needed p) eqn:En; [|by injection E as <-].
  apply M_bind_inv in E as (p1 & [] & E1 & E2). destruct (turns_ok (length (circular_buffers p)) 0 p p1 Hp) as ([H1 H2 H3 H4 H5 H6] & Hpl & Hlen); [intros i b Hi; lia|done|done|]. injection E2 as <-.
  split; [by split|]. split; [|done]. unfold state_ok. cbn. by rewrite Hlen.
Qed.
End Program.
