(* ===== verification/ProgramBuffersOps.v ===== *)
(** * Circular buffers of a program: its operations keep the invariant

    Adding a circular buffer, also when it fails half way, and changing one. *)

From Stdlib Require Import Lia.
From S2P Require Import Prelude CoreCoord FreeList Allocator Buffers BlockFloat Tiles CircularBuffer ProgramBuffers ProgramBuffersProps ProgramBuffersInv.

(** A loop: what its turns do to the state adds up, whether it ends or fails. *)
Lemma mapM_steps {S A} (R : S -> S -> Prop) `{!PreOrder R} (f : A -> M S unit) l s s' r :
  (forall x s s' r, f x s = (s', r) -> R s s') -> mapM_ f l s = (s', r) ->
  R s s' /\ (r = Ok tt -> forall x, x ∈ l -> exists s1 s2, R s s1 /\ f x s1 = (s2, Ok tt) /\ R s2 s').
Proof.
  intros Hf. revert s. induction l as [|x l IH]; intros s; cbn [mapM_].
  - intros [= <- <-]. split; [done|]. intros _ x H. by apply not_elem_of_nil in H.
  - unfold mbind, M_bind. destruct (f x s) as [s1 [[]|e]] eqn:Ex.
    + intros E. destruct (IH s1 E) as [H1 H2]. pose proof (Hf _ _ _ _ Ex) as H0. split; [by trans s1|]. intros Hr y Hy. apply elem_of_cons in Hy as [->|Hy]; [by exists s, s1|].
      destruct (H2 Hr y Hy) as (s2 & s3 & H3 & H4 & H5). exists s2, s3. split_and!; [by trans s1|done|done].
    + intros [= <- <-]. split; [by eapply Hf|done].
Qed.

Lemma elem_of_cores_of r c : c ∈ cores_of r <-> cell_in c r.
Proof.
  unfold cores_of, cell_in. rewrite list_elem_of_In, in_flat_map. setoid_rewrite <- list_elem_of_In. split.
  - intros (x & Hx%elem_of_zrange & Hc). apply list_elem_of_fmap in Hc as (y & -> & Hy%elem_of_zrange). cbn. lia.
  - intros H. exists (cx c). rewrite elem_of_zrange. split; [lia|]. apply list_elem_of_fmap. exists (cy c). rewrite elem_of_zrange. split; [by destruct c|lia].
Qed.

(** ** Marks of indices *)

(** What the loops of [add_circular_buffer_] keep and add. *)
Record marked (p p' : ProgramBuffers) : Prop := mkMarked {
  mk_buffers : circular_buffers p' = circular_buffers p;
  mk_needed : local_circular_buffer_allocation_needed p' = local_circular_buffer_allocation_needed p;
  mk_indices : forall c, indices_at (per_core_cb_indices p) c ⊆ indices_at (per_core_cb_indices p') c;
  mk_allocators : forall a, a ∈ cb_allocators p -> a ∈ cb_allocators p';
  mk_new : forall a, a ∈ cb_allocators p' -> a ∈ cb_allocators p \/ l1_regions a = [] /\ core_range a ∉ map core_range (cb_allocators p);
  mk_unique : NoDup (map core_range (cb_allocators p)) -> NoDup (map core_range (cb_allocators p'));
}.

#[export] Instance marked_pre : PreOrder marked.
Proof.
  split; [split; auto|]. intros p1 p2 p3 [A1 A2 A3 A4 A5 A6] [B1 B2 B3 B4 B5 B6]. split; try congruence; auto.
  - intros c. etrans; eauto.
  - intros a [H|[H1 H2]]%B5; [by apply A5|]. right. split; [done|]. intros H. apply H2. apply list_elem_of_fmap in H as (x & -> & Hx). apply list_elem_of_fmap. exists x. auto.
Qed.

Lemma indices_at_insert m c i c' : indices_at (<[c := {[i]} ∪ indices_at m c]> m) c' = if decide (c = c') then {[i]} ∪ indices_at m c' else indices_at m c'.
Proof. unfold indices_at at 1. destruct (decide (c = c')) as [<-|Hne]; [by rewrite lookup_insert_eq|]. by rewrite lookup_insert_ne. Qed.

Definition newly_marked (p p' : ProgramBuffers) (c : CoreCoord) (i : Z) : Prop :=
  (i ∉ indices_at (per_core_cb_indices p) c) /\ (i ∈ indices_at (per_core_cb_indices p') c).

Lemma newly_marked_within p q q' p' c i : marked p q -> marked q' p' -> newly_marked q q' c i -> newly_marked p p' c i.
Proof. intros H1 H2 [Hn Hy]. split; [intros H; by apply Hn, (mk_indices _ _ H1)|by apply (mk_indices _ _ H2)]. Qed.

Lemma add_buffer_index_marks local c i p p' r : add_buffer_index local c i p = (p', r) ->
  marked p p' /\ (r = Ok tt -> newly_marked p p' c i).
Proof.
  unfold add_buffer_index, get, require, modify, mbind, M_bind. cbn. destruct (i <? NUM_CIRCULAR_BUFFERS); cbn; [|by intros [= <- <-]]. case_bool_decide as Hin; cbn; [by intros [= <- <-]|].
  intros [= <- <-]. split.
  - split; try done; auto. intros c'. cbn. rewrite indices_at_insert. destruct (decide (c = c')); set_solver.
  - intros _. split; [done|]. cbn. rewrite indices_at_insert. destruct (decide (c = c)); [set_solver|done].
Qed.

Lemma add_buffer_indices_marks local c s p p' r : add_buffer_indices local c s p = (p', r) ->
  marked p p' /\ (r = Ok tt -> forall i, i ∈ s -> newly_marked p p' c i).
Proof.
  intros E. apply (mapM_steps marked) in E as [H1 H2]; [|intros i q q' r' Hq; by eapply add_buffer_index_marks]. split; [done|]. intros Hr i Hi. destruct (H2 Hr i) as (p1 & p2 & Ha & Hb & Hc); [by apply elem_of_elements|].
  destruct (add_buffer_index_marks _ _ _ _ _ _ Hb) as [_ Hm]. by apply (newly_marked_within p p1 p2 p'), Hm.
Qed.

Definition config_indices (cfg : CircularBufferConfig) : gset Z := local_buffer_indices_ cfg ∪ remote_buffer_indices_ cfg.

Lemma mark_core_marks cfg c p p' r : mark_core cfg c p = (p', r) ->
  marked p p' /\ (r = Ok tt -> forall i, i ∈ config_indices cfg -> newly_marked p p' c i).
Proof.
  unfold mark_core, mbind, M_bind, config_indices. destruct (add_buffer_indices true c _ p) as [p1 r1] eqn:E1. destruct (add_buffer_indices_marks _ _ _ _ _ _ E1) as [H1 H1'].
  destruct r1 as [[]|e]; [|by intros [= <- <-]]. intros E2. destruct (add_buffer_indices_marks _ _ _ _ _ _ E2) as [H2 H2']. split; [by trans p1|]. intros Hr i [Hi|Hi]%elem_of_union.
  - destruct (H1' eq_refl i Hi) as [Ha Hb]. split; [done|by apply (mk_indices _ _ H2)].
  - destruct (H2' Hr i Hi) as [Ha Hb]. split; [|done]. intros H. by apply Ha, (mk_indices _ _ H1).
Qed.

Lemma add_allocator_marks r p p' res : add_allocator r p = (p', res) -> marked p p' /\ res = Ok tt /\ exists a, a ∈ cb_allocators p' /\ core_range a = r.
Proof.
  unfold add_allocator, modify. intros [= <- <-]. destruct (existsb (allocator_for r) (cb_allocators p)) eqn:E.
  - split; [done|]. split; [done|]. apply existsb_exists in E as (a & Ha%list_elem_of_In & Hr). exists a. unfold allocator_for in Hr. by apply bool_decide_eq_true in Hr.
  - assert (r ∉ map core_range (cb_allocators p)) as Hnew.
    { intros (a & -> & Ha)%list_elem_of_fmap. apply not_true_iff_false in E. apply E, existsb_exists. exists a. split; [by apply list_elem_of_In|]. unfold allocator_for. by apply bool_decide_eq_true. }
    split; [|split; [done|]; exists (mkCBAllocator r []); split; [set_solver|done]]. split; try done; cbn; auto.
    + intros a Ha. set_solver.
    + intros a [Ha|Ha%list_elem_of_singleton]%elem_of_app; [by left|]. subst a. by right.
    + intros Hn. rewrite map_app. apply NoDup_app. split_and!; [done| |by repeat constructor; set_solver]. intros x Hx. cbn. intros ->%list_elem_of_singleton. done.
Qed.

(** The loop over the ranges. *)
Lemma mark_ranges_marks cfg ranges p p' r :
  mapM_ (fun r => mapM_ (mark_core cfg) (cores_of r);; add_allocator r) ranges p = (p', r) ->
  marked p p' /\ (r = Ok tt ->
    (forall c i, cell_in_set c ranges -> i ∈ config_indices cfg -> newly_marked p p' c i) /\
    (forall r, r ∈ ranges -> exists a, a ∈ cb_allocators p' /\ core_range a = r)).
Proof.
  assert (forall x p p' r, (mapM_ (mark_core cfg) (cores_of x);; add_allocator x) p = (p', r) -> marked p p' /\ (r = Ok tt ->
    (forall c i, cell_in c x -> i ∈ config_indices cfg -> newly_marked p p' c i) /\ exists a, a ∈ cb_allocators p' /\ core_range a = x)) as Hone.
  { clear. intros x p p' r. unfold mbind, M_bind. destruct (mapM_ (mark_core cfg) (cores_of x) p) as [p1 r1] eqn:E1. apply (mapM_steps marked) in E1 as [H1 H1']; [|intros c q q' r' Hq; by eapply mark_core_marks].
    destruct r1 as [[]|e]; [|by intros [= <- <-]]. intros E2. destruct (add_allocator_marks _ _ _ _ E2) as (H2 & _ & Ha). split; [by trans p1|]. intros _. split; [|done].
    intros c i Hc Hi. destruct (H1' eq_refl c) as (q & q' & Hq & Eq & Hq'); [by apply elem_of_cores_of|]. destruct (mark_core_marks _ _ _ _ _ Eq) as [_ Hm]. apply (newly_marked_within p q q' p'); [done|by trans p1|by apply Hm]. }
  intros E. apply (mapM_steps marked) in E as [H1 H2]; [|intros x q q' r' Hq; by eapply Hone]. split; [done|]. intros Hr. split.
  - intros c i (x & Hx & Hc) Hi. destruct (H2 Hr x Hx) as (q & q' & Hq & Eq & Hq'). destruct (Hone _ _ _ _ Eq) as [_ Hm]. by apply (newly_marked_within p q q' p'), Hm.
  - intros x Hx. destruct (H2 Hr x Hx) as (q & q' & Hq & Eq & Hq'). destruct (Hone _ _ _ _ Eq) as [_ Hm]. destruct (proj2 (Hm eq_refl)) as (a & Ha & Hc). exists a. split; [by apply (mk_allocators _ _ Hq')|done].
Qed.

(** ** The invariant *)

Section Program.
Context (base k : Z).
Abbreviation program_ok := (program_ok base).
Abbreviation state_ok := (state_ok base k).
Abbreviation placed := (placed base k).

Lemma marked_program_ok p p' : program_ok p -> marked p p' -> program_ok p'.
Proof using.
  intros [H1 H2 H3 H4 H5 H6] [M1 M2 M3 M4 M5 M6]. split; rewrite ?M1; try done; auto.
  - intros b r Hb Hr. destruct (H2 b r Hb Hr) as (a & Ha & Hc). eauto.
  - intros a [Ha|[Ha _]]%M5; [by apply H4|]. unfold next_free. by rewrite Ha.
  - intros b c i Hb Hc Hi. apply M3. by eapply H5.
Qed.

Lemma has_place_marked p p' b a : program_ok p -> marked p p' -> b ∈ circular_buffers p -> has_place base k (cb_allocators p) b a -> has_place base k (cb_allocators p') b a.
Proof using.
  intros Hp Hm Hb (H1 & H2 & H3 & H4). split_and!; try (done || lia). intros A HA Hr. destruct (mk_new _ _ Hm A HA) as [HA'|[_ Hnew]]; [by apply H4|].
  exfalso. apply Hnew. destruct (pr_covered _ _ Hp b _ Hb Hr) as (A' & HA' & <-). apply list_elem_of_fmap. by exists A'.
Qed.

Lemma marked_state_ok p p' : program_ok p -> state_ok p -> marked p p' -> state_ok p'.
Proof using.
  unfold ProgramBuffersInv.state_ok. intros Hp Hst Hm. rewrite (mk_needed _ _ Hm), (mk_buffers _ _ Hm). destruct (local_circular_buffer_allocation_needed p).
  - intros a Ha. destruct (mk_new _ _ Hm a Ha) as [Ha'|[Ha' _]]; [by apply Hst|done].
  - intros i b Hi Hb Hl. rewrite (mk_buffers _ _ Hm) in *. destruct (Hst i b Hi Hb Hl) as (a & Hpl & Hj). exists a. split; [|done]. apply (has_place_marked p); try done. by eapply list_elem_of_lookup_2.
Qed.

Lemma invalidate_ok p p' r : program_ok p -> state_ok p -> invalidate_circular_buffer_allocation p = (p', r) ->
  program_ok p' /\ state_ok p' /\ r = Ok tt /\ circular_buffers p' = circular_buffers p /\ local_circular_buffer_allocation_needed p' = true.
Proof using.
  intros Hp Hst [= <- <-]. destruct (local_circular_buffer_allocation_needed p) eqn:En; [done|]. unfold ProgramBuffersInv.state_ok. cbn. split; [|split; [|done]].
  - destruct Hp as [H1 H2 H3 H4 H5 H6]. split; cbn; try done.
    + intros b r Hb Hr. destruct (H2 b r Hb Hr) as (a & Ha & Hc). exists (reset_available_addresses a). split; [|done]. by apply list_elem_of_fmap_2.
    + by rewrite map_map.
    + intros a (a' & -> & Ha)%list_elem_of_fmap. done.
  - intros a (a' & -> & Ha)%list_elem_of_fmap. done.
Qed.

(** The new circular buffer at the end of the list. *)
Lemma push_ok p p' b :
  program_ok p -> state_ok p' -> marked p p' -> set_wf (core_ranges_ b) -> is_u32 (cb_size b) ->
  (forall c i, cell_in_set c (core_ranges_ b) -> i ∈ cb_indices b -> newly_marked p p' c i) ->
  (forall r, r ∈ core_ranges_ b -> exists a, a ∈ cb_allocators p' /\ core_range a = r) ->
  globally_allocated b = true \/ local_circular_buffer_allocation_needed p' = true ->
  let q := set_circular_buffers (circular_buffers p' ++ [b]) p' in program_ok q /\ state_ok q.
Proof using.
  intros Hp Hst Hm Hwf Hsz Hi Hr Hg. pose proof (marked_program_ok p p' Hp Hm) as [H1 H2 H3 H4 H5 H6]. cbv zeta. split.
  - split; cbn; try done.
    + intros x [Hx|Hx%list_elem_of_singleton]%elem_of_app; [by apply H1|by subst x].
    + intros x r [Hx|Hx%list_elem_of_singleton]%elem_of_app; [by apply H2|subst x; apply Hr].
    + intros x c i [Hx|Hx%list_elem_of_singleton]%elem_of_app; [by apply H5|]. subst x. intros Hc Hin. by apply Hi.
    + assert (forall n x c i, circular_buffers p' !! n = Some x -> on_core c x -> on_core c b -> i ∈ cb_indices x -> i ∈ cb_indices b -> False) as Hnew.
      { intros n x c i Hn Hcx Hcb Hix Hib. destruct (Hi c i Hcb Hib) as [Hno _]. apply Hno, (pr_marked _ _ Hp x); [|done|done]. rewrite <- (mk_buffers _ _ Hm). by eapply list_elem_of_lookup_2. }
      intros n m x x' c i Hn Hm' Hc Hc' Hix Hix'. apply lookup_app_Some in Hn, Hm'. destruct Hn as [Hn|[Hn1 Hn]], Hm' as [Hm'|[Hm1 Hm']].
      * by eapply H6.
      * apply list_lookup_singleton_Some in Hm' as [_ <-]. exfalso. by eapply Hnew.
      * apply list_lookup_singleton_Some in Hn as [_ <-]. exfalso. by eapply Hnew.
      * apply list_lookup_singleton_Some in Hn as [Hn _], Hm' as [Hm' _]. lia.
  - unfold ProgramBuffersInv.state_ok in *. cbn. destruct (local_circular_buffer_allocation_needed p'); [done|]. destruct Hg as [Hg|]; [|done]. intros i x Hi' Hx Hl.
    cbn in Hx. apply lookup_app_Some in Hx as [Hx|[_ Hx]]; [|apply list_lookup_singleton_Some in Hx as [_ <-]; congruence].
    destruct (Hst i x ltac:(by eapply lookup_lt_Some) Hx Hl) as (a & Ha & Hj). exists a. split; [done|]. intros j y r Hji Hy. cbn in Hy. rewrite lookup_app_l in Hy by (apply lookup_lt_Some in Hx; lia). by apply (Hj j y r).
Qed.
End Program.
