(* ===== verification/ProgramBuffersTheorems.v ===== *)
(** * Circular buffers of a program: what holds of every program

    The requests a program gets, and the invariant over any sequence of them. *)

From Stdlib Require Import Lia.
From S2P Require Import Prelude CoreCoord FreeList Allocator Buffers BlockFloat Tiles CircularBuffer ProgramBuffers ProgramBuffersProps ProgramBuffersInv ProgramBuffersOps.

(** ** Requests *)

Inductive request :=
  | Add (id : Z) (core_range_set : CoreRangeSet) (config : CircularBufferConfig)
  | AddGlobal (id : Z) (core_range_set : CoreRangeSet) (config : CircularBufferConfig) (g : GlobalCircularBuffer)
  | TotalSize (id total_size : Z)
  | PageSize (id buffer_index page_size : Z)
  | DynamicAddress (id buffer : Z)
  | DynamicAddressAndTotalSize (id buffer total_size : Z)
  | Invalidate
  | Allocate.

Section Requests.
Context (debug : bool) (buffer_of : Z -> Buffer) (alloc : Allocator) (num_device_banks : Z) (base k : Z).

Definition serve (x : request) : PM unit :=
  match x with
  | Add id s c => add_circular_buffer buffer_of id s c;; mret tt
  | AddGlobal id s c g => add_circular_buffer_global debug buffer_of alloc num_device_banks id s c g;; mret tt
  | TotalSize id n => UpdateCircularBufferTotalSize debug id n
  | PageSize id i n => UpdateCircularBufferPageSize id i n
  | DynamicAddress id b => UpdateDynamicCircularBufferAddress debug buffer_of alloc num_device_banks id b
  | DynamicAddressAndTotalSize id b n => UpdateDynamicCircularBufferAddressAndTotalSize debug buffer_of alloc num_device_banks id b n
  | Invalidate => invalidate_circular_buffer_allocation
  | Allocate => allocate_circular_buffers base (2 ^ k)
  end.

(** Sets of ranges as their constructor lets them pass, sizes of 32 bits. *)
Definition valid_request (x : request) : Prop :=
  match x with
  | Add _ s c | AddGlobal _ s c _ => set_wf s /\ is_u32 (total_size_ c)
  | TotalSize _ n | DynamicAddressAndTotalSize _ _ n => is_u32 n
  | _ => True
  end.

(** Whatever a client asks for; a request may fail, and the client go on, except that
    a failure of the placing ends the program. *)
Inductive reached : ProgramBuffers -> Prop :=
  | reached_new : reached empty_program
  | reached_request p x p' r : reached p -> valid_request x -> serve x p = (p', r) -> (x = Allocate -> r = Ok tt) -> reached p'.

(** ** Changes of a configuration *)

Definition config_kept (c c' : CircularBufferConfig) : Prop := is_u32 (total_size_ c) ->
  local_buffer_indices_ c' = local_buffer_indices_ c /\ remote_buffer_indices_ c' = remote_buffer_indices_ c /\
  (is_Some (globally_allocated_address_of_config c) -> is_Some (globally_allocated_address_of_config c')) /\ is_u32 (total_size_ c').

#[local] Instance config_kept_pre : PreOrder config_kept.
Proof. split; [done|]. intros a b c A B Ha. destruct (A Ha) as (A1 & A2 & A3 & A4). destruct (B A4) as (B1 & B2 & B3 & B4). split_and!; [congruence|congruence|auto|done]. Qed.

Definition keeps {A} (m : CM A) : Prop := forall c, config_kept c (m c).1.

Lemma keeps_bind {A B} (m : CM A) (f : A -> CM B) : keeps m -> (forall x, keeps (f x)) -> keeps (m ≫= f).
Proof using. intros Hm Hf c. unfold mbind, M_bind. specialize (Hm c). destruct (m c) as [c1 [x|e]]; [|done]. trans c1; [done|apply Hf]. Qed.
Lemma keeps_lift {A} (x : res A) : keeps (lift x). Proof using. by intros c. Qed.
Lemma keeps_require f b : keeps (require f b). Proof using. by intros c. Qed.
Lemma keeps_get : keeps get. Proof using. by intros c. Qed.
Lemma keeps_modify f : (forall c, config_kept c (f c)) -> keeps (modify f). Proof using. intros H c. apply H. Qed.
Lemma keeps_when b (m : CM unit) : keeps m -> keeps (when b m). Proof using. destruct b; [done|]. by intros _ c. Qed.

Ltac keeps := repeat first
  [ apply keeps_bind; [|intros ?] | apply keeps_lift | apply keeps_require | apply keeps_get | apply keeps_when | (apply keeps_modify; intros ? ?; split_and!; cbn; eauto; fail) ].

Lemma set_page_size_keeps i n : keeps (CircularBuffer.set_page_size i n).
Proof using. unfold CircularBuffer.set_page_size. keeps. Qed.
Lemma set_total_size_keeps n : is_u32 n -> keeps (set_total_size debug n).
Proof using. intros Hn. unfold set_total_size, check_size. keeps. Qed.
Lemma set_size_keeps id n : is_u32 n -> keeps (set_globally_allocated_address_and_total_size debug buffer_of alloc num_device_banks id n).
Proof using. intros Hn. unfold set_globally_allocated_address_and_total_size, check_size. keeps. Qed.
Lemma set_address_keeps id : keeps (set_globally_allocated_address debug buffer_of alloc num_device_banks id).
Proof using. intros c Hc. by apply (set_size_keeps id (total_size_ c)). Qed.

(** ** Changes of a circular buffer *)

(** Its place stays, or it no longer has one of its own. *)
Definition place_kept (b b' : CircularBuffer) : Prop :=
  globally_allocated b' = true \/ globally_allocated b' = globally_allocated b /\ locally_allocated_address_ b' = locally_allocated_address_ b /\ cb_size b' = cb_size b.

Lemma placed_replace p n b b' m :
  placed base k m p -> circular_buffers p !! n = Some b -> core_ranges_ b' = core_ranges_ b -> place_kept b b' ->
  placed base k m (set_circular_buffers (<[n := b']> (circular_buffers p)) p).
Proof using.
  intros H Hn Hr Hk.
  assert (forall i x, <[n := b']> (circular_buffers p) !! i = Some x -> globally_allocated x = false ->
    exists y, circular_buffers p !! i = Some y /\ globally_allocated y = false /\ core_ranges_ x = core_ranges_ y /\ locally_allocated_address_ x = locally_allocated_address_ y /\ cb_size x = cb_size y) as Hlk.
  { intros i x Hx Hl. destruct (replaced_lookup _ _ _ _ _ _ Hn Hx) as (y & Hy & [(-> & -> & ->)|(_ & ->)]); [exists b|by exists y].
    destruct Hk as [Hk|(H1 & H2 & H3)]; [congruence|]. split_and!; try done. congruence. }
  intros i x Hi Hx Hl. destruct (Hlk i x Hx Hl) as (y & Hy & Hly & E1 & E2 & E3). destruct (H i y Hi Hy Hly) as (a & (Ha1 & Ha2 & Ha3 & Ha4) & Hj). exists a. split.
  - unfold has_place. rewrite E1, E2, E3. done.
  - intros j z r Hji Hz Hlz Hrx Hrz. destruct (Hlk j z Hz Hlz) as (z' & Hz' & Hlz' & F1 & F2 & F3). rewrite E1 in Hrx. rewrite F1 in Hrz. rewrite F2, F3. by apply (Hj j z' r).
Qed.

Abbreviation good p := (program_ok base p /\ state_ok base k p).

(** A change while nothing is placed, or one that leaves the place. *)
Lemma replace_ok p n b b' :
  good p -> circular_buffers p !! n = Some b -> core_ranges_ b' = core_ranges_ b -> config_kept (config_cb b) (config_cb b') ->
  local_circular_buffer_allocation_needed p = true \/ place_kept b b' -> good (set_circular_buffers (<[n := b']> (circular_buffers p)) p).
Proof using.
  intros [Hp Hst] Hn Hr Hc Hk. destruct (pr_valid _ _ Hp b ltac:(by eapply list_elem_of_lookup_2)) as [_ Hsz]. destruct (Hc Hsz) as (H1 & H2 & _ & H4). split.
  - apply (program_ok_replace base p n b b' Hp Hn). split; [done|]. split; [|done]. unfold cb_indices. by rewrite H1, H2.
  - unfold state_ok in *. cbn. destruct (local_circular_buffer_allocation_needed p); [done|]. destruct Hk as [|Hk]; [done|]. rewrite length_insert. by apply placed_replace with b.
Qed.

Lemma get_circular_buffer_ok id p p' r : get_circular_buffer id p = (p', r) -> p' = p /\ forall n b, r = Ok (n, b) -> circular_buffers p !! n = Some b.
Proof using. unfold get_circular_buffer, get, lift, mbind, M_bind. intros [= <- <-]. split; [done|]. intros n b H. destruct (list_find _ _) as [[n' b']|] eqn:E; [|done]. injection H as -> ->. by apply list_find_Some in E as (? & _). Qed.
(** ** Requests keep the invariant *)

Lemma add_ok s b p p' r : good p -> set_wf s -> core_ranges_ b = s -> is_u32 (cb_size b) -> add_circular_buffer_ buffer_of s b p = (p', r) -> good p'.
Proof using.
  intros [Hp Hst] Hs Hb Hsz. unfold add_circular_buffer_, mbind at 1, M_bind at 1.
  assert (forall p1 b1 p' r, good p1 -> core_ranges_ b1 = s -> is_u32 (cb_size b1) -> globally_allocated b1 = true \/ local_circular_buffer_allocation_needed p1 = true ->
    (mapM_ (fun r => mapM_ (mark_core (config_cb b1)) (cores_of r);; add_allocator r) s;; modify (fun p => set_circular_buffers (circular_buffers p ++ [b1]) p);; mret (cb_id b1)) p1 = (p', r) -> good p') as Hmarks.
  { clear p p' r Hp Hst. intros p1 b1 p' r [Hp Hst] Hb1 Hsz1 Hg. unfold mbind at 1, M_bind at 1. destruct (mapM_ _ s p1) as [p2 r2] eqn:E. destruct (mark_ranges_marks _ _ _ _ _ E) as [Hm Hok].
    pose proof (marked_program_ok base _ _ Hp Hm) as Hp2. pose proof (marked_state_ok base k _ _ Hp Hst Hm) as Hst2. destruct r2 as [[]|e]; [|by intros [= <- <-]]. intros [= <- <-]. destruct (Hok eq_refl) as [Hi Ha].
    apply (push_ok base k p1 p2 b1); [done|done|done|by rewrite Hb1|done| |by rewrite Hb1|by rewrite (mk_needed _ _ Hm)]. rewrite Hb1. intros c i Hc. by apply Hi. }
  destruct (globally_allocated b) eqn:Hg.
  - unfold lift, assign_global_address. destruct (shadow_global_buffer (config_cb b)) as [id|]; cbn [opt_res mbind res_bind mret res_ret]; [|by intros [= <- <-]].
    intros E. eapply (Hmarks p (set_global_address (buffer_address buffer_of id) b)); [done|done|done|by left|exact E].
  - unfold mbind at 1, M_bind at 1. destruct (invalidate_circular_buffer_allocation p) as [p1 r1] eqn:E1. destruct (invalidate_ok base k _ _ _ Hp Hst E1) as (Hp1 & Hst1 & -> & _ & Hn).
    intros E. eapply (Hmarks p1 b); [done|done|done|by right|exact E].
Qed.

Lemma on_config_ok i b m p p' r :
  good p -> circular_buffers p !! i = Some b -> keeps m -> local_circular_buffer_allocation_needed p = true \/ place_kept b (set_cb_config (m (config_cb b)).1 b) ->
  on_config i b m p = (p', r) -> good p' /\ forall b', r = Ok b' -> circular_buffers p' !! i = Some b'.
Proof using.
  intros Hgd Hi Hm Hpl. specialize (Hm (config_cb b)). unfold on_config. destruct (m (config_cb b)) as [c r0]. cbn in Hm, Hpl. set (b1 := set_cb_config c b) in *.
  pose proof (replace_ok p i b b1 Hgd Hi eq_refl Hm Hpl) as Hgd'. unfold replace_circular_buffer, lift, modify, mret, M_ret, mbind, M_bind. destruct r0 as [[]|e]; intros [= <- <-]; (split; [done|]); [|done].
  intros b' [= <-]. cbn. apply list_lookup_insert_eq. by eapply lookup_lt_Some.
Qed.

Lemma assign_ok i b p p' r :
  good p -> circular_buffers p !! i = Some b -> (b ← lift (assign_global_address buffer_of b); replace_circular_buffer i b) p = (p', r) -> good p'.
Proof using.
  intros Hgd Hi. unfold mbind at 1, M_bind at 1, lift, assign_global_address. destruct (shadow_global_buffer (config_cb b)) as [id|]; cbn; [|by intros [= <- <-]]. intros [= <- <-].
  apply (replace_ok p i b); try done. right. by right.
Qed.

(** An operation on a buffer's configuration makes it dynamic, or fails before. *)
Lemma dynamic_or_same id n c :
  let c' := (set_globally_allocated_address_and_total_size debug buffer_of alloc num_device_banks id n c).1 in is_Some (globally_allocated_address_of_config c') \/ c' = c.
Proof using.
  cbv zeta. unfold set_globally_allocated_address_and_total_size, require at 1, lift, mbind at 1 2 3, M_bind at 1 2 3. destruct (is_l1 (buffer_of id)); cbn [check]; [|by right].
  destruct (aligned_size_per_bank alloc num_device_banks (buffer_of id)) as [x|]; [|by right]. destruct (aligned_size alloc (buffer_of id)) as [y|]; [|by right]. left.
  unfold check_size, when, get, require, modify, mret, M_ret, mbind, M_bind. cbn. repeat (case_match; cbn in *; simplify_eq; try done).
Qed.

Lemma dynamic_place b m : (forall c, let c' := (m c : CircularBufferConfig * res unit).1 in is_Some (globally_allocated_address_of_config c') \/ c' = c) -> place_kept b (set_cb_config (m (config_cb b)).1 b).
Proof using.
  intros H. unfold place_kept, globally_allocated, cb_size. cbn. destruct (H (config_cb b)) as [H1| ->]; [left; by apply bool_decide_eq_true|by right].
Qed.

Lemma then_tt {A} (m : PM A) p p' r : (m ≫= fun _ => mret tt) p = (p', r) -> exists r', m p = (p', r').
Proof using. unfold mbind, M_bind. destruct (m p) as [q [x|e]]; intros [= <- <-]; eauto. Qed.

Lemma bind_get {A} (f : ProgramBuffers -> PM A) p : (get ≫= f) p = f p p.
Proof using. done. Qed.

(** A program and a value computed without it: what follows, or a failure at once. *)
Lemma after_check {A} f c (m : PM A) (Q : ProgramBuffers -> Prop) p p' r : Q p -> (require f c;; m) p = (p', r) -> (m p = (p', r) -> Q p') -> Q p'.
Proof using. intros Hp. unfold require, mbind, M_bind, check. destruct c; [auto|]. by intros [= <- <-]. Qed.
Lemma after_lift {A B} (x : res A) (m : A -> PM B) (Q : ProgramBuffers -> Prop) p p' r : Q p -> (v ← lift x; m v) p = (p', r) -> (forall v, x = Ok v -> m v p = (p', r) -> Q p') -> Q p'.
Proof using. intros Hp. unfold lift, mbind, M_bind. destruct x; [eauto|]. by intros [= <- <-]. Qed.

Lemma new_buffer_shape id s c b : CircularBuffer_new id s c = Ok b -> core_ranges_ b = s /\ cb_size b = total_size_ c.
Proof using. unfold CircularBuffer_new. intros (u & _ & (v & _ & H)%bind_ok)%bind_ok. by injection H as <-. Qed.

Lemma new_global_shape id s c g b : is_u32 (total_size_ c) -> CircularBuffer_new_global debug buffer_of alloc num_device_banks id s c g = Ok b -> core_ranges_ b = s /\ is_u32 (cb_size b).
Proof using.
  intros Hc. unfold CircularBuffer_new_global. intros (u & _ & (v & _ & (w & _ & H)%bind_ok)%bind_ok)%bind_ok. unfold set_global_circular_buffer in H. apply bind_ok in H as (y & _ & H). cbn [config_cb core_ranges_] in H.
  pose proof (set_address_keeps (cb_buffer g) c Hc) as (_ & _ & _ & Hs). destruct (set_globally_allocated_address _ _ _ _ _ c) as [c' r]. apply bind_ok in H as (z & _ & H). by injection H as <-.
Qed.

Lemma found_ok {A} id (f : nat -> CircularBuffer -> PM A) (Q : ProgramBuffers -> Prop) p p' r :
  Q p -> ('(i, b) ← get_circular_buffer id; f i b) p = (p', r) -> (forall i b, circular_buffers p !! i = Some b -> f i b p = (p', r) -> Q p') -> Q p'.
Proof using.
  intros Hp. unfold mbind, M_bind. destruct (get_circular_buffer id p) as [q [[i b]|e]] eqn:E; destruct (get_circular_buffer_ok _ _ _ _ E) as [-> Hi]; [|by intros [= <- <-]]. intros H Hk. eapply Hk; [by apply Hi|done].
Qed.

Lemma page_size_place b i n : place_kept b (set_cb_config (CircularBuffer.set_page_size i n (config_cb b)).1 b).
Proof using.
  right. unfold CircularBuffer.set_page_size, get, require, modify, mbind, M_bind, globally_allocated, cb_size. cbn. repeat (case_match; cbn in *; simplify_eq; try done).
Qed.

Lemma dynamic_ok i b m p p' r :
  good p -> circular_buffers p !! i = Some b -> keeps m -> (forall c, let c' := (m c : CircularBufferConfig * res unit).1 in is_Some (globally_allocated_address_of_config c') \/ c' = c) ->
  (b ← on_config i b m; b ← lift (assign_global_address buffer_of b); replace_circular_buffer i b) p = (p', r) -> good p'.
Proof using.
  intros Hgd Hi Hm Hd. unfold mbind at 1, M_bind at 1. destruct (on_config i b m p) as [q r1] eqn:E1. destruct (on_config_ok i b m p q r1 Hgd Hi Hm (or_intror (dynamic_place b m Hd)) E1) as [Hq Hb].
  destruct r1 as [b'|e]; [|by intros [= <- <-]]. apply assign_ok; [done|by apply Hb].
Qed.

Lemma request_ok x p p' r : good p -> valid_request x -> serve x p = (p', r) -> (x = Allocate -> 0 <= k <= 31 /\ r = Ok tt) -> good p'.
Proof using.
  intros Hgd Hv. destruct x as [id s c|id s c g|id n|id i n|id bf|id bf n| |]; cbn [serve]; intros E Hal.
  - destruct Hv as [Hs Hc]. apply then_tt in E as (r' & E). unfold add_circular_buffer in E. rewrite bind_get in E. apply (after_check _ _ _ (fun q => good q) _ _ _ Hgd E). intros E1. apply (after_lift _ _ (fun q => good q) _ _ _ Hgd E1). intros b Hb.
    destruct (new_buffer_shape _ _ _ _ Hb) as [Hr Hz]. apply (add_ok s b); try done. by rewrite Hz.
  - destruct Hv as [Hs Hc]. apply then_tt in E as (r' & E). unfold add_circular_buffer_global in E. rewrite bind_get in E. apply (after_check _ _ _ (fun q => good q) _ _ _ Hgd E). intros E1. apply (after_lift _ _ (fun q => good q) _ _ _ Hgd E1). intros b Hb.
    destruct (new_global_shape _ _ _ _ _ Hc Hb) as [Hr Hz]. by apply (add_ok s b).
  - unfold UpdateCircularBufferTotalSize in E. apply (found_ok _ _ (fun q => good q) _ _ _ Hgd E). intros i b Hi E1. destruct (globally_allocated b) eqn:Hg; cbn [negb when] in E1.
    + apply then_tt in E1 as (r' & E1). eapply on_config_ok; [exact Hgd|exact Hi|by apply set_total_size_keeps| |exact E1]. right. left. unfold globally_allocated in *. cbn. apply bool_decide_eq_true in Hg. apply bool_decide_eq_true.
      destruct (pr_valid _ _ (proj1 Hgd) b) as [_ Hz]; [by eapply list_elem_of_lookup_2|]. by apply (set_total_size_keeps n Hv (config_cb b) Hz).
    + unfold mbind at 1, M_bind at 1 in E1. destruct (invalidate_circular_buffer_allocation p) as [q r1] eqn:Eq. destruct Hgd as [Hp Hst]. destruct (invalidate_ok base k _ _ _ Hp Hst Eq) as (Hq & Hsq & -> & Hcb & Hn).
      apply then_tt in E1 as (r' & E1). eapply on_config_ok; [exact (conj Hq Hsq)|by rewrite Hcb|by apply set_total_size_keeps|by left|exact E1].
  - unfold UpdateCircularBufferPageSize in E. apply (found_ok _ _ (fun q => good q) _ _ _ Hgd E). intros j b Hj E1. apply then_tt in E1 as (r' & E1).
    eapply on_config_ok; [exact Hgd|exact Hj|by apply set_page_size_keeps|right; apply page_size_place|exact E1].
  - unfold UpdateDynamicCircularBufferAddress in E. apply (found_ok _ _ (fun q => good q) _ _ _ Hgd E). intros j b Hj E1. apply (after_check _ _ _ (fun q => good q) _ _ _ Hgd E1). exact (dynamic_ok j b _ p p' r Hgd Hj (set_address_keeps bf) (fun c => dynamic_or_same bf (total_size_ c) c)).
  - unfold UpdateDynamicCircularBufferAddressAndTotalSize in E. apply (found_ok _ _ (fun q => good q) _ _ _ Hgd E). intros j b Hj. exact (dynamic_ok j b _ p p' r Hgd Hj (set_size_keeps bf n Hv) (dynamic_or_same bf n)).
  - destruct Hgd as [Hp Hst]. destruct (invalidate_ok base k _ _ _ Hp Hst E) as (? & ? & _). done.
  - destruct (Hal eq_refl) as [Hk ->]. destruct Hgd as [Hp Hst]. destruct (placing_ok base k Hk p p' Hp Hst E) as (? & ? & _). done.
Qed.

Lemma reached_good p : 0 <= k <= 31 -> reached p -> good p.
Proof using.
  intros Hk. induction 1 as [|p x p' r _ IH Hv E Ha]; [|by eapply request_ok; eauto].
  split; [|by intros i b Hi]. split; cbn; [by intros ? ?%not_elem_of_nil|by intros ? ? ?%not_elem_of_nil|constructor|by intros ? ?%not_elem_of_nil|by intros ? ? ? ?%not_elem_of_nil|done].
Qed.
End Requests.
