(* ===== verification/ProgramBuffersLive.v ===== *)
(** * Circular buffers of a program: placing does not fail

    As long as the addresses have 32 bits, no circular buffer finds its place taken. *)

From Stdlib Require Import Lia.
From S2P Require Import Prelude CoreCoord FreeList Allocator Buffers BlockFloat Tiles CircularBuffer ProgramBuffers ProgramBuffersProps ProgramBuffersInv.

Lemma align_up x k : 0 <= k <= 31 -> 0 <= x -> x + 2 ^ k <= 2 ^ 32 -> x <= Buffers.align x (2 ^ k) < x + 2 ^ k.
Proof.
  intros Hk Hx Hb. assert (0 < 2 ^ k <= 2 ^ 31) by (split; [apply Z.pow_pos_nonneg; lia|apply Z.pow_le_mono_r; lia]). destruct (Z.eq_dec x 0) as [->|Hx0].
  - unfold Buffers.align. rewrite (u32_small (2 ^ k - 1)) by (pow2; lia). replace (u32 (0 - 1)) with (Z.ones 32) by reflexivity. replace (2 ^ k - 1) with (Z.ones k) by (rewrite Z.ones_equiv; lia).
    assert (Z.lor (Z.ones 32) (Z.ones k) = Z.ones 32) as ->.
    { apply Z.bits_inj'. intros n Hn. rewrite Z.lor_spec. destruct (Z.lt_ge_cases n 32); [by rewrite Z.ones_spec_low by lia|]. by rewrite !Z.ones_spec_high by lia. }
    change (u32 (Z.ones 32 + 1)) with 0. lia.
  - destruct (align_mod x k Hk ltac:(lia)) as [Hm Hr]. revert Hm Hr. unfold Buffers.align. rewrite (u32_small (2 ^ k - 1)), (u32_small (x - 1)) by (pow2; lia). replace (2 ^ k - 1) with (Z.ones k) by (rewrite Z.ones_equiv; lia).
    assert (Z.lor (x - 1) (Z.ones k) = (x - 1) / 2 ^ k * 2 ^ k + Z.ones k) as ->.
    { rewrite <- lor_add by (rewrite ?Z.ones_equiv; lia). apply Z.bits_inj'. intros n Hn. rewrite !Z.lor_spec. destruct (Z.lt_ge_cases n k).
      - by rewrite Z.ones_spec_low, !orb_true_r by lia.
      - rewrite Z.ones_spec_high, !orb_false_r by lia. rewrite Z.mul_pow2_bits by lia. rewrite <- Z.shiftr_div_pow2, Z.shiftr_spec by lia. f_equal. lia. }
    intros _ _. rewrite Z.ones_equiv. pose proof (Z.div_mod (x - 1) (2 ^ k) ltac:(lia)). pose proof (Z.mod_pos_bound (x - 1) (2 ^ k) ltac:(lia)).
    assert (x <= (x - 1) / 2 ^ k * 2 ^ k + Z.pred (2 ^ k) + 1 < x + 2 ^ k) as Hab by lia. rewrite u32_small; [done|]. destruct (Z.eq_dec ((x - 1) / 2 ^ k * 2 ^ k + Z.pred (2 ^ k) + 1) (2 ^ 32)) as [E|]; [|lia]. lia.
Qed.

Section Live.
Context (base k : Z).
Hypotheses (Hk : 0 <= k <= 31) (Hbase : 0 <= base).

(** Marks below [address] succeed, and free space moves to the end of the mark at most. *)
Lemma mark_allocators_succeeds r address size als :
  base <= address -> 0 <= size -> address + size < 2 ^ 64 -> (forall A, A ∈ als -> core_range A = r -> next_free base A <= address) ->
  exists als', mark_allocators r address size base als = (als', Ok tt) /\
    forall i A', als' !! i = Some A' -> exists A, als !! i = Some A /\ core_range A' = core_range A /\
      (CoreRange_intersects (core_range A) r = false -> A' = A) /\ next_free base A' <= Z.max (next_free base A) (address + size).
Proof using Hbase.
  intros Ha Hs Hb. induction als as [|A als IH]; intros Hfree; cbn [mark_allocators]; [exists []; split; [done|]; by intros i A'; rewrite lookup_nil|].
  destruct IH as (als' & E & H); [intros; apply Hfree; [by right|done]|]. rewrite E.
  assert (forall A1, core_range A1 = core_range A -> (CoreRange_intersects (core_range A) r = false -> A1 = A) -> next_free base A1 <= Z.max (next_free base A) (address + size) ->
    forall i A', (A1 :: als') !! i = Some A' -> exists A0, (A :: als) !! i = Some A0 /\ core_range A' = core_range A0 /\ (CoreRange_intersects (core_range A0) r = false -> A' = A0) /\ next_free base A' <= Z.max (next_free base A0) (address + size)) as Hcons.
  { intros A1 H1 H2 H3 [|i] A'; cbn; [intros [= <-]; exists A; done|apply H]. }
  destruct (CoreRange_intersects (core_range A) r && _) eqn:Em.
  - assert (next_free base A <= address) as Hle.
    { apply andb_true_iff in Em as [_ Em]. destruct (decide (core_range A = r)) as [Hr|Hr]; [apply Hfree; [by left|done]|]. unfold allocator_for in Em. rewrite bool_decide_false in Em by done. cbn in Em.
      apply negb_true_iff, Z.ltb_ge in Em. unfold next_free. unfold get_cb_region_end in Em. destruct (last (l1_regions A)) as [[s e]|]; lia. }
    pose proof (mark_address_cases base address size A ltac:(lia) Hs Hb) as Hm. rewrite (proj2 (Z.leb_le _ _) Hle) in Hm. destruct Hm as (A1 & -> & (Hc & _) & Hn & _). exists (A1 :: als'). split; [done|].
    apply Hcons; [done| |lia]. intros Hi. by rewrite Hi in Em.
  - exists (A :: als'). split; [done|]. apply Hcons; [done|done|lia].
Qed.

Lemma mark_ranges_succeeds ranges address size als :
  base <= address -> 0 <= size -> address + size < 2 ^ 64 -> set_wf ranges -> (forall A, A ∈ als -> core_range A ∈ ranges -> next_free base A <= address) ->
  exists als', mapM_ (fun r => mark_allocators r address size base) ranges als = (als', Ok tt) /\
    forall A', A' ∈ als' -> exists A, A ∈ als /\ next_free base A' <= Z.max (next_free base A) (address + size).
Proof using Hbase.
  intros Ha Hs Hb. revert als. induction ranges as [|r ranges IH]; intros als [Hwf Hd] Hfree; cbn [mapM_].
  - exists als. split; [done|]. intros A' HA'. exists A'. split; [done|lia].
  - destruct (mark_allocators_succeeds r address size als Ha Hs Hb) as (als1 & E1 & H1); [intros A HA HAr; apply Hfree; [done|rewrite HAr; by left]|]. apply Forall_cons in Hwf as [_ Hwf]. destruct Hd as [Hd1 Hd2].
    destruct (IH als1) as (als2 & E2 & H2); [by split| |].
    + intros A1 (i & Hi)%list_elem_of_lookup Hr. destruct (H1 i A1 Hi) as (A & HA & Hc & Hsame & _). rewrite Hc in Hr. rewrite Hsame.
      * apply Hfree; [by apply list_elem_of_lookup_2 in HA|by right].
      * specialize (Hd1 _ Hr). unfold CoreRange_intersects in *. revert Hd1. clear. intros H. rewrite <- H. repeat match goal with |- context [?x <? ?y] => destruct (Z.ltb_spec x y) end; try done; lia.
    + exists als2. split; [unfold mbind, M_bind; by rewrite E1|]. intros A2 HA2. destruct (H2 A2 HA2) as (A1 & (i & Hi)%list_elem_of_lookup & Hle). destruct (H1 i A1 Hi) as (A & HA & _ & _ & Hle').
      exists A. split; [by apply list_elem_of_lookup_2 in HA|lia].
Qed.

(** The end of what the allocators of some ranges have marked. *)
Lemma region_end_bound als ranges x m : x <= m -> base <= m -> (forall A, A ∈ als -> next_free base A <= m) ->
  x <= fold_left (region_end_of als) ranges x <= m.
Proof using Hbase.
  intros Hx Hm Hals. revert x Hx. induction ranges as [|r ranges IH]; intros x Hx; cbn [fold_left]; [lia|].
  assert (x <= region_end_of als x r <= m) as Hr; [|specialize (IH _ (proj2 Hr)); lia].
  unfold region_end_of. destruct (list_find _ als) as [[i A]|] eqn:E; [|lia]. apply list_find_Some in E as (E & _). specialize (Hals A (list_elem_of_lookup_2 _ _ _ E)).
  unfold get_cb_region_end, next_free in *. destruct (last (l1_regions A)) as [[s e]|]; lia.
Qed.

Lemma region_end_covers als ranges x m A : base <= x -> x <= m -> (forall A, A ∈ als -> next_free base A <= m) -> NoDup (map core_range als) ->
  A ∈ als -> core_range A ∈ ranges -> next_free base A <= fold_left (region_end_of als) ranges x.
Proof using Hbase.
  intros Hb Hx Hals Hnd HA. revert x Hb Hx. induction ranges as [|r ranges IH]; intros x Hb Hx Hr; cbn [fold_left]; [by apply not_elem_of_nil in Hr|].
  pose proof (region_end_bound als [r] x m Hx ltac:(lia) Hals) as H1. cbn in H1. apply elem_of_cons in Hr as [Hr|Hr]; [|by apply IH; [lia|lia|]].
  pose proof (region_end_bound als ranges (region_end_of als x r) m (proj2 H1) ltac:(lia) Hals) as H2. etrans; [|exact (proj1 H2)]. clear H2. unfold region_end_of.
  destruct (list_find _ als) as [[i A']|] eqn:E.
  - apply list_find_Some in E as (E & Hr' & _). apply list_elem_of_lookup in HA as (j & HA).
    assert (i = j) as <- by (apply (NoDup_lookup (map core_range als) i j r Hnd); [by rewrite list_lookup_fmap, E; cbn; rewrite Hr'|by rewrite list_lookup_fmap, HA; cbn; rewrite Hr]). rewrite E in HA. injection HA as ->.
    unfold get_cb_region_end, next_free. destruct (last (l1_regions A)) as [[s e]|]; lia.
  - apply list_find_None in E. rewrite Forall_forall in E. by destruct (E A HA).
Qed.

Lemma place_succeeds b als m :
  set_wf (core_ranges_ b) -> is_u32 (cb_size b) -> NoDup (map core_range als) -> base <= m -> (forall A, A ∈ als -> next_free base A <= m) ->
  m + cb_size b + 2 ^ k <= 2 ^ 32 ->
  exists als' a, place base (2 ^ k) b als = (als', Ok a) /\ forall A, A ∈ als' -> next_free base A <= m + cb_size b + 2 ^ k.
Proof using Hk Hbase.
  intros Hwf Hsz Hnd Hbm Hals Hm. assert (0 < 2 ^ k < 2 ^ 32) by (split; [apply Z.pow_pos_nonneg; lia|apply Z.pow_lt_mono_r; lia]). unfold is_u32 in *.
  pose proof (region_end_bound als (core_ranges_ b) base m ltac:(lia) Hbm Hals) as Hx. set (x := fold_left (region_end_of als) (core_ranges_ b) base) in *.
  pose proof (align_up x k Hk ltac:(lia) ltac:(lia)) as Ha. set (a := Buffers.align x (2 ^ k)) in *.
  destruct (mark_ranges_succeeds (core_ranges_ b) a (cb_size b) als) as (als' & E & H'); [lia|lia|change (2 ^ 64) with (2 ^ 32 * 2 ^ 32); lia|done| |].
  - intros A HA Hr. pose proof (region_end_covers als (core_ranges_ b) base m A ltac:(lia) ltac:(lia) Hals Hnd HA Hr) as Hc. fold x in Hc. lia.
  - exists als', a. split.
    + unfold place, get, mbind, M_bind, mret, M_ret. cbv zeta. rewrite (u32_small (2 ^ k)) by lia. fold x. rewrite (u32_small x) by lia. fold a. by rewrite E.
    + intros A' HA'. destruct (H' A' HA') as (A & HA & Hle). specialize (Hals A HA). lia.
Qed.

(** What the circular buffers take together at most. *)
Definition room (l : list CircularBuffer) : Z := foldr (fun b n => cb_size b + 2 ^ k + n) 0 l.

Lemma room_nonneg l : (forall b, b ∈ l -> is_u32 (cb_size b)) -> 0 <= room l.
Proof using Hk.
  assert (0 < 2 ^ k) by (apply Z.pow_pos_nonneg; lia). induction l as [|b l IH]; intros Hl; [cbn; lia|]. change (0 <= cb_size b + 2 ^ k + room l). pose proof (Hl b ltac:(by left)) as Hb. unfold is_u32 in Hb.
  specialize (IH ltac:(intros; apply Hl; by right)). lia.
Qed.

(** The loop over the circular buffers, in front of which all is marked up to [m]. *)
Lemma turns_succeed n l p m :
  program_ok base p -> placed base k n p -> drop n (circular_buffers p) = l ->
  base <= m -> (forall A, A ∈ cb_allocators p -> next_free base A <= m) -> m + room l <= 2 ^ 32 ->
  exists p', mapM_ (allocate_circular_buffer base (2 ^ k)) (seq n (length l)) p = (p', Ok tt).
Proof using Hk Hbase.
  revert n p m. induction l as [|b l IH]; intros n p m Hp Hpl Hd Hbm Hals Hm; cbn [seq mapM_ length]; [by exists p|].
  assert (circular_buffers p !! n = Some b) as Hn by (rewrite <- (Nat.add_0_r n), <- lookup_drop, Hd; done).
  assert (drop (S n) (circular_buffers p) = l) as Hd' by (rewrite <- Nat.add_1_r, <- drop_drop, Hd; done).
  destruct (pr_valid base p Hp b (list_elem_of_lookup_2 _ _ _ Hn)) as [Hwf Hsz]. change (room (b :: l)) with (cb_size b + 2 ^ k + room l) in Hm.
  assert (0 <= room l) as Hroom by (apply room_nonneg; intros x Hx; apply (pr_valid base p Hp); rewrite <- (take_drop (S n) (circular_buffers p)), Hd'; apply elem_of_app; by right).
  assert (0 < 2 ^ k) by (apply Z.pow_pos_nonneg; lia). unfold mbind, M_bind. destruct (globally_allocated b) eqn:Hg.
  - assert (allocate_circular_buffer base (2 ^ k) n p = (p, Ok tt)) as -> by (unfold allocate_circular_buffer, get, lift, mbind, M_bind; rewrite Hn; cbn; by rewrite Hg).
    apply (IH (S n) p m); try done; [by eapply placed_skip|unfold is_u32 in Hsz; lia].
  - destruct (place_succeeds b (cb_allocators p) m Hwf Hsz (pr_unique base p Hp) Hbm Hals) as (als' & a & Epl & Hals'); [lia|].
    assert (allocate_circular_buffer base (2 ^ k) n p = (set_circular_buffers (<[n := set_locally_allocated_address a b]> (circular_buffers p)) (set_cb_allocators als' p), Ok tt)) as E.
    { unfold allocate_circular_buffer, get, lift, mbind, M_bind. rewrite Hn. cbn. rewrite Hg. cbn. unfold M_bind, zoom. by rewrite Epl. }
    destruct (turn_ok base k Hk n p _ b Hp Hpl Hn Hg E) as (Hp' & Hpl' & _). rewrite E. unfold is_u32 in Hsz.
    apply (IH (S n) _ (m + cb_size b + 2 ^ k) Hp' Hpl'); [|lia|exact Hals'|lia]. cbn. by rewrite drop_insert_lt by lia.
Qed.

Lemma allocate_succeeds p : program_ok base p -> state_ok base k p -> base + room (circular_buffers p) <= 2 ^ 32 ->
  exists p', allocate_circular_buffers base (2 ^ k) p = (p', Ok tt).
Proof using Hk Hbase.
  intros Hp Hst Hm. unfold allocate_circular_buffers, get, when, mbind, M_bind. unfold state_ok in Hst. destruct (local_circular_buffer_allocation_needed p); [|by exists p].
  destruct (turns_succeed 0 (circular_buffers p) p base Hp) as (p' & E); [intros i b Hi; lia|done|done| |done|].
  - intros A HA. unfold next_free. by rewrite (Hst A HA).
  - exists (set_needed false p'). by rewrite E.
Qed.
End Live.
