(* ===== verification/ProgramBuffersSafe.v ===== *)
(** * Circular buffers of a program: the properties

    Where circular buffers on common cores lie, that placing them succeeds, and a set of
    ranges on which two of them overlap. *)

From Stdlib Require Import Lia.
From S2P Require Import Prelude CoreCoord FreeList Allocator AllocatorProps Buffers BlockFloat Tiles CircularBuffer ProgramBuffers ProgramBuffersProps ProgramBuffersInv ProgramBuffersOps ProgramBuffersTheorems ProgramBuffersLive.

(** Ranges of a program's circular buffers that meet are one and the same. *)
Definition ranges_agree (p : ProgramBuffers) : Prop :=
  forall b b' r r', b ∈ circular_buffers p -> b' ∈ circular_buffers p -> r ∈ core_ranges_ b -> r' ∈ core_ranges_ b' -> CoreRange_intersects r r' = true -> r = r'.

Lemma cell_intersects c r r' : cell_in c r -> cell_in c r' -> CoreRange_intersects r r' = true.
Proof. unfold cell_in, CoreRange_intersects. intros (H1 & H2) (H3 & H4). bool_lia. Qed.

Lemma validated l m p A : validate_circular_buffer_region l m p = Ok tt -> A ∈ cb_allocators p -> l1_regions A <> [] ->
  forall base, next_free base A <= m /\ forall x, l = Some x -> next_free base A <= x.
Proof.
  unfold validate_circular_buffer_region. generalize (cb_allocators p) as als. induction als as [|A' als IH]; [by intros _ ?%not_elem_of_nil|]. cbn [fold_res]. intros (u & E1 & E2)%bind_ok. destruct u.
  intros [->|HA]%elem_of_cons Hne base; [|by apply IH]. unfold next_free. destruct (last (l1_regions A')) as [[s e]|] eqn:El; [|by apply last_None in El].
  destruct (Z.leb_spec e m); cbn in E1; [|done]. split; [done|]. intros x ->. destruct (Z.ltb_spec x e); cbn in E1; [done|lia].
Qed.

Section Places.
Context (debug : bool) (buffer_of : Z -> Buffer) (alloc : Allocator) (num_device_banks base k : Z).
Abbreviation reached := (reached debug buffer_of alloc num_device_banks base k).

(** A circular buffer that the program placed. *)
Lemma placed_on_core p i b c :
  0 <= k <= 31 -> reached p -> local_circular_buffer_allocation_needed p = false -> circular_buffers p !! i = Some b -> globally_allocated b = false -> on_core c b ->
  exists a A, cb_address b = Ok a /\ has_place base k (cb_allocators p) b a /\ A ∈ cb_allocators p /\ core_range A ∈ core_ranges_ b.
Proof using.
  intros Hk Hr Hn Hi Hg (r & Hrb & _). destruct (reached_good _ _ _ _ _ _ p Hk Hr) as [Hp Hst]. unfold state_ok in Hst. rewrite Hn in Hst.
  destruct (Hst i b ltac:(by eapply lookup_lt_Some) Hi Hg) as (a & Ha & _). destruct (pr_covered _ _ Hp b r ltac:(by eapply list_elem_of_lookup_2) Hrb) as (A & HA & HAr).
  exists a, A. unfold cb_address. rewrite Hg, (proj1 Ha), HAr. done.
Qed.

(** C14: Circular buffers that a program placed do not overlap on a core they share.
    After any sequence of adding circular buffers, changing their sizes, page sizes and
    buffers, invalidating and placing, if ranges of cores of the program that meet are
    equal, two of them on a common core take disjoint bytes of its memory. *)
Theorem circular_buffers_apart p i j b b' c :
  0 <= k <= 31 -> reached p -> local_circular_buffer_allocation_needed p = false -> ranges_agree p ->
  i <> j -> circular_buffers p !! i = Some b -> circular_buffers p !! j = Some b' ->
  globally_allocated b = false -> globally_allocated b' = false -> on_core c b -> on_core c b' ->
  exists a a', cb_address b = Ok a /\ cb_address b' = Ok a' /\ (a + cb_size b <= a' \/ a' + cb_size b' <= a).
Proof using.
  intros Hk Hr Hn Hag. assert (forall i j b b', (i < j)%nat -> circular_buffers p !! i = Some b -> circular_buffers p !! j = Some b' -> globally_allocated b = false ->
    globally_allocated b' = false -> on_core c b -> on_core c b' -> exists a a', cb_address b = Ok a /\ cb_address b' = Ok a' /\ a + cb_size b <= a') as Hlt.
  { clear i j b b'. intros i j b b' Hij Hi Hj Hg Hg' (r & Hrb & Hc) (r' & Hrb' & Hc'). destruct (reached_good _ _ _ _ _ _ p Hk Hr) as [_ Hst]. unfold state_ok in Hst. rewrite Hn in Hst.
    rewrite <- (Hag b b' r r' ltac:(by eapply list_elem_of_lookup_2) ltac:(by eapply list_elem_of_lookup_2) Hrb Hrb' (cell_intersects c r r' Hc Hc')) in Hrb'.
    destruct (Hst j b' ltac:(by eapply lookup_lt_Some) Hj Hg') as (a' & (Ha' & _) & Hbelow). destruct (Hbelow i b r Hij Hi Hg Hrb' Hrb) as (a & Ha & Hle).
    exists a, a'. unfold cb_address. by rewrite Hg, Hg', Ha, Ha'. }
  intros Hne Hi Hj Hg Hg' Hc Hc'. destruct (Nat.lt_total i j) as [Hij|[Hij|Hij]]; [|done|].
  - destruct (Hlt i j b b' Hij Hi Hj Hg Hg' Hc Hc') as (a & a' & H1 & H2 & H3). exists a, a'. auto.
  - destruct (Hlt j i b' b Hij Hj Hi Hg' Hg Hc' Hc) as (a & a' & H1 & H2 & H3). exists a', a. auto.
Qed.

(** C35: A placed circular buffer is aligned and lies in the region for circular buffers:
    not below the base of the region, and when [validate_circular_buffer_region] passes
    not beyond the memory of a core, nor in the lowest buffer of the allocator. *)
Theorem circular_buffers_in_region p i b c lowest max_l1_size :
  0 <= k <= 31 -> reached p -> local_circular_buffer_allocation_needed p = false -> validate_circular_buffer_region lowest max_l1_size p = Ok tt ->
  circular_buffers p !! i = Some b -> globally_allocated b = false -> on_core c b ->
  exists a, cb_address b = Ok a /\ base <= a /\ a mod 2 ^ k = 0 /\ a + cb_size b <= max_l1_size /\ forall l, lowest = Some l -> a + cb_size b <= l.
Proof using.
  intros Hk Hr Hn Hv Hi Hg Hc. destruct (placed_on_core p i b c Hk Hr Hn Hi Hg Hc) as (a & A & Ha & (_ & _ & Hm & Hin) & HA & HAr).
  destruct (Hin A HA HAr) as (H1 & H2 & H3). destruct (validated lowest max_l1_size p A Hv HA H3 base) as [H4 H5].
  exists a. split_and!; [done|done|done|lia|]. intros l Hl. specialize (H5 l Hl). lia.
Qed.

(** C36: No index of a core serves two circular buffers, whatever was added to the program
    and whichever of the additions failed. *)
Theorem indices_exclusive p i j b b' c :
  0 <= k <= 31 -> reached p -> i <> j -> circular_buffers p !! i = Some b -> circular_buffers p !! j = Some b' -> on_core c b -> on_core c b' ->
  (local_buffer_indices_ (config_cb b) ∪ remote_buffer_indices_ (config_cb b)) ## (local_buffer_indices_ (config_cb b') ∪ remote_buffer_indices_ (config_cb b')).
Proof using.
  intros Hk Hr Hne Hi Hj Hc Hc' n Hb Hb'. destruct (reached_good _ _ _ _ _ _ p Hk Hr) as [Hp _]. by destruct (Hne (pr_exclusive _ _ Hp i j b b' c n Hi Hj Hc Hc' Hb Hb')).
Qed.

(** C16: Placing comes to its end whenever the addresses have room, also on sets of ranges
    that cross: no circular buffer is refused the place computed for it, and afterwards
    each of them has an address. *)
Theorem allocation_succeeds p :
  0 <= k <= 31 -> 0 <= base -> reached p -> base + foldr (fun b n => cb_size b + 2 ^ k + n) 0 (circular_buffers p) <= 2 ^ 32 ->
  exists p', allocate_circular_buffers base (2 ^ k) p = (p', Ok tt) /\ local_circular_buffer_allocation_needed p' = false /\
    forall b, b ∈ circular_buffers p' -> exists a, cb_address b = Ok a.
Proof using.
  intros Hk Hb Hr Hm. destruct (reached_good _ _ _ _ _ _ p Hk Hr) as [Hp Hst]. destruct (allocate_succeeds base k Hk Hb p Hp Hst Hm) as (p' & E).
  destruct (placing_ok base k Hk p p' Hp Hst E) as (_ & Hst' & Hn). exists p'. split_and!; [done|done|]. intros b (i & Hi)%list_elem_of_lookup. unfold state_ok in Hst'. rewrite Hn in Hst'.
  unfold cb_address. destruct (globally_allocated b) eqn:Hg; [by eexists|]. destruct (Hst' i b ltac:(by eapply lookup_lt_Some) Hi Hg) as (a & (Ha & _) & _). exists a. by rewrite Ha.
Qed.
End Places.

(** ** A program for the witnesses: circular buffers on two ranges, one of which is
    refused since its index is taken, and one of which is made larger before all are placed *)

Definition demo_buffer_of (id : Z) : Buffer := mkBuf 256 L1 INTERLEAVED false None true None ALLOCATED 4096 false 64 None None id.

Definition demo_cb_config (index size : Z) : CircularBufferConfig :=
  match CircularBufferConfig_static size [(index, Float16_b)] with Ok c => (CircularBuffer.set_page_size index 32 c).1 | Err _ => empty_config size end.

Definition demo_square : CoreRange := mkRange (mkCoord 0 0) (mkCoord 1 1).
Definition demo_column : CoreRange := mkRange (mkCoord 2 0) (mkCoord 2 1).

Abbreviation demo_serve x p := (serve false demo_buffer_of demo_alloc 4 1024 4 x p).
Abbreviation demo_reached := (reached false demo_buffer_of demo_alloc 4 1024 4).

Definition demo_run (l : list request) : ProgramBuffers := fold_left (fun p x => (demo_serve x p).1) l empty_program.

(** The placings among the requests do not fail. *)
Fixpoint places (l : list request) (p : ProgramBuffers) : bool :=
  match l with
  | [] => true
  | x :: l => match x, (demo_serve x p).2 with Allocate, Err _ => false | _, _ => true end && places l (demo_serve x p).1
  end.

Lemma demo_run_reached l : Forall valid_request l -> places l empty_program = true -> demo_reached (demo_run l).
Proof.
  unfold demo_run. assert (demo_reached empty_program) as H by apply reached_new. revert H. generalize empty_program as p. induction l as [|x l IH]; intros p Hp Hv Hl; [done|].
  apply Forall_cons in Hv as [Hx Hv]. cbn [places fold_left] in *. apply andb_true_iff in Hl as [Hl1 Hl]. apply IH; [|done|done].
  eapply reached_request; [exact Hp|exact Hx|apply surjective_pairing|]. intros ->. by destruct (serve _ _ _ _ _ _ Allocate p).2 as [[]|].
Qed.

Definition demo_requests : list request :=
  [Add 1 [demo_square] (demo_cb_config 0 128); Add 2 [demo_square] (demo_cb_config 1 2048); Add 3 [demo_square; demo_column] (demo_cb_config 2 64);
   Add 4 [demo_column] (demo_cb_config 2 64); Add 5 [demo_column] (demo_cb_config 3 64); TotalSize 1 1024; Allocate].

Lemma demo_set_wf s : Forall range_wf s -> validate_no_overlap s = Ok tt -> set_wf s.
Proof. by intros H Hd%validate_no_overlap_ok. Qed.

(** Decides a request's validity. *)
Ltac demo_valid := repeat first [apply Forall_nil; exact I | apply Forall_cons; split]; cbn [valid_request];
  lazymatch goal with
  | |- True => exact I
  | |- is_u32 _ => unfold is_u32; lia
  | |- _ => split; [apply demo_set_wf; [apply (bool_decide_unpack _); vm_compute; exact I|reflexivity]|split; [apply Z.leb_le|apply Z.ltb_lt]; vm_compute; reflexivity]
  end.

Lemma demo_requests_valid : Forall valid_request demo_requests.
Proof. unfold demo_requests. demo_valid. Qed.

Definition demo_program : ProgramBuffers := demo_run demo_requests.

Lemma demo_program_reached : demo_reached demo_program.
Proof. apply demo_run_reached; [apply demo_requests_valid|vm_compute; reflexivity]. Qed.

Lemma demo_program_ranges : map core_ranges_ (circular_buffers demo_program) = [[demo_square]; [demo_square]; [demo_square; demo_column]; [demo_column]].
Proof. vm_compute. reflexivity. Qed.

Lemma demo_program_addresses : map cb_address (circular_buffers demo_program) = [Ok 1024; Ok 2048; Ok 4096; Ok 4160].
Proof. vm_compute. reflexivity. Qed.

Lemma demo_program_placed : local_circular_buffer_allocation_needed demo_program = false.
Proof. vm_compute. reflexivity. Qed.

#[local] Opaque demo_program demo_run.

Lemma demo_program_agrees : ranges_agree demo_program.
Proof.
  assert (forall b r, b ∈ circular_buffers demo_program -> r ∈ core_ranges_ b -> r = demo_square \/ r = demo_column) as H.
  { intros b r (i & Hb)%list_elem_of_lookup Hr. assert (map core_ranges_ (circular_buffers demo_program) !! i = Some (core_ranges_ b)) as E by (by rewrite list_lookup_fmap, Hb).
    rewrite demo_program_ranges in E. apply list_elem_of_lookup_2 in E. revert E Hr. generalize (core_ranges_ b) as s. clear. intros s Hs Hr.
    repeat (apply elem_of_cons in Hs as [->|Hs]; [repeat (apply elem_of_cons in Hr as [Hr|Hr]; [auto|]); by apply not_elem_of_nil in Hr|]). by apply not_elem_of_nil in Hs. }
  intros b b' r r' Hb Hb' Hr Hr'. destruct (H b r Hb Hr) as [-> | ->], (H b' r' Hb' Hr') as [-> | ->]; try done; by vm_compute.
Qed.

(** Looks at a circular buffer of a program that is computed. *)
Lemma demo_at (p : ProgramBuffers) i s n r : (fun b => (core_ranges_ b, cb_size b, globally_allocated b, cb_address b)) <$> circular_buffers p !! i = Some (s, n, false, r) ->
  exists b, circular_buffers p !! i = Some b /\ core_ranges_ b = s /\ cb_size b = n /\ globally_allocated b = false /\ cb_address b = r.
Proof. destruct (circular_buffers p !! i) as [b|]; cbn; [|done]. intros [= <- <- H <-]. eauto 10. Qed.

Lemma demo_on_core b s r c : core_ranges_ b = s -> r ∈ s -> CoreRange_contains r c = true -> on_core c b.
Proof. intros <- Hr Hc%contains_cell. by exists r. Qed.

Lemma demo_second : exists b, circular_buffers demo_program !! 1%nat = Some b /\ core_ranges_ b = [demo_square] /\ cb_size b = 2048 /\ globally_allocated b = false /\ cb_address b = Ok 2048.
Proof. apply demo_at. vm_compute. reflexivity. Qed.

Lemma demo_third : exists b, circular_buffers demo_program !! 2%nat = Some b /\ core_ranges_ b = [demo_square; demo_column] /\ cb_size b = 64 /\ globally_allocated b = false /\ cb_address b = Ok 4096.
Proof. apply demo_at. vm_compute. reflexivity. Qed.

Lemma demo_fourth : exists b, circular_buffers demo_program !! 3%nat = Some b /\ core_ranges_ b = [demo_column] /\ cb_size b = 64 /\ globally_allocated b = false /\ cb_address b = Ok 4160.
Proof. apply demo_at. vm_compute. reflexivity. Qed.

Lemma circular_buffers_apart_witness :
  exists b b' a a', circular_buffers demo_program !! 1%nat = Some b /\ circular_buffers demo_program !! 2%nat = Some b' /\
    cb_address b = Ok a /\ cb_address b' = Ok a' /\ (a + 2048 <= a' \/ a' + 64 <= a).
Proof.
  destruct demo_second as (b & Hb & Hr & Hs & Hg & _). destruct demo_third as (b' & Hb' & Hr' & Hs' & Hg' & _). rewrite <- Hs, <- Hs'.
  assert (on_core (mkCoord 1 0) b) as Hc by (apply (demo_on_core _ _ demo_square _ Hr); [by left|reflexivity]).
  assert (on_core (mkCoord 1 0) b') as Hc' by (apply (demo_on_core _ _ demo_square _ Hr'); [by left|reflexivity]).
  destruct (circular_buffers_apart false demo_buffer_of demo_alloc 4 1024 4 demo_program 1 2 b b' (mkCoord 1 0) ltac:(lia) demo_program_reached demo_program_placed demo_program_agrees ltac:(lia) Hb Hb' Hg Hg' Hc Hc') as (a & a' & H1 & H2 & H3).
  exists b, b', a, a'. exact (conj Hb (conj Hb' (conj H1 (conj H2 H3)))).
Defined.

Lemma circular_buffers_in_region_witness :
  exists b a, circular_buffers demo_program !! 2%nat = Some b /\ cb_address b = Ok a /\ 1024 <= a /\ a mod 2 ^ 4 = 0 /\ a + 64 <= 6144.
Proof.
  destruct demo_third as (b & Hb & Hr & Hs & Hg & _). rewrite <- Hs.
  assert (on_core (mkCoord 2 1) b) as Hc by (apply (demo_on_core _ _ demo_column _ Hr); [by right; left|reflexivity]).
  assert (validate_circular_buffer_region (Some 6144) 8192 demo_program = Ok tt) as Hv by (vm_compute; reflexivity).
  destruct (circular_buffers_in_region false demo_buffer_of demo_alloc 4 1024 4 demo_program 2 b (mkCoord 2 1) (Some 6144) 8192 ltac:(lia) demo_program_reached demo_program_placed Hv Hb Hg Hc) as (a & H1 & H2 & H3 & _ & H5).
  exists b, a. exact (conj Hb (conj H1 (conj H2 (conj H3 (H5 6144 eq_refl))))).
Defined.

Lemma indices_exclusive_witness :
  exists b b', circular_buffers demo_program !! 2%nat = Some b /\ circular_buffers demo_program !! 3%nat = Some b' /\ on_core (mkCoord 2 0) b /\ on_core (mkCoord 2 0) b' /\
    (local_buffer_indices_ (config_cb b) ∪ remote_buffer_indices_ (config_cb b)) ## (local_buffer_indices_ (config_cb b') ∪ remote_buffer_indices_ (config_cb b')).
Proof.
  destruct demo_third as (b & Hb & Hr & _). destruct demo_fourth as (b' & Hb' & Hr' & _).
  assert (on_core (mkCoord 2 0) b) as Hc by (apply (demo_on_core _ _ demo_column _ Hr); [by right; left|reflexivity]).
  assert (on_core (mkCoord 2 0) b') as Hc' by (apply (demo_on_core _ _ demo_column _ Hr'); [by left|reflexivity]).
  exists b, b'. refine (conj Hb (conj Hb' (conj Hc (conj Hc' _)))).
  exact (indices_exclusive false demo_buffer_of demo_alloc 4 1024 4 demo_program 2 3 b b' (mkCoord 2 0) ltac:(lia) demo_program_reached ltac:(lia) Hb Hb' Hc Hc').
Defined.

Lemma allocation_succeeds_witness :
  exists p', allocate_circular_buffers 1024 (2 ^ 4) (demo_run (removelast demo_requests)) = (p', Ok tt) /\ forall b, b ∈ circular_buffers p' -> exists a, cb_address b = Ok a.
Proof.
  destruct (allocation_succeeds false demo_buffer_of demo_alloc 4 1024 4 (demo_run (removelast demo_requests))) as (p' & E & _ & H); [lia|lia| | |exists p'; exact (conj E H)].
  - apply demo_run_reached; [|vm_compute; reflexivity]. pose proof demo_requests_valid as Hv. unfold demo_requests in *. cbn [removelast]. repeat (apply Forall_cons in Hv as [? Hv]; apply Forall_cons; split; [done|]). by apply Forall_nil.
  - apply Z.leb_le. vm_compute. reflexivity.
Defined.

(** ** Ranges that cross *)

Definition left_core : CoreRange := mkRange (mkCoord 0 0) (mkCoord 0 0).
Definition right_core : CoreRange := mkRange (mkCoord 1 0) (mkCoord 1 0).
Definition both_cores : CoreRange := mkRange (mkCoord 0 0) (mkCoord 1 0).

(** A circular buffer on the right core, a larger one on the left core, and one on both. *)
Definition crossing_requests : list request :=
  [Add 1 [right_core] (demo_cb_config 0 128); Add 2 [left_core] (demo_cb_config 0 256); Add 3 [both_cores] (demo_cb_config 1 64); Allocate].

Lemma crossing_reached : demo_reached (demo_run crossing_requests).
Proof. apply demo_run_reached; [unfold crossing_requests; demo_valid|vm_compute; reflexivity]. Qed.

(** C37: Two circular buffers of a core overlap when ranges cross.  The mark of the one on
    the left core passes over the allocator of both cores, which the right core's has
    already moved to its own end or beyond ([continue] in [allocate_circular_buffers]),
    so that the one on both cores is placed at that end, inside the left core's, and the
    validation of the region passes. *)
Theorem crossing_ranges_overlap :
  exists p b b' a a', demo_reached p /\ local_circular_buffer_allocation_needed p = false /\ validate_circular_buffer_region None 8192 p = Ok tt /\
    b ∈ circular_buffers p /\ b' ∈ circular_buffers p /\ cb_id b <> cb_id b' /\ is_on_logical_core (mkCoord 0 0) b = true /\ is_on_logical_core (mkCoord 0 0) b' = true /\
    cb_address b = Ok a /\ cb_address b' = Ok a' /\ a <= a' /\ a' + cb_size b' <= a + cb_size b.
Proof.
  destruct (demo_at (demo_run crossing_requests) 1 [left_core] 256 (Ok 1024)) as (b & Hb & Hr & Hs & _ & Ha); [vm_compute; reflexivity|].
  destruct (demo_at (demo_run crossing_requests) 2 [both_cores] 64 (Ok 1152)) as (b' & Hb' & Hr' & Hs' & _ & Ha'); [vm_compute; reflexivity|].
  exists (demo_run crossing_requests), b, b', 1024, 1152. split; [apply crossing_reached|]. split; [vm_compute; reflexivity|]. split; [vm_compute; reflexivity|].
  split; [by eapply list_elem_of_lookup_2|]. split; [by eapply list_elem_of_lookup_2|]. split.
  - assert (cb_id <$> circular_buffers (demo_run crossing_requests) !! 1%nat = Some 2) as H by (vm_compute; reflexivity). rewrite Hb in H.
    assert (cb_id <$> circular_buffers (demo_run crossing_requests) !! 2%nat = Some 3) as H' by (vm_compute; reflexivity). rewrite Hb' in H'. cbn in H, H'. congruence.
  - unfold is_on_logical_core. rewrite Hr, Hr', Hs, Hs'. split_and!; [reflexivity|reflexivity|exact Ha|exact Ha'|lia|lia].
Qed.
