(* ===== verification/DeviceCB.v ===== *)
(** * Circular buffers on a core
    (tt_metal/hw/inc/circular_buffer.h, circular_buffer_init.h, the calls on circular
    buffers of dataflow_api.h, and llk_io_pack.h and llk_io_unpack.h under
    tt_metal/hw/ckernels)

    A circular buffer hands pages from a producer to a consumer on one core.  Each of the
    core's processors has an interface of its own to it; the two ends share the pages in
    L1 and two counters, of the pages received and acknowledged, in registers.  An end is
    either a data movement kernel, whose accesses are made at once, or a compute kernel,
    which issues them to the packer or the unpacker: what has been issued is done later,
    in its order.  The loops that wait read their own counter once, which only they
    change, and poll the other's; here a condition says whether a turn of the loop is the
    last.  Delays (apply_mm_stagger) and the cache of L1 are left out. *)

From Stdlib Require Import Lia.
From S2P Require Import Prelude Memory CircularBuffer.

Definition u16 (z : Z) : Z := z mod 2 ^ 16.

(** ** The interface of a processor *)

Record LocalCBInterface := mkLocalCB {
  fifo_size : Z;
  fifo_limit : Z;
  fifo_page_size : Z;
  fifo_num_pages : Z;
  fifo_rd_ptr : Z;
  fifo_wr_ptr : Z;
  tiles_acked : Z;
  tiles_received : Z;
  fifo_wr_tile_ptr : Z;
}.

Definition set_rd (p : Z) (c : LocalCBInterface) : LocalCBInterface :=
  mkLocalCB (fifo_size c) (fifo_limit c) (fifo_page_size c) (fifo_num_pages c) p (fifo_wr_ptr c) (tiles_acked c) (tiles_received c) (fifo_wr_tile_ptr c).
Definition set_wr (p tile_ptr : Z) (c : LocalCBInterface) : LocalCBInterface :=
  mkLocalCB (fifo_size c) (fifo_limit c) (fifo_page_size c) (fifo_num_pages c) (fifo_rd_ptr c) p (tiles_acked c) (tiles_received c) tile_ptr.
Definition set_counts (acked received : Z) (c : LocalCBInterface) : LocalCBInterface :=
  mkLocalCB (fifo_size c) (fifo_limit c) (fifo_page_size c) (fifo_num_pages c) (fifo_rd_ptr c) (fifo_wr_ptr c) acked received (fifo_wr_tile_ptr c).

Definition UINT32_WORDS_PER_LOCAL_CIRCULAR_BUFFER_CONFIG : Z := 4.

(** [cb_addr_shift]: compute kernels count in words of 16 bytes. *)
Inductive engine := DataMovement | Compute.
Definition cb_addr_shift (e : engine) : Z := match e with DataMovement => 0 | Compute => 4 end.

(** The words of a configuration, and one turn of the loop. *)
Definition setup_local_cb (e : engine) (read write init_wr_tile_ptr : bool) (config : Z -> Z) (c : LocalCBInterface) : LocalCBInterface :=
  let fifo_addr := Z.shiftr (config 0) (cb_addr_shift e) in
  let fifo_size := Z.shiftr (config 1) (cb_addr_shift e) in
  let fifo_num_pages' := config 2 in
  let fifo_page_size := Z.shiftr (config 3) (cb_addr_shift e) in
  mkLocalCB fifo_size (u32 (fifo_addr + fifo_size)) fifo_page_size (if write then fifo_num_pages' else fifo_num_pages c)
    (if read then fifo_addr else fifo_rd_ptr c) (if write then fifo_addr else fifo_wr_ptr c) 0 0 (if init_wr_tile_ptr then 0 else fifo_wr_tile_ptr c).

Definition setup_local_cb_read_write_interfaces (e : engine) (cb_l1_base : Z -> Z) (start_cb_index max_cb_index : Z) (read write init_wr_tile_ptr : bool)
    (cb_interface : Z -> LocalCBInterface) : res (Z -> LocalCBInterface) :=
  fold_res (fun cb_id cb_interface =>
    check Undefined (cb_id <? NUM_CIRCULAR_BUFFERS);;
    let config i := cb_l1_base (cb_id * UINT32_WORDS_PER_LOCAL_CIRCULAR_BUFFER_CONFIG + i) in
    mret (fun j => if j =? cb_id then setup_local_cb e read write init_wr_tile_ptr config (cb_interface cb_id) else cb_interface j))
    (zrange start_cb_index max_cb_index) cb_interface.

(** ** Data movement kernels *)

Inductive arch := Grayskull | Wormhole | Blackhole.

(** The counters are kept in registers of a stream, which hold so many bits of a store. *)
Definition REMOTE_DEST_BUF_SIZE_WORDS_WIDTH (a : arch) : Z := match a with Grayskull => 16 | _ => 17 end.
Definition reg_store (a : arch) (v : Z) : Z := v mod 2 ^ REMOTE_DEST_BUF_SIZE_WORDS_WIDTH a.

Record Regs := mkRegs { received : Z; acked : Z }.

(** brisc.cc, [init_sync_registers] for one circular buffer. *)
Definition init_sync_registers : Regs := mkRegs 0 0.

Definition free_space_pages (c : LocalCBInterface) (r : Regs) : Z :=
  let pages_received := received r in
  let pages_acked := u16 (acked r) in
  u16 (fifo_num_pages c - (pages_received - pages_acked)).

Definition cb_pages_reservable_at_back (c : LocalCBInterface) (r : Regs) (num_pages : Z) : bool := num_pages <=? free_space_pages c r.

Definition cb_reserve_back_done (c : LocalCBInterface) (r : Regs) (num_pages : Z) : bool := negb (free_space_pages c r <? num_pages).

Definition cb_push_back (a : arch) (num_pages : Z) (c : LocalCBInterface) (r : Regs) : res (LocalCBInterface * Regs) :=
  let num_words := u32 (num_pages * fifo_page_size c) in
  let r := mkRegs (reg_store a (received r + num_pages)) (acked r) in
  let wr := u32 (fifo_wr_ptr c + num_words) in
  check Assert (wr <=? fifo_limit c);;
  mret (set_wr (if wr =? fifo_limit c then u32 (wr - fifo_size c) else wr) (fifo_wr_tile_ptr c) c, r).

Definition pages_available (c : LocalCBInterface) (r : Regs) : Z :=
  let pages_acked := acked r in
  u16 (u16 (received r) - pages_acked).

Definition cb_pages_available_at_front (c : LocalCBInterface) (r : Regs) (num_pages : Z) : bool := num_pages <=? pages_available c r.

Definition cb_wait_front_done (c : LocalCBInterface) (r : Regs) (num_pages : Z) : bool := negb (pages_available c r <? num_pages).

Definition cb_pop_front (a : arch) (num_pages : Z) (c : LocalCBInterface) (r : Regs) : res (LocalCBInterface * Regs) :=
  let r := mkRegs (received r) (reg_store a (acked r + num_pages)) in
  let num_words := u32 (num_pages * fifo_page_size c) in
  let rd := u32 (fifo_rd_ptr c + num_words) in
  check Assert (rd <=? fifo_limit c);;
  mret (set_rd (if rd =? fifo_limit c then u32 (rd - fifo_size c) else rd) c, r).

(** ** Compute kernels *)

(** [free_tiles_wrap] has 16 bits on Grayskull, 32 on Wormhole and Blackhole. *)
Definition llk_wait_for_free_tiles_done (a : arch) (c : LocalCBInterface) (r : Regs) (num_tiles : Z) : bool :=
  let tiles_acked := u16 (acked r) in
  let free := fifo_num_pages c - (tiles_received c - tiles_acked) in
  let free_tiles := i32 (match a with Grayskull => u16 free | _ => u32 free end) in
  negb (free_tiles <? num_tiles).

(** What is issued to store in the register comes after what was issued before. *)
Definition llk_push_tiles (num_tiles : Z) (c : LocalCBInterface) : LocalCBInterface * Z :=
  let num_words := u32 (num_tiles * fifo_page_size c) in
  let wr := u32 (fifo_wr_ptr c + num_words) in
  let c := set_wr (if fifo_limit c <=? wr then u32 (wr - fifo_size c) else wr) 0 c in
  let tiles_received_new := u16 (tiles_received c + num_tiles) in
  (set_counts (tiles_acked c) tiles_received_new c, tiles_received_new).

Definition llk_wait_tiles_done (c : LocalCBInterface) (r : Regs) (num_tiles : Z) : bool :=
  let num_tiles_u := u16 num_tiles in
  let tiles_received := u16 (received r) in
  let num_tiles_recv := u16 (tiles_received - tiles_acked c) in
  negb (num_tiles_recv <? num_tiles_u).

Definition llk_pop_tiles (num_tiles : Z) (c : LocalCBInterface) : LocalCBInterface * Z :=
  let num_words := u32 (num_tiles * fifo_page_size c) in
  let acked_new := u16 (tiles_acked c + num_tiles) in
  let rd := u32 (fifo_rd_ptr c + num_words) in
  (set_counts acked_new (tiles_received c) (set_rd (if fifo_limit c <=? rd then u32 (rd - fifo_size c) else rd) c), acked_new).

(** ** A producer and a consumer *)

(** What the packer and the unpacker are issued. *)
Inductive access :=
  | Pack (addr : Z) (page : list Z)
  | StoreReceived (count : Z)
  | Unpack (addr : Z)
  | StoreAcked (count : Z).

(** [writing], [reading]: the pages of the current block that are written or read; none
    between blocks.  [input]: all pages written, in order; [output]: all pages read. *)
Record Stream := mkStream {
  regs : Regs;
  l1 : Z -> Z;
  producer : LocalCBInterface;
  consumer : LocalCBInterface;
  writing : option Z;
  reading : option Z;
  to_packer : list access;
  to_unpacker : list access;
  input : list (list Z);
  output : list (list Z);
}.

Inductive event :=
  | Reserve | WritePage (page : list Z) | Push | Packer (high : Z)
  | Wait | ReadPage | Pop | Unpacker (high : Z).

Section Stream.
(** The chip, the kernels at the two ends, the pages each takes at a time, and the bytes
    of a page. *)
Context (a : arch) (at_back at_front : engine) (num_produced num_consumed page_bytes : Z).

Definition reserved (s : Stream) : bool :=
  match at_back with
  | DataMovement => cb_reserve_back_done (producer s) (regs s) num_produced
  | Compute => llk_wait_for_free_tiles_done a (producer s) (regs s) num_produced
  end.

Definition waited (s : Stream) : bool :=
  match at_front with
  | DataMovement => cb_wait_front_done (consumer s) (regs s) num_consumed
  | Compute => llk_wait_tiles_done (consumer s) (regs s) num_consumed
  end.

(** An access is made; a store takes the high half of its register from a register of
    the packer, whose high half is not set. *)
Definition perform (high : Z) (x : access) (s : Stream) : Stream :=
  match x with
  | Pack addr page => mkStream (regs s) (write_mem addr page (l1 s)) (producer s) (consumer s) (writing s) (reading s) (to_packer s) (to_unpacker s) (input s) (output s)
  | StoreReceived n => mkStream (mkRegs (reg_store a (high * 2 ^ 16 + n)) (acked (regs s))) (l1 s) (producer s) (consumer s) (writing s) (reading s) (to_packer s) (to_unpacker s) (input s) (output s)
  | Unpack addr => mkStream (regs s) (l1 s) (producer s) (consumer s) (writing s) (reading s) (to_packer s) (to_unpacker s) (input s) (output s ++ [read_mem (l1 s) addr page_bytes])
  | StoreAcked n => mkStream (mkRegs (received (regs s)) (reg_store a (high * 2 ^ 16 + n))) (l1 s) (producer s) (consumer s) (writing s) (reading s) (to_packer s) (to_unpacker s) (input s) (output s)
  end.

Definition set_writing (w : option Z) (pages : list (list Z)) (s : Stream) : Stream :=
  mkStream (regs s) (l1 s) (producer s) (consumer s) w (reading s) (to_packer s) (to_unpacker s) (input s ++ pages) (output s).
Definition set_reading (w : option Z) (s : Stream) : Stream :=
  mkStream (regs s) (l1 s) (producer s) (consumer s) (writing s) w (to_packer s) (to_unpacker s) (input s) (output s).
Definition set_ends (r : Regs) (p c : LocalCBInterface) (s : Stream) : Stream :=
  mkStream r (l1 s) p c (writing s) (reading s) (to_packer s) (to_unpacker s) (input s) (output s).
Definition set_issued (p u : list access) (s : Stream) : Stream :=
  mkStream (regs s) (l1 s) (producer s) (consumer s) (writing s) (reading s) p u (input s) (output s).

Definition issue (e : engine) (x : access) (s : Stream) : Stream :=
  match e with
  | DataMovement => perform 0 x s
  | Compute => match x with
    | Pack _ _ | StoreReceived _ => set_issued (to_packer s ++ [x]) (to_unpacker s) s
    | _ => set_issued (to_packer s) (to_unpacker s ++ [x]) s
    end
  end.

(** The byte address of the [i]-th page from a pointer of an end. *)
Definition page_addr (e : engine) (ptr i page_size : Z) : Z := Z.shiftl (u32 (ptr + i * page_size)) (cb_addr_shift e).

(** An event: nothing, when it cannot happen; an error, when an assertion fails. *)
Definition occur (ev : event) (s : Stream) : option (res Stream) :=
  match ev, writing s, reading s with
  | Reserve, None, _ => if reserved s then Some (Ok (set_writing (Some 0) [] s)) else None
  | WritePage page, Some i, _ =>
      if (i <? num_produced) && (Z.of_nat (length page) =? page_bytes) then
        Some (Ok (issue at_back (Pack (page_addr at_back (fifo_wr_ptr (producer s)) i (fifo_page_size (producer s))) page) (set_writing (Some (i + 1)) [page] s)))
      else None
  | Push, Some i, _ =>
      if i =? num_produced then
        let s := set_writing None [] s in
        match at_back with
        | DataMovement => Some ('(c, r) ← cb_push_back a num_produced (producer s) (regs s); mret (set_ends r c (consumer s) s))
        | Compute => let '(c, n) := llk_push_tiles num_produced (producer s) in Some (Ok (issue Compute (StoreReceived n) (set_ends (regs s) c (consumer s) s)))
        end
      else None
  | Packer high, _, _ => match to_packer s with x :: l => Some (Ok (perform high x (set_issued l (to_unpacker s) s))) | [] => None end
  | Wait, _, None => if waited s then Some (Ok (set_reading (Some 0) s)) else None
  | ReadPage, _, Some i =>
      if i <? num_consumed then
        Some (Ok (issue at_front (Unpack (page_addr at_front (fifo_rd_ptr (consumer s)) i (fifo_page_size (consumer s)))) (set_reading (Some (i + 1)) s)))
      else None
  | Pop, _, Some i =>
      if i =? num_consumed then
        let s := set_reading None s in
        match at_front with
        | DataMovement => Some ('(c, r) ← cb_pop_front a num_consumed (consumer s) (regs s); mret (set_ends r (producer s) c s))
        | Compute => let '(c, n) := llk_pop_tiles num_consumed (consumer s) in Some (Ok (issue Compute (StoreAcked n) (set_ends (regs s) (producer s) c s)))
        end
      else None
  | Unpacker high, _, _ => match to_unpacker s with x :: l => Some (Ok (perform high x (set_issued (to_packer s) l s))) | [] => None end
  | _, _, _ => None
  end.

(** A circular buffer as the firmware sets it up for both ends. *)
Definition new_stream (config : Z -> Z) (mem : Z -> Z) (c0 c1 : LocalCBInterface) : Stream :=
  mkStream init_sync_registers mem (setup_local_cb at_back (match at_back with DataMovement => true | Compute => false end) true (match at_back with DataMovement => false | Compute => true end) config c0)
    (setup_local_cb at_front true (match at_front with DataMovement => true | Compute => false end) false config c1) None None [] [] [] [].

Inductive runs (config mem : Z -> Z) (c0 c1 : LocalCBInterface) : Stream -> Prop :=
  | runs_new : runs config mem c0 c1 (new_stream config mem c0 c1)
  | runs_event s ev s' : runs config mem c0 c1 s -> occur ev s = Some (Ok s') -> runs config mem c0 c1 s'.
End Stream.
