(* ===== verification/DeviceCBInv.v ===== *)
(** * Circular buffers on a core: the invariant

    Both ends' pointers and counters stand for the number of pages that have gone
    through; what has been issued to the packer and the unpacker leads from the pages
    done to the pages issued. *)

From Stdlib Require Import Lia.
From S2P Require Import Prelude Memory CircularBuffer DeviceCB.

Lemma u16_range z : 0 <= u16 z < 2 ^ 16.
Proof. apply Z.mod_pos_bound. reflexivity. Qed.
Lemma u16_small z : 0 <= z < 2 ^ 16 -> u16 z = z.
Proof. apply Z.mod_small. Qed.
Lemma u16_u16 z : u16 (u16 z) = u16 z.
Proof. apply Z.mod_mod. done. Qed.

(** What is equal modulo 2^16. *)
Lemma u16_eq x y k : x = y + k * 2 ^ 16 -> u16 x = u16 y.
Proof. intros ->. apply Z.mod_add. done. Qed.

Lemma u16_sub x y : u16 (u16 x - u16 y) = u16 (x - y).
Proof. symmetry. apply Zminus_mod. Qed.
Lemma u16_sub_l x y : u16 (u16 x - y) = u16 (x - y).
Proof. apply Zminus_mod_idemp_l. Qed.
Lemma u16_sub_r x y : u16 (x - u16 y) = u16 (x - y).
Proof. apply Zminus_mod_idemp_r. Qed.
Lemma u16_add_l x y : u16 (u16 x + y) = u16 (x + y).
Proof. apply Zplus_mod_idemp_l. Qed.

Lemma u16_reg_store a v : u16 (reg_store a v) = u16 v.
Proof.
  unfold u16, reg_store, REMOTE_DEST_BUF_SIZE_WORDS_WIDTH. destruct a; [by apply Z.mod_mod|..]; rewrite Z.mod_mod_divide; try done; by exists 2.
Qed.

Lemma u16_high h n : u16 (h * 2 ^ 16 + n) = u16 n.
Proof. apply (u16_eq _ _ h). lia. Qed.

(** A list of accesses from one pair of counts to another: data at each position in
    turn, and counts not beyond it. *)
Fixpoint trail (data : Z -> access -> Prop) (store : Z -> access) (l : list access) (W R We Re : Z) : Prop :=
  match l with
  | [] => W = We /\ R = Re
  | x :: l => (data W x /\ trail data store l (W + 1) R We Re) \/ (exists R', x = store R' /\ R <= R' <= W /\ trail data store l W R' We Re)
  end.

Lemma trail_data data store l W R We Re x : trail data store l W R We Re -> data We x -> trail data store (l ++ [x]) W R (We + 1) Re.
Proof.
  revert W R. induction l as [|y l IH]; intros W R; cbn; [intros [-> ->]; auto|]. intros [[H1 H2]|(R' & H1 & H2 & H3)] Hd; [left; auto|right; eauto].
Qed.

Lemma trail_store data store l W R We Re R' : trail data store l W R We Re -> Re <= R' <= We -> trail data store (l ++ [store R']) W R We R'.
Proof.
  revert W R. induction l as [|y l IH]; intros W R; cbn; [intros [-> ->]; right; eauto|]. intros [[H1 H2]|(R1 & H1 & H2 & H3)] Hd; [left; auto|right; eauto].
Qed.

Lemma trail_impl (data data' : Z -> access -> Prop) store l W R We Re : (forall i x, data i x -> data' i x) -> trail data store l W R We Re -> trail data' store l W R We Re.
Proof.
  intros Hd. revert W R. induction l as [|y l IH]; intros W R; cbn; [done|]. intros [[H1 H2]|(R1 & H1 & H2 & H3)]; [left; auto|right; eauto].
Qed.

Lemma trail_le data store l W R We Re : trail data store l W R We Re -> W <= We /\ R <= Re.
Proof.
  revert W R. induction l as [|y l IH]; intros W R; cbn; [lia|]. intros [[_ H]|(R1 & _ & H2 & H)]; apply IH in H; lia.
Qed.

Section Inv.
Context (a : arch) (at_back at_front : engine) (np nc pb N start : Z).

(** What the configuration of a circular buffer must be like. *)
Record layout_ok : Prop := mkLayoutOk {
  lo_pages : 0 < N < 2 ^ 16;
  lo_np : 0 < np /\ (np | N);
  lo_nc : 0 < nc /\ (nc | N);
  lo_page : 0 < pb /\ (16 | pb);
  lo_start : 0 <= start /\ (16 | start);
  lo_limit : start + N * pb < 2 ^ 32;
}.
Hypothesis Hlo : layout_ok.

Definition unit (e : engine) : Z := match e with DataMovement => 1 | Compute => 16 end.
Definition su e := start / unit e.
Definition pu e := pb / unit e.

Lemma units e : start = unit e * su e /\ pb = unit e * pu e /\ 0 <= su e /\ 0 < pu e /\ su e + N * pu e < 2 ^ 32.
Proof using Hlo.
  destruct Hlo as [HN _ _ [Hp [p Hp']] [Hs [q Hs']] Hl]. unfold su, pu. destruct e; cbn [unit]; rewrite ?Z.div_1_r.
  - lia.
  - rewrite Hp', Hs', !Z.div_mul by lia. nia.
Qed.

(** Where a page lies. *)
Definition slot (i : Z) : Z := start + (i mod N) * pb.

Lemma block_fits n P : 0 < n -> (n | N) -> (n | P) -> 0 <= P mod N /\ P mod N + n <= N.
Proof using Hlo.
  intros Hn [x Hx] [p Hp]. destruct Hlo as [HN _ _ _ _ _]. pose proof (Z.mod_pos_bound P N ltac:(lia)). split; [lia|].
  assert (exists q, P mod N = n * q) as [q Hq] by (exists (p - x * (P / N)); rewrite Z.mod_eq by lia; generalize (P / N) as d; intros d; rewrite Hx, Hp; ring).
  assert (q < x) by nia. nia.
Qed.

Lemma page_addr_slot e n P i : 0 < n -> (n | N) -> (n | P) -> 0 <= i < n -> page_addr e (su e + (P mod N) * pu e) i (pu e) = slot (P + i).
Proof using Hlo.
  intros Hn Hd HP Hi. destruct (block_fits n P Hn Hd HP). destruct (units e) as (H1 & H2 & H3 & H4 & H5). destruct Hlo as [HN _ _ _ _ _].
  unfold page_addr, slot. rewrite u32_small by nia. rewrite Z.shiftl_mul_pow2 by (by destruct e). rewrite ring_mod by lia.
  assert (unit e = 2 ^ cb_addr_shift e) as Hu by (by destruct e). rewrite <- Hu. destruct (Z.ltb_spec (P mod N + i) N); nia.
Qed.

Lemma page_slots_apart i j : i < j < i + N -> slot i + pb <= slot j \/ slot j + pb <= slot i.
Proof using Hlo.
  intros Hij. destruct Hlo as [HN _ _ [Hp _] _ _]. unfold slot. assert (i mod N <> j mod N) as Hne.
  { intros E. pose proof (Z.div_mod i N ltac:(lia)) as Hi. pose proof (Z.div_mod j N ltac:(lia)) as Hj. rewrite E in Hi. revert Hi Hj. generalize (i / N) (j / N) (j mod N). intros x y r Hi Hj.
    assert (x < y) by nia. nia. }
  nia.
Qed.

(** An end's constants. *)
Definition end_ok (e : engine) (c : LocalCBInterface) : Prop := fifo_size c = N * pu e /\ fifo_limit c = su e + N * pu e /\ fifo_page_size c = pu e.

Definition data_in (inp : list (list Z)) (i : Z) (x : access) : Prop := exists page, 0 <= i /\ x = Pack (slot i) page /\ inp !! Z.to_nat i = Some page /\ Z.of_nat (length page) = pb.
Definition data_out (i : Z) (x : access) : Prop := x = Unpack (slot i).

Definition count (o : option Z) : Z := match o with Some i => i | None => 0 end.

Record inv (s : Stream) (P C Rv Av W : Z) : Prop := mkInv {
  i_prod : end_ok at_back (producer s) /\ fifo_wr_ptr (producer s) = su at_back + (P mod N) * pu at_back /\ fifo_num_pages (producer s) = N;
  i_cons : end_ok at_front (consumer s) /\ fifo_rd_ptr (consumer s) = su at_front + (C mod N) * pu at_front;
  i_counts : (at_back = Compute -> tiles_received (producer s) = u16 P) /\ (at_front = Compute -> tiles_acked (consumer s) = u16 C);
  i_blocks : (np | P) /\ (nc | C);
  i_writing : 0 <= count (writing s) <= np /\ Z.of_nat (length (input s)) = P + count (writing s) /\ (is_Some (writing s) -> P + np <= Av + N);
  i_reading : 0 <= count (reading s) <= nc /\ (is_Some (reading s) -> C + nc <= Rv);
  i_regs : u16 (received (regs s)) = u16 Rv /\ u16 (acked (regs s)) = u16 Av;
  i_packs : trail (data_in (input s)) (fun R => StoreReceived (u16 R)) (to_packer s) W Rv (P + count (writing s)) P;
  i_unpacks : trail data_out (fun R => StoreAcked (u16 R)) (to_unpacker s) (Z.of_nat (length (output s))) Av (C + count (reading s)) C;
  i_order : 0 <= Av /\ Av <= Z.of_nat (length (output s)) /\ C + count (reading s) <= Rv /\ Rv <= W /\ P + count (writing s) <= Av + N;
  i_mem : forall i, Z.of_nat (length (output s)) <= i < W -> exists page, input s !! Z.to_nat i = Some page /\ read_mem (l1 s) (slot i) pb = page;
  i_output : output s = take (length (output s)) (input s);
}.

(** Data movement has nothing under way. *)
Definition quiet (s : Stream) : Prop := (at_back = DataMovement -> to_packer s = []) /\ (at_front = DataMovement -> to_unpacker s = []).
Definition stream_ok (s : Stream) : Prop := quiet s /\ exists P C Rv Av W, inv s P C Rv Av W.
End Inv.
