(* ===== verification/DeviceCBSteps.v ===== *)
(** * Circular buffers on a core: every event keeps the invariant *)

From Stdlib Require Import Lia.
From S2P Require Import Prelude Memory CircularBuffer DeviceCB DeviceCBInv.

Lemma u16_inv x y : u16 x = u16 y -> exists k, x = y + k * 2 ^ 16.
Proof.
  intros H. exists (x / 2 ^ 16 - y / 2 ^ 16). pose proof (Z.div_mod x (2 ^ 16) ltac:(lia)). pose proof (Z.div_mod y (2 ^ 16) ltac:(lia)). unfold u16 in H. lia.
Qed.

Lemma u16_diff n x x' y y' : u16 x = u16 x' -> u16 y = u16 y' -> u16 (n - (x - y)) = u16 (n - (x' - y')).
Proof. intros [k ->]%u16_inv [l ->]%u16_inv. apply (u16_eq _ _ (l - k)). lia. Qed.

Lemma u16_minus x x' y y' : u16 x = u16 x' -> u16 y = u16 y' -> u16 (x - y) = u16 (x' - y').
Proof. intros [k ->]%u16_inv [l ->]%u16_inv. apply (u16_eq _ _ (k - l)). lia. Qed.

Lemma u16_plus x x' n : u16 x = u16 x' -> u16 (x + n) = u16 (x' + n).
Proof. intros [k ->]%u16_inv. apply (u16_eq _ _ k). lia. Qed.

#[local] Arguments count : simpl nomatch.

Section Steps.
Context (a : arch) (at_back at_front : engine) (np nc pb N start : Z).
Hypothesis Hlo : layout_ok np nc pb N start.

Abbreviation inv := (inv at_back at_front np nc pb N start).
Abbreviation quiet := (quiet at_back at_front).
Abbreviation stream_ok := (stream_ok at_back at_front np nc pb N start).
Abbreviation occur := (occur a at_back at_front np nc pb).

(** ** The tests *)

(** Where 32 bits are compared, the counter of pages received has not wrapped. *)
Definition narrow (P : Z) : Prop := at_back = Compute -> a <> Grayskull -> P < 2 ^ 16.

Lemma divisor_le n : 0 < n -> (n | N) -> n <= N.
Proof using Hlo. intros Hn Hd. apply Z.divide_pos_le; [|done]. by destruct Hlo as [[]]. Qed.

Lemma reserved_exact s P C Rv Av W : quiet s -> inv s P C Rv Av W -> writing s = None -> narrow P ->
  (reserved a at_back np s = true <-> P + np <= Av + N).
Proof using Hlo.
  intros [Hq _] [(_ & _ & HN) _ [Hc _] _ Hw _ [Hr Ha] Hp Hu Ho _ _] Hwr Hnar. rewrite Hwr in *. cbn in *. destruct Hlo as [HNb [Hnp Hd] _ _ _ _]. pose proof (divisor_le np Hnp Hd).
  pose proof (trail_le _ _ _ _ _ _ _ Hp). pose proof (trail_le _ _ _ _ _ _ _ Hu). unfold narrow in Hnar. unfold reserved. destruct at_back.
  - rewrite (Hq eq_refl) in Hp. destruct Hp as [_ ->]. unfold cb_reserve_back_done, free_space_pages. rewrite HN, (u16_diff N _ P _ Av) by (rewrite ?u16_u16; done).
    rewrite u16_small by lia. rewrite negb_true_iff, Z.ltb_ge. lia.
  - unfold llk_wait_for_free_tiles_done. rewrite HN, (Hc eq_refl). rewrite negb_true_iff, Z.ltb_ge.
    assert (forall z, z = N - (P - Av) -> i32 z = N - (P - Av)) as Hi by (intros z ->; rewrite i32_small by lia; lia).
    destruct a; [|specialize (Hnar eq_refl ltac:(done)); rewrite Ha, (u16_small P), (u16_small Av), u32_small, Hi by lia; lia..].
    rewrite (u16_diff N _ P _ Av) by (rewrite ?u16_u16; done). rewrite u16_small, Hi by lia. lia.
Qed.

Lemma waited_exact s P C Rv Av W : quiet s -> inv s P C Rv Av W -> reading s = None -> (waited at_front nc s = true <-> C + nc <= Rv).
Proof using Hlo.
  intros [_ Hq] [_ _ [_ Hc] _ Hw _ [Hr Ha] Hp Hu Ho _ _] Hrd. rewrite Hrd in *. cbn in *. destruct Hlo as [HNb _ [Hnc Hd] _ _ _]. pose proof (divisor_le nc Hnc Hd).
  pose proof (trail_le _ _ _ _ _ _ _ Hu). pose proof (trail_le _ _ _ _ _ _ _ Hp). unfold waited. destruct at_front.
  - rewrite (Hq eq_refl) in Hu. destruct Hu as [_ ->]. unfold cb_wait_front_done, pages_available. rewrite (u16_minus _ Rv _ C) by (rewrite ?u16_u16; done).
    rewrite u16_small by lia. rewrite negb_true_iff, Z.ltb_ge. lia.
  - unfold llk_wait_tiles_done. rewrite (Hc eq_refl), (u16_minus _ Rv _ C) by (rewrite ?u16_u16; done). rewrite !u16_small by lia. rewrite negb_true_iff, Z.ltb_ge. lia.
Qed.
(** ** What the packer and the unpacker do *)

Lemma packer_ok s P C Rv Av W x l high : inv s P C Rv Av W -> to_packer s = x :: l ->
  exists Rv' W', inv (perform a pb high x (set_issued l (to_unpacker s) s)) P C Rv' Av W'.
Proof using Hlo.
  intros [H1 H2 H3 H4 H5 H6 [Hr Ha] Hp Hu Ho Hm Hout] Hx. rewrite Hx in Hp. pose proof (trail_le _ _ _ _ _ _ _ Hu). cbn [trail] in Hp.
  destruct Hp as [[(page & HW & -> & Hpage & Hlen) Hp]|(R' & -> & HR & Hp)]; pose proof (trail_le _ _ _ _ _ _ _ Hp).
  - exists Rv, (W + 1). split; try done; cbn in *; [lia|]. intros i Hi. destruct (Z.eq_dec i W) as [->|Hne].
    + exists page. split; [done|]. rewrite <- Hlen. apply read_write_mem.
    + destruct (Hm i ltac:(lia)) as (page' & Hin & Hread). exists page'. split; [done|]. rewrite <- Hread. apply read_mem_ext. intros j Hj. apply write_mem_out. rewrite Hlen.
      destruct (page_slots_apart np nc pb N start Hlo i W); lia.
  - exists R', W. destruct H6 as [H6 H7]. split; try done; cbn in *.
    + split; [done|]. intros Hs. specialize (H7 Hs). lia.
    + by rewrite u16_reg_store, u16_high, u16_u16.
    + lia.
Qed.

Lemma unpacker_ok s P C Rv Av W x l high : inv s P C Rv Av W -> to_unpacker s = x :: l ->
  exists Av', inv (perform a pb high x (set_issued (to_packer s) l s)) P C Rv Av' W.
Proof using Hlo.
  intros [H1 H2 H3 H4 H5 H6 [Hr Ha] Hp Hu Ho Hm Hout] Hx. rewrite Hx in Hu. pose proof (trail_le _ _ _ _ _ _ _ Hp). cbn [trail] in Hu.
  destruct Hu as [[Hd Hu]|(R' & -> & HR & Hu)]; [unfold data_out in Hd; subst x|]; pose proof (trail_le _ _ _ _ _ _ _ Hu).
  - exists Av. destruct (Hm (Z.of_nat (length (output s))) ltac:(lia)) as (page & Hin & Hread). rewrite Nat2Z.id in Hin.
    split; try done; cbn in *; rewrite ?length_app, ?Nat2Z.inj_add; cbn; try (done || lia).
    + intros i Hi. apply Hm. lia.
    + rewrite Nat.add_1_r, (take_S_r _ _ page) by done. by rewrite <- Hout, Hread.
  - exists R'. destruct H5 as (H5 & H7 & H8). split; try done; cbn in *.
    + split_and!; [lia|lia|done|]. intros Hs. specialize (H8 Hs). lia.
    + split; [done|]. by rewrite u16_reg_store, u16_high, u16_u16.
    + lia.
Qed.

(** What data movement does at once is issued and done. *)
Lemma at_once_packer x s : to_packer s = [] -> perform a pb 0 x s = perform a pb 0 x (set_issued [] (to_unpacker s) (set_issued [x] (to_unpacker s) s)).
Proof using. destruct s; cbn. intros ->. by destruct x. Qed.
Lemma at_once_unpacker x s : to_unpacker s = [] -> perform a pb 0 x s = perform a pb 0 x (set_issued (to_packer s) [] (set_issued (to_packer s) [x] s)).
Proof using. destruct s; cbn. intros ->. by destruct x. Qed.

(** ** The pointers *)

Lemma advance e n P c ptr : 0 < n -> (n | N) -> (n | P) -> end_ok pb N start e c -> ptr = su start e + (P mod N) * pu pb e ->
  let p := u32 (ptr + u32 (n * fifo_page_size c)) in
  (p <=? fifo_limit c) = true /\
  (if p =? fifo_limit c then u32 (p - fifo_size c) else p) = su start e + ((P + n) mod N) * pu pb e /\
  (if fifo_limit c <=? p then u32 (p - fifo_size c) else p) = su start e + ((P + n) mod N) * pu pb e.
Proof using Hlo.
  intros Hn Hd HP (Hs & Hl & Hps) ->. destruct (block_fits np nc pb N start Hlo n P Hn Hd HP). destruct (units np nc pb N start Hlo e) as (_ & _ & H3 & H4 & H5). pose proof (divisor_le n Hn Hd).
  rewrite Hs, Hl, Hps. destruct Hlo as [HNb _ _ _ _ _]. rewrite (u32_small (n * pu pb e)) by nia. cbv zeta. rewrite u32_small by nia. rewrite ring_mod by lia. split; [apply Z.leb_le; nia|].
  destruct (Z.eqb_spec (su start e + P mod N * pu pb e + n * pu pb e) (su start e + N * pu pb e)) as [E|E].
  - rewrite (proj2 (Z.leb_le _ _)) by lia. assert (P mod N + n = N) as E' by nia. rewrite E', Z.ltb_irrefl, u32_small by nia. split; nia.
  - rewrite (proj2 (Z.leb_gt _ _)) by nia. assert (P mod N + n <> N) as E' by nia. rewrite (proj2 (Z.ltb_lt _ _)) by lia. split; nia.
Qed.

(** ** The producer *)

Lemma reserve_ok s P C Rv Av W : quiet s -> inv s P C Rv Av W -> narrow P -> writing s = None -> reserved a at_back np s = true ->
  inv (set_writing (Some 0) [] s) P C Rv Av W.
Proof using Hlo.
  intros Hq H Hnar Hw Hr. apply (reserved_exact s P C Rv Av W Hq H Hw Hnar) in Hr. destruct H as [H1 H2 H3 H4 H5 H6 H7 Hp Hu Ho Hm Hout]. rewrite Hw in *. cbn [count] in *.
  destruct Hlo as [_ [Hnp _] _ _ _ _]. split; try done; cbn; rewrite ?app_nil_r; try done. split_and!; [lia|lia|lia|done].
Qed.

Lemma write_page_ok s P C Rv Av W i page : inv s P C Rv Av W -> writing s = Some i -> i < np -> Z.of_nat (length page) = pb ->
  inv (set_issued (to_packer s ++ [Pack (page_addr at_back (fifo_wr_ptr (producer s)) i (fifo_page_size (producer s))) page]) (to_unpacker s) (set_writing (Some (i + 1)) [page] s)) P C Rv Av W.
Proof using Hlo.
  intros [H1 H2 H3 [HP HC] H5 H6 H7 Hp Hu Ho Hm Hout] Hw Hi Hlen. rewrite Hw in *. cbn [count] in *. destruct H1 as ((Hs & Hl & Hps) & Hptr & HN). destruct H5 as (Hi0 & Hin & Hroom). specialize (Hroom ltac:(done)).
  destruct Hlo as [_ [Hnp Hd] _ _ _ _]. rewrite Hps, Hptr, (page_addr_slot np nc pb N start Hlo at_back np P i Hnp Hd HP ltac:(lia)). pose proof (trail_le _ _ _ _ _ _ _ Hp). pose proof (trail_le _ _ _ _ _ _ _ Hu).
  split; try done; cbn.
  - rewrite length_app. cbn. split_and!; [lia|lia|lia|done].
  - rewrite Z.add_assoc. apply trail_data.
    + eapply trail_impl; [|exact Hp]. intros j x (page' & Hj & -> & Hl' & Hlen'). exists page'. split_and!; [done|done|by apply lookup_app_l_Some|done].
    + exists page. split_and!; [lia|done| |done]. replace (Z.to_nat (P + i)) with (length (input s)) by lia. by apply list_lookup_middle.
  - lia.
  - intros j Hj. destruct (Hm j Hj) as (page' & Hl' & Hr). exists page'. split; [by apply lookup_app_l_Some|done].
  - rewrite take_app_le by lia. done.
Qed.

Lemma push_issued_ok s P C Rv Av W c n : inv s P C Rv Av W -> writing s = Some np -> at_back = Compute -> llk_push_tiles np (producer s) = (c, n) ->
  inv (set_issued (to_packer s ++ [StoreReceived n]) (to_unpacker s) (set_ends (regs s) c (consumer s) (set_writing None [] s))) (P + np) C Rv Av W.
Proof using Hlo.
  intros [H1 H2 [H3 H3'] [HP HC] H5 H6 H7 Hp Hu Ho Hm Hout] Hw Hc. rewrite Hw in *. cbn [count] in *. destruct H1 as (Hend & Hptr & HN). destruct H5 as (Hi0 & Hin & Hroom). specialize (Hroom ltac:(done)).
  destruct Hlo as [_ [Hnp Hd] _ _ _ _]. destruct (advance at_back np P (producer s) _ Hnp Hd HP Hend Hptr) as (_ & _ & Hwr). intros [= <- <-]. rewrite (H3 Hc), u16_add_l in *.
  pose proof (trail_le _ _ _ _ _ _ _ Hp). split; try done; cbn; rewrite ?app_nil_r; try done.
  - split; [by apply Z.divide_add_r; [|apply Z.divide_refl]|done].
  - split_and!; [lia|lia|lia|]. by intros [? ?].
  - rewrite Z.add_0_r. apply (trail_store _ (fun R => StoreReceived (u16 R)) _ _ _ _ P); [done|lia].
  - lia.
Qed.

Lemma push_back_ok s P C Rv Av W : quiet s -> inv s P C Rv Av W -> writing s = Some np -> at_back = DataMovement ->
  exists c r, cb_push_back a np (producer s) (regs s) = Ok (c, r) /\ inv (set_ends r c (consumer s) (set_writing None [] s)) (P + np) C (P + np) Av W.
Proof using Hlo.
  intros [Hq _] [H1 H2 [H3 H3'] [HP HC] H5 H6 [Hr Ha] Hp Hu Ho Hm Hout] Hw Hc. rewrite Hw in *. cbn [count] in *. destruct H1 as (Hend & Hptr & HN). destruct H5 as (Hi0 & Hin & Hroom). specialize (Hroom ltac:(done)).
  destruct Hlo as [_ [Hnp Hd] _ _ _ _]. destruct (advance at_back np P (producer s) _ Hnp Hd HP Hend Hptr) as (Hle & Hwr & _). unfold cb_push_back. cbv zeta. rewrite Hle. cbn [check mbind res_bind]. eexists _, _. split; [reflexivity|].
  rewrite (Hq Hc) in *. destruct Hp as [-> ->]. split; try done; cbn; rewrite ?app_nil_r, ?(Hq Hc); try done.
  - split; [by rewrite Hc|done].
  - split; [by apply Z.divide_add_r; [|apply Z.divide_refl]|done].
  - split_and!; [lia|lia|lia|]. by intros [? ?].
  - split; [lia|]. destruct H6 as [_ H6]. intros Hs. specialize (H6 Hs). lia.
  - split; [|done]. rewrite u16_reg_store. by apply u16_plus.
  - split; lia.
  - lia.
Qed.

(** ** The consumer *)

Lemma wait_ok s P C Rv Av W : quiet s -> inv s P C Rv Av W -> reading s = None -> waited at_front nc s = true -> inv (set_reading (Some 0) s) P C Rv Av W.
Proof using Hlo.
  intros Hq H Hw Hr. apply (waited_exact s P C Rv Av W Hq H Hw) in Hr. destruct H as [H1 H2 H3 H4 H5 H6 H7 Hp Hu Ho Hm Hout]. rewrite Hw in *. cbn [count] in *.
  destruct Hlo as [_ _ [Hnc _] _ _ _]. split; try done; cbn. split; [lia|done].
Qed.

Lemma read_page_ok s P C Rv Av W i : inv s P C Rv Av W -> reading s = Some i -> i < nc ->
  inv (set_issued (to_packer s) (to_unpacker s ++ [Unpack (page_addr at_front (fifo_rd_ptr (consumer s)) i (fifo_page_size (consumer s)))]) (set_reading (Some (i + 1)) s)) P C Rv Av W.
Proof using Hlo.
  intros [H1 H2 H3 [HP HC] H5 H6 H7 Hp Hu Ho Hm Hout] Hw Hi. rewrite Hw in *. cbn [count] in *. destruct H2 as ((Hs & Hl & Hps) & Hptr). destruct H6 as (Hi0 & Hav). specialize (Hav ltac:(done)).
  destruct Hlo as [_ _ [Hnc Hd] _ _ _]. rewrite Hps, Hptr, (page_addr_slot np nc pb N start Hlo at_front nc C i Hnc Hd HC ltac:(lia)). pose proof (trail_le _ _ _ _ _ _ _ Hp). pose proof (trail_le _ _ _ _ _ _ _ Hu).
  split; try done; cbn.
  - split; [lia|done].
  - rewrite Z.add_assoc. by apply trail_data.
  - lia.
Qed.

Lemma pop_issued_ok s P C Rv Av W c n : inv s P C Rv Av W -> reading s = Some nc -> at_front = Compute -> llk_pop_tiles nc (consumer s) = (c, n) ->
  inv (set_issued (to_packer s) (to_unpacker s ++ [StoreAcked n]) (set_ends (regs s) (producer s) c (set_reading None s))) P (C + nc) Rv Av W.
Proof using Hlo.
  intros [H1 H2 [H3 H3'] [HP HC] H5 H6 H7 Hp Hu Ho Hm Hout] Hw Hc. rewrite Hw in *. cbn [count] in *. destruct H2 as (Hend & Hptr). destruct H6 as (Hi0 & Hav). specialize (Hav ltac:(done)).
  destruct Hlo as [_ _ [Hnc Hd] _ _ _]. destruct (advance at_front nc C (consumer s) _ Hnc Hd HC Hend Hptr) as (_ & _ & Hwr). intros [= <- <-]. rewrite (H3' Hc), u16_add_l in *.
  pose proof (trail_le _ _ _ _ _ _ _ Hu). split; try done; cbn; rewrite ?app_nil_r; try done.
  - split; [done|by apply Z.divide_add_r; [|apply Z.divide_refl]].
  - split; [lia|]. by intros [? ?].
  - rewrite Z.add_0_r. apply (trail_store _ (fun R => StoreAcked (u16 R)) _ _ _ _ C); [done|lia].
  - lia.
Qed.

Lemma pop_ok s P C Rv Av W : quiet s -> inv s P C Rv Av W -> reading s = Some nc -> at_front = DataMovement ->
  exists c r, cb_pop_front a nc (consumer s) (regs s) = Ok (c, r) /\ inv (set_ends r (producer s) c (set_reading None s)) P (C + nc) Rv (C + nc) W.
Proof using Hlo.
  intros [_ Hq] [H1 H2 [H3 H3'] [HP HC] H5 H6 [Hr Ha] Hp Hu Ho Hm Hout] Hw Hc. rewrite Hw in *. cbn [count] in *. destruct H2 as (Hend & Hptr). destruct H6 as (Hi0 & Hav). specialize (Hav ltac:(done)).
  destruct Hlo as [_ _ [Hnc Hd] _ _ _]. destruct (advance at_front nc C (consumer s) _ Hnc Hd HC Hend Hptr) as (Hle & Hwr & _). unfold cb_pop_front. cbv zeta. rewrite Hle. cbn [check mbind res_bind]. eexists _, _. split; [reflexivity|].
  rewrite (Hq Hc) in *. destruct Hu as [HU ->]. split; try done; cbn; rewrite ?app_nil_r, ?(Hq Hc); try done.
  - split; [done|by rewrite Hc].
  - split; [done|by apply Z.divide_add_r; [|apply Z.divide_refl]].
  - destruct H5 as (H5 & H6 & H7). split_and!; [lia|lia|lia|]. intros Hs. specialize (H7 Hs). lia.
  - split; [lia|]. by intros [? ?].
  - split; [done|]. rewrite u16_reg_store. by apply u16_plus.
  - split; lia.
  - lia.
Qed.

(** ** All events *)

Lemma engines (e : engine) : e = DataMovement \/ e = Compute.
Proof using. destruct e; auto. Qed.

Lemma issue_dm e x s : e = DataMovement -> issue a pb e x s = perform a pb 0 x s.
Proof using. by intros ->. Qed.
Lemma issue_compute e x s : e = Compute -> issue a pb e x s = match x with
  | Pack _ _ | StoreReceived _ => set_issued (to_packer s ++ [x]) (to_unpacker s) s
  | _ => set_issued (to_packer s) (to_unpacker s ++ [x]) s end.
Proof using. by intros ->. Qed.

Lemma issue_pack_ok addr page s P C Rv Av W : quiet s -> inv (set_issued (to_packer s ++ [Pack addr page]) (to_unpacker s) s) P C Rv Av W -> stream_ok (issue a pb at_back (Pack addr page) s).
Proof using Hlo.
  intros [Hq1 Hq2] H. destruct (engines at_back) as [E|E]; [rewrite issue_dm by done|rewrite issue_compute by done].
  - specialize (Hq1 E). rewrite at_once_packer by done. rewrite Hq1 in H. destruct (packer_ok _ P C Rv Av W (Pack addr page) [] 0 H eq_refl) as (Rv' & W' & H').
    split; [|by exists P, C, Rv', Av, W']. split; [done|exact Hq2].
  - split; [|by exists P, C, Rv, Av, W]. split; [by rewrite E|exact Hq2].
Qed.

Lemma issue_unpack_ok addr s P C Rv Av W : quiet s -> inv (set_issued (to_packer s) (to_unpacker s ++ [Unpack addr]) s) P C Rv Av W -> stream_ok (issue a pb at_front (Unpack addr) s).
Proof using Hlo.
  intros [Hq1 Hq2] H. destruct (engines at_front) as [E|E]; [rewrite issue_dm by done|rewrite issue_compute by done].
  - specialize (Hq2 E). rewrite at_once_unpacker by done. rewrite Hq2 in H. destruct (unpacker_ok _ P C Rv Av W (Unpack addr) [] 0 H eq_refl) as (Av' & H').
    split; [|by exists P, C, Rv, Av', W]. split; [exact Hq1|done].
  - split; [|by exists P, C, Rv, Av, W]. split; [exact Hq1|by rewrite E].
Qed.

Lemma stream_event_ok s ev r : stream_ok s -> (writing s = None -> narrow (Z.of_nat (length (input s)))) -> occur ev s = Some r -> exists s', r = Ok s' /\ stream_ok s'.
Proof using Hlo.
  intros [Hq (P & C & Rv & Av & W & H)] Hnar. destruct Hq as [Hq1 Hq2]. unfold occur.
  destruct ev as [|page| |high| | | |high].
  - destruct (writing s) eqn:Hw; [done|]. destruct (reserved _ _ _ s) eqn:Hr; [|done]. intros [= <-]. eexists. split; [reflexivity|]. split; [done|]. exists P, C, Rv, Av, W.
    apply reserve_ok; try done. destruct (i_writing _ _ _ _ _ _ _ _ _ _ _ _ _ H) as (_ & Hl & _). rewrite Hw in Hl. cbn [count] in Hl. specialize (Hnar eq_refl). by rewrite Hl, Z.add_0_r in Hnar.
  - destruct (writing s) as [i|] eqn:Hw; [|done]. destruct (Z.ltb_spec i np); [|done]. destruct (Z.eqb_spec (Z.of_nat (length page)) pb); [|done]. intros [= <-]. eexists. split; [reflexivity|].
    apply (issue_pack_ok _ _ _ P C Rv Av W); [done|]. by apply (write_page_ok s P C Rv Av W).
  - destruct (writing s) as [i|] eqn:Hw; [|done]. destruct (Z.eqb_spec i np) as [->|]; [|done]. intros Hr. destruct (engines at_back) as [E|E]; rewrite E in Hr; cbn [producer consumer regs set_writing set_reading] in Hr; revert Hr.
    + destruct (push_back_ok s P C Rv Av W) as (c & r' & -> & H'); [done..|]. intros [= <-]. eexists. split; [reflexivity|]. split; [done|]. by exists (P + np), C, (P + np), Av, W.
    + destruct (llk_push_tiles np (producer s)) as [c n] eqn:El. intros [= <-]. eexists. split; [reflexivity|]. split; [split; [by rewrite E|done]|]. exists (P + np), C, Rv, Av, W. by apply (push_issued_ok s P C Rv Av W).
  - destruct (to_packer s) as [|x l] eqn:Hx; [done|]. intros [= <-]. eexists. split; [reflexivity|]. destruct (packer_ok s P C Rv Av W x l high H Hx) as (Rv' & W' & H').
    split; [|by exists P, C, Rv', Av, W']. split; [intros E; by specialize (Hq1 E)|]. by destruct x.
  - destruct (reading s) eqn:Hw; [done|]. destruct (waited _ _ s) eqn:Hr; [|done]. intros [= <-]. eexists. split; [reflexivity|]. split; [done|]. exists P, C, Rv, Av, W. by apply wait_ok.
  - destruct (reading s) as [i|] eqn:Hw; [|done]. destruct (Z.ltb_spec i nc); [|done]. intros [= <-]. eexists. split; [reflexivity|].
    apply (issue_unpack_ok _ _ P C Rv Av W); [done|]. by apply (read_page_ok s P C Rv Av W).
  - destruct (reading s) as [i|] eqn:Hw; [|done]. destruct (Z.eqb_spec i nc) as [->|]; [|done]. intros Hr. destruct (engines at_front) as [E|E]; rewrite E in Hr; cbn [producer consumer regs set_writing set_reading] in Hr; revert Hr.
    + destruct (pop_ok s P C Rv Av W) as (c & r' & -> & H'); [done..|]. intros [= <-]. eexists. split; [reflexivity|]. split; [done|]. by exists P, (C + nc), Rv, (C + nc), W.
    + destruct (llk_pop_tiles nc (consumer s)) as [c n] eqn:El. intros [= <-]. eexists. split; [reflexivity|]. split; [split; [done|by rewrite E]|]. exists P, (C + nc), Rv, Av, W. by apply (pop_issued_ok s P C Rv Av W).
  - destruct (to_unpacker s) as [|x l] eqn:Hx; [done|]. intros [= <-]. eexists. split; [reflexivity|]. destruct (unpacker_ok s P C Rv Av W x l high H Hx) as (Av' & H').
    split; [|by exists P, C, Rv, Av', W]. split; [|intros E; by specialize (Hq2 E)]. by destruct x.
Qed.
End Steps.
