(* ===== verification/DeviceCBProps.v ===== *)
(** * Circular buffers on a core: the properties *)

From Stdlib Require Import Lia.
From S2P Require Import Prelude Memory CircularBuffer DeviceCB DeviceCBInv DeviceCBSteps.

Section Props.
Context (a : arch) (at_back at_front : engine) (np nc pb N start : Z).
Hypothesis Hlo : layout_ok np nc pb N start.
Context (config mem : Z -> Z) (c0 c1 : LocalCBInterface).
Hypothesis Hconfig : config 0 = start /\ config 1 = N * pb /\ config 2 = N /\ config 3 = pb.

Abbreviation runs := (runs a at_back at_front np nc pb config mem c0 c1).
Abbreviation occur := (occur a at_back at_front np nc pb).
Abbreviation stream_ok := (stream_ok at_back at_front np nc pb N start).

Lemma new_ok : stream_ok (new_stream at_back at_front config mem c0 c1).
Proof using Hlo Hconfig.
  destruct Hconfig as (E0 & E1 & E2 & E3). split; [done|]. exists 0, 0, 0, 0, 0. pose proof (units np nc pb N start Hlo at_back) as (_ & _ & B1 & B2 & B3). pose proof (units np nc pb N start Hlo at_front) as (_ & _ & F1 & F2 & F3).
  destruct Hlo as [HN [Hnp Hdp] [Hnc Hdc] [Hpb [p Hp]] [Hs [q Hq]] Hl].
  assert (forall e, Z.shiftr (config 0) (cb_addr_shift e) = su start e /\ Z.shiftr (config 1) (cb_addr_shift e) = N * pu pb e /\ Z.shiftr (config 3) (cb_addr_shift e) = pu pb e) as Hsh.
  { intros e. rewrite E0, E1, E3. unfold su, pu. destruct e; cbn [unit cb_addr_shift]; rewrite ?Z.shiftr_0_r, ?Z.div_1_r; [done|]. rewrite !Z.shiftr_div_pow2 by lia. change (2 ^ 4) with 16. split_and!; try done.
    rewrite Hp, Z.mul_assoc, !Z.div_mul by lia. done. }
  split; try done; cbn; rewrite ?Z.mod_0_l by lia; try (lia || done).
  - unfold end_ok. cbn. destruct (Hsh at_back) as (-> & -> & ->). rewrite u32_small by nia. rewrite E2. split_and!; try done. destruct at_back; lia.
  - unfold end_ok. cbn. destruct (Hsh at_front) as (-> & -> & ->). rewrite u32_small by nia. split_and!; try done. lia.
  - split; apply Z.divide_0_r.
  - split_and!; [lia|lia|lia|]. by intros [? ?].
  - split; [lia|]. by intros [? ?].
Qed.

Lemma occur_input ev s s' : occur ev s = Some (Ok s') -> exists pages, input s' = input s ++ pages.
Proof using.
  assert (forall e x t, input (issue a pb e x t) = input t) as Hissue by (intros [] [] t; done). assert (forall h x t, input (perform a pb h x t) = input t) as Hperform by (by intros h [] t).
  unfold DeviceCB.occur. destruct ev as [|page| |high| | | |high].
  - destruct (writing s); [done|]. destruct (reserved _ _ _ s); [|done]. intros [= <-]. by exists [].
  - destruct (writing s); [|done]. destruct (_ && _); [|done]. intros [= <-]. exists [page]. by rewrite Hissue.
  - destruct (writing s); [|done]. destruct (_ =? _); [|done]. exists []. revert H. destruct at_back; [|by intros [= <-]]. destruct (cb_push_back _ _ _ _) as [[c r]|]; [|done]. by intros [= <-].
  - destruct (to_packer s); [done|]. intros [= <-]. exists []. by rewrite Hperform, app_nil_r.
  - destruct (reading s); [done|]. destruct (waited _ _ s); [|done]. intros [= <-]. exists []. by rewrite app_nil_r.
  - destruct (reading s); [|done]. destruct (_ <? _); [|done]. intros [= <-]. exists []. by rewrite Hissue, app_nil_r.
  - destruct (reading s); [|done]. destruct (_ =? _); [|done]. exists []. rewrite app_nil_r. revert H. destruct at_front; [|by intros [= <-]]. destruct (cb_pop_front _ _ _ _) as [[c r]|]; [|done]. by intros [= <-].
  - destruct (to_unpacker s); [done|]. intros [= <-]. exists []. by rewrite Hperform, app_nil_r.
Qed.

(** The 16 bits that a compute kernel counts in have not wrapped, where it compares more. *)
Definition not_wrapped (s : Stream) : Prop := at_back = Compute -> a <> Grayskull -> Z.of_nat (length (input s)) < 2 ^ 16.

Lemma runs_ok s : runs s -> not_wrapped s -> stream_ok s.
Proof using Hlo Hconfig.
  induction 1 as [|s ev s' _ IH E]; intros Hn; [apply new_ok|]. destruct (occur_input ev s s' E) as [pages Hp].
  assert (not_wrapped s) as Hn' by (intros H1 H2; specialize (Hn H1 H2); rewrite Hp, length_app in Hn; lia).
  destruct (stream_event_ok a at_back at_front np nc pb N start Hlo s ev (Ok s') (IH Hn') ltac:(intros _; exact Hn') E) as (s'' & [= <-] & H). done.
Qed.

(** C5: A circular buffer delivers its pages in order.  For data movement and compute
    kernels at either end, in any interleaving of the two, the packer and the unpacker,
    with blocks that divide the number of pages, what has been read is the first pages
    written, no more than the circular buffer's pages are unread, and no assertion fails;
    on Wormhole and Blackhole behind a compute kernel, of the first 2^16 pages. *)
Theorem circular_buffer_in_order s : runs s -> not_wrapped s ->
  output s = take (length (output s)) (input s) /\ Z.of_nat (length (input s)) <= Z.of_nat (length (output s)) + N /\
  forall ev e, occur ev s <> Some (Err e).
Proof using Hlo Hconfig.
  intros Hr Hn. pose proof (runs_ok s Hr Hn) as Hs. pose proof Hs as [_ (P & C & Rv & Av & W & H)]. split; [exact (i_output _ _ _ _ _ _ _ _ _ _ _ _ _ H)|]. split.
  - pose proof (i_order _ _ _ _ _ _ _ _ _ _ _ _ _ H) as Ho. destruct (i_writing _ _ _ _ _ _ _ _ _ _ _ _ _ H) as (_ & Hl & _). lia.
  - intros ev e He. destruct (stream_event_ok a at_back at_front np nc pb N start Hlo s ev (Err e) Hs ltac:(intros _; exact Hn) He) as (s' & Hs' & _). done.
Qed.

Lemma one_can_go P C : (np | P) -> (nc | C) -> C <= P -> P + np <= C + N \/ C + nc <= P.
Proof using Hlo.
  destruct Hlo as [HN [Hnp [x Hx]] [Hnc [y Hy]] _ _ _]. intros [p Hp] [q Hq] Hle.
  destruct (Z.le_gt_cases (P + np) (C + N)); [by left|]. right. destruct (Z.le_gt_cases (C + nc) P); [done|]. exfalso.
  assert (0 < x /\ 0 < y) as [Hx0 Hy0] by nia. destruct (Z.eq_dec x 1) as [->|Hx1].
  - assert (P - C = nc * (y * p - q)) as E by (rewrite Hp, Hq; replace np with (y * nc) by lia; ring). revert E. generalize (y * p - q). intros t E. assert (0 < t < 1) by nia. lia.
  - destruct (Z.eq_dec y 1) as [->|Hy1].
    + assert (P - C = np * (p - x * q)) as E by (rewrite Hp, Hq; replace nc with (x * np) by lia; ring). revert E. generalize (p - x * q). intros t E. assert (x - 1 < t < x) by nia. lia.
    + assert (2 * np <= N /\ 2 * nc <= N) by nia. lia.
Qed.

(** C6: The two ends never wait for each other: in every reachable state some event can
    happen, also when blocks of different sizes are written and read. *)
Theorem circular_buffer_never_stuck s : runs s -> not_wrapped s -> exists ev s', occur ev s = Some (Ok s').
Proof using Hlo Hconfig.
  intros Hr Hn. pose proof (runs_ok s Hr Hn) as Hs.
  assert (forall ev, occur ev s <> None -> exists ev s', occur ev s = Some (Ok s')) as Hgo.
  { intros ev Hev. destruct (occur ev s) as [r|] eqn:E; [|done]. destruct (stream_event_ok a at_back at_front np nc pb N start Hlo s ev r Hs ltac:(intros _; exact Hn) E) as (s' & -> & _). eauto. }
  destruct Hs as [Hq (P & C & Rv & Av & W & H)]. destruct (to_packer s) as [|x l] eqn:Ep; [|apply (Hgo (Packer 0)); unfold DeviceCB.occur; by rewrite Ep].
  destruct (to_unpacker s) as [|x l] eqn:Eu; [|apply (Hgo (Unpacker 0)); unfold DeviceCB.occur; by rewrite Eu].
  destruct (i_writing _ _ _ _ _ _ _ _ _ _ _ _ _ H) as (Hw & Hl & Hroom). destruct (i_reading _ _ _ _ _ _ _ _ _ _ _ _ _ H) as (Hrd & Hav).
  destruct (writing s) as [i|] eqn:Ew.
  - cbn [count] in Hw. destruct (Z.eq_dec i np) as [->|Hi].
    + apply (Hgo Push). unfold DeviceCB.occur. rewrite Ew, Z.eqb_refl. destruct at_back; [done|]. by destruct (llk_push_tiles _ _).
    + apply (Hgo (WritePage (replicate (Z.to_nat pb) 0))). unfold DeviceCB.occur. rewrite Ew, length_replicate. destruct (lo_page _ _ _ _ _ Hlo) as [Hpb _]. rewrite Z2Nat.id, Z.eqb_refl, (proj2 (Z.ltb_lt _ _)) by lia. done.
  - destruct (reading s) as [i|] eqn:Er.
    + cbn [count] in Hrd. destruct (Z.eq_dec i nc) as [->|Hi].
      * apply (Hgo Pop). unfold DeviceCB.occur. rewrite Er, Z.eqb_refl. destruct at_front; [done|]. by destruct (llk_pop_tiles _ _).
      * apply (Hgo ReadPage). unfold DeviceCB.occur. rewrite Er, (proj2 (Z.ltb_lt _ _)) by lia. done.
    + pose proof (i_packs _ _ _ _ _ _ _ _ _ _ _ _ _ H) as Hp. rewrite Ep, Ew in Hp. destruct Hp as [HW ->]. pose proof (i_unpacks _ _ _ _ _ _ _ _ _ _ _ _ _ H) as Hu. rewrite Eu, Er in Hu. destruct Hu as [HU ->].
      cbn [count] in *. pose proof (i_order _ _ _ _ _ _ _ _ _ _ _ _ _ H) as Ho. rewrite Er in Ho. cbn [count] in Ho. destruct (i_blocks _ _ _ _ _ _ _ _ _ _ _ _ _ H) as [HP HC].
      destruct (one_can_go P C HP HC ltac:(lia)) as [Hgo'|Hgo'].
      * apply (Hgo Reserve). unfold DeviceCB.occur. rewrite Ew. rewrite (proj2 (reserved_exact a at_back at_front np nc pb N start Hlo s P C P C W Hq H Ew ltac:(intros H1 H2; specialize (Hn H1 H2); lia))) by lia. done.
      * apply (Hgo Wait). unfold DeviceCB.occur. rewrite Er. rewrite (proj2 (waited_exact at_back at_front np nc pb N start Hlo s P C P C W Hq H Er)) by lia. done.
Qed.
End Props.

(** ** A compute kernel behind which the counter wraps *)

(** Two pages of 16 bytes at 1024, one at a time, read by data movement. *)
Definition demo_words (i : Z) : Z := nth (Z.to_nat i) [1024; 32; 2; 16] 0.
Definition no_interface : LocalCBInterface := mkLocalCB 0 0 0 0 0 0 0 0 0.
Definition page_of (x : Z) : list Z := replicate 16 x.

Lemma demo_layout : layout_ok 1 1 16 2 1024.
Proof. split; try lia; (split; [lia|]); [by exists 2|by exists 2|by exists 1|by exists 64]. Qed.

Section Wrap.
Context (mem0 : Z -> Z).
Abbreviation runs := (runs Wormhole Compute DataMovement 1 1 16 demo_words mem0 no_interface no_interface).
Abbreviation occur := (occur Wormhole Compute DataMovement 1 1 16).

Definition demo_stream (received_if received_reg acked_reg : Z) (m : Z -> Z) (wr rd : Z) (w r : option Z) (tp : list access) (inp out : list (list Z)) : Stream :=
  mkStream (mkRegs received_reg acked_reg) m (mkLocalCB 2 66 1 2 0 wr 0 received_if 0) (mkLocalCB 32 1056 16 2 rd 1024 0 0 0) w r tp [] inp out.

Lemma demo_event s ev s' : runs s -> occur ev s = Some (Ok s') -> runs s'.
Proof. apply runs_event. Qed.

Definition next_slot (b : Z) : Z := 1 - b.

(** Writing a page that finds room. *)
Lemma demo_write v n reg ack m b c r inp out :
  b = 0 \/ b = 1 -> (1 <=? i32 (u32 (2 - (n - u16 ack)))) = true ->
  runs (demo_stream n reg ack m (64 + b) c None r [] inp out) ->
  runs (demo_stream (u16 (n + 1)) (u16 (n + 1)) ack (write_mem (1024 + 16 * b) (page_of v) m) (64 + next_slot b) c None r [] (inp ++ [page_of v]) out).
Proof.
  intros Hb Hroom H.
  apply (demo_event _ Reserve (demo_stream n reg ack m (64 + b) c (Some 0) r [] inp out)) in H.
  2: { unfold DeviceCB.occur, reserved, llk_wait_for_free_tiles_done. cbn [writing demo_stream regs producer fifo_num_pages tiles_received acked]. rewrite <- Z.leb_antisym, Hroom. unfold set_writing, demo_stream. cbn. by rewrite app_nil_r. }
  apply (demo_event _ (WritePage (page_of v)) (demo_stream n reg ack m (64 + b) c (Some 1) r [Pack (1024 + 16 * b) (page_of v)] (inp ++ [page_of v]) out)) in H; [|by destruct Hb as [-> | ->]].
  apply (demo_event _ Push (demo_stream (u16 (n + 1)) reg ack m (64 + next_slot b) c None r [Pack (1024 + 16 * b) (page_of v); StoreReceived (u16 (n + 1))] (inp ++ [page_of v]) out)) in H; [|unfold DeviceCB.occur, set_writing, issue, set_issued, set_ends, demo_stream; destruct Hb as [-> | ->]; cbn; by rewrite app_nil_r].
  apply (demo_event _ (Packer 0) (demo_stream (u16 (n + 1)) reg ack (write_mem (1024 + 16 * b) (page_of v) m) (64 + next_slot b) c None r [StoreReceived (u16 (n + 1))] (inp ++ [page_of v]) out)) in H; [|done].
  apply (demo_event _ (Packer 0) (demo_stream (u16 (n + 1)) (reg_store Wormhole (u16 (n + 1))) ack (write_mem (1024 + 16 * b) (page_of v) m) (64 + next_slot b) c None r [] (inp ++ [page_of v]) out)) in H; [|done].
  unfold reg_store in H. rewrite Z.mod_small in H; [done|]. pose proof (u16_range (n + 1)). cbn. lia.
Qed.

(** Reading a page that is there. *)
Lemma demo_read n reg ack m wr b inp out :
  b = 0 \/ b = 1 -> (1 <=? u16 (u16 reg - ack)) = true -> 0 <= ack < 2 ^ 16 ->
  runs (demo_stream n reg ack m wr (1024 + 16 * b) None None [] inp out) ->
  runs (demo_stream n reg (ack + 1) m wr (1024 + 16 * next_slot b) None None [] inp (out ++ [read_mem m (1024 + 16 * b) 16])).
Proof.
  intros Hb Hav Hack H.
  apply (demo_event _ Wait (demo_stream n reg ack m wr (1024 + 16 * b) None (Some 0) [] inp out)) in H.
  2: { unfold DeviceCB.occur, waited, cb_wait_front_done, pages_available. cbn [reading demo_stream regs received acked]. rewrite <- Z.leb_antisym, Hav. done. }
  apply (demo_event _ ReadPage (demo_stream n reg ack m wr (1024 + 16 * b) None (Some 1) [] inp (out ++ [read_mem m (1024 + 16 * b) 16]))) in H; [|by destruct Hb as [-> | ->]].
  apply (demo_event _ Pop (demo_stream n reg (reg_store Wormhole (ack + 1)) m wr (1024 + 16 * next_slot b) None None [] inp (out ++ [read_mem m (1024 + 16 * b) 16]))) in H; [|by destruct Hb as [-> | ->]].
  unfold reg_store in H. rewrite Z.mod_small in H; [done|]. cbn. lia.
Qed.

Lemma read_page_of addr v m : read_mem (write_mem addr (page_of v) m) addr 16 = page_of v.
Proof. exact (read_write_mem addr (page_of v) m). Qed.

(** [n] pages written and read one after the other. *)
Lemma demo_laps (n : nat) : Z.of_nat n < 2 ^ 16 -> exists m l,
  length l = n /\ runs (demo_stream (Z.of_nat n) (Z.of_nat n) (Z.of_nat n) m (64 + Z.of_nat n mod 2) (1024 + 16 * (Z.of_nat n mod 2)) None None [] l l).
Proof.
  induction n as [|n IH]; intros Hn; [exists mem0, []; split; [done|]; exact (runs_new _ _ _ _ _ _ _ _ _ _)|]. destruct IH as (m & l & Hl & H); [lia|]. set (x := Z.of_nat n) in *.
  assert (Z.of_nat (S n) = x + 1) as -> by lia. assert (x mod 2 = 0 \/ x mod 2 = 1) as Hb by (pose proof (Z.mod_pos_bound x 2 ltac:(lia)); lia).
  assert ((x + 1) mod 2 = next_slot (x mod 2)) as -> by (unfold next_slot; rewrite (ring_mod x 1 2) by lia; destruct Hb as [-> | ->]; done).
  apply (demo_write 0) in H; [|done|rewrite (u16_small x), Z.sub_diag by lia; reflexivity]. rewrite (u16_small (x + 1)) in H by lia.
  apply demo_read in H; [|done|rewrite (u16_small (x + 1)) by lia; replace (x + 1 - x) with 1 by lia; reflexivity|lia].
  rewrite read_page_of in H. exists (write_mem (1024 + 16 * (x mod 2)) (page_of 0) m), (l ++ [page_of 0]). split; [|done]. rewrite length_app. cbn. lia.
Qed.
End Wrap.

(** C38: On Wormhole and Blackhole a compute kernel that has pushed 2^16 pages overwrites
    pages that are not read: [llk_wait_for_free_tiles] subtracts 16-bit counters in 32
    bits, so that once the pages received have wrapped and those acknowledged have not,
    it finds some 2^16 pages free where there are none.  Here the circular buffer holds
    two unread pages when a third is written over the first. *)
Theorem compute_producer_overruns :
  exists s, runs Wormhole Compute DataMovement 1 1 16 demo_words (fun _ => 0) no_interface no_interface s /\
    output s <> take (length (output s)) (input s).
Proof.
  destruct (demo_laps (fun _ => 0) (Z.to_nat 65534)) as (m & l & Hl & H); [lia|]. rewrite Z2Nat.id in H by lia.
  apply (demo_write _ 0) in H; [|by left|reflexivity]. change (u16 (65534 + 1)) with 65535 in H.
  apply (demo_write _ 0 _ _ _ _ 1) in H; [|by right|reflexivity]. change (u16 (65535 + 1)) with 0 in H.
  apply (demo_write _ 1 _ _ _ _ 0) in H; [|by left|reflexivity]. change (u16 (0 + 1)) with 1 in H.
  apply (demo_read _ _ _ _ _ _ 0) in H; [|by left|reflexivity|lia]. rewrite read_page_of in H.
  eexists. split; [exact H|]. cbn [output input demo_stream]. rewrite <- !app_assoc, length_app, take_app_add. intros E%app_inv_head. done.
Qed.

(** ** A run for the witnesses: blocks of two pages, read one at a time by a compute kernel *)

Definition ring_words (i : Z) : Z := nth (Z.to_nat i) [1024; 64; 4; 16] 0.

Lemma ring_layout : layout_ok 2 1 16 4 1024.
Proof. split; try lia; (split; [lia|]); [by exists 2|by exists 4|by exists 1|by exists 64]. Qed.

Definition ring_play (l : list event) (s : Stream) : option Stream :=
  fold_left (fun o ev => match o with Some s => match occur Grayskull Compute Compute 2 1 16 ev s with Some (Ok s') => Some s' | _ => None end | None => None end) l (Some s).

Definition ring_start : Stream := new_stream Compute Compute ring_words (fun _ => 0) no_interface no_interface.

Lemma ring_play_runs l s s' : runs Grayskull Compute Compute 2 1 16 ring_words (fun _ => 0) no_interface no_interface s -> ring_play l s = Some s' ->
  runs Grayskull Compute Compute 2 1 16 ring_words (fun _ => 0) no_interface no_interface s'.
Proof.
  unfold ring_play. revert s. induction l as [|ev l IH]; intros s Hs; cbn [fold_left]; [by intros [= <-]|]. destruct (occur _ _ _ _ _ _ ev s) as [[s1|e]|] eqn:E.
  - apply IH. by eapply runs_event.
  - intros H. exfalso. revert H. clear. by induction l.
  - intros H. exfalso. revert H. clear. by induction l.
Qed.

Definition ring_events : list event :=
  [Reserve; WritePage (page_of 1); WritePage (page_of 2); Push; Packer 0; Reserve; WritePage (page_of 3); Packer 0; Packer 7; Wait; ReadPage; Unpacker 0; Pop; WritePage (page_of 4); Packer 0; Push; Packer 0; Packer 1; Unpacker 5].

Definition ring_stream : Stream := default ring_start (ring_play ring_events ring_start).

Lemma ring_stream_runs : runs Grayskull Compute Compute 2 1 16 ring_words (fun _ => 0) no_interface no_interface ring_stream.
Proof.
  unfold ring_stream. destruct (ring_play ring_events ring_start) as [s|] eqn:E; [|apply runs_new]. by apply (ring_play_runs ring_events ring_start s); [apply runs_new|].
Qed.

Lemma circular_buffer_in_order_witness :
  input ring_stream = [page_of 1; page_of 2; page_of 3; page_of 4] /\ output ring_stream = take (length (output ring_stream)) (input ring_stream) /\ length (output ring_stream) = 1%nat.
Proof.
  split; [vm_compute; reflexivity|]. split; [|vm_compute; reflexivity].
  exact (proj1 (circular_buffer_in_order Grayskull Compute Compute 2 1 16 4 1024 ring_layout ring_words (fun _ => 0) no_interface no_interface ltac:(done) ring_stream ring_stream_runs ltac:(intros _ H; destruct (H eq_refl)))).
Defined.

Lemma circular_buffer_never_stuck_witness : exists ev s', occur Grayskull Compute Compute 2 1 16 ev ring_stream = Some (Ok s').
Proof.
  exact (circular_buffer_never_stuck Grayskull Compute Compute 2 1 16 4 1024 ring_layout ring_words (fun _ => 0) no_interface no_interface ltac:(done) ring_stream ring_stream_runs ltac:(intros _ H; destruct (H eq_refl))).
Defined.
