(* ===== verification/RemoteCB.v ===== *)
(** * Circular buffers between cores
    (tt_metal/hw/inc/remote_circular_buffer_api.h, circular_buffer.h,
    circular_buffer_init.h)

    A sender core writes pages into the L1 of receiver cores, around a ring that lies at
    the same addresses on each.  The counters of what was sent and acknowledged are words
    of L1, one pair for each receiver; [l1] gives the word at an address.  What a call
    adds to a counter of its own and, over the network, to the same counter of another
    core is a list of increments; the packets it writes are a list too. *)

From Stdlib Require Import Lia.
From S2P Require Import Prelude Memory DeviceCB.

Definition L1_ALIGNMENT : Z := 16.
Definition REMOTE_CIRCULAR_BUFFER_ALIGNED_PAGE_SIZE : Z := L1_ALIGNMENT.

(** tt_metal/hw/inc/utils/utils.h *)
Definition align (addr alignment : Z) : Z := u32 (Z.lor (u32 (addr - 1)) (u32 (alignment - 1)) + 1).

Record RemoteSenderCBInterface := mkSender {
  s_config_ptr : Z;
  s_fifo_start_addr : Z;
  s_fifo_limit_page_aligned : Z;
  s_fifo_page_size : Z;
  s_fifo_wr_ptr : Z;
  receiver_noc_xy_ptr : Z;
  aligned_pages_sent_ptr : Z;
  num_receivers : Z;
}.

Record RemoteReceiverCBInterface := mkReceiver {
  r_config_ptr : Z;
  r_fifo_start_addr : Z;
  r_fifo_limit_page_aligned : Z;
  r_fifo_page_size : Z;
  r_fifo_rd_ptr : Z;
  sender_noc_x : Z;
  sender_noc_y : Z;
  aligned_pages_acked_ptr : Z;
}.

(** An increment of the word at an address, here and on the other core. *)
Record increment := mkIncrement { inc_addr : Z; inc_by : Z }.

(** The counters of the [i]-th receiver. *)
Definition sent_addr (c : RemoteSenderCBInterface) (i : Z) : Z := aligned_pages_sent_ptr c + i * (2 * L1_ALIGNMENT).

(** ** Changing the page size *)

(** [update_remote_over_noc]: the increments for the pages that are skipped. *)
Definition resize_remote_sender_cb_interface (update_remote_over_noc : bool) (l1 : Z -> Z) (page_size : Z) (c : RemoteSenderCBInterface)
    : res (RemoteSenderCBInterface * list increment) :=
  check Undefined (negb (page_size =? 0));;
  check Assert (page_size mod REMOTE_CIRCULAR_BUFFER_ALIGNED_PAGE_SIZE =? 0);;
  let fifo_size := l1 (s_config_ptr c + 3 * 4) in
  let fifo_start_addr := s_fifo_start_addr c in
  let fifo_wr_ptr := s_fifo_wr_ptr c in
  let cb_size_page_aligned := u32 (fifo_size - fifo_size mod page_size) in
  let fifo_limit_page_aligned := u32 (fifo_start_addr + cb_size_page_aligned) in
  let next_fifo_wr_ptr := u32 (fifo_start_addr + align (u32 (fifo_wr_ptr - fifo_start_addr)) page_size) in
  let beyond := fifo_limit_page_aligned <? next_fifo_wr_ptr in
  let adjustment := u32 (next_fifo_wr_ptr - fifo_wr_ptr) / REMOTE_CIRCULAR_BUFFER_ALIGNED_PAGE_SIZE in
  mret (mkSender (s_config_ptr c) fifo_start_addr fifo_limit_page_aligned page_size (if beyond then fifo_start_addr else next_fifo_wr_ptr)
          (receiver_noc_xy_ptr c) (aligned_pages_sent_ptr c) (num_receivers c),
        if negb beyond && negb (next_fifo_wr_ptr =? fifo_wr_ptr) && update_remote_over_noc
        then map (fun i => mkIncrement (sent_addr c i) adjustment) (zrange 0 (num_receivers c)) else []).

Definition resize_remote_receiver_cb_interface (update_remote_over_noc : bool) (l1 : Z -> Z) (page_size : Z) (c : RemoteReceiverCBInterface)
    : res (RemoteReceiverCBInterface * list increment) :=
  check Undefined (negb (page_size =? 0));;
  check Assert (page_size mod REMOTE_CIRCULAR_BUFFER_ALIGNED_PAGE_SIZE =? 0);;
  let fifo_size := l1 (r_config_ptr c + 3 * 4) in
  let fifo_start_addr := r_fifo_start_addr c in
  let fifo_rd_ptr := r_fifo_rd_ptr c in
  let cb_size_page_aligned := u32 (fifo_size - fifo_size mod page_size) in
  let fifo_limit_page_aligned := u32 (fifo_start_addr + cb_size_page_aligned) in
  let next_fifo_rd_ptr := u32 (fifo_start_addr + align (u32 (fifo_rd_ptr - fifo_start_addr)) page_size) in
  let beyond := fifo_limit_page_aligned <? next_fifo_rd_ptr in
  let adjustment := u32 (next_fifo_rd_ptr - fifo_rd_ptr) / REMOTE_CIRCULAR_BUFFER_ALIGNED_PAGE_SIZE in
  mret (mkReceiver (r_config_ptr c) fifo_start_addr fifo_limit_page_aligned page_size (if beyond then fifo_start_addr else next_fifo_rd_ptr)
          (sender_noc_x c) (sender_noc_y c) (aligned_pages_acked_ptr c),
        if negb beyond && negb (next_fifo_rd_ptr =? fifo_rd_ptr) && update_remote_over_noc
        then [mkIncrement (aligned_pages_acked_ptr c) adjustment] else []).

(** ** Set-up: one turn of the loop, for the words of a configuration *)

Definition setup_remote_sender (update_remote_over_noc : bool) (l1 : Z -> Z) (config_addr page_size : Z) (c : RemoteSenderCBInterface) : res (RemoteSenderCBInterface * list increment) :=
  let word i := l1 (config_addr + i * 4) in
  resize_remote_sender_cb_interface update_remote_over_noc l1 page_size
    (mkSender config_addr (word 2) (s_fifo_limit_page_aligned c) (s_fifo_page_size c) (word 4) (word 5) (word 6) (word 1)).

Definition setup_remote_receiver (update_remote_over_noc : bool) (l1 : Z -> Z) (config_addr page_size : Z) (c : RemoteReceiverCBInterface) : res (RemoteReceiverCBInterface * list increment) :=
  let word i := l1 (config_addr + i * 4) in
  resize_remote_receiver_cb_interface update_remote_over_noc l1 page_size
    (mkReceiver config_addr (word 2) (r_fifo_limit_page_aligned c) (r_fifo_page_size c) (word 4) (l1 (word 5)) (l1 (word 5 + 4)) (u32 (word 6 + L1_ALIGNMENT))).

(** The pointer goes back to the configuration, for the next program. *)
Definition update_remote_cb_config_in_l1 (c : RemoteReceiverCBInterface) : Z * Z := (r_config_ptr c + 16, r_fifo_rd_ptr c).

(** ** The receiver *)

Definition remote_cb_wait_front_done (l1 : Z -> Z) (num_pages : Z) (c : RemoteReceiverCBInterface) : bool :=
  let len_bytes := u32 (num_pages * r_fifo_page_size c) in
  let num_pages_wait := len_bytes / REMOTE_CIRCULAR_BUFFER_ALIGNED_PAGE_SIZE in
  let pages_acked := l1 (aligned_pages_acked_ptr c) in
  let pages_sent := l1 (u32 (aligned_pages_acked_ptr c - L1_ALIGNMENT)) in
  let num_pages_recv := u32 (pages_sent - pages_acked) in
  negb (num_pages_recv <? num_pages_wait).

Definition remote_cb_pop_front (num_pages : Z) (c : RemoteReceiverCBInterface) : RemoteReceiverCBInterface * list increment :=
  let len_bytes := u32 (num_pages * r_fifo_page_size c) in
  let num_aligned_pages := len_bytes / REMOTE_CIRCULAR_BUFFER_ALIGNED_PAGE_SIZE in
  let rd := u32 (r_fifo_rd_ptr c + len_bytes) in
  (mkReceiver (r_config_ptr c) (r_fifo_start_addr c) (r_fifo_limit_page_aligned c) (r_fifo_page_size c)
     (if r_fifo_limit_page_aligned c <=? rd then r_fifo_start_addr c else rd) (sender_noc_x c) (sender_noc_y c) (aligned_pages_acked_ptr c),
   [mkIncrement (aligned_pages_acked_ptr c) num_aligned_pages]).

(** ** The sender *)

Definition free_pages (l1 : Z -> Z) (c : RemoteSenderCBInterface) (i : Z) : Z :=
  let fifo_aligned_num_pages := s_fifo_limit_page_aligned c / REMOTE_CIRCULAR_BUFFER_ALIGNED_PAGE_SIZE in
  let pages_acked := l1 (sent_addr c i + L1_ALIGNMENT) in
  let pages_sent := l1 (sent_addr c i) in
  u32 (fifo_aligned_num_pages - u32 (pages_sent - pages_acked)).

(** No receiver is waited for any more. *)
Definition remote_cb_reserve_back_done (l1 : Z -> Z) (num_pages : Z) (c : RemoteSenderCBInterface) : bool :=
  let len_bytes := u32 (num_pages * s_fifo_page_size c) in
  let num_pages_wait := len_bytes / REMOTE_CIRCULAR_BUFFER_ALIGNED_PAGE_SIZE in
  forallb (fun i => negb (free_pages l1 c i <? num_pages_wait)) (zrange 0 (num_receivers c)).

(** A packet to a receiver: where it is read here and written there. *)
Record packet := mkPacket { pkt_src : Z; pkt_dest : Z; pkt_len : Z }.

Section Push.
Context (c : RemoteSenderCBInterface) (coalesced_page_size : Z).

(** The innermost loop's turn, from a source and a destination. *)
Definition push_page (s : Z * Z) : (Z * Z) * list packet :=
  let '(src_addr, dest_addr) := s in
  if s_fifo_limit_page_aligned c <? u32 (dest_addr + coalesced_page_size) then
    let first_len_bytes := u32 (s_fifo_limit_page_aligned c - dest_addr) in
    let second_len_bytes := u32 (coalesced_page_size - first_len_bytes) in
    let first := if first_len_bytes =? 0 then [] else [mkPacket src_addr dest_addr first_len_bytes] in
    let src_addr := u32 (src_addr + first_len_bytes) in
    ((u32 (src_addr + second_len_bytes), u32 (s_fifo_start_addr c + second_len_bytes)), first ++ [mkPacket src_addr (s_fifo_start_addr c) second_len_bytes])
  else ((u32 (src_addr + coalesced_page_size), u32 (dest_addr + coalesced_page_size)), [mkPacket src_addr dest_addr coalesced_page_size]).

Fixpoint push_pages (n : nat) (s : Z * Z) : (Z * Z) * list packet :=
  match n with
  | O => (s, [])
  | S n => let '(s, l) := push_page s in let '(s, l') := push_pages n s in (s, l ++ l')
  end.

(** The rows of one receiver. *)
Fixpoint push_rows (num_rows : nat) (coalesced_num_pages_per_row : nat) (next_block_row_stride : Z) (src_addr dest_addr : Z) : Z * list packet :=
  match num_rows with
  | O => (dest_addr, [])
  | S n =>
      let '((_, dest_addr), l) := push_pages coalesced_num_pages_per_row (src_addr, dest_addr) in
      let '(dest_addr, l') := push_rows n coalesced_num_pages_per_row next_block_row_stride (u32 (src_addr + next_block_row_stride)) dest_addr in
      (dest_addr, l ++ l')
  end.

Definition push_receiver (local_cb_addr num_rows coalesced_num_pages_per_row : Z) (i : Z) : Z * list packet :=
  let next_receiver_start_addr_stride := u32 (coalesced_num_pages_per_row * coalesced_page_size) in
  let next_block_row_stride := u32 (next_receiver_start_addr_stride * num_receivers c) in
  push_rows (Z.to_nat num_rows) (Z.to_nat coalesced_num_pages_per_row) next_block_row_stride
    (u32 (local_cb_addr + u32 (i * next_receiver_start_addr_stride))) (s_fifo_wr_ptr c).
End Push.

(** The packets of each receiver, and the increments.  Without a receiver the new pointer
    is an uninitialised variable. *)
Definition remote_cb_push_back_and_write_pages (local_cb_addr num_pages num_rows coalesced_num_pages_per_row coalesced_page_size : Z) (c : RemoteSenderCBInterface)
    : res (RemoteSenderCBInterface * list (list packet) * list increment) :=
  let len_bytes := u32 (num_pages * s_fifo_page_size c) in
  let pages_sent := len_bytes / REMOTE_CIRCULAR_BUFFER_ALIGNED_PAGE_SIZE in
  check Undefined (0 <? num_receivers c);;
  let pushed := map (push_receiver c coalesced_page_size local_cb_addr num_rows coalesced_num_pages_per_row) (zrange 0 (num_receivers c)) in
  let dest_addr := default 0 (fst <$> last pushed) in
  mret (mkSender (s_config_ptr c) (s_fifo_start_addr c) (s_fifo_limit_page_aligned c) (s_fifo_page_size c) dest_addr (receiver_noc_xy_ptr c) (aligned_pages_sent_ptr c) (num_receivers c),
        map snd pushed, map (fun i => mkIncrement (sent_addr c i) pages_sent) (zrange 0 (num_receivers c))).

(** ** Local circular buffers over the ring *)

Definition align_local_cb_to_remote_cb (e : engine) (remote_cb : RemoteReceiverCBInterface) (local_cb : LocalCBInterface) : res LocalCBInterface :=
  let fifo_limit := Z.shiftr (r_fifo_limit_page_aligned remote_cb) (cb_addr_shift e) in
  let fifo_size := u32 (fifo_limit - Z.shiftr (r_fifo_start_addr remote_cb) (cb_addr_shift e)) in
  let fifo_ptr := Z.shiftr (r_fifo_rd_ptr remote_cb) (cb_addr_shift e) in
  check Undefined (negb (fifo_page_size local_cb =? 0));;
  check Assert (fifo_size mod fifo_page_size local_cb =? 0);;
  mret (mkLocalCB fifo_size fifo_limit (fifo_page_size local_cb) (fifo_size / fifo_page_size local_cb) fifo_ptr fifo_ptr
    (tiles_acked local_cb) (tiles_received local_cb) (fifo_wr_tile_ptr local_cb)).
