(* ===== verification/RemoteCBProps.v ===== *)
(** * Circular buffers between cores: lemmas and properties

    A block lands where the receiver reads it, and three ways in which the ends of a
    ring lose each other. *)

From Stdlib Require Import Lia.
From S2P Require Import Prelude Memory DeviceCB RemoteCB.

(** The packets are written from one core's memory to another's. *)
Definition deliver (src : Z -> Z) (l : list packet) (m : Z -> Z) : Z -> Z :=
  fold_left (fun m p => write_mem (pkt_dest p) (read_mem src (pkt_src p) (pkt_len p)) m) l m.

Lemma deliver_app src l l' m : deliver src (l ++ l') m = deliver src l' (deliver src l m).
Proof. apply fold_left_app. Qed.

Section Ring.
Context (start size : Z).
Hypotheses (Hstart : 0 <= start) (Hsize : 0 < size).

Definition ring_addr (o : Z) : Z := start + o mod size.

Lemma ring_addr_small o : 0 <= o < size -> ring_addr o = start + o.
Proof using. intros H. unfold ring_addr. by rewrite Z.mod_small. Qed.

Lemma ring_addr_wrap o : size <= o < 2 * size -> ring_addr o = start + (o - size).
Proof using Hsize. intros H. unfold ring_addr. f_equal. symmetry. apply (Z.mod_unique _ _ 1); lia. Qed.

Lemma ring_addr_mod o o' k : o mod size = o' mod size -> ring_addr (o + k) = ring_addr (o' + k).
Proof using. intros H. unfold ring_addr. f_equal. rewrite (Zplus_mod o), (Zplus_mod o'). by rewrite H. Qed.

Lemma ring_addr_inj o i j : ring_addr (o + i) = ring_addr (o + j) -> 0 <= i < size -> 0 <= j < size -> i = j.
Proof using Hsize.
  unfold ring_addr. intros E Hi Hj. assert ((o + i) mod size = (o + j) mod size) as E' by lia. clear E. pose proof (Z.div_mod (o + i) size ltac:(lia)) as Ei. pose proof (Z.div_mod (o + j) size ltac:(lia)) as Ej.
  rewrite E' in Ei. revert Ei Ej. generalize ((o + i) / size) ((o + j) / size) ((o + j) mod size). intros x y r Ei Ej. assert (i - j = size * (x - y)) as E by (rewrite Z.mul_sub_distr_l; lia). assert (x = y) by nia. nia.
Qed.

(** [n] bytes [f] are written from offset [o] on, and nothing else. *)
Definition ring_written (o n : Z) (f : Z -> Z) (m m' : Z -> Z) : Prop :=
  (forall j, 0 <= j < n -> m' (ring_addr (o + j)) = f j) /\ (forall x, (forall j, 0 <= j < n -> x <> ring_addr (o + j)) -> m' x = m x).

Lemma ring_written_ext o n f f' m m' : (forall j, 0 <= j < n -> f j = f' j) -> ring_written o n f m m' -> ring_written o n f' m m'.
Proof using. intros H [H1 H2]. split; [|done]. intros j Hj. rewrite <- H by done. by apply H1. Qed.

Lemma ring_written_app o o' n n' f f' m m1 m2 : ring_written o n f m m1 -> ring_written o' n' f' m1 m2 -> o' mod size = (o + n) mod size -> 0 <= n -> 0 <= n' -> n + n' <= size ->
  ring_written o (n + n') (fun j => if j <? n then f j else f' (j - n)) m m2.
Proof using Hsize.
  intros [H1 H2] [H1' H2'] Ho Hn Hn' Hs. assert (forall j, ring_addr (o' + j) = ring_addr (o + (n + j))) as E by (intros j; rewrite (ring_addr_mod o' (o + n) j Ho); f_equal; lia). split.
  - intros j Hj. destruct (Z.ltb_spec j n).
    + rewrite H2'; [apply H1; lia|]. intros k Hk Hx. rewrite E in Hx. apply ring_addr_inj in Hx; lia.
    + replace (o + j) with (o + (n + (j - n))) by lia. rewrite <- E. apply H1'. lia.
  - intros x Hx. rewrite H2'; [apply H2; intros j Hj; apply Hx; lia|]. intros j Hj. rewrite E. apply Hx. lia.
Qed.

(** ** What the loops of a push write *)

Context (src : Z -> Z) (c : RemoteSenderCBInterface) (p : Z).
Hypotheses (Hc1 : s_fifo_start_addr c = start) (Hc2 : s_fifo_limit_page_aligned c = start + size) (Hlim : start + 2 * size < 2 ^ 32) (Hp : 0 < p <= size).

Definition in_ring (dest : Z) : Prop := start <= dest <= start + size.

(** A part of a push, from a destination to another: [n] bytes [f] in its packets. *)
Definition pushed (d n : Z) (f : Z -> Z) (d' : Z) (l : list packet) : Prop :=
  in_ring d' /\ (d' - start) mod size = (d - start + n) mod size /\ forall m, ring_written (d - start) n f m (deliver src l m).

Lemma write_bytes a s n m x : 0 <= n -> write_mem a (read_mem src s n) m x = if (a <=? x) && (x <? a + n) then src (s + (x - a)) else m x.
Proof using.
  intros Hn. unfold write_mem. rewrite length_read_mem, Z2Nat.id by lia. destruct (Z.leb_spec a x), (Z.ltb_spec x (a + n)); cbn; try done.
  rewrite list_lookup_total_alt, read_mem_lookup by lia. cbn. f_equal. lia.
Qed.

Lemma push_page_ok s d s' d' l : 0 <= s -> s + p < 2 ^ 32 -> in_ring d -> push_page c p (s, d) = ((s', d'), l) ->
  s' = s + p /\ pushed d p (fun j => src (s + j)) d' l.
Proof using All.
  unfold in_ring, pushed, push_page, in_ring. intros Hs0 Hs Hd. rewrite Hc1, Hc2. rewrite (u32_small (d + p)) by lia. destruct (Z.ltb_spec (start + size) (d + p)).
  - rewrite (u32_small (start + size - d)), (u32_small (p - _)), (u32_small (s + _)), !u32_small by lia. intros [= <- <- <-]. split; [lia|]. split; [lia|]. split; [rewrite <- (Z.mod_add (d - start + p) (-1) size) by lia; f_equal; lia|].
    intros m. assert (forall x, deliver src ((if start + size - d =? 0 then [] else [mkPacket s d (start + size - d)]) ++ [mkPacket (s + (start + size - d)) start (p - (start + size - d))]) m x =
      if (start <=? x) && (x <? start + (p - (start + size - d))) then src (s + (start + size - d) + (x - start)) else if (d <=? x) && (x <? start + size) then src (s + (x - d)) else m x) as E.
    { intros x. rewrite deliver_app. cbn [deliver fold_left pkt_dest pkt_src pkt_len]. rewrite write_bytes by lia. destruct ((start <=? x) && _); [done|]. destruct (Z.eqb_spec (start + size - d) 0); cbn [fold_left deliver pkt_dest pkt_src pkt_len].
      - destruct (Z.leb_spec d x), (Z.ltb_spec x (start + size)); cbn; try done; lia.
      - rewrite write_bytes by lia. by replace (d + (start + size - d)) with (start + size) by lia. }
    split.
    + intros j Hj. rewrite E. destruct (Z.lt_ge_cases (d - start + j) size).
      * rewrite ring_addr_small by lia. replace (start + (d - start + j)) with (d + j) by lia. rewrite (proj2 (Z.ltb_ge (d + j) (start + (p - (start + size - d))))), andb_false_r by lia. rewrite (proj2 (Z.leb_le d (d + j))), (proj2 (Z.ltb_lt (d + j) (start + size))) by lia. cbn. f_equal. lia.
      * rewrite ring_addr_wrap by lia. rewrite (proj2 (Z.leb_le start _)), (proj2 (Z.ltb_lt _ (start + (p - (start + size - d))))) by lia. cbn. f_equal. lia.
    + intros x Hx. rewrite E. destruct (Z.leb_spec start x), (Z.ltb_spec x (start + (p - (start + size - d)))); cbn; try (destruct (Z.leb_spec d x), (Z.ltb_spec x (start + size)); cbn; try done; exfalso; apply (Hx (x - d)); [lia|]; rewrite ring_addr_small by lia; lia).
      exfalso. apply (Hx (x - start + (start + size - d))); [lia|]. rewrite ring_addr_wrap by lia. lia.
  - rewrite !u32_small by lia. intros [= <- <- <-]. split; [lia|]. split; [lia|]. split; [f_equal; lia|]. intros m. cbn [deliver fold_left pkt_dest pkt_src pkt_len]. split.
    + intros j Hj. rewrite write_bytes by lia. rewrite ring_addr_small by lia. replace (start + (d - start + j)) with (d + j) by lia. rewrite (proj2 (Z.leb_le d (d + j))), (proj2 (Z.ltb_lt (d + j) (d + p))) by lia. cbn. f_equal. lia.
    + intros x Hx. rewrite write_bytes by lia. destruct (Z.leb_spec d x), (Z.ltb_spec x (d + p)); cbn; try done. exfalso. apply (Hx (x - d)); [lia|]. rewrite ring_addr_small by lia. lia.
Qed.

Lemma pushed_app d d1 d2 n n' f f' l l' : 0 <= n -> 0 <= n' -> n + n' <= size -> pushed d n f d1 l -> pushed d1 n' f' d2 l' ->
  pushed d (n + n') (fun j => if j <? n then f j else f' (j - n)) d2 (l ++ l').
Proof using Hsize.
  intros Hn Hn' Hs (H1 & H2 & H3) (H1' & H2' & H3'). split; [done|]. split.
  - rewrite H2', Z.add_assoc. rewrite (Zplus_mod (d1 - start)), H2, <- Zplus_mod. done.
  - intros m. rewrite deliver_app. by apply (ring_written_app _ (d1 - start) _ _ _ _ m (deliver src l m)).
Qed.

Lemma pushed_ext d n f f' d' l : (forall j, 0 <= j < n -> f j = f' j) -> pushed d n f d' l -> pushed d n f' d' l.
Proof using. intros H (H1 & H2 & H3). split; [done|]. split; [done|]. intros m. by apply (ring_written_ext _ _ f). Qed.

Lemma pushed_nil d f : in_ring d -> pushed d 0 f d [].
Proof using. intros H. split; [done|]. split; [by rewrite Z.add_0_r|]. intros m. split; [lia|done]. Qed.

Lemma push_pages_ok n s d s' d' l : 0 <= s -> s + Z.of_nat n * p < 2 ^ 32 -> Z.of_nat n * p <= size -> in_ring d -> push_pages c p n (s, d) = ((s', d'), l) ->
  pushed d (Z.of_nat n * p) (fun j => src (s + j)) d' l.
Proof using All.
  revert s d s' d' l. induction n as [|n IH]; intros s d s' d' l Hs0 Hs Hn Hd; cbn [push_pages]; [intros [= <- <- <-]; by apply pushed_nil|].
  destruct (push_page c p (s, d)) as [[s1 d1] l1] eqn:E1. destruct (push_pages c p n (s1, d1)) as [[s2 d2] l2] eqn:E2. intros [= <- <- <-].
  destruct (push_page_ok s d s1 d1 l1 Hs0 ltac:(nia) Hd E1) as [-> H1]. pose proof (IH (s + p) d1 s2 d2 l2 ltac:(lia) ltac:(lia) ltac:(lia) (proj1 H1) E2) as H2.
  replace (Z.of_nat (S n) * p) with (p + Z.of_nat n * p) by lia. eapply pushed_ext; [|apply (pushed_app d d1 d2 p (Z.of_nat n * p) _ _ l1 l2 ltac:(lia) ltac:(nia) ltac:(lia) H1 H2)].
  intros j Hj. cbn. destruct (Z.ltb_spec j p); [done|]. f_equal. lia.
Qed.

(** The rows: the [h]-th is read at [h] strides from the first. *)
Lemma push_rows_ok rows cols stride s d d' l : 0 <= s -> 0 <= stride -> Z.of_nat cols * p <= size -> s + Z.of_nat rows * stride + Z.of_nat cols * p < 2 ^ 32 ->
  Z.of_nat rows * (Z.of_nat cols * p) <= size -> in_ring d -> push_rows c p rows cols stride s d = (d', l) ->
  exists f, pushed d (Z.of_nat rows * (Z.of_nat cols * p)) f d' l /\
    forall h j, 0 <= h < Z.of_nat rows -> 0 <= j < Z.of_nat cols * p -> f (h * (Z.of_nat cols * p) + j) = src (s + h * stride + j).
Proof using All.
  revert s d d' l. set (w := Z.of_nat cols * p). assert (0 <= w) as Hw by (unfold w; nia). induction rows as [|rows IH]; intros s d d' l Hs0 Hst Hws Hs Hn Hd; cbn [push_rows].
  - intros [= <- <-]. exists (fun _ => 0). split; [by apply pushed_nil|lia].
  - destruct (push_pages c p cols (s, d)) as [[s1 d1] l1] eqn:E1. rewrite (u32_small (s + stride)) by nia. destruct (push_rows c p rows cols stride (s + stride) d1) as [d2 l2] eqn:E2. intros [= <- <-].
    pose proof (push_pages_ok cols s d s1 d1 l1 Hs0 ltac:(fold w; nia) Hws Hd E1) as H1. fold w in H1. destruct (IH (s + stride) d1 d2 l2 ltac:(lia) Hst Hws ltac:(lia) ltac:(nia) (proj1 H1) E2) as (f & H2 & Hf).
    exists (fun j => if j <? w then src (s + j) else f (j - w)). split.
    + replace (Z.of_nat (S rows) * w) with (w + Z.of_nat rows * w) by lia. apply (pushed_app d d1 d2 w (Z.of_nat rows * w) _ _ l1 l2 Hw ltac:(nia) ltac:(lia) H1 H2).
    + intros h j Hh Hj. destruct (Z.eq_dec h 0) as [->|Hne].
      * rewrite (proj2 (Z.ltb_lt _ _)) by lia. f_equal. lia.
      * rewrite (proj2 (Z.ltb_ge _ _)) by nia. replace (h * w + j - w) with ((h - 1) * w + j) by lia. rewrite Hf by lia. f_equal. lia.
Qed.
End Ring.

(** ** A sender and a receiver *)

(** The two ends of a ring, with blocks of [total] bytes, stand at the same place. *)
Record meets (total : Z) (c : RemoteSenderCBInterface) (r : RemoteReceiverCBInterface) : Prop := mkMeets {
  m_same : s_fifo_start_addr c = r_fifo_start_addr r /\ s_fifo_limit_page_aligned c = r_fifo_limit_page_aligned r /\ s_fifo_page_size c = r_fifo_page_size r;
  m_ring : 0 <= r_fifo_start_addr r < r_fifo_limit_page_aligned r /\ 2 * r_fifo_limit_page_aligned r - r_fifo_start_addr r < 2 ^ 32;
  m_block : 0 < total /\ (total | r_fifo_limit_page_aligned r - r_fifo_start_addr r);
  m_wr : r_fifo_start_addr r <= s_fifo_wr_ptr c <= r_fifo_limit_page_aligned r;
  m_rd : r_fifo_start_addr r <= r_fifo_rd_ptr r < r_fifo_limit_page_aligned r /\ (total | r_fifo_rd_ptr r - r_fifo_start_addr r);
  m_place : (s_fifo_wr_ptr c - r_fifo_start_addr r) mod (r_fifo_limit_page_aligned r - r_fifo_start_addr r) = r_fifo_rd_ptr r - r_fifo_start_addr r;
}.

(** A block that starts at a multiple of its size does not wrap. *)
Lemma block_room total size x : 0 < total -> (total | size) -> (total | x) -> x < size -> x + total <= size.
Proof. intros Ht [a ->] [b ->] H. assert (b < a) by nia. nia. Qed.

Section Block.
Context (c : RemoteSenderCBInterface) (r : RemoteReceiverCBInterface) (local_cb_addr num_pages num_rows cols p : Z).
Abbreviation w := (cols * p).
Abbreviation total := (num_rows * w).
Hypotheses (Hmeets : meets total c r) (Htotal : total = num_pages * s_fifo_page_size c).
Hypotheses (Hp : 0 < p) (Hcols : 0 < cols) (Hrows : 0 < num_rows) (Hlocal : 0 <= local_cb_addr) (Hsrc : local_cb_addr + 2 * (num_receivers c * total) < 2 ^ 32).

Abbreviation start := (s_fifo_start_addr c).
Abbreviation size := (s_fifo_limit_page_aligned c - s_fifo_start_addr c).

(** The packets of one receiver. *)
Lemma push_receiver_ok src i : 0 <= i < num_receivers c -> exists f d l,
  push_receiver c p local_cb_addr num_rows cols i = (d, l) /\ pushed start size src (s_fifo_wr_ptr c) total f d l /\
  forall h j, 0 <= h < num_rows -> 0 <= j < w -> f (h * w + j) = src (local_cb_addr + (h * num_receivers c + i) * w + j).
Proof using All.
  intros Hi. destruct Hmeets as [(E1 & E2 & _) [Hr1 Hr2] [Ht1 Ht2] Hwr _ _]. rewrite <- E1, <- E2 in *. apply Z.divide_pos_le in Ht2; [|lia].
  assert (0 < w) as Hw by nia. assert (w <= total) as Hwt by nia. assert (p <= w) as Hpw by nia. assert (w * num_receivers c <= num_receivers c * total) as Hnw by nia.
  assert (i * w + w <= w * num_receivers c) as Hiw by nia. assert (num_rows * (w * num_receivers c) = num_receivers c * total) as Eall by ring. assert (0 <= i * w) as Hi0 by nia.
  unfold push_receiver. cbv zeta. rewrite (u32_small w) by lia. rewrite (u32_small (w * num_receivers c)) by lia. rewrite (u32_small (i * w)) by lia. rewrite (u32_small (local_cb_addr + i * w)) by lia.
  destruct (push_rows c p (Z.to_nat num_rows) (Z.to_nat cols) (w * num_receivers c) (local_cb_addr + i * w) (s_fifo_wr_ptr c)) as [d l] eqn:E.
  pose proof (push_rows_ok start size ltac:(lia) ltac:(lia) src c p eq_refl ltac:(lia) ltac:(lia) ltac:(lia) (Z.to_nat num_rows) (Z.to_nat cols) (w * num_receivers c) (local_cb_addr + i * w) (s_fifo_wr_ptr c) d l) as Hpush.
  rewrite !Z2Nat.id in Hpush by lia. destruct Hpush as (f & Hf & Hb); [lia..|unfold in_ring; lia|done|]. exists f, d, l. split; [done|]. split; [done|]. intros h j Hh Hj. rewrite Hb by done. f_equal. ring.
Qed.

(** C15: A block that a sender pushes to its receivers lies where each of them reads it.
    When both ends of a ring stand at the same place and blocks divide the ring, the
    packets to a receiver put its share of every row of the block, one after the other,
    at the receiver's read pointer, change nothing else there, also where packets are
    split at the end of the ring, and after the push and the receiver's pop both ends
    again stand at the same place. *)
Theorem remote_block_delivered src i : 0 <= i < num_receivers c ->
  exists c' packets increments l, remote_cb_push_back_and_write_pages local_cb_addr num_pages num_rows cols p c = Ok (c', packets, increments) /\
    packets !! Z.to_nat i = Some l /\ meets total c' (remote_cb_pop_front num_pages r).1 /\ forall m,
    (forall h j, 0 <= h < num_rows -> 0 <= j < w -> deliver src l m (r_fifo_rd_ptr r + h * w + j) = src (local_cb_addr + (h * num_receivers c + i) * w + j)) /\
    (forall x, x < r_fifo_rd_ptr r \/ r_fifo_rd_ptr r + total <= x -> deliver src l m x = m x).
Proof using All.
  intros Hi. destruct (push_receiver_ok src i Hi) as (f & d & l & Epush & (Hd1 & Hd2 & Hwritten) & Hf). destruct (push_receiver_ok src (num_receivers c - 1) ltac:(lia)) as (f' & d' & l' & Epush' & (Hd1' & Hd2' & _) & _).
  unfold remote_cb_push_back_and_write_pages. cbv zeta. rewrite (proj2 (Z.ltb_lt 0 (num_receivers c))) by lia. cbn [check mbind res_bind mret res_ret]. eexists _, _, _, l. split; [reflexivity|]. split.
  - rewrite !list_lookup_fmap, lookup_zrange by lia. cbn [fmap option_fmap option_map]. by rewrite Z.add_0_l, Z2Nat.id, Epush by lia.
  - assert (last (map (push_receiver c p local_cb_addr num_rows cols) (zrange 0 (num_receivers c))) = Some (d', l')) as ->.
    { assert (zrange 0 (num_receivers c) = zrange 0 (num_receivers c - 1) ++ [num_receivers c - 1]) as -> by (rewrite <- zrange_snoc by lia; f_equal; lia).
      rewrite map_app. cbn [map]. by rewrite last_snoc, Epush'. }
    cbn [default from_option fmap option_fmap option_map fst id]. destruct Hmeets as [(E1 & E2 & E3) [Hr1 Hr2] [Ht1 Ht2] Hwr [Hrd Hrd'] Hplace]. pose proof (block_room total _ _ Ht1 Ht2 Hrd' ltac:(lia)) as Hroom.
    unfold in_ring in *. rewrite E1, E2 in *.
    assert (forall k, 0 <= k < total -> ring_addr (r_fifo_start_addr r) (r_fifo_limit_page_aligned r - r_fifo_start_addr r) (s_fifo_wr_ptr c - r_fifo_start_addr r + k) = r_fifo_rd_ptr r + k) as Hk.
    { intros k Hk. rewrite (ring_addr_mod _ _ _ (r_fifo_rd_ptr r - r_fifo_start_addr r)) by (rewrite Hplace; symmetry; apply Z.mod_small; lia). rewrite ring_addr_small by lia. lia. }
    split.
    + unfold remote_cb_pop_front. cbv zeta. rewrite <- E3, <- Htotal, (u32_small total), (u32_small (r_fifo_rd_ptr r + total)) by lia. cbn [fst].
      split; cbn; try (done || lia).
      * destruct (Z.leb_spec (r_fifo_limit_page_aligned r) (r_fifo_rd_ptr r + total)).
        -- split; [lia|]. rewrite Z.sub_diag. apply Z.divide_0_r.
        -- split; [lia|]. replace (r_fifo_rd_ptr r + total - r_fifo_start_addr r) with (r_fifo_rd_ptr r - r_fifo_start_addr r + total) by lia. apply Z.divide_add_r; [done|apply Z.divide_refl].
      * rewrite Hd2', <- Zplus_mod_idemp_l, Hplace. destruct (Z.leb_spec (r_fifo_limit_page_aligned r) (r_fifo_rd_ptr r + total)).
        -- replace (r_fifo_rd_ptr r - r_fifo_start_addr r + total) with (r_fifo_limit_page_aligned r - r_fifo_start_addr r) by lia. rewrite Z.mod_same by lia. lia.
        -- rewrite Z.mod_small by lia. lia.
    + intros m. destruct (Hwritten m) as [H1 H2]. split.
      * intros h j Hh Hj. rewrite <- Hf, <- H1 by nia. rewrite Hk by nia. f_equal. lia.
      * intros x Hx. apply H2. intros k Hk'. rewrite Hk by done. lia.
Qed.
End Block.

(** ** Where the ends lose each other *)

(** C39: A sender never waits for room.  [remote_cb_reserve_back] takes the end address of
    the ring for its size: however full the rings of the receivers are, it returns at once
    when the block asked for is no longer than the address where the ring starts. *)
Theorem remote_reserve_never_waits l1 num_pages c :
  0 <= s_fifo_start_addr c -> s_fifo_limit_page_aligned c < 2 ^ 32 -> 0 <= num_pages * s_fifo_page_size c <= s_fifo_start_addr c ->
  (forall i, 0 <= i < num_receivers c -> u32 (l1 (sent_addr c i) - l1 (sent_addr c i + L1_ALIGNMENT)) * 16 <= s_fifo_limit_page_aligned c - s_fifo_start_addr c) ->
  remote_cb_reserve_back_done l1 num_pages c = true.
Proof.
  intros Hs Hl Hn Hfull. unfold remote_cb_reserve_back_done. cbv zeta. apply forallb_forall. intros i Hi%list_elem_of_In%elem_of_zrange. specialize (Hfull i Hi). unfold free_pages, REMOTE_CIRCULAR_BUFFER_ALIGNED_PAGE_SIZE, L1_ALIGNMENT in *.
  pose proof (u32_range (l1 (sent_addr c i) - l1 (sent_addr c i + 16))) as Hu. revert Hu Hfull. generalize (u32 (l1 (sent_addr c i) - l1 (sent_addr c i + 16))). intros used Hu Hfull.
  rewrite (u32_small (num_pages * s_fifo_page_size c)) by lia. pose proof (Z.div_mod (s_fifo_limit_page_aligned c) 16 ltac:(lia)). pose proof (Z.mod_pos_bound (s_fifo_limit_page_aligned c) 16 ltac:(lia)).
  pose proof (Z.div_mod (num_pages * s_fifo_page_size c) 16 ltac:(lia)). pose proof (Z.mod_pos_bound (num_pages * s_fifo_page_size c) 16 ltac:(lia)). rewrite u32_small by lia. apply negb_true_iff, Z.ltb_ge. lia.
Qed.

(** A ring of 256 bytes, full. *)
Definition full_sender : RemoteSenderCBInterface := mkSender 512 1024 1280 64 1024 600 640 1.
Definition full_l1 (x : Z) : Z := if x =? 640 then 48 else if x =? 656 then 32 else 0.

Lemma remote_reserve_never_waits_witness :
  u32 (full_l1 (sent_addr full_sender 0) - full_l1 (sent_addr full_sender 0 + L1_ALIGNMENT)) * 16 = 1280 - 1024 /\ remote_cb_reserve_back_done full_l1 4 full_sender = true.
Proof.
  split; [reflexivity|]. apply (remote_reserve_never_waits full_l1 4 full_sender); [cbn; lia|cbn; lia|cbn; lia|]. intros i Hi. cbn in Hi. replace i with 0 by lia. vm_compute. discriminate.
Defined.

(** *** What [align] computes *)

Lemma land_le a b : 0 <= b -> Z.land a b <= b.
Proof.
  intros Hb. assert (Z.ldiff (Z.land a b) b = 0) as H by (rewrite Z.land_ldiff || (apply Z.bits_inj'; intros n Hn; rewrite Z.ldiff_spec, Z.land_spec, Z.bits_0; by destruct (Z.testbit a n), (Z.testbit b n))).
  apply Z.sub_nocarry_ldiff in H. assert (0 <= Z.ldiff b (Z.land a b)) by (apply Z.ldiff_nonneg; by left). lia.
Qed.

Lemma align_lor x a : 0 < x -> 0 < a -> x + a < 2 ^ 32 -> align x a = Z.lor (x - 1) (a - 1) + 1 /\ x <= align x a < x + a.
Proof.
  intros Hx Ha Hb. unfold align. rewrite (u32_small (x - 1)), (u32_small (a - 1)) by lia. pose proof (Z.add_lor_land (x - 1) (a - 1)) as H. pose proof (land_le (x - 1) (a - 1) ltac:(lia)).
  assert (0 <= Z.land (x - 1) (a - 1)) by (apply Z.land_nonneg; lia). rewrite u32_small by lia. lia.
Qed.

(** For a power of two: the next multiple. *)
Lemma align_pow2 x k : 0 <= k -> 0 < x -> x + 2 ^ k < 2 ^ 32 -> align x (2 ^ k) = x - 1 - (x - 1) mod 2 ^ k + 2 ^ k.
Proof.
  intros Hk Hx Hb. pose proof (Z.pow_pos_nonneg 2 k ltac:(lia) Hk). destruct (align_lor x (2 ^ k)) as [-> _]; [lia..|]. pose proof (Z.add_lor_land (x - 1) (2 ^ k - 1)) as E.
  replace (2 ^ k - 1) with (Z.ones k) in * by (rewrite Z.ones_equiv; lia). rewrite Z.land_ones in E by done. rewrite Z.ones_equiv in *. lia.
Qed.

(** A number whose bits are among those of its double and one is all ones. *)
Lemma all_ones p : 1 < p -> Z.land (2 * p - 1) (p - 1) = p - 1 -> p = 2 ^ (Z.log2 (p - 1) + 1).
Proof.
  intros Hp E. pose proof (Z.log2_nonneg (p - 1)) as Hlog. assert (forall n, Z.testbit (p - 1) (Z.log2 (p - 1) - Z.of_nat n) = true \/ Z.log2 (p - 1) - Z.of_nat n < 0) as Hbits.
  { induction n as [|n IH].
    - left. rewrite Z.sub_0_r. by apply Z.bit_log2; lia.
    - destruct IH as [IH|]; [|right; lia]. destruct (Z.lt_ge_cases (Z.log2 (p - 1) - Z.of_nat (S n)) 0); [by right|left]. apply (f_equal (fun z => Z.testbit z (Z.log2 (p - 1) - Z.of_nat n))) in E. rewrite Z.land_spec, IH, andb_true_r in E. clear IH. rename E into IH.
      replace (2 * p - 1) with (2 * (p - 1) + 1) in IH by lia. replace (Z.log2 (p - 1) - Z.of_nat n) with (Z.succ (Z.log2 (p - 1) - Z.of_nat (S n))) in IH by lia. by rewrite Z.testbit_odd_succ in IH by lia. }
  assert (p - 1 = Z.ones (Z.log2 (p - 1) + 1)) as H; [|rewrite Z.ones_equiv in H; lia]. apply Z.bits_inj'. intros n Hn. rewrite Z.testbit_ones_nonneg by lia. destruct (Z.ltb_spec n (Z.log2 (p - 1) + 1)).
  - destruct (Hbits (Z.to_nat (Z.log2 (p - 1) - n))) as [Hb|]; rewrite Z2Nat.id in * by lia; [|lia]. by replace (Z.log2 (p - 1) - (Z.log2 (p - 1) - n)) with n in Hb by lia.
  - apply Z.bits_above_log2; lia.
Qed.

(** For any other number, twice the number is not among the results. *)
Lemma align_twice p : 1 < p -> 3 * p < 2 ^ 32 -> (forall k, p <> 2 ^ k) -> 2 * p < align (2 * p) p < 3 * p.
Proof.
  intros Hp Hb Hn. destruct (align_lor (2 * p) p) as [E H]; [lia..|]. assert (align (2 * p) p <> 2 * p); [|lia]. intros E'.
  pose proof (Z.add_lor_land (2 * p - 1) (p - 1)). apply (Hn (Z.log2 (p - 1) + 1)), all_ones; lia.
Qed.

Lemma resize_sender_ok update l1 page_size c o : let start := s_fifo_start_addr c in let fifo_size := l1 (s_config_ptr c + 3 * 4) in
  0 < page_size -> page_size mod L1_ALIGNMENT = 0 -> 0 <= start -> s_fifo_wr_ptr c = start + o -> 0 < o -> 0 < fifo_size -> start + 2 * fifo_size < 2 ^ 32 -> o + page_size <= start + 2 * fifo_size ->
  align o page_size <= fifo_size - fifo_size mod page_size ->
  exists c' increments, resize_remote_sender_cb_interface update l1 page_size c = Ok (c', increments) /\
    s_fifo_start_addr c' = start /\ s_fifo_limit_page_aligned c' = start + (fifo_size - fifo_size mod page_size) /\ s_fifo_page_size c' = page_size /\
    s_fifo_wr_ptr c' = start + align o page_size /\ num_receivers c' = num_receivers c.
Proof.
  intros start fifo_size Hp Hm Hs Hw Ho Hf Hb Hop Ha. unfold resize_remote_sender_cb_interface. cbv zeta. fold fifo_size start. rewrite (proj2 (Z.eqb_neq page_size 0)) by lia. change REMOTE_CIRCULAR_BUFFER_ALIGNED_PAGE_SIZE with L1_ALIGNMENT. rewrite Hm.
  cbn [negb check Z.eqb mbind res_bind mret res_ret]. pose proof (Z.mod_pos_bound fifo_size page_size Hp). pose proof (Z.mod_le fifo_size page_size ltac:(lia) Hp). destruct (align_lor o page_size) as [_ Hal]; [lia..|].
  rewrite Hw. rewrite !(u32_small (fifo_size - _)), !(u32_small (start + (fifo_size - _))), !(u32_small (start + o - start)) by lia. replace (start + o - start) with o by lia. rewrite !(u32_small (start + align o page_size)), (proj2 (Z.ltb_ge _ _)) by lia.
  eexists _, _. split; [reflexivity|]. cbn. done.
Qed.

Lemma resize_receiver_ok update l1 page_size c o : let start := r_fifo_start_addr c in let fifo_size := l1 (r_config_ptr c + 3 * 4) in
  0 < page_size -> page_size mod L1_ALIGNMENT = 0 -> 0 <= start -> r_fifo_rd_ptr c = start + o -> 0 < o -> 0 < fifo_size -> start + 2 * fifo_size < 2 ^ 32 -> o + page_size <= start + 2 * fifo_size ->
  align o page_size <= fifo_size - fifo_size mod page_size ->
  exists c' increments, resize_remote_receiver_cb_interface update l1 page_size c = Ok (c', increments) /\
    r_fifo_limit_page_aligned c' = start + (fifo_size - fifo_size mod page_size) /\ r_fifo_rd_ptr c' = start + align o page_size.
Proof.
  intros start fifo_size Hp Hm Hs Hw Ho Hf Hb Hop Ha. unfold resize_remote_receiver_cb_interface. cbv zeta. fold fifo_size start. rewrite (proj2 (Z.eqb_neq page_size 0)) by lia. change REMOTE_CIRCULAR_BUFFER_ALIGNED_PAGE_SIZE with L1_ALIGNMENT. rewrite Hm.
  cbn [negb check Z.eqb mbind res_bind mret res_ret]. pose proof (Z.mod_pos_bound fifo_size page_size Hp). pose proof (Z.mod_le fifo_size page_size ltac:(lia) Hp). destruct (align_lor o page_size) as [_ Hal]; [lia..|].
  rewrite Hw. rewrite !(u32_small (fifo_size - _)), !(u32_small (start + (fifo_size - _))), !(u32_small (start + o - start)) by lia. replace (start + o - start) with o by lia. rewrite !(u32_small (start + align o page_size)), (proj2 (Z.ltb_ge _ _)) by lia.
  eexists _, _. split; [reflexivity|]. cbn. done.
Qed.

(** A page pushed at the end of the ring goes to its start, for every receiver. *)
Lemma push_at_limit c page src : 0 < page -> 0 <= s_fifo_start_addr c -> s_fifo_wr_ptr c = s_fifo_limit_page_aligned c -> s_fifo_start_addr c <= s_fifo_limit_page_aligned c ->
  s_fifo_limit_page_aligned c + page < 2 ^ 32 -> 0 <= src -> src + num_receivers c * page < 2 ^ 32 -> 0 < num_receivers c ->
  exists c' packets increments, remote_cb_push_back_and_write_pages src 1 1 1 page c = Ok (c', packets, increments) /\
    forall i, 0 <= i < num_receivers c -> packets !! Z.to_nat i = Some [mkPacket (src + i * page) (s_fifo_start_addr c) page].
Proof.
  intros Hp Hs Hw Hsl Hl Hsrc Hb Hn. unfold remote_cb_push_back_and_write_pages. cbv zeta. rewrite (proj2 (Z.ltb_lt 0 (num_receivers c))) by lia. cbn [check mbind res_bind mret res_ret]. eexists _, _, _. split; [reflexivity|].
  intros i Hi. rewrite !list_lookup_fmap, lookup_zrange by lia. cbn [fmap option_fmap option_map]. rewrite Z.add_0_l, Z2Nat.id by lia. do 2 f_equal.
  assert (0 <= i * page /\ i * page + page <= num_receivers c * page) as [Hi0 Hi1] by nia. unfold push_receiver. cbv zeta. rewrite Z.mul_1_l, (u32_small page), (u32_small (i * page)), (u32_small (src + _)), Hw by lia.
  change (Z.to_nat 1) with 1%nat. cbn [push_rows push_pages]. unfold push_page. rewrite (u32_small (_ + page)), (proj2 (Z.ltb_lt _ _)), Z.sub_diag by lia. cbv zeta. change (u32 0) with 0. rewrite Z.eqb_refl, Z.sub_0_r, Z.add_0_r.
  cbn. by rewrite !u32_small by lia.
Qed.

(** C40: Changing the page size can lose a page.  Let both ends of a ring stand at the same
    offset, and the page size change, [update_remote_over_noc] or not.  (1) When the new
    size is a power of two that divides the ring and the offset is in its last page, both
    pointers move to the end of the ring; there the receiver's stays, though the ring ends
    before it, while the sender's next page goes to the start, for every receiver.
    (2) When the new size is not a power of two, and the offset is the end of its second
    page, where no move is needed, both pointers move into the middle of the third page,
    since [align] is right for powers of two only. *)
Theorem resize_misplaces_pages update l1 page_size c r :
  let start := s_fifo_start_addr c in let fifo_size := l1 (s_config_ptr c + 3 * 4) in let offset := s_fifo_wr_ptr c - start in
  0 < page_size -> page_size mod L1_ALIGNMENT = 0 -> 0 <= start -> start + 2 * fifo_size < 2 ^ 32 -> page_size <= fifo_size ->
  r_fifo_start_addr r = start -> l1 (r_config_ptr r + 3 * 4) = fifo_size -> r_fifo_rd_ptr r = s_fifo_wr_ptr c ->
  (forall k, 0 <= k -> page_size = 2 ^ k -> (page_size | fifo_size) -> fifo_size - page_size < offset < fifo_size ->
    exists c' l r' l', resize_remote_sender_cb_interface update l1 page_size c = Ok (c', l) /\ resize_remote_receiver_cb_interface update l1 page_size r = Ok (r', l') /\
      r_fifo_rd_ptr r' = r_fifo_limit_page_aligned r' /\ r_fifo_limit_page_aligned r' = start + fifo_size /\
      forall src, 0 <= src -> src + num_receivers c * page_size < 2 ^ 32 -> 0 < num_receivers c ->
        exists c'' packets increments, remote_cb_push_back_and_write_pages src 1 1 1 page_size c' = Ok (c'', packets, increments) /\
          forall i, 0 <= i < num_receivers c -> packets !! Z.to_nat i = Some [mkPacket (src + i * page_size) start page_size]) /\
  ((forall k, page_size <> 2 ^ k) -> offset = 2 * page_size -> 3 * page_size <= fifo_size ->
    exists c' l r' l', resize_remote_sender_cb_interface update l1 page_size c = Ok (c', l) /\ resize_remote_receiver_cb_interface update l1 page_size r = Ok (r', l') /\
      2 * page_size < s_fifo_wr_ptr c' - start < 3 * page_size /\ r_fifo_rd_ptr r' = s_fifo_wr_ptr c').
Proof.
  intros start fifo_size offset Hp Hm Hs Hb Hf Hr1 Hr2 Hr3. assert (s_fifo_wr_ptr c = start + offset) as Hw by (unfold offset; lia). split.
  - intros k Hk Ek Hd Ho. assert (align offset page_size = fifo_size) as Ea.
    { rewrite Ek, align_pow2 by lia. rewrite <- Ek. destruct Hd as [q Eq]. rewrite (Z.mod_eq (offset - 1)) by lia. rewrite <- (Z.div_unique (offset - 1) page_size (q - 1) (offset - 1 - (q - 1) * page_size)) by lia. lia. }
    pose proof (Z.mod_divide fifo_size page_size ltac:(lia)) as [_ Hmod]. specialize (Hmod Hd).
    destruct (resize_sender_ok update l1 page_size c offset Hp Hm Hs Hw) as (c' & l & E1 & S1 & S2 & S3 & S4 & S5); fold fifo_size start; try lia.
    destruct (resize_receiver_ok update l1 page_size r offset Hp Hm) as (r' & l' & E2 & R2 & R4); rewrite ?Hr1, ?Hr2; try lia. rewrite Hr1, Hr2 in *.
    exists c', l, r', l'. split; [done|]. split; [done|]. split; [lia|]. split; [lia|]. intros src Hsrc Hbs Hn.
    fold start in S1. fold start fifo_size in S2. rewrite <- S1, <- S5 in *. apply push_at_limit; lia.
  - intros Hn Ho H3. assert (1 < page_size) as Hp1 by (destruct (Z.eq_dec page_size 1); [by destruct (Hn 0)|lia]). pose proof (align_twice page_size Hp1 ltac:(lia) Hn) as Ha. rewrite <- Ho in Ha.
    assert (3 * page_size <= fifo_size - fifo_size mod page_size) as Hlim by (rewrite (Z.mod_eq fifo_size) by lia; pose proof (Z.div_le_lower_bound fifo_size page_size 3 Hp ltac:(lia)); nia).
    destruct (resize_sender_ok update l1 page_size c offset Hp Hm Hs Hw) as (c' & l & E1 & S1 & S2 & S3 & S4 & S5); fold fifo_size start; try lia.
    destruct (resize_receiver_ok update l1 page_size r offset Hp Hm) as (r' & l' & E2 & R2 & R4); rewrite ?Hr1, ?Hr2; try lia. rewrite Hr1, Hr2 in *.
    exists c', l, r', l'. split; [done|]. split; [done|]. fold start in S4. lia.
Qed.

(** Both ends of a ring of [n] bytes at 1024, at an offset: from 192 of 256 bytes to pages
    of 128, and at the end of the second page of 48 bytes. *)
Definition ring_l1 (n x : Z) : Z := if x =? 512 + 12 then n else 0.
Definition sender_at (offset : Z) : RemoteSenderCBInterface := mkSender 512 1024 1280 64 (1024 + offset) 600 640 1.
Definition receiver_at (offset : Z) : RemoteReceiverCBInterface := mkReceiver 512 1024 1280 64 (1024 + offset) 1 1 656.

Lemma not_pow2 p k : 0 < k -> 2 ^ k < p < 2 ^ (k + 1) -> forall j, p <> 2 ^ j.
Proof.
  intros Hk [H1 H2] j ->. destruct (Z.lt_ge_cases j 0); [rewrite (Z.pow_neg_r 2 j) in H1 by done; pose proof (Z.pow_pos_nonneg 2 k); lia|].
  apply Z.pow_lt_mono_r_iff in H1, H2; lia.
Qed.

Lemma resize_misplaces_pages_witness :
  (exists c' l r' l', resize_remote_sender_cb_interface true (ring_l1 256) 128 (sender_at 192) = Ok (c', l) /\ resize_remote_receiver_cb_interface true (ring_l1 256) 128 (receiver_at 192) = Ok (r', l') /\ r_fifo_rd_ptr r' = 1280) /\
  exists c' l, resize_remote_sender_cb_interface true (ring_l1 480) 48 (sender_at 96) = Ok (c', l) /\ 96 < s_fifo_wr_ptr c' - 1024 < 144.
Proof.
  split.
  - destruct (resize_misplaces_pages true (ring_l1 256) 128 (sender_at 192) (receiver_at 192)) as [H _]; [vm_compute; congruence..|].
    destruct (H 7 ltac:(lia) ltac:(reflexivity) ltac:(by exists 2) ltac:(vm_compute; done)) as (c' & l & r' & l' & E1 & E2 & E3 & E4 & _). exists c', l, r', l'. split; [exact E1|]. split; [exact E2|]. rewrite E3, E4. reflexivity.
  - destruct (resize_misplaces_pages true (ring_l1 480) 48 (sender_at 96) (receiver_at 96)) as [_ H]; [vm_compute; congruence..|].
    destruct (H (not_pow2 48 5 ltac:(lia) ltac:(split; reflexivity)) ltac:(reflexivity) ltac:(vm_compute; congruence)) as (c' & l & _ & _ & E1 & _ & E2 & _). exists c', l. split; [exact E1|]. exact E2.
Defined.

(** ** Witness: a block of two rows for two receivers, split at the end of the ring *)

Definition demo_sender : RemoteSenderCBInterface := mkSender 512 1024 1280 64 1280 600 640 2.
Definition demo_receiver : RemoteReceiverCBInterface := mkReceiver 512 1024 1280 64 1024 1 1 656.

Lemma demo_meets : meets 128 demo_sender demo_receiver.
Proof. split; cbn; try lia; [split; [lia|by exists 2]|split; [lia|by exists 0]|reflexivity]. Qed.

Lemma remote_block_delivered_witness :
  exists c' packets increments l, remote_cb_push_back_and_write_pages 4096 2 2 1 64 demo_sender = Ok (c', packets, increments) /\ packets !! 1%nat = Some l /\
    meets (2 * (1 * 64)) c' (remote_cb_pop_front 2 demo_receiver).1 /\ deliver (fun x => x) l (fun _ => 0) 1093 = 4096 + 192 + 5.
Proof.
  destruct (remote_block_delivered demo_sender demo_receiver 4096 2 2 1 64 demo_meets ltac:(reflexivity) ltac:(lia) ltac:(lia) ltac:(lia) ltac:(lia) ltac:(cbn; lia) (fun x => x) 1 ltac:(cbn; lia)) as (c' & pk & inc & l & H1 & H2 & H3 & H4).
  exists c', pk, inc, l. split; [exact H1|]. split; [exact H2|]. split; [exact H3|]. destruct (H4 (fun _ => 0)) as [H5 _]. exact (H5 1 5 ltac:(lia) ltac:(lia)).
Defined.
